(* ===== verification/_CoqProject ===== *)
-Q . S2P
Prelude.v
Order.v
Hosts.v
RouterTypes.v
Canary.v
Paths.v
Stats.v
Backends.v
Table.v
Builder.v
Rng.v
Helper.v
Tls.v
Pool.v
Codec.v
Chunked.v
Head.v
NetText.v
Limits.v
F64.v
Json.v
Annotations.v
Metrics.v
Scrape.v
Rates.v
Config.v
Promotion.v
Cluster.v
Endpoints.v
Secrets.v
Plans.v
Translate.v
Totality.v
Diagnostics.v
Status.v
Rebuild.v
Diff.v
Dates.v
ProxyProtocol.v
Forwarding.v
Mirror.v
ProxyHeaders.v
ProxyBody.v
Conn.v
Reactor.v
Worker.v
Serving.v
Loop.v
Exchange.v
History.v
Publisher.v
Admin.v
Flags.v
Static.v
Console.v
TopFlags.v
