(* ===== verification/Prelude.v ===== *)
(** * Ramjet: an ingress controller and its data plane, verified

    Ramjet watches Kubernetes Ingress objects, compiles them into an immutable
    routing table and serves HTTP/1.1 traffic by it.  This library models its
    own logic - not the kernel, the TLS stack or the Kubernetes client - in the
    order the data flows, and proves what makes each part correct.

    The program, and who models it:

    - Router ([crates/ramjet-router]).  [Hosts] (host.rs: normalisation),
      [Paths] (path.rs: rules and precedence), [Canary] (canary.rs, mirror.rs),
      [Stats] (stats.rs: counters shared by generations, on an explicit heap),
      [Backends] (backend.rs: weighted rings and endpoint choice), [Table]
      (table.rs, tls.rs: matching, SNI, reports, publication), [Builder]
      (builder.rs: validation and the freezing of a table).  [RouterTypes]
      holds the shared data.
    - Controller ([crates/ramjet-controller]).  [Annotations] (annotations.rs),
      [Config] (config.rs and object names), [Cluster] (snapshot.rs, class.rs),
      [Endpoints] (endpoints.rs), [Secrets] (digest.rs, tls.rs), [Plans] and
      [Translate] (translate.rs), [Totality] (the theorems of a whole pass),
      [Diff] (diff.rs), [Diagnostics] (diagnostics.rs), [Status] (status.rs,
      annotate.rs: what is written back onto Ingresses), [Rebuild] (watch.rs: a
      turn of the rebuild loop).
    - Engine ([crates/ramjet-engine]).  [Codec], [Chunked], [Head] (codec/*.rs:
      chunked bodies, request and response heads, framing), [Forwarding]
      (headers.rs, route.rs: the heads written upstream and downstream, the
      choice of endpoint and retries), [Pool] (engine/pool.rs), [Rng] (rng.rs),
      [Limits] (limits.rs: answers of the engine's own), [Tls] (tls.rs: a
      session and its handover), [Mirror] (mirror.rs), [Helper] (helper.rs: the
      thread of connects and ticks).  The serving core of engine/worker.rs is
      [Conn] (tags, body cursors, the connection), [Reactor] (slots,
      generations, the calls to the world, accounting) and [Worker] (one
      definition per handler, [turn] and [run]); [Serving] is how its handlers
      are reasoned about, [Loop] proves its loop, [Exchange] its exchanges.
    - Proxy ([crates/ramjet-proxy]).  [ProxyProtocol] (proxy_protocol.rs),
      [History] (history.rs and the store of tls.rs: publication, rollback pin,
      audit ring), [Metrics] (metrics.rs of both engines: counters, histograms,
      the page of either), [ProxyHeaders] (headers.rs, rng.rs and their use in
      forward.rs), [ProxyBody] (body.rs, the request body of http3.rs, the
      reading of an upload for a copy in mirror.rs), [Admin] (admin.rs: the token gate, the listings,
      rollback and resume).
    - Daemon ([crates/ramjet-ingressd]).  [Flags] (args.rs: the command line
      and the environment), [Static] (config.rs: the static route file),
      [Promotion] (promotion.rs: canary auto-promotion), [Publisher] (certs.rs,
      kubernetes.rs).
    - Dashboard ([crates/ramjet-top]).  [TopFlags] (args.rs), [Scrape] (prom.rs:
      the scanner of the metrics page), [Rates] (model.rs and contract.rs:
      baselines, rates, the order of the rows), [Console] (app.rs: the session,
      its keys and its confirmations), [Dates] (rfc3339.rs, with the writer of
      history.rs).
    - [Prelude], [Order], [NetText] and [F64] are what the Rust standard
      library gives: bytes, UTF-8, slices and iterators, results, orders and
      sorting, address and number syntax, IEEE doubles; [Json] is the value of serde_json.

    How they meet: [Rebuild.rebuild] is a turn of the controller;
    [Translate.translate] reads a [ClusterSnapshot] and drives
    the [Builder]; the built [Table] goes into a [CompiledConfig], which
    [Publisher] turns into parsed keys and [History] puts on the wire;
    a completion read by [Worker.dispatch] feeds a connection ([Tls],
    [ProxyProtocol]), whose request [Head] and [Chunked] parse, [Forwarding]
    routes by the published table through [Backends] and rewrites, and [Pool]
    and [Helper] connect; [Promotion] reads the counters of
    [Stats] and patches weights that the next [Translate] reads back.
    [Flags] and [Static] configure the daemon; [Metrics] counts what the
    engines serve and writes the page that [Scrape] reads, [Admin] writes the
    listing that [Rates] compares with its baseline, and [Console] sends the
    pin that [Admin] hands to [History].

    ** How the code is read

    A struct is a Record, an enum an Inductive with its variants, a function a
    Definition that returns the new state beside its result.  [&mut] arguments
    are threaded; [Result] is [result], an early return is its monadic bind, a
    panic is [None] where a theorem excludes or exhibits it.  Integers are [Z]
    with the wrap-around or saturation of the code written out; strings are
    lists of bytes, with [utf8_valid] where a slice could panic.  Shared
    atomics live in the [Heap] and store of [Stats]; concurrency is a step
    relation over them ([Stats.step], [History.history_step],
    [Builder.builder_step]) with invariants by rule induction.  Loops without
    a structural measure carry fuel: [Backends.ring_loop] the number of slots
    (shown sufficient by [select_endpoint_total] and [round_robin_share]), the
    decimal printers their digit count, the address readers the number of
    groups left.  The handlers of a core run in a state monad over [Worker]
    that keeps a log of every call to the outside; their mutual recursion
    ([advance], [open_upstream], [drive]) is cut by one number, and
    [core_always_returns] shows that from some number on the result is there
    and does not change: what bounds it is the bytes a connection has buffered
    and the endpoints its request has left.

    What lies outside the repository is an interface with its laws:
    [RegexEngine] (the regex crate), [HashOrder] (unspecified iteration order
    of hash maps), [SwapCell] (arc_swap), [Rustls] (PEM and key loading),
    [TlsStack] (rustls sessions), [HttpTypes] (the http crate), [Encoder]
    (the response encoder of ramjet_http), [World] (kernel, reactor, clock and
    the other threads: what a call answers given everything that happened),
    [KubeApi] (the API server the status writer patches), [HeaderMapOps] (the
    header map of the http crate), [BodyStream] and [RecvStream] (hyper's and
    h3's streams),
    [SerdeJson] (serde_json), [ConstantTimeEq] (the token comparison),
    [AdminHttp] (hyper's requests and responses), [Exposition] (the page the
    serving engine writes), [StaticFiles] (YAML and files), [Selection] (the
    list widgets) and [CaseMap] (Unicode lower case).
    Kubernetes API types are records of the fields read.  The clock, random
    rolls and error texts of other crates are arguments.

    ** What the theorems show

    - The serving core: [core_always_returns] (it never hangs or panics,
      whatever is delivered to it), [drain_waits_for_answers] and
      [drain_client_exact] (a graceful stop), [response_relayed],
      [finish_response_exact] and [body_relay_exact] (an exchange),
      [never_sent_again], [closed_descriptor_deaf], [tag_roundtrip],
      [handoff_replays_every_byte]; its helper thread:
      [notes_survive_splitting], [helper_answers_every_job],
      [unpolled_job_reported].
    - The whole pass: [translate_total] (nothing in an accepted object stops a
      rebuild), [planned_route_served] and [first_claim_wins] (the table holds
      exactly what the specification of claims promises, with the addresses of
      [resolution_exact]), [translate_deterministic] (one cluster state, one
      digest), [steady_cluster_is_quiet] (a turn over an unchanged cluster
      publishes, writes and patches nothing), [status_settles] (what the
      status writer leaves on every Ingress), [certificates_available], [digest_separates],
      [promotion_policy_sane].
    - The table: [match_request_refines], [best_rule_answers],
      [built_table_closed], [configured_host_is_served], [build_verdict],
      [route_counters_follow_identity].
    - Endpoint choice and counters: [select_endpoint_total],
      [round_robin_share], [inflight_balanced], [rebuild_carries_counters],
      [attribution_stable], [retry_plan], [pool_conserves_descriptors].
    - The wire: [request_framing_exact], [chunked_scan_exact] with its
      splitting and totality, [parsed_head_sound], [request_head_roundtrip],
      [request_head_resume], [rewrite_keeps_framing],
      [identity_fields_written], [fields_forwarded_alike] (the hyper proxy lets
      the same fields cross the hop as the engine), [mirrored_upload_exact]
      (what reading an upload for a copy does to it), [accept_transparent], [v2_roundtrip].
    - Generations and rollouts: [pin_holds_wire], [gate_invariant],
      [publication_seamless_iff], [diff_empty_iff], [events_follow_state],
      [rollout_terminates], [rollout_promotes], [pass_acts_on_evidence].
    - Operation: [precedence] and [parsed_args_sane] (a flag wins over its
      variable, and what any accepted command line is bounded by),
      [top_options_sane], [static_file_served] (an accepted route file is
      served whole), [writes_need_the_token] and [rollback_exact] (the admin
      API), [one_page_whoever_serves] (either engine writes the same page),
      [scrape_reads_page] (the dashboard reads back what the page says),
      [dashboard_reads_routes] (and what the listing says),
      [rates_are_evidence] and [rows_in_order] (what it makes of them),
      [brake_is_deliberate] (no pin without a shown, confirmed prompt).

    ** Not modelled, and why

    The reactor itself (io_uring and its fallback), the binding of sockets and
    the starting of threads (engine.rs, sys.rs), and the proxy crate's hyper,
    HTTP/3 and TLS servers: asynchronous I/O around the models above.  The
    watches and their debounce, the audit webhook: Kubernetes client I/O.  The dashboard's HTTP
    client and terminal (client.rs, ui.rs, plain.rs), help and usage texts,
    benchmarks and manifests: text and wiring. *)

From stdpp Require Export base tactics numbers list gmap strings fin_maps option sorting.
From Stdlib Require Export ZArith Lia ZifyBool.
From Stdlib Require Ascii String.

Declare Scope ramjet_scope.
Delimit Scope ramjet_scope with ramjet.
Global Open Scope Z_scope.
Global Open Scope ramjet_scope.

(** ** Bytes and byte strings

    A [u8] is a [Z] in [0, 256); [&[u8]] and [&str] are lists of them.  A Rust
    [&str] is additionally valid UTF-8, see [utf8_valid] below. *)

Abbreviation u8 := Z (only parsing).
Abbreviation u16 := Z (only parsing).
Abbreviation u32 := Z (only parsing).
Abbreviation u64 := Z (only parsing).
Abbreviation usize := nat (only parsing).
Abbreviation bytes := (list Z) (only parsing).
Abbreviation str := (list Z) (only parsing).

(** The bytes of an ASCII literal. *)
Fixpoint bytes_of_string (s : String.string) : bytes :=
  match s with
  | String.EmptyString => []
  | String.String a s' => Z.of_N (Ascii.N_of_ascii a) :: bytes_of_string s'
  end.

(** [bstr "text"] is a byte-string literal and [chr "x"] a byte literal, both
    evaluated when they are parsed. *)
Notation "'bstr' s" :=
  (ltac:(let v := eval vm_compute in (bytes_of_string s%string) in exact v))
  (at level 10, s at level 9, only parsing) : ramjet_scope.
Notation "'chr' s" :=
  (ltac:(let v := eval vm_compute in (hd 0 (bytes_of_string s%string)) in exact v))
  (at level 10, s at level 9, only parsing) : ramjet_scope.

Definition SP : u8 := 32.
Definition HTAB : u8 := 9.
Definition CR : u8 := 13.
Definition LF : u8 := 10.

Definition is_byte (b : Z) : Prop := 0 <= b < 256.

(** [u8::is_ascii_uppercase], [u8::to_ascii_lowercase], ... *)
Definition is_ascii_uppercase (b : u8) : bool := (65 <=? b) && (b <=? 90).
Definition is_ascii_lowercase (b : u8) : bool := (97 <=? b) && (b <=? 122).
Definition is_ascii_digit (b : u8) : bool := (48 <=? b) && (b <=? 57).
Definition is_ascii_alphanumeric (b : u8) : bool :=
  is_ascii_digit b || is_ascii_uppercase b || is_ascii_lowercase b.
Definition to_ascii_lowercase (b : u8) : u8 :=
  if is_ascii_uppercase b then b + 32 else b.

(** [str::to_ascii_lowercase] and [eq_ignore_ascii_case]. *)
Definition lower (s : str) : str := map to_ascii_lowercase s.
Definition eq_ignore_ascii_case (a b : bytes) : bool :=
  bool_decide (lower a = lower b).

(** ** Machine integers *)

Definition u16_max : Z := 65535.
Definition u32_max : Z := 4294967295.
Definition u64_max : Z := 18446744073709551615.

Definition wrap (w : Z) (x : Z) : Z := x mod 2 ^ w.
Definition wrap8 : Z -> Z := wrap 8.
Definition wrap16 : Z -> Z := wrap 16.
Definition wrap32 : Z -> Z := wrap 32.
Definition wrap64 : Z -> Z := wrap 64.

Definition fits (w : Z) (x : Z) : Prop := 0 <= x < 2 ^ w.

Definition sat_add (max x y : Z) : Z := Z.min max (x + y).
Definition sat_sub (x y : Z) : Z := Z.max 0 (x - y).
Definition sat_mul (max x y : Z) : Z := Z.min max (x * y).
Definition checked_mul (max x y : Z) : option Z :=
  if x * y <=? max then Some (x * y) else None.
Definition checked_add (max x y : Z) : option Z :=
  if x + y <=? max then Some (x + y) else None.
Definition checked_div (x y : Z) : option Z :=
  if y =? 0 then None else Some (x / y).

(** ** Results *)

Inductive result (E A : Type) : Type :=
| Ok (a : A)
| Err (e : E).
Arguments Ok {E A} a.
Arguments Err {E A} e.

#[export] Instance result_ret E : MRet (result E) := fun A a => Ok a.
#[export] Instance result_bind E : MBind (result E) := fun A B f r =>
  match r with Ok a => f a | Err e => Err e end.

Definition ok_or {E A} (o : option A) (e : E) : result E A :=
  match o with Some a => Ok a | None => Err e end.
Definition map_err {E E' A} (f : E -> E') (r : result E A) : result E' A :=
  match r with Ok a => Ok a | Err e => Err (f e) end.
Definition is_ok {E A} (r : result E A) : bool :=
  match r with Ok _ => true | Err _ => false end.

#[export] Instance result_eq_dec E A `{EqDecision E, EqDecision A} :
  EqDecision (result E A).
Proof. solve_decision. Defined.

(** ** Assignment to a field: [r <| field := value |>]

    One [Setter] instance per field that the code assigns, derived from the
    record's eta expansion by [derive_setter]. *)

Class Setter {R E : Type} (field : R -> E) := set_field : E -> R -> R.
Notation "r <| f := v |>" := (set_field (field := f) v r)
  (at level 1, left associativity, f constr at level 9, v constr at level 99) : ramjet_scope.
Ltac derive_setter eta :=
  lazymatch goal with
  | |- @Setter ?R ?E ?f =>
      let v := fresh "v" in let r := fresh "r" in intros v r;
      let e := eval red in (eta r) in
      let p := eval pattern (f r) in e in
      lazymatch p with ?g _ => let b := eval cbv beta in (g v) in exact b end
  end.

(** ** Iterator and slice operations of the Rust standard library *)

(** [iter().position(p)]. *)
Fixpoint position {A} (p : A -> bool) (l : list A) : option nat :=
  match l with
  | [] => None
  | x :: l' => if p x then Some 0%nat else S <$> position p l'
  end.

(** [iter().find(p)]. *)
Fixpoint find_first {A} (p : A -> bool) (l : list A) : option A :=
  match l with
  | [] => None
  | x :: l' => if p x then Some x else find_first p l'
  end.

(** [slice.get(..n)]. *)
Definition get_to {A} (l : list A) (n : nat) : option (list A) :=
  if (n <=? length l)%nat then Some (take n l) else None.
(** [slice.get(a..b)]. *)
Definition get_range {A} (l : list A) (a b : nat) : option (list A) :=
  if (a <=? b)%nat && (b <=? length l)%nat then Some (take (b - a) (drop a l)) else None.

(** [windows(n).position(|w| w == pat)] for a non-empty pattern of length n. *)
Fixpoint find_sub (pat : bytes) (l : bytes) : option nat :=
  match l with
  | [] => None
  | x :: l' =>
      if bool_decide (take (length pat) l = pat) then Some 0%nat
      else S <$> find_sub pat l'
  end.

Fixpoint starts_with (p s : bytes) : bool :=
  match p, s with
  | [], _ => true
  | _ :: _, [] => false
  | x :: p', y :: s' => (x =? y) && starts_with p' s'
  end.
(** [str::strip_prefix]. *)
Definition strip_prefix (p s : bytes) : option bytes :=
  if starts_with p s then Some (drop (length p) s) else None.

Fixpoint drop_while {A} (p : A -> bool) (l : list A) : list A :=
  match l with
  | [] => []
  | x :: l' => if p x then drop_while p l' else l
  end.
(** [str::trim_end_matches] for one ASCII character. *)
Definition trim_end_matches (c : u8) (s : str) : str :=
  rev (drop_while (fun b => b =? c) (rev s)).

(** [split(c)]: always at least one piece. *)
Fixpoint split_on (c : u8) (s : bytes) : list bytes :=
  match s with
  | [] => [[]]
  | b :: s' =>
      if b =? c then [] :: split_on c s'
      else match split_on c s' with
           | [] => [[b]]
           | piece :: rest => (b :: piece) :: rest
           end
  end.
(** [str::split_once(c)]. *)
Fixpoint split_once (c : u8) (s : bytes) : option (bytes * bytes) :=
  match s with
  | [] => None
  | b :: s' =>
      if b =? c then Some ([], s')
      else (fun '(x, y) => (b :: x, y)) <$> split_once c s'
  end.

(** A stable sort, [slice::sort_by_key]: [le] compares the keys. *)
Section sort.
Context {A : Type} (le : A -> A -> bool).
Fixpoint insert_by (x : A) (l : list A) : list A :=
  match l with
  | [] => [x]
  | y :: l' => if le x y then x :: y :: l' else y :: insert_by x l'
  end.
Definition sort_by (l : list A) : list A := foldr insert_by [] l.
End sort.

(** ** UTF-8, as [core::str::from_utf8] validates it *)

Definition is_cont (b : u8) : bool := (128 <=? b) && (b <=? 191).

Fixpoint utf8_valid (s : bytes) : bool :=
  match s with
  | [] => true
  | b0 :: s0 =>
      if b0 <? 128 then utf8_valid s0
      else match s0 with
      | [] => false
      | b1 :: s1 =>
          if (194 <=? b0) && (b0 <=? 223) then is_cont b1 && utf8_valid s1
          else match s1 with
          | [] => false
          | b2 :: s2 =>
              if ((b0 =? 224) && (160 <=? b1) && (b1 <=? 191))
                 || ((225 <=? b0) && (b0 <=? 236) && is_cont b1)
                 || ((b0 =? 237) && (128 <=? b1) && (b1 <=? 159))
                 || ((238 <=? b0) && (b0 <=? 239) && is_cont b1)
              then is_cont b2 && utf8_valid s2
              else match s2 with
              | [] => false
              | b3 :: s3 =>
                  (((b0 =? 240) && (144 <=? b1) && (b1 <=? 191))
                   || ((241 <=? b0) && (b0 <=? 243) && is_cont b1)
                   || ((b0 =? 244) && (128 <=? b1) && (b1 <=? 143)))
                  && is_cont b2 && is_cont b3 && utf8_valid s3
              end
          end
      end
  end.

(** [str::is_char_boundary] and [str::get(..n)]. *)
Definition is_char_boundary (s : str) (n : nat) : bool :=
  match n with
  | 0%nat => true
  | _ => match s !! n with
         | Some b => negb (is_cont b)
         | None => (n =? length s)%nat
         end
  end.
Definition str_get_to (s : str) (n : nat) : option str :=
  if is_char_boundary s n then Some (take n s) else None.

(** [str::from_utf8(..).ok()]. *)
Definition from_utf8 (s : bytes) : option str :=
  if utf8_valid s then Some s else None.

(** ** Socket addresses ([std::net]) *)

Inductive IpAddr :=
| IpV4 (octets : list u8)
| IpV6 (octets : list u8).
Inductive SocketAddr :=
| SocketV4 (ip : list u8) (port : u16)
| SocketV6 (ip : list u8) (port : u16) (flowinfo scope_id : u32).

#[export] Instance IpAddr_eq_dec : EqDecision IpAddr.
Proof. solve_decision. Defined.
#[export] Instance SocketAddr_eq_dec : EqDecision SocketAddr.
Proof. solve_decision. Defined.
#[export] Instance SocketAddr_countable : Countable SocketAddr.
Proof.
  refine (inj_countable'
    (fun a => match a with
              | SocketV4 ip p => inl (ip, p)
              | SocketV6 ip p f s => inr (ip, p, f, s)
              end)
    (fun x => match x with
              | inl (ip, p) => SocketV4 ip p
              | inr (ip, p, f, s) => SocketV6 ip p f s
              end) _).
  by intros [].
Defined.

(** * Automation and generic lemmas *)

(** Case analysis on every [if] and [match] of the goal. *)
Ltac cases_goal := repeat (case_match; simplify_eq/=; try done).

(** Splits boolean conjunctions and disjunctions of the hypotheses. *)
Ltac bools :=
  repeat match goal with
  | H : _ && _ = true |- _ => apply andb_true_iff in H as [? ?]
  | H : _ || _ = false |- _ => apply orb_false_iff in H as [? ?]
  | H : negb _ = true |- _ => apply negb_true_iff in H
  | H : negb _ = false |- _ => apply negb_false_iff in H
  | H : bool_decide _ = true |- _ => apply bool_decide_eq_true in H
  | H : bool_decide _ = false |- _ => apply bool_decide_eq_false in H
  end.

Create HintDb ramjet.
Create Rewrite HintDb ramjet.
#[export] Hint Resolve list_elem_of_here list_elem_of_further NoDup_singleton : ramjet.

(** Rule induction over the reachable states of a step relation. *)
Lemma rtc_invariant {A} (R : relation A) (P : A -> Prop) x y :
  P x -> (forall a b, P a -> R a b -> P b) -> rtc R x y -> P y.
Proof. intros Hx Hs Hr. revert Hx. induction Hr; eauto. Qed.

(** ** [position] and [find_first] *)

Section search.
Context {A : Type} (p : A -> bool).

Lemma position_Some l i :
  position p l = Some i <->
  exists x, l !! i = Some x /\ p x = true /\ Forall (fun y => p y = false) (take i l).
Proof.
  revert i. induction l as [|y l IH]; intros i; simpl.
  - split; [done|]. by intros (?&?&_).
  - destruct (p y) eqn:Hy.
    + split.
      * intros [= <-]. exists y. repeat split; [done|constructor].
      * intros (x&Hx&Hp&Hall). destruct i as [|i]; [done|]. simpl in Hall.
        apply Forall_cons in Hall as [? ?]. congruence.
    + rewrite fmap_Some. setoid_rewrite IH. split.
      * intros (j&(x&?&?&?)&->). exists x. simpl. repeat split; auto.
      * intros (x&Hx&Hp&Hall). destruct i as [|i]; simplify_eq/=; [congruence|].
        apply Forall_cons in Hall as [? ?]. eauto 10.
Qed.

Lemma position_None l : position p l = None <-> Forall (fun y => p y = false) l.
Proof.
  induction l as [|y l IH]; simpl.
  - split; [constructor|done].
  - rewrite Forall_cons, <- IH. destruct (p y); [naive_solver|].
    rewrite fmap_None. naive_solver.
Qed.

Lemma position_lt l i : position p l = Some i -> (i < length l)%nat.
Proof. rewrite position_Some. intros (?&?&_). by eapply lookup_lt_Some. Qed.

Lemma position_app l k :
  position p (l ++ k) =
  match position p l with
  | Some i => Some i
  | None => Nat.add (length l) <$> position p k
  end.
Proof.
  induction l as [|y l IH]; simpl; [by destruct (position p k)|].
  destruct (p y); [done|]. rewrite IH.
  destruct (position p l); [done|]. by destruct (position p k).
Qed.

Lemma position_split l x k :
  Forall (fun y => p y = false) l -> p x = true ->
  position p (l ++ x :: k) = Some (length l).
Proof.
  intros Hl Hx. rewrite position_app, (proj2 (position_None l) Hl). simpl.
  rewrite Hx. simpl. f_equal. lia.
Qed.

Lemma find_first_Some l x :
  find_first p l = Some x <->
  exists l1 l2, l = l1 ++ x :: l2 /\ p x = true /\ Forall (fun y => p y = false) l1.
Proof.
  induction l as [|y l IH]; simpl.
  - split; [done|]. intros ([|]&?&?&_); done.
  - destruct (p y) eqn:Hy.
    + split.
      * intros [= <-]. exists [], l. repeat split; [done|constructor].
      * intros ([|z l1]&l2&?&?&Hall); simplify_eq/=; [done|].
        apply Forall_cons in Hall as [? ?]. congruence.
    + rewrite IH. split.
      * intros (l1&l2&->&?&?). exists (y :: l1), l2. auto.
      * intros ([|z l1]&l2&?&?&Hall); simplify_eq/=; [congruence|].
        apply Forall_cons in Hall as [? ?]. eauto.
Qed.

Lemma find_first_None l :
  find_first p l = None <-> Forall (fun y => p y = false) l.
Proof.
  induction l as [|y l IH]; simpl.
  - split; [constructor|done].
  - rewrite Forall_cons, <- IH. destruct (p y); naive_solver.
Qed.

Lemma find_first_elem l x : find_first p l = Some x -> x ∈ l /\ p x = true.
Proof.
  rewrite find_first_Some. intros (l1&l2&->&?&_). split; [set_solver|done].
Qed.
End search.

Lemma find_first_filter {A} (p q : A -> bool) l :
  find_first p (List.filter q l) = find_first (fun x => q x && p x) l.
Proof.
  induction l as [|x l IH]; simpl; [done|]. destruct (q x); simpl; [|done]. by rewrite IH.
Qed.

Lemma find_first_omap {A C} (f : A -> option C) (p : C -> bool) l x :
  find_first p (omap f l) = Some x ->
  exists l1 d l2, l = l1 ++ d :: l2 /\ f d = Some x /\
    Forall (fun d' => forall y, f d' = Some y -> p y = false) l1.
Proof.
  induction l as [|d l IH]; simpl; [done|]. intros Hf. destruct (f d) as [y|] eqn:Hd; simpl in Hf.
  - destruct (p y) eqn:Hp; [injection Hf as ->; exists [], d, l; by repeat constructor|].
    destruct (IH Hf) as (l1&d'&l2&->&?&?). exists (d :: l1), d', l2.
    repeat constructor; [done|congruence|done].
  - destruct (IH Hf) as (l1&d'&l2&->&?&?). exists (d :: l1), d', l2.
    repeat constructor; [done|congruence|done].
Qed.

Lemma split_once_Some c s a b :
  split_once c s = Some (a, b) <-> s = a ++ c :: b /\ c ∉ a.
Proof.
  revert a. induction s as [|x s IH]; intros a; simpl.
  { split; [done|]. by intros [? _]; destruct a. }
  destruct (x =? c) eqn:E.
  - assert (x = c) as -> by lia. split.
    + intros [= <- <-]. split; [done|set_solver].
    + intros [Heq Hn]. destruct a as [|y a]; simplify_eq/=; [done|set_solver].
  - rewrite fmap_Some. split.
    + intros ([a' b']&Hs&[= -> ->]). apply IH in Hs as [-> ?]. split; [done|].
      rewrite not_elem_of_cons. split; [lia|done].
    + intros [Heq Hn]. destruct a as [|y a]; simplify_eq/=; [lia|].
      exists (a, b). split; [|done]. apply IH. split; [done|set_solver].
Qed.

Lemma split_on_nonempty c s : split_on c s <> [].
Proof. destruct s as [|b s]; simpl; [done|]. case_match; [done|]. by case_match. Qed.

Lemma split_on_first c a b : c ∉ a -> split_on c (a ++ c :: b) = a :: split_on c b.
Proof.
  induction a as [|x a IH]; simpl; [by rewrite Z.eqb_refl|].
  rewrite not_elem_of_cons. intros [? Ha]. replace (x =? c) with false by lia. by rewrite IH.
Qed.

Lemma split_on_none c a : c ∉ a -> split_on c a = [a].
Proof.
  induction a as [|x a IH]; simpl; [done|]. rewrite not_elem_of_cons. intros [? Ha].
  replace (x =? c) with false by lia. by rewrite IH.
Qed.

(** ** [find_sub] *)

(** [pat] occurs in [l] at [j]. *)
Definition occurs_at (pat l : bytes) (j : nat) : Prop := take (length pat) (drop j l) = pat.

Lemma find_sub_None pat l :
  pat <> [] -> find_sub pat l = None <-> forall j, ~ occurs_at pat l j.
Proof.
  intros Hp. induction l as [|x l IH]; simpl.
  - split; [|done]. intros _ j Ho. unfold occurs_at in Ho. rewrite drop_nil, take_nil in Ho. congruence.
  - case_bool_decide as Hx.
    + split; [done|]. intros H. by destruct (H 0%nat).
    + rewrite fmap_None, IH. split.
      * intros H [|j]; [exact Hx|apply H].
      * intros H j. apply (H (S j)).
Qed.

Lemma find_sub_Some pat l i :
  pat <> [] ->
  find_sub pat l = Some i <-> occurs_at pat l i /\ forall j, (j < i)%nat -> ~ occurs_at pat l j.
Proof.
  intros Hp. revert i. induction l as [|x l IH]; intros i; simpl.
  - split; [done|]. intros [Ho _]. unfold occurs_at in Ho. rewrite drop_nil, take_nil in Ho. congruence.
  - case_bool_decide as Hx.
    + split.
      * intros [= <-]. split; [exact Hx|lia].
      * intros [Ho Hm]. destruct i as [|i]; [done|]. by destruct (Hm 0%nat); [lia|].
    + rewrite fmap_Some. setoid_rewrite IH. split.
      * intros (j&[Ho Hm]&->). split; [exact Ho|]. intros [|k] Hk; [exact Hx|]. apply Hm. lia.
      * intros [Ho Hm]. destruct i as [|i]; [done|]. exists i. split; [|done]. split; [exact Ho|].
        intros k Hk. apply (Hm (S k)). lia.
Qed.

Lemma occurs_at_split pat l j : occurs_at pat l j -> l = take j l ++ pat ++ drop (j + length pat) l.
Proof.
  intros Ho. rewrite <- drop_drop, <- Ho at 1. by rewrite !take_drop.
Qed.

Lemma occurs_at_length pat l j : pat <> [] -> occurs_at pat l j -> (j + length pat <= length l)%nat.
Proof.
  intros Hp Ho. apply (f_equal length) in Ho. rewrite length_take, length_drop in Ho.
  destruct pat; [done|]. cbn [length] in *. lia.
Qed.

Lemma occurs_at_middle pre pat k : occurs_at pat (pre ++ pat ++ k) (length pre).
Proof. unfold occurs_at. by rewrite drop_app_length, take_app_length. Qed.

Lemma occurs_at_app_r pat pre l j :
  (length pre <= j)%nat -> occurs_at pat (pre ++ l) j <-> occurs_at pat l (j - length pre).
Proof. intros. unfold occurs_at. by rewrite drop_app_ge. Qed.

Lemma occurs_at_app_l pat l more j :
  (j + length pat <= length l)%nat -> occurs_at pat (l ++ more) j <-> occurs_at pat l j.
Proof.
  intros. unfold occurs_at. rewrite drop_app_le, take_app_le; [done| |lia].
  rewrite length_drop. lia.
Qed.

(** ** Prefixes and trimming *)

Lemma starts_with_spec p s : starts_with p s = true <-> exists k, s = p ++ k.
Proof.
  revert s. induction p as [|x p IH]; intros [|y s]; simpl.
  - naive_solver.
  - naive_solver.
  - split; [done|]. by intros [].
  - rewrite andb_true_iff, Z.eqb_eq, IH. naive_solver.
Qed.

Lemma strip_prefix_Some p s k : strip_prefix p s = Some k <-> s = p ++ k.
Proof.
  unfold strip_prefix. destruct (starts_with p s) eqn:E.
  - apply starts_with_spec in E as [k' ->]. rewrite drop_app_length. naive_solver.
  - split; [done|]. intros ->. assert (starts_with p (p ++ k) = true); [|congruence].
    apply starts_with_spec. eauto.
Qed.

Lemma drop_while_split {A} (p : A -> bool) l :
  exists k, l = k ++ drop_while p l /\ Forall (fun x => p x = true) k /\
    (forall x, head (drop_while p l) = Some x -> p x = false).
Proof.
  induction l as [|x l (k&Hk&Hall&Hh)]; simpl; [by exists []|].
  destruct (p x) eqn:Hp.
  - exists (x :: k). split_and!; [simpl; congruence|by constructor|done].
  - exists []. split_and!; [done|constructor|]. simpl. congruence.
Qed.

Lemma last_rev {A} (l : list A) : last (rev l) = head l.
Proof. destruct l as [|x l]; [done|]. simpl. apply last_snoc. Qed.

(** What trimming removes, and what it leaves in front. *)
Lemma trim_end_split c s :
  exists n, s = trim_end_matches c s ++ replicate n c /\ last (trim_end_matches c s) <> Some c.
Proof.
  unfold trim_end_matches.
  destruct (drop_while_split (fun b => b =? c) (rev s)) as (k&Hk&Hall&Hh).
  exists (length k). split.
  - rewrite <- (rev_involutive s) at 1. rewrite Hk at 1. rewrite rev_app_distr. f_equal.
    assert (Hr : k = replicate (length k) c).
    { clear Hk. induction Hall as [|x k Hx Hk IH]; simpl; [done|].
      rewrite <- IH. f_equal. lia. }
    rewrite Hr, length_replicate. clear. induction (length k) as [|n IH]; [done|].
    simpl rev. rewrite IH. clear. induction n; [done|]. simpl. by f_equal.
  - rewrite last_rev. intros Hc%Hh. lia.
Qed.

Lemma position_ext {A} (p q : A -> bool) l :
  (forall x, p x = q x) -> position p l = position q l.
Proof. intros H. induction l as [|x l IH]; simpl; [done|]. by rewrite H, IH. Qed.

Lemma position_map {A C} (f : A -> C) (p : C -> bool) l :
  position p (map f l) = position (fun x => p (f x)) l.
Proof. induction l as [|x l IH]; simpl; [done|]. by rewrite IH. Qed.

(** ** Stable sort *)

Section sort_lemmas.
Context {A : Type} (le : A -> A -> bool).

Lemma insert_by_perm x l : insert_by le x l ≡ₚ x :: l.
Proof.
  induction l as [|y l IH]; simpl; [done|]. destruct (le x y); [done|].
  rewrite IH. apply Permutation_swap.
Qed.

Lemma sort_by_perm l : sort_by le l ≡ₚ l.
Proof.
  induction l as [|x l IH]; simpl; [done|]. rewrite insert_by_perm. by rewrite IH.
Qed.

Lemma elem_of_sort_by x l : x ∈ sort_by le l <-> x ∈ l.
Proof. by rewrite sort_by_perm. Qed.

Context (le_total : forall x y, le x y = false -> le y x = true).
Context (le_trans : forall x y z, le x y = true -> le y z = true -> le x z = true).

Lemma insert_by_sorted x l :
  StronglySorted (fun a b => le a b = true) l ->
  StronglySorted (fun a b => le a b = true) (insert_by le x l).
Proof.
  induction 1 as [|y l Hl IH Hy]; simpl; [repeat constructor|].
  destruct (le x y) eqn:E.
  - repeat (constructor; auto).
    eapply Forall_impl; [exact Hy|]. simpl. eauto.
  - constructor; [done|]. rewrite insert_by_perm. constructor; auto.
Qed.

Lemma sort_by_sorted l : StronglySorted (fun a b => le a b = true) (sort_by le l).
Proof. induction l; simpl; [constructor|by apply insert_by_sorted]. Qed.

(** Stability: elements the order does not distinguish keep their order. *)
Lemma insert_by_stable (Q : A -> bool) x l :
  (forall y, Q x = true -> Q y = true -> le x y = true) ->
  List.filter Q (insert_by le x l) = List.filter Q (x :: l).
Proof.
  intros H. induction l as [|y l IH]; simpl; [done|].
  destruct (le x y) eqn:E; simpl; [done|]. rewrite IH. simpl.
  destruct (Q x) eqn:Qx, (Q y) eqn:Qy; try done.
  by rewrite (H y) in E.
Qed.

Lemma sort_by_stable (Q : A -> bool) l :
  (forall x y, Q x = true -> Q y = true -> le x y = true) ->
  List.filter Q (sort_by le l) = List.filter Q l.
Proof.
  intros H. induction l as [|x l IH]; simpl; [done|].
  rewrite insert_by_stable by eauto. simpl. by rewrite IH.
Qed.

(** Scanning a sorted list for the first hit finds the earliest of the best
    hits of the unsorted list. *)
Lemma find_first_sorted (p : A -> bool) l x :
  find_first p (sort_by le l) = Some x ->
  (forall y, y ∈ l -> p y = true -> le x y = true) /\
  find_first (fun y => le x y && le y x && p y) l = Some x.
Proof.
  intros Hf. split.
  - apply find_first_Some in Hf as (l1&l2&Hl&Hp&Hn). intros y Hy Hpy.
    rewrite <- elem_of_sort_by, Hl in Hy. pose proof (sort_by_sorted l) as Hs. rewrite Hl in Hs.
    apply elem_of_app in Hy as [Hy|[->|Hy]%elem_of_cons].
    + rewrite Forall_forall in Hn. specialize (Hn _ Hy). congruence.
    + destruct (le x x) eqn:E; [done|]. by rewrite (le_total x x E) in E.
    + apply StronglySorted_app in Hs as (_&_&[_ Hall]%StronglySorted_inv).
      rewrite Forall_forall in Hall. by apply Hall.
  - rewrite <- (find_first_filter p (fun y => le x y && le y x)).
    rewrite <- sort_by_stable.
    + rewrite find_first_filter. apply find_first_Some.
      apply find_first_Some in Hf as (l1&l2&Hl&Hp&Hn). exists l1, l2. split_and!; [done| |].
      * assert (Hxx : le x x = true) by (destruct (le x x) eqn:E; [done|]; by rewrite (le_total x x E) in E).
        by rewrite Hxx, Hp.
      * eapply Forall_impl; [exact Hn|]. simpl. intros y ->. by rewrite andb_false_r.
    + intros y z Hy Hz. bools. eauto.
Qed.
End sort_lemmas.

(** ** Suffixes *)

(** *** [Iterator::filter] *)

Lemma in_filter {A : Type} (p : A -> bool) l x : x ∈ List.filter p l <-> x ∈ l /\ p x = true.
Proof. rewrite !list_elem_of_In. apply filter_In. Qed.

Lemma filter_perm {A : Type} (p : A -> bool) (l k : list A) : l ≡ₚ k -> List.filter p l ≡ₚ List.filter p k.
Proof.
  induction 1 as [|x l k _ IH|x y l|l k m _ IH1 _ IH2]; simpl; [done| | |by etrans].
  - destruct (p x); by rewrite ?IH.
  - destruct (p x), (p y); try done. apply Permutation_swap.
Qed.

Lemma filter_ext_in {A : Type} (p q : A -> bool) (l : list A) :
  (forall x, p x = q x) -> List.filter p l = List.filter q l.
Proof. intros He. induction l as [|x l IH]; [done|]. simpl. by rewrite He, IH. Qed.

Lemma elem_of_drop {A} n (l : list A) x : x ∈ drop n l -> x ∈ l.
Proof. intros H. rewrite <- (take_drop n l). apply elem_of_app. by right. Qed.

Lemma NoDup_drop {A} n (l : list A) : NoDup l -> NoDup (drop n l).
Proof. intros H. rewrite <- (take_drop n l) in H. by apply NoDup_app in H as (_&_&?). Qed.

(** The newest [n] of a list that grows at its end. *)
Definition newest {A} (n : nat) (l : list A) : list A := drop (length l - n) l.

Lemma newest_le {A} n (l : list A) : (length l <= n)%nat -> newest n l = l.
Proof. intros H. unfold newest. by replace (length l - n)%nat with 0%nat by lia. Qed.

Lemma length_newest {A} n (l : list A) : length (newest n l) = Nat.min n (length l).
Proof. unfold newest. rewrite length_drop. lia. Qed.

Lemma newest_app {A} n (l k : list A) : newest n (newest n l ++ k) = newest n (l ++ k).
Proof.
  unfold newest. rewrite !length_app, length_drop.
  destruct (decide (length l <= n)%nat).
  - by replace (length l - n)%nat with 0%nat by lia; rewrite drop_0, Nat.sub_0_r.
  - rewrite <- (drop_app_le l k (length l - n)) by lia. rewrite drop_drop. f_equal. lia.
Qed.

(** ** Slices and prefixes *)

Lemma get_to_app {A} (l k : list A) n x : get_to l n = Some x -> get_to (l ++ k) n = Some x.
Proof.
  unfold get_to. rewrite length_app. case_match; [|done]. intros [= <-].
  replace (n <=? length l + length k)%nat with true by lia. by rewrite take_app_le by lia.
Qed.

Lemma get_range_app {A} (l k : list A) a b x :
  get_range l a b = Some x -> get_range (l ++ k) a b = Some x.
Proof.
  unfold get_range. rewrite length_app. case_match; [|done]. intros [= <-]. bools.
  replace ((a <=? b)%nat && (b <=? length l + length k)%nat) with true by lia.
  rewrite drop_app_le by lia. rewrite take_app_le; [done|]. rewrite length_drop. lia.
Qed.

Lemma get_range_Some {A} (l : list A) a b x :
  get_range l a b = Some x -> (a <= b <= length l)%nat /\ length x = (b - a)%nat.
Proof.
  unfold get_range. case_match; [|done]. intros [= <-]. bools.
  rewrite length_take, length_drop. lia.
Qed.

Lemma get_range_None {A} (l : list A) a b :
  get_range l a b = None -> (b < a \/ length l < b)%nat.
Proof. unfold get_range. case_match; [done|]. lia. Qed.

(** A slice in the middle of a concatenation. *)
Lemma get_range_middle {A} (l m k : list A) a b :
  a = length l -> b = (length l + length m)%nat -> get_range (l ++ m ++ k) a b = Some m.
Proof.
  intros -> ->. unfold get_range. rewrite !length_app.
  replace (_ && _) with true by lia. rewrite drop_app_length.
  by replace (length l + length m - length l)%nat with (length m) by lia; rewrite take_app_length.
Qed.

(** ** Case folding *)

Lemma length_lower s : length (lower s) = length s.
Proof. apply List.length_map. Qed.

Lemma lower_app a b : lower (a ++ b) = lower a ++ lower b.
Proof. apply List.map_app. Qed.

Lemma to_ascii_lowercase_idem b : to_ascii_lowercase (to_ascii_lowercase b) = to_ascii_lowercase b.
Proof. unfold to_ascii_lowercase, is_ascii_uppercase. case_match; case_match; lia. Qed.

Lemma lower_idem s : lower (lower s) = lower s.
Proof.
  unfold lower. rewrite List.map_map. apply List.map_ext, to_ascii_lowercase_idem.
Qed.

Lemma lower_clean s : existsb is_ascii_uppercase s = false -> lower s = s.
Proof.
  induction s as [|b s IH]; simpl; [done|]. intros H. bools.
  unfold to_ascii_lowercase. rewrite H. by rewrite IH.
Qed.

Lemma lower_not_upper s : existsb is_ascii_uppercase (lower s) = false.
Proof.
  induction s as [|b s IH]; simpl; [done|]. rewrite IH, orb_false_r.
  unfold to_ascii_lowercase, is_ascii_uppercase. case_match; lia.
Qed.

(** A byte outside the letters is not touched, and nothing else maps to it. *)
Lemma to_ascii_lowercase_eqb b c :
  is_ascii_uppercase c = false -> is_ascii_lowercase c = false ->
  (to_ascii_lowercase b =? c) = (b =? c).
Proof.
  unfold to_ascii_lowercase, is_ascii_uppercase, is_ascii_lowercase.
  intros. case_match; lia.
Qed.

Lemma take_lower n s : take n (lower s) = lower (take n s).
Proof. apply List.firstn_map. Qed.

Lemma lookup_lower s i : lower s !! i = to_ascii_lowercase <$> s !! i.
Proof. unfold lower. apply list_lookup_fmap. Qed.

Lemma eq_ignore_ascii_case_refl s : eq_ignore_ascii_case s s = true.
Proof. unfold eq_ignore_ascii_case. by apply bool_decide_eq_true. Qed.

(** ** UTF-8 *)

(** Folding only moves a letter to another ASCII letter. *)
Lemma to_ascii_lowercase_cases b :
  to_ascii_lowercase b = b \/ (b < 128 /\ to_ascii_lowercase b < 128 /\ 64 < b).
Proof. unfold to_ascii_lowercase, is_ascii_uppercase. case_match; lia. Qed.

(** Induction over the scalar values of a byte string: the four lengths an
    encoded scalar value can have. *)
Lemma utf8_ind (P : bytes -> Prop) :
  (forall s, (forall t, (length t < length s)%nat -> P t) -> P s) -> forall s, P s.
Proof.
  intros H. apply (well_founded_induction (Wf_nat.well_founded_ltof _ (@length Z))).
  intros s IH. apply H, IH.
Qed.

Ltac utf8_step := repeat (case_match; simplify_eq/=; bools; try lia).

Lemma utf8_valid_lower s : utf8_valid (lower s) = utf8_valid s.
Proof.
  induction s as [s IH] using utf8_ind. destruct s as [|b0 s0]; [done|]. simpl.
  destruct (to_ascii_lowercase_cases b0) as [->|(?&?&?)]; cycle 1.
  { replace (to_ascii_lowercase b0 <? 128) with true by lia.
    replace (b0 <? 128) with true by lia. apply IH. simpl. lia. }
  destruct (b0 <? 128) eqn:?; [apply IH; simpl; lia|].
  destruct s0 as [|b1 s1]; [done|]. simpl.
  assert (Hc : forall b, is_cont (to_ascii_lowercase b) = is_cont b).
  { intros b. unfold is_cont. destruct (to_ascii_lowercase_cases b) as [->|?]; [done|lia]. }
  rewrite !Hc. change (map to_ascii_lowercase s1) with (lower s1).
  rewrite IH by (simpl; lia). case_match; [done|].
  destruct s1 as [|b2 s2]; [done|]. simpl. rewrite Hc.
  change (map to_ascii_lowercase s2) with (lower s2). rewrite IH by (simpl; lia).
  assert (Hb : forall lo hi, 128 <= lo ->
    ((lo <=? to_ascii_lowercase b1) && (to_ascii_lowercase b1 <=? hi)) = ((lo <=? b1) && (b1 <=? hi))).
  { intros lo hi ?. destruct (to_ascii_lowercase_cases b1) as [->|?]; [done|lia]. }
  rewrite <- !andb_assoc, !Hb by lia. case_match; [done|].
  destruct s2 as [|b3 s3]; [done|]. simpl. rewrite Hc.
  change (map to_ascii_lowercase s3) with (lower s3). rewrite IH by (simpl; lia).
  by rewrite !andb_assoc.
Qed.

(** An ASCII byte is a boundary: both sides of a valid string are valid. *)
Lemma utf8_valid_split l b k :
  b < 128 -> utf8_valid (l ++ b :: k) = true ->
  utf8_valid l = true /\ utf8_valid (b :: k) = true.
Proof.
  intros Hb. induction l as [l IH] using utf8_ind.
  destruct l as [|b0 l0]; [done|]. simpl app. cbn [utf8_valid].
  assert (Hnc : is_cont b = false) by (unfold is_cont; lia).
  destruct (b0 <? 128) eqn:?; [apply IH; simpl; lia|].
  destruct l0 as [|b1 l1]; cbn [app].
  { rewrite Hnc. replace (b0 <? 128) with false. unfold is_cont.
    destruct k as [|? [|? ?]]; utf8_step. }
  destruct ((194 <=? b0) && (b0 <=? 223)) eqn:?.
  { intros H. bools. rewrite H. apply IH; [simpl; lia|done]. }
  destruct l1 as [|b2 l2]; cbn [app].
  { rewrite Hnc. destruct k; utf8_step. }
  case_match.
  { intros H'. bools. rewrite H0. apply IH; [simpl; lia|done]. }
  destruct l2 as [|b3 l3]; cbn [app].
  { rewrite Hnc, andb_false_r. done. }
  intros Hv. assert (Hl : utf8_valid (l3 ++ b :: k) = true) by lia.
  destruct (IH l3) as [E1 E2]; [simpl; lia|done|].
  rewrite Hl in Hv. by rewrite E1.
Qed.

Lemma utf8_valid_head c k : utf8_valid (c :: k) = true -> is_cont c = false.
Proof. unfold is_cont. cbn [utf8_valid]. utf8_step. Qed.

Lemma utf8_valid_app l k : utf8_valid l = true -> utf8_valid (l ++ k) = utf8_valid k.
Proof.
  induction l as [l IH] using utf8_ind. destruct l as [|b0 l0]; [done|].
  cbn [app utf8_valid].
  destruct (b0 <? 128); [apply IH; simpl; lia|].
  destruct l0 as [|b1 l1]; [done|]; cbn [app].
  case_match; [intros Hv; bools; rewrite H0; apply IH; [simpl; lia|done]|].
  destruct l1 as [|b2 l2]; [done|]; cbn [app].
  case_match; [intros Hv; bools; rewrite H1; apply IH; [simpl; lia|done]|].
  destruct l2 as [|b3 l3]; [done|]; cbn [app].
  intros Hv. rewrite IH; [|simpl; lia|lia].
  assert (utf8_valid l3 = true) as E by lia. rewrite E, andb_true_r in Hv. by rewrite Hv.
Qed.

Lemma utf8_valid_ascii s : Forall (fun b => b < 128) s -> utf8_valid s = true.
Proof.
  induction 1 as [|b s Hb Hs IH]; [done|]. cbn [utf8_valid]. by replace (b <? 128) with true by lia.
Qed.

(** A position is a cut when both sides are valid on their own. *)
Definition utf8_cut (s : str) (n : nat) : Prop :=
  (n <= length s)%nat /\ utf8_valid (take n s) = true /\ utf8_valid (drop n s) = true.

Lemma utf8_cut_before s n b :
  utf8_valid s = true -> s !! n = Some b -> b < 128 -> utf8_cut s n.
Proof.
  intros Hv Hn Hb. pose proof (lookup_lt_Some _ _ _ Hn).
  rewrite <- (take_drop_middle s n b Hn) in Hv.
  destruct (utf8_valid_split _ _ _ Hb Hv) as [H1 H2]. repeat split; [lia|done|].
  by rewrite (drop_S _ _ _ Hn).
Qed.

Lemma utf8_cut_after s n b :
  utf8_valid s = true -> s !! n = Some b -> b < 128 -> utf8_cut s (S n).
Proof.
  intros Hv Hn Hb. destruct (utf8_cut_before s n b Hv Hn Hb) as (?&Ht&Hd).
  pose proof (lookup_lt_Some _ _ _ Hn). repeat split; [lia| |].
  - rewrite (take_S_r _ _ _ Hn), utf8_valid_app by done. cbn [utf8_valid].
    by replace (b <? 128) with true by lia.
  - rewrite (drop_S _ _ _ Hn) in Hd. cbn [utf8_valid] in Hd.
    by replace (b <? 128) with true in Hd by lia.
Qed.

Lemma utf8_cut_all s : utf8_valid s = true -> utf8_cut s (length s).
Proof. intros. repeat split; [done| |]; by rewrite ?firstn_all, ?drop_all. Qed.

Lemma utf8_cut_boundary s n : utf8_cut s n -> str_get_to s n = Some (take n s).
Proof.
  intros (Hle&_&Hd). unfold str_get_to, is_char_boundary. destruct n as [|n]; [done|].
  destruct (s !! S n) as [b|] eqn:E.
  - rewrite (drop_S _ _ _ E) in Hd. by rewrite (utf8_valid_head _ _ Hd).
  - apply lookup_ge_None in E. by replace (S n =? length s)%nat with true by lia.
Qed.

(** ** Congruence modulo the width of a machine word *)

Record eqm (w : Z) (x y : Z) : Prop := eqm_intro { eqm_elim : wrap w x = wrap w y }.

#[export] Instance eqm_equivalence w : Equivalence (eqm w).
Proof. split; [intros ?|intros ?? []|intros ??? [] []]; constructor; congruence. Qed.

#[export] Instance eqm_add w : Proper (eqm w ==> eqm w ==> eqm w) Z.add.
Proof.
  intros x x' [Hx] y y' [Hy]. constructor. unfold wrap in *.
  rewrite Zplus_mod, Hx, Hy. symmetry. apply Zplus_mod.
Qed.

#[export] Instance eqm_sub w : Proper (eqm w ==> eqm w ==> eqm w) Z.sub.
Proof.
  intros x x' [Hx] y y' [Hy]. constructor. unfold wrap in *.
  rewrite Zminus_mod, Hx, Hy. symmetry. apply Zminus_mod.
Qed.

#[export] Instance eqm_wrap w : Proper (eqm w ==> eq) (wrap w).
Proof. by intros ?? []. Qed.

Lemma wrap_eqm w x : eqm w (wrap w x) x.
Proof. constructor. unfold wrap. apply Zmod_mod. Qed.

Lemma wrap_small w x : 0 <= x < 2 ^ w -> wrap w x = x.
Proof. apply Z.mod_small. Qed.

Lemma wrap_range w x : 0 <= w -> 0 <= wrap w x < 2 ^ w.
Proof. intros. apply Z.mod_pos_bound. by apply Z.pow_pos_nonneg. Qed.

(** ** Iteration order of a hash map

    The source iterates hash maps whose order it calls unspecified: any
    enumeration of the entries, each once. *)
Class HashOrder := {
  map_iter : forall (K A : Type) `{Countable K}, gmap K A -> list (K * A);
  map_iter_perm : forall (K A : Type) `{Countable K} (m : gmap K A),
    map_iter K A m ≡ₚ map_to_list m;
}.
Arguments map_iter {_ K A _ _} m.
Arguments map_iter_perm {_ K A _ _} m.

Definition listed_order : HashOrder := {|
  map_iter K A _ _ m := map_to_list m;
  map_iter_perm K A _ _ m := reflexivity _;
|}.
