(* ===== verification/Order.v ===== *)
(** Total orders as the derived [Ord] of the sources: a comparison function
    with its laws as a class, closed under lists (lexicographic, so [str] is
    ordered by bytes), pairs and options, and the sorts they drive. *)

From S2P Require Import Prelude.

Class Ord (A : Type) := cmp : A -> A -> comparison.
Class OrdLaws (A : Type) `{Ord A} := {
  cmp_eq : forall x y : A, cmp x y = Eq <-> x = y;
  cmp_flip : forall x y : A, cmp y x = CompOpp (cmp x y);
  cmp_lt_trans : forall x y z : A, cmp x y = Lt -> cmp y z = Lt -> cmp x z = Lt;
}.

(** [Ordering::then_with]. *)
Definition then_with (c d : comparison) : comparison := match c with Eq => d | _ => c end.

#[export] Instance Z_ord : Ord Z := Z.compare.
#[export] Instance prod_ord A B `{Ord A, Ord B} : Ord (A * B) :=
  fun x y => then_with (cmp x.1 y.1) (cmp x.2 y.2).
#[export] Instance option_ord A `{Ord A} : Ord (option A) := fun x y =>
  match x, y with
  | None, None => Eq
  | None, Some _ => Lt
  | Some _, None => Gt
  | Some a, Some b => cmp a b
  end.
Fixpoint list_cmp {A : Type} `{Ord A} (x y : list A) : comparison :=
  match x, y with
  | [], [] => Eq
  | [], _ => Lt
  | _, [] => Gt
  | a :: x', b :: y' => then_with (cmp a b) (list_cmp x' y')
  end.
#[export] Instance list_ord A `{Ord A} : Ord (list A) := list_cmp.

(** The order of a type read off an injective key. *)
Definition key_ord {A K : Type} `{Ord K} (key : A -> K) : Ord A := fun x y => cmp (key x) (key y).

Definition ord_le {A : Type} `{Ord A} (x y : A) : bool :=
  match cmp x y with Gt => false | _ => true end.

(** ** The laws *)

Lemma then_with_flip c d c' d' : c' = CompOpp c -> d' = CompOpp d -> then_with c' d' = CompOpp (then_with c d).
Proof. intros -> ->. by destruct c. Qed.

#[export] Instance Z_ord_laws : OrdLaws Z.
Proof.
  split; unfold cmp, Z_ord.
  - apply Z.compare_eq_iff.
  - intros x y. apply Z.compare_antisym.
  - intros x y z. rewrite !Z.compare_lt_iff. lia.
Qed.

#[export] Instance prod_ord_laws A B `{OrdLaws A, OrdLaws B} : OrdLaws (A * B).
Proof.
  split; unfold cmp, prod_ord.
  - intros [a b] [a' b']. simpl. destruct (cmp a a') eqn:E; simpl.
    + apply cmp_eq in E as ->. rewrite cmp_eq. naive_solver.
    + split; [done|]. intros [= -> ->]. by rewrite (proj2 (cmp_eq a' a') eq_refl) in E.
    + split; [done|]. intros [= -> ->]. by rewrite (proj2 (cmp_eq a' a') eq_refl) in E.
  - intros [a b] [a' b']. apply then_with_flip; apply cmp_flip.
  - intros [a b] [a' b'] [a'' b'']. simpl. intros H1' H2'.
    destruct (cmp a a') eqn:E1, (cmp a' a'') eqn:E2; simpl in *; try done.
    + apply cmp_eq in E1 as ->. rewrite E2. simpl. by eapply cmp_lt_trans.
    + apply cmp_eq in E1 as ->. by rewrite E2.
    + apply cmp_eq in E2 as ->. by rewrite E1.
    + by rewrite (cmp_lt_trans _ _ _ E1 E2).
Qed.

#[export] Instance option_ord_laws A `{OrdLaws A} : OrdLaws (option A).
Proof.
  split; unfold cmp, option_ord.
  - intros [a|] [b|]; try naive_solver. rewrite cmp_eq. naive_solver.
  - intros [a|] [b|]; try done. apply cmp_flip.
  - intros [a|] [b|] [c|]; try done. apply cmp_lt_trans.
Qed.

#[export] Instance list_ord_laws A `{OrdLaws A} : OrdLaws (list A).
Proof.
  split; unfold cmp, list_ord.
  - intros x. induction x as [|a x IH]; intros [|b y]; simpl; try naive_solver.
    destruct (cmp a b) eqn:E; simpl.
    + apply cmp_eq in E as ->. rewrite IH. naive_solver.
    + split; [done|]. intros [= -> ->]. by rewrite (proj2 (cmp_eq b b) eq_refl) in E.
    + split; [done|]. intros [= -> ->]. by rewrite (proj2 (cmp_eq b b) eq_refl) in E.
  - intros x. induction x as [|a x IH]; intros [|b y]; simpl; try done.
    apply then_with_flip; [apply cmp_flip|apply IH].
  - intros x. induction x as [|a x IH]; intros [|b y] [|c z]; simpl; try done. intros H1 H2.
    destruct (cmp a b) eqn:E1, (cmp b c) eqn:E2; simpl in *; try done.
    + apply cmp_eq in E1 as ->. rewrite E2. simpl. by eapply IH.
    + apply cmp_eq in E1 as ->. by rewrite E2.
    + apply cmp_eq in E2 as ->. by rewrite E1.
    + by rewrite (cmp_lt_trans _ _ _ E1 E2).
Qed.

Lemma key_ord_laws {A K : Type} `{OrdLaws K} (key : A -> K) :
  Inj (=) (=) key -> @OrdLaws A (key_ord key).
Proof.
  intros Hinj. split; unfold cmp, key_ord.
  - intros x y. rewrite cmp_eq. split; [apply Hinj|by intros ->].
  - intros x y. apply cmp_flip.
  - intros x y z. apply cmp_lt_trans.
Qed.

Lemma sorted_unique_on {A : Type} (R : A -> A -> Prop) (l k : list A) :
  (forall x y, x ∈ l -> y ∈ l -> R x y -> R y x -> x = y) ->
  StronglySorted R l -> StronglySorted R k -> l ≡ₚ k -> l = k.
Proof.
  intros Hanti Hl. revert k Hanti. induction Hl as [|x l Hl IH Hx]; intros k Hanti Hk Hp.
  - by apply Permutation_nil_l in Hp.
  - destruct Hk as [|y k Hk Hy]; [by apply Permutation_nil_r in Hp|].
    rewrite Forall_forall in Hx, Hy. assert (x = y) as ->.
    { assert (Hxk : x ∈ y :: k) by (rewrite <- Hp; apply elem_of_cons; auto).
      assert (Hyl : y ∈ x :: l) by (rewrite Hp; apply elem_of_cons; auto).
      pose proof Hxk as [->|Hxk']%elem_of_cons; [done|]. pose proof Hyl as [->|Hyl']%elem_of_cons; [done|].
      apply Hanti; [apply elem_of_cons; auto|done|by apply Hx|by apply Hy]. }
    f_equal. apply IH; [|done|by apply Permutation_cons_inv in Hp].
    intros a b Ha Hb. apply Hanti; apply elem_of_cons; auto.
Qed.

(** What a sorted list says about any two of its positions. *)
Lemma strongly_sorted_impl {A : Type} (R S : A -> A -> Prop) l :
  (forall x y, R x y -> S x y) -> StronglySorted R l -> StronglySorted S l.
Proof. intros Hi. induction 1; constructor; [done|]. eapply Forall_impl; [done|]. simpl. auto. Qed.

Lemma strongly_sorted_lookup {A : Type} (R : A -> A -> Prop) l i j x y :
  StronglySorted R l -> l !! i = Some x -> l !! j = Some y -> (i < j)%nat -> R x y.
Proof.
  intros Hl. revert i j. induction Hl as [|z l Hl IH Hz]; intros [|i] [|j] Hi Hj Hij; try done; try lia.
  - injection Hi as ->. rewrite Forall_lookup in Hz. by apply (Hz j).
  - apply (IH i j); [done|done|lia].
Qed.

Section order.
Context {A : Type} `{OrdLaws A}.

Lemma cmp_refl (x : A) : cmp x x = Eq.
Proof. by apply cmp_eq. Qed.

Lemma ord_le_total (x y : A) : ord_le x y = false -> ord_le y x = true.
Proof. unfold ord_le. rewrite (cmp_flip x y). by destruct (cmp x y). Qed.

Lemma ord_le_antisym (x y : A) : ord_le x y = true -> ord_le y x = true -> x = y.
Proof.
  unfold ord_le. rewrite (cmp_flip x y). destruct (cmp x y) eqn:E; try done. intros _ _. by apply cmp_eq.
Qed.

Lemma ord_le_trans (x y z : A) : ord_le x y = true -> ord_le y z = true -> ord_le x z = true.
Proof.
  unfold ord_le. destruct (cmp x y) eqn:E1, (cmp y z) eqn:E2; try done; intros _ _.
  - apply cmp_eq in E1 as ->. by rewrite E2.
  - apply cmp_eq in E1 as ->. by rewrite E2.
  - apply cmp_eq in E2 as ->. by rewrite E1.
  - by rewrite (cmp_lt_trans _ _ _ E1 E2).
Qed.

(** A sorted list is determined by its elements. *)
Lemma sorted_unique (l k : list A) :
  StronglySorted (fun x y => ord_le x y = true) l -> StronglySorted (fun x y => ord_le x y = true) k ->
  l ≡ₚ k -> l = k.
Proof. apply sorted_unique_on. intros x y _ _. apply ord_le_antisym. Qed.

Lemma sort_by_ord_sorted (l : list A) : StronglySorted (fun x y => ord_le x y = true) (sort_by ord_le l).
Proof. apply sort_by_sorted; [apply ord_le_total|apply ord_le_trans]. Qed.

(** Sorting does not depend on the order of what is sorted. *)
Lemma sort_by_ord_perm (l k : list A) : l ≡ₚ k -> sort_by ord_le l = sort_by ord_le k.
Proof.
  intros Hp. apply sorted_unique; [apply sort_by_ord_sorted..|].
  by rewrite !sort_by_perm.
Qed.
End order.

(** Sorting by a key, when the key tells the elements apart. *)
Lemma sort_by_key_perm {A K : Type} `{OrdLaws K} (key : A -> K) (l k : list A) :
  (forall x y, x ∈ l -> y ∈ l -> key x = key y -> x = y) -> l ≡ₚ k ->
  sort_by (fun a b => ord_le (key a) (key b)) l = sort_by (fun a b => ord_le (key a) (key b)) k.
Proof.
  intros Hinj Hp. apply (sorted_unique_on (fun x y => ord_le (key x) (key y) = true)).
  - intros x y Hx%elem_of_sort_by Hy%elem_of_sort_by Hxy Hyx. apply Hinj; [done|done|by apply ord_le_antisym].
  - apply sort_by_sorted; [intros x y; apply ord_le_total|intros x y z; apply ord_le_trans].
  - apply sort_by_sorted; [intros x y; apply ord_le_total|intros x y z; apply ord_le_trans].
  - by rewrite !sort_by_perm.
Qed.

(** [dedup]: each run of equal elements becomes one. *)
Fixpoint dedup {A : Type} `{EqDecision A} (l : list A) : list A :=
  match l with
  | x :: (y :: _) as rest => if decide (x = y) then dedup rest else x :: dedup rest
  | _ => l
  end.

Section dedup_lemmas.
Context {A : Type} `{OrdLaws A, EqDecision A}.

Lemma dedup_elem (x : A) l : x ∈ dedup l <-> x ∈ l.
Proof.
  induction l as [|a l IH]; [done|]. destruct l as [|b l]; [done|]. cbn [dedup].
  destruct (decide (a = b)) as [->|]; rewrite ?elem_of_cons, IH; set_solver.
Qed.

Lemma dedup_nil (l : list A) : dedup l = [] <-> l = [].
Proof.
  induction l as [|a [|b l] IH]; [done|done|]. cbn [dedup]. destruct (decide (a = b)); [|done].
  rewrite IH. done.
Qed.

(** A sorted list becomes strictly ascending. *)
Lemma dedup_sorted (l : list A) :
  StronglySorted (fun x y => ord_le x y = true) l ->
  StronglySorted (fun x y => cmp x y = Lt) (dedup l).
Proof.
  induction 1 as [|x l Hl IH Hx]; [constructor|]. destruct l as [|y l]; [repeat constructor|].
  cbn [dedup]. destruct (decide (x = y)) as [->|Hne]; [done|]. constructor; [done|].
  apply Forall_forall. intros z Hz. rewrite (dedup_elem z (y :: l)) in Hz.
  rewrite Forall_forall in Hx. pose proof (Hx z Hz) as Hle. unfold ord_le in Hle.
  destruct (cmp x z) eqn:E; [|done|done]. apply cmp_eq in E as <-. exfalso.
  pose proof (Hx y ltac:(set_solver)) as Hxy. apply elem_of_cons in Hz as [->|Hz]; [done|].
  apply StronglySorted_inv in Hl as [_ Hy]. rewrite Forall_forall in Hy.
  apply Hne, ord_le_antisym; [done|by apply Hy].
Qed.
End dedup_lemmas.

(** Sorting what a function makes of a list. *)
Lemma insert_by_map {A B} (le : B -> B -> bool) (f : A -> B) x l :
  insert_by le (f x) (map f l) = map f (insert_by (fun a b => le (f a) (f b)) x l).
Proof. induction l as [|y l IH]; [done|]. cbn. destruct (le (f x) (f y)); [done|]. cbn. by rewrite IH. Qed.
Lemma sort_by_map {A B} (le : B -> B -> bool) (f : A -> B) l :
  sort_by le (map f l) = map f (sort_by (fun a b => le (f a) (f b)) l).
Proof.
  induction l as [|x l IH]; [done|].
  change (insert_by le (f x) (sort_by le (map f l)) = map f (insert_by (fun a b => le (f a) (f b)) x (sort_by (fun a b => le (f a) (f b)) l))).
  by rewrite IH, insert_by_map.
Qed.

(** A [BTreeMap] iterates in key order. *)
Definition btree_iter {K A : Type} `{Countable K, Ord K} (m : gmap K A) : list (K * A) :=
  sort_by (fun x y => ord_le x.1 y.1) (map_to_list m).

Lemma elem_of_btree_iter {K A : Type} `{Countable K, Ord K} (m : gmap K A) k x :
  (k, x) ∈ btree_iter m <-> m !! k = Some x.
Proof. unfold btree_iter. by rewrite elem_of_sort_by, elem_of_map_to_list. Qed.

Lemma btree_iter_keys {K A : Type} `{Countable K, Ord K} (m : gmap K A) : NoDup (map fst (btree_iter m)).
Proof.
  unfold btree_iter. change (NoDup ((sort_by (fun x y => ord_le x.1 y.1) (map_to_list m)).*1)).
  rewrite sort_by_perm. apply NoDup_fst_map_to_list.
Qed.
