(* ===== verification/Hosts.v ===== *)
(** Host names: [crates/ramjet-router/src/host.rs].

    [scan] trims the port and one root dot from a raw [Host] header and says
    whether case folding is still needed; [fold_lower] folds; [parent_domain]
    cuts one label for wildcard lookups.  [normalize] is the composition that
    [RouteTable::match_request] and [SniMap::resolve] both perform. *)

From S2P Require Import Prelude.


Definition MAX_HOST_LEN : nat := 253.

Inductive Scan :=
| Clean (name : str)
| Fold (name : str)
| Invalid.

(** The [for] loop of [scan]: first colon wins, [upper] is accumulated. *)
Fixpoint scan_loop (bytes : list Z) (i : nat) (end_ : nat) (upper : bool) : nat * bool :=
  match bytes with
  | [] => (end_, upper)
  | b :: rest =>
      if b =? chr ":" then (i, upper)
      else scan_loop rest (S i) end_ (upper || is_ascii_uppercase b)
  end.

(** Where the name ends before the root dot is considered, and whether it
    holds an uppercase letter; [None] for a bracket that never closes. *)
Definition scan_extent (bytes : list Z) : option (nat * bool) :=
  if bool_decide (head bytes = Some (chr "[")) then
    match position (fun b => b =? chr "]") bytes with
    | Some close =>
        let end_ := S close in
        Some (end_, existsb is_ascii_uppercase (take end_ bytes))
    | None => None
    end
  else Some (scan_loop bytes 0 (length bytes) false).

Definition scan (host : str) : Scan :=
  match scan_extent host with
  | None => Invalid
  | Some (end0, upper) =>
      let end_ :=
        if (1 <? end0)%nat && bool_decide (host !! (end0 - 1)%nat = Some (chr "."))
        then (end0 - 1)%nat else end0 in
      if (end_ =? 0)%nat || (MAX_HOST_LEN <? end_)%nat then Invalid
      else match str_get_to host end_ with
           | Some trimmed => if upper then Fold trimmed else Clean trimmed
           | None => Invalid
           end
  end.

(** The caller's buffer is [MAX_HOST_LEN] bytes: a longer name has no slot. *)
Definition fold_lower (host : str) : option str :=
  if (length host <=? MAX_HOST_LEN)%nat then from_utf8 (lower host) else None.

Definition parent_domain (host : str) : option str :=
  match split_once (chr ".") host with
  | None => None
  | Some (label, parent) =>
      if bool_decide (label = []) || bool_decide (parent = []) then None
      else Some parent
  end.

(** The lookup key of a raw header, as both callers of [scan] compute it. *)
Definition normalize (host : str) : option str :=
  match scan host with
  | Clean name => Some name
  | Fold name => fold_lower name
  | Invalid => None
  end.

(** ** The hasher of the host maps *)

Definition SEED : u64 := 5871781006564002453.

Definition rotate_left5 (x : u64) : u64 :=
  Z.lor (wrap64 (Z.shiftl x 5)) (Z.shiftr x 59).

Definition fx_add (hash word : u64) : u64 :=
  wrap64 (Z.lxor (rotate_left5 hash) word * SEED).

(** [u64::from_ne_bytes] on a little-endian target. *)
Definition from_ne_bytes (chunk : list u8) : u64 :=
  foldr (fun b acc => Z.lor b (Z.shiftl acc 8)) 0 chunk.

(** The remainder of [chunks_exact(8)], most significant byte first. *)
Definition fx_tail (rest : list u8) : u64 :=
  foldl (fun tail b => Z.lor (wrap64 (Z.shiftl tail 8)) b) 0 rest.

Fixpoint fx_write_fuel (fuel : nat) (hash : u64) (bytes : list u8) : u64 :=
  match fuel with
  | 0%nat => fx_add hash (fx_tail bytes)
  | S fuel' =>
      if (length bytes <? 8)%nat then fx_add hash (fx_tail bytes)
      else fx_write_fuel fuel' (fx_add hash (from_ne_bytes (take 8 bytes))) (drop 8 bytes)
  end.
Definition fx_write (hash : u64) (bytes : list u8) : u64 :=
  fx_write_fuel (length bytes) hash bytes.
Definition fx_write_u8 (hash : u64) (n : u8) : u64 := fx_add hash n.
(** [str::hash] writes the bytes and then 0xff. *)
Definition fx_hash_str (s : str) : u64 := fx_write_u8 (fx_write 0 s) 255.

(** ** Where the name ends *)

(** A plain header: no bracket in front and no colon inside. *)
Definition no_colon (s : str) : Prop := Forall (fun b => (b =? chr ":") = false) s.
Definition unbracketed (s : str) : Prop := head s <> Some (chr "[").

Lemma scan_loop_spec s i e up :
  scan_loop s i e up =
  match position (fun b => b =? chr ":") s with
  | Some k => ((i + k)%nat, up || existsb is_ascii_uppercase (take k s))
  | None => (e, up || existsb is_ascii_uppercase s)
  end.
Proof.
  revert i up. induction s as [|b s IH]; intros i up; simpl; [by rewrite orb_false_r|].
  destruct (b =? 58); [f_equal; [lia|by rewrite orb_false_r]|].
  rewrite IH. destruct (position _ s) as [k|]; simpl; rewrite orb_assoc; [f_equal; lia|done].
Qed.

(** On every input the extent is a prefix with an exact uppercase flag. *)
Lemma scan_extent_flag s n up :
  scan_extent s = Some (n, up) ->
  (n <= length s)%nat /\ up = existsb is_ascii_uppercase (take n s).
Proof.
  unfold scan_extent. case_bool_decide.
  - destruct (position _ s) as [c|] eqn:E; [|done]. intros [= <- <-].
    apply position_lt in E. split; [lia|done].
  - rewrite scan_loop_spec. destruct (position _ s) as [k|] eqn:E; intros [= <- <-].
    + apply position_lt in E. split; [lia|done].
    + split; [lia|]. by rewrite firstn_all.
Qed.

Lemma scan_extent_lower s :
  scan_extent (lower s) =
  match scan_extent s with Some (n, _) => Some (n, false) | None => None end.
Proof.
  unfold scan_extent.
  assert (Hh : head (lower s) = Some 91 <-> head s = Some 91).
  { destruct s as [|b s]; simpl; [done|].
    pose proof (to_ascii_lowercase_eqb b 91 eq_refl eq_refl). split; intros [=]; f_equal; lia. }
  rewrite (bool_decide_ext _ _ Hh).
  assert (Hp : forall c, is_ascii_uppercase c = false -> is_ascii_lowercase c = false ->
    position (fun b => b =? c) (lower s) = position (fun b => b =? c) s).
  { intros c ??. unfold lower. rewrite position_map. apply position_ext.
    intros b. by apply to_ascii_lowercase_eqb. }
  case_bool_decide.
  - rewrite Hp by done. destruct (position _ s); [|done].
    by rewrite take_lower, lower_not_upper.
  - rewrite !scan_loop_spec, Hp by done.
    destruct (position _ s); simpl; by rewrite ?take_lower, lower_not_upper, ?length_lower.
Qed.

(** ** [normalize] on valid UTF-8 *)

(** The root-dot rule of [scan]. *)
Definition root_dot (host : str) (end0 : nat) : nat :=
  if (1 <? end0)%nat && bool_decide (host !! (end0 - 1)%nat = Some (chr "."))
  then (end0 - 1)%nat else end0.

Lemma scan_extent_cut s n up :
  utf8_valid s = true -> scan_extent s = Some (n, up) -> utf8_cut s n.
Proof.
  intros Hv. unfold scan_extent. case_bool_decide.
  - destruct (position _ s) as [c|] eqn:E; [|done]. intros [= <- <-].
    apply position_Some in E as (b&Hb&?&_). eapply utf8_cut_after; [done..|lia].
  - rewrite scan_loop_spec. destruct (position _ s) as [k|] eqn:E; intros [= <- <-].
    + apply position_Some in E as (b&Hb&?&_). eapply utf8_cut_before; [done..|lia].
    + by apply utf8_cut_all.
Qed.

Lemma root_dot_cut s n : utf8_valid s = true -> utf8_cut s n -> utf8_cut s (root_dot s n).
Proof.
  intros Hv Hc. unfold root_dot. destruct (1 <? n)%nat; [|done]. simpl.
  case_bool_decide; [|done]. eapply utf8_cut_before; [done..|lia].
Qed.

Lemma root_dot_le s n : (root_dot s n <= n)%nat.
Proof. unfold root_dot. case_match; lia. Qed.

(** The scan borrows a prefix on every valid string; its defensive [None] arm
    and the fallible fold are never taken. *)
Lemma normalize_spec s :
  utf8_valid s = true ->
  normalize s =
  match scan_extent s with
  | None => None
  | Some (n, _) =>
      let e := root_dot s n in
      if (e =? 0)%nat || (MAX_HOST_LEN <? e)%nat then None else Some (lower (take e s))
  end.
Proof.
  intros Hv. unfold normalize, scan. destruct (scan_extent s) as [[n up]|] eqn:E; [|done].
  pose proof (scan_extent_cut _ _ _ Hv E) as Hc.
  pose proof (root_dot_cut _ _ Hv Hc) as (Hl&Ht&Hd).
  destruct (scan_extent_flag _ _ _ E) as [Hn ->].
  fold (root_dot s n). pose proof (root_dot_le s n).
  destruct ((_ =? 0)%nat || _) eqn:Hb; [done|]. rewrite utf8_cut_boundary by done.
  destruct (existsb _ _) eqn:Hup.
  - unfold fold_lower, from_utf8. rewrite length_take, utf8_valid_lower, Ht.
    by case_match; [|lia].
  - rewrite lower_clean; [done|]. apply not_true_is_false. intros Hex.
    apply not_true_iff_false in Hup. apply Hup.
    apply existsb_exists in Hex as (b&Hin&Hb'). apply existsb_exists. exists b.
    split; [|done]. rewrite <- (firstn_skipn (root_dot s n) (take n s)), take_take.
    apply in_or_app. left. by replace (root_dot s n `min` n)%nat with (root_dot s n) by lia.
Qed.

Lemma root_dot_lower s n : root_dot (lower s) n = root_dot s n.
Proof.
  unfold root_dot. rewrite lookup_lower.
  rewrite (bool_decide_ext _ (s !! (n - 1)%nat = Some 46)); [done|].
  destruct (s !! (n - 1)%nat) as [b|]; simpl; [|done].
  pose proof (to_ascii_lowercase_eqb b 46 eq_refl eq_refl). split; intros [=]; f_equal; lia.
Qed.

(** ** Plain names *)

(** A name with an optional root dot and port, as a client may spell it. *)
Lemma scan_extent_plain s :
  unbracketed s -> no_colon s -> scan_extent s = Some (length s, existsb is_ascii_uppercase s).
Proof.
  intros Hb Hc. unfold scan_extent. case_bool_decide; [done|].
  rewrite scan_loop_spec. by rewrite (proj2 (position_None _ _) Hc).
Qed.

Lemma scan_extent_port s port :
  unbracketed s -> s <> [] -> no_colon s ->
  scan_extent (s ++ chr ":" :: port) = Some (length s, existsb is_ascii_uppercase s).
Proof.
  intros Hb Hne Hc. unfold scan_extent. case_bool_decide as Hh.
  { destruct s; [done|]. by unfold unbracketed in Hb. }
  rewrite scan_loop_spec, position_split by done. by rewrite take_app_length.
Qed.

Lemma root_dot_app s k n : (n <= length s)%nat -> root_dot (s ++ k) n = root_dot s n.
Proof.
  intros Hn. unfold root_dot. destruct (1 <? n)%nat eqn:E; [|done].
  rewrite lookup_app_l by lia. done.
Qed.

(** What a configured name looks like: the keys of the host maps. *)
Record canonical (n : str) : Prop := {
  canonical_nonempty : n <> [];
  canonical_length : (length n <= MAX_HOST_LEN)%nat;
  canonical_lower : lower n = n;
  canonical_colon : no_colon n;
  canonical_bracket : unbracketed n;
  canonical_dot : last n <> Some (chr ".");
  canonical_utf8 : utf8_valid n = true;
}.

Lemma lower_no_colon s : no_colon (lower s) -> no_colon s.
Proof.
  unfold no_colon, lower. rewrite Forall_map. intros H.
  eapply Forall_impl; [exact H|]. intros b. simpl. by rewrite (to_ascii_lowercase_eqb b 58).
Qed.

Lemma lower_unbracketed s : unbracketed (lower s) -> unbracketed s.
Proof.
  unfold unbracketed. destruct s as [|b s]; simpl; [done|]. intros H [= ->]. by apply H.
Qed.

(** A port suffix or none, after a name that cannot contain the colon. *)
Definition port_suffix (port : option str) : str :=
  match port with Some p => chr ":" :: p | None => [] end.
Definition dot_suffix (dot : bool) : str := if dot then bstr "." else [].

Lemma scan_extent_suffix s port :
  unbracketed s -> s <> [] -> no_colon s ->
  scan_extent (s ++ port_suffix port) = Some (length s, existsb is_ascii_uppercase s).
Proof.
  intros. destruct port as [p|]; simpl; [by apply scan_extent_port|].
  rewrite app_nil_r. by apply scan_extent_plain.
Qed.

Lemma root_dot_suffix r dot :
  r <> [] -> last r <> Some (chr ".") ->
  root_dot (r ++ dot_suffix dot) (length (r ++ dot_suffix dot)) = length r.
Proof.
  intros Hne Hd. assert (length r <> 0%nat) by (by destruct r).
  unfold root_dot. destruct dot; simpl; rewrite length_app; simpl.
  - replace (length r + 1 - 1)%nat with (length r) by lia.
    rewrite lookup_app_r, Nat.sub_diag by lia. simpl. by case_match; [|lia].
  - rewrite app_nil_r, Nat.add_0_r.
    rewrite last_lookup, <- Nat.sub_1_r in Hd.
    by rewrite bool_decide_eq_false_2, andb_false_r by done.
Qed.

(** Every way a client spells a canonical name - any case, a root dot, a
    port - has that name as its lookup key. *)
Lemma normalize_spelling n r dot port :
  canonical n -> lower r = n -> utf8_valid (port_suffix port) = true ->
  normalize (r ++ dot_suffix dot ++ port_suffix port) = Some n.
Proof.
  intros [Hne Hlen Hlow Hcol Hbr Hdot Hu] <- Hp.
  assert (Hr : r <> []) by (by intros ->).
  apply lower_no_colon in Hcol. apply lower_unbracketed in Hbr.
  rewrite length_lower in Hlen. rewrite utf8_valid_lower in Hu.
  assert (Hd : last r <> Some 46).
  { rewrite last_lookup, lookup_lower, length_lower, <- last_lookup in Hdot.
    intros Hl. by rewrite Hl in Hdot. }
  assert (Hud : utf8_valid (r ++ dot_suffix dot) = true)
    by (rewrite utf8_valid_app by done; by destruct dot).
  assert (Hs : unbracketed (r ++ dot_suffix dot)) by (by destruct r).
  assert (Hn : no_colon (r ++ dot_suffix dot)).
  { apply Forall_app. split; [done|]. destruct dot; by repeat constructor. }
  rewrite app_assoc, normalize_spec by (by rewrite utf8_valid_app).
  rewrite scan_extent_suffix by (try done; by destruct r). cbv zeta.
  rewrite root_dot_app, root_dot_suffix by done.
  assert (length r <> 0%nat) by (by destruct r).
  replace ((length r =? 0)%nat || (MAX_HOST_LEN <? length r)%nat) with false by lia.
  by rewrite <- app_assoc, take_app_length.
Qed.

Lemma normalize_key h n :
  utf8_valid h = true -> normalize h = Some n ->
  n <> [] /\ (length n <= MAX_HOST_LEN)%nat /\ lower n = n /\ utf8_valid n = true.
Proof.
  intros Hu. rewrite normalize_spec by done.
  destruct (scan_extent h) as [[k up]|] eqn:E; [|done]. cbv zeta.
  pose proof (scan_extent_cut _ _ _ Hu E) as Hc.
  pose proof (root_dot_cut _ _ Hu Hc) as (Hl&Ht&_).
  destruct ((_ =? 0)%nat || _) eqn:Hb; [done|]. intros [= <-].
  rewrite length_lower, length_take, lower_idem, utf8_valid_lower.
  repeat split; [|lia|done]. intros Hn. apply (f_equal length) in Hn.
  rewrite length_lower, length_take in Hn. simpl in Hn. lia.
Qed.

(** ** [parent_domain] *)

Lemma parent_domain_Some h p :
  parent_domain h = Some p <->
  exists label, h = label ++ chr "." :: p /\ label <> [] /\ chr "." ∉ label /\ p <> [].
Proof.
  unfold parent_domain. destruct (split_once _ h) as [[l q]|] eqn:E.
  - apply split_once_Some in E as [-> Hn]. split.
    + case_bool_decide; [done|]. case_bool_decide; [done|]. intros [= <-]. eauto.
    + intros (l'&Heq&?&?&?).
      assert (Hs : split_once 46 (l ++ 46 :: q) = Some (l', p))
        by (rewrite Heq; by apply split_once_Some).
      rewrite (proj2 (split_once_Some 46 _ l q)) in Hs by done. simplify_eq.
      by rewrite !bool_decide_eq_false_2.
  - split; [done|]. intros (l&->&_&Hn&_).
    rewrite (proj2 (split_once_Some 46 _ l p)) in E by done. done.
Qed.

(** ** Properties *)

(** Case-insensitivity.  On every UTF-8 [Host] header, folding the header
    first and normalising it is the same as normalising it: [scan], with its
    clean, fold and invalid outcomes, and [fold_lower] decide the lookup key
    (or the refusal) without regard to ASCII case. *)
Theorem normalize_case_insensitive h :
  utf8_valid h = true -> normalize (lower h) = normalize h.
Proof.
  intros Hu. rewrite !normalize_spec by (by rewrite ?utf8_valid_lower).
  rewrite scan_extent_lower. destruct (scan_extent h) as [[k up]|]; [|done]. cbv zeta.
  by rewrite root_dot_lower, take_lower, lower_idem.
Qed.

Theorem normalize_case_insensitive_witness :
  normalize (bstr "example.com") = normalize (bstr "Example.COM:8443").
Proof.
  transitivity (normalize (lower (bstr "Example.COM:8443"))).
  - vm_compute. reflexivity.
  - apply normalize_case_insensitive. vm_compute. reflexivity.
Defined.

(** ** Examples from the source's tests *)

Example scan_clean : scan (bstr "example.com:8443") = Clean (bstr "example.com").
Proof. reflexivity. Qed.
Example scan_ipv6 : normalize (bstr "[2001:DB8::1]:8080") = Some (bstr "[2001:db8::1]").
Proof. reflexivity. Qed.
Example scan_root_dot : normalize (bstr "example.com.:80") = Some (bstr "example.com").
Proof. reflexivity. Qed.
Example scan_lone_dot : normalize (bstr ".") = Some (bstr ".").
Proof. reflexivity. Qed.
Example scan_port_only : normalize (bstr ":8080") = None.
Proof. reflexivity. Qed.
Example scan_open_bracket : normalize (bstr "[2001:db8::1") = None.
Proof. reflexivity. Qed.
Example parent_domain_one_label :
  map parent_domain [bstr "foo.bar.example.com"; bstr "localhost"; bstr ".example.com"; bstr "foo."]
  = [Some (bstr "bar.example.com"); None; None; None].
Proof. reflexivity. Qed.
