(* ===== verification/RouterTypes.v ===== *)
(** Data shared by the router's components, from [crates/ramjet-router/src]:
    [BackendId], [Endpoint], [BackendProtocol] and [LbPolicy] of backend.rs,
    [PathType] of path.rs, and the interface of the [regex] crate, which is
    outside the repository and enters as the class [RegexEngine]. *)

From S2P Require Import Prelude.

Record BackendId := MkBackendId { backend_ix : u32 }.
#[export] Instance BackendId_eq_dec : EqDecision BackendId.
Proof. solve_decision. Defined.

(** [id.0 as usize]. *)
Definition backend_index (id : BackendId) : nat := Z.to_nat (backend_ix id).

Record Endpoint := MkEndpoint { addr : SocketAddr; weight : u32 }.
#[export] Instance Endpoint_eq_dec : EqDecision Endpoint.
Proof. solve_decision. Defined.

Definition Endpoint_new (a : SocketAddr) : Endpoint := MkEndpoint a 1.
Definition Endpoint_weighted (a : SocketAddr) (w : u32) : Endpoint := MkEndpoint a w.

Inductive BackendProtocol := Http1 | H2c.
#[export] Instance BackendProtocol_eq_dec : EqDecision BackendProtocol.
Proof. solve_decision. Defined.

Definition protocol_as_str (p : BackendProtocol) : str :=
  match p with Http1 => bstr "http" | H2c => bstr "h2c" end.

Inductive LbPolicy := RoundRobin | Random | LeastConn.
#[export] Instance LbPolicy_eq_dec : EqDecision LbPolicy.
Proof. solve_decision. Defined.

Inductive PathType := Exact | Prefix | ImplementationSpecific.
#[export] Instance PathType_eq_dec : EqDecision PathType.
Proof. solve_decision. Defined.
#[export] Instance PathType_countable : Countable PathType.
Proof.
  refine (inj_countable'
    (fun t => match t with Exact => 0 | Prefix => 1 | ImplementationSpecific => 2 end)
    (fun n => match n with 0 => Exact | 1 => Prefix | _ => ImplementationSpecific end) _).
  by intros [].
Defined.

(** Precedence class, low value wins. *)
Definition rank (t : PathType) : u8 :=
  match t with Exact => 0 | Prefix => 1 | ImplementationSpecific => 2 end.

Definition path_type_as_str (t : PathType) : str :=
  match t with
  | Exact => bstr "Exact"
  | Prefix => bstr "Prefix"
  | ImplementationSpecific => bstr "ImplementationSpecific"
  end.

(** The [regex] crate, as the router uses it: [RegexBuilder::new(p)
    .case_insensitive(ci).size_limit(..).build()] and [Regex::is_match]. *)
Class RegexEngine := {
  Regex : Type;
  RegexError : Type;
  regex_build : str -> bool -> result RegexError Regex;
  is_match : Regex -> str -> bool;
}.

(** A concrete engine for the witnesses: a pattern is compared literally, and
    the two anchored shapes the builder produces ([^(?:p)] and [^(?:p)$]) are
    read back as a prefix and an equality test. *)
Definition literal_body (p : str) : str := drop 4 p.
Definition literal_build (p : str) (ci : bool) : result unit (bool * str) :=
  if starts_with (bstr "^(?:") p then
    if bool_decide (last p = Some (chr "$"))
    then Ok (true, take (length p - 6) (literal_body p))
    else Ok (false, take (length p - 5) (literal_body p))
  else Err tt.
Definition literal_engine : RegexEngine := {|
  Regex := bool * str;
  RegexError := unit;
  regex_build := literal_build;
  is_match re s := if re.1 then bool_decide (s = re.2) else starts_with re.2 s;
|}.
