(* ===== verification/Canary.v ===== *)
(** Canary and mirror decisions: [crates/ramjet-router/src/canary.rs] and
    [mirror.rs].

    [decide] is the header-then-cookie-then-weight cascade, [sample] the
    mirror's percentage test.  Both take the caller's random roll as an
    argument, as the source does. *)

From S2P Require Import Prelude RouterTypes.

Section canary.
Context {E : RegexEngine}.

Inductive HeaderMatch :=
| AlwaysNever
| Value (want : str)
| Pattern (re : Regex).

Record HeaderRule := { rule_name : str; rule_test : HeaderMatch }.

(** The three header annotations, as the builder collected them. *)
Record HeaderSpec := {
  hs_name : str;
  hs_value : option str;
  hs_pattern : option Regex;
}.

Record CanarySpec := MkCanarySpec {
  canary_backend : BackendId;
  canary_header : option HeaderRule;
  canary_cookie : option str;
  canary_weight : u32;
  canary_weight_total : u32;
}.

Definition header_rule (spec : HeaderSpec) : HeaderRule :=
  {| rule_name := hs_name spec;
     rule_test :=
       match hs_value spec, hs_pattern spec with
       | _, Some re => Pattern re
       | Some v, None => Value v
       | None, None => AlwaysNever
       end |}.

Definition CanarySpec_new (backend : BackendId) (header : option HeaderSpec)
    (cookie : option str) (weight weight_total : u32) : CanarySpec :=
  MkCanarySpec backend (header_rule <$> header) cookie weight weight_total.

Definition header_name (c : CanarySpec) : option str := rule_name <$> canary_header c.
Definition cookie_name (c : CanarySpec) : option str := canary_cookie c.

(** For display: percent of the total, 0 when the total is 0. *)
Definition weight_percent (c : CanarySpec) : u32 :=
  default 0 (checked_div (sat_mul u32_max (canary_weight c) 100) (canary_weight_total c)).

(** The value-level test of one header rule: [Some b] is decisive. *)
Definition header_verdict (test : HeaderMatch) (value : str) : option bool :=
  match test with
  | AlwaysNever =>
      if bool_decide (value = bstr "always") then Some true
      else if bool_decide (value = bstr "never") then Some false
      else None
  | Value want => if bool_decide (value = want) then Some true else None
  | Pattern re => if is_match re value then Some true else None
  end.

(** The first [if let] of [decide], and the cookie's [match]. *)
Definition header_says (c : CanarySpec) (header_value : option str) : option bool :=
  match canary_header c, header_value with
  | Some rule, Some value => header_verdict (rule_test rule) value
  | _, _ => None
  end.

Definition cookie_says (c : CanarySpec) (cookie_value : option str) : option bool :=
  match canary_cookie c, cookie_value with
  | Some _, Some v =>
      if bool_decide (v = bstr "always") then Some true
      else if bool_decide (v = bstr "never") then Some false
      else None
  | _, _ => None
  end.

Definition decide_canary (c : CanarySpec) (header_value cookie_value : option str)
    (roll : u32) : bool :=
  match header_says c header_value with
  | Some b => b
  | None =>
      match cookie_says c cookie_value with
      | Some b => b
      | None => (0 <? canary_weight c) && (roll <? canary_weight c)
      end
  end.

(** ** Mirrors *)

Definition MIRROR_PERCENT_TOTAL : u32 := 100.

Record MirrorSpec := MkMirrorSpec {
  mirror_backend : BackendId;
  mirror_percent : u32;
  mirror_host : option str;
}.

Definition MirrorSpec_new (backend : BackendId) (percent : u32) (host : option str) : MirrorSpec :=
  MkMirrorSpec backend (Z.min percent MIRROR_PERCENT_TOTAL) host.

Definition sample (m : MirrorSpec) (roll : u32) : bool :=
  (0 <? mirror_percent m) && (roll <? mirror_percent m).

(** ** The precedence the annotations promise *)

(** The documented rule, as a relation: a decisive header wins; with no
    decisive header a decisive cookie wins; otherwise the weight splits. *)
Inductive diverts (c : CanarySpec) (hv cv : option str) (roll : u32) : bool -> Prop :=
| by_header rule v b :
    canary_header c = Some rule -> hv = Some v -> header_verdict (rule_test rule) v = Some b ->
    diverts c hv cv roll b
| by_cookie name v b :
    (forall rule w, canary_header c = Some rule -> hv = Some w ->
       header_verdict (rule_test rule) w = None) ->
    canary_cookie c = Some name -> cv = Some v ->
    (v = bstr "always" /\ b = true \/ v = bstr "never" /\ b = false) ->
    diverts c hv cv roll b
| by_weight :
    (forall rule w, canary_header c = Some rule -> hv = Some w ->
       header_verdict (rule_test rule) w = None) ->
    (forall name v, canary_cookie c = Some name -> cv = Some v ->
       v <> bstr "always" /\ v <> bstr "never") ->
    diverts c hv cv roll (bool_decide (roll < canary_weight c)).

(** ** Counting rolls *)

(** How many of the rolls [0 .. n-1] satisfy a test. *)
Definition count_rolls (p : Z -> bool) (n : nat) : nat :=
  length (List.filter p (Z.of_nat <$> seq 0 n)).

Lemma count_rolls_ext p q n :
  (forall r, 0 <= r -> p r = q r) -> count_rolls p n = count_rolls q n.
Proof.
  intros H. unfold count_rolls. f_equal. apply List.filter_ext_in.
  intros r Hr. apply list_elem_of_In, list_elem_of_fmap in Hr as (k&->&_). apply H. lia.
Qed.

Lemma count_rolls_below n w :
  0 <= w -> w <= Z.of_nat n -> count_rolls (fun r => r <? w) n = Z.to_nat w.
Proof.
  unfold count_rolls. intros H0 Hn. revert w H0 Hn. induction n as [|n IH]; intros w H0 Hn.
  { simpl. lia. }
  rewrite seq_S, fmap_app, List.filter_app, length_app. cbn [fmap list_fmap List.filter Nat.add].
  destruct (decide (w = Z.of_nat (S n))) as [->|].
  - replace (Z.of_nat n <? Z.of_nat (S n)) with true by lia. simpl.
    rewrite (List.filter_ext_in _ (fun r => r <? Z.of_nat n)); [rewrite IH; lia|].
    intros r Hr. apply list_elem_of_In, list_elem_of_fmap in Hr as (k&->&Hk%elem_of_seq). lia.
  - rewrite IH by lia. replace (Z.of_nat n <? w) with false by lia. simpl. lia.
Qed.

Lemma header_says_None c hv :
  header_says c hv = None <->
  forall rule w, canary_header c = Some rule -> hv = Some w ->
    header_verdict (rule_test rule) w = None.
Proof. unfold header_says. destruct (canary_header c), hv; naive_solver. Qed.

Lemma cookie_says_None c cv :
  cookie_says c cv = None <->
  forall name v, canary_cookie c = Some name -> cv = Some v ->
    v <> bstr "always" /\ v <> bstr "never".
Proof.
  unfold cookie_says. destruct (canary_cookie c), cv as [v|]; try naive_solver.
  repeat case_bool_decide; naive_solver.
Qed.

Lemma cookie_says_Some c cv b :
  cookie_says c cv = Some b <->
  exists name v, canary_cookie c = Some name /\ cv = Some v /\
    (v = bstr "always" /\ b = true \/ v = bstr "never" /\ b = false).
Proof.
  unfold cookie_says. destruct (canary_cookie c), cv as [v|]; try naive_solver.
  repeat case_bool_decide; naive_solver.
Qed.

Lemma weight_test c roll :
  0 <= roll ->
  (0 <? canary_weight c) && (roll <? canary_weight c) = bool_decide (roll < canary_weight c).
Proof. intros. case_bool_decide; lia. Qed.

Lemma decide_canary_weight c hv cv roll :
  0 <= roll -> header_says c hv = None -> cookie_says c cv = None ->
  decide_canary c hv cv roll = (roll <? canary_weight c).
Proof.
  intros ? Hh Hc. unfold decide_canary. rewrite Hh, Hc, weight_test by done.
  case_bool_decide; lia.
Qed.

(** ** Properties *)

(** The canary cascade.  For every canary, header value, cookie value and
    roll, [decide] answers exactly what the annotation semantics says: a
    decisive header ([always]/[never], the configured value, or the pattern)
    beats everything; a header that is present but not decisive falls through;
    then a decisive cookie; then the weight.  The relation [diverts] is
    total and functional because it is the graph of [decide]. *)
Theorem decide_canary_precedence c hv cv roll b :
  0 <= roll -> decide_canary c hv cv roll = b <-> diverts c hv cv roll b.
Proof.
  intros Hr. split.
  - intros <-. unfold decide_canary. destruct (header_says c hv) as [b'|] eqn:Eh.
    { unfold header_says in Eh. destruct (canary_header c) eqn:?, hv; try done. by eapply by_header. }
    rewrite header_says_None in Eh. destruct (cookie_says c cv) as [b'|] eqn:Ec.
    { apply cookie_says_Some in Ec as (?&?&?&?&?). by eapply by_cookie. }
    rewrite cookie_says_None in Ec. rewrite weight_test by done. by apply by_weight.
  - unfold decide_canary. intros [rule v b' Hc -> Hv|name v b' Hh Hc -> Hv|Hh Hc].
    + unfold header_says. by rewrite Hc, Hv.
    + rewrite <- header_says_None in Hh. rewrite Hh.
      rewrite (proj2 (cookie_says_Some c (Some v) b')); [done|]. eauto 10.
    + rewrite <- header_says_None in Hh. rewrite <- cookie_says_None in Hc.
      by rewrite Hh, Hc, weight_test.
Qed.

(** The weight split is exact.  When neither header nor cookie is
    decisive, of the [weight_total] rolls the caller can draw exactly
    [weight] divert: nothing is rounded and no roll is lost. *)
Theorem decide_canary_share c hv cv :
  header_says c hv = None -> cookie_says c cv = None ->
  0 <= canary_weight c <= canary_weight_total c ->
  count_rolls (decide_canary c hv cv) (Z.to_nat (canary_weight_total c))
  = Z.to_nat (canary_weight c).
Proof.
  intros Hh Hc Hw. etransitivity;
    [|apply (count_rolls_below (Z.to_nat (canary_weight_total c)) (canary_weight c)); lia].
  apply count_rolls_ext. intros r ?. by apply decide_canary_weight.
Qed.

(** The mirror percentage is exact: for any configured percentage,
    clamped to 100 by the constructor, exactly that many of the 100 rolls are
    sampled, so 0 samples nothing and 100 (or more) samples everything. *)
Theorem mirror_sample_share backend percent host :
  0 <= percent ->
  count_rolls (sample (MirrorSpec_new backend percent host)) (Z.to_nat MIRROR_PERCENT_TOTAL)
  = Z.to_nat (Z.min percent 100).
Proof.
  intros Hp. etransitivity; [|apply (count_rolls_below 100 (Z.min percent 100)); lia].
  apply count_rolls_ext. intros r ?. unfold sample. simpl. unfold MIRROR_PERCENT_TOTAL. lia.
Qed.

End canary.

(** ** Witnesses *)

#[local] Existing Instance literal_engine.

Definition demo_canary : CanarySpec :=
  CanarySpec_new (MkBackendId 1)
    (Some {| hs_name := bstr "x-canary"; hs_value := Some (bstr "beta"); hs_pattern := None |})
    (Some (bstr "canary")) 30 100.

Lemma decide_canary_precedence_witness :
  0 <= 99 /\
  diverts demo_canary (Some (bstr "other")) (Some (bstr "always")) 99 true.
Proof. split; [lia|]. apply decide_canary_precedence; [lia|reflexivity]. Defined.

Lemma decide_canary_share_witness :
  count_rolls (decide_canary demo_canary (Some (bstr "other")) None) 100 = 30%nat.
Proof.
  apply (decide_canary_share demo_canary (Some (bstr "other")) None);
    [reflexivity|reflexivity|simpl; lia].
Defined.

Lemma mirror_sample_share_witness :
  count_rolls (sample (MirrorSpec_new (MkBackendId 1) 1000 None)) 100 = 100%nat.
Proof. apply (mirror_sample_share (MkBackendId 1) 1000 None). lia. Defined.

Example header_beats_cookie :
  decide_canary (CanarySpec_new (MkBackendId 1)
     (Some {| hs_name := bstr "x"; hs_value := None; hs_pattern := None |})
     (Some (bstr "c")) 100 100) (Some (bstr "never")) (Some (bstr "always")) 0 = false.
Proof. reflexivity. Qed.
