(* ===== verification/Paths.v ===== *)
(** Path rules: [crates/ramjet-router/src/path.rs].

    [prefix_match_len] and [prefix_matches] are the byte-level test the hot
    path runs; [segments_prefix] is the element-wise rule of the Ingress
    specification they implement.  [sort_key] is the precedence order the
    builder bakes into every virtual host. *)

From S2P Require Import Prelude RouterTypes Canary.

Definition prefix_match_len (path : str) : usize :=
  let trimmed := trim_end_matches (chr "/") path in
  if bool_decide (trimmed = []) then 0%nat else length trimmed.

Definition prefix_matches (rule_path : str) (match_len : usize) (path : str) : bool :=
  match get_to path match_len, get_to rule_path match_len with
  | Some head, Some rule =>
      if bool_decide (head = rule)
      then (length path =? match_len)%nat || bool_decide (path !! match_len = Some (chr "/"))
      else false
  | _, _ => false
  end.

Section rules.
Context {E : RegexEngine}.

Record RuleExtras := { extra_canary : option CanarySpec; extra_mirror : option MirrorSpec }.

Definition RuleExtras_build (canary : option CanarySpec) (mirror : option MirrorSpec)
    : option RuleExtras :=
  match canary, mirror with
  | None, None => None
  | _, _ => Some {| extra_canary := canary; extra_mirror := mirror |}
  end.

Record PathRule := MkPathRule {
  rule_path : str;
  rule_match_len : u32;
  rule_path_type : PathType;
  rule_regex : option Regex;
  rule_backend : BackendId;
  rule_stats_index : u32;
  rule_extras : option RuleExtras;
}.

Definition PathRule_new (path : str) (path_type : PathType) (regex : option Regex)
    (backend : BackendId) (extras : option RuleExtras) : PathRule :=
  let match_len :=
    match path_type with
    | Prefix => wrap32 (Z.of_nat (prefix_match_len path))
    | _ => 0
    end in
  MkPathRule path match_len path_type regex backend 0 extras.

Definition set_stats_index (r : PathRule) (index : u32) : PathRule :=
  MkPathRule (rule_path r) (rule_match_len r) (rule_path_type r) (rule_regex r)
    (rule_backend r) index (rule_extras r).

Definition rule_matches (r : PathRule) (path : str) : bool :=
  match rule_path_type r with
  | Exact => bool_decide (path = rule_path r)
  | Prefix => prefix_matches (rule_path r) (Z.to_nat (rule_match_len r)) path
  | ImplementationSpecific =>
      match rule_regex r with Some re => is_match re path | None => false end
  end.

(** [(rank, Reverse(match_len))], compared lexicographically. *)
Definition sort_key (r : PathRule) : Z * Z := (rank (rule_path_type r), rule_match_len r).
Definition key_le (a b : Z * Z) : bool :=
  (a.1 <? b.1) || ((a.1 =? b.1) && (b.2 <=? a.2)).
Definition rule_le (a b : PathRule) : bool := key_le (sort_key a) (sort_key b).

Definition rule_canary (r : PathRule) : option CanarySpec :=
  x ← rule_extras r; extra_canary x.
Definition rule_mirror (r : PathRule) : option MirrorSpec :=
  x ← rule_extras r; extra_mirror x.
End rules.

(** ** The element-wise rule of the Ingress specification *)

Definition segments (path : str) : list str := split_on (chr "/") path.

(** [rule] without its trailing slashes selects the subtree of its elements. *)
Definition segments_prefix (rule path : str) : Prop :=
  segments (trim_end_matches (chr "/") rule) `prefix_of` segments path.

(** ** Lemmas *)

Fixpoint join_on (c : u8) (l : list str) : str :=
  match l with
  | [] => []
  | [x] => x
  | x :: l' => x ++ c :: join_on c l'
  end.

Lemma split_on_head c b s : (b =? c) = false ->
  exists p l, split_on c s = p :: l /\ split_on c (b :: s) = (b :: p) :: l.
Proof.
  intros Hb. simpl. rewrite Hb. pose proof (split_on_nonempty c s).
  destruct (split_on c s) as [|p l]; [done|]. eauto.
Qed.

Lemma join_split c s : join_on c (split_on c s) = s.
Proof.
  induction s as [|b s IH]; [done|]. destruct (b =? c) eqn:E.
  - simpl. rewrite E. pose proof (split_on_nonempty c s).
    assert (b = c) as -> by lia. simpl. rewrite <- IH at 2.
    by destruct (split_on c s).
  - destruct (split_on_head c b s E) as (p&l&Hs&->). rewrite Hs in IH.
    destruct l; simpl in *; congruence.
Qed.

Lemma split_on_inj c s t : split_on c s = split_on c t -> s = t.
Proof. intros H. by rewrite <- (join_split c s), H, join_split. Qed.

Lemma split_on_app c s t : split_on c (s ++ c :: t) = split_on c s ++ split_on c t.
Proof.
  induction s as [|b s IH]; simpl; [by rewrite Z.eqb_refl|].
  rewrite IH. case_match; [done|]. pose proof (split_on_nonempty c s).
  by destruct (split_on c s).
Qed.

Lemma join_on_app c l k : l <> [] -> k <> [] -> join_on c (l ++ k) = join_on c l ++ c :: join_on c k.
Proof.
  intros Hl Hk. induction l as [|x l IH]; [done|]. destruct l as [|y l].
  - simpl. by destruct k.
  - change (x ++ c :: join_on c ((y :: l) ++ k) = (x ++ c :: join_on c (y :: l)) ++ c :: join_on c k).
    rewrite IH by done. by rewrite <- app_assoc.
Qed.

Lemma split_prefix_iff c t p :
  split_on c t `prefix_of` split_on c p <-> p = t \/ exists rest, p = t ++ c :: rest.
Proof.
  split.
  - intros [k Hk]. destruct k as [|x k].
    { left. rewrite app_nil_r in Hk. by apply (split_on_inj c). }
    right. exists (join_on c (x :: k)).
    by rewrite <- (join_split c p), Hk, join_on_app, join_split by (done || apply split_on_nonempty).
  - intros [->|[rest ->]]; [done|]. rewrite split_on_app. by apply prefix_app_r.
Qed.

Lemma drop_while_suffix {A} (p : A -> bool) l : exists k, l = k ++ drop_while p l.
Proof.
  induction l as [|x l [k IH]]; simpl; [by exists []|]. destruct (p x); [|by exists []].
  exists (x :: k). simpl. by f_equal.
Qed.

Lemma trim_end_prefix c s : trim_end_matches c s `prefix_of` s.
Proof.
  unfold trim_end_matches. destruct (drop_while_suffix (fun b => b =? c) (rev s)) as [k Hk].
  exists (rev k). rewrite <- rev_app_distr, <- Hk. by rewrite rev_involutive.
Qed.

Lemma prefix_match_len_trim path : prefix_match_len path = length (trim_end_matches (chr "/") path).
Proof. unfold prefix_match_len. cbv zeta. case_bool_decide as H; [by rewrite H|done]. Qed.

Lemma prefix_match_len_le path : (prefix_match_len path <= length path)%nat.
Proof. rewrite prefix_match_len_trim. apply prefix_length, trim_end_prefix. Qed.

Lemma prefix_matches_spec r path :
  prefix_matches r (prefix_match_len r) path = true <->
  let t := trim_end_matches (chr "/") r in path = t \/ exists rest, path = t ++ chr "/" :: rest.
Proof.
  rewrite prefix_match_len_trim. destruct (trim_end_prefix 47 r) as [k Hk]. cbv zeta.
  revert Hk. generalize (trim_end_matches 47 r). intros t Hk. subst r. unfold prefix_matches, get_to.
  rewrite (proj2 (Nat.leb_le _ (length (t ++ k)))) by (rewrite length_app; lia).
  rewrite take_app_length. split.
  - destruct (length t <=? length path)%nat eqn:Hl; [|done].
    case_bool_decide as Ht; [|done]. intros [He|Hd]%orb_true_iff.
    + left. rewrite <- Ht, firstn_all2; [done|lia].
    + right. apply bool_decide_eq_true in Hd. exists (drop (S (length t)) path).
      rewrite <- Ht at 1. by rewrite take_drop_middle.
  - intros [->|[rest ->]].
    + rewrite Nat.leb_refl, firstn_all, bool_decide_eq_true_2, Nat.eqb_refl; done.
    + rewrite (proj2 (Nat.leb_le _ _)) by (rewrite length_app; simpl; lia).
      rewrite take_app_length, bool_decide_eq_true_2 by done.
      by rewrite list_lookup_middle, orb_true_r.
Qed.

(** The order is total and transitive, so a stable sort by it is determined. *)
Lemma key_le_total a b : key_le a b = false -> key_le b a = true.
Proof. unfold key_le. lia. Qed.
Lemma key_le_trans a b c : key_le a b = true -> key_le b c = true -> key_le a c = true.
Proof. unfold key_le. lia. Qed.

(** ** Properties *)

(** The byte-level prefix test is the element-wise rule: for every rule
    path and request path, [prefix_matches] with the precomputed length holds
    exactly when the elements of the rule (trailing slashes ignored) are a
    prefix of the elements of the request, so [/foo] matches [/foo] and
    [/foo/bar] and never [/foobar]. *)
Theorem prefix_matches_elements rule path :
  prefix_matches rule (prefix_match_len rule) path = true <-> segments_prefix rule path.
Proof.
  unfold segments_prefix, segments. rewrite split_prefix_iff. apply prefix_matches_spec.
Qed.

Section rule_properties.
Context {E : RegexEngine}.

(** A [Prefix] rule built by [PathRule::new] answers by elements as long
    as its path is shorter than 4 GiB, the width of the stored length: the
    [as u32] cast loses nothing, and [stats_index] assignment later leaves the
    answer alone. *)
Theorem prefix_rule_matches path re id extras index request :
  Z.of_nat (length path) < 2 ^ 32 ->
  rule_matches (set_stats_index (PathRule_new path Prefix re id extras) index) request = true
  <-> segments_prefix path request.
Proof.
  intros Hl. unfold rule_matches. simpl. pose proof (prefix_match_len_le path).
  unfold wrap32, wrap. rewrite Z.mod_small, Nat2Z.id by lia.
  unfold segments_prefix, segments. rewrite split_prefix_iff. apply prefix_matches_spec.
Qed.
End rule_properties.

Lemma prefix_rule_matches_witness :
  segments_prefix (bstr "/foo/") (bstr "/foo/bar").
Proof.
  apply (prefix_rule_matches (E := literal_engine) (bstr "/foo/") None (MkBackendId 0) None 7
           (bstr "/foo/bar")); vm_compute; reflexivity.
Defined.

(** The example table of the Ingress documentation. *)
Example spec_table :
  map (fun '(r, p) => prefix_matches r (prefix_match_len r) p)
    [(bstr "/", bstr "/anything"); (bstr "/foo", bstr "/foo/"); (bstr "/foo/", bstr "/foo");
     (bstr "/aaa/bb", bstr "/aaa/bbb"); (bstr "/aaa/bbb", bstr "/aaa/bbbxyz");
     (bstr "/foo///", bstr "/foo/bar"); (bstr "/foo/bar", bstr "/foo")]
  = [true; true; true; false; false; true; false].
Proof. reflexivity. Qed.
