(* ===== verification/Stats.v ===== *)
(** Counters that outlive a table: [crates/ramjet-router/src/stats.rs].

    The atomics live in a [Heap] that successive generations share; an
    [Arc<AtomicU32>] is an index into [counters], the cursor of a slot an index
    into [cursors] (which is also the identity of the slot's [Arc]).  The
    in-flight protocol is the step relation [step]: acquire, guard drop, cursor
    pick and rebuild, interleaved in any order over every generation still
    held by somebody. *)

From S2P Require Import Prelude RouterTypes.

Record Heap := MkHeap { cursors : list u32; counters : list u32 }.
Definition heap_empty : Heap := MkHeap [] [].

Definition alloc_counter (h : Heap) (v : u32) : nat * Heap :=
  (length (counters h), MkHeap (cursors h) (counters h ++ [v])).
Definition alloc_cursor (h : Heap) (v : u32) : nat * Heap :=
  (length (cursors h), MkHeap (cursors h ++ [v]) (counters h)).

Definition load_counter (h : Heap) (l : nat) : u32 := default 0 (counters h !! l).
Definition load_cursor (h : Heap) (l : nat) : u32 := default 0 (cursors h !! l).
(** [fetch_add] and [fetch_sub] on an [AtomicU32] wrap around. *)
Definition fetch_add_counter (h : Heap) (l : nat) (n : Z) : Heap :=
  MkHeap (cursors h) (alter (fun v => wrap32 (v + n)) l (counters h)).
Definition fetch_add_cursor (h : Heap) (l : nat) (n : Z) : Heap :=
  MkHeap (alter (fun v => wrap32 (v + n)) l (cursors h)) (counters h).

Record BackendSlot := MkBackendSlot {
  slot_cursor : nat;
  slot_inflight : list nat;
  slot_addrs : list SocketAddr;
}.
#[export] Instance BackendSlot_eq_dec : EqDecision BackendSlot.
Proof. solve_decision. Defined.

Definition inflight_count (s : BackendSlot) (h : Heap) (index : usize) : u32 :=
  match slot_inflight s !! index with
  | Some l => load_counter h l
  | None => 0
  end.

(** The guard is the counter it will decrement. *)
Definition acquire (s : BackendSlot) (h : Heap) (index : usize) : option (nat * Heap) :=
  l ← slot_inflight s !! index; Some (l, fetch_add_counter h l 1).
Definition drop_guard (h : Heap) (guard : nat) : Heap := fetch_add_counter h guard (-1).

Definition next_cursor (s : BackendSlot) (h : Heap) : u32 * Heap :=
  (load_cursor h (slot_cursor s), fetch_add_cursor h (slot_cursor s) 1).

Record BackendStats := MkBackendStats {
  slots : list BackendSlot;
  by_name : gmap str BackendSlot;
}.

Definition stats_slot (st : BackendStats) (index : u32) : option BackendSlot :=
  slots st !! Z.to_nat index.

(** The counter the previous slot holds for [a], if it has one. *)
Definition carried (old : option BackendSlot) (a : SocketAddr) : option nat :=
  prev ← old;
  i ← position (fun x => bool_decide (x = a)) (slot_addrs prev);
  slot_inflight prev !! i.

Fixpoint rebuild_inflight (old : option BackendSlot) (addrs : list SocketAddr) (h : Heap)
    : list nat * Heap :=
  match addrs with
  | [] => ([], h)
  | a :: rest =>
      let '(l, h1) :=
        match carried old a with Some l => (l, h) | None => alloc_counter h 0 end in
      let '(ls, h2) := rebuild_inflight old rest h1 in
      (l :: ls, h2)
  end.

Definition rebuild_slot (old : option BackendSlot) (addrs : list SocketAddr) (h : Heap)
    : BackendSlot * Heap :=
  match old with
  | Some prev =>
      if bool_decide (slot_addrs prev = addrs) then (prev, h)
      else
        let '(inflight, h1) := rebuild_inflight old addrs h in
        let '(c, h2) := alloc_cursor h1 (load_cursor h1 (slot_cursor prev)) in
        (MkBackendSlot c inflight addrs, h2)
  | None =>
      let '(inflight, h1) := rebuild_inflight old addrs h in
      let '(c, h2) := alloc_cursor h1 0 in
      (MkBackendSlot c inflight addrs, h2)
  end.

Fixpoint rebuild_loop (specs : list (str * list SocketAddr)) (previous : option BackendStats)
    (acc : BackendStats) (h : Heap) : BackendStats * Heap :=
  match specs with
  | [] => (acc, h)
  | (name, addrs) :: rest =>
      let old := p ← previous; by_name p !! name in
      let '(slot, h1) := rebuild_slot old addrs h in
      rebuild_loop rest previous
        (MkBackendStats (slots acc ++ [slot]) (<[name := slot]> (by_name acc))) h1
  end.

Definition rebuild (specs : list (str * list SocketAddr)) (previous : option BackendStats)
    (h : Heap) : BackendStats * Heap :=
  rebuild_loop specs previous (MkBackendStats [] ∅) h.

(** ** The in-flight protocol *)

Record World := MkWorld {
  heap : Heap;
  generations : list BackendStats;
  guards : list nat;
}.
Definition world_init : World := MkWorld heap_empty [] [].

(** A slot some generation can hand out. *)
Definition live_slot (gens : list BackendStats) (s : BackendSlot) : Prop :=
  exists st, st ∈ gens /\ (s ∈ slots st \/ exists name, by_name st !! name = Some s).

Inductive step : World -> World -> Prop :=
| step_acquire w s i l h' :
    live_slot (generations w) s -> acquire s (heap w) i = Some (l, h') ->
    step w (MkWorld h' (generations w) (l :: guards w))
| step_drop w g1 l g2 :
    guards w = g1 ++ l :: g2 ->
    step w (MkWorld (drop_guard (heap w) l) (generations w) (g1 ++ g2))
| step_pick w s c h' :
    live_slot (generations w) s -> next_cursor s (heap w) = (c, h') ->
    step w (MkWorld h' (generations w) (guards w))
| step_rebuild w specs previous st h' :
    (forall p, previous = Some p -> p ∈ generations w) ->
    rebuild specs previous (heap w) = (st, h') ->
    step w (MkWorld h' (generations w ++ [st]) (guards w)).

(** ** Route counters *)

Definition ROUTE_STAT_SHARDS : nat := 4.

Record RouteCounters := MkRouteCounters {
  requests : u64;
  errors_5xx : u64;
  upstream_latency_micros : u64;
  upstream_latency_count : u64;
}.
Definition RouteCounters_default : RouteCounters := MkRouteCounters 0 0 0 0.

Definition record_response (status : u16) (c : RouteCounters) : RouteCounters :=
  MkRouteCounters (wrap64 (requests c + 1))
    (if (500 <=? status) && (status <? 600) then wrap64 (errors_5xx c + 1) else errors_5xx c)
    (upstream_latency_micros c) (upstream_latency_count c).

(** [elapsed] in microseconds; [as_micros] is a [u128], saturated to [u64]. *)
Definition record_upstream_latency (elapsed : Z) (c : RouteCounters) : RouteCounters :=
  MkRouteCounters (requests c) (errors_5xx c)
    (wrap64 (upstream_latency_micros c + Z.min elapsed u64_max))
    (wrap64 (upstream_latency_count c + 1)).

(** [RouteTotals] has the four fields of a block, as plain numbers. *)
Definition RouteTotals := RouteCounters.

Definition totals_saturating_sub (a b : RouteTotals) : RouteTotals :=
  MkRouteCounters (sat_sub (requests a) (requests b)) (sat_sub (errors_5xx a) (errors_5xx b))
    (sat_sub (upstream_latency_micros a) (upstream_latency_micros b))
    (sat_sub (upstream_latency_count a) (upstream_latency_count b)).

Record RouteSlot := MkRouteSlot {
  shards : list RouteCounters;
  canary_shards : list RouteCounters;
}.
Definition RouteSlot_default : RouteSlot :=
  MkRouteSlot (replicate ROUTE_STAT_SHARDS RouteCounters_default)
    (replicate ROUTE_STAT_SHARDS RouteCounters_default).

Definition shard_index (shard : usize) : nat := (shard mod ROUTE_STAT_SHARDS)%nat.

(** Writing through the block [shard(i)] (or [canary_shard(i)]) hands out. *)
Definition on_shard (f : RouteCounters -> RouteCounters) (shard : usize) (s : RouteSlot) : RouteSlot :=
  MkRouteSlot (alter f (shard_index shard) (shards s)) (canary_shards s).
Definition on_canary_shard (f : RouteCounters -> RouteCounters) (shard : usize) (s : RouteSlot) : RouteSlot :=
  MkRouteSlot (shards s) (alter f (shard_index shard) (canary_shards s)).

Definition totals_add (a b : RouteTotals) : RouteTotals :=
  MkRouteCounters (wrap64 (requests a + requests b)) (wrap64 (errors_5xx a + errors_5xx b))
    (wrap64 (upstream_latency_micros a + upstream_latency_micros b))
    (wrap64 (upstream_latency_count a + upstream_latency_count b)).
Definition sum_shards (l : list RouteCounters) : RouteTotals :=
  foldl totals_add RouteCounters_default l.
Definition totals (s : RouteSlot) : RouteTotals := sum_shards (shards s).
Definition canary_totals (s : RouteSlot) : RouteTotals := sum_shards (canary_shards s).

Record RouteIdentity := MkRouteIdentity {
  id_host : str;
  id_path : str;
  id_path_type : PathType;
  id_backend : str;
}.
#[export] Instance RouteIdentity_eq_dec : EqDecision RouteIdentity.
Proof. solve_decision. Defined.
#[export] Instance RouteIdentity_countable : Countable RouteIdentity.
Proof.
  refine (inj_countable'
    (fun i => (id_host i, id_path i, id_path_type i, id_backend i))
    (fun '(h, p, t, b) => MkRouteIdentity h p t b) _).
  by intros [].
Defined.

(** [Arc<RouteSlot>] is an index into the store all generations share. *)
Abbreviation RouteStore := (list RouteSlot).
Record RouteStats := MkRouteStats {
  route_slots : list nat;
  by_identity : gmap RouteIdentity nat;
}.

Definition route_slot (st : RouteStats) (index : u32) : option nat :=
  route_slots st !! Z.to_nat index.

Fixpoint rebuild_routes_loop (ids : list RouteIdentity) (previous : option RouteStats)
    (acc : RouteStats) (store : RouteStore) : RouteStats * RouteStore :=
  match ids with
  | [] => (acc, store)
  | id :: rest =>
      let '(slot, store1) :=
        match (p ← previous; by_identity p !! id) with
        | Some l => (l, store)
        | None => (length store, store ++ [RouteSlot_default])
        end in
      rebuild_routes_loop rest previous
        (MkRouteStats (route_slots acc ++ [slot]) (<[id := slot]> (by_identity acc))) store1
  end.

Definition rebuild_routes (ids : list RouteIdentity) (previous : option RouteStats)
    (store : RouteStore) : RouteStats * RouteStore :=
  rebuild_routes_loop ids previous (MkRouteStats [] ∅) store.

(** ** Rebuild only ever extends the heap *)

Definition extends (h h' : Heap) : Prop :=
  (exists k, counters h' = counters h ++ replicate k 0) /\
  (exists cs, cursors h' = cursors h ++ cs).

Definition slot_ok (h : Heap) (s : BackendSlot) : Prop :=
  Forall (fun l => (l < length (counters h))%nat) (slot_inflight s) /\
  (slot_cursor s < length (cursors h))%nat /\
  length (slot_inflight s) = length (slot_addrs s).

#[export] Instance extends_preorder : PreOrder extends.
Proof.
  split.
  - intros h. split; [exists 0%nat|exists []]; by rewrite app_nil_r.
  - intros h1 h2 h3 [[k1 E1] [c1 F1]] [[k2 E2] [c2 F2]]. split.
    + exists (k1 + k2)%nat. by rewrite E2, E1, replicate_add, app_assoc.
    + exists (c1 ++ c2). by rewrite F2, F1, app_assoc.
Qed.

Lemma slot_ok_extends h h' s : extends h h' -> slot_ok h s -> slot_ok h' s.
Proof.
  intros [[k E] [cs F]] (H1&H2&H3). unfold slot_ok. rewrite E, F, !length_app.
  split; [|split; [lia|done]]. eapply Forall_impl; [exact H1|]. simpl. intros. lia.
Qed.

Lemma alloc_counter_extends h : extends h (alloc_counter h 0).2.
Proof. split; [by exists 1%nat|exists []; simpl; by rewrite app_nil_r]. Qed.

Lemma alloc_cursor_extends h v : extends h (alloc_cursor h v).2.
Proof. split; [exists 0%nat; simpl; by rewrite app_nil_r|by exists [v]]. Qed.

Lemma carried_ok h old a l :
  (forall prev, old = Some prev -> slot_ok h prev) ->
  carried old a = Some l -> (l < length (counters h))%nat.
Proof.
  unfold carried. destruct old as [prev|]; simpl; [|done]. intros H.
  destruct (H _ eq_refl) as [Hl _]. destruct (position _ _) as [i|]; simpl; [|done].
  intros Hi. rewrite Forall_lookup in Hl. by apply (Hl i).
Qed.

Lemma rebuild_inflight_ok old addrs h ls h' :
  (forall prev, old = Some prev -> slot_ok h prev) ->
  rebuild_inflight old addrs h = (ls, h') ->
  extends h h' /\ Forall (fun l => (l < length (counters h'))%nat) ls /\
  length ls = length addrs /\ cursors h' = cursors h.
Proof.
  revert h ls h'. induction addrs as [|a addrs IH]; intros h ls h' Hold; simpl.
  { intros [= <- <-]. split; [done|]. by repeat constructor. }
  destruct (match carried old a with Some l => (l, h) | None => alloc_counter h 0 end)
    as [l h1] eqn:E1.
  destruct (rebuild_inflight old addrs h1) as [ls2 h2] eqn:E2. intros [= <- <-].
  assert (Hh1 : extends h h1 /\ (l < length (counters h1))%nat /\ cursors h1 = cursors h).
  { destruct (carried old a) as [l0|] eqn:Ec; simplify_eq.
    - split; [done|]. split; [by eapply carried_ok|done].
    - unfold alloc_counter in E1. simplify_eq. split; [apply alloc_counter_extends|].
      simpl. rewrite length_app. simpl. split; [lia|done]. }
  destruct Hh1 as (Hx&Hl&Hc). apply IH in E2 as (Hx2&Hall&Hlen&Hc2);
    [|intros; eapply slot_ok_extends; eauto].
  split; [by etransitivity|]. split; [|split; [simpl; lia|congruence]].
  constructor; [|done]. destruct Hx2 as [[k ->] _]. rewrite length_app. lia.
Qed.

Lemma rebuild_slot_ok old addrs h s h' :
  (forall prev, old = Some prev -> slot_ok h prev) ->
  rebuild_slot old addrs h = (s, h') -> extends h h' /\ slot_ok h' s.
Proof.
  intros Hold Hs.
  assert (Hnew : forall v, rebuild_inflight old addrs h = (slot_inflight s, MkHeap (cursors h) (counters h')) ->
     s = MkBackendSlot (length (cursors h)) (slot_inflight s) addrs ->
     cursors h' = cursors h ++ [v] -> extends h h' /\ slot_ok h' s).
  { intros v Hi -> Hc. apply rebuild_inflight_ok in Hi as ([Hx _]&Hall&Hlen&_); [|done].
    split; [split; [done|by exists [v]]|]. unfold slot_ok. simpl in *.
    rewrite Hc, length_app. simpl. split; [done|]. split; [lia|done]. }
  unfold rebuild_slot in Hs. destruct old as [prev|].
  - case_bool_decide; [simplify_eq; split; [done|by apply Hold]|].
    destruct (rebuild_inflight _ _ _) as [ls h1] eqn:E.
    pose proof (rebuild_inflight_ok _ _ _ _ _ Hold E) as (_&_&_&Hc).
    unfold alloc_cursor in Hs. simplify_eq. eapply Hnew; [|by simpl; rewrite Hc..].
    destruct h1; simpl in *. by subst.
  - destruct (rebuild_inflight _ _ _) as [ls h1] eqn:E.
    pose proof (rebuild_inflight_ok _ _ _ _ _ Hold E) as (_&_&_&Hc).
    unfold alloc_cursor in Hs. simplify_eq. eapply Hnew; [|by simpl; rewrite Hc..].
    destruct h1; simpl in *. by subst.
Qed.

Definition stats_ok (h : Heap) (st : BackendStats) : Prop :=
  forall s, live_slot [st] s -> slot_ok h s.

Lemma live_slot_singleton st s :
  live_slot [st] s <-> s ∈ slots st \/ exists name, by_name st !! name = Some s.
Proof.
  unfold live_slot. split; [|intros; exists st; split; [set_solver|done]].
  intros (st'&Hin&H). apply list_elem_of_singleton in Hin. by subst.
Qed.

Lemma rebuild_loop_ok specs previous acc h st h' :
  (forall p, previous = Some p -> stats_ok h p) -> stats_ok h acc ->
  rebuild_loop specs previous acc h = (st, h') -> extends h h' /\ stats_ok h' st.
Proof.
  revert acc h. induction specs as [|[name addrs] specs IH]; intros acc h Hp Hacc; simpl.
  { by intros [= <- <-]. }
  destruct (rebuild_slot _ addrs h) as [s h1] eqn:E. intros Hl.
  apply rebuild_slot_ok in E as [Hx Hs]; cycle 1.
  { intros prev. destruct previous as [p|]; simpl; [|done]. intros Hn.
    apply (Hp _ eq_refl), live_slot_singleton. eauto. }
  apply IH in Hl as [Hx2 Hst]; [split; [by etransitivity|done]| |].
  - intros p ->. intros s' Hs'. eapply slot_ok_extends; [done|]. by apply (Hp p).
  - intros s' Hs'%live_slot_singleton. simpl in Hs'.
    assert (s' = s \/ live_slot [acc] s') as [->|Hacc']; [|done|by eapply slot_ok_extends, Hacc].
    rewrite live_slot_singleton. destruct Hs' as [Hin|[n Hn]]; [set_solver|].
    destruct (decide (n = name)) as [->|]; simplify_map_eq; eauto.
Qed.

(** ** The reachable-state invariant *)

Definition held (w : World) (l : nat) : nat := List.count_occ Nat.eq_dec (guards w) l.

Record World_inv (w : World) : Prop := {
  inv_slots : forall s, live_slot (generations w) s -> slot_ok (heap w) s;
  inv_counts : forall l v, counters (heap w) !! l = Some v -> v = wrap32 (Z.of_nat (held w l));
  inv_guards : Forall (fun l => (l < length (counters (heap w)))%nat) (guards w);
}.

Lemma inv_init : World_inv world_init.
Proof.
  split; simpl; [|done|constructor]. intros s (st&Hin&_). set_solver.
Qed.

Lemma fetch_add_length h l n : length (counters (fetch_add_counter h l n)) = length (counters h).
Proof. apply length_alter. Qed.

Lemma slot_ok_fetch h l n s : slot_ok h s -> slot_ok (fetch_add_counter h l n) s.
Proof. unfold slot_ok. by rewrite fetch_add_length. Qed.

Lemma wrap32_succ n : wrap32 (wrap32 n + 1) = wrap32 (n + 1).
Proof. apply (eqm_wrap 32). unfold wrap32. by rewrite wrap_eqm. Qed.
Lemma wrap32_pred n : wrap32 (wrap32 (n + 1) + -1) = wrap32 n.
Proof.
  apply (eqm_wrap 32). unfold wrap32. rewrite wrap_eqm. by replace (n + 1 + -1) with n by lia.
Qed.

(** A step on one counter keeps every count in step with its guards. *)
Lemma fetch_add_counts h l n (f g : nat -> Z) :
  (forall k v, counters h !! k = Some v -> v = wrap32 (f k)) ->
  (forall k, k <> l -> f k = g k) ->
  wrap32 (wrap32 (f l) + n) = wrap32 (g l) ->
  forall k v, counters (fetch_add_counter h l n) !! k = Some v -> v = wrap32 (g k).
Proof.
  intros Hf Hne Hl k v. simpl. rewrite list_lookup_alter. case_decide as E.
  - subst k. rewrite fmap_Some. intros (v'&Hv&->). by rewrite (Hf _ _ Hv).
  - intros Hv. rewrite <- Hne by done. by apply Hf.
Qed.

Lemma inv_step w w' : World_inv w -> step w w' -> World_inv w'.
Proof.
  intros Hinv Hstep.
  destruct Hstep as [w0 s i l h' Hlive Ha|w0 g1 l g2 Hgs|w0 s c h' Hlive Hn|w0 specs prev st h' Hp Hr];
    destruct Hinv as [Hs Hc Hg]; simpl in *.
  - unfold acquire in Ha. destruct (slot_inflight s !! i) as [l0|] eqn:El; simplify_eq/=.
    pose proof (proj1 (Hs _ Hlive)) as Hlt. rewrite Forall_lookup in Hlt. specialize (Hlt _ _ El).
    split; simpl; [by intros; apply slot_ok_fetch, Hs| |].
    + eapply fetch_add_counts; [exact Hc|intros k Hk; unfold held; simpl|unfold held; simpl].
      * by destruct (Nat.eq_dec l k).
      * destruct (Nat.eq_dec l l); [|done]. rewrite wrap32_succ. f_equal. lia.
    + change (alter _ _ _) with (counters (fetch_add_counter (heap w0) l 1)).
      rewrite fetch_add_length. by constructor.
  - split; simpl; [by intros; apply slot_ok_fetch, Hs| |].
    + eapply fetch_add_counts; [exact Hc|intros k Hk; unfold held; simpl|unfold held; simpl];
        rewrite Hgs, !List.count_occ_app; simpl.
      * by destruct (Nat.eq_dec l k).
      * destruct (Nat.eq_dec l l); [|done].
        match goal with |- _ = wrap32 ?x => rewrite <- (wrap32_pred x) end. do 3 f_equal. lia.
    + change (alter _ _ _) with (counters (fetch_add_counter (heap w0) l (-1))).
      rewrite fetch_add_length. rewrite Hgs in Hg. apply Forall_app in Hg as [? Hg].
      apply Forall_cons in Hg as [_ ?]. by apply Forall_app.
  - unfold next_cursor in Hn. simplify_eq. split; simpl; [|done|done].
    intros s' Hl. destruct (Hs _ Hl) as (H1&H2&H3). split; [done|].
    simpl. by rewrite length_alter.
  - apply rebuild_loop_ok in Hr as [Hx Hst]; cycle 1.
    { intros p Hpr s Hl%live_slot_singleton. apply Hs. exists p. auto. }
    { intros s Hl%live_slot_singleton. simpl in Hl. destruct Hl as [Hin|[? Hn]]; [set_solver|].
      by rewrite lookup_empty in Hn. }
    split; simpl.
    + intros s (st'&Hin&Hl). apply elem_of_app in Hin as [Hin|Hin%list_elem_of_singleton].
      * eapply slot_ok_extends, Hs; [done|]. by exists st'.
      * subst. apply Hst, live_slot_singleton, Hl.
    + destruct Hx as [[k ->] _]. intros l v [Hv|[? Hv]]%lookup_app_Some; [by apply Hc|].
      apply lookup_replicate in Hv as [-> _]. unfold held. simpl.
      rewrite (proj1 (List.count_occ_not_In Nat.eq_dec _ _)); [done|].
      intros Hin%list_elem_of_In. rewrite Forall_forall in Hg. specialize (Hg _ Hin). simpl in Hg. lia.
    + destruct Hx as [[k ->] _]. eapply Forall_impl; [exact Hg|]. simpl. intros. rewrite length_app. lia.
Qed.

Lemma inv_reachable w : rtc step world_init w -> World_inv w.
Proof.
  intros H. assert (Hi := inv_init). revert Hi. induction H as [|x y z Hs _ IH]; [done|].
  intros Hi. apply IH. by eapply inv_step.
Qed.

(** ** What a rebuild carries forward *)

Lemma rebuild_loop_prefix specs previous acc h st h' :
  rebuild_loop specs previous acc h = (st, h') -> slots acc `prefix_of` slots st.
Proof.
  revert acc h. induction specs as [|[n a] specs IH]; intros acc h; simpl.
  { by intros [= <- <-]. }
  destruct (rebuild_slot _ a h) as [s h1]. intros H%IH. simpl in H.
  etransitivity; [|done]. by apply prefix_app_r.
Qed.

(** Entry [i] of the slab is the slot rebuilt from the [i]-th spec. *)
Lemma rebuild_loop_lookup specs previous acc h st h' i name addrs :
  (forall p, previous = Some p -> stats_ok h p) -> stats_ok h acc ->
  rebuild_loop specs previous acc h = (st, h') -> specs !! i = Some (name, addrs) ->
  exists hi hi' s, slots st !! (length (slots acc) + i)%nat = Some s /\
    extends h hi /\ extends hi' h' /\
    rebuild_slot (p ← previous; by_name p !! name) addrs hi = (s, hi').
Proof.
  revert acc h i. induction specs as [|[n a] specs IH]; intros acc h i Hp Hacc; [done|]. simpl.
  destruct (rebuild_slot _ a h) as [s h1] eqn:E. intros Hl Hi.
  pose proof (rebuild_loop_ok [(n, a)] previous acc h
    (MkBackendStats (slots acc ++ [s]) (<[n:=s]> (by_name acc))) h1 Hp Hacc) as Hone.
  simpl in Hone. rewrite E in Hone. destruct (Hone eq_refl) as [Hx Hok].
  assert (Hp1 : forall p, previous = Some p -> stats_ok h1 p).
  { intros p ? s' ?. eapply slot_ok_extends; [done|]. by eapply Hp. }
  destruct i as [|i]; simplify_eq/=.
  - pose proof (rebuild_loop_ok _ _ _ _ _ _ Hp1 Hok Hl) as [Hx2 _].
    apply rebuild_loop_prefix in Hl. exists h, h1, s. split; [|done].
    eapply prefix_lookup_Some; [|exact Hl]. simpl.
    by rewrite Nat.add_0_r, lookup_app_r, Nat.sub_diag by lia.
  - destruct (IH _ _ i Hp1 Hok Hl Hi) as (hi&hi'&s2&Hs&Hxi&Hxi'&Hb).
    exists hi, hi', s2. split; [|split; [by etransitivity|done]].
    rewrite <- Hs. simpl. rewrite length_app. simpl. f_equal. lia.
Qed.

Lemma rebuild_inflight_carried old addrs h ls h' j a l :
  rebuild_inflight old addrs h = (ls, h') -> addrs !! j = Some a ->
  carried old a = Some l -> ls !! j = Some l.
Proof.
  revert h ls h' j. induction addrs as [|b addrs IH]; intros h ls h' j; [done|]. simpl.
  destruct (match carried old b with Some l => (l, h) | None => alloc_counter h 0 end)
    as [l1 h1] eqn:E.
  destruct (rebuild_inflight old addrs h1) as [ls2 h2] eqn:E2. intros [= <- <-] Hj Hc.
  destruct j as [|j]; simplify_eq/=; [|by eapply IH]. rewrite Hc in E. by simplify_eq.
Qed.

Lemma carried_nodup prev k a l :
  NoDup (slot_addrs prev) -> slot_addrs prev !! k = Some a ->
  slot_inflight prev !! k = Some l -> carried (Some prev) a = Some l.
Proof.
  intros Hnd Hk Hl. unfold carried. simpl.
  rewrite (proj2 (position_Some (fun x => bool_decide (x = a)) (slot_addrs prev) k)); [done|].
  exists a. split; [done|]. rewrite bool_decide_eq_true. split; [done|].
  apply Forall_lookup. intros i x Hi. apply bool_decide_eq_false. intros ->.
  assert (i < k)%nat by (apply lookup_lt_Some in Hi; rewrite length_take in Hi; lia).
  rewrite lookup_take_lt in Hi by lia.
  pose proof (NoDup_lookup _ _ _ _ Hnd Hi Hk). lia.
Qed.

(** ** Totals *)

Inductive RouteOp :=
| Response (status : u16)
| Latency (micros : Z).
Definition apply_op (op : RouteOp) : RouteCounters -> RouteCounters :=
  match op with
  | Response status => record_response status
  | Latency micros => record_upstream_latency micros
  end.

Inductive Field := Frequests | F5xx | Fmicros | Fcount.
Definition get_field (f : Field) (c : RouteCounters) : Z :=
  match f with
  | Frequests => requests c
  | F5xx => errors_5xx c
  | Fmicros => upstream_latency_micros c
  | Fcount => upstream_latency_count c
  end.
(** What one observation adds to each field. *)
Definition field_delta (f : Field) (op : RouteOp) : Z :=
  match f, op with
  | Frequests, Response _ => 1
  | F5xx, Response status => if (500 <=? status) && (status <? 600) then 1 else 0
  | Fmicros, Latency us => Z.min us u64_max
  | Fcount, Latency _ => 1
  | _, _ => 0
  end.

(** Observations arriving in any order, each through some runtime's shard. *)
Definition run_ops (ops : list (nat * RouteOp)) (s : RouteSlot) : RouteSlot :=
  foldl (fun s '(shard, op) => on_shard (apply_op op) shard s) s ops.

Definition field_sum (f : Field) (l : list RouteCounters) : Z := foldr (fun c acc => get_field f c + acc) 0 l.
Definition delta_sum (f : Field) (ops : list (nat * RouteOp)) : Z :=
  foldr (fun '(_, op) acc => field_delta f op + acc) 0 ops.

Lemma apply_op_field f op c : eqm 64 (get_field f (apply_op op c)) (get_field f c + field_delta f op).
Proof.
  destruct f, op; simpl; rewrite ?Z.add_0_r; try done; try apply wrap_eqm.
  case_match; [apply wrap_eqm|by rewrite Z.add_0_r].
Qed.

Lemma totals_add_field f a b : get_field f (totals_add a b) = wrap64 (get_field f a + get_field f b).
Proof. by destruct f. Qed.

Lemma sum_shards_field f l acc :
  wrap64 (get_field f (foldl totals_add acc l)) = wrap64 (get_field f acc + field_sum f l).
Proof.
  revert acc. induction l as [|c l IH]; intros acc; simpl; [by rewrite Z.add_0_r|].
  rewrite IH, totals_add_field. apply (eqm_wrap 64). unfold wrap64.
  rewrite wrap_eqm. by rewrite Z.add_assoc.
Qed.

Lemma field_sum_alter f g i l d :
  (i < length l)%nat -> (forall c, eqm 64 (get_field f (g c)) (get_field f c + d)) ->
  eqm 64 (field_sum f (alter g i l)) (field_sum f l + d).
Proof.
  intros Hi Hg. revert i Hi. induction l as [|c l IH]; intros [|i] Hi; simpl in Hi; try lia.
  - change (eqm 64 (get_field f (g c) + field_sum f l) (get_field f c + field_sum f l + d)).
    rewrite Hg. by replace (get_field f c + d + field_sum f l)
      with (get_field f c + field_sum f l + d) by lia.
  - change (eqm 64 (get_field f c + field_sum f (alter g i l)) (get_field f c + field_sum f l + d)).
    rewrite IH by lia. by rewrite Z.add_assoc.
Qed.

Lemma run_ops_sum f ops s :
  length (shards s) = ROUTE_STAT_SHARDS ->
  eqm 64 (field_sum f (shards (run_ops ops s))) (field_sum f (shards s) + delta_sum f ops).
Proof.
  revert s. induction ops as [|[sh op] ops IH]; intros s Hlen; simpl; [by rewrite Z.add_0_r|].
  rewrite IH by (simpl; by rewrite length_alter). simpl.
  rewrite (field_sum_alter f _ _ _ (field_delta f op)).
  - by rewrite <- Z.add_assoc.
  - rewrite Hlen. unfold shard_index. apply Nat.mod_upper_bound. done.
  - intros. apply apply_op_field.
Qed.

(** ** Rebuilding the route counters *)

Definition previous_route (previous : option RouteStats) (id : RouteIdentity) : option nat :=
  p ← previous; by_identity p !! id.

(** Every identity has its own counters, inside the store. *)
Definition route_stats_ok (store : RouteStore) (st : RouteStats) : Prop :=
  (forall id l, by_identity st !! id = Some l -> (l < length store)%nat) /\
  (forall id1 id2 l, by_identity st !! id1 = Some l -> by_identity st !! id2 = Some l -> id1 = id2).

Lemma previous_route_ok store previous :
  (forall p, previous = Some p -> route_stats_ok store p) ->
  (forall id l, previous_route previous id = Some l -> (l < length store)%nat) /\
  (forall id1 id2 l, previous_route previous id1 = Some l ->
     previous_route previous id2 = Some l -> id1 = id2).
Proof.
  destruct previous as [p|]; [|done]. intros Hp. destruct (Hp p eq_refl) as [H1 H2]. done.
Qed.

Lemma rebuild_routes_loop_frame ids previous acc store st store' :
  rebuild_routes_loop ids previous acc store = (st, store') ->
  forall id, id ∉ ids -> by_identity st !! id = by_identity acc !! id.
Proof.
  revert acc store. induction ids as [|id0 ids IH]; intros acc store; simpl; [by intros [= <- <-]|].
  destruct (match _ with Some l => _ | None => _ end) as [slot store1].
  intros Hr id Hid. rewrite (IH _ _ Hr) by set_solver. simpl. rewrite lookup_insert_ne; set_solver.
Qed.

Lemma rebuild_routes_loop_spec ids previous acc store st store' :
  (forall id l, previous_route previous id = Some l -> (l < length store)%nat) ->
  (forall id1 id2 l, previous_route previous id1 = Some l ->
     previous_route previous id2 = Some l -> id1 = id2) ->
  NoDup ids ->
  rebuild_routes_loop ids previous acc store = (st, store') ->
  (exists k, store' = store ++ replicate k RouteSlot_default) /\
  exists ls, route_slots st = route_slots acc ++ ls /\ length ls = length ids /\ NoDup ls /\
    forall n id l, ids !! n = Some id -> ls !! n = Some l ->
      by_identity st !! id = Some l /\
      (previous_route previous id = Some l \/
       previous_route previous id = None /\ (length store <= l < length store')%nat).
Proof.
  intros Hb Hinj. revert acc store Hb.
  induction ids as [|id0 ids IH]; intros acc store Hb Hnd; simpl.
  { intros [= <- <-]. split; [exists 0%nat; by rewrite app_nil_r|]. exists [].
    rewrite app_nil_r. split_and!; try done. constructor. }
  apply NoDup_cons in Hnd as [Hn Hnd]. fold (previous_route previous id0).
  destruct (match previous_route previous id0 with Some l => (l, store) | None => _ end)
    as [slot store1] eqn:Hs.
  assert (Hgrow : exists k, store1 = store ++ replicate k RouteSlot_default).
  { destruct (previous_route previous id0); simplify_eq; [exists 0%nat; by rewrite app_nil_r|by exists 1%nat]. }
  assert (Hslot : previous_route previous id0 = Some slot /\ store1 = store \/
                  previous_route previous id0 = None /\ slot = length store /\ length store1 = S (length store)).
  { destruct (previous_route previous id0); simplify_eq; [by left|right].
    rewrite length_app. simpl. split_and!; try done. lia. }
  destruct Hgrow as [k1 Hk1]. assert (Hlen1 : (length store <= length store1)%nat) by (subst store1; rewrite length_app; lia).
  intros Hr. destruct (IH _ store1 ltac:(intros id l Hl%Hb; lia) Hnd Hr) as ([k2 Hk2] & ls & Hls & Hlen & Hndl & Hspec).
  assert (Hlen2 : (length store1 <= length store')%nat) by (subst store'; rewrite length_app; lia).
  split; [exists (k1 + k2)%nat; by rewrite Hk2, Hk1, replicate_add, app_assoc|].
  exists (slot :: ls). split_and!.
  - rewrite Hls. simpl. by rewrite <- app_assoc.
  - simpl. lia.
  - constructor; [|done]. intros (m&Hm)%list_elem_of_lookup.
    destruct (lookup_lt_is_Some_2 ids m) as [idm Hidm].
    { rewrite <- Hlen. by eapply lookup_lt_Some. }
    destruct (Hspec _ _ _ Hidm Hm) as [_ [Hp|[Hp ?]]].
    + destruct Hslot as [[Hp0 _]|(_&->&_)].
      * apply Hn. rewrite (Hinj _ _ _ Hp0 Hp). by eapply list_elem_of_lookup_2.
      * apply Hb in Hp. lia.
    + destruct Hslot as [[Hp0%Hb ->]|(_&->&?)]; lia.
  - intros [|n] id l Hid Hl; simplify_eq/=.
    + split.
      * rewrite (rebuild_routes_loop_frame _ _ _ _ _ _ Hr) by done. simpl. by rewrite lookup_insert_eq.
      * destruct Hslot as [[? _]|(?&->&?)]; [by left|right]. split; [done|lia].
    + destruct (Hspec _ _ _ Hid Hl) as [? [?|[? ?]]]; split; auto. right. split; [done|lia].
Qed.

Lemma rebuild_routes_spec ids previous store st store' :
  (forall p, previous = Some p -> route_stats_ok store p) -> NoDup ids ->
  rebuild_routes ids previous store = (st, store') ->
  (exists k, store' = store ++ replicate k RouteSlot_default) /\
  length (route_slots st) = length ids /\ NoDup (route_slots st) /\ route_stats_ok store' st /\
  forall n id, ids !! n = Some id -> exists l,
    route_slots st !! n = Some l /\ by_identity st !! id = Some l /\
    (previous_route previous id = Some l \/
     previous_route previous id = None /\ store' !! l = Some RouteSlot_default /\ (length store <= l)%nat).
Proof.
  intros Hp Hnd Hr. destruct (previous_route_ok _ _ Hp) as [Hb Hinj].
  pose proof (rebuild_routes_loop_frame _ _ _ _ _ _ Hr) as Hframe.
  destruct (rebuild_routes_loop_spec _ _ _ _ _ _ Hb Hinj Hnd Hr) as ([k Hk]&ls&Hls&Hlen&Hndl&Hspec).
  simpl in Hls. rewrite Hls.
  assert (Hat : forall n id, ids !! n = Some id -> exists l, ls !! n = Some l).
  { intros n id Hid. apply lookup_lt_is_Some_2. rewrite Hlen. by eapply lookup_lt_Some. }
  assert (Hin : forall id l, by_identity st !! id = Some l -> exists n, ids !! n = Some id /\ ls !! n = Some l).
  { intros id l Hl. destruct (decide (id ∈ ids)) as [Hi|Hi].
    - apply list_elem_of_lookup in Hi as [n Hn]. exists n. split; [done|].
      destruct (Hat _ _ Hn) as [l' Hl']. destruct (Hspec _ _ _ Hn Hl'). congruence.
    - rewrite (Hframe _ Hi) in Hl. simpl in Hl. by rewrite lookup_empty in Hl. }
  split_and!; [by exists k|done|done| |].
  - split.
    + intros id l (n&Hn&Hl)%Hin. destruct (Hspec _ _ _ Hn Hl) as [_ [Hpl%Hb|[_ ?]]]; [|lia].
      subst store'. rewrite length_app. lia.
    + intros id1 id2 l (n1&Hn1&Hl1)%Hin (n2&Hn2&Hl2)%Hin.
      assert (n1 = n2) as <- by (eapply NoDup_lookup; eauto). congruence.
  - intros n id Hn. destruct (Hat _ _ Hn) as [l Hl]. exists l.
    destruct (Hspec _ _ _ Hn Hl) as [? [?|(?&?)]]; split_and!; try done; [by left|right].
    split_and!; [done| |lia]. subst store'. rewrite length_app, length_replicate in *.
    rewrite lookup_app_r, lookup_replicate by lia. split; [done|lia].
Qed.

(** ** Properties *)

(** In-flight accounting never drifts.  In every state reachable by any
    interleaving of acquires, guard drops, cursor picks and rebuilds - guards
    may be dropped generations after they were taken - the in-flight count of
    every endpoint of every live slot is the number of guards currently held on
    its counter, modulo the counter's 32 bits. *)
Theorem inflight_balanced w s i l :
  rtc step world_init w -> live_slot (generations w) s -> slot_inflight s !! i = Some l ->
  inflight_count s (heap w) i = wrap32 (Z.of_nat (held w l)).
Proof.
  intros [Hs Hc _]%inv_reachable Hl Hi. unfold inflight_count. rewrite Hi.
  pose proof (proj1 (Hs _ Hl)) as Hlt. rewrite Forall_lookup in Hlt. specialize (Hlt _ _ Hi).
  destruct (lookup_lt_is_Some_2 _ _ Hlt) as [v Hv]. unfold load_counter. rewrite Hv. by apply Hc.
Qed.

(** A rebuild keeps the counters of what survived.  For a backend whose
    endpoint list moved, every address present before and after is counted by
    literally the same counter, so requests in flight across the swap stay
    counted; and no rebuild changes the value of any existing counter. *)
Theorem rebuild_carries_counters specs prev h st h' i name addrs old j k a :
  stats_ok h prev -> rebuild specs (Some prev) h = (st, h') ->
  specs !! i = Some (name, addrs) -> by_name prev !! name = Some old ->
  NoDup (slot_addrs old) -> addrs !! j = Some a -> slot_addrs old !! k = Some a ->
  exists s l, stats_slot st (Z.of_nat i) = Some s /\ slot_inflight s !! j = Some l /\
    slot_inflight old !! k = Some l /\ inflight_count s h' j = inflight_count old h k.
Proof.
  intros Hp Hr Hi Hn Hnd Hj Hk. unfold rebuild in Hr.
  assert (Hacc : stats_ok h (MkBackendStats [] ∅)).
  { intros s [Hin|[? Hx]]%live_slot_singleton; simpl in *; [set_solver|].
    by rewrite lookup_empty in Hx. }
  assert (Hps : forall p, Some prev = Some p -> stats_ok h p) by (by intros p [= <-]).
  destruct (rebuild_loop_lookup _ _ _ _ _ _ i name addrs Hps Hacc Hr Hi)
    as (hi&hi'&s&Hs&Hxi&Hxi'&Hb).
  simpl in Hs, Hb. rewrite Hn in Hb.
  assert (Hok : slot_ok h old) by (apply Hp, live_slot_singleton; eauto).
  destruct (lookup_lt_is_Some_2 (slot_inflight old) k) as [l Hl].
  { rewrite (proj2 (proj2 Hok)). by eapply lookup_lt_Some. }
  assert (Hsj : slot_inflight s !! j = Some l).
  { simpl in Hb. case_bool_decide as Ha.
    - simplify_eq. by rewrite <- (NoDup_lookup _ _ _ _ Hnd Hk Hj) in *.
    - destruct (rebuild_inflight _ _ _) as [ls h1] eqn:E. unfold alloc_cursor in Hb. simplify_eq/=.
      eapply rebuild_inflight_carried; [done..|]. by eapply carried_nodup. }
  exists s, l. unfold stats_slot. rewrite Nat2Z.id. split; [done|]. split; [done|]. split; [done|].
  unfold inflight_count. rewrite Hsj, Hl. unfold load_counter.
  destruct (rebuild_loop_ok _ _ _ _ _ _ Hps Hacc Hr) as [[[n ->] _] _].
  rewrite lookup_app_l; [done|]. pose proof (proj1 Hok) as Hlt. rewrite Forall_lookup in Hlt.
  by apply (Hlt k).
Qed.

(** A route's totals are exact.  However observations are spread over the
    serving runtimes' shards, the merged totals are the number of responses,
    the number of 5xx responses, the summed latency (each observation saturated
    to 64 bits) and the number of latency observations, modulo 2^64. *)
Theorem route_totals_exact ops f :
  wrap64 (get_field f (totals (run_ops ops RouteSlot_default))) = wrap64 (delta_sum f ops).
Proof.
  unfold totals, sum_shards. rewrite sum_shards_field. apply (eqm_wrap 64).
  rewrite run_ops_sum by done. by destruct f.
Qed.

(** ** Witnesses *)

Definition demo_addr (port : Z) : SocketAddr := SocketV4 [10; 0; 0; 1] port.
Definition demo_specs1 := [(bstr "api", [demo_addr 8080; demo_addr 8081])].
Definition demo_specs2 := [(bstr "api", [demo_addr 8082; demo_addr 8080])].
Definition demo_first := rebuild demo_specs1 None heap_empty.

Definition demo_slot1 : BackendSlot := MkBackendSlot 0 [0; 1]%nat [demo_addr 8080; demo_addr 8081].
Definition demo_slot2 : BackendSlot := MkBackendSlot 1 [2; 0]%nat [demo_addr 8082; demo_addr 8080].
Definition demo_busy : Heap := MkHeap [0] [1; 0].
Definition demo_second := rebuild demo_specs2 (Some demo_first.1) demo_busy.

(** One generation, one request in flight on the first endpoint, then a
    rebuild that moves that endpoint to the second place. *)
Definition demo_world1 : World := MkWorld demo_first.2 [demo_first.1] [].
Definition demo_world2 : World := MkWorld demo_busy [demo_first.1] [0%nat].
Definition demo_world : World := MkWorld demo_second.2 [demo_first.1; demo_second.1] [0%nat].

Lemma demo_reachable : rtc step world_init demo_world.
Proof.
  apply (rtc_l _ _ demo_world1).
  { apply (step_rebuild world_init demo_specs1 None demo_first.1 demo_first.2); done. }
  apply (rtc_l _ _ demo_world2).
  { apply (step_acquire demo_world1 demo_slot1 0%nat 0%nat demo_busy); [|done].
    exists demo_first.1. split; [set_solver|]. left. vm_compute. left. }
  apply rtc_once.
  apply (step_rebuild demo_world2 demo_specs2 (Some demo_first.1) demo_second.1 demo_second.2); [|done].
  intros p [= <-]. simpl. left.
Qed.

Lemma inflight_balanced_witness : inflight_count demo_slot2 (heap demo_world) 1 = 1.
Proof.
  apply (inflight_balanced demo_world demo_slot2 1 0 demo_reachable); [|reflexivity].
  exists demo_second.1. split; [right; left|left; vm_compute; left].
Defined.

Lemma rebuild_carries_counters_witness :
  exists s l, stats_slot demo_second.1 0 = Some s /\
    slot_inflight s !! 1%nat = Some l /\ slot_inflight demo_slot1 !! 0%nat = Some l /\
    inflight_count s demo_second.2 1 =
    inflight_count demo_slot1 demo_busy 0.
Proof.
  apply (rebuild_carries_counters demo_specs2 demo_first.1 demo_busy _ _ 0 (bstr "api")
           [demo_addr 8082; demo_addr 8080] demo_slot1 1 0 (demo_addr 8080)); try reflexivity.
  - intros s [Hin|[n Hn]]%live_slot_singleton.
    + assert (s = demo_slot1) as -> by (by apply list_elem_of_singleton in Hin).
      repeat constructor.
    + assert (s = demo_slot1) as ->; [|repeat constructor].
      change (by_name demo_first.1) with (<[bstr "api" := demo_slot1]> (∅ : gmap str BackendSlot)) in Hn.
      apply lookup_insert_Some in Hn as [[_ Hn]|[_ Hn]]; [done|by rewrite lookup_empty in Hn].
  - repeat constructor; set_solver.
Defined.
