(* ===== verification/Backends.v ===== *)
(** Endpoint selection: [crates/ramjet-router/src/backend.rs].

    [build_ring] precomputes the interleaved weighted rotation; its [while]
    loop is [ring_loop], whose fuel (the number of slots) is shown to be enough.
    [select_endpoint] is the whole handler over the shared [Heap] of Stats.v. *)

From S2P Require Import Prelude RouterTypes Stats.

Definition MAX_RING : u32 := 4096.

(** The [scale] closure. *)
Definition scale (total : u64) (w : u32) : u32 :=
  if w =? 0 then 0
  else if total <=? MAX_RING then w
  else wrap32 (Z.max (w * MAX_RING / total) 1).

Definition sum_z (l : list Z) : Z := foldr Z.add 0 l.

(** One pass of the [for] loop: the indices pushed, and what is left. *)
Fixpoint ring_round (i : nat) (remaining : list u32) : list u32 * list u32 :=
  match remaining with
  | [] => ([], [])
  | slots_left :: rest =>
      let '(emitted, rest') := ring_round (S i) rest in
      if 0 <? slots_left then (wrap32 (Z.of_nat i) :: emitted, (slots_left - 1) :: rest')
      else (emitted, slots_left :: rest')
  end.

Fixpoint ring_loop (fuel : nat) (slots : usize) (ring remaining : list u32) : list u32 :=
  match fuel with
  | 0%nat => ring
  | S fuel' =>
      if (length ring <? slots)%nat then
        let '(emitted, remaining') := ring_round 0 remaining in
        if bool_decide (emitted = []) then ring
        else ring_loop fuel' slots (ring ++ emitted) remaining'
      else ring
  end.

Definition build_ring (endpoints : list Endpoint) : option (list u32) :=
  match endpoints with
  | [] => None
  | e0 :: _ =>
      let first := weight e0 in
      if forallb (fun e => weight e =? first) endpoints then None
      else
        let total := sum_z (map weight endpoints) in
        if total =? 0 then None
        else
          let remaining := map (fun e => scale total (weight e)) endpoints in
          let slots := Z.to_nat (sum_z remaining) in
          if (slots =? 0)%nat then None
          else Some (ring_loop slots slots [] remaining)
  end.

Record Backend := MkBackend {
  backend_name : str;
  endpoints : list Endpoint;
  policy : LbPolicy;
  protocol : BackendProtocol;
  stats_index : u32;
  ring : option (list u32);
}.

Definition Backend_new (name : str) (eps : list Endpoint) (pol : LbPolicy)
    (proto : BackendProtocol) (index : u32) : Backend :=
  MkBackend name eps pol proto index (build_ring eps).

(** The [for] loop of the [LeastConn] arm; products are in [u64]. *)
Fixpoint least_conn_loop (s : BackendSlot) (h : Heap) (i : nat) (eps : list Endpoint)
    (best : nat) (best_n best_w : u64) : nat :=
  match eps with
  | [] => best
  | ep :: rest =>
      let n := inflight_count s h i in
      let w := Z.max (weight ep) 1 in
      if wrap64 (n * best_w) <? wrap64 (best_n * w)
      then least_conn_loop s h (S i) rest i n w
      else least_conn_loop s h (S i) rest best best_n best_w
  end.

Definition select_endpoint (b : Backend) (stats : BackendStats) (rng : u64) (h : Heap)
    : option (nat * Endpoint) * Heap :=
  let len := length (endpoints b) in
  if (len =? 0)%nat then (None, h)
  else
    let '(index, h') :=
      match policy b with
      | RoundRobin =>
          match stats_slot stats (stats_index b) with
          | None => (None, h)
          | Some slot =>
              let '(c, h1) := next_cursor slot h in
              let cursor := Z.to_nat c in
              match ring b with
              | Some r => (Z.to_nat <$> r !! (cursor mod length r)%nat, h1)
              | None => (Some (cursor mod len)%nat, h1)
              end
          end
      | Random =>
          match ring b with
          | Some r => (Z.to_nat <$> r !! Z.to_nat (rng mod Z.of_nat (length r)), h)
          | None => (Some (Z.to_nat (rng mod Z.of_nat len)), h)
          end
      | LeastConn =>
          match stats_slot stats (stats_index b), endpoints b with
          | Some slot, e0 :: rest =>
              (Some (least_conn_loop slot h 1 rest 0 (inflight_count slot h 0)
                       (Z.max (weight e0) 1)), h)
          | _, _ => (None, h)
          end
      end in
    (i ← index; ep ← endpoints b !! i; Some (i, ep), h').

(** ** Specification vocabulary *)

(** The rotation a cursor walks: the ring, or every endpoint once. *)
Definition rotation (b : Backend) : list nat :=
  match ring b with
  | Some r => map Z.to_nat r
  | None => seq 0 (length (endpoints b))
  end.

(** The share of endpoint [i] in one rotation. *)
Definition share (eps : list Endpoint) (e : Endpoint) : Z :=
  match build_ring eps with
  | Some _ => scale (sum_z (map weight eps)) (weight e)
  | None => 1
  end.

(** [n] requests in a row. *)
Fixpoint picks (n : nat) (b : Backend) (stats : BackendStats) (h : Heap) : list (option nat) :=
  match n with
  | 0%nat => []
  | S n' => let '(r, h') := select_endpoint b stats 0 h in (fst <$> r) :: picks n' b stats h'
  end.

Definition weights_ok (eps : list Endpoint) : Prop :=
  Forall (fun e => 0 <= weight e < 2 ^ 32) eps /\ Z.of_nat (length eps) < 2 ^ 32.

(** ** The ring *)

Definition countz (l : list Z) (x : Z) : nat := List.count_occ Z.eq_dec l x.
#[local] Arguments countz : simpl never.

Lemma sum_z_nonneg l : Forall (fun x => 0 <= x) l -> 0 <= sum_z l.
Proof. induction 1; simpl; lia. Qed.

Lemma sum_z_zero l i x :
  Forall (fun x => 0 <= x) l -> sum_z l = 0 -> l !! i = Some x -> x = 0.
Proof.
  intros Hl. revert i. induction Hl as [|y l Hy Hl IH]; intros i; [done|]. simpl.
  pose proof (sum_z_nonneg _ Hl). intros Hz. destruct i as [|i]; simpl; [intros [= <-]; lia|].
  apply IH. lia.
Qed.

Lemma ring_round_spec i rem em rem' :
  Forall (fun x => 0 <= x) rem -> Z.of_nat (i + length rem) <= 2 ^ 32 ->
  ring_round i rem = (em, rem') ->
  Forall (fun x => 0 <= x) rem' /\ length rem' = length rem /\
  sum_z rem' + Z.of_nat (length em) = sum_z rem /\
  (em = [] -> sum_z rem = 0) /\
  Forall (fun x => Z.of_nat i <= x < Z.of_nat (i + length rem)) em /\
  (forall k x, rem !! k = Some x -> exists x', rem' !! k = Some x' /\
     x' + Z.of_nat (countz em (Z.of_nat (i + k))) = x).
Proof.
  revert i em rem'. induction rem as [|x rem IH]; intros i em rem' Hnn Hb; simpl.
  { intros [= <- <-]. split_and!; try done. }
  destruct (ring_round (S i) rem) as [em2 rem2] eqn:E. apply Forall_cons in Hnn as [Hx Hnn].
  simpl in Hb. apply IH in E as (H1&H2&H3&H4&H5&H6); [|done|lia].
  assert (Hw : wrap32 (Z.of_nat i) = Z.of_nat i) by (apply wrap_small; lia).
  assert (H0 : countz em2 (Z.of_nat i) = 0%nat).
  { unfold countz. apply List.count_occ_not_In. intros Hin%list_elem_of_In.
    rewrite Forall_forall in H5. specialize (H5 _ Hin). simpl in H5. lia. }
  assert (H5' : Forall (fun y => Z.of_nat i <= y < Z.of_nat (i + length (x :: rem))) em2).
  { eapply Forall_impl; [exact H5|]. simpl. intros. lia. }
  assert (Hk : forall em' k y, rem !! k = Some y ->
    countz em' (Z.of_nat (i + S k)) = countz em2 (Z.of_nat (i + S k)) ->
    exists x', rem2 !! k = Some x' /\ x' + Z.of_nat (countz em' (Z.of_nat (i + S k))) = y).
  { intros em' k y Hy ->. rewrite Nat.add_succ_r. by apply H6. }
  destruct (0 <? x) eqn:Ex; intros [= <- <-]; simpl; rewrite ?Hw.
  - split_and!; [constructor; [lia|done]|lia|lia|done|constructor; [lia|done]|].
    intros [|k] y Hy; simplify_eq/=.
    + eexists. split; [done|]. unfold countz in *. rewrite Nat.add_0_r. simpl.
      destruct (Z.eq_dec _ _); [lia|done].
    + apply Hk; [done|]. unfold countz. simpl. destruct (Z.eq_dec _ _); [lia|done].
  - split_and!; [by constructor|lia|lia|intros; rewrite H4 by done; lia|done|].
    intros [|k] y Hy; simplify_eq/=; [|by apply Hk].
    eexists. split; [done|]. rewrite Nat.add_0_r, H0. lia.
Qed.

Lemma ring_loop_spec fuel slots rg rem :
  Forall (fun x => 0 <= x) rem -> Z.of_nat (length rem) <= 2 ^ 32 ->
  Z.of_nat slots = Z.of_nat (length rg) + sum_z rem -> sum_z rem <= Z.of_nat fuel ->
  exists k, ring_loop fuel slots rg rem = rg ++ k /\
    Z.of_nat (length k) = sum_z rem /\
    Forall (fun x => 0 <= x < Z.of_nat (length rem)) k /\
    (forall i x, rem !! i = Some x -> Z.of_nat (countz k (Z.of_nat i)) = x).
Proof.
  revert rg rem. induction fuel as [|fuel IH]; intros rg rem Hnn Hlen Hs Hf; simpl.
  - pose proof (sum_z_nonneg _ Hnn). exists []. rewrite app_nil_r. split_and!; [done|simpl; lia|done|].
    intros i x Hx. change (countz [] (Z.of_nat i)) with 0%nat. rewrite (sum_z_zero _ _ x Hnn ltac:(lia) Hx). done.
  - destruct (length rg <? slots)%nat eqn:El; cycle 1.
    { pose proof (sum_z_nonneg _ Hnn). destruct (IH rg rem) as (k&Hk&?&?&?); try done; [lia|].
      assert (k = []) as -> by (destruct k; simpl in *; [done|lia]). exists [].
      rewrite app_nil_r. done. }
    destruct (ring_round 0 rem) as [em rem'] eqn:E.
    apply ring_round_spec in E as (H1&H2&H3&H4&H5&H6); [|done|simpl; lia].
    case_bool_decide as Hem; [apply H4 in Hem; lia|].
    assert (length em <> 0%nat) by (by destruct em).
    destruct (IH (rg ++ em) rem') as (k&->&Hk1&Hk2&Hk3);
      [done|lia|rewrite length_app; lia|lia|].
    exists (em ++ k). rewrite <- app_assoc, length_app. split_and!; [done|lia| |].
    + rewrite H2 in Hk2. apply Forall_app. split; [|done]. eapply Forall_impl; [exact H5|].
      simpl. intros. lia.
    + intros i x Hx. destruct (H6 _ _ Hx) as (x'&Hx'&<-). unfold countz in *.
      rewrite List.count_occ_app, Nat2Z.inj_add, (Hk3 _ _ Hx'). simpl. lia.
Qed.

Lemma scale_range total w : 0 <= w < 2 ^ 32 -> w <= total -> 0 <= scale total w.
Proof.
  intros. unfold scale. case_match; [lia|]. case_match; [lia|].
  unfold wrap32. by apply wrap_range.
Qed.

Lemma sum_z_elem l x : Forall (fun x => 0 <= x) l -> x ∈ l -> x <= sum_z l.
Proof.
  induction 1 as [|y l Hy Hl IH]; [set_solver|]. simpl. pose proof (sum_z_nonneg _ Hl).
  intros [->|?%IH]%elem_of_cons; lia.
Qed.

Lemma weight_le_total eps e :
  weights_ok eps -> e ∈ eps -> 0 <= weight e < 2 ^ 32 /\ weight e <= sum_z (map weight eps).
Proof.
  intros [Hw _] He. split; [rewrite Forall_forall in Hw; by apply Hw|].
  apply sum_z_elem; [|by apply list_elem_of_fmap_2].
  apply Forall_map. eapply Forall_impl; [exact Hw|]. simpl. intros. lia.
Qed.

(** Everything a built ring satisfies. *)
Lemma build_ring_spec eps r :
  weights_ok eps -> build_ring eps = Some r ->
  r <> [] /\ sum_z (map weight eps) <> 0 /\
  Z.of_nat (length r) = sum_z (map (fun e => scale (sum_z (map weight eps)) (weight e)) eps) /\
  Forall (fun x => 0 <= x < Z.of_nat (length eps)) r /\
  (forall i e, eps !! i = Some e ->
     Z.of_nat (countz r (Z.of_nat i)) = scale (sum_z (map weight eps)) (weight e)).
Proof.
  intros Hok Hb. unfold build_ring in Hb. destruct eps as [|e0 eps0] eqn:Eeps; [done|].
  rewrite <- Eeps in *.
  destruct (forallb _ _); [done|]. destruct (sum_z (map weight eps) =? 0) eqn:Et; [done|].
  destruct (Z.to_nat _ =? 0)%nat eqn:Es; [done|]. injection Hb as <-.
  set (total := sum_z (map weight eps)) in *.
  assert (Hnn : Forall (fun x => 0 <= x) (map (fun e => scale total (weight e)) eps)).
  { apply Forall_map, Forall_forall. intros e He.
    destruct (weight_le_total eps e Hok He). by apply scale_range. }
  pose proof (sum_z_nonneg _ Hnn) as Hs0.
  destruct (ring_loop_spec (Z.to_nat (sum_z (map (fun e => scale total (weight e)) eps)))
     (Z.to_nat (sum_z (map (fun e => scale total (weight e)) eps))) [] _ Hnn) as (k&->&H1&H2&H3).
  { rewrite length_map. destruct Hok. lia. }
  { simpl. lia. }
  { lia. }
  rewrite length_map in H2. simpl. split_and!; [intros ->; simpl in *; lia|lia|done|done|].
  intros i e He. apply H3. etransitivity; [apply list_lookup_fmap|]. by rewrite He.
Qed.

(** ** Selection *)

Definition backend_built (b : Backend) : Prop := ring b = build_ring (endpoints b).

Lemma rotation_valid b :
  weights_ok (endpoints b) -> backend_built b -> endpoints b <> [] ->
  rotation b <> [] /\ Forall (fun i => (i < length (endpoints b))%nat) (rotation b).
Proof.
  intros Hok Hb Hne. unfold rotation. rewrite Hb.
  destruct (build_ring (endpoints b)) as [r|] eqn:E.
  - apply build_ring_spec in E as (Hr&_&_&Hall&_); [|done]. split; [by destruct r|].
    apply Forall_map. eapply Forall_impl; [exact Hall|]. simpl. intros. lia.
  - split; [by destruct (endpoints b)|]. apply Forall_forall. intros i ?%elem_of_seq. lia.
Qed.

Lemma lookup_total_mod {A} (l : list A) n :
  l <> [] -> exists x, l !! (n mod length l)%nat = Some x /\ x ∈ l.
Proof.
  intros Hl. destruct (lookup_lt_is_Some_2 l (n mod length l)%nat) as [x Hx].
  { apply Nat.mod_upper_bound. by destruct l. }
  exists x. split; [done|]. by eapply list_elem_of_lookup_2.
Qed.

(** The common form of the round-robin and random arms. *)
Lemma select_at b i :
  endpoints b <> [] -> (i < length (endpoints b))%nat ->
  exists ep, endpoints b !! i = Some ep.
Proof. intros _ H. by apply lookup_lt_is_Some_2. Qed.

Definition walk (b : Backend) (cursor : nat) : option nat :=
  rotation b !! (cursor mod length (rotation b))%nat.

Lemma rr_index b c :
  endpoints b <> [] ->
  match ring b with
  | Some r => Z.to_nat <$> r !! (c mod length r)%nat
  | None => Some (c mod length (endpoints b))%nat
  end = walk b c.
Proof.
  intros Hne. unfold walk, rotation. destruct (ring b) as [r|].
  - rewrite length_map. symmetry. apply list_lookup_fmap.
  - rewrite length_seq, lookup_seq_lt; [done|].
    apply Nat.mod_upper_bound. by destruct (endpoints b).
Qed.

Lemma walk_valid b c :
  weights_ok (endpoints b) -> backend_built b -> endpoints b <> [] ->
  exists i ep, walk b c = Some i /\ endpoints b !! i = Some ep.
Proof.
  intros Hok Hb Hne. destruct (rotation_valid b Hok Hb Hne) as [Hr Hall].
  destruct (lookup_total_mod (rotation b) c Hr) as (i&Hi&Hin).
  rewrite Forall_forall in Hall. destruct (select_at b i Hne (Hall _ Hin)) as [ep Hep].
  by exists i, ep.
Qed.

Lemma select_round_robin b stats slot rng h :
  endpoints b <> [] -> policy b = RoundRobin -> stats_slot stats (stats_index b) = Some slot ->
  select_endpoint b stats rng h =
  (i ← walk b (Z.to_nat (load_cursor h (slot_cursor slot))); ep ← endpoints b !! i; Some (i, ep),
   fetch_add_cursor h (slot_cursor slot) 1).
Proof.
  intros Hne Hp Hs. unfold select_endpoint. rewrite Hp, Hs. simpl. rewrite <- rr_index by done.
  destruct (length (endpoints b) =? 0)%nat eqn:E; [destruct (endpoints b); done|].
  by destruct (ring b).
Qed.

Lemma select_random b stats rng h :
  endpoints b <> [] -> policy b = Random -> 0 <= rng ->
  select_endpoint b stats rng h =
  (i ← walk b (Z.to_nat rng); ep ← endpoints b !! i; Some (i, ep), h).
Proof.
  intros Hne Hp Hr. unfold select_endpoint. rewrite Hp, <- rr_index by done.
  destruct (length (endpoints b) =? 0)%nat eqn:E; [destruct (endpoints b); done|].
  destruct (ring b) as [r|].
  - destruct r as [|x r]; [done|]. rewrite Z2Nat.inj_mod, Nat2Z.id by lia. done.
  - rewrite Z2Nat.inj_mod, Nat2Z.id by lia. done.
Qed.

(** ** Least connections *)

(** [n_i/w_i <= n_j/w_j], compared without dividing. *)
Definition load_le (n1 w1 n2 w2 : Z) : Prop := n1 * w2 <= n2 * w1.

Definition u32_range (x : Z) : Prop := 0 <= x < 2 ^ 32.

Lemma product_fits x y : u32_range x -> u32_range y -> wrap64 (x * y) = x * y.
Proof. unfold u32_range. intros. apply wrap_small. nia. Qed.

Definition counts_ok (h : Heap) : Prop := Forall u32_range (counters h).

Lemma inflight_count_range s h i : counts_ok h -> u32_range (inflight_count s h i).
Proof.
  intros Hc. assert (Hz : u32_range 0) by (unfold u32_range; lia).
  unfold inflight_count, load_counter. destruct (slot_inflight s !! i) as [l|]; [|done].
  destruct (counters h !! l) as [v|] eqn:E; [|done]. unfold counts_ok in Hc.
  rewrite Forall_lookup in Hc. by eapply Hc.
Qed.

Lemma weight_max_range e : 0 <= weight e < 2 ^ 32 -> u32_range (Z.max (weight e) 1).
Proof. unfold u32_range. lia. Qed.

(** The loop keeps the first of the least loaded endpoints seen so far. *)
Lemma least_conn_loop_spec s h all pre eps best eb :
  counts_ok h -> Forall (fun e => 0 <= weight e < 2 ^ 32) all -> all = pre ++ eps ->
  all !! best = Some eb -> (best < length pre)%nat ->
  (forall j e, pre !! j = Some e ->
     load_le (inflight_count s h best) (Z.max (weight eb) 1) (inflight_count s h j) (Z.max (weight e) 1)) ->
  exists e', all !! least_conn_loop s h (length pre) eps best (inflight_count s h best) (Z.max (weight eb) 1) = Some e' /\
  forall j e, all !! j = Some e ->
    load_le (inflight_count s h (least_conn_loop s h (length pre) eps best (inflight_count s h best) (Z.max (weight eb) 1)))
      (Z.max (weight e') 1) (inflight_count s h j) (Z.max (weight e) 1).
Proof.
  intros Hc Hw. revert pre best eb. induction eps as [|ep eps IH]; intros pre best eb Hall Hb Hlt Hmin.
  { rewrite app_nil_r in Hall. subst. simpl. eauto. }
  assert (Hep : all !! length pre = Some ep) by (rewrite Hall; by rewrite list_lookup_middle).
  rewrite Forall_lookup in Hw. pose proof (weight_max_range _ (Hw _ _ Hb)) as Hwb.
  pose proof (weight_max_range _ (Hw _ _ Hep)) as Hwe.
  pose proof (inflight_count_range s h best Hc). pose proof (inflight_count_range s h (length pre) Hc).
  cbn [least_conn_loop]. rewrite !product_fits by done.
  assert (Hpre : forall bs ebs, all !! bs = Some ebs ->
    (forall j e, (pre ++ [ep]) !! j = Some e -> load_le (inflight_count s h bs) (Z.max (weight ebs) 1)
       (inflight_count s h j) (Z.max (weight e) 1)) -> (bs < length (pre ++ [ep]))%nat ->
    exists e', all !! least_conn_loop s h (S (length pre)) eps bs (inflight_count s h bs) (Z.max (weight ebs) 1) = Some e' /\
    forall j e, all !! j = Some e ->
      load_le (inflight_count s h (least_conn_loop s h (S (length pre)) eps bs (inflight_count s h bs) (Z.max (weight ebs) 1)))
        (Z.max (weight e') 1) (inflight_count s h j) (Z.max (weight e) 1)).
  { intros bs ebs Hbs Hm Hl. replace (S (length pre)) with (length (pre ++ [ep])) by (rewrite length_app; simpl; lia).
    apply IH; try done. by rewrite <- app_assoc. }
  unfold load_le, u32_range in *.
  destruct (_ <? _) eqn:E; (apply Hpre; [done| |rewrite length_app; simpl; lia]);
    intros j e [Hj|[? Hj]]%lookup_app_Some.
  - specialize (Hmin _ _ Hj). pose proof (weight_max_range e). pose proof (inflight_count_range s h j Hc).
    assert (0 <= weight e) by (eapply (Hw j); rewrite Hall; by apply lookup_app_l_Some). unfold u32_range in *. nia.
  - assert (j = length pre) as -> by (apply lookup_lt_Some in Hj; simpl in Hj; lia).
    rewrite Nat.sub_diag in Hj. simplify_eq/=. lia.
  - by apply Hmin.
  - assert (j = length pre) as -> by (apply lookup_lt_Some in Hj; simpl in Hj; lia).
    rewrite Nat.sub_diag in Hj. simplify_eq/=. lia.
Qed.

(** ** Walking the rotation *)

Lemma mod_shift_inj n c k j :
  (k < n)%nat -> (j < n)%nat -> ((c + k) mod n = (c + j) mod n)%nat -> k = j.
Proof.
  intros Hk Hj Hm.
  pose proof (Nat.div_mod_eq (c + k) n) as Hq. pose proof (Nat.div_mod_eq (c + j) n) as Hq'.
  rewrite Hm in Hq. generalize dependent ((c + k) / n)%nat. generalize dependent ((c + j) / n)%nat.
  intros q Hq p Hp. destruct (Nat.lt_trichotomy p q) as [|[->|]]; nia.
Qed.

Lemma mod_shift_perm n c : map (fun k => (c + k) mod n)%nat (seq 0 n) ≡ₚ seq 0 n.
Proof.
  apply submseteq_length_Permutation; [|by rewrite length_map].
  apply NoDup_submseteq.
  - apply NoDup_fmap_2_strong; [|apply NoDup_seq].
    intros x y Hx%elem_of_seq Hy%elem_of_seq. apply mod_shift_inj; lia.
  - intros x (k&->&Hk%elem_of_seq)%list_elem_of_fmap. apply elem_of_seq.
    split; [lia|]. apply Nat.mod_upper_bound. lia.
Qed.

Lemma lookups_seq {A} (l : list A) : map (fun i => l !! i) (seq 0 (length l)) = map Some l.
Proof.
  apply list_eq. intros i. change (map ?f ?x) with (f <$> x). rewrite !list_lookup_fmap.
  destruct (decide (i < length l)%nat).
  - rewrite lookup_seq_lt by done. simpl. by destruct (lookup_lt_is_Some_2 l i) as [x ->].
  - rewrite lookup_seq_ge, lookup_ge_None_2 by lia. done.
Qed.

Lemma walk_rotation b c :
  map (fun k => walk b (c + k)) (seq 0 (length (rotation b))) ≡ₚ map Some (rotation b).
Proof.
  rewrite <- lookups_seq. unfold walk.
  rewrite <- (List.map_map (fun k => (c + k) mod length (rotation b))%nat (fun i => rotation b !! i)).
  apply Permutation_map, mod_shift_perm.
Qed.

Lemma next_cursor_value h l n :
  (l < length (cursors h))%nat -> 0 <= load_cursor h l -> load_cursor h l + n < 2 ^ 32 -> 0 <= n ->
  load_cursor (fetch_add_cursor h l n) l = load_cursor h l + n.
Proof.
  intros Hl. destruct (lookup_lt_is_Some_2 _ _ Hl) as [v Hv]. unfold load_cursor. simpl.
  rewrite list_lookup_alter_eq, Hv. simpl. intros. apply wrap_small. lia.
Qed.

Lemma picks_round_robin n b stats slot h :
  weights_ok (endpoints b) -> backend_built b -> endpoints b <> [] -> policy b = RoundRobin ->
  stats_slot stats (stats_index b) = Some slot -> (slot_cursor slot < length (cursors h))%nat ->
  0 <= load_cursor h (slot_cursor slot) ->
  load_cursor h (slot_cursor slot) + Z.of_nat n <= 2 ^ 32 ->
  picks n b stats h = map (fun k => walk b (Z.to_nat (load_cursor h (slot_cursor slot)) + k)) (seq 0 n).
Proof.
  intros Hok Hb Hne Hp Hs Hl. revert h Hl. induction n as [|n IH]; intros h Hl H0 Hn; [done|].
  cbn [picks]. rewrite (select_round_robin _ _ slot) by done.
  destruct (walk_valid b (Z.to_nat (load_cursor h (slot_cursor slot))) Hok Hb Hne) as (i&ep&Hi&Hep).
  cbn [seq map]. rewrite Nat.add_0_r, Hi. simpl. rewrite Hep. simpl. f_equal.
  destruct n as [|n]; [done|].
  rewrite IH; rewrite ?next_cursor_value by lia; [|by simpl; rewrite length_alter|lia|lia].
  rewrite <- seq_shift, List.map_map. apply List.map_ext. intros k. f_equal. lia.
Qed.

Definition count_pick (l : list (option nat)) (i : nat) : nat :=
  length (List.filter (fun o => bool_decide (o = Some i)) l).

Lemma count_pick_perm l k i : l ≡ₚ k -> count_pick l i = count_pick k i.
Proof.
  unfold count_pick. induction 1 as [|x l k _ IH|x y l|l k m _ IH1 _ IH2]; simpl; try congruence.
  - by case_match; simpl; rewrite IH.
  - by repeat case_match.
Qed.

Lemma count_pick_ring r i :
  Forall (fun x => 0 <= x) r ->
  count_pick (map Some (map Z.to_nat r)) i = countz r (Z.of_nat i).
Proof.
  unfold count_pick, countz. induction 1 as [|x r Hx Hr IH]; [done|]. simpl.
  destruct (Z.eq_dec x (Z.of_nat i)) as [->|Hne].
  - rewrite Nat2Z.id, bool_decide_eq_true_2 by done. simpl. by rewrite IH.
  - rewrite bool_decide_eq_false_2; [done|]. intros [=]. lia.
Qed.

Lemma count_pick_seq n i : (i < n)%nat -> count_pick (map Some (seq 0 n)) i = 1%nat.
Proof.
  intros Hi.
  replace n with (i + (1 + (n - i - 1)))%nat by lia. rewrite !seq_app, !List.map_app.
  unfold count_pick. rewrite !List.filter_app, !length_app. simpl.
  rewrite bool_decide_eq_true_2 by done. simpl.
  assert (H0 : forall l, Forall (fun k => k <> i) l ->
    length (List.filter (fun o => bool_decide (o = Some i)) (map Some l)) = 0%nat).
  { induction 1; simpl; [done|]. rewrite bool_decide_eq_false_2; congruence. }
  rewrite !H0; [done|apply Forall_forall; intros k ?%elem_of_seq; lia..].
Qed.

Lemma rotation_share b i e :
  weights_ok (endpoints b) -> backend_built b -> endpoints b !! i = Some e ->
  Z.of_nat (count_pick (map Some (rotation b)) i) = share (endpoints b) e.
Proof.
  intros Hok Hb He. unfold rotation, share. rewrite Hb.
  destruct (build_ring (endpoints b)) as [r|] eqn:E.
  - apply build_ring_spec in E as (_&_&_&Hall&Hc); [|done].
    rewrite count_pick_ring; [by apply Hc|]. eapply Forall_impl; [exact Hall|]. simpl. lia.
  - rewrite count_pick_seq; [done|]. by eapply lookup_lt_Some.
Qed.

(** ** Size of a ring *)

Lemma scaled_sum_le ws total :
  0 < total -> Forall (fun w => 0 <= w < 2 ^ 32) ws -> sum_z ws <= total ->
  sum_z (map (scale total) ws) <=
    (if total <=? MAX_RING then sum_z ws
     else sum_z ws * MAX_RING / total + Z.of_nat (length (List.filter (fun w => 0 <? w) ws))).
Proof.
  intros Ht Hw. unfold MAX_RING. induction Hw as [|w ws Hw0 Hw IH]; intros Hs; simpl.
  { case_match; [lia|]. rewrite Z.div_0_l; lia. }
  assert (0 <= sum_z ws) by (apply sum_z_nonneg; eapply Forall_impl; [exact Hw|]; simpl; lia).
  simpl in Hs. specialize (IH ltac:(lia)). unfold scale at 1. unfold MAX_RING.
  destruct (total <=? 4096) eqn:E; [destruct (w =? 0) eqn:?; lia|].
  assert (Hsup : w * 4096 / total + sum_z ws * 4096 / total <= (w + sum_z ws) * 4096 / total).
  { apply Z.div_le_lower_bound; [lia|].
    pose proof (Z.mul_div_le (w * 4096) total). pose proof (Z.mul_div_le (sum_z ws * 4096) total). lia. }
  destruct (w =? 0) eqn:E0.
  - replace (0 <? w) with false by lia. assert (w = 0) as -> by lia.
    rewrite !Z.add_0_l. exact IH.
  - replace (0 <? w) with true by lia. simpl length.
    assert (Hq : 0 <= w * 4096 / total <= 4096).
    { split; [apply Z.div_pos; lia|]. apply Z.div_le_upper_bound; lia. }
    unfold wrap32. rewrite wrap_small by lia. lia.
Qed.

Lemma build_ring_is_Some eps e1 e2 :
  weights_ok eps -> e1 ∈ eps -> e2 ∈ eps -> weight e1 <> weight e2 -> is_Some (build_ring eps).
Proof.
  intros Hok H1 H2 Hne. unfold build_ring. destruct eps as [|e0 eps0] eqn:Eeps; [set_solver|].
  rewrite <- Eeps in *.
  destruct (forallb _ eps) eqn:Ef.
  { rewrite List.forallb_forall in Ef. exfalso.
    pose proof (Ef e1 (proj1 (list_elem_of_In _ _) H1)).
    pose proof (Ef e2 (proj1 (list_elem_of_In _ _) H2)). lia. }
  pose proof (weight_le_total _ _ Hok H1). pose proof (weight_le_total _ _ Hok H2).
  set (total := sum_z (map weight eps)) in *.
  assert (Hnn : Forall (fun x => 0 <= x) (map (fun e => scale total (weight e)) eps)).
  { apply Forall_map, Forall_forall. intros e He.
    destruct (weight_le_total eps e Hok He). by apply scale_range. }
  destruct (total =? 0) eqn:Et; [lia|].
  assert (Hpos : forall e, e ∈ eps -> 0 < weight e ->
    1 <= sum_z (map (fun e => scale total (weight e)) eps)).
  { intros e He Hw. etransitivity; [|apply sum_z_elem; [done|]].
    2: { apply (list_elem_of_fmap_2 (fun e => scale total (weight e)) _ _ He). }
    destruct (weight_le_total eps e Hok He) as [Hr Hle]. fold total in Hle. unfold scale, MAX_RING.
    destruct (weight e =? 0) eqn:?; [lia|]. destruct (total <=? 4096) eqn:?; [lia|].
    assert (0 <= weight e * 4096 / total <= 4096).
    { split; [apply Z.div_pos; lia|]. apply Z.div_le_upper_bound; lia. }
    unfold wrap32. rewrite wrap_small by lia. lia. }
  assert (1 <= sum_z (map (fun e => scale total (weight e)) eps)).
  { destruct (decide (0 < weight e1)); [by apply (Hpos e1)|]. apply (Hpos e2); [done|lia]. }
  destruct (Z.to_nat _ =? 0)%nat eqn:?; [lia|]. eauto.
Qed.

(** ** Properties *)

(** C20: Selection never black-holes.  A backend with at least one endpoint
    and a slot in the slab always yields an endpoint of its own list, under
    every policy, for every random word, every cursor value and every in-flight
    count - including when all weights are zero. *)
Theorem select_endpoint_total b stats slot rng h :
  weights_ok (endpoints b) -> backend_built b -> endpoints b <> [] -> counts_ok h -> 0 <= rng ->
  stats_slot stats (stats_index b) = Some slot ->
  exists i ep h', select_endpoint b stats rng h = (Some (i, ep), h') /\ endpoints b !! i = Some ep.
Proof.
  intros Hok Hb Hne Hc Hr Hs. destruct (policy b) eqn:Hp.
  - destruct (walk_valid b (Z.to_nat (load_cursor h (slot_cursor slot))) Hok Hb Hne) as (i&ep&Hi&Hep).
    exists i, ep, (fetch_add_cursor h (slot_cursor slot) 1). rewrite (select_round_robin _ _ slot) by done.
    rewrite Hi. simpl. by rewrite Hep.
  - destruct (walk_valid b (Z.to_nat rng) Hok Hb Hne) as (i&ep&Hi&Hep).
    exists i, ep, h. rewrite select_random by done. rewrite Hi. simpl. by rewrite Hep.
  - destruct (endpoints b) as [|e0 rest] eqn:E; [done|]. destruct Hok as [Hw _].
    destruct (least_conn_loop_spec slot h (e0 :: rest) [e0] rest 0 e0) as (ep&Hep&_);
      try done; [simpl; lia| |].
    { intros [|j] e Hj; simplify_eq/=. unfold load_le. lia. }
    simpl length in Hep. eexists _, ep, h. split; [|exact Hep].
    unfold select_endpoint. rewrite Hp, Hs, E. cbn -[least_conn_loop lookup]. by rewrite Hep.
Qed.

(** C38: Round-robin shares are exact.  From any cursor position that does
    not wrap within the window, the requests of one full rotation give every
    endpoint exactly its share: its (scaled) weight when the weights differ -
    so a drained endpoint gets none - and one each when they are equal. *)
Theorem round_robin_share b stats slot h i e :
  weights_ok (endpoints b) -> backend_built b -> policy b = RoundRobin ->
  stats_slot stats (stats_index b) = Some slot -> (slot_cursor slot < length (cursors h))%nat ->
  0 <= load_cursor h (slot_cursor slot) ->
  load_cursor h (slot_cursor slot) + Z.of_nat (length (rotation b)) <= 2 ^ 32 ->
  endpoints b !! i = Some e ->
  Z.of_nat (count_pick (picks (length (rotation b)) b stats h) i) = share (endpoints b) e.
Proof.
  intros Hok Hb Hp Hs Hl H0 Hn He. assert (endpoints b <> []) by (by intros E; rewrite E in He).
  rewrite (picks_round_robin _ b stats slot h), <- (rotation_share b i e) by done.
  by rewrite (count_pick_perm _ _ i (walk_rotation b _)).
Qed.

(** Least-connections picks a least loaded endpoint: the chosen
    endpoint's in-flight count per unit of weight is at most that of every
    other, and the cross-multiplied [u64] comparison never overflows. *)
Theorem least_conn_minimal b stats slot h :
  weights_ok (endpoints b) -> counts_ok h -> policy b = LeastConn -> endpoints b <> [] ->
  stats_slot stats (stats_index b) = Some slot ->
  exists i e, select_endpoint b stats 0 h = (Some (i, e), h) /\
    forall j e', endpoints b !! j = Some e' ->
      inflight_count slot h i * Z.max (weight e') 1 <= inflight_count slot h j * Z.max (weight e) 1.
Proof.
  intros [Hw _] Hc Hp Hne Hs. destruct (endpoints b) as [|e0 rest] eqn:E; [done|].
  destruct (least_conn_loop_spec slot h (e0 :: rest) [e0] rest 0 e0) as (ep&Hep&Hmin);
    try done; [simpl; lia| |].
  { intros [|j] e Hj; simplify_eq/=. unfold load_le. lia. }
  simpl length in *. eexists _, ep. split; [|exact Hmin].
  unfold select_endpoint. rewrite Hp, Hs, E. cbn -[least_conn_loop lookup]. by rewrite Hep.
Qed.

(** What a ring costs, exactly as the code has it.  A ring is never
    empty; every live endpoint keeps at least one slot; and its length is at
    most [MAX_RING] plus one slot per live endpoint.  The cap named by
    [MAX_RING] is therefore not a bound on its own, see [ring_exceeds_cap]. *)
Theorem ring_length_bound eps r :
  weights_ok eps -> build_ring eps = Some r ->
  r <> [] /\
  Z.of_nat (length r) <= MAX_RING + Z.of_nat (length (List.filter (fun e => 0 <? weight e) eps)) /\
  (forall i e, eps !! i = Some e -> 0 < weight e -> (0 < countz r (Z.of_nat i))%nat).
Proof.
  intros Hok Hb. pose proof Hok as [Hw _].
  destruct (build_ring_spec _ _ Hok Hb) as (Hr&Ht&Hlen&_&Hc). split; [done|].
  set (total := sum_z (map weight eps)) in *.
  assert (Hnn : Forall (fun w => 0 <= w < 2 ^ 32) (map weight eps)) by (by apply Forall_map).
  assert (Htot : 0 < total).
  { enough (0 <= total) by lia. apply sum_z_nonneg. eapply Forall_impl; [exact Hnn|]. simpl. lia. }
  split.
  - rewrite Hlen, <- (List.map_map weight (scale total)).
    pose proof (scaled_sum_le (map weight eps) total Htot Hnn ltac:(subst total; lia)) as Hle.
    assert (Hf : length (List.filter (fun w => 0 <? w) (map weight eps)) =
                 length (List.filter (fun e => 0 <? weight e) eps)).
    { clear. induction eps as [|e eps IH]; simpl; [done|]. case_match; simpl; congruence. }
    rewrite Hf in Hle. fold total in Hle. unfold MAX_RING in *.
    destruct (total <=? 4096) eqn:E; [lia|].
    rewrite Z.mul_comm, Z.div_mul in Hle by lia. lia.
  - intros i e He Hpos. pose proof (Hc _ _ He) as Hs.
    destruct (weight_le_total eps e Hok) as [Hwe Hle]; [by eapply list_elem_of_lookup_2|].
    fold total in Hle. enough (0 < scale total (weight e)) by lia.
    unfold scale, MAX_RING. destruct (weight e =? 0) eqn:?; [lia|].
    destruct (total <=? 4096) eqn:?; [lia|].
    assert (0 <= weight e * 4096 / total <= 4096).
    { split; [apply Z.div_pos; lia|]. apply Z.div_le_upper_bound; lia. }
    unfold wrap32. rewrite wrap_small by lia. lia.
Qed.

(** ** Witnesses *)

Definition eps_of (ws : list Z) : list Endpoint :=
  imap (fun i w => Endpoint_weighted (demo_addr (8080 + Z.of_nat i)) w) ws.
Definition demo_backend (p : LbPolicy) (ws : list Z) : Backend :=
  Backend_new (bstr "b") (eps_of ws) p Http1 0.
Definition demo_stats : BackendStats := MkBackendStats [MkBackendSlot 0 [0; 1]%nat []] ∅.
Definition demo_heap : Heap := MkHeap [5] [1; 2].

Lemma select_endpoint_total_witness :
  exists i ep h', select_endpoint (demo_backend Random [0; 0]) demo_stats 7 demo_heap = (Some (i, ep), h')
    /\ endpoints (demo_backend Random [0; 0]) !! i = Some ep.
Proof.
  apply (select_endpoint_total _ demo_stats (MkBackendSlot 0 [0; 1]%nat [])); try done.
  - split; [repeat constructor|]; simpl; lia.
  - repeat constructor; simpl; lia.
Defined.

Lemma round_robin_share_witness :
  Z.of_nat (count_pick (picks 4 (demo_backend RoundRobin [3; 1]) demo_stats demo_heap) 0) = 3.
Proof.
  apply (round_robin_share (demo_backend RoundRobin [3; 1]) demo_stats
    (MkBackendSlot 0 [0; 1]%nat []) demo_heap 0 (Endpoint_weighted (demo_addr 8080) 3)); try done.
  - split; [repeat constructor|]; simpl; lia.
  - simpl. lia.
Defined.

Lemma least_conn_minimal_witness :
  exists i e, select_endpoint (demo_backend LeastConn [1; 3]) demo_stats 0 demo_heap = (Some (i, e), demo_heap) /\
    forall j e', endpoints (demo_backend LeastConn [1; 3]) !! j = Some e' ->
      inflight_count (MkBackendSlot 0 [0; 1]%nat []) demo_heap i * Z.max (weight e') 1
      <= inflight_count (MkBackendSlot 0 [0; 1]%nat []) demo_heap j * Z.max (weight e) 1.
Proof.
  apply least_conn_minimal; try done.
  - split; [repeat constructor|]; simpl; lia.
  - repeat constructor; simpl; lia.
Defined.

Lemma ring_length_bound_witness :
  ([0; 1; 0; 0] : list Z) <> [] /\
  Z.of_nat (length ([0; 1; 0; 0] : list Z)) <= MAX_RING + 2 /\
  (forall i e, eps_of [3; 1] !! i = Some e -> 0 < weight e -> (0 < countz [0; 1; 0; 0]%Z (Z.of_nat i))%nat).
Proof.
  apply (ring_length_bound (eps_of [3; 1])); [|reflexivity].
  split; [repeat constructor|]; simpl; lia.
Defined.

(** One heavy endpoint and 4,200 light ones: each light one keeps its slot,
    and together they pass the documented cap. *)
Definition crowd : nat := 4200.
Definition crowded : list Endpoint :=
  Endpoint_weighted (demo_addr 8080) 1000000 :: replicate crowd (Endpoint_weighted (demo_addr 8081) 1).

Lemma sum_z_replicate n x : sum_z (replicate n x) = Z.of_nat n * x.
Proof. induction n as [|n IH]; simpl sum_z; [done|]. rewrite IH. lia. Qed.

Theorem ring_exceeds_cap :
  exists r, build_ring crowded = Some r /\ MAX_RING < Z.of_nat (length r).
Proof.
  unfold crowded. assert (Hn : Z.of_nat crowd = 4200) by (vm_compute; done).
  generalize dependent crowd. intros n Hn.
  assert (Hok : weights_ok (Endpoint_weighted (demo_addr 8080) 1000000
                  :: replicate n (Endpoint_weighted (demo_addr 8081) 1))).
  { split; [|simpl; rewrite length_replicate; lia].
    constructor; [simpl; lia|]. apply Forall_replicate. simpl. lia. }
  assert (Hin : Endpoint_weighted (demo_addr 8081) 1
                  ∈ replicate n (Endpoint_weighted (demo_addr 8081) 1)).
  { apply elem_of_replicate. split; [done|lia]. }
  destruct (build_ring_is_Some _ _ _ Hok (list_elem_of_here _ _)
     (list_elem_of_further _ _ _ Hin)) as [r Hr]; [done|].
  exists r. split; [done|]. destruct (build_ring_spec _ _ Hok Hr) as (_&_&->&_).
  simpl map. rewrite !List.map_repeat || rewrite !fmap_replicate. cbn [sum_z foldr]. fold sum_z.
  rewrite !sum_z_replicate, Hn. vm_compute. done.
Qed.

Example round_robin_interleaves : build_ring (eps_of [3; 1]) = Some [0; 1; 0; 0].
Proof. reflexivity. Qed.
Example uniform_weights_skip_the_ring : build_ring (eps_of [3; 3; 3]) = None.
Proof. reflexivity. Qed.
