(* ===== verification/Table.v ===== *)
(** The route table and the certificate map:
    [crates/ramjet-router/src/table.rs] and [tls.rs].

    [match_request] is the hot-path matcher, [resolve] its TLS twin.  Both look
    a normalised name up exactly, then by its parent domain, then fall back.
    [claims] and [answers] state declaratively what the matcher promises, and
    [match_request_refines] is the refinement.  A hash map's iteration order is
    the interface [HashOrder], the [arc_swap] crate the interface [SwapCell]. *)

From S2P Require Import Prelude Hosts RouterTypes Canary Paths Stats Backends.

(** ** Certificates *)

Record CertifiedKeyHandle := MkCertifiedKeyHandle { cert_id : u64 }.
#[export] Instance CertifiedKeyHandle_eq_dec : EqDecision CertifiedKeyHandle.
Proof. solve_decision. Defined.

Record SniMap := MkSniMap {
  sni_exact : gmap str CertifiedKeyHandle;
  sni_wildcard : gmap str CertifiedKeyHandle;
  sni_default : option CertifiedKeyHandle;
}.

Definition resolve_normalized (m : SniMap) (name : str) : option CertifiedKeyHandle :=
  match sni_exact m !! name with
  | Some key => Some key
  | None =>
      match (parent ← parent_domain name; sni_wildcard m !! parent) with
      | Some key => Some key
      | None => sni_default m
      end
  end.

Definition resolve (m : SniMap) (server_name : str) : option CertifiedKeyHandle :=
  match scan server_name with
  | Clean name => resolve_normalized m name
  | Fold name => folded ← fold_lower name; resolve_normalized m folded
  | Invalid => sni_default m
  end.

Definition sni_len (m : SniMap) : nat := (size (sni_exact m) + size (sni_wildcard m))%nat.
Definition sni_is_empty (m : SniMap) : bool :=
  bool_decide (sni_exact m = ∅) && bool_decide (sni_wildcard m = ∅).

Inductive RouteHost :=
| RouteHost_Exact (name : str)
| RouteHost_Wildcard (parent : str)
| RouteHost_CatchAll.

(** The [Display] of a [RouteHost]. *)
Definition route_host_display (h : RouteHost) : str :=
  match h with
  | RouteHost_Exact name => name
  | RouteHost_Wildcard parent => bstr "*." ++ parent
  | RouteHost_CatchAll => bstr "*"
  end.

Inductive HostMatch :=
| HostMatch_Exact
| HostMatch_Wildcard
| HostMatch_CatchAll
| HostMatch_DefaultBackend.

Section table.
Context {E : RegexEngine}.

Record VirtualHost := MkVirtualHost { vh_routes : list PathRule }.

Definition match_path (v : VirtualHost) (path : str) : option PathRule :=
  find_first (fun rule => rule_matches rule path) (vh_routes v).

Record MatchResult := MkMatchResult {
  mr_backend : Backend;
  mr_rule : option PathRule;
  mr_host_match : HostMatch;
}.

Definition mr_canary (m : MatchResult) : option CanarySpec := r ← mr_rule m; rule_canary r.
Definition mr_mirror (m : MatchResult) : option MirrorSpec := r ← mr_rule m; rule_mirror r.

Record RouteTable := MkRouteTable {
  hosts : gmap str VirtualHost;
  wildcard_hosts : gmap str VirtualHost;
  catch_all : option VirtualHost;
  default_backend : option BackendId;
  backends : list Backend;
  stats : BackendStats;
  routes : RouteStats;
  tls : SniMap;
  generation : u64;
}.

(** [backend(id)], [backends.get(..)]. *)
Definition table_backend (t : RouteTable) (id : BackendId) : option Backend :=
  backends t !! backend_index id.

Definition default_result (t : RouteTable) : option MatchResult :=
  id ← default_backend t;
  b ← table_backend t id;
  Some (MkMatchResult b None HostMatch_DefaultBackend).

Definition hit (t : RouteTable) (rule : PathRule) (host_match : HostMatch) : option MatchResult :=
  b ← table_backend t (rule_backend rule);
  Some (MkMatchResult b (Some rule) host_match).

Definition catch_all_or_default (t : RouteTable) (path : str) : option MatchResult :=
  match (v ← catch_all t; match_path v path) with
  | Some rule => hit t rule HostMatch_CatchAll
  | None => default_result t
  end.

(** The three-way host lookup of [match_normalized]. *)
Definition find_host (t : RouteTable) (host : str) : option (VirtualHost * HostMatch) :=
  match hosts t !! host with
  | Some v => Some (v, HostMatch_Exact)
  | None =>
      match (p ← parent_domain host; wildcard_hosts t !! p) with
      | Some v => Some (v, HostMatch_Wildcard)
      | None =>
          match catch_all t with
          | Some v => Some (v, HostMatch_CatchAll)
          | None => None
          end
      end
  end.

Definition match_normalized (t : RouteTable) (host path : str) : option MatchResult :=
  match find_host t host with
  | None => default_result t
  | Some (vhost, host_match) =>
      match match_path vhost path with
      | Some rule => hit t rule host_match
      | None => default_result t
      end
  end.

Definition match_request (t : RouteTable) (host path : str) : option MatchResult :=
  match scan host with
  | Clean name => match_normalized t name path
  | Fold name =>
      match fold_lower name with
      | Some folded => match_normalized t folded path
      | None => catch_all_or_default t path
      end
  | Invalid => catch_all_or_default t path
  end.

(** Reporting: every virtual host and every rule, in hash order. *)
Definition virtual_hosts `{HashOrder} (t : RouteTable) : list (RouteHost * VirtualHost) :=
  map (fun '(name, v) => (RouteHost_Exact name, v)) (map_iter (hosts t))
  ++ map (fun '(parent, v) => (RouteHost_Wildcard parent, v)) (map_iter (wildcard_hosts t))
  ++ match catch_all t with Some v => [(RouteHost_CatchAll, v)] | None => [] end.

Definition table_routes `{HashOrder} (t : RouteTable) : list (RouteHost * PathRule) :=
  flat_map (fun '(host, v) => map (fun rule => (host, rule)) (vh_routes v)) (virtual_hosts t).

Definition sni_entries `{HashOrder} (m : SniMap) : list (RouteHost * u64) :=
  map (fun '(name, key) => (RouteHost_Exact name, cert_id key)) (map_iter (sni_exact m))
  ++ map (fun '(parent, key) => (RouteHost_Wildcard parent, cert_id key)) (map_iter (sni_wildcard m))
  ++ match sni_default m with Some key => [(RouteHost_CatchAll, cert_id key)] | None => [] end.

Definition host_count (t : RouteTable) : nat := size (hosts t).
Definition wildcard_host_count (t : RouteTable) : nat := size (wildcard_hosts t).

Definition route_count `{HashOrder} (t : RouteTable) : nat :=
  foldr Nat.add 0%nat
    (map (fun v => length (vh_routes v))
       (map snd (map_iter (hosts t)) ++ map snd (map_iter (wildcard_hosts t))
        ++ match catch_all t with Some v => [v] | None => [] end)).

(** ** What the matcher promises *)

(** Who owns a request whose lookup key is [key] ([None]: a [Host] header
    that names nothing). *)
Inductive claims (t : RouteTable) : option str -> VirtualHost -> HostMatch -> Prop :=
| claims_exact n v :
    hosts t !! n = Some v -> claims t (Some n) v HostMatch_Exact
| claims_wildcard n label parent v :
    hosts t !! n = None ->
    n = label ++ chr "." :: parent -> label <> [] -> chr "." ∉ label -> parent <> [] ->
    wildcard_hosts t !! parent = Some v -> claims t (Some n) v HostMatch_Wildcard
| claims_catch_all key v :
    (forall n, key = Some n -> hosts t !! n = None) ->
    (forall n label parent, key = Some n ->
       n = label ++ chr "." :: parent -> label <> [] -> chr "." ∉ label -> parent <> [] ->
       wildcard_hosts t !! parent = None) ->
    catch_all t = Some v -> claims t key v HostMatch_CatchAll.

(** [rule] answers [path] on [v]: it matches, and no rule before it does. *)
Definition first_match (v : VirtualHost) (path : str) (rule : PathRule) : Prop :=
  exists before after, vh_routes v = before ++ rule :: after /\
    rule_matches rule path = true /\
    Forall (fun r => rule_matches r path = false) before.

Inductive answers (t : RouteTable) (key : option str) (path : str) : option MatchResult -> Prop :=
| answers_rule v hm rule :
    claims t key v hm -> first_match v path rule ->
    answers t key path (hit t rule hm)
| answers_no_path v hm :
    claims t key v hm -> Forall (fun r => rule_matches r path = false) (vh_routes v) ->
    answers t key path (default_result t)
| answers_unclaimed :
    (forall v hm, ~ claims t key v hm) ->
    answers t key path (default_result t).
End table.

(** ** The published snapshot

    [SharedRouteTable] is a cell of the [arc_swap] crate: [load] returns the
    current table and [swap] replaces it, returning the previous one. *)
Class SwapCell (A : Type) := {
  Cell : Type;
  from_pointee : A -> Cell;
  cell_load : Cell -> A;
  cell_swap : A -> Cell -> A * Cell;
}.

Section shared.
Context {E : RegexEngine} `{SwapCell RouteTable}.

Definition shared_new (t : RouteTable) : Cell := from_pointee t.
Definition shared_load (c : Cell) : RouteTable := cell_load c.
Definition shared_load_full (c : Cell) : RouteTable := cell_load c.
Definition shared_store (c : Cell) (t : RouteTable) : RouteTable * Cell := cell_swap t c.
Definition shared_store_shared (c : Cell) (t : RouteTable) : RouteTable * Cell := cell_swap t c.
Definition shared_generation (c : Cell) : u64 := generation (shared_load c).
End shared.

(** What [arc_swap] documents of the cell. *)
Class SwapCellLaws (A : Type) `{SwapCell A} := {
  load_from_pointee : forall a, cell_load (from_pointee a) = a;
  load_swap : forall a c, cell_load (cell_swap a c).2 = a;
  swap_returns : forall a c, (cell_swap a c).1 = cell_load c;
}.

Definition plain_cell (A : Type) : SwapCell A := {|
  Cell := A; from_pointee a := a; cell_load a := a; cell_swap a c := (c, a);
|}.
Definition plain_cell_laws (A : Type) : @SwapCellLaws A (plain_cell A).
Proof. by split. Defined.

Section publication.
Context {E : RegexEngine} `{SwapCell RouteTable}.

(** Everything that happens to a published pointer: the controller stores a
    table, a worker loads a snapshot for a request.  [retired] are the tables
    [store] handed back, [loads] the generations one worker saw, newest first. *)
Record Published := MkPublished {
  cell : Cell;
  retired : list RouteTable;
  loads : list u64;
}.

Definition published_init (t : RouteTable) : Published := MkPublished (shared_new t) [] [].

(** A store publishes a table built from the current one, so with a larger
    generation (or the same one at the [u64] limit). *)
Inductive publish_step : Published -> Published -> Prop :=
| publish_store p t old c' :
    generation (shared_load (cell p)) <= generation t ->
    shared_store (cell p) t = (old, c') ->
    publish_step p (MkPublished c' (retired p ++ [old]) (loads p))
| publish_load p :
    publish_step p (MkPublished (cell p) (retired p) (shared_generation (cell p) :: loads p)).
End publication.

(** ** Lemmas *)

Section table_lemmas.
Context {E : RegexEngine}.

Lemma match_path_Some v path rule :
  match_path v path = Some rule <-> first_match v path rule.
Proof.
  unfold match_path, first_match. rewrite find_first_Some. naive_solver.
Qed.

Lemma match_path_None v path :
  match_path v path = None <-> Forall (fun r => rule_matches r path = false) (vh_routes v).
Proof. apply find_first_None. Qed.

(** [scan] and [fold_lower] reach the two lookups only through [normalize]. *)
Lemma match_request_normalize t host path :
  match_request t host path =
  match normalize host with
  | Some n => match_normalized t n path
  | None => catch_all_or_default t path
  end.
Proof. unfold match_request, normalize. by destruct (scan host). Qed.

Lemma parent_None_no_wildcard n label p :
  parent_domain n = None -> n = label ++ chr "." :: p -> label <> [] -> chr "." ∉ label ->
  p <> [] -> False.
Proof.
  intros Hn ????. assert (parent_domain n = Some p) by (apply parent_domain_Some; eauto).
  congruence.
Qed.

Lemma find_host_claims t n v hm :
  find_host t n = Some (v, hm) <-> claims t (Some n) v hm.
Proof.
  unfold find_host. split.
  - destruct (hosts t !! n) eqn:Hx; [intros [= -> <-]; by constructor|].
    destruct (parent_domain n) as [p|] eqn:Hp; simpl.
    + destruct (wildcard_hosts t !! p) eqn:Hw.
      { intros [= -> <-]. apply parent_domain_Some in Hp as (l&?&?&?&?).
        eapply claims_wildcard; eauto. }
      destruct (catch_all t) eqn:Hc; [|done]. intros [= -> <-].
      apply claims_catch_all; [congruence| |done].
      intros ? l q [= <-] ????.
      assert (parent_domain n = Some q) by (apply parent_domain_Some; eauto). congruence.
    + destruct (catch_all t) eqn:Hc; [|done]. intros [= -> <-].
      apply claims_catch_all; [congruence| |done].
      intros ? l q [= <-] ????. exfalso. by eapply parent_None_no_wildcard.
  - inversion 1 as [? ? Hx|? l p ? Hx Heq ? ? ? Hw|? ? Hx Hw Hc]; subst.
    + by rewrite Hx.
    + rewrite Hx, (proj2 (parent_domain_Some _ p)) by eauto. simpl. by rewrite Hw.
    + rewrite (Hx n) by done. destruct (parent_domain n) as [p|] eqn:Hp; simpl; [|by rewrite Hc].
      apply parent_domain_Some in Hp as (l&?&?&?&?). rewrite (Hw n l p); try done. by rewrite Hc.
Qed.

Lemma claims_unnamed t v hm :
  claims t None v hm <-> catch_all t = Some v /\ hm = HostMatch_CatchAll.
Proof.
  split; [by inversion 1|]. intros [? ->]. by constructor.
Qed.

Lemma claims_deterministic t key v1 hm1 v2 hm2 :
  claims t key v1 hm1 -> claims t key v2 hm2 -> v1 = v2 /\ hm1 = hm2.
Proof.
  destruct key as [n|].
  - rewrite <- !find_host_claims. intros. by simplify_eq.
  - rewrite !claims_unnamed. naive_solver.
Qed.

Lemma first_match_deterministic v path r1 r2 :
  first_match v path r1 -> first_match v path r2 -> r1 = r2.
Proof. rewrite <- !match_path_Some. congruence. Qed.

Lemma first_match_excludes v path r :
  first_match v path r -> Forall (fun r => rule_matches r path = false) (vh_routes v) -> False.
Proof. rewrite <- match_path_Some, <- match_path_None. congruence. Qed.

Lemma answers_deterministic t key path r1 r2 :
  answers t key path r1 -> answers t key path r2 -> r1 = r2.
Proof.
  intros [v1 h1 x1 C1 F1|v1 h1 C1 F1|C1] [v2 h2 x2 C2 F2|v2 h2 C2 F2|C2]; try done;
    try (by destruct (C1 _ _ C2)); try (by destruct (C2 _ _ C1));
    destruct (claims_deterministic _ _ _ _ _ _ C1 C2) as [<- <-].
  - by rewrite (first_match_deterministic _ _ _ _ F1 F2).
  - by destruct (first_match_excludes _ _ _ F1).
  - by destruct (first_match_excludes _ _ _ F2).
Qed.

Lemma answers_by_claim t key path v hm :
  claims t key v hm ->
  answers t key path
    match match_path v path with Some rule => hit t rule hm | None => default_result t end.
Proof.
  intros C. destruct (match_path v path) as [rule|] eqn:Hm.
  - apply match_path_Some in Hm. by eapply answers_rule.
  - apply match_path_None in Hm. by eapply answers_no_path.
Qed.

Lemma match_request_answers t host path :
  answers t (normalize host) path (match_request t host path).
Proof.
  rewrite match_request_normalize. destruct (normalize host) as [n|].
  - unfold match_normalized. destruct (find_host t n) as [[v hm]|] eqn:Hf.
    + by apply answers_by_claim, find_host_claims.
    + apply answers_unclaimed. intros v hm Hc%find_host_claims. congruence.
  - unfold catch_all_or_default. destruct (catch_all t) as [v|] eqn:Hc; simpl.
    + by apply answers_by_claim, claims_unnamed.
    + apply answers_unclaimed. intros v hm [? _]%claims_unnamed. congruence.
Qed.

Lemma resolve_normalize m name :
  utf8_valid name = true ->
  resolve m name =
  match normalize name with Some n => resolve_normalized m n | None => sni_default m end.
Proof.
  intros Hu. unfold resolve. pose proof (normalize_spec _ Hu) as Hn. unfold normalize, scan in *.
  destruct (scan_extent name) as [[k up]|] eqn:Hx; [|done]. cbv zeta in Hn.
  fold (root_dot name k) in Hn |- *. destruct ((_ =? 0)%nat || _) eqn:Hb; [done|].
  destruct (str_get_to name _) as [trimmed|] eqn:Ht; [|done].
  destruct up; [|done]. by rewrite Hn.
Qed.
End table_lemmas.

(** ** Properties *)

Section table_properties.
Context {E : RegexEngine}.

(** C1: Refinement of the matcher.  [match_request] computes exactly the
    answer of the declarative precedence: an exact host wins over a
    single-label wildcard, that over the hostless rules; inside the winning
    virtual host the first matching rule answers; a host whose paths all miss
    gets the default backend and never a less specific host; a malformed
    [Host] header is a name nobody owns. *)
Theorem match_request_refines t host path r :
  answers t (normalize host) path r <-> match_request t host path = r.
Proof.
  split.
  - intros Ha. eapply answers_deterministic; [apply match_request_answers|exact Ha].
  - intros <-. apply match_request_answers.
Qed.

(** TLS agrees with routing.  When the certificate map holds the same
    names as the virtual hosts, the handshake picks the certificate of the
    very entry - exact name, wildcard parent, or default - the request with
    that name is then routed by. *)
Theorem resolve_follows_routing t name v hm :
  utf8_valid name = true ->
  dom (sni_exact (tls t)) = dom (hosts t) ->
  dom (sni_wildcard (tls t)) = dom (wildcard_hosts t) ->
  claims t (normalize name) v hm ->
  match hm with
  | HostMatch_Exact => exists n key, normalize name = Some n /\ hosts t !! n = Some v /\
      sni_exact (tls t) !! n = Some key /\ resolve (tls t) name = Some key
  | HostMatch_Wildcard => exists n p key, normalize name = Some n /\
      parent_domain n = Some p /\ wildcard_hosts t !! p = Some v /\
      sni_wildcard (tls t) !! p = Some key /\ resolve (tls t) name = Some key
  | _ => resolve (tls t) name = sni_default (tls t)
  end.
Proof.
  intros Hu Hd1 Hd2 Hc. rewrite resolve_normalize by done.
  assert (Hx : forall n, is_Some (sni_exact (tls t) !! n) <-> is_Some (hosts t !! n))
    by (intros; by rewrite <- !elem_of_dom, Hd1).
  assert (Hw : forall p, is_Some (sni_wildcard (tls t) !! p) <-> is_Some (wildcard_hosts t !! p))
    by (intros; by rewrite <- !elem_of_dom, Hd2).
  assert (Hx' : forall n, hosts t !! n = None -> sni_exact (tls t) !! n = None)
    by (intros n; rewrite !eq_None_not_Some, Hx; done).
  assert (Hw' : forall n, wildcard_hosts t !! n = None -> sni_wildcard (tls t) !! n = None)
    by (intros n; rewrite !eq_None_not_Some, Hw; done).
  unfold resolve_normalized.
  inversion Hc as [n ? Hh|n l p ? Hh Heq ? ? ? Hp|key ? Hh Hp Hca]; subst.
  - destruct (proj2 (Hx n)) as [key Hk]; [eauto|]. exists n, key. by rewrite Hk.
  - assert (parent_domain (l ++ chr "." :: p) = Some p) as Hpd by (apply parent_domain_Some; eauto).
    destruct (proj2 (Hw p)) as [key Hk]; [eauto|].
    exists (l ++ chr "." :: p), p, key. rewrite (Hx' _ Hh), Hpd. simpl. by rewrite Hk.
  - destruct (normalize name) as [n|]; [|done]. rewrite (Hx' _ (Hh n eq_refl)).
    destruct (parent_domain n) as [p|] eqn:Hpd; simpl; [|done].
    apply parent_domain_Some in Hpd as (l&?&?&?&?). by rewrite (Hw' _ (Hp n l p eq_refl ltac:(done) ltac:(done) ltac:(done) ltac:(done))).
Qed.
End table_properties.

Section publication_properties.
Context {E : RegexEngine} `{SwapCellLaws RouteTable}.

Definition publication_ok (t0 : RouteTable) (p : Published) : Prop :=
  head (retired p ++ [shared_load (cell p)]) = Some t0 /\
  StronglySorted Z.le (map generation (retired p ++ [shared_load (cell p)])) /\
  StronglySorted (fun newer older => older <= newer) (shared_generation (cell p) :: loads p).

Lemma sorted_snoc l x y :
  StronglySorted Z.le (l ++ [x]) -> x <= y -> StronglySorted Z.le ((l ++ [x]) ++ [y]).
Proof.
  intros Hs Hxy. apply StronglySorted_app. split_and!; [|done|repeat constructor].
  intros a b Ha ->%list_elem_of_singleton. apply StronglySorted_app in Hs as (Hall&_&_).
  apply elem_of_app in Ha as [Ha| ->%list_elem_of_singleton]; [|done].
  transitivity x; [|done]. apply Hall; [done|]. by apply list_elem_of_singleton.
Qed.

Lemma publication_ok_step t0 p q :
  publication_ok t0 p -> publish_step p q -> publication_ok t0 q.
Proof.
  intros (Hh&Hs1&Hs2). inversion 1 as [? t old c' Hge Hst|?]; subst; unfold publication_ok; simpl.
  - unfold shared_store in Hst.
    pose proof (load_swap t (cell p)) as Hl. pose proof (swap_returns t (cell p)) as Ho.
    rewrite Hst in Hl, Ho. simpl in Hl, Ho. subst old.
    unfold shared_generation, shared_load in *. rewrite Hl. split_and!.
    + by destruct (retired p).
    + rewrite !List.map_app in *. by apply sorted_snoc.
    + apply StronglySorted_inv in Hs2 as [? Hall]. constructor; [done|].
      eapply Forall_impl; [exact Hall|]. simpl. intros. lia.
  - split_and!; [done|done|]. apply StronglySorted_inv in Hs2 as [? Hall].
    by repeat constructor.
Qed.

(** Publication loses nothing and never goes back.  From any initial
    table and any interleaving of stores and loads: every table that stopped
    being current was handed back by exactly one store, in publication order
    with non-decreasing generations up to the current one; and the generations
    a worker reads never decrease. *)
Theorem publication_monotone t0 p :
  rtc publish_step (published_init t0) p ->
  head (retired p ++ [shared_load (cell p)]) = Some t0 /\
  StronglySorted Z.le (map generation (retired p ++ [shared_load (cell p)])) /\
  StronglySorted (fun newer older => older <= newer) (shared_generation (cell p) :: loads p).
Proof.
  apply (rtc_invariant _ (publication_ok t0)).
  - unfold publication_ok, shared_generation, shared_load, published_init, shared_new. simpl.
    rewrite load_from_pointee. repeat (constructor || split).
  - apply publication_ok_step.
Qed.
End publication_properties.

Definition demo_host : str := bstr "example.com".
Definition demo_table `{RegexEngine} (g : u64) : RouteTable :=
  MkRouteTable {[ demo_host := MkVirtualHost [] ]} ∅ None None []
    (MkBackendStats [] ∅) (MkRouteStats [] ∅)
    (MkSniMap {[ demo_host := MkCertifiedKeyHandle 1 ]} ∅ (Some (MkCertifiedKeyHandle 3))) g.

Lemma resolve_follows_routing_witness :
  exists n key, normalize (bstr "EXAMPLE.com:443") = Some n /\
    hosts (demo_table (H := literal_engine) 0) !! n = Some (MkVirtualHost []) /\
    sni_exact (tls (demo_table (H := literal_engine) 0)) !! n = Some key /\
    resolve (tls (demo_table (H := literal_engine) 0)) (bstr "EXAMPLE.com:443") = Some key.
Proof.
  apply (resolve_follows_routing (E := literal_engine) (demo_table (H := literal_engine) 0)
           (bstr "EXAMPLE.com:443") (MkVirtualHost []) HostMatch_Exact).
  - vm_compute. reflexivity.
  - simpl. by rewrite !dom_singleton_L.
  - done.
  - apply (claims_exact (demo_table (H := literal_engine) 0) demo_host). by vm_compute.
Defined.

Lemma publication_monotone_witness :
  let t g := demo_table (H := literal_engine) g in
  StronglySorted Z.le (map generation ([t 0] ++ [t 1])).
Proof.
  pose proof (publication_monotone (E := literal_engine) (H := plain_cell _)
    (H0 := plain_cell_laws _) (demo_table (H := literal_engine) 0)
    {| cell := demo_table (H := literal_engine) 1 : @Cell _ (plain_cell _);
       retired := [demo_table (H := literal_engine) 0]; loads := [0] |}) as Hp.
  refine (proj1 (proj2 (Hp _))). eapply rtc_l; [apply publish_load|]. eapply rtc_l; [|apply rtc_refl].
  apply (publish_store (H := plain_cell _) (MkPublished (H := plain_cell _) _ [] _)
    (demo_table (H := literal_engine) 1) (demo_table (H := literal_engine) 0)); [simpl; lia|reflexivity].
Defined.
