(* ===== verification/Builder.v ===== *)
(** Building and validating a route table: [crates/ramjet-router/src/builder.rs].

    One definition per builder method, each returning the new builder or the
    [BuildError] its early return gives, and [build] with its three phases:
    counters, grouping by host with collision checks ([group_routes]), and
    freezing every bucket in precedence order ([freeze_buckets]).  The bucket
    map is iterated in an arbitrary [HashOrder]. *)

From S2P Require Import Prelude Hosts RouterTypes Canary Paths Stats Backends Table.

Definition DEFAULT_WEIGHT_TOTAL : u32 := 100.

(** Which bucket a rule belongs to. *)
Inductive HostSlot :=
| Slot_Exact (host : str)
| Slot_Wildcard (parent : str)
| Slot_CatchAll.
#[export] Instance HostSlot_eq_dec : EqDecision HostSlot.
Proof. solve_decision. Defined.
#[export] Instance HostSlot_countable : Countable HostSlot.
Proof.
  refine (inj_countable'
    (fun s => match s with
              | Slot_Exact h => inl (inl h)
              | Slot_Wildcard h => inl (inr h)
              | Slot_CatchAll => inr tt
              end)
    (fun x => match x with
              | inl (inl h) => Slot_Exact h
              | inl (inr h) => Slot_Wildcard h
              | inr _ => Slot_CatchAll
              end) _).
  by intros [].
Defined.

Definition slot_display (s : HostSlot) : str :=
  match s with Slot_Exact h => h | Slot_Wildcard h => h | Slot_CatchAll => bstr "*" end.

(** The host a route's counters are filed under. *)
Definition slot_identity_host (s : HostSlot) : str :=
  match s with
  | Slot_Exact h => h
  | Slot_Wildcard h => bstr "*." ++ h
  | Slot_CatchAll => bstr "*"
  end.

Record CanaryRules := MkCanaryRules {
  cr_backend : str;
  cr_header : option str;
  cr_header_value : option str;
  cr_header_pattern : option str;
  cr_cookie : option str;
  cr_weight : u32;
  cr_weight_total : u32;
}.

Record MirrorRules := MkMirrorRules {
  mru_backend : str;
  mru_percent : u32;
  mru_host : option str;
}.

Record RouteOptions := MkRouteOptions {
  opt_canary : option CanaryRules;
  opt_mirror : option MirrorRules;
}.
Definition RouteOptions_default : RouteOptions := MkRouteOptions None None.

Record BackendOptions := MkBackendOptions {
  bo_policy : LbPolicy;
  bo_protocol : BackendProtocol;
}.

Section builder.
Context {E : RegexEngine} `{HashOrder}.

Inductive BuildError :=
| HostLength (host : str)
| HostSyntax (host : str) (found : u8)
| WildcardShape (host : str)
| PathNotAbsolute (path : str)
| BadPattern (path : str) (source : RegexError)
| BadCanaryPattern (pattern : str) (source : RegexError)
| DuplicatePath (host path : str) (path_type : PathType)
| DuplicateBackend (name : str)
| UnknownBackend (name referrer : str)
| CanaryHeaderConflict (host path : str)
| CanaryWeight (weight total : u32)
| MirrorPercent (percent : u32)
| MirrorBackendMissing (host path : str).

Record CanaryDraft := MkCanaryDraft {
  cd_backend : str;
  cd_header : option HeaderSpec;
  cd_cookie : option str;
  cd_weight : u32;
  cd_weight_total : u32;
}.

Record MirrorDraft := MkMirrorDraft {
  md_backend : str;
  md_percent : u32;
  md_host : option str;
}.

Record BackendDraft := MkBackendDraft {
  bd_name : str;
  bd_options : BackendOptions;
  bd_endpoints : list Endpoint;
}.

Record RouteDraft := MkRouteDraft {
  rd_slot : HostSlot;
  rd_path : str;
  rd_path_type : PathType;
  rd_regex : option Regex;
  rd_backend : str;
  rd_canary : option CanaryDraft;
  rd_mirror : option MirrorDraft;
}.

Record RouteTableBuilder := MkBuilder {
  b_generation : u64;
  b_previous : option BackendStats;
  b_previous_routes : option RouteStats;
  b_backends : list BackendDraft;
  b_backend_ids : gmap str BackendId;
  b_routes : list RouteDraft;
  b_default_backend : option str;
  b_tls_exact : gmap str CertifiedKeyHandle;
  b_tls_wildcard : gmap str CertifiedKeyHandle;
  b_tls_default : option CertifiedKeyHandle;
}.

Definition builder_new : RouteTableBuilder :=
  MkBuilder 0 None None [] ∅ [] None ∅ ∅ None.

Definition from_previous (previous : RouteTable) : RouteTableBuilder :=
  MkBuilder (sat_add u64_max (generation previous) 1) (Some (stats previous))
    (Some (routes previous)) [] ∅ [] None ∅ ∅ None.

(** Field updates. *)
Definition set_generation (b : RouteTableBuilder) (g : u64) : RouteTableBuilder :=
  MkBuilder g (b_previous b) (b_previous_routes b) (b_backends b) (b_backend_ids b)
    (b_routes b) (b_default_backend b) (b_tls_exact b) (b_tls_wildcard b) (b_tls_default b).
Definition set_default_backend (b : RouteTableBuilder) (name : str) : RouteTableBuilder :=
  MkBuilder (b_generation b) (b_previous b) (b_previous_routes b) (b_backends b)
    (b_backend_ids b) (b_routes b) (Some name) (b_tls_exact b) (b_tls_wildcard b) (b_tls_default b).
Definition push_route (b : RouteTableBuilder) (d : RouteDraft) : RouteTableBuilder :=
  MkBuilder (b_generation b) (b_previous b) (b_previous_routes b) (b_backends b)
    (b_backend_ids b) (b_routes b ++ [d]) (b_default_backend b)
    (b_tls_exact b) (b_tls_wildcard b) (b_tls_default b).
Definition push_backend (b : RouteTableBuilder) (d : BackendDraft) (id : BackendId) : RouteTableBuilder :=
  MkBuilder (b_generation b) (b_previous b) (b_previous_routes b) (b_backends b ++ [d])
    (<[bd_name d := id]> (b_backend_ids b)) (b_routes b) (b_default_backend b)
    (b_tls_exact b) (b_tls_wildcard b) (b_tls_default b).
Definition set_tls (b : RouteTableBuilder) (exact wildcard : gmap str CertifiedKeyHandle)
    (default_key : option CertifiedKeyHandle) : RouteTableBuilder :=
  MkBuilder (b_generation b) (b_previous b) (b_previous_routes b) (b_backends b)
    (b_backend_ids b) (b_routes b) (b_default_backend b) exact wildcard default_key.

Definition backend_with (b : RouteTableBuilder) (name : str) (eps : list Endpoint)
    (options : BackendOptions) : result BuildError (BackendId * RouteTableBuilder) :=
  match b_backend_ids b !! name with
  | Some _ => Err (DuplicateBackend name)
  | None =>
      let id := MkBackendId (wrap32 (Z.of_nat (length (b_backends b)))) in
      Ok (id, push_backend b (MkBackendDraft name options eps) id)
  end.

(** [backend(name, policy, endpoints)]. *)
Definition register_backend (b : RouteTableBuilder) (name : str) (pol : LbPolicy)
    (eps : list Endpoint) : result BuildError (BackendId * RouteTableBuilder) :=
  backend_with b name eps (MkBackendOptions pol Http1).

Definition registered_id (b : RouteTableBuilder) (name : str) : option BackendId :=
  b_backend_ids b !! name.

(** [find(|c| matches!(c, ':' | '/' | '*' | ' '))]: the four are ASCII, so
    scanning bytes finds the same first character as scanning [char]s. *)
Definition forbidden_host_char (c : u8) : bool :=
  (c =? chr ":") || (c =? chr "/") || (c =? chr "*") || (c =? chr " ").

Definition normalize_config_host (raw : str) : result BuildError HostSlot :=
  let host := trim_end_matches (chr ".") raw in
  if bool_decide (host = []) || (MAX_HOST_LEN <? length host)%nat then Err (HostLength host)
  else
    let '(is_wildcard, name) :=
      match strip_prefix (bstr "*.") host with
      | Some rest => (true, rest)
      | None => (false, host)
      end in
    match find_first forbidden_host_char name with
    | Some found =>
        if found =? chr "*" then Err (WildcardShape host) else Err (HostSyntax host found)
    | None =>
        if bool_decide (name = []) then Err (WildcardShape host)
        else
          let lowered := lower name in
          Ok (if (is_wildcard : bool) then Slot_Wildcard lowered else Slot_Exact lowered)
    end.

(** [compile] maps the error only, so it is [regex_build]. *)
Definition compile (pattern : str) (case_insensitive : bool) : result RegexError Regex :=
  regex_build pattern case_insensitive.

Definition canary_draft (canary : CanaryRules) (slot : HostSlot) (path : str)
    : result BuildError CanaryDraft :=
  if bool_decide (is_Some (cr_header_value canary)) && bool_decide (is_Some (cr_header_pattern canary))
  then Err (CanaryHeaderConflict (slot_display slot) path)
  else
    let weight_total :=
      if cr_weight_total canary =? 0 then DEFAULT_WEIGHT_TOTAL else cr_weight_total canary in
    if weight_total <? cr_weight canary then Err (CanaryWeight (cr_weight canary) weight_total)
    else
      header ← match cr_header canary with
        | Some name =>
            pattern ← match cr_header_pattern canary with
              | Some p =>
                  re ← map_err (BadCanaryPattern p) (compile (bstr "^(?:" ++ p ++ bstr ")$") false);
                  Ok (Some re)
              | None => Ok None
              end;
            Ok (Some {| hs_name := name; hs_value := cr_header_value canary; hs_pattern := pattern |})
        | None => Ok None
        end;
      Ok (MkCanaryDraft (cr_backend canary) header (cr_cookie canary) (cr_weight canary) weight_total).

Definition mirror_draft (mirror : MirrorRules) (slot : HostSlot) (path : str)
    : result BuildError MirrorDraft :=
  if bool_decide (mru_backend mirror = []) then Err (MirrorBackendMissing (slot_display slot) path)
  else if MIRROR_PERCENT_TOTAL <? mru_percent mirror then Err (MirrorPercent (mru_percent mirror))
  else Ok (MkMirrorDraft (mru_backend mirror) (mru_percent mirror) (mru_host mirror)).

(** The base draft of one route, without the optional behaviours. *)
Definition draft (host : option str) (path : str) (path_type : PathType) (backend : str)
    : result BuildError RouteDraft :=
  slot ← match host with
    | Some h => normalize_config_host h
    | None => Ok Slot_CatchAll
    end;
  regex ← match path_type with
    | ImplementationSpecific =>
        re ← map_err (BadPattern path) (compile (bstr "^(?:" ++ path ++ bstr ")") true);
        Ok (Some re)
    | _ => if starts_with (bstr "/") path then Ok None else Err (PathNotAbsolute path)
    end;
  Ok (MkRouteDraft slot path path_type regex backend None None).

Definition route_with (b : RouteTableBuilder) (host : option str) (path : str)
    (path_type : PathType) (backend : str) (options : RouteOptions)
    : result BuildError RouteTableBuilder :=
  d ← draft host path path_type backend;
  canary ← match opt_canary options with
    | Some c => x ← canary_draft c (rd_slot d) path; Ok (Some x)
    | None => Ok None
    end;
  mirror ← match opt_mirror options with
    | Some m => x ← mirror_draft m (rd_slot d) path; Ok (Some x)
    | None => Ok None
    end;
  Ok (push_route b (MkRouteDraft (rd_slot d) (rd_path d) (rd_path_type d) (rd_regex d)
                      (rd_backend d) canary mirror)).

(** [route] and [canary_route]. *)
Definition add_route (b : RouteTableBuilder) (host : option str) (path : str)
    (path_type : PathType) (backend : str) : result BuildError RouteTableBuilder :=
  route_with b host path path_type backend RouteOptions_default.
Definition canary_route (b : RouteTableBuilder) (host : option str) (path : str)
    (path_type : PathType) (backend : str) (canary : CanaryRules)
    : result BuildError RouteTableBuilder :=
  route_with b host path path_type backend (MkRouteOptions (Some canary) None).

Definition certificate (b : RouteTableBuilder) (host : str) (key : CertifiedKeyHandle)
    : result BuildError RouteTableBuilder :=
  slot ← normalize_config_host host;
  Ok match slot with
     | Slot_Exact h => set_tls b (<[h := key]> (b_tls_exact b)) (b_tls_wildcard b) (b_tls_default b)
     | Slot_Wildcard h => set_tls b (b_tls_exact b) (<[h := key]> (b_tls_wildcard b)) (b_tls_default b)
     | Slot_CatchAll => set_tls b (b_tls_exact b) (b_tls_wildcard b) (Some key)
     end.

Definition default_certificate (b : RouteTableBuilder) (key : CertifiedKeyHandle)
    : RouteTableBuilder :=
  set_tls b (b_tls_exact b) (b_tls_wildcard b) (Some key).

(** ** [build] *)

Definition resolve_backend (ids : gmap str BackendId) (name : str) (slot : HostSlot) (path : str)
    : result BuildError BackendId :=
  ok_or (ids !! name) (UnknownBackend name (slot_display slot ++ path)).

(** One rule from its draft, names resolved. *)
Definition build_rule (ids : gmap str BackendId) (d : RouteDraft) : result BuildError PathRule :=
  backend_id ← resolve_backend ids (rd_backend d) (rd_slot d) (rd_path d);
  canary ← match rd_canary d with
    | Some c =>
        id ← resolve_backend ids (cd_backend c) (rd_slot d) (rd_path d);
        Ok (Some (CanarySpec_new id (cd_header c) (cd_cookie c) (cd_weight c) (cd_weight_total c)))
    | None => Ok None
    end;
  mirror ← match rd_mirror d with
    | Some m =>
        id ← resolve_backend ids (md_backend m) (rd_slot d) (rd_path d);
        Ok (Some (MirrorSpec_new id (md_percent m) (md_host m)))
    | None => Ok None
    end;
  Ok (PathRule_new (rd_path d) (rd_path_type d) (rd_regex d) backend_id
        (RuleExtras_build canary mirror)).

Definition draft_key (d : RouteDraft) : HostSlot * str * PathType :=
  (rd_slot d, rd_path d, rd_path_type d).

Fixpoint group_routes (ids : gmap str BackendId) (drafts : list RouteDraft)
    (seen : gset (HostSlot * str * PathType)) (buckets : gmap HostSlot (list PathRule))
    : result BuildError (gmap HostSlot (list PathRule)) :=
  match drafts with
  | [] => Ok buckets
  | d :: rest =>
      if bool_decide (draft_key d ∈ seen)
      then Err (DuplicatePath (slot_display (rd_slot d)) (rd_path d) (rd_path_type d))
      else
        rule ← build_rule ids d;
        group_routes ids rest ({[draft_key d]} ∪ seen)
          (<[rd_slot d := default [] (buckets !! rd_slot d) ++ [rule]]> buckets)
  end.

Definition identity_of (built : list Backend) (slot : HostSlot) (r : PathRule) : RouteIdentity :=
  MkRouteIdentity (slot_identity_host slot) (rule_path r) (rule_path_type r)
    match built !! backend_index (rule_backend r) with
    | Some b => backend_name b
    | None => []
    end.

(** [for rule in &mut rules]: hand out counter indices in stored order. *)
Fixpoint number_rules (built : list Backend) (slot : HostSlot) (rules : list PathRule)
    (identities : list RouteIdentity) : list PathRule * list RouteIdentity :=
  match rules with
  | [] => ([], identities)
  | r :: rest =>
      let r' := set_stats_index r (wrap32 (Z.of_nat (length identities))) in
      let '(rest', ids') :=
        number_rules built slot rest (identities ++ [identity_of built slot r']) in
      (r' :: rest', ids')
  end.

Record Frozen := MkFrozen {
  fz_hosts : gmap str VirtualHost;
  fz_wildcards : gmap str VirtualHost;
  fz_catch_all : option VirtualHost;
  fz_identities : list RouteIdentity;
}.
Definition frozen_empty : Frozen := MkFrozen ∅ ∅ None [].

Definition freeze_bucket (built : list Backend) (f : Frozen) (slot : HostSlot)
    (rules : list PathRule) : Frozen :=
  let '(rules', ids') := number_rules built slot (sort_by rule_le rules) (fz_identities f) in
  match slot with
  | Slot_Exact h =>
      MkFrozen (<[h := MkVirtualHost rules']> (fz_hosts f)) (fz_wildcards f) (fz_catch_all f) ids'
  | Slot_Wildcard h =>
      MkFrozen (fz_hosts f) (<[h := MkVirtualHost rules']> (fz_wildcards f)) (fz_catch_all f) ids'
  | Slot_CatchAll =>
      MkFrozen (fz_hosts f) (fz_wildcards f) (Some (MkVirtualHost rules')) ids'
  end.

Definition freeze_buckets (built : list Backend) (l : list (HostSlot * list PathRule)) : Frozen :=
  foldl (fun f '(slot, rules) => freeze_bucket built f slot rules) frozen_empty l.

Definition built_backends (drafts : list BackendDraft) : list Backend :=
  imap (fun i d => Backend_new (bd_name d) (bd_endpoints d) (bo_policy (bd_options d))
                     (bo_protocol (bd_options d)) (wrap32 (Z.of_nat i))) drafts.

Definition stats_specs (drafts : list BackendDraft) : list (str * list SocketAddr) :=
  map (fun d => (bd_name d, map addr (bd_endpoints d))) drafts.

(** The counters of the new generation are allocated first; they are released
    with the discarded table when a later phase fails. *)
Definition build (b : RouteTableBuilder) (h : Heap) (store : RouteStore)
    : result BuildError (RouteTable * Heap * RouteStore) :=
  let '(st, h') := rebuild (stats_specs (b_backends b)) (b_previous b) h in
  let built := built_backends (b_backends b) in
  buckets ← group_routes (b_backend_ids b) (b_routes b) ∅ ∅;
  let f := freeze_buckets built (map_iter buckets) in
  let '(rs, store') := rebuild_routes (fz_identities f) (b_previous_routes b) store in
  default_id ← match b_default_backend b with
    | Some name =>
        id ← ok_or (b_backend_ids b !! name) (UnknownBackend name (bstr "default backend"));
        Ok (Some id)
    | None => Ok None
    end;
  Ok (MkRouteTable (fz_hosts f) (fz_wildcards f) (fz_catch_all f) default_id built st rs
        (MkSniMap (b_tls_exact b) (b_tls_wildcard b) (b_tls_default b)) (b_generation b),
      h', store').
End builder.

(** ** Vocabulary of the specification *)

Section spec.
Context {E : RegexEngine} `{HashOrder}.

(** The virtual host a slot names in a table, and while freezing. *)
Definition table_vhost (t : RouteTable) (slot : HostSlot) : option VirtualHost :=
  match slot with
  | Slot_Exact h => hosts t !! h
  | Slot_Wildcard h => wildcard_hosts t !! h
  | Slot_CatchAll => catch_all t
  end.
Definition frozen_vhost (f : Frozen) (slot : HostSlot) : option VirtualHost :=
  match slot with
  | Slot_Exact h => fz_hosts f !! h
  | Slot_Wildcard h => fz_wildcards f !! h
  | Slot_CatchAll => fz_catch_all f
  end.

(** The rule a draft becomes when it belongs to [slot]. *)
Definition draft_rule (ids : gmap str BackendId) (slot : HostSlot) (d : RouteDraft) : option PathRule :=
  if bool_decide (rd_slot d = slot)
  then match build_rule ids d with Ok r => Some r | Err _ => None end
  else None.
Definition slot_rules (ids : gmap str BackendId) (drafts : list RouteDraft) (slot : HostSlot)
    : list PathRule := omap (draft_rule ids slot) drafts.

(** A rule without the counter index the freeze phase gives it. *)
Definition erase_index (r : PathRule) : PathRule := set_stats_index r 0.

(** ** Grouping *)

Lemma group_routes_Ok ids drafts seen b0 b :
  group_routes ids drafts seen b0 = Ok b ->
  NoDup (map draft_key drafts) /\
  Forall (fun d => draft_key d ∉ seen) drafts /\
  Forall (fun d => is_ok (build_rule ids d) = true) drafts /\
  (forall slot, default [] (b !! slot) = default [] (b0 !! slot) ++ slot_rules ids drafts slot) /\
  (forall slot, is_Some (b !! slot) <-> is_Some (b0 !! slot) \/ slot ∈ map rd_slot drafts).
Proof.
  revert seen b0. induction drafts as [|d rest IH]; intros seen b0; simpl.
  { intros [= ->]. split_and!; try by constructor.
    - intros slot. unfold slot_rules. simpl. by rewrite app_nil_r.
    - intros slot. rewrite elem_of_nil. naive_solver. }
  case_bool_decide as Hs; [done|].
  destruct (build_rule ids d) as [rule|] eqn:Hr; simpl; [|done].
  intros (Hnd&Hsn&Hok&Hb&Hd)%IH. split_and!.
  - constructor; [|done]. intros (d'&Hk&Hin)%list_elem_of_fmap.
    rewrite Forall_forall in Hsn. apply (Hsn d' Hin). rewrite <- Hk.
    by apply elem_of_union_l, elem_of_singleton.
  - constructor; [done|]. eapply Forall_impl; [exact Hsn|]. intros d' Hd' Hin.
    by apply Hd', elem_of_union_r.
  - constructor; [by rewrite Hr|done].
  - intros slot. rewrite Hb. unfold slot_rules. simpl. unfold draft_rule at 2. rewrite Hr.
    case_bool_decide as Hsl.
    + subst. rewrite lookup_insert_eq. simpl. by rewrite <- app_assoc.
    + by rewrite lookup_insert_ne.
  - intros slot. rewrite Hd, elem_of_cons. destruct (decide (rd_slot d = slot)) as [<-|Hne].
    + rewrite lookup_insert_eq. naive_solver.
    + rewrite lookup_insert_ne by done. naive_solver.
Qed.

Lemma group_routes_succeeds ids drafts seen b0 :
  NoDup (map draft_key drafts) ->
  Forall (fun d => draft_key d ∉ seen) drafts ->
  Forall (fun d => is_ok (build_rule ids d) = true) drafts ->
  exists b, group_routes ids drafts seen b0 = Ok b.
Proof.
  revert seen b0. induction drafts as [|d rest IH]; intros seen b0 Hnd Hs Hok; simpl; [eauto|].
  apply NoDup_cons in Hnd as [Hn Hnd]. apply Forall_cons in Hs as [Hd Hs].
  apply Forall_cons in Hok as [Hr Hok].
  rewrite bool_decide_eq_false_2 by done.
  destruct (build_rule ids d) as [rule|]; [|done]. simpl. apply IH; [done| |done].
  apply Forall_forall. intros d' Hin. rewrite Forall_forall in Hs.
  rewrite elem_of_union, elem_of_singleton. intros [Hk|Hk]; [|by apply (Hs d')].
  apply Hn. rewrite <- Hk. apply list_elem_of_fmap. eauto.
Qed.

(** ** Freezing *)

Lemma number_rules_spec built slot rules ids :
  number_rules built slot rules ids =
  (imap (fun i r => set_stats_index r (wrap32 (Z.of_nat (length ids + i)))) rules,
   ids ++ map (identity_of built slot) rules).
Proof.
  revert ids. induction rules as [|r rest IH]; intros ids; simpl; [by rewrite app_nil_r|].
  rewrite IH. rewrite length_app. simpl. f_equal.
  - rewrite Nat.add_0_r. f_equal. apply imap_ext. intros i x _. simpl. do 3 f_equal. lia.
  - by rewrite <- app_assoc.
Qed.

Lemma erase_set_index r n : erase_index (set_stats_index r n) = erase_index r.
Proof. done. Qed.

Lemma rule_le_erase r r' : rule_le (erase_index r) (erase_index r') = rule_le r r'.
Proof. done. Qed.

Lemma rule_matches_erase r p : rule_matches (erase_index r) p = rule_matches r p.
Proof. done. Qed.

Lemma build_rule_erased ids d r : build_rule ids d = Ok r -> erase_index r = r.
Proof.
  unfold build_rule. destruct (resolve_backend ids (rd_backend d) _ _); simpl; [|done].
  destruct (rd_canary d) as [c|]; simpl; [destruct (resolve_backend ids (cd_backend c) _ _); simpl; [|done]|];
    (destruct (rd_mirror d) as [m|]; simpl; [destruct (resolve_backend ids (md_backend m) _ _); simpl; [|done]|]);
    by intros [= <-].
Qed.

(** What the fold over the buckets keeps: each bucket of the list becomes the
    virtual host of its slot, sorted, and every rule carries the position of
    its own identity. *)
Definition freeze_ok (built : list Backend) (l : list (HostSlot * list PathRule)) (f : Frozen) : Prop :=
  (forall slot v, frozen_vhost f slot = Some v ->
     exists rules, (slot, rules) ∈ l /\
       map erase_index (vh_routes v) = map erase_index (sort_by rule_le rules)) /\
  (forall slot, slot ∈ map fst l -> is_Some (frozen_vhost f slot)) /\
  (forall slot v i r, frozen_vhost f slot = Some v -> vh_routes v !! i = Some r ->
     exists n, rule_stats_index r = wrap32 (Z.of_nat n) /\
       fz_identities f !! n = Some (identity_of built slot r)) /\
  (forall id, id ∈ fz_identities f -> exists slot rules r, (slot, rules) ∈ l /\ r ∈ rules /\
     id = identity_of built slot r) /\
  fz_identities f ≡ₚ flat_map (fun '(slot, rules) => map (identity_of built slot) rules) l.

Lemma map_erase_imap (g : nat -> Z) rules :
  map erase_index (imap (fun i r => set_stats_index r (g i)) rules) = map erase_index rules.
Proof.
  revert g. induction rules as [|r rest IH]; intros g; [done|].
  simpl. f_equal. apply (IH (fun i => g (S i))).
Qed.

Lemma freeze_bucket_ok built l f slot rules :
  freeze_ok built l f -> slot ∉ map fst l ->
  freeze_ok built (l ++ [(slot, rules)]) (freeze_bucket built f slot rules).
Proof.
  intros (Hv&Hd&Hi&Hm&Hp) Hn. unfold freeze_bucket. rewrite number_rules_spec.
  
  set (rules' := imap (fun i r => set_stats_index r (wrap32 (Z.of_nat (length (fz_identities f) + i))))
                   (sort_by rule_le rules)).
  set (ids' := fz_identities f ++ map (identity_of built slot) (sort_by rule_le rules)).
  assert (Hf : exists g, g = match slot with
    | Slot_Exact h => MkFrozen (<[h:=MkVirtualHost rules']> (fz_hosts f)) (fz_wildcards f) (fz_catch_all f) ids'
    | Slot_Wildcard h => MkFrozen (fz_hosts f) (<[h:=MkVirtualHost rules']> (fz_wildcards f)) (fz_catch_all f) ids'
    | Slot_CatchAll => MkFrozen (fz_hosts f) (fz_wildcards f) (Some (MkVirtualHost rules')) ids'
    end) by eauto. destruct Hf as [g Hg]. rewrite <- Hg.
  assert (Hids : fz_identities g = ids') by (subst g; by destruct slot).
  assert (Hsame : frozen_vhost g slot = Some (MkVirtualHost rules')).
  { subst g. destruct slot; simpl; try done; by rewrite lookup_insert_eq. }
  assert (Hother : forall s, s <> slot -> frozen_vhost g s = frozen_vhost f s).
  { intros s Hne. subst g. destruct slot, s; simpl; try done; rewrite lookup_insert_ne; congruence. }
  clear Hg. unfold freeze_ok. rewrite Hids. split_and!.
  - intros s v Hs. destruct (decide (s = slot)) as [->|Hne].
    + rewrite Hsame in Hs. injection Hs as <-. exists rules. split; [set_solver|].
      simpl. apply (map_erase_imap (fun i => wrap32 (Z.of_nat (length (fz_identities f) + i)))).
    + rewrite Hother in Hs by done. destruct (Hv _ _ Hs) as (rs&?&?). exists rs. set_solver.
  - intros s. rewrite List.map_app, elem_of_app. simpl. intros [Hs| ->%list_elem_of_singleton]; [|by rewrite Hsame].
    destruct (decide (s = slot)) as [->|Hne]; [done|]. rewrite Hother by done. by apply Hd.
  - intros s v i r Hs Hr. destruct (decide (s = slot)) as [->|Hne].
    + rewrite Hsame in Hs. injection Hs as <-. simpl in Hr. unfold rules' in Hr.
      rewrite list_lookup_imap in Hr. destruct (_ !! i) as [r0|] eqn:Hr0; [|done]. injection Hr as <-. simpl.
      exists (length (fz_identities f) + i)%nat. split; [done|]. unfold ids'.
      rewrite lookup_app_r by lia. replace (_ + i - _)%nat with i by lia.
      etransitivity; [apply list_lookup_fmap|]. by rewrite Hr0.
    + rewrite Hother in Hs by done. destruct (Hi _ _ _ _ Hs Hr) as (n&?&Hn'). exists n. split; [done|].
      unfold ids'. by apply lookup_app_l_Some.
  - intros id. unfold ids'. rewrite elem_of_app. intros [Hin|Hin].
    + destruct (Hm _ Hin) as (s&rs&r&?&?&?). exists s, rs, r. set_solver.
    + apply list_elem_of_fmap in Hin as (r&->&Hin). exists slot, rules, r.
      rewrite elem_of_sort_by in Hin. set_solver.
  - unfold ids'. rewrite flat_map_app. simpl. rewrite app_nil_r, Hp.
    f_equiv. by rewrite sort_by_perm.
Qed.

Lemma freeze_buckets_ok built l :
  NoDup (map fst l) -> freeze_ok built l (freeze_buckets built l).
Proof.
  induction l as [|[slot rules] l IH] using rev_ind; intros Hnd.
  - split_and!; simpl; try (intros []; done); try done; [set_solver|set_solver].
  - rewrite List.map_app in Hnd. apply NoDup_app in Hnd as (Hnd&Hdis&_).
    unfold freeze_buckets. rewrite foldl_app. simpl.
    apply freeze_bucket_ok; [by apply IH|]. intros Hin. apply (Hdis _ Hin). simpl. set_solver.
Qed.

(** ** What a successful [build] returns *)

Lemma map_iter_buckets (m : gmap HostSlot (list PathRule)) :
  NoDup (map fst (map_iter m)) /\
  (forall slot rules, (slot, rules) ∈ map_iter m <-> m !! slot = Some rules).
Proof.
  split.
  - change (NoDup ((map_iter m).*1)). rewrite (map_iter_perm m). apply NoDup_fst_map_to_list.
  - intros slot rules. rewrite (map_iter_perm m). apply elem_of_map_to_list.
Qed.

Record built_from (b : RouteTableBuilder) (t : RouteTable) : Prop := {
  bf_keys : NoDup (map draft_key (b_routes b));
  bf_rules : Forall (fun d => is_ok (build_rule (b_backend_ids b) d) = true) (b_routes b);
  bf_vhost : forall slot v, table_vhost t slot = Some v ->
    map erase_index (vh_routes v) = sort_by rule_le (slot_rules (b_backend_ids b) (b_routes b) slot);
  bf_slots : forall slot, is_Some (table_vhost t slot) <-> slot ∈ map rd_slot (b_routes b);
  bf_backends : backends t = built_backends (b_backends b);
  bf_default : match b_default_backend b with
    | None => default_backend t = None
    | Some name => default_backend t = b_backend_ids b !! name /\ is_Some (b_backend_ids b !! name)
    end;
  bf_generation : generation t = b_generation b;
  bf_tls : tls t = MkSniMap (b_tls_exact b) (b_tls_wildcard b) (b_tls_default b);
}.

Lemma slot_rules_erased ids drafts slot :
  Forall (fun r => erase_index r = r) (slot_rules ids drafts slot).
Proof.
  apply Forall_forall. intros r (d&_&Hd)%list_elem_of_omap. unfold draft_rule in Hd.
  case_bool_decide; [|done]. destruct (build_rule ids d) eqn:Hr; simplify_eq.
  by eapply build_rule_erased.
Qed.

Lemma map_erase_id l : Forall (fun r => erase_index r = r) l -> map erase_index l = l.
Proof. induction 1 as [|r l Hr Hl IH]; simpl; [done|]. by rewrite Hr, IH. Qed.

Lemma build_phases b h store t h' store' :
  build b h store = Ok (t, h', store') ->
  exists buckets, group_routes (b_backend_ids b) (b_routes b) ∅ ∅ = Ok buckets /\
    let f := freeze_buckets (built_backends (b_backends b)) (map_iter buckets) in
    (forall slot, table_vhost t slot = frozen_vhost f slot) /\
    rebuild_routes (fz_identities f) (b_previous_routes b) store = (routes t, store') /\
    rebuild (stats_specs (b_backends b)) (b_previous b) h = (stats t, h') /\
    backends t = built_backends (b_backends b) /\
    match b_default_backend b with
    | None => default_backend t = None
    | Some name => default_backend t = b_backend_ids b !! name /\ is_Some (b_backend_ids b !! name)
    end /\
    generation t = b_generation b /\
    tls t = MkSniMap (b_tls_exact b) (b_tls_wildcard b) (b_tls_default b).
Proof.
  unfold build. destruct (rebuild _ _ h) as [st h1] eqn:Hst.
  destruct (group_routes _ _ _ _) as [buckets|] eqn:Hg; simpl; [|done].
  destruct (rebuild_routes _ _ store) as [rs store1] eqn:Hrs. intros Hb.
  exists buckets. split; [done|]. destruct (b_default_backend b) as [name|].
  - destruct (b_backend_ids b !! name) as [id|] eqn:Hid; simpl in Hb; [|done].
    injection Hb as <- <- <-. split_and!; try done; by intros [].
  - simpl in Hb. injection Hb as <- <- <-. split_and!; try done; by intros [].
Qed.

Lemma build_built_from b h store t h' store' :
  build b h store = Ok (t, h', store') -> built_from b t.
Proof.
  intros (buckets&Hg&Hv&_&_&Hbk&Hd&Hgen&Htls)%build_phases.
  apply group_routes_Ok in Hg as (Hnd&_&Hok&Hbs&Hdom).
  destruct (map_iter_buckets buckets) as [Hk Hin].
  destruct (freeze_buckets_ok (built_backends (b_backends b)) _ Hk) as (F1&F2&_&_&_).
  assert (Hbucket : forall slot rules, (slot, rules) ∈ map_iter buckets ->
    rules = slot_rules (b_backend_ids b) (b_routes b) slot).
  { intros slot rules Hsl%Hin. specialize (Hbs slot). rewrite Hsl in Hbs. simpl in Hbs.
    by rewrite lookup_empty in Hbs. }
  split; try done.
  - intros slot v. rewrite Hv. intros (rules&Hsl&->)%F1. rewrite (Hbucket _ _ Hsl).
    apply map_erase_id. rewrite sort_by_perm. apply slot_rules_erased.
  - intros slot. rewrite Hv. specialize (Hdom slot). rewrite lookup_empty in Hdom. split.
    + intros [v (rules&Hsl%Hin&_)%F1]. destruct Hdom as [Hdom _].
      destruct Hdom as [[? ?]|?]; [by eexists|done..].
    + intros Hsl. destruct Hdom as [_ Hdom]. destruct (Hdom (or_intror Hsl)) as [rules Hr].
      apply F2. apply Hin in Hr. by apply (list_elem_of_fmap_2 fst) in Hr.
Qed.

Lemma find_first_erase p l : (forall r, p (erase_index r) = p r) ->
  find_first p (map erase_index l) = erase_index <$> find_first p l.
Proof.
  intros Hp. induction l as [|r l IH]; simpl; [done|]. rewrite Hp.
  destruct (p r); [done|]. by rewrite IH.
Qed.

Lemma rule_le_total x y : rule_le x y = false -> rule_le y x = true.
Proof. apply key_le_total. Qed.
Lemma rule_le_trans x y z : rule_le x y = true -> rule_le y z = true -> rule_le x z = true.
Proof. apply key_le_trans. Qed.

Lemma match_path_sorted b t slot v path :
  built_from b t -> table_vhost t slot = Some v ->
  erase_index <$> match_path v path =
  find_first (fun r => rule_matches r path)
    (sort_by rule_le (slot_rules (b_backend_ids b) (b_routes b) slot)).
Proof.
  intros Hb Hv. rewrite <- (bf_vhost _ _ Hb _ _ Hv). symmetry. by apply find_first_erase.
Qed.
End spec.

(** ** Builders reachable through the public methods *)

Section reachable.
Context {E : RegexEngine} `{HashOrder}.

(** The unsigned fields of the annotations. *)
Definition options_typed (o : RouteOptions) : Prop :=
  (forall c, opt_canary o = Some c -> 0 <= cr_weight c /\ 0 <= cr_weight_total c) /\
  (forall m, opt_mirror o = Some m -> 0 <= mru_percent m).

Inductive builder_step : RouteTableBuilder -> RouteTableBuilder -> Prop :=
| builder_step_backend b name eps options id b' :
    backend_with b name eps options = Ok (id, b') -> builder_step b b'
| builder_step_route b host path path_type backend options b' :
    options_typed options ->
    route_with b host path path_type backend options = Ok b' -> builder_step b b'
| builder_step_certificate b host key b' :
    certificate b host key = Ok b' -> builder_step b b'
| builder_step_default_certificate b key : builder_step b (default_certificate b key)
| builder_step_default_backend b name : builder_step b (set_default_backend b name)
| builder_step_generation b g : builder_step b (set_generation b g).

Inductive builder_reachable : RouteTableBuilder -> Prop :=
| reachable_new b : rtc builder_step builder_new b -> builder_reachable b
| reachable_from t b : rtc builder_step (from_previous t) b -> builder_reachable b.

(** A name in a slot, as [normalize_config_host] leaves it. *)
Record name_valid (n : str) : Prop := {
  nv_nonempty : n <> [];
  nv_length : (length n <= MAX_HOST_LEN)%nat;
  nv_lower : lower n = n;
  nv_chars : Forall (fun c => forbidden_host_char c = false) n;
  nv_dot : last n <> Some (chr ".");
}.
Definition slot_valid (s : HostSlot) : Prop :=
  match s with Slot_Exact n | Slot_Wildcard n => name_valid n | Slot_CatchAll => True end.

Definition canary_bounds (weight total : Z) : Prop := 0 <= weight <= total /\ 0 < total.

Record draft_ok (d : RouteDraft) : Prop := {
  do_slot : slot_valid (rd_slot d);
  do_path : match rd_path_type d with
    | ImplementationSpecific => is_Some (rd_regex d)
    | _ => rd_regex d = None /\ starts_with (bstr "/") (rd_path d) = true
    end;
  do_canary : forall c, rd_canary d = Some c -> canary_bounds (cd_weight c) (cd_weight_total c);
  do_mirror : forall m, rd_mirror d = Some m -> 0 <= md_percent m <= MIRROR_PERCENT_TOTAL;
}.

Record builder_wf (b : RouteTableBuilder) : Prop := {
  wf_ids : forall name id, b_backend_ids b !! name = Some id ->
    exists i d, b_backends b !! i = Some d /\ bd_name d = name /\
      id = MkBackendId (wrap32 (Z.of_nat i));
  wf_backends : NoDup (map bd_name (b_backends b)) /\
    forall d, d ∈ b_backends b -> is_Some (b_backend_ids b !! bd_name d);
  wf_drafts : Forall draft_ok (b_routes b);
}.

Lemma config_host_parts raw slot :
  normalize_config_host raw = Ok slot ->
  exists wild n0 k, raw = (if (wild : bool) then bstr "*." else []) ++ n0 ++ replicate k (chr ".") /\
    slot = (if wild then Slot_Wildcard (lower n0) else Slot_Exact (lower n0)) /\
    n0 <> [] /\ (length n0 <= MAX_HOST_LEN)%nat /\ last n0 <> Some (chr ".") /\
    Forall (fun c => forbidden_host_char c = false) n0.
Proof.
  unfold normalize_config_host. destruct (trim_end_split 46 raw) as (k&Hraw&Hlast).
  set (host := trim_end_matches 46 raw) in *.
  destruct (bool_decide (host = []) || _) eqn:Hb; [done|]. bools.
  destruct (strip_prefix (bstr "*.") host) as [rest|] eqn:Hp.
  - apply strip_prefix_Some in Hp. destruct (find_first _ rest) eqn:Hf; [by case_match|].
    apply find_first_None in Hf. case_bool_decide as Hr; [done|]. intros [= <-].
    exists true, rest, k. split_and!; try done.
    + by rewrite Hraw at 1; rewrite Hp, <- app_assoc.
    + rewrite Hp, length_app in *. simpl in *. lia.
    + rewrite Hp in Hlast. by destruct rest.
  - destruct (find_first _ host) eqn:Hf; [by case_match|].
    apply find_first_None in Hf. case_bool_decide as Hr; [done|]. intros [= <-].
    exists false, host, k. split_and!; try done. lia.
Qed.

Lemma forbidden_lower c : forbidden_host_char (to_ascii_lowercase c) = forbidden_host_char c.
Proof. unfold forbidden_host_char. by rewrite !to_ascii_lowercase_eqb. Qed.

Lemma last_lower s : last (lower s) = to_ascii_lowercase <$> last s.
Proof. rewrite !last_lookup, length_lower. apply lookup_lower. Qed.

Lemma name_valid_lower n :
  n <> [] -> (length n <= MAX_HOST_LEN)%nat -> last n <> Some (chr ".") ->
  Forall (fun c => forbidden_host_char c = false) n -> name_valid (lower n).
Proof.
  intros. split.
  - by destruct n.
  - by rewrite length_lower.
  - apply lower_idem.
  - unfold lower. apply Forall_map. eapply Forall_impl; [eassumption|]. simpl.
    intros c. by rewrite forbidden_lower.
  - rewrite last_lower. destruct (last n) as [c|]; simpl; [|done]. intros [= Hc].
    pose proof (to_ascii_lowercase_eqb c 46 eq_refl eq_refl). assert (c = 46) by lia. congruence.
Qed.

Lemma config_host_valid raw slot : normalize_config_host raw = Ok slot -> slot_valid slot.
Proof.
  intros (wild&n0&k&_&->&?&?&?&?)%config_host_parts. destruct wild; by apply name_valid_lower.
Qed.

#[local] Arguments starts_with : simpl never.

Lemma draft_fields host path pt be d :
  draft host path pt be = Ok d ->
  slot_valid (rd_slot d) /\ rd_path d = path /\ rd_path_type d = pt /\ rd_backend d = be /\
  match host with Some h => normalize_config_host h = Ok (rd_slot d) | None => rd_slot d = Slot_CatchAll end /\
  match pt with
  | ImplementationSpecific => is_Some (rd_regex d)
  | _ => rd_regex d = None /\ starts_with (bstr "/") path = true
  end.
Proof.
  unfold draft. intros Hd.
  destruct (match host with Some h => normalize_config_host h | None => Ok Slot_CatchAll end)
    as [slot|] eqn:Hs; simpl in Hd; [|done].
  assert (Hv : slot_valid slot).
  { destruct host; [by eapply config_host_valid|]. injection Hs as <-. exact I. }
  destruct pt; simpl in Hd.
  1,2: destruct (starts_with _ path) eqn:Hp; simpl in Hd; [|done]; injection Hd as <-; simpl;
       split_and!; try done; destruct host; congruence.
  destruct (compile _ true); simpl in Hd; [|done]. injection Hd as <-. simpl.
  split_and!; try done; try (by eexists); destruct host; congruence.
Qed.

Lemma canary_draft_bounds c slot path cd :
  0 <= cr_weight c -> 0 <= cr_weight_total c ->
  canary_draft c slot path = Ok cd -> canary_bounds (cd_weight cd) (cd_weight_total cd).
Proof.
  intros Hw Ht. unfold canary_draft. case_match; [done|]. cbv zeta.
  destruct (_ <? cr_weight c) eqn:Hlt; [done|]. intros Hc.
  destruct (match cr_header c with Some _ => _ | None => _ end) as [hd|]; simpl in Hc; [|done].
  injection Hc as <-. unfold canary_bounds, DEFAULT_WEIGHT_TOTAL in *. simpl.
  destruct (cr_weight_total c =? 0) eqn:?; lia.
Qed.

Lemma mirror_draft_bounds m slot path md :
  0 <= mru_percent m -> mirror_draft m slot path = Ok md ->
  0 <= md_percent md <= MIRROR_PERCENT_TOTAL.
Proof.
  intros ?. unfold mirror_draft. case_match; [done|]. destruct (_ <? _) eqn:?; [done|].
  intros [= <-]. simpl. lia.
Qed.

Lemma route_with_push b host path pt be o b' :
  route_with b host path pt be o = Ok b' ->
  exists d, b' = push_route b d /\ rd_path d = path /\ rd_path_type d = pt /\
    match host with Some h => normalize_config_host h = Ok (rd_slot d) | None => rd_slot d = Slot_CatchAll end /\
    (options_typed o -> draft_ok d).
Proof.
  unfold route_with. intros Hr.
  destruct (draft host path pt be) as [d0|] eqn:Hd; simpl in Hr; [|done].
  apply draft_fields in Hd as (Hs&Hp&Hpt&Hbe&Hh&Hre).
  destruct (match opt_canary o with Some _ => _ | None => _ end) as [cd|] eqn:Hc; simpl in Hr; [|done].
  destruct (match opt_mirror o with Some _ => _ | None => _ end) as [md|] eqn:Hm; simpl in Hr; [|done].
  injection Hr as <-. eexists. split; [done|]. simpl. split_and!; try done.
  intros [Ht1 Ht2]. split; simpl; try done.
  - by rewrite Hpt, Hp.
  - intros c ->. destruct (opt_canary o) as [c0|]; simpl in Hc; [|done].
    destruct (canary_draft c0 _ _) as [x|] eqn:Hx; simplify_eq/=.
    destruct (Ht1 c0 eq_refl). by eapply canary_draft_bounds.
  - intros m ->. destruct (opt_mirror o) as [m0|]; simpl in Hm; [|done].
    destruct (mirror_draft m0 _ _) as [x|] eqn:Hx; simplify_eq/=.
    eapply mirror_draft_bounds; [by apply Ht2|done].
Qed.

Lemma builder_wf_backend b name eps o id b' :
  builder_wf b -> backend_with b name eps o = Ok (id, b') -> builder_wf b'.
Proof.
  intros [Hids [Hnd Hreg] Hdr]. unfold backend_with.
  destruct (b_backend_ids b !! name) eqn:Hn; [done|]. intros [= <- <-]. split; simpl.
  - intros nm id. destruct (decide (nm = name)) as [->|Hne].
    + rewrite lookup_insert_eq. intros [= <-]. exists (length (b_backends b)), (MkBackendDraft name o eps).
      split_and!; [by apply list_lookup_middle|done|done].
    + rewrite lookup_insert_ne by done. intros (i&d&?&?&?)%Hids. exists i, d.
      split_and!; try done. by apply lookup_app_l_Some.
  - split.
    + rewrite List.map_app. apply NoDup_app. split_and!; [done| |apply NoDup_singleton].
      intros x Hx ->%list_elem_of_singleton. apply list_elem_of_fmap in Hx as (d&Hd&Hin).
      simpl in Hd. subst name. destruct (Hreg _ Hin). congruence.
    + intros d [Hin| ->%list_elem_of_singleton]%elem_of_app; simpl.
      * destruct (decide (bd_name d = name)) as [->|?]; [by rewrite lookup_insert_eq|].
        rewrite lookup_insert_ne by done. by apply Hreg.
      * by rewrite lookup_insert_eq.
  - done.
Qed.

Lemma builder_wf_step b b' : builder_wf b -> builder_step b b' -> builder_wf b'.
Proof.
  intros Hwf Hs. inversion Hs; subst.
  - by eapply builder_wf_backend.
  - destruct (route_with_push _ _ _ _ _ _ _ H1) as (d&->&_&_&_&Hd). destruct Hwf. split; simpl; try done.
    apply Forall_app. split; [done|]. constructor; auto.
  - unfold certificate in H0. destruct (normalize_config_host host) as [[]|]; simplify_eq/=;
      destruct Hwf; by split.
  - destruct Hwf. by split.
  - destruct Hwf. by split.
  - destruct Hwf. by split.
Qed.

Lemma reachable_wf b : builder_reachable b -> builder_wf b.
Proof.
  assert (H0 : forall b0, b_backend_ids b0 = ∅ -> b_backends b0 = [] -> b_routes b0 = [] -> builder_wf b0).
  { intros b0 E1 E2 E3. split; rewrite ?E1, ?E2, ?E3; [intros ??; by rewrite lookup_empty|split; [constructor|set_solver]|done]. }
  intros [b1 Hr|t b1 Hr]; (eapply rtc_invariant; [|apply builder_wf_step|exact Hr]); by apply H0.
Qed.
End reachable.

(** ** From a stored rule back to its draft *)

Section stored_rules.
Context {E : RegexEngine} `{HashOrder}.

Lemma resolve_backend_Ok ids name slot path id :
  resolve_backend ids name slot path = Ok id <-> ids !! name = Some id.
Proof. unfold resolve_backend, ok_or. destruct (ids !! name); naive_solver. Qed.

Record rule_from (ids : gmap str BackendId) (d : RouteDraft) (r : PathRule) : Prop := {
  rf_backend : ids !! rd_backend d = Some (rule_backend r);
  rf_path : rule_path r = rd_path d;
  rf_type : rule_path_type r = rd_path_type d;
  rf_regex : rule_regex r = rd_regex d;
  rf_canary : forall cs, rule_canary r = Some cs -> exists c, rd_canary d = Some c /\
    ids !! cd_backend c = Some (canary_backend cs) /\
    canary_weight cs = cd_weight c /\ canary_weight_total cs = cd_weight_total c;
  rf_mirror : forall ms, rule_mirror r = Some ms -> exists m, rd_mirror d = Some m /\
    ids !! md_backend m = Some (mirror_backend ms) /\
    mirror_percent ms = Z.min (md_percent m) MIRROR_PERCENT_TOTAL;
}.

Lemma build_rule_from ids d r : build_rule ids d = Ok r -> rule_from ids d r.
Proof.
  unfold build_rule.
  destruct (resolve_backend ids (rd_backend d) _ _) as [id|] eqn:Hid; simpl; [|done].
  apply resolve_backend_Ok in Hid.
  destruct (rd_canary d) as [c|] eqn:Hc; simpl;
    [destruct (resolve_backend ids (cd_backend c) _ _) as [cid|] eqn:Hcid; simpl; [|done];
     apply resolve_backend_Ok in Hcid|];
  (destruct (rd_mirror d) as [m|] eqn:Hm; simpl;
    [destruct (resolve_backend ids (md_backend m) _ _) as [mid|] eqn:Hmid; simpl; [|done];
     apply resolve_backend_Ok in Hmid|]);
  intros [= <-]; (split; simpl; try done; unfold rule_canary, rule_mirror; simpl;
    intros ?; intros [= <-]; simpl; eauto).
Qed.

Lemma vhost_rule_draft b t slot v r :
  built_from b t -> table_vhost t slot = Some v -> r ∈ vh_routes v ->
  exists d, d ∈ b_routes b /\ rd_slot d = slot /\ rule_from (b_backend_ids b) d r.
Proof.
  intros Hb Hv Hr. apply (list_elem_of_fmap_2 erase_index) in Hr.
  change (erase_index <$> vh_routes v) with (map erase_index (vh_routes v)) in Hr.
  rewrite (bf_vhost _ _ Hb _ _ Hv), elem_of_sort_by in Hr.
  apply list_elem_of_omap in Hr as (d&Hd&Hr). unfold draft_rule in Hr.
  case_bool_decide; [|done]. destruct (build_rule _ d) as [r'|] eqn:E'; [|done].
  exists d. split_and!; [done|done|]. apply build_rule_from in E' as [].
  injection Hr as ->. by split.
Qed.

Lemma registered_backend b t name id :
  builder_wf b -> built_from b t -> Z.of_nat (length (b_backends b)) < 2 ^ 32 ->
  b_backend_ids b !! name = Some id ->
  exists bk, table_backend t id = Some bk /\ backend_name bk = name.
Proof.
  intros Hwf Hb Hlen Hid. apply (wf_ids _ Hwf) in Hid as (i&d&Hi&<-&->).
  unfold table_backend, backend_index. simpl. rewrite (bf_backends _ _ Hb).
  pose proof (lookup_lt_Some _ _ _ Hi).
  unfold wrap32. rewrite wrap_small, Nat2Z.id by lia. unfold built_backends.
  rewrite list_lookup_imap, Hi. simpl. by eexists.
Qed.

Lemma claims_slot t key v hm : claims t key v hm -> exists slot, table_vhost t slot = Some v.
Proof.
  inversion 1; subst.
  - by exists (Slot_Exact n).
  - by exists (Slot_Wildcard parent).
  - by exists Slot_CatchAll.
Qed.

(** ** Identities of the counters *)

Lemma name_valid_no_star n k : name_valid n -> n <> chr "*" :: k.
Proof. intros [_ _ _ Hc _] ->. by apply Forall_cons in Hc as [? _]. Qed.

Lemma identity_host_inj s1 s2 :
  slot_valid s1 -> slot_valid s2 -> slot_identity_host s1 = slot_identity_host s2 -> s1 = s2.
Proof.
  destruct s1, s2; simpl; intros H1 H2 Heq; try congruence; try (by simplify_eq/=).
  - by destruct (name_valid_no_star _ _ H1 Heq).
  - by destruct (name_valid_no_star _ _ H1 Heq).
  - symmetry in Heq. by destruct (name_valid_no_star _ _ H2 Heq).
  - symmetry in Heq. by destruct (name_valid_no_star _ _ H2 Heq).
Qed.

Lemma slot_rules_keys ids drafts slot :
  NoDup (map draft_key drafts) ->
  NoDup (map (fun r => (rule_path r, rule_path_type r)) (slot_rules ids drafts slot)).
Proof.
  induction drafts as [|d rest IH]; simpl; intros Hnd; [constructor|].
  apply NoDup_cons in Hnd as [Hn Hnd]. unfold slot_rules. simpl.
  unfold draft_rule at 1. case_bool_decide as Hs; [|by apply IH].
  destruct (build_rule ids d) as [r|] eqn:Hr; [|by apply IH]. simpl.
  constructor; [|by apply IH]. intros (r'&Heq&Hin)%list_elem_of_fmap. simpl in Heq.
  apply list_elem_of_omap in Hin as (d'&Hd'&Hr'). unfold draft_rule in Hr'.
  case_bool_decide as Hs'; [|done]. destruct (build_rule ids d') as [r2|] eqn:Hr2; simplify_eq.
  apply build_rule_from in Hr as [_ Hp Ht _ _ _]. apply build_rule_from in Hr2 as [_ Hp2 Ht2 _ _ _].
  apply Hn. apply list_elem_of_fmap. exists d'. split; [|done]. unfold draft_key. congruence.
Qed.

Lemma NoDup_identities built (l : list (HostSlot * list PathRule)) :
  NoDup (map fst l) ->
  (forall slot rules, (slot, rules) ∈ l -> slot_valid slot /\
     NoDup (map (fun r => (rule_path r, rule_path_type r)) rules)) ->
  NoDup (flat_map (fun '(slot, rules) => map (identity_of built slot) rules) l).
Proof.
  induction l as [|[slot rules] l IH]; simpl; intros Hnd Hok; [constructor|].
  apply NoDup_cons in Hnd as [Hn Hnd]. destruct (Hok slot rules) as [Hv Hk]; [set_solver|].
  apply NoDup_app. split_and!.
  - apply (NoDup_fmap_1 (fun id => (id_path id, id_path_type id))).
    change (NoDup (map (fun id => (id_path id, id_path_type id)) (map (identity_of built slot) rules))).
    rewrite List.map_map. exact Hk.
  - intros id (r&->&_)%list_elem_of_fmap Hin.
    apply list_elem_of_In, in_flat_map in Hin as ([s rs]&Hin&Hid).
    apply in_map_iff in Hid as (r'&Heq&_). apply list_elem_of_In in Hin.
    destruct (Hok s rs) as [Hv' _]; [set_solver|].
    assert (s = slot) as -> by (apply identity_host_inj; [done|done|]; by apply (f_equal id_host) in Heq).
    apply Hn. apply list_elem_of_fmap. by exists (slot, rs).
  - apply IH; [done|]. intros. apply Hok. set_solver.
Qed.

(** The counters of a built table: no two routes share an identity, and every
    stored rule points at the position of its own. *)
Lemma build_identities b h store t h' store' :
  builder_wf b -> build b h store = Ok (t, h', store') ->
  exists ids, NoDup ids /\ rebuild_routes ids (b_previous_routes b) store = (routes t, store') /\
    forall slot v r, table_vhost t slot = Some v -> r ∈ vh_routes v ->
      slot_valid slot /\ exists n, rule_stats_index r = wrap32 (Z.of_nat n) /\
        ids !! n = Some (identity_of (backends t) slot r).
Proof.
  intros Hwf Hb. pose proof (build_built_from _ _ _ _ _ _ Hb) as Hf.
  apply build_phases in Hb as (buckets&Hg&Hv&Hrs&_&Hbk&_). rewrite <- Hbk in *.
  apply group_routes_Ok in Hg as (Hnd&_&Hok&Hbs&Hdom).
  destruct (map_iter_buckets buckets) as [Hk Hin].
  destruct (freeze_buckets_ok (backends t) _ Hk) as (F1&F2&F3&F4&F5).
  eexists. split; [|split; [exact Hrs|]].
  - rewrite F5. apply NoDup_identities; [done|]. intros slot rules Hsl%Hin. split.
    + destruct (Hdom slot) as [Hd _]. rewrite lookup_empty in Hd.
      destruct Hd as [[]|Hd]; [by eexists|done|].
      apply list_elem_of_fmap in Hd as (d&->&Hd). pose proof (wf_drafts _ Hwf) as Hdr.
      rewrite Forall_forall in Hdr. apply (do_slot _ (Hdr _ Hd)).
    + specialize (Hbs slot). rewrite Hsl, lookup_empty in Hbs. simpl in Hbs. rewrite Hbs.
      by apply slot_rules_keys.
  - intros slot v r Hs Hr. split.
    + destruct (vhost_rule_draft _ _ _ _ _ Hf Hs Hr) as (d&Hd&<-&_). pose proof (wf_drafts _ Hwf) as Hdr.
      rewrite Forall_forall in Hdr. apply (do_slot _ (Hdr _ Hd)).
    + rewrite Hv in Hs. apply list_elem_of_lookup in Hr as [i Hi]. eauto.
Qed.

(** ** When [build] refuses *)

(** The drafts accepted so far: no repeated key, every name registered. *)
Definition accepted (ids : gmap str BackendId) (drafts : list RouteDraft) : Prop :=
  NoDup (map draft_key drafts) /\ Forall (fun d => is_ok (build_rule ids d) = true) drafts.

(** The names a draft refers to, in the order they are resolved. *)
Definition draft_names (d : RouteDraft) : list str :=
  rd_backend d :: match rd_canary d with Some c => [cd_backend c] | None => [] end
  ++ match rd_mirror d with Some m => [md_backend m] | None => [] end.

(** The first thing wrong with a configuration, in declaration order. *)
Inductive first_offence (b : RouteTableBuilder) : BuildError -> Prop :=
| offence_duplicate l1 d l2 :
    b_routes b = l1 ++ d :: l2 -> accepted (b_backend_ids b) l1 ->
    draft_key d ∈ map draft_key l1 ->
    first_offence b (DuplicatePath (slot_display (rd_slot d)) (rd_path d) (rd_path_type d))
| offence_unknown l1 d l2 n1 name n2 :
    b_routes b = l1 ++ d :: l2 -> accepted (b_backend_ids b) l1 ->
    draft_key d ∉ map draft_key l1 ->
    draft_names d = n1 ++ name :: n2 ->
    Forall (fun n => is_Some (b_backend_ids b !! n)) n1 -> b_backend_ids b !! name = None ->
    first_offence b (UnknownBackend name (slot_display (rd_slot d) ++ rd_path d))
| offence_default name :
    accepted (b_backend_ids b) (b_routes b) ->
    b_default_backend b = Some name -> b_backend_ids b !! name = None ->
    first_offence b (UnknownBackend name (bstr "default backend")).

(** A configuration with nothing wrong. *)
Definition config_ok (b : RouteTableBuilder) : Prop :=
  NoDup (map draft_key (b_routes b)) /\
  (forall d n, d ∈ b_routes b -> n ∈ draft_names d -> is_Some (b_backend_ids b !! n)) /\
  (forall n, b_default_backend b = Some n -> is_Some (b_backend_ids b !! n)).

Lemma build_rule_Err ids d e :
  build_rule ids d = Err e ->
  exists n1 name n2, draft_names d = n1 ++ name :: n2 /\
    Forall (fun n => is_Some (ids !! n)) n1 /\ ids !! name = None /\
    e = UnknownBackend name (slot_display (rd_slot d) ++ rd_path d).
Proof.
  unfold build_rule, draft_names, resolve_backend, ok_or.
  destruct (ids !! rd_backend d) as [id|] eqn:Hid; simpl.
  2: { intros [= <-]. by eexists [], _, _. }
  assert (Hs : is_Some (ids !! rd_backend d)) by eauto.
  destruct (rd_canary d) as [c|]; simpl.
  - destruct (ids !! cd_backend c) as [cid|] eqn:Hc; simpl.
    2: { intros [= <-]. eexists [_], _, _. by repeat constructor. }
    assert (is_Some (ids !! cd_backend c)) by eauto.
    destruct (rd_mirror d) as [m|]; simpl; [|done].
    destruct (ids !! md_backend m) eqn:Hm; simpl; [done|].
    intros [= <-]. eexists [_; _], _, _. by repeat constructor.
  - destruct (rd_mirror d) as [m|]; simpl; [|done].
    destruct (ids !! md_backend m) eqn:Hm; simpl; [done|].
    intros [= <-]. eexists [_], _, _. by repeat constructor.
Qed.

Lemma build_rule_ok ids d :
  is_ok (build_rule ids d) = true <-> forall n, n ∈ draft_names d -> is_Some (ids !! n).
Proof.
  split.
  - unfold build_rule, draft_names, resolve_backend, ok_or.
    destruct (ids !! rd_backend d) eqn:?; simpl; [|done].
    destruct (rd_canary d) as [c|]; simpl; [destruct (ids !! cd_backend c) eqn:?; simpl; [|done]|];
    (destruct (rd_mirror d) as [m|]; simpl; [destruct (ids !! md_backend m) eqn:?; simpl; [|done]|]);
    intros _ n; rewrite ?elem_of_cons, ?elem_of_nil;
    intros; repeat match goal with Hor : _ \/ _ |- _ => destruct Hor as [->|Hor] end; eauto; done.
  - intros Hn. destruct (build_rule ids d) eqn:Hr; [done|].
    apply build_rule_Err in Hr as (n1&name&n2&Hd&_&Hno&_).
    destruct (Hn name) as [? ?]; [rewrite Hd; set_solver|congruence].
Qed.

Lemma accepted_snoc ids l d r :
  accepted ids l -> draft_key d ∉ map draft_key l -> build_rule ids d = Ok r ->
  accepted ids (l ++ [d]).
Proof.
  intros [Hnd Hok] Hn Hr. split.
  - rewrite List.map_app. apply NoDup_app. split_and!; [done| |apply NoDup_singleton].
    by intros x Hx ->%list_elem_of_singleton.
  - apply Forall_app. split; [done|]. constructor; [by rewrite Hr|done].
Qed.

Lemma group_routes_Err ids l1 drafts seen b0 e :
  accepted ids l1 -> (forall k, k ∈ seen <-> k ∈ map draft_key l1) ->
  group_routes ids drafts seen b0 = Err e ->
  exists l2 d l3, drafts = l2 ++ d :: l3 /\ accepted ids (l1 ++ l2) /\
    (draft_key d ∈ map draft_key (l1 ++ l2) /\
       e = DuplicatePath (slot_display (rd_slot d)) (rd_path d) (rd_path_type d) \/
     draft_key d ∉ map draft_key (l1 ++ l2) /\ build_rule ids d = Err e).
Proof.
  revert l1 seen b0. induction drafts as [|d rest IH]; intros l1 seen b0 Hacc Hseen; simpl; [done|].
  case_bool_decide as Hs.
  { intros [= <-]. exists [], d, rest. rewrite app_nil_r. split_and!; [done|done|left].
    split; [by apply Hseen|done]. }
  rewrite Hseen in Hs. destruct (build_rule ids d) as [r|e'] eqn:Hr; simpl.
  - assert (Hseen' : forall k, k ∈ {[draft_key d]} ∪ seen <-> k ∈ map draft_key (l1 ++ [d])).
    { intros k. rewrite List.map_app, elem_of_app, elem_of_union, elem_of_singleton.
      simpl. rewrite list_elem_of_singleton. specialize (Hseen k). tauto. }
    intros Hg. destruct (IH _ _ _ (accepted_snoc _ _ _ _ Hacc Hs Hr) Hseen' Hg) as (l2&d'&l3&->&Ha&Hd).
    exists (d :: l2), d', l3. rewrite <- app_assoc in Ha, Hd. done.
  - intros [= <-]. exists [], d, rest. rewrite app_nil_r. split_and!; [done|done|by right].
Qed.
(** The verdict of [build], and the converse of its success. *)
Lemma build_answer b h store :
  match build b h store with
  | Ok _ => config_ok b
  | Err e => first_offence b e /\ ~ config_ok b
  end.
Proof.
  destruct (build b h store) as [[[t h'] store']|e] eqn:Hb.
  - apply build_built_from in Hb as [Hk Hr _ _ _ Hd _ _]. split_and!; [done| |].
    + intros d n Hin. rewrite Forall_forall in Hr. by apply build_rule_ok, Hr.
    + intros n Hn. rewrite Hn in Hd. apply Hd.
  - unfold build in Hb. destruct (rebuild _ _ h) as [st h1].
    destruct (group_routes _ _ _ _) as [buckets|e'] eqn:Hg; simpl in Hb.
    + destruct (rebuild_routes _ _ store) as [rs store1].
      destruct (b_default_backend b) as [name|] eqn:Hdef; simpl in Hb; [|done].
      destruct (b_backend_ids b !! name) eqn:Hid; simpl in Hb; [done|]. injection Hb as <-.
      apply group_routes_Ok in Hg as (Hnd&_&Hok&_).
      split; [by apply offence_default|]. intros (_&_&Hd). destruct (Hd _ Hdef). congruence.
    + injection Hb as ->. assert (Hnil : accepted (b_backend_ids b) []).
      { split; [apply NoDup_nil_2|done]. }
      assert (Hseen : forall k, k ∈ (∅ : gset (HostSlot * str * PathType)) <-> k ∈ map draft_key [])
        by (intros k; simpl; rewrite elem_of_nil, elem_of_empty; done).
      destruct (group_routes_Err _ [] _ _ _ _ Hnil Hseen Hg)
        as (l2&d&l3&Hl&Hacc&Hd). simpl in *. destruct Hd as [[Hd ->]|[Hd He]].
      * split; [by eapply offence_duplicate|]. intros (Hnd&_&_). rewrite Hl, List.map_app in Hnd.
        apply NoDup_app in Hnd as (_&Hdis&_). apply (Hdis _ Hd). simpl. set_solver.
      * apply build_rule_Err in He as (n1&name&n2&Hn&Hall&Hno&->).
        split; [by eapply offence_unknown|]. intros (_&Hreg&_).
        destruct (Hreg d name) as [? ?]; [rewrite Hl; set_solver|rewrite Hn; set_solver|congruence].
Qed.
Lemma build_config_ok b h store : config_ok b -> exists r, build b h store = Ok r.
Proof.
  intros Hc. pose proof (build_answer b h store) as Hb. destruct (build b h store) as [r|e]; [by exists r|].
  by destruct Hb.
Qed.
End stored_rules.

(** ** Properties *)

Section builder_properties.
Context {E : RegexEngine} `{HashOrder}.

(** C9: The best rule answers.  In a built table, the rule a virtual host
    returns for a path comes from a draft registered for that host; no other
    draft of the host that matches the path has a better precedence (type
    rank, then longer prefix), and none registered earlier ties with it: the
    sort with its first-match scan picks the earliest of the best.  When the
    host returns nothing, no draft of that host matches. *)
Theorem best_rule_answers b h store t h' store' slot v path :
  build b h store = Ok (t, h', store') -> table_vhost t slot = Some v ->
  let ids := b_backend_ids b in
  let competes d r' := rd_slot d = slot /\ build_rule ids d = Ok r' /\ rule_matches r' path = true in
  match match_path v path with
  | Some r => exists l1 d l2, b_routes b = l1 ++ d :: l2 /\ competes d (erase_index r) /\
      (forall d' r', d' ∈ b_routes b -> competes d' r' -> rule_le r r' = true) /\
      (forall d' r', d' ∈ l1 -> competes d' r' -> rule_le r' r = false)
  | None => forall d' r', d' ∈ b_routes b -> ~ competes d' r'
  end.
Proof.
  intros Hb Hv. apply build_built_from in Hb. cbv zeta.
  pose proof (match_path_sorted _ _ _ _ path Hb Hv) as Hm.
  assert (Hcomp : forall d' r', d' ∈ b_routes b -> rd_slot d' = slot ->
    build_rule (b_backend_ids b) d' = Ok r' -> r' ∈ slot_rules (b_backend_ids b) (b_routes b) slot).
  { intros d' r' Hd' Hs' Hr'. apply list_elem_of_omap. exists d'. split; [done|].
    unfold draft_rule. by rewrite bool_decide_eq_true_2, Hr'. }
  destruct (match_path v path) as [r|]; simpl in Hm.
  - symmetry in Hm.
    destruct (find_first_sorted rule_le rule_le_total rule_le_trans _ _ _ Hm) as [Hbest Hfirst].
    apply find_first_omap in Hfirst as Hsplit. destruct Hsplit as (l1&d&l2&Hl&Hd&Hl1).
    apply find_first_elem in Hfirst as [_ Hmatch]. bools.
    unfold draft_rule in Hd. case_bool_decide as Hs; [|done].
    destruct (build_rule _ d) as [r0|] eqn:Hr0; [|done]. injection Hd as ->.
    exists l1, d, l2. split_and!; try done.
    + intros d' r' Hin (Hs'&Hr'&Hm'). rewrite <- (rule_le_erase r r').
      rewrite (build_rule_erased _ _ _ Hr'). eauto.
    + intros d' r' Hin (Hs'&Hr'&Hm'). rewrite Forall_forall in Hl1.
      specialize (Hl1 d' Hin r'). unfold draft_rule in Hl1.
      rewrite bool_decide_eq_true_2, Hr' in Hl1 by done. specialize (Hl1 eq_refl).
      assert (Hle : rule_le r r' = true).
      { rewrite <- (rule_le_erase r r'), (build_rule_erased _ _ _ Hr').
        apply Hbest; [|done]. apply (Hcomp d'); [|done..]. rewrite Hl. set_solver. }
      change (rule_le (erase_index r) r') with (rule_le r r') in Hl1.
      change (rule_le r' (erase_index r)) with (rule_le r' r) in Hl1.
      rewrite Hle, Hm' in Hl1. by destruct (rule_le r' r).
  - symmetry in Hm. apply find_first_None in Hm. rewrite sort_by_perm in Hm.
    intros d' r' Hin (Hs'&Hr'&Hm'). rewrite Forall_forall in Hm.
    specialize (Hm r' (Hcomp _ _ Hin Hs' Hr')). congruence.
Qed.

(** C15: A built table has no dangling reference.  For a builder reached
    through the public methods (with fewer than 2^32 backends), every request
    whose host and path select a rule is answered with that rule's backend,
    the one its draft named; the canary and the mirror of the rule point at
    existing backends too, with a weight within its positive total and a
    percentage within 100, as [decide] and [sample] rely on. *)
Theorem built_table_closed b h store t h' store' host path v hm r :
  builder_reachable b -> Z.of_nat (length (b_backends b)) < 2 ^ 32 ->
  build b h store = Ok (t, h', store') ->
  claims t (normalize host) v hm -> first_match v path r ->
  exists bk d, match_request t host path = Some (MkMatchResult bk (Some r) hm) /\
    d ∈ b_routes b /\ backend_name bk = rd_backend d /\
    rule_path r = rd_path d /\ rule_path_type r = rd_path_type d /\
    (forall c, rule_canary r = Some c -> is_Some (table_backend t (canary_backend c)) /\
       canary_bounds (canary_weight c) (canary_weight_total c)) /\
    (forall m, rule_mirror r = Some m -> is_Some (table_backend t (mirror_backend m)) /\
       0 <= mirror_percent m <= MIRROR_PERCENT_TOTAL).
Proof.
  intros Hr Hlen Hb Hc Hf. apply reachable_wf in Hr as Hwf. apply build_built_from in Hb.
  destruct (claims_slot _ _ _ _ Hc) as [slot Hs].
  assert (Hin : r ∈ vh_routes v) by (destruct Hf as (l1&l2&->&_); set_solver).
  destruct (vhost_rule_draft _ _ _ _ _ Hb Hs Hin) as (d&Hd&_&[Rb Rp Rt _ Rc Rm]).
  destruct (registered_backend _ _ _ _ Hwf Hb Hlen Rb) as (bk&Hbk&Hname).
  assert (Hok : draft_ok d).
  { pose proof (wf_drafts _ Hwf) as Hdr. rewrite Forall_forall in Hdr. auto. }
  exists bk, d. split_and!; try done.
  - eapply answers_deterministic; [apply match_request_answers|].
    assert (Hh : Some (MkMatchResult bk (Some r) hm) = hit t r hm) by (unfold hit; by rewrite Hbk).
    rewrite Hh. by eapply answers_rule.
  - intros c (c0&Hc0&Hid&->&->)%Rc. split; [|by apply (do_canary _ Hok)].
    destruct (registered_backend _ _ _ _ Hwf Hb Hlen Hid) as (?&?&_). eauto.
  - intros m (m0&Hm0&Hid&->)%Rm.
    destruct (registered_backend _ _ _ _ Hwf Hb Hlen Hid) as (?&?&_). split; [eauto|].
    pose proof (do_mirror _ Hok _ Hm0). unfold MIRROR_PERCENT_TOTAL in *. lia.
Qed.

(** A configured host is served under every spelling.  Let a route be
    drafted for the Ingress host [cfg].  In the built table, any client
    spelling of that name - upper or lower case, with or without root dot and
    port - is claimed by the exact virtual host; for a [*.parent] host, so is
    every name one label deeper that fits a DNS name and has no exact entry. *)
Theorem configured_host_is_served b h store t h' store' d cfg dot port :
  build b h store = Ok (t, h', store') -> d ∈ b_routes b ->
  normalize_config_host cfg = Ok (rd_slot d) -> utf8_valid cfg = true -> unbracketed cfg ->
  utf8_valid (port_suffix port) = true ->
  match rd_slot d with
  | Slot_Exact n => forall r, lower r = n -> exists v,
      hosts t !! n = Some v /\
      claims t (normalize (r ++ dot_suffix dot ++ port_suffix port)) v HostMatch_Exact
  | Slot_Wildcard p => forall label r, lower r = label ++ chr "." :: p ->
      label <> [] -> chr "." ∉ label -> no_colon label -> unbracketed label ->
      utf8_valid label = true -> (length r <= MAX_HOST_LEN)%nat -> hosts t !! lower r = None ->
      exists v, wildcard_hosts t !! p = Some v /\
      claims t (normalize (r ++ dot_suffix dot ++ port_suffix port)) v HostMatch_Wildcard
  | Slot_CatchAll => False
  end.
Proof.
  intros Hb Hd Hcfg Hu Hbr Hp. apply build_built_from in Hb.
  apply config_host_valid in Hcfg as Hv.
  assert (Hs : is_Some (table_vhost t (rd_slot d))).
  { apply (bf_slots _ _ Hb). by apply (list_elem_of_fmap_2 rd_slot). }
  apply config_host_parts in Hcfg as (wild&n0&k&Hcfg&Hslot&Hne&_&_&Hch).
  assert (Hun : utf8_valid n0 = true).
  { assert (Hx : forall pre, utf8_valid pre = true -> utf8_valid (pre ++ n0 ++ replicate k 46) = true ->
      utf8_valid n0 = true).
    { intros pre Hpre. rewrite utf8_valid_app by done. destruct k; simpl; [by rewrite app_nil_r|].
      intros Hx. by apply (utf8_valid_split n0 46) in Hx as [? _]. }
    destruct wild; rewrite Hcfg in Hu; (eapply Hx; [|exact Hu]; done). }
  assert (Hcol : no_colon (lower n0)).
  { unfold no_colon, lower. apply Forall_map. eapply Forall_impl; [exact Hch|].
    intros c. simpl. rewrite to_ascii_lowercase_eqb by done. unfold forbidden_host_char. lia. }
  destruct wild; rewrite Hslot in Hs, Hv |- *; simpl in Hs, Hv; destruct Hs as [v Hs], Hv as [V1 V2 V3 V4 V5].
  - intros label r Hr Hl Hldot Hlc Hlb Hlu Hlen Hx. exists v. split; [done|].
    rewrite (normalize_spelling (lower r)); try done.
    + rewrite Hr in Hx |- *. by eapply claims_wildcard.
    + split; rewrite ?Hr.
      * by destruct label.
      * by rewrite <- Hr, length_lower.
      * by rewrite <- Hr, lower_idem.
      * apply Forall_app. split; [done|]. by constructor.
      * by destruct label.
      * rewrite last_app, last_cons. destruct (last (lower n0)) eqn:El; [done|].
        by apply last_None in El.
      * rewrite utf8_valid_app by done. cbn [utf8_valid]. simpl. by rewrite utf8_valid_lower.
  - intros r Hr. exists v. split; [done|]. rewrite (normalize_spelling (lower n0)); try done.
    + by constructor.
    + split; try done; [|by rewrite utf8_valid_lower].
      rewrite app_nil_l in Hcfg. unfold unbracketed in *. rewrite Hcfg in Hbr.
      destruct n0 as [|c n0]; [done|]. simpl in *. intros [= Hc]. apply Hbr. f_equal.
      pose proof (to_ascii_lowercase_eqb c 91 eq_refl eq_refl). lia.
Qed.

(** Route counters follow identity.  When a table is built over the
    counters of its predecessor, every stored rule indexes the block of its
    own identity (host, path, type, backend): the predecessor's block if it
    had one, a fresh zeroed one otherwise; two rules with the same index are
    the same route, so no two routes share counters; and the new counters are
    again well formed for the next generation. *)
Theorem route_counters_follow_identity b h store t h' store' slot v r :
  builder_reachable b ->
  (forall p, b_previous_routes b = Some p -> route_stats_ok store p) ->
  build b h store = Ok (t, h', store') ->
  Z.of_nat (length (route_slots (routes t))) < 2 ^ 32 ->
  table_vhost t slot = Some v -> r ∈ vh_routes v ->
  route_stats_ok store' (routes t) /\
  (exists l, route_slot (routes t) (rule_stats_index r) = Some l /\
    match previous_route (b_previous_routes b) (identity_of (backends t) slot r) with
    | Some l0 => l = l0
    | None => store' !! l = Some RouteSlot_default /\ (length store <= l)%nat
    end) /\
  forall slot' v' r', table_vhost t slot' = Some v' -> r' ∈ vh_routes v' ->
    rule_stats_index r' = rule_stats_index r ->
    slot' = slot /\ rule_path r' = rule_path r /\ rule_path_type r' = rule_path_type r.
Proof.
  intros Hr Hp Hb Hlen Hs Hin. apply reachable_wf in Hr.
  destruct (build_identities _ _ _ _ _ _ Hr Hb) as (ids&Hnd&Hrs&Hrules).
  destruct (rebuild_routes_spec _ _ _ _ _ Hp Hnd Hrs) as (_&Hl&Hnds&Hok&Hat).
  assert (Hw : forall n id, ids !! n = Some id -> Z.to_nat (wrap32 (Z.of_nat n)) = n).
  { intros n id Hn%lookup_lt_Some. unfold wrap32. rewrite wrap_small by lia. lia. }
  destruct (Hrules _ _ _ Hs Hin) as (Hv&n&Hn&Hid).
  split; [done|split].
  - destruct (Hat _ _ Hid) as (l&Hsl&_&Hprev). exists l. unfold route_slot. rewrite Hn, (Hw _ _ Hid).
    split; [done|]. destruct Hprev as [-> | (->&?)]; [done|done].
  - intros slot' v' r' Hs' Hin' Heq. destruct (Hrules _ _ _ Hs' Hin') as (Hv'&n'&Hn'&Hid').
    assert (n' = n) as ->.
    { rewrite <- (Hw _ _ Hid), <- (Hw _ _ Hid'). congruence. }
    rewrite Hid in Hid'. injection Hid' as Hh Hpath Htype _.
    split_and!; [by apply identity_host_inj|done|done].
Qed.

(** Validation is exact.  [build] succeeds precisely when no two drafts
    share host, path and path type and every name a route, a canary, a mirror
    or the default refers to is registered; otherwise it reports the first
    offending draft in declaration order with the matching error. *)
Theorem build_verdict b h store :
  match build b h store with
  | Ok _ => config_ok b
  | Err e => first_offence b e /\ ~ config_ok b
  end.
Proof. apply build_answer. Qed.
End builder_properties.

(** ** Witnesses: a small configuration, built *)

#[local] Existing Instance literal_engine.
#[local] Existing Instance listed_order.

Definition or_new (r : result BuildError RouteTableBuilder) : RouteTableBuilder :=
  match r with Ok b => b | Err _ => builder_new end.
Definition demo_b0 : RouteTableBuilder :=
  or_new (x ← register_backend builder_new (bstr "api") RoundRobin [Endpoint_new (demo_addr 8080)]; Ok x.2).
Definition demo_add (b : RouteTableBuilder) (host path : str) :=
  route_with b (Some host) path Prefix (bstr "api") RouteOptions_default.
Definition demo_b1 : RouteTableBuilder := or_new (demo_add demo_b0 (bstr "Example.com.") (bstr "/")).
Definition demo_b2 : RouteTableBuilder := or_new (demo_add demo_b1 (bstr "Example.com") (bstr "/v1/")).
Definition demo_builder : RouteTableBuilder :=
  or_new (demo_add demo_b2 (bstr "*.example.org") (bstr "/")).
Definition demo_built : RouteTable * Heap * RouteStore :=
  match build demo_builder heap_empty [] with
  | Ok x => x
  | Err _ => (Table.demo_table 0, heap_empty, [])
  end.
Definition demo_vhost : VirtualHost :=
  default (MkVirtualHost []) (table_vhost demo_built.1.1 (Slot_Exact (bstr "example.com"))).
Definition demo_rule : PathRule :=
  default (PathRule_new [] Exact None (MkBackendId 0) None) (match_path demo_vhost (bstr "/v1/users")).

Lemma demo_build_Ok :
  build demo_builder heap_empty [] = Ok (demo_built.1.1, demo_built.1.2, demo_built.2).
Proof.
  vm_cast_no_check (eq_refl (Ok (demo_built.1.1, demo_built.1.2, demo_built.2)
    : result BuildError (RouteTable * Heap * RouteStore))).
Qed.
Lemma demo_vhost_found : table_vhost demo_built.1.1 (Slot_Exact (bstr "example.com")) = Some demo_vhost.
Proof. vm_compute. reflexivity. Qed.
Lemma demo_rule_found : match_path demo_vhost (bstr "/v1/users") = Some demo_rule.
Proof. vm_compute. reflexivity. Qed.

Lemma demo_no_options : options_typed RouteOptions_default.
Proof. by split. Qed.
Lemma demo_step b host path b' : demo_add b host path = Ok b' -> builder_step b b'.
Proof. apply (builder_step_route _ _ _ _ _ _ _ demo_no_options). Qed.
Lemma demo_reachable_builder : builder_reachable demo_builder.
Proof.
  apply reachable_new. apply (rtc_l _ _ demo_b0).
  { apply (builder_step_backend _ (bstr "api") [Endpoint_new (demo_addr 8080)]
      (MkBackendOptions RoundRobin Http1) (MkBackendId 0)). vm_compute. reflexivity. }
  apply (rtc_l _ _ demo_b1); [apply (demo_step _ (bstr "Example.com.") (bstr "/")); vm_compute; reflexivity|].
  apply (rtc_l _ _ demo_b2); [apply (demo_step _ (bstr "Example.com") (bstr "/v1/")); vm_compute; reflexivity|].
  apply rtc_once, (demo_step _ (bstr "*.example.org") (bstr "/")). vm_compute. reflexivity.
Qed.

Lemma best_rule_answers_witness :
  exists l1 d l2, b_routes demo_builder = l1 ++ d :: l2 /\
    build_rule (b_backend_ids demo_builder) d = Ok (erase_index demo_rule).
Proof.
  pose proof (best_rule_answers demo_builder heap_empty [] demo_built.1.1 demo_built.1.2 demo_built.2
    (Slot_Exact (bstr "example.com")) demo_vhost (bstr "/v1/users")) as Hp.
  cbv zeta in Hp. rewrite demo_rule_found in Hp.
  destruct Hp as (l1&d&l2&Hl&(_&Hb&_)&_); [exact demo_build_Ok|exact demo_vhost_found|].
  exists l1, d, l2. split; [exact Hl|exact Hb].
Defined.

Lemma demo_claims : claims demo_built.1.1 (normalize (bstr "EXAMPLE.COM:80")) demo_vhost HostMatch_Exact.
Proof. apply (claims_exact _ (bstr "example.com")). vm_compute. reflexivity. Qed.

Lemma built_table_closed_witness :
  exists bk d, match_request demo_built.1.1 (bstr "EXAMPLE.COM:80") (bstr "/v1/users")
    = Some (MkMatchResult bk (Some demo_rule) HostMatch_Exact) /\
    d ∈ b_routes demo_builder /\ backend_name bk = rd_backend d.
Proof.
  destruct (built_table_closed demo_builder heap_empty [] demo_built.1.1 demo_built.1.2 demo_built.2
    (bstr "EXAMPLE.COM:80") (bstr "/v1/users") demo_vhost HostMatch_Exact demo_rule
    demo_reachable_builder) as (bk&d&Hm&Hd&Hn&_).
  - vm_compute. reflexivity.
  - exact demo_build_Ok.
  - apply demo_claims.
  - apply match_path_Some, demo_rule_found.
  - exists bk, d. split; [exact Hm|]. split; [exact Hd|exact Hn].
Defined.

Definition demo_draft : RouteDraft :=
  default (MkRouteDraft Slot_CatchAll [] Exact None [] None None) (head (b_routes demo_builder)).

Lemma configured_host_is_served_witness :
  exists v, hosts demo_built.1.1 !! bstr "example.com" = Some v /\
    claims demo_built.1.1 (normalize (bstr "eXample.COM.:8443")) v HostMatch_Exact.
Proof.
  pose proof (configured_host_is_served demo_builder heap_empty [] demo_built.1.1 demo_built.1.2
    demo_built.2 demo_draft (bstr "Example.com.") true (Some (bstr "8443")) demo_build_Ok) as Hp.
  assert (Hs : rd_slot demo_draft = Slot_Exact (bstr "example.com")) by (vm_compute; reflexivity).
  rewrite Hs in Hp. apply (Hp ltac:(vm_compute; left) eq_refl eq_refl ltac:(vm_compute; discriminate)
    eq_refl (bstr "eXample.COM") eq_refl).
Defined.

Lemma route_counters_follow_identity_witness :
  exists l, route_slot (routes demo_built.1.1) (rule_stats_index demo_rule) = Some l /\
    demo_built.2 !! l = Some RouteSlot_default.
Proof.
  destruct (route_counters_follow_identity demo_builder heap_empty [] demo_built.1.1 demo_built.1.2
    demo_built.2 (Slot_Exact (bstr "example.com")) demo_vhost demo_rule demo_reachable_builder)
    as (_&(l&Hl&Hs&_)&_).
  - vm_compute. discriminate.
  - exact demo_build_Ok.
  - vm_compute. reflexivity.
  - exact demo_vhost_found.
  - apply (find_first_elem _ _ _ demo_rule_found).
  - exists l. split; [exact Hl|exact Hs].
Defined.

(** Rejections, as the source's tests list them. *)
Definition rejection {A} (r : result BuildError A) : option BuildError :=
  match r with Ok _ => None | Err e => Some e end.
Example host_with_port : normalize_config_host (bstr "example.com:80")
  = Err (HostSyntax (bstr "example.com:80") (chr ":")).
Proof. reflexivity. Qed.
Example inner_star : normalize_config_host (bstr "foo.*.com") = Err (WildcardShape (bstr "foo.*.com")).
Proof. reflexivity. Qed.
Example bare_star : normalize_config_host (bstr "*.") = Err (WildcardShape (bstr "*")).
Proof. reflexivity. Qed.
Example wildcard_folds : normalize_config_host (bstr "*.Example.COM") = Ok (Slot_Wildcard (bstr "example.com")).
Proof. reflexivity. Qed.
Example weight_above_total :
  rejection (canary_draft (MkCanaryRules (bstr "c") None None None None 150 0) Slot_CatchAll (bstr "/"))
  = Some (CanaryWeight 150 100).
Proof. reflexivity. Qed.
