(* ===== verification/Rng.v ===== *)
(** The per-thread random source: [crates/ramjet-engine/src/rng.rs].

    The thread-local cell is explicit state.  [seed] takes the clock and the
    counter it reads; that counter is itself thread local, so it is 0 on every
    thread when the seed is drawn. *)

From S2P Require Import Prelude.

Definition HEX : bytes := bstr "0123456789abcdef".

(** [<<], [>>], [^] and [wrapping_mul] on a [u64]. *)
Definition shl64 (x : u64) (k : Z) : u64 := wrap64 (Z.shiftl x k).
Definition wrapping_mul64 (x y : u64) : u64 := wrap64 (x * y).

(** The seed, and the counter left behind. *)
Definition seed (nanos counter : u64) : u64 * u64 :=
  let n := wrap64 (counter + 1) in
  let z := Z.lxor nanos (wrapping_mul64 n 11400714819323198485) in
  let z := wrapping_mul64 (Z.lxor z (Z.shiftr z 30)) 13787848793156543929 in
  let z := wrapping_mul64 (Z.lxor z (Z.shiftr z 27)) 10723151780598845931 in
  (Z.lor (Z.lxor z (Z.shiftr z 31)) 1, n).

(** The state of a thread that starts at [nanos]: its own counter is new. *)
Definition thread_state (nanos : u64) : u64 := (seed nanos 0).1.

(** [next_u64]: the word drawn is the new state. *)
Definition next_u64 (state : u64) : u64 :=
  let x := state in
  let x := Z.lxor x (shl64 x 13) in
  let x := Z.lxor x (Z.shiftr x 7) in
  Z.lxor x (shl64 x 17).

(** [below]: the number and the state it leaves. *)
Definition below (bound : u32) (state : u64) : u32 * u64 :=
  if bound =? 0 then (0, state)
  else
    let word := next_u64 state in
    (wrap32 (Z.shiftr (word * bound) 64), word).

Definition hex_half (word : u64) : bytes :=
  map (fun nibble => nth (Z.to_nat (Z.land (Z.shiftr word (60 - Z.of_nat nibble * 4)) 15)) HEX 0)
    (seq 0 16).
(** [hex_id]: 32 characters, and the state after two draws. *)
Definition hex_id (state : u64) : bytes * u64 :=
  let first := next_u64 state in
  let second := next_u64 first in
  (hex_half first ++ hex_half second, second).

(** Any number of draws. *)
Fixpoint draws (n : nat) (state : u64) : u64 :=
  match n with 0%nat => state | S n' => draws n' (next_u64 state) end.

(** ** Lemmas *)

Lemma fits_log2 a : 0 <= a -> fits 64 a <-> Z.log2 a < 64.
Proof.
  intros Ha. unfold fits. destruct (Z.eq_dec a 0) as [->|Hne]; [by split|].
  rewrite <- Z.log2_lt_pow2 by lia. lia.
Qed.

Lemma fits_lxor a b : fits 64 a -> fits 64 b -> fits 64 (Z.lxor a b).
Proof.
  intros Ha Hb. assert (0 <= a /\ 0 <= b) as [Ha0 Hb0] by (unfold fits in *; lia).
  apply fits_log2 in Ha, Hb; [|done..]. apply fits_log2; [by apply Z.lxor_nonneg|].
  pose proof (Z.log2_lxor a b Ha0 Hb0). lia.
Qed.

Lemma fits_lor a b : fits 64 a -> fits 64 b -> fits 64 (Z.lor a b).
Proof.
  intros Ha Hb. assert (0 <= a /\ 0 <= b) as [Ha0 Hb0] by (unfold fits in *; lia).
  apply fits_log2 in Ha, Hb; [|done..]. apply fits_log2; [apply Z.lor_nonneg; lia|].
  rewrite Z.log2_lor by done. lia.
Qed.

Lemma fits_wrap x : fits 64 (wrap64 x).
Proof. apply wrap_range. lia. Qed.

Lemma fits_shiftr x k : 0 <= k -> fits 64 x -> fits 64 (Z.shiftr x k).
Proof.
  unfold fits. intros Hk Hx. rewrite Z.shiftr_div_pow2 by done. split.
  - apply Z.div_pos; [lia|]. by apply Z.pow_pos_nonneg.
  - eapply Z.le_lt_trans; [|apply Hx]. apply Z.div_le_upper_bound; [by apply Z.pow_pos_nonneg|].
    assert (1 <= 2 ^ k) by (assert (0 < 2 ^ k) by (by apply Z.pow_pos_nonneg); lia). nia.
Qed.

Lemma lxor_nonzero a b : a <> b -> Z.lxor a b <> 0.
Proof. intros H Hx. by apply Z.lxor_eq in Hx. Qed.

(** No word but 0 is its own left or right shift. *)
Lemma shl64_fixed x k :
  0 < k -> Z.gcd (2 ^ 64) (2 ^ k - 1) = 1 -> fits 64 x -> x = shl64 x k -> x = 0.
Proof.
  unfold shl64, wrap64, wrap, fits. intros Hk Hg Hx Heq. rewrite Z.shiftl_mul_pow2 in Heq by lia.
  assert (Hd : (2 ^ 64 | (2 ^ k - 1) * x)).
  { exists (x * 2 ^ k / 2 ^ 64). pose proof (Z.div_mod (x * 2 ^ k) (2 ^ 64) ltac:(done)). lia. }
  apply Z.gauss in Hd; [|done]. destruct Hd as [q ->]. assert (q = 0) by lia. by subst.
Qed.

Lemma shiftr_fixed x k : 0 < k -> 0 <= x -> x = Z.shiftr x k -> x = 0.
Proof.
  intros Hk Hx Heq. rewrite Z.shiftr_div_pow2 in Heq by lia.
  assert (1 < 2 ^ k) by (apply Z.pow_gt_1; lia).
  destruct (Z.eq_dec x 0) as [|Hne]; [done|]. pose proof (Z.div_lt x (2 ^ k)). lia.
Qed.

(** A live state: a [u64] that is not 0. *)
Definition live (x : u64) : Prop := fits 64 x /\ x <> 0.

Lemma next_u64_live x : live x -> live (next_u64 x).
Proof.
  intros [Hx Hnz]. unfold next_u64. cbv zeta.
  set (y := Z.lxor x (shl64 x 13)). assert (Hy : live y).
  { split; [apply fits_lxor; [done|apply fits_wrap]|]. apply lxor_nonzero. intros H.
    by apply shl64_fixed in H. }
  destruct Hy as [Hy Hynz]. set (z := Z.lxor y (Z.shiftr y 7)). assert (Hz : live z).
  { split; [by apply fits_lxor, fits_shiftr|]. apply lxor_nonzero. intros H.
    apply shiftr_fixed in H; unfold fits in *; (done || lia). }
  destruct Hz as [Hz Hznz]. split; [apply fits_lxor; [done|apply fits_wrap]|]. apply lxor_nonzero.
  intros H. by apply shl64_fixed in H.
Qed.

Lemma draws_live n x : live x -> live (draws n x).
Proof. revert x. induction n as [|n IH]; intros x Hx; [done|]. by apply IH, next_u64_live. Qed.

Lemma seed_live nanos counter : live (seed nanos counter).1.
Proof.
  unfold seed. simpl. set (z := wrapping_mul64 _ 10723151780598845931).
  assert (fits 64 z) by apply fits_wrap. split.
  - apply fits_lor; [by apply fits_lxor, fits_shiftr|done].
  - intros Hz. apply Z.lor_eq_0_iff in Hz. lia.
Qed.

Lemma below_bound bound x : fits 32 bound -> live x -> 0 <= (below bound x).1 /\
  (bound <> 0 -> (below bound x).1 < bound).
Proof.
  intros Hb Hx. unfold below. destruct (bound =? 0) eqn:E; [simpl; lia|]. simpl.
  apply next_u64_live in Hx as [Hx _]. set (w := next_u64 x) in *. unfold fits in *.
  rewrite Z.shiftr_div_pow2 by lia.
  assert (Hq : 0 <= w * bound / 2 ^ 64 < bound).
  { split; [apply Z.div_pos; lia|]. apply Z.div_lt_upper_bound; [lia|]. nia. }
  unfold wrap32. rewrite wrap_small; lia.
Qed.

Lemma hex_half_ok w : length (hex_half w) = 16%nat /\ Forall (fun b => b ∈ HEX) (hex_half w).
Proof.
  split; [done|]. unfold hex_half. apply Forall_forall. intros b Hb. apply list_elem_of_In in Hb.
  apply List.in_map_iff in Hb as (n&<-&_). apply list_elem_of_In, List.nth_In.
  set (d := Z.land _ 15). assert (0 <= d < 16); [|change (length HEX) with 16%nat; lia].
  unfold d. change 15 with (Z.ones 4). rewrite Z.land_ones by lia. apply Z.mod_pos_bound. lia.
Qed.

(** * Properties *)

(** The generator never gets stuck and never leaves its bounds.  From any
    seed, after any number of draws, the state is a non-zero 64-bit word (0 is
    the state xorshift cannot leave); a roll below [bound] is below it, so a
    canary weight or a mirror percentage is compared with a roll of its own
    range; and a request id is 32 lower-case hexadecimal characters. *)
Theorem rng_sound (nanos counter : u64) (n : nat) :
  let state := draws n (seed nanos counter).1 in
  state <> 0 /\ fits 64 state /\
  (forall bound, fits 32 bound -> 0 <= (below bound state).1 /\
     (bound <> 0 -> (below bound state).1 < bound)) /\
  length (hex_id state).1 = 32%nat /\ Forall (fun b => b ∈ HEX) (hex_id state).1.
Proof.
  intros x. pose proof (draws_live n _ (seed_live nanos counter)) as Hl. fold x in Hl. clearbody x.
  destruct (hex_half_ok (next_u64 x)) as [H1 H2], (hex_half_ok (next_u64 (next_u64 x))) as [H3 H4].
  split_and!; [apply Hl|apply Hl| | |].
  - intros bound Hb. by apply below_bound.
  - unfold hex_id. cbn [fst]. by rewrite length_app, H1, H3.
  - unfold hex_id. cbn [fst]. by apply Forall_app.
Qed.

Lemma rng_sound_witness : 0 <= (below 100 (draws 3 (thread_state 12345))).1 < 100.
Proof.
  destruct (rng_sound 12345 0 3) as (_&_&Hb&_). destruct (Hb 100) as [H1 H2]; [by split|].
  split; [exact H1|by apply H2].
Defined.
