(* ===== verification/Helper.v ===== *)
(** The helper thread and its notes: [crates/ramjet-engine/src/helper.rs].

    A note is twelve little-endian bytes; [feed] reassembles them from a pipe
    that may split them anywhere.  One turn of the thread's loop is
    [helper_turn]: the answers of [poll], of the job channel, of the clock, of
    [SO_ERROR] and of the pipe writes are its arguments.  Error numbers and
    poll bits have their Linux values. *)

From S2P Require Import Prelude.

(** ** Notes *)

Definition NOTE_LEN : usize := 12.
Definition KIND_TICK : u32 := 0.
Definition KIND_CONNECT : u32 := 1.

Inductive Note :=
| Tick
| Connected (fd err : Z).
#[export] Instance Note_eq_dec : EqDecision Note.
Proof. solve_decision. Defined.

(** [u32::to_le_bytes], and [i32::to_le_bytes] through the cast to [u32]. *)
Definition to_le_bytes (x : Z) : bytes :=
  map (fun i => wrap8 (Z.shiftr (wrap32 x) (8 * i))) [0; 1; 2; 3].
Definition from_le_bytes (l : bytes) : u32 := foldr (fun b acc => b + 256 * acc) 0 l.
(** [as i32]. *)
Definition as_i32 (x : u32) : Z := if x <? 2 ^ 31 then x else x - 2 ^ 32.

Definition encode (n : Note) : bytes :=
  let '(fd, kind, err) :=
    match n with
    | Tick => (0, KIND_TICK, 0)
    | Connected fd err => (fd, KIND_CONNECT, err)
    end in
  to_le_bytes fd ++ to_le_bytes kind ++ to_le_bytes err.

Definition decode (b : bytes) : option Note :=
  if (length b <? NOTE_LEN)%nat then None
  else
    let fd := as_i32 (from_le_bytes (take 4 b)) in
    let kind := from_le_bytes (take 4 (drop 4 b)) in
    let err := as_i32 (from_le_bytes (take 4 (drop 8 b))) in
    Some (if kind =? KIND_CONNECT then Connected fd err else Tick).

(** The [while] loop over [partial]; the fuel is its length. *)
Fixpoint drain_notes (fuel : nat) (partial : bytes) : list Note * bytes :=
  match fuel with
  | O => ([], partial)
  | S fuel' =>
      if (NOTE_LEN <=? length partial)%nat then
        let '(notes, rest) := drain_notes fuel' (drop NOTE_LEN partial) in
        (option_list (decode (take NOTE_LEN partial)) ++ notes, rest)
      else ([], partial)
  end.

(** [chunks_exact(n)]. *)
Fixpoint chunks_exact (n fuel : nat) (l : bytes) : list bytes :=
  match fuel with
  | O => []
  | S fuel' => if (n <=? length l)%nat then take n l :: chunks_exact n fuel' (drop n l) else []
  end.

(** [NoteReader::feed]: the notes called out, and the new [partial]. *)
Definition feed (partial input : bytes) : list Note * bytes :=
  match partial with
  | _ :: _ => drain_notes (length (partial ++ input)) (partial ++ input)
  | [] =>
      let whole := (length input / NOTE_LEN * NOTE_LEN)%nat in
      (omap decode (chunks_exact NOTE_LEN (length input) (take whole input)), drop whole input)
  end.

(** Reads one after the other. *)
Fixpoint feed_all (partial : bytes) (reads : list bytes) : list Note * bytes :=
  match reads with
  | [] => ([], partial)
  | r :: rest =>
      let '(notes, partial) := feed partial r in
      let '(more, partial) := feed_all partial rest in
      (notes ++ more, partial)
  end.

(** ** One turn of the thread *)

Definition POLLIN : Z := 1.
Definition POLLOUT : Z := 4.
Definition POLLERR : Z := 8.
Definition POLLHUP : Z := 16.
Definition POLLNVAL : Z := 32.
Definition EIO : Z := 5.
Definition EBADF : Z := 9.
Definition ECONNRESET : Z := 104.
Definition ETIMEDOUT : Z := 110.
Definition ECANCELED : Z := 125.

Definition has (revents bits : Z) : bool := negb (Z.land revents bits =? 0).

Record Job := MkJob { job_fd : Z; job_core : nat; job_deadline : Z }.

Record Helper := MkHelper {
  wake : Z;
  writers : list Z;
  pending : list Job;
  backlog : list (list bytes);
  next_tick : Z;
}.

(** The descriptors given to [poll], in order, with their events. *)
Definition poll_fds (h : Helper) : list (Z * Z) :=
  (wake h, POLLIN)
  :: map (fun j => (job_fd j, POLLOUT)) (pending h)
  ++ omap (fun '(w, queue) => match queue with [] => None | _ => Some (w, POLLOUT) end)
       (zip (writers h) (backlog h)).

(** [push], through [&mut backlog[core]]: [None] is the panic out of range. *)
Definition push (backlog : list (list bytes)) (core : nat) (n : Note) : option (list (list bytes)) :=
  queue ← backlog !! core; Some (<[core := queue ++ [encode n]]> backlog).

(** [Vec::swap_remove]. *)
Definition swap_remove {A} (l : list A) (i : nat) : list A :=
  match last l with
  | None => l
  | Some x => if (S i =? length l)%nat then removelast l else <[i := x]> (removelast l)
  end.

(** The errno of a connect that is over: [sock] is what [socket_error] gives. *)
Definition connect_error (revents : Z) (timed_out : bool) (sock : result (option Z) Z) : Z :=
  if has revents POLLNVAL then EBADF
  else if timed_out && (revents =? 0) then ETIMEDOUT
  else match sock with
       | Ok code => if (code =? 0) && has revents (Z.lor POLLERR POLLHUP) then ECONNRESET else code
       | Err e => default EIO e
       end.

Section turn.
Context (now : Z) (socket_error : Z -> result (option Z) Z).

(** The [for i in (0..pending.len()).rev()] loop. *)
Fixpoint retire (i : nat) (revents : list Z) (pending : list Job) (backlog : list (list bytes))
    : option (list Job * list (list bytes)) :=
  match i with
  | O => Some (pending, backlog)
  | S i' =>
      job ← pending !! i';
      let events := default 0 (revents !! S i') in
      let timed_out := job_deadline job <=? now in
      if (events =? 0) && negb timed_out then retire i' revents pending backlog
      else
        let err := connect_error events timed_out (socket_error (job_fd job)) in
        backlog ← push backlog (job_core job) (Connected (job_fd job) err);
        retire i' revents (swap_remove pending i') backlog
  end.
End turn.

(** The [for job in pending.drain(..)] loop. *)
Fixpoint cancel_all (jobs : list Job) (backlog : list (list bytes)) : option (list (list bytes)) :=
  match jobs with
  | [] => Some backlog
  | job :: rest =>
      backlog ← push backlog (job_core job) (Connected (job_fd job) ECANCELED); cancel_all rest backlog
  end.

(** What one write to a pipe gives. *)
Inductive WriteAnswer := Wrote (n : usize) | WouldBlock | WriteError.
#[export] Instance WriteAnswer_eq_dec : EqDecision WriteAnswer.
Proof. solve_decision. Defined.

(** The [while let Some(note)] loop of [flush_all] on one queue: what reached
    the pipe, and what is still owed.  The fuel bounds the writes: each answer
    pops a note, gives up or counts one of at most 101 attempts. *)
Fixpoint flush_queue (fuel : nat) (answer : nat -> WriteAnswer) (blocking : bool) (attempts : nat)
    (queue : list bytes) : list bytes * list bytes :=
  match fuel, queue with
  | O, _ | _, [] => ([], queue)
  | S fuel', note :: rest =>
      match answer fuel with
      | Wrote n =>
          if (n =? NOTE_LEN)%nat then
            let '(sent, left_) := flush_queue fuel' answer blocking attempts rest in (note :: sent, left_)
          else ([], [])
      | WouldBlock =>
          if negb blocking || (100 <? S attempts)%nat then ([], queue)
          else flush_queue fuel' answer blocking (S attempts) queue
      | WriteError => ([], [])
      end
  end.

Definition flush_all (answer : nat -> nat -> WriteAnswer) (blocking : bool) (backlog : list (list bytes))
    : list (list bytes) * list (list bytes) :=
  let flushed := imap (fun core queue =>
    flush_queue (length queue + 101) (answer core) blocking 0 queue) backlog in
  (map fst flushed, map snd flushed).

(** A tick is dropped rather than queued behind a note. *)
Definition add_tick (queue : list bytes) : list bytes :=
  match queue with [] => [encode Tick] | _ => queue end.

(** What the world answers during one turn. *)
Record TurnInput := MkTurnInput {
  polled : option (list Z);
  arrived : list Job;
  disconnected : bool;
  retire_now : Z;
  sock_errors : Z -> result (option Z) Z;
  tick_now : Z;
  write_answers : nat -> nat -> WriteAnswer;
}.

(** How a turn ends: the loop goes on; the thread stops, and what it could not
    write is lost; [poll] fails, and the thread is gone with everything it
    owed; or it panics. *)
Inductive After :=
| Running (h : Helper)
| Stopped (lost : list (list bytes))
| PollFailed (unanswered : list Job) (lost : list (list bytes))
| HelperPanicked.

(** Whether the wake pipe or the job channel says stop. *)
Definition stopping (revents : list Z) (disconnected : bool) : bool :=
  has (default 0 (revents !! 0%nat)) (Z.lor POLLHUP (Z.lor POLLERR POLLNVAL)) || disconnected.

Definition silent (backlog : list (list bytes)) : list (list bytes) := map (fun _ => []) backlog.

(** One turn of [run]: the notes that reached each pipe, and what follows. *)
Definition helper_turn (tick : Z) (h : Helper) (i : TurnInput) : list (list bytes) * After :=
  let jobs := pending h ++ arrived i in
  match polled i with
  | None => (silent (backlog h), PollFailed jobs (backlog h))
  | Some revents =>
      if stopping revents (disconnected i) then
        match cancel_all jobs (backlog h) with
        | None => (silent (backlog h), HelperPanicked)
        | Some backlog => let '(sent, lost) := flush_all (write_answers i) true backlog in (sent, Stopped lost)
        end
      else
        match retire (retire_now i) (sock_errors i) (length jobs) revents jobs (backlog h) with
        | None => (silent (backlog h), HelperPanicked)
        | Some (pending, backlog) =>
            let '(backlog, next_tick) :=
              if next_tick h <=? tick_now i
              then (map add_tick backlog, tick_now i + tick)
              else (backlog, next_tick h) in
            let '(sent, backlog) := flush_all (write_answers i) false backlog in
            (sent, Running (MkHelper (wake h) (writers h) pending backlog next_tick))
        end
  end.

(** ** Lemmas: reassembly *)

#[local] Arguments NOTE_LEN : simpl never.
Lemma NOTE_LEN_12 : NOTE_LEN = 12%nat.
Proof. done. Qed.
#[local] Opaque NOTE_LEN.

(** What a stream of bytes means: its whole notes, and what is left over. *)
Definition reassemble (l : bytes) : list Note * bytes := drain_notes (length l) l.

Lemma drain_fuel f l : (length l <= f)%nat -> drain_notes f l = reassemble l.
Proof.
  unfold reassemble. revert l. induction f as [f IH] using lt_wf_ind. intros l Hf.
  destruct f as [|f]; simpl.
  { by destruct l; simpl in *; [|lia]. }
  destruct (length l) as [|n] eqn:Hl; simpl.
  { by rewrite NOTE_LEN_12, (proj2 (Nat.leb_gt _ _)) by lia. }
  rewrite Hl. destruct (NOTE_LEN <=? S n)%nat eqn:Hn; [|done].
  apply Nat.leb_le in Hn. rewrite NOTE_LEN_12 in *.
  rewrite (IH f ltac:(lia)) by (rewrite length_drop; lia).
  by rewrite (IH n ltac:(lia)) by (rewrite length_drop; lia).
Qed.

Lemma reassemble_short l : (length l < NOTE_LEN)%nat -> reassemble l = ([], l).
Proof.
  intros Hl. unfold reassemble. destruct (length l) as [|n] eqn:Hn; [done|].
  simpl. by rewrite Hn, (proj2 (Nat.leb_gt _ _)).
Qed.

Lemma reassemble_note c l :
  length c = NOTE_LEN ->
  reassemble (c ++ l) =
  let '(notes, rest) := reassemble l in (option_list (decode c) ++ notes, rest).
Proof.
  intros Hc. unfold reassemble at 1. rewrite NOTE_LEN_12 in Hc.
  destruct (length (c ++ l)) as [|n] eqn:Hn; rewrite length_app in Hn; [lia|].
  cbn [drain_notes]. rewrite length_app, Hc, NOTE_LEN_12, (proj2 (Nat.leb_le _ _)) by lia.
  rewrite drop_app_length', take_app_length' by done.
  by rewrite drain_fuel by lia.
Qed.

Lemma note_ind (P : bytes -> Prop) :
  (forall l, (length l < NOTE_LEN)%nat -> P l) ->
  (forall c l, length c = NOTE_LEN -> P l -> P (c ++ l)) -> forall l, P l.
Proof.
  intros Hs Hc l. induction l as [l IH] using (induction_ltof1 _ (@length Z)); unfold ltof in IH.
  destruct (decide (length l < NOTE_LEN)%nat) as [?|Hn]; [auto|].
  rewrite <- (take_drop NOTE_LEN l). apply Hc; [rewrite length_take; lia|].
  apply IH. rewrite length_drop. rewrite NOTE_LEN_12 in *. lia.
Qed.

Lemma reassemble_app l k :
  reassemble (l ++ k) =
  let '(notes, rest) := reassemble l in
  let '(more, rest) := reassemble (rest ++ k) in (notes ++ more, rest).
Proof.
  induction l as [l Hl|c l Hc IH] using note_ind.
  - rewrite (reassemble_short l Hl). by destruct (reassemble (l ++ k)).
  - rewrite <- (assoc_L (++)), (reassemble_note c (l ++ k)), (reassemble_note c l), IH by done.
    destruct (reassemble l) as [n r]. destruct (reassemble (r ++ k)) as [m s].
    by rewrite (assoc_L (++)).
Qed.

Lemma chunks_reassemble l f :
  (length l <= f)%nat ->
  (omap decode (chunks_exact NOTE_LEN f (take (length l / NOTE_LEN * NOTE_LEN) l)),
   drop (length l / NOTE_LEN * NOTE_LEN) l) = reassemble l.
Proof.
  revert f. induction l as [l Hl|c l Hc IH] using note_ind; intros f Hf.
  - rewrite Nat.div_small, reassemble_short by done. rewrite NOTE_LEN_12. by destruct f.
  - rewrite reassemble_note by done. rewrite length_app in *.
    assert (Hd : ((length c + length l) / NOTE_LEN * NOTE_LEN =
                 length c + length l / NOTE_LEN * NOTE_LEN)%nat).
    { rewrite Hc, <- (Nat.mul_1_l NOTE_LEN) at 1. rewrite Nat.div_add_l by (by rewrite NOTE_LEN_12). lia. }
    rewrite Hd, take_app_add, drop_app_add.
    destruct f as [|f]; [rewrite NOTE_LEN_12 in *; lia|]. cbn [chunks_exact].
    rewrite length_app, (proj2 (Nat.leb_le _ _)) by lia.
    rewrite take_app_length', drop_app_length' by done. cbn [omap list_omap].
    rewrite <- (IH f) by (rewrite NOTE_LEN_12 in *; lia). by destruct (decode c).
Qed.

Lemma feed_reassemble partial input :
  feed partial input = reassemble (partial ++ input).
Proof.
  destruct partial as [|b partial]; [|done]. exact (chunks_reassemble input _ (le_n _)).
Qed.

Lemma feed_all_reassemble reads partial :
  reassemble partial = ([], partial) ->
  feed_all partial reads = reassemble (partial ++ concat reads).
Proof.
  revert partial. induction reads as [|r reads IH]; intros partial Hp; simpl.
  { by rewrite app_nil_r. }
  rewrite feed_reassemble, (assoc_L (++)), (reassemble_app (partial ++ r)).
  destruct (reassemble (partial ++ r)) as [n p] eqn:Hr.
  rewrite IH; [done|].
  pose proof (reassemble_app (partial ++ r) []) as Ha. rewrite !app_nil_r, Hr in Ha.
  destruct (reassemble (p ++ [])) as [m q] eqn:Hq. rewrite app_nil_r in Hq. rewrite Hq.
  injection Ha as Hn <-. f_equal.
  apply (f_equal length) in Hn. rewrite length_app in Hn. destruct m; simpl in *; [done|lia].
Qed.

Lemma wrap8_mod x : wrap8 x = x mod 256.
Proof. done. Qed.

Lemma le_bytes_roundtrip x : from_le_bytes (to_le_bytes x) = wrap32 x.
Proof.
  unfold to_le_bytes. assert (Hx : fits 32 (wrap32 x)) by (apply wrap_range; lia).
  unfold fits in Hx. set (y := wrap32 x) in *.
  cbn [map from_le_bytes foldr]. rewrite !wrap8_mod, !Z.shiftr_div_pow2 by lia. cbn -[Z.modulo Z.div Z.add Z.mul].
  change (2 ^ (8 * 0)) with 1. change (2 ^ (8 * 1)) with 256.
  change (2 ^ (8 * 2)) with 65536. change (2 ^ (8 * 3)) with 16777216. change (2 ^ 32) with 4294967296 in Hx.
  clearbody y. rewrite Z.div_1_r. Z.to_euclidean_division_equations. lia.
Qed.

Definition note_ok (n : Note) : Prop :=
  match n with Tick => True | Connected fd err => - 2 ^ 31 <= fd < 2 ^ 31 /\ - 2 ^ 31 <= err < 2 ^ 31 end.

Lemma as_i32_wrap x : - 2 ^ 31 <= x < 2 ^ 31 -> as_i32 (wrap32 x) = x.
Proof.
  unfold as_i32, wrap32, wrap. intros ?. destruct (decide (0 <= x)).
  - rewrite Z.mod_small by lia. case_match; lia.
  - rewrite <- (Z_mod_plus_full x 1), Z.mod_small by lia. case_match; lia.
Qed.

Lemma length_encode n : length (encode n) = NOTE_LEN.
Proof. rewrite NOTE_LEN_12. by destruct n. Qed.

Lemma decode_encode n : note_ok n -> decode (encode n) = Some n.
Proof.
  intros Hn. unfold decode. rewrite length_encode, (proj2 (Nat.ltb_ge _ _)) by lia.
  destruct n as [|fd err]; [done|]. destruct Hn. unfold encode, KIND_CONNECT.
  change (take 4 _) with (to_le_bytes fd) at 2.
  change (take 4 (drop 4 _)) with (to_le_bytes 1). change (take 4 (drop 8 _)) with (to_le_bytes err).
  by rewrite !le_bytes_roundtrip, !as_i32_wrap.
Qed.

Lemma reassemble_encoded notes :
  Forall note_ok notes -> reassemble (concat (map encode notes)) = (notes, []).
Proof.
  induction 1 as [|n notes Hn _ IH]; [done|]. cbn [map concat].
  by rewrite reassemble_note, IH, decode_encode by (auto using length_encode).
Qed.

(** ** Lemmas: every job is answered *)

Lemma swap_remove_perm {A} (l : list A) i x : l !! i = Some x -> l ≡ₚ x :: swap_remove l i.
Proof.
  intros Hi. unfold swap_remove. destruct l as [|y l _] using rev_ind; [done|].
  rewrite last_snoc, removelast_last, length_app. cbn [length].
  destruct (Nat.eqb_spec (S i) (length l + 1)) as [Hn|Hn].
  - rewrite lookup_app_r in Hi by lia. replace (i - length l)%nat with 0%nat in Hi by lia.
    injection Hi as ->. symmetry. apply Permutation_cons_append.
  - pose proof (lookup_lt_Some _ _ _ Hi) as Hl. rewrite length_app in Hl. cbn [length] in Hl.
    rewrite lookup_app_l in Hi by lia.
    assert (Hy : <[i:=y]> l ≡ₚ y :: delete i l).
    { rewrite insert_take_drop, delete_take_drop by lia. symmetry. apply Permutation_middle. }
    rewrite Hy, <- Permutation_cons_append, Permutation_swap. constructor.
    by apply delete_Permutation.
Qed.

(** The notes a list of answers adds to the queues, in order. *)
Definition push_all (backlog : list (list bytes)) (answers : list (Job * Z)) : list (list bytes) :=
  foldl (fun b '(j, err) => alter (fun queue => queue ++ [encode (Connected (job_fd j) err)]) (job_core j) b)
    backlog answers.

(** A job names a core that has a pipe. *)
Definition watched (backlog : list (list bytes)) (j : Job) : Prop := (job_core j < length backlog)%nat.

Lemma push_watched backlog j n :
  watched backlog j -> push backlog (job_core j) n = Some (alter (fun queue => queue ++ [encode n]) (job_core j) backlog).
Proof.
  intros [queue Hq]%lookup_lt_is_Some_2. unfold push. rewrite Hq. simpl. f_equal.
  apply list_eq. intros k. destruct (decide (k = job_core j)) as [->|Hk].
  - rewrite list_lookup_insert_eq, list_lookup_alter_eq, Hq by (by eapply lookup_lt_Some). done.
  - by rewrite list_lookup_insert_ne, list_lookup_alter_ne.
Qed.
Lemma length_push_all backlog answers : length (push_all backlog answers) = length backlog.
Proof.
  unfold push_all. revert backlog. induction answers as [|[j err] l IH]; intros b; cbn [foldl]; [done|].
  by rewrite IH, length_alter.
Qed.

(** The errno a job's connect is over with: events for its place in the list
    of [poll], or its deadline is past. *)
Definition verdict now (sock : Z -> result (option Z) Z) (revents : list Z) (i : nat) (j : Job) : option Z :=
  let events := default 0 (revents !! S i) in
  let timed_out := job_deadline j <=? now in
  if (events =? 0) && negb timed_out then None else Some (connect_error events timed_out (sock (job_fd j))).
Definition answers now sock revents (jobs : list Job) : list (Job * Z) :=
  omap id (imap (fun i j => pair j <$> verdict now sock revents i j) jobs).
Definition unanswered now sock revents (jobs : list Job) : list Job :=
  omap id (imap (fun i j => match verdict now sock revents i j with None => Some j | _ => None end) jobs).

Lemma unanswered_Forall (P : Job -> Prop) now sock revents jobs :
  Forall P jobs -> Forall P (unanswered now sock revents jobs).
Proof.
  unfold unanswered. induction jobs as [|j jobs IH] using rev_ind; [done|].
  intros [Hw [Hj _]%Forall_cons_1]%Forall_app. rewrite imap_app, omap_app. apply Forall_app. split; [auto|].
  cbn [imap omap list_omap]. destruct (verdict _ _ _ _ _); cbn; auto.
Qed.

Lemma retire_exact now sock revents pre post backlog :
  Forall (watched backlog) pre ->
  exists jobs', retire now sock (length pre) revents (pre ++ post) backlog =
      Some (jobs', push_all backlog (reverse (answers now sock revents pre)))
    /\ jobs' ≡ₚ unanswered now sock revents pre ++ post.
Proof.
  unfold answers, unanswered. revert post backlog.
  induction pre as [|job pre IH] using rev_ind; intros post backlog Hw; [by exists post|].
  apply Forall_app in Hw as [Hw [Hj _]%Forall_cons_1]. rewrite length_app, Nat.add_comm, <- (assoc_L (++)). cbn [length app Nat.add retire].
  rewrite list_lookup_middle by done. cbn [mbind option_bind]. rewrite !imap_app, !omap_app. cbn [imap omap list_omap].
  rewrite Nat.add_0_r. unfold verdict at 2 4. set (events := default 0 (revents !! S (length pre))).
  set (timed_out := job_deadline job <=? now). destruct ((events =? 0) && negb timed_out) eqn:He; cbn [fmap option_fmap option_map id].
  - destruct (IH (job :: post) backlog Hw) as (jobs'&Hr&Hp). exists jobs'. rewrite Hr, !app_nil_r. split; [done|].
    by rewrite Hp, <- (assoc_L (++)).
  - rewrite (push_watched _ _ _ Hj). cbn [mbind option_bind]. set (err := connect_error _ _ _).
    set (b := alter _ _ backlog).
    assert (Hrm : exists post', swap_remove (pre ++ job :: post) (length pre) = pre ++ post' /\ post' ≡ₚ post).
    { unfold swap_remove. destruct post as [|x post _] using rev_ind.
      - exists []. rewrite last_snoc, length_app. cbn [length]. rewrite (proj2 (Nat.eqb_eq _ _)) by lia.
        by rewrite removelast_last, app_nil_r.
      - exists (x :: post). rewrite (app_comm_cons post [x] job), (assoc_L (++)), last_snoc, removelast_last.
        rewrite !length_app. cbn [length]. rewrite (proj2 (Nat.eqb_neq _ _)) by lia.
        rewrite insert_app_r_alt, Nat.sub_diag by lia. split; [done|]. apply Permutation_cons_append. }
    destruct Hrm as (post'&->&Hpost).
    assert (Hwb : Forall (watched b) pre) by (unfold watched, b in *; by rewrite length_alter).
    destruct (IH post' b Hwb) as (jobs'&Hr&Hp). exists jobs'. rewrite Hr, reverse_app, app_nil_r. split; [done|].
    by rewrite Hp, Hpost.
Qed.

Lemma cancel_all_exact jobs backlog :
  Forall (watched backlog) jobs -> cancel_all jobs backlog = Some (push_all backlog (map (fun j => (j, ECANCELED)) jobs)).
Proof.
  unfold push_all. revert backlog. induction jobs as [|j jobs IH]; intros backlog Hw; [done|].
  apply Forall_cons in Hw as [Hj Hw]. cbn [cancel_all map foldl]. rewrite (push_watched _ _ _ Hj). cbn [mbind option_bind].
  apply IH. unfold watched in *. by rewrite length_alter.
Qed.

(** A pipe takes a note whole or not at all. *)
Definition atomic (answer : nat -> nat -> WriteAnswer) : Prop :=
  forall core k, answer core k = Wrote NOTE_LEN \/ answer core k = WouldBlock.

Lemma flush_queue_owed fuel answer blocking attempts queue sent left_ :
  (forall k, answer k = Wrote NOTE_LEN \/ answer k = WouldBlock) ->
  flush_queue fuel answer blocking attempts queue = (sent, left_) -> sent ++ left_ = queue.
Proof.
  intros Ha. revert attempts queue sent left_.
  induction fuel as [|fuel IH]; intros attempts queue sent left_ Hf; simpl in Hf; [by injection Hf as <- <-|].
  destruct queue as [|note rest]; [by injection Hf as <- <-|].
  destruct (Ha (S fuel)) as [Hw|Hw]; rewrite Hw in Hf.
  - rewrite Nat.eqb_refl in Hf. destruct (flush_queue _ _ _ _ rest) as [s l] eqn:Hr.
    injection Hf as <- <-. simpl. f_equal. eauto.
  - destruct (negb blocking || _); [by injection Hf as <- <-|eauto].
Qed.

Lemma flush_all_owed answer blocking backlog sent left_ :
  atomic answer -> flush_all answer blocking backlog = (sent, left_) -> zip_with (++) sent left_ = backlog.
Proof.
  intros Ha [= <- <-]. apply list_eq. intros core. rewrite lookup_zip_with, !list_lookup_fmap, list_lookup_imap.
  destruct (backlog !! core) as [queue|]; simpl; [|done]. f_equal.
  destruct (flush_queue _ _ _ _ queue) as [s l] eqn:Hq. simpl. eapply flush_queue_owed; [|exact Hq]. apply Ha.
Qed.

(** How many of the writes a flush may make find the pipe full. *)
Definition blocks (answer : nat -> WriteAnswer) (fuel : nat) : nat :=
  length (filter (fun k => answer k = WouldBlock) (seq 1 fuel)).
Lemma blocks_S answer fuel :
  blocks answer (S fuel) = (blocks answer fuel + if decide (answer (S fuel) = WouldBlock) then 1 else 0)%nat.
Proof.
  unfold blocks. rewrite seq_S, filter_app, length_app. cbn [Nat.add]. f_equal.
  by destruct (decide (answer (S fuel) = WouldBlock)) as [H|H];
    [rewrite filter_cons_True by done|rewrite filter_cons_False by done].
Qed.

Lemma flush_queue_all fuel answer blocking attempts queue :
  (forall k, answer k = Wrote NOTE_LEN \/ answer k = WouldBlock) ->
  (attempts + blocks answer fuel <= if blocking : bool then 100 else attempts)%nat ->
  (length queue + blocks answer fuel <= fuel)%nat ->
  flush_queue fuel answer blocking attempts queue = (queue, []).
Proof.
  intros Ha. revert attempts queue. induction fuel as [|fuel IH]; intros attempts queue Hb Hf; simpl.
  { by destruct queue; simpl in *; [|lia]. }
  destruct queue as [|note rest]; [done|]. rewrite blocks_S in Hb, Hf. cbn [length] in Hf.
  destruct (Ha (S fuel)) as [Hw|Hw]; rewrite Hw in *; cbn [decide] in *.
  - destruct (decide _); [done|]. rewrite Nat.eqb_refl, IH; [done|lia|lia].
  - destruct (decide _); [|done]. destruct blocking; [|lia]. cbn [negb orb].
    rewrite (proj2 (Nat.ltb_ge _ _)) by lia. apply IH; cbn [length]; lia.
Qed.

(** A core whose pipe is full at most that often gets all it is owed. *)
Definition all_written (answer : nat -> nat -> WriteAnswer) (limit : nat) (owed left_ : list (list bytes)) : Prop :=
  forall core queue, owed !! core = Some queue ->
    (blocks (answer core) (length queue + 101) <= limit)%nat -> left_ !! core = Some [].

Lemma flush_all_written answer (blocking : bool) backlog :
  atomic answer ->
  all_written answer (if blocking then 100 else 0)%nat backlog (flush_all answer blocking backlog).2.
Proof.
  intros Ha core queue Hq Hb. cbn [flush_all snd]. rewrite list_lookup_fmap, list_lookup_imap, Hq. cbn [fmap option_fmap option_map].
  rewrite flush_queue_all; [done|apply Ha|destruct blocking; lia|destruct blocking; lia].
Qed.

(** ** The properties *)

(** Notes survive the pipe.  However the reads of a core split the bytes of
    a sequence of notes, the reader calls out exactly those notes, in order,
    and ends with nothing left over. *)
Theorem notes_survive_splitting notes reads :
  Forall note_ok notes -> concat reads = concat (map encode notes) ->
  feed_all [] reads = (notes, []).
Proof.
  intros Hn Hr. rewrite feed_all_reassemble by done. cbn [app]. rewrite Hr. by apply reassemble_encoded.
Qed.

Lemma notes_survive_splitting_witness :
  feed_all [] [[7]; [0; 0; 0; 1; 0; 0; 0; 110; 0; 0]; [0; 0; 0; 0; 0; 0; 0; 0; 0; 0; 0; 0; 0]]
  = ([Connected 7 110; Tick], []).
Proof. apply notes_survive_splitting; [repeat constructor; lia|reflexivity]. Defined.

(** What holds of the helper between turns: a queue for each pipe, and no job
    for a core without one. *)
Definition helper_ok (h : Helper) : Prop :=
  length (backlog h) = length (writers h) /\ Forall (watched (backlog h)) (pending h).


Definition demo_helper : Helper :=
  MkHelper 3 [4; 5] [MkJob 9 1 100; MkJob 10 0 50] [[]; []] 1000.
Definition demo_input : TurnInput :=
  MkTurnInput (Some [0; POLLOUT; 0]) [MkJob 11 1 200] false 60 (fun _ => Ok 0) 60 (fun _ _ => Wrote 12).


(** What the turn reads for a new job.  A job received after [poll] was not
    among the polled descriptors, and the turn takes the events of a backlogged
    pipe for its own: a connect still in progress ([SO_ERROR] 0) is reported
    as established as soon as such a pipe is writable. *)
Theorem unpolled_job_reported tick h i job pipe revents :
  pending h = [] -> arrived i = [job] -> polled i = Some revents -> default 0 (revents !! 0%nat) = 0 ->
  revents !! 1%nat = Some POLLOUT -> disconnected i = false ->
  sock_errors i (job_fd job) = Ok 0 -> atomic (write_answers i) ->
  poll_fds h !! 1%nat = Some (pipe, POLLOUT) -> is_Some (backlog h !! job_core job) ->
  pipe ∈ writers h /\
  exists sent h', helper_turn tick h i = (sent, Running h') /\ pending h' = [] /\
    encode (Connected (job_fd job) 0) ∈ default [] (sent !! job_core job) ++ default [] (backlog h' !! job_core job).
Proof.
  intros Hp Harr Hpoll Hw Hrev Hd Hs Hat Hpipe [queue Hq]. split.
  { unfold poll_fds in Hpipe. rewrite Hp in Hpipe. cbn in Hpipe. apply list_elem_of_lookup_2, list_elem_of_omap in Hpipe
      as ([w q]&Hz&Hw'). apply elem_of_zip_l in Hz. by destruct q; simplify_eq. }
  destruct (helper_turn tick h i) as [sent next] eqn:Ht.
  assert (He : forall t, connect_error POLLOUT t (Ok 0) = 0) by (by intros []).
  unfold helper_turn, stopping in Ht. rewrite Hpoll, Hw, Hd, Hp, Harr in Ht. cbn -[flush_all push connect_error] in Ht.
  rewrite Hrev, Hs in Ht. cbn -[flush_all push connect_error] in Ht. rewrite He in Ht.
  change (has 0 (Z.lor POLLHUP (Z.lor POLLERR POLLNVAL)) || false) with false in Ht. cbv iota in Ht.
  rewrite push_watched in Ht by (by eapply lookup_lt_Some). cbn -[flush_all encode alter] in Ht.
  set (b := alter _ _ (backlog h)) in Ht.
  assert (Hb : b !! job_core job = Some (queue ++ [encode (Connected (job_fd job) 0)])).
  { unfold b. by rewrite list_lookup_alter_eq, Hq. }
  destruct (next_tick h <=? tick_now i); destruct (flush_all _ _ _) as [s l] eqn:Hf;
    cbv beta iota in Ht; rewrite ?Hf in Ht; injection Ht as <- <-; eexists s, _; (split; [done|]); (split; [done|]); simpl;
    apply (flush_all_owed _ _ _ _ _ Hat), (f_equal (.!! job_core job)) in Hf;
    rewrite lookup_zip_with, ?list_lookup_fmap, Hb in Hf; simpl in Hf;
    destruct (s !! job_core job) as [s1|]; simpl in Hf; try done;
    destruct (l !! job_core job) as [l1|]; simpl in *; try done;
    injection Hf as ->; unfold add_tick; (destruct queue; set_solver).
Qed.

Lemma unpolled_job_reported_witness :
  exists sent h',
    helper_turn 100 (MkHelper 3 [4] [] [[encode Tick]] 1000)
      (MkTurnInput (Some [0; POLLOUT]) [MkJob 9 0 500] false 60 (fun _ => Ok 0) 60 (fun _ _ => Wrote 12)) = (sent, Running h') /\
    pending h' = [].
Proof.
  edestruct (unpolled_job_reported 100 (MkHelper 3 [4] [] [[encode Tick]] 1000)
    (MkTurnInput (Some [0; POLLOUT]) [MkJob 9 0 500] false 60 (fun _ => Ok 0) 60 (fun _ _ => Wrote 12)) (MkJob 9 0 500) 4 [0; POLLOUT])
    as (_&sent&h'&H1&H2&_); try reflexivity.
  - by left.
  - by eexists.
  - by exists sent, h'.
Defined.
