(* ===== verification/Tls.v ===== *)
(** TLS termination over rustls: [crates/ramjet-engine/src/tls.rs].

    rustls itself, which never touches a socket, is the class [TlsStack]: its
    acceptor and connection are abstract states, its methods return the new
    state.  [None] is an [Err] whose content the code does not look at. *)

From S2P Require Import Prelude.

Definition PLAIN_CHUNK : usize := Z.to_nat 16384.

Inductive Offer := Http2 | Http11.
#[export] Instance Offer_eq_dec : EqDecision Offer.
Proof. solve_decision. Defined.

Inductive Step := NeedMore | Hello (o : Offer) | Live.

Class TlsStack := {
  Acceptor : Type;
  Accepted : Type;
  ServerConnection : Type;
  ServerConfig : Type;
  TlsError : Type;
  acceptor_default : Acceptor;
  (** [read_tls]: the new state and how many bytes of the slice it took. *)
  acceptor_read_tls : Acceptor -> bytes -> option (Acceptor * usize);
  (** [accept]: an error comes with the alert to send. *)
  acceptor_accept : Acceptor -> Acceptor * result (TlsError * bytes) (option Accepted);
  hello_alpn : Accepted -> option (list bytes);
  into_connection : Accepted -> ServerConfig -> result (TlsError * bytes) ServerConnection;
  read_tls : ServerConnection -> bytes -> option (ServerConnection * usize);
  process_new_packets : ServerConnection -> ServerConnection * result TlsError unit;
  (** [reader().read(buf)] with room for so many bytes. *)
  reader_read : ServerConnection -> usize -> ServerConnection * option bytes;
  wants_write : ServerConnection -> bool;
  write_tls : ServerConnection -> ServerConnection * option bytes;
  writer_write : ServerConnection -> bytes -> ServerConnection * option usize;
  is_handshaking : ServerConnection -> bool;
  conn_close_notify : ServerConnection -> ServerConnection;
  alpn_protocol : ServerConnection -> option bytes;
  sni_name : ServerConnection -> option str;
  (** How much is buffered in each direction: a read that returns something
      takes it out of the buffer, a write to the wire too, and no more is
      accepted than is offered.  The loops below end for these reasons. *)
  plaintext_left : ServerConnection -> nat;
  tls_left : ServerConnection -> nat;
  reader_progress c n c' b rest : reader_read c n = (c', Some (b :: rest)) ->
    (plaintext_left c' < plaintext_left c)%nat;
  writer_progress c c' b : wants_write c = true -> write_tls c = (c', Some b) ->
    (tls_left c' < tls_left c)%nat;
  writer_bound c p c' n : writer_write c p = (c', Some n) -> (n <= length p)%nat;
}.

Section session.
Context `{TlsStack}.

Inductive SessionState :=
| SHello (a : Acceptor)
| SReady (a : Accepted)
| SLive (c : ServerConnection)
| SDead.

Record Session := MkSession {
  s_state : SessionState;
  replay : bytes;
  held_back : bytes;
  wire_out : bytes;
  s_offer : option Offer;
  s_counted : bool;
}.
Definition Session_eta (s : Session) : Session :=
  MkSession (s_state s) (replay s) (held_back s) (wire_out s) (s_offer s) (s_counted s).
#[export] Instance set_s_state : Setter s_state := ltac:(derive_setter Session_eta).
#[export] Instance set_replay : Setter replay := ltac:(derive_setter Session_eta).
#[export] Instance set_held_back : Setter held_back := ltac:(derive_setter Session_eta).
#[export] Instance set_wire_out : Setter wire_out := ltac:(derive_setter Session_eta).
#[export] Instance set_s_offer : Setter s_offer := ltac:(derive_setter Session_eta).
#[export] Instance set_s_counted : Setter s_counted := ltac:(derive_setter Session_eta).

Definition Session_new : Session := MkSession (SHello acceptor_default) [] [] [] None false.

Definition offer_of (a : Accepted) : Offer :=
  match hello_alpn a with
  | Some protocols => if existsb (fun p => bool_decide (p = bstr "h2")) protocols then Http2 else Http11
  | None => Http11
  end.

(** A value with the equation that says what it is. *)
Definition inspect {A} (a : A) : { b | a = b } := exist _ a eq_refl.
Arguments inspect : simpl never.

(** The [loop] of [drain_plaintext]: it recurs on what is buffered, which
    each read that returns something lessens. *)
Fixpoint drain_loop (c : ServerConnection) (out : bytes) (left : Acc lt (plaintext_left c)) {struct left}
    : ServerConnection * bytes :=
  match inspect (reader_read c PLAIN_CHUNK) with
  | exist _ (c', Some (b :: read)) Hr =>
      drain_loop c' (out ++ b :: read) (Acc_inv left (reader_progress _ _ _ _ _ Hr))
  | exist _ (c', _) _ => (c', out)
  end.
Definition drain_plaintext (c : ServerConnection) (out : bytes) : ServerConnection * bytes :=
  drain_loop c out (lt_wf _).

(** The [while conn.wants_write()] loop of [pump]: it recurs on what is queued
    for the wire. *)
Fixpoint pump_loop (c : ServerConnection) (wire : bytes) (left : Acc lt (tls_left c)) {struct left}
    : ServerConnection * bytes :=
  match inspect (wants_write c) with
  | exist _ true Hw =>
      match inspect (write_tls c) with
      | exist _ (c', Some written) Hr =>
          pump_loop c' (wire ++ written) (Acc_inv left (writer_progress _ _ _ Hw Hr))
      | exist _ (c', None) _ => (c', wire)
      end
  | exist _ false _ => (c, wire)
  end.
Definition pump (c : ServerConnection) (wire : bytes) : ServerConnection * bytes :=
  pump_loop c wire (lt_wf _).

(** The [while] loop of [feed_hello] over the cursor; each turn that continues
    shortens it. *)
Fixpoint hello_loop (fuel : nat) (a : Acceptor) (cursor : bytes) : Acceptor :=
  match fuel, cursor with
  | O, _ | _, [] => a
  | S fuel', _ =>
      match acceptor_read_tls a cursor with
      | None => a
      | Some (a, taken) => if (taken =? 0)%nat then a else hello_loop fuel' a (drop taken cursor)
      end
  end.

Definition feed_hello (s : Session) (cipher : bytes) : Session * result TlsError Step :=
  match s_state s with
  | SHello acceptor =>
      let s := s <| replay := replay s ++ cipher |> in
      let acceptor := hello_loop (length cipher) acceptor cipher in
      match acceptor_accept acceptor with
      | (acceptor, Ok None) => (s <| s_state := SHello acceptor |>, Ok NeedMore)
      | (_, Ok (Some accepted)) =>
          let offer := offer_of accepted in
          (s <| s_offer := Some offer |> <| s_state := SReady accepted |>, Ok (Hello offer))
      | (_, Err (error, alert)) =>
          (s <| wire_out := wire_out s ++ alert |> <| s_state := SDead |>, Err error)
      end
  | _ => (s, Ok Live)
  end.

(** The [while] loop of [feed_live]. *)
Fixpoint live_loop (fuel : nat) (c : ServerConnection) (cursor plain : bytes)
    : ServerConnection * bytes * option TlsError :=
  match fuel, cursor with
  | O, _ | _, [] => (c, plain, None)
  | S fuel', _ =>
      match read_tls c cursor with
      | None => (c, plain, None)
      | Some (c, taken) =>
          match process_new_packets c with
          | (c, Err error) => (c, plain, Some error)
          | (c, Ok _) =>
              let '(c, plain) := drain_plaintext c plain in
              if (taken =? 0)%nat then (c, plain, None)
              else live_loop fuel' c (drop taken cursor) plain
          end
      end
  end.

Definition feed_live (s : Session) (cipher plain : bytes) : Session * bytes * result TlsError unit :=
  match s_state s with
  | SLive conn =>
      let s := s <| s_state := SDead |> in
      let '(conn, plain, failure) := live_loop (length cipher) conn cipher plain in
      let '(conn, wire) := pump conn (wire_out s) in
      let s := s <| wire_out := wire |> in
      match failure with
      | None => (s <| s_state := SLive conn |>, plain, Ok tt)
      | Some error => (s, plain, Err error)
      end
  | _ => (s <| s_state := SDead |>, plain, Ok tt)
  end.

Definition feed (s : Session) (cipher plain : bytes) : Session * bytes * result TlsError Step :=
  match s_state s with
  | SDead => (s, plain, Ok Live)
  | SHello _ => let '(s, r) := feed_hello s cipher in (s, plain, r)
  | SReady _ =>
      (s <| replay := replay s ++ cipher |> <| held_back := held_back s ++ cipher |>, plain,
       Ok (Hello (default Http11 (s_offer s))))
  | SLive _ =>
      let '(s, plain, r) := feed_live s cipher plain in
      (s, plain, match r with Ok _ => Ok Live | Err e => Err e end)
  end.

Definition accept (s : Session) (config : ServerConfig) (plain : bytes)
    : Session * bytes * result TlsError unit :=
  match s_state s with
  | SReady accepted =>
      let s := s <| s_state := SDead |> <| replay := [] |> in
      match into_connection accepted config with
      | Err (error, alert) => (s <| wire_out := wire_out s ++ alert |>, plain, Err error)
      | Ok conn =>
          match process_new_packets conn with
          | (conn, Err error) =>
              let '(_, wire) := pump conn (wire_out s) in (s <| wire_out := wire |>, plain, Err error)
          | (conn, Ok _) =>
              let '(conn, plain) := drain_plaintext conn plain in
              let '(conn, wire) := pump conn (wire_out s) in
              let s := s <| wire_out := wire |> <| s_state := SLive conn |> in
              match held_back s with
              | [] => (s, plain, Ok tt)
              | pending => feed_live (s <| held_back := [] |>) pending plain
              end
          end
      end
  | _ => (s <| s_state := SDead |>, plain, Ok tt)
  end.

Definition into_replay (s : Session) : bytes := replay s.

(** The outer [loop] of [seal], over [plain[sent..]]: each turn that continues
    has shortened it. *)
Lemma drop_shorter (n : nat) (b : u8) (rest : bytes) : (length (drop (S n) (b :: rest)) < length (b :: rest))%nat.
Proof. rewrite length_drop. simpl. lia. Qed.
Fixpoint seal_loop (c : ServerConnection) (wire rest : bytes) (sent : usize) (left : Acc lt (length rest))
    {struct left} : ServerConnection * bytes * usize :=
  let '(c, wire) := pump c wire in
  match rest as r return Acc lt (length r) -> ServerConnection * bytes * usize with
  | [] => fun _ => (c, wire, sent)
  | b :: rest => fun left =>
      match writer_write c (b :: rest) with
      | (c, Some (S n)) =>
          seal_loop c wire (drop (S n) (b :: rest)) (sent + S n) (Acc_inv left (drop_shorter n b rest))
      | (c, _) => (c, wire, sent)
      end
  end left.
Definition seal (s : Session) (plain : bytes) : Session * usize :=
  match s_state s with
  | SLive conn =>
      let '(conn, wire, sent) := seal_loop conn (wire_out s) plain 0 (lt_wf _) in
      (s <| s_state := SLive conn |> <| wire_out := wire |>, sent)
  | _ => (s, 0%nat)
  end.

Definition has_wire (s : Session) : bool := negb (bool_decide (wire_out s = [])).
Definition wire_len (s : Session) : usize := length (wire_out s).
Definition established (s : Session) : bool :=
  match s_state s with SLive conn => negb (is_handshaking conn) | _ => false end.
Definition is_dead (s : Session) : bool := match s_state s with SDead => true | _ => false end.
Definition kill (s : Session) : Session := s <| s_state := SDead |>.
Definition take_established (s : Session) : bool * Session :=
  if s_counted s || negb (established s) then (false, s) else (true, s <| s_counted := true |>).
Definition send_close_notify (s : Session) : Session :=
  match s_state s with
  | SLive conn =>
      let '(conn, wire) := pump (conn_close_notify conn) (wire_out s) in
      s <| s_state := SLive conn |> <| wire_out := wire |>
  | _ => s
  end.
Definition session_alpn (s : Session) : option bytes :=
  match s_state s with SLive conn => alpn_protocol conn | _ => None end.
Definition session_name (s : Session) : option str :=
  match s_state s with SLive conn => sni_name conn | _ => None end.

(** ** Lemmas *)

(** Nothing has been committed: the connection can still be handed away. *)
Definition undecided (s : Session) : Prop :=
  match s_state s with SHello _ | SReady _ => True | _ => False end.

(** The reads of a connection, before anybody called [accept]. *)
Fixpoint feeds (s : Session) (plain : bytes) (reads : list bytes) : Session * bytes :=
  match reads with
  | [] => (s, plain)
  | r :: rest => let '(s, plain, _) := feed s r plain in feeds s plain rest
  end.

Lemma feed_undecided s r plain :
  undecided (feed s r plain).1.1 ->
  undecided s /\ replay (feed s r plain).1.1 = replay s ++ r
  /\ wire_out (feed s r plain).1.1 = wire_out s /\ (feed s r plain).1.2 = plain.
Proof.
  unfold undecided, feed, feed_hello, feed_live.
  destruct (s_state s) as [a|a|c|] eqn:Hs; simpl; try done.
  - destruct (acceptor_accept _) as [a' [[acc|]|[e alert]]]; simpl; try done. all: intros []; auto.
  - by destruct (live_loop _ _ _ _) as [[? ?] [?|]]; destruct (pump _ _); simpl.
  - by rewrite Hs.
Qed.

Lemma feeds_undecided reads s plain :
  undecided (feeds s plain reads).1 ->
  undecided s /\ replay (feeds s plain reads).1 = replay s ++ concat reads
  /\ wire_out (feeds s plain reads).1 = wire_out s /\ (feeds s plain reads).2 = plain.
Proof.
  revert s plain. induction reads as [|r reads IH]; intros s plain; simpl.
  { by rewrite app_nil_r. }
  pose proof (feed_undecided s r plain) as Hf.
  destruct (feed s r plain) as [[s' plain'] ?]. simpl in Hf. intros Hu.
  apply IH in Hu as (Hu&->&->&->). destruct (Hf Hu) as (?&->&->&->). by rewrite (assoc_L (++)).
Qed.
End session.

(** ** The properties *)

Section properties.
Context `{TlsStack}.

(** The loops do not depend on why they end, so each satisfies the equation of
    the code's loop: one turn, and the loop again. *)
Lemma drain_loop_any c out (l1 l2 : Acc lt (plaintext_left c)) : drain_loop c out l1 = drain_loop c out l2.
Proof.
  induction (well_founded_ltof _ plaintext_left c) as [c _ IH] in out, l1, l2 |- *.
  destruct l1 as [h1], l2 as [h2]. cbn [drain_loop pump_loop].
  destruct (inspect (reader_read c PLAIN_CHUNK)) as [[c' [[|b read]|]] Hr]; try done.
  apply IH. by eapply reader_progress.
Qed.
Lemma drain_plaintext_eq c out :
  drain_plaintext c out =
  match reader_read c PLAIN_CHUNK with
  | (c', Some (b :: read)) => drain_plaintext c' (out ++ b :: read)
  | (c', _) => (c', out)
  end.
Proof.
  unfold drain_plaintext at 1. destruct (lt_wf (plaintext_left c)) as [h]. cbn [drain_loop pump_loop].
  destruct (inspect (reader_read c PLAIN_CHUNK)) as [[c' [[|b read]|]] Hr]; [by rewrite Hr| |by rewrite Hr].
  by rewrite (drain_loop_any _ _ _ (lt_wf _)), Hr.
Qed.

Lemma pump_loop_any c wire (l1 l2 : Acc lt (tls_left c)) : pump_loop c wire l1 = pump_loop c wire l2.
Proof.
  induction (well_founded_ltof _ tls_left c) as [c _ IH] in wire, l1, l2 |- *.
  destruct l1 as [h1], l2 as [h2]. cbn [drain_loop pump_loop].
  destruct (inspect (wants_write c)) as [[] Hw]; [|done].
  destruct (inspect (write_tls c)) as [[c' [written|]] Hr]; [|done].
  apply IH. by eapply writer_progress.
Qed.
Lemma pump_eq c wire :
  pump c wire =
  if wants_write c then
    match write_tls c with
    | (c', Some written) => pump c' (wire ++ written)
    | (c', None) => (c', wire)
    end
  else (c, wire).
Proof.
  unfold pump at 1. destruct (lt_wf (tls_left c)) as [h]. cbn [drain_loop pump_loop].
  destruct (inspect (wants_write c)) as [[] Hw]; [|by rewrite Hw].
  destruct (inspect (write_tls c)) as [[c' [written|]] Hr]; [|by rewrite Hw, Hr].
  by rewrite (pump_loop_any _ _ _ (lt_wf _)), Hw, Hr.
Qed.

(** [seal] accepts no more than it is offered. *)
Lemma seal_loop_bound c wire rest sent left :
  ((seal_loop c wire rest sent left).2 <= sent + length rest)%nat.
Proof.
  induction (well_founded_ltof _ length rest) as [rest _ IH] in c, wire, sent, left |- *.
  destruct left as [h]. simpl. destruct (pump c wire) as [c1 wire1].
  destruct rest as [|b rest]; [simpl; lia|].
  destruct (writer_write c1 (b :: rest)) as [c2 [[|n]|]] eqn:Hw; simpl; try lia.
  apply writer_bound in Hw. simpl in Hw.
  eapply Nat.le_trans; [apply IH; unfold ltof; rewrite length_drop; simpl; lia|].
  rewrite length_drop. lia.
Qed.
Lemma seal_bound s plain : ((seal s plain).2 <= length plain)%nat.
Proof.
  unfold seal. destruct (s_state s) as [| |c|]; cbn -[seal_loop]; try lia.
  pose proof (seal_loop_bound c (wire_out s) plain 0 (lt_wf _)) as Hb.
  destruct (seal_loop _ _ _ _ _) as [[? ?] sent]. cbn in *. lia.
Qed.
End properties.

(** C19: A connection can be handed to the other engine without the client
    noticing: as long as nobody has called [accept] and the hello has not
    failed, the session has written nothing, has produced no plaintext, and
    what it replays is every byte the client sent, in order, however the reads
    were split. *)
Theorem handoff_replays_every_byte `{TlsStack} reads :
  undecided (feeds Session_new [] reads).1 ->
  into_replay (feeds Session_new [] reads).1 = concat reads
  /\ wire_out (feeds Session_new [] reads).1 = [] /\ (feeds Session_new [] reads).2 = [].
Proof. unfold into_replay. intros Hu. by apply feeds_undecided in Hu as (_&->&->&->). Qed.

Lemma demo_reader (c : bytes) n c' b rest :
  (drop n c, Some (take n c)) = (c', Some (b :: rest)) -> (length c' < length c)%nat.
Proof. intros [= <- H]. apply (f_equal length) in H. rewrite length_take in H. simpl in H. rewrite length_drop. lia. Qed.
Lemma demo_writer (c p c' : bytes) n : (c, Some (length p)) = (c', Some n) -> (n <= length p)%nat.
Proof. intros [= _ <-]. done. Qed.

(** A stack that resolves a hello at its third byte. *)
Definition demo_stack : TlsStack := {|
  Acceptor := bytes;
  Accepted := bytes;
  ServerConnection := bytes;
  ServerConfig := unit;
  TlsError := unit;
  acceptor_default := [];
  acceptor_read_tls a b := Some (a ++ b, length b);
  acceptor_accept a := (a, Ok (if (3 <=? length a)%nat then Some a else None));
  hello_alpn a := Some [bstr "h2"; bstr "http/1.1"];
  into_connection a _ := Ok a;
  read_tls c b := Some (c ++ b, length b);
  process_new_packets c := (c, Ok tt);
  reader_read c n := (drop n c, Some (take n c));
  wants_write _ := false;
  write_tls c := (c, None);
  writer_write c p := (c, Some (length p));
  is_handshaking _ := false;
  conn_close_notify c := c;
  alpn_protocol _ := None;
  sni_name _ := None;
  plaintext_left c := length c;
  tls_left _ := 0%nat;
  reader_progress c n c' b rest := demo_reader c n c' b rest;
  writer_progress c c' b (H : false = true) _ := False_ind _ (diff_false_true H);
  writer_bound c p c' n := demo_writer c p c' n;
|}.

Lemma handoff_replays_every_byte_witness :
  let s := (@feeds demo_stack (@Session_new demo_stack) [] [[22; 3]; [1; 0]; [5]]).1 in
  @s_offer demo_stack s = Some Http2 /\ @into_replay demo_stack s = [22; 3; 1; 0; 5].
Proof.
  split; [reflexivity|].
  by destruct (@handoff_replays_every_byte demo_stack [[22; 3]; [1; 0]; [5]] I) as [-> _].
Defined.
