(* ===== verification/Pool.v ===== *)
(** One core's idle upstream connections: [crates/ramjet-engine/src/engine/pool.rs].

    Descriptors and clock readings are integers; [Instant::now()] is an
    argument, and [duration_since] saturates at zero as the library documents.
    The two operations that walk the map do so in the unspecified order of
    [HashOrder]. *)

From S2P Require Import Prelude.

Record Idle := MkIdle { fd : Z; since : Z }.
#[export] Instance Idle_eq_dec : EqDecision Idle.
Proof. solve_decision. Defined.

Record Pool := MkPool {
  by_endpoint : gmap SocketAddr (list Idle);
  max_idle_per_host : usize;
  idle_timeout : Z;
}.

Definition Pool_new (max_idle_per_host : usize) (idle_timeout : Z) : Pool :=
  MkPool ∅ max_idle_per_host idle_timeout.

Definition with_endpoints (p : Pool) (m : gmap SocketAddr (list Idle)) : Pool :=
  MkPool m (max_idle_per_host p) (idle_timeout p).

(** The entry of an endpoint, gone when it has become empty. *)
Definition set_or_drop (a : SocketAddr) (idle : list Idle) (m : gmap SocketAddr (list Idle)) :=
  match idle with [] => delete a m | _ => <[a := idle]> m end.

Definition pool_take (a : SocketAddr) (p : Pool) : option Z * Pool :=
  match by_endpoint p !! a with
  | None => (None, p)
  | Some idle =>
      match last idle with
      | None => (None, p)
      | Some taken =>
          (Some (fd taken), with_endpoints p (set_or_drop a (removelast idle) (by_endpoint p)))
      end
  end.

(** The entry is created before the limit is looked at. *)
Definition pool_put (a : SocketAddr) (f now : Z) (p : Pool) : option Z * Pool :=
  let idle := default [] (by_endpoint p !! a) in
  if (max_idle_per_host p <=? length idle)%nat
  then (Some f, with_endpoints p (<[a := idle]> (by_endpoint p)))
  else (None, with_endpoints p (<[a := idle ++ [MkIdle f now]]> (by_endpoint p))).

Definition pool_remove (a : SocketAddr) (f : Z) (p : Pool) : bool * Pool :=
  match by_endpoint p !! a with
  | None => (false, p)
  | Some idle =>
      match position (fun i => fd i =? f) idle with
      | None => (false, p)
      | Some at_ =>
          (true, with_endpoints p
                   (set_or_drop a (take at_ idle ++ drop (S at_) idle) (by_endpoint p)))
      end
  end.

Definition expired (p : Pool) (now : Z) (entry : Idle) : bool :=
  idle_timeout p <=? sat_sub now (since entry).

Definition pool_drain `{HashOrder} (out : list Z) (p : Pool) : list Z * Pool :=
  (out ++ flat_map (fun '(_, idle) => map fd idle) (map_iter (by_endpoint p)), with_endpoints p ∅).

Definition pool_is_empty (p : Pool) : bool := bool_decide (by_endpoint p = ∅).

Definition pool_expire `{HashOrder} (now : Z) (out : list Z) (p : Pool) : list Z * Pool :=
  (out ++ flat_map (fun '(_, idle) => map fd (List.filter (expired p now) idle)) (map_iter (by_endpoint p)),
   with_endpoints p
     (omap (fun idle => match List.filter (fun e => negb (expired p now e)) idle with
                        | [] => None
                        | kept => Some kept
                        end) (by_endpoint p))).

(** ** What the pool holds *)

Definition held_in (l : list (SocketAddr * list Idle)) : list Z :=
  flat_map (fun '(_, idle) => map fd idle) l.
Definition held (p : Pool) : list Z := held_in (map_to_list (by_endpoint p)).

(** The calls of a worker, and the descriptors each of them moves: what the
    pool was offered, and what it gave back. *)
Inductive PoolCall :=
| Call_take (a : SocketAddr)
| Call_put (a : SocketAddr) (f now : Z)
| Call_remove (a : SocketAddr) (f : Z)
| Call_expire (now : Z)
| Call_drain.

Section calls.
Context `{HashOrder}.

Definition pool_call (c : PoolCall) (p : Pool) : list Z * list Z * Pool :=
  match c with
  | Call_take a => let '(r, p') := pool_take a p in ([], option_list r, p')
  | Call_put a f now => let '(r, p') := pool_put a f now p in ([f], option_list r, p')
  | Call_remove a f => let '(r, p') := pool_remove a f p in ([], if r then [f] else [], p')
  | Call_expire now => let '(out, p') := pool_expire now [] p in ([], out, p')
  | Call_drain => let '(out, p') := pool_drain [] p in ([], out, p')
  end.

Fixpoint pool_calls (cs : list PoolCall) (p : Pool) : list Z * list Z * Pool :=
  match cs with
  | [] => ([], [], p)
  | c :: cs =>
      let '(i, o, p) := pool_call c p in
      let '(ins, outs, p) := pool_calls cs p in
      (i ++ ins, o ++ outs, p)
  end.
End calls.

(** ** Lemmas *)

#[export] Instance held_in_perm : Proper ((≡ₚ) ==> (≡ₚ)) held_in.
Proof. intros l l' Hl. unfold held_in. by rewrite Hl. Qed.

Lemma held_insert m a idle :
  held_in (map_to_list (<[a := idle]> m)) ≡ₚ map fd idle ++ held_in (map_to_list (delete a m)).
Proof.
  rewrite <- insert_delete_eq, map_to_list_insert by (by rewrite lookup_delete_eq). done.
Qed.

Lemma held_split m a idle :
  m !! a = Some idle ->
  held_in (map_to_list m) ≡ₚ map fd idle ++ held_in (map_to_list (delete a m)).
Proof. intros Ha. rewrite <- (insert_id m a idle) at 1 by done. apply held_insert. Qed.

Lemma held_set_or_drop m a idle :
  held_in (map_to_list (set_or_drop a idle m)) ≡ₚ map fd idle ++ held_in (map_to_list (delete a m)).
Proof. destruct idle; [done|apply held_insert]. Qed.

(** What each call guarantees: bounded entries, no empty entry unless the
    limit is zero. *)
Definition pool_wf (p : Pool) : Prop :=
  map_Forall (fun _ idle => (length idle <= max_idle_per_host p)%nat /\
    ((0 < max_idle_per_host p)%nat -> idle <> [])) (by_endpoint p).

Lemma set_or_drop_wf (P : SocketAddr -> list Idle -> Prop) m a idle :
  map_Forall P m -> (idle <> [] -> P a idle) -> map_Forall P (set_or_drop a idle m).
Proof.
  intros Hm Hi. destruct idle; simpl; [by apply map_Forall_delete|].
  apply map_Forall_insert_2; [by apply Hi|done].
Qed.

Lemma removelast_last {A} (l : list A) x : last l = Some x -> l = removelast l ++ [x].
Proof.
  intros Hl. apply last_Some in Hl as [l' ->]. by rewrite List.removelast_last.
Qed.

Section pool_lemmas.
Context `{HashOrder}.

Lemma pool_take_effect a p r p' :
  pool_wf p -> pool_take a p = (r, p') ->
  held p ≡ₚ option_list r ++ held p' /\ pool_wf p' /\ max_idle_per_host p' = max_idle_per_host p.
Proof.
  intros Hwf Ht. unfold pool_take in Ht. destruct (by_endpoint p !! a) as [idle|] eqn:Ha; [|by simplify_eq].
  destruct (last idle) as [x|] eqn:Hl; [|by simplify_eq]. simplify_eq. apply removelast_last in Hl.
  destruct (Hwf a idle Ha) as [Hlen _]. rewrite Hl, length_app in Hlen. simpl in Hlen.
  split_and!; [|apply set_or_drop_wf; simpl; [done|split; [lia|done]]|done].
  unfold held. simpl. rewrite held_set_or_drop, (held_split _ a idle Ha), Hl at 1.
  rewrite List.map_app. simpl. by rewrite (Permutation_app_comm (map fd (removelast idle)) [fd x]), <- app_assoc.
Qed.

Lemma pool_put_effect a f now p r p' :
  pool_wf p -> pool_put a f now p = (r, p') ->
  f :: held p ≡ₚ option_list r ++ held p' /\ pool_wf p' /\ max_idle_per_host p' = max_idle_per_host p.
Proof.
  intros Hwf Hp. unfold pool_put in Hp. set (idle := default [] (by_endpoint p !! a)) in *.
  assert (Hheld : held p ≡ₚ map fd idle ++ held_in (map_to_list (delete a (by_endpoint p)))).
  { unfold held, idle. destruct (by_endpoint p !! a) as [l|] eqn:Ha; [by apply held_split|].
    simpl. by rewrite delete_id. }
  assert (Hlen : (length idle <= max_idle_per_host p)%nat).
  { unfold idle. destruct (by_endpoint p !! a) as [l|] eqn:Ha; [by apply (Hwf a)|simpl; lia]. }
  destruct (max_idle_per_host p <=? length idle)%nat eqn:Hfull; simplify_eq; split_and!; try done.
  - unfold held at 2. simpl. by rewrite held_insert, <- Hheld.
  - apply map_Forall_insert_2; [|done]. simpl. split; [done|]. intros ? ->. simpl in *. lia.
  - unfold held at 2. simpl. rewrite held_insert, Hheld, List.map_app. simpl.
    by rewrite (Permutation_app_comm (map fd idle) [f]), <- app_assoc.
  - apply map_Forall_insert_2; [|done]. rewrite length_app. simpl. split; [lia|]. by destruct idle.
Qed.

Lemma pool_remove_effect a f p r p' :
  pool_wf p -> pool_remove a f p = (r, p') ->
  held p ≡ₚ (if r then [f] else []) ++ held p' /\ pool_wf p' /\ max_idle_per_host p' = max_idle_per_host p.
Proof.
  intros Hwf Hr. unfold pool_remove in Hr. destruct (by_endpoint p !! a) as [idle|] eqn:Ha; [|by simplify_eq].
  destruct (position _ idle) as [n|] eqn:Hn; simplify_eq; [|done].
  apply position_Some in Hn as (x&Hn&Hx&_). assert (fd x = f) as <- by lia.
  destruct (Hwf a idle Ha) as [Hlen _]. pose proof (lookup_lt_Some _ _ _ Hn).
  split_and!; [|apply set_or_drop_wf; simpl; [done|split; [rewrite length_app, length_take, length_drop; lia|done]]|done].
  unfold held. simpl. rewrite held_set_or_drop, (held_split _ a idle Ha).
  rewrite <- (take_drop_middle idle n x Hn) at 1. rewrite !List.map_app. simpl.
  by rewrite <- Permutation_middle.
Qed.

Lemma pool_drain_effect out p out' p' :
  pool_drain out p = (out', p') ->
  out ++ held p ≡ₚ out' ++ held p' /\ pool_wf p' /\ max_idle_per_host p' = max_idle_per_host p.
Proof.
  intros Hd. unfold pool_drain in Hd. simplify_eq. split_and!; [|apply map_Forall_empty|done].
  unfold held at 2. simpl. rewrite app_nil_r. f_equiv. unfold held. by rewrite <- (map_iter_perm (by_endpoint p)).
Qed.

Lemma filter_both {A} (q : A -> bool) (l : list A) :
  l ≡ₚ List.filter q l ++ List.filter (fun x => negb (q x)) l.
Proof.
  induction l as [|x l IH]; [done|]. simpl. destruct (q x); simpl; rewrite IH at 1; [done|].
  apply Permutation_middle.
Qed.

Lemma held_omap (g : list Idle -> option (list Idle)) m :
  held_in (map_to_list (omap g m)) ≡ₚ
  flat_map (fun '(_, idle) => map fd (default [] (g idle))) (map_to_list m).
Proof.
  induction m as [|a idle m Ha IH] using map_ind; [done|].
  rewrite (map_to_list_insert m) by done. simpl. rewrite <- IH. clear IH.
  destruct (g idle) as [kept|] eqn:Hg; simpl.
  - rewrite (omap_insert_Some g m a idle kept Hg). rewrite map_to_list_insert; [done|].
    by rewrite lookup_omap, Ha.
  - rewrite (omap_insert_None g m a idle Hg), delete_id; [done|]. by rewrite lookup_omap, Ha.
Qed.

Lemma pool_expire_effect now out p out' p' :
  pool_wf p -> pool_expire now out p = (out', p') ->
  out ++ held p ≡ₚ out' ++ held p' /\ pool_wf p' /\ max_idle_per_host p' = max_idle_per_host p.
Proof.
  intros Hwf He. unfold pool_expire in He. simplify_eq. split_and!; [| |done].
  - unfold held at 2. simpl. rewrite held_omap, <- app_assoc. f_equiv. rewrite (map_iter_perm (by_endpoint p)).
    unfold held. generalize (map_to_list (by_endpoint p)) as l. clear Hwf.
    induction l as [|[a idle] l IH]; [done|]. simpl. rewrite IH.
    rewrite (filter_both (expired p now) idle) at 1. rewrite List.map_app.
    destruct (List.filter (fun e => negb _) idle) as [|k ks]; simpl; solve_Permutation.
  - intros a idle Ha. simpl in Ha. apply lookup_omap_Some in Ha as (old&Hk&Ha).
    destruct (Hwf a old Ha) as [Hlen _].
    assert (length (List.filter (fun e => negb (expired p now e)) old) <= length old)%nat by apply List.filter_length_le.
    destruct (List.filter _ old) as [|k ks]; [done|]. simplify_eq. split; [simpl in *; lia|done].
Qed.

Lemma pool_call_effect c p i o p' :
  pool_wf p -> pool_call c p = (i, o, p') ->
  i ++ held p ≡ₚ o ++ held p' /\ pool_wf p' /\ max_idle_per_host p' = max_idle_per_host p.
Proof.
  intros Hwf Hc. destruct c; simpl in Hc.
  - destruct (pool_take a p) as [r q] eqn:E. simplify_eq. by apply (pool_take_effect a).
  - destruct (pool_put a f now p) as [r q] eqn:E. simplify_eq. by apply (pool_put_effect a f now).
  - destruct (pool_remove a f p) as [r q] eqn:E. simplify_eq. by apply (pool_remove_effect a f).
  - destruct (pool_expire now [] p) as [r q] eqn:E. simplify_eq. by apply (pool_expire_effect now []).
  - destruct (pool_drain [] p) as [r q] eqn:E. simplify_eq. by apply (pool_drain_effect []).
Qed.

Lemma pool_calls_effect cs p i o p' :
  pool_wf p -> pool_calls cs p = (i, o, p') ->
  i ++ held p ≡ₚ o ++ held p' /\ pool_wf p' /\ max_idle_per_host p' = max_idle_per_host p.
Proof.
  revert p i o. induction cs as [|c cs IH]; intros p i o Hwf Hc; simpl in Hc; [by simplify_eq|].
  destruct (pool_call c p) as [[i1 o1] p1] eqn:E1. destruct (pool_calls cs p1) as [[i2 o2] p2] eqn:E2.
  simplify_eq. destruct (pool_call_effect _ _ _ _ _ Hwf E1) as (Hp1&Hwf1&<-).
  destruct (IH _ _ _ Hwf1 E2) as (Hp2&Hwf2&Hm2). split_and!; [|done|done].
  rewrite <- (app_assoc o1), <- Hp2, (Permutation_app_comm i1 i2), <- app_assoc, Hp1. solve_Permutation.
Qed.

Lemma held_nil p : pool_wf p -> (0 < max_idle_per_host p)%nat -> held p = [] <-> by_endpoint p = ∅.
Proof.
  intros Hwf Hmax. unfold held. split; [|by intros ->].
  destruct (map_choose_or_empty (by_endpoint p)) as [(a&idle&Ha)|]; [|done].
  destruct (Hwf a idle Ha) as [_ Hne]. intros Hh. exfalso. pose proof (held_split _ a idle Ha) as Hs.
  rewrite Hh in Hs. apply Permutation_nil_l in Hs. destruct idle; [by apply (Hne Hmax)|done].
Qed.

(** * Properties *)

(** The pool never loses, invents or duplicates a descriptor.  After any
    sequence of calls on a new pool, what it was offered is exactly what it
    gave back (refused, taken, removed, expired or drained) together with what
    it still holds; no endpoint holds more than the limit; and, for a limit
    that is not zero, it reports empty exactly when it holds nothing. *)
Theorem pool_conserves_descriptors limit timeout calls offered given p :
  pool_calls calls (Pool_new limit timeout) = (offered, given, p) ->
  offered ≡ₚ given ++ held p /\
  map_Forall (fun _ idle => (length idle <= limit)%nat) (by_endpoint p) /\
  ((0 < limit)%nat -> pool_is_empty p = true <-> held p = []).
Proof.
  intros Hc. destruct (pool_calls_effect _ _ _ _ _ (map_Forall_empty _) Hc) as (Hp&Hwf&Hm).
  unfold held at 1 in Hp. simpl in Hp, Hm. rewrite app_nil_r in Hp. split_and!; [done| |].
  - intros a idle Ha. rewrite <- Hm. by apply (Hwf a).
  - rewrite <- Hm. intros Hmax. unfold pool_is_empty. rewrite bool_decide_eq_true, held_nil; done.
Qed.

(** The warmest connection is reused first and only idle ones expire.  A
    connection the pool accepted is the next one handed out for its endpoint,
    and taking it leaves the pool as it was; and a sweep hands out exactly the
    descriptors whose idle time has reached the timeout, keeping the order of
    the rest. *)
Theorem pool_reuse_and_expiry a f now p p' sweep :
  pool_wf p -> (0 < max_idle_per_host p)%nat ->
  pool_put a f now p = (None, p') ->
  pool_take a p' = (Some f, p) /\
  (pool_expire sweep [] p).1 ≡ₚ
    omap (fun e => if expired p sweep e then Some (fd e) else None)
      (concat (map snd (map_to_list (by_endpoint p)))) /\
  forall b, default [] (by_endpoint (pool_expire sweep [] p).2 !! b) =
    List.filter (fun e => negb (expired p sweep e)) (default [] (by_endpoint p !! b)).
Proof.
  intros Hwf Hmax Hput. split_and!.
  - unfold pool_put in Hput. destruct (_ <=? _)%nat eqn:Hfull; simplify_eq. unfold pool_take. simpl.
    rewrite lookup_insert_eq, last_snoc. simpl. rewrite List.removelast_last. destruct p as [m limit t].
    unfold with_endpoints. simpl in *. do 2 f_equal. destruct (m !! a) as [idle|] eqn:Ha; simpl.
    + destruct (Hwf a idle Ha) as [_ Hne]. destruct idle as [|i is_]; [by destruct (Hne Hmax)|].
      simpl. by rewrite insert_insert_eq, insert_id.
    + by rewrite delete_insert_id.
  - unfold pool_expire. simpl. rewrite (map_iter_perm (by_endpoint p)).
    induction (map_to_list (by_endpoint p)) as [|[b idle] l IH]; [done|]. simpl. rewrite omap_app, <- IH.
    f_equiv. induction idle as [|e idle IHe]; [done|]. simpl. destruct (expired p sweep e); simpl; by rewrite IHe.
  - intros b. unfold pool_expire. simpl. rewrite lookup_omap. destruct (by_endpoint p !! b) as [idle|]; [|done].
    simpl. by destruct (List.filter _ idle).
Qed.
End pool_lemmas.

(** A pool with a zero limit refuses every connection, and remembers the
    endpoint it refused it for: it holds nothing and does not report empty. *)
Lemma refused_put_leaves_an_entry a f now timeout :
  let '(refused, p) := pool_put a f now (Pool_new 0 timeout) in
  refused = Some f /\ held p = [] /\ pool_is_empty p = false.
Proof.
  unfold pool_put. simpl. split_and!; [done| |].
  - unfold held. simpl. by rewrite insert_empty, map_to_list_singleton.
  - apply bool_decide_eq_false. simpl. apply insert_non_empty.
Qed.

Definition demo_calls : list PoolCall :=
  let a := SocketV4 [10; 0; 0; 1] 80 in
  let b := SocketV4 [10; 0; 0; 2] 80 in
  [Call_put a 7 0; Call_put a 8 1; Call_put a 9 2; Call_put b 10 3; Call_take a; Call_expire 90; Call_remove b 10].

Lemma pool_conserves_descriptors_witness :
  let '(offered, given, p) := pool_calls (H := listed_order) demo_calls (Pool_new 2 90) in
  offered = [7; 8; 9; 10] /\ given = [9; 8; 7; 10] /\ offered ≡ₚ given ++ held p.
Proof.
  destruct (pool_calls (H := listed_order) demo_calls (Pool_new 2 90)) as [[o g] p] eqn:E.
  destruct (pool_conserves_descriptors (H := listed_order) 2 90 demo_calls o g p E) as [Hp _].
  split_and!; [by injection E| |exact Hp]. injection E as _ <- _. vm_compute. reflexivity.
Defined.

Lemma pool_reuse_and_expiry_witness :
  let a := SocketV4 [10; 0; 0; 1] 80 in
  pool_take a (pool_put a 7 0 (Pool_new 2 90)).2 = (Some 7, Pool_new 2 90).
Proof.
  intros a. refine (proj1 (pool_reuse_and_expiry (H := listed_order) a 7 0 (Pool_new 2 90) _ 100 _ _ _)).
  - apply map_Forall_empty.
  - simpl. lia.
  - reflexivity.
Defined.
