(* ===== verification/Codec.v ===== *)
(** What the two HTTP/1.1 codecs share: [CodecError], [Version] and the limits
    of [crates/ramjet-engine/src/codec/mod.rs]. *)

From S2P Require Import Prelude.

Definition MAX_HEAD : usize := Z.to_nat 16384.
Definition MAX_HEADERS : usize := 64.

Inductive Version := Http10 | Http11.
#[export] Instance Version_eq_dec : EqDecision Version.
Proof. solve_decision. Defined.

Definition version_as_bytes (v : Version) : bytes :=
  match v with Http10 => bstr "HTTP/1.0" | Http11 => bstr "HTTP/1.1" end.

Inductive CodecError :=
| Malformed (why : str)
| TooLarge
| TooManyHeaders
| Unsupported (what : str).
#[export] Instance CodecError_eq_dec : EqDecision CodecError.
Proof. solve_decision. Defined.

Definition error_status (e : CodecError) : u16 :=
  match e with
  | Malformed _ => 400
  | TooLarge => 413
  | TooManyHeaders => 431
  | Unsupported _ => 501
  end.

Definition error_detail (e : CodecError) : str :=
  match e with
  | Malformed why => why
  | TooLarge => bstr "the head exceeded the size limit"
  | TooManyHeaders => bstr "too many header fields"
  | Unsupported what => what
  end.

(** The [Display] of an error. *)
Definition error_display (e : CodecError) : str :=
  match e with
  | Malformed why => bstr "malformed message: " ++ why
  | TooLarge => bstr "message head too large"
  | TooManyHeaders => bstr "too many header fields"
  | Unsupported what => bstr "unsupported: " ++ what
  end.
