(* ===== verification/Chunked.v ===== *)
(** The chunked-body scanner: [crates/ramjet-engine/src/codec/chunked.rs].

    [scan] is the loop with its bulk path for chunk data, [step] the byte-level
    state machine; the [unreachable!] arm of the source is [None].  The grammar
    [chunked_body] says what a chunked body is, and [chunked_scan_exact] that
    the scanner accepts exactly that, ending exactly at its last byte. *)

From S2P Require Import Prelude Codec.

Definition MAX_CHUNK_LINE : usize := Z.to_nat 1024.
Definition MAX_TRAILER : usize := Z.to_nat 8192.

Inductive State :=
| Size (value : u64) (digits : u32)
| Ext (size : u64)
| SizeLf (size : u64)
| Data (left_ : u64)
| DataCr
| DataLf
| TrailerStart
| TrailerLine
| TrailerCr
| FinalLf
| Done.
#[export] Instance State_eq_dec : EqDecision State.
Proof. solve_decision. Defined.

Record ChunkScan := MkChunkScan {
  scan_state : State;
  scan_line : usize;
  scan_trailer : usize;
}.

Definition ChunkScan_new : ChunkScan := MkChunkScan (Size 0 0) 0 0.
Definition is_done (c : ChunkScan) : bool := bool_decide (scan_state c = Done).

Definition hex_value (b : u8) : option u8 :=
  if (48 <=? b) && (b <=? 57) then Some (b - 48)
  else if (97 <=? b) && (b <=? 102) then Some (b - 97 + 10)
  else if (65 <=? b) && (b <=? 70) then Some (b - 65 + 10)
  else None.

(** [self.state = ..; Ok(())], [return Err(..)] with the counters already
    bumped, and the panic of [unreachable!]. *)
Abbreviation outcome A := (option (ChunkScan * result CodecError A)) (only parsing).

Definition go (s : State) (line trailer : usize) : outcome unit :=
  Some (MkChunkScan s line trailer, Ok tt).
Definition refuse {A} (c : ChunkScan) (why : str) : outcome A := Some (c, Err (Malformed why)).

Definition step (c : ChunkScan) (b : u8) : outcome unit :=
  let st := scan_state c in
  let line := scan_line c in
  let trailer := scan_trailer c in
  match st with
  | Size value digits =>
      let c1 := MkChunkScan st (S line) trailer in
      if (MAX_CHUNK_LINE <? S line)%nat then refuse c1 (bstr "chunk size line too long")
      else if (b =? CR) && (0 <? digits) then go (SizeLf value) (S line) trailer
      else if (b =? chr ";") && (0 <? digits) then go (Ext value) (S line) trailer
      else match hex_value b with
           | None => refuse c1 (bstr "chunk size is not hexadecimal")
           | Some d =>
               if 16 <=? digits then refuse c1 (bstr "chunk size too large")
               else go (Size (wrap64 (value * 16 + d)) (digits + 1)) (S line) trailer
           end
  | Ext size =>
      let c1 := MkChunkScan st (S line) trailer in
      if (MAX_CHUNK_LINE <? S line)%nat then refuse c1 (bstr "chunk size line too long")
      else if b =? CR then go (SizeLf size) (S line) trailer
      else if b =? LF then refuse c1 (bstr "bare LF in a chunk extension")
      else go (Ext size) (S line) trailer
  | SizeLf size =>
      if negb (b =? LF) then refuse c (bstr "chunk size line not closed by CRLF")
      else if size =? 0 then go TrailerStart 0 trailer
      else go (Data size) 0 trailer
  | Data _ => None
  | DataCr =>
      if negb (b =? CR) then refuse c (bstr "chunk data not closed by CRLF")
      else go DataLf line trailer
  | DataLf =>
      if negb (b =? LF) then refuse c (bstr "chunk data not closed by CRLF")
      else go (Size 0 0) line trailer
  | TrailerStart =>
      let c1 := MkChunkScan st line (S trailer) in
      if (MAX_TRAILER <? S trailer)%nat then refuse c1 (bstr "trailer section too long")
      else if b =? CR then go FinalLf line (S trailer)
      else if b =? LF then refuse c1 (bstr "bare LF in a trailer")
      else go TrailerLine line (S trailer)
  | TrailerLine =>
      let c1 := MkChunkScan st line (S trailer) in
      if (MAX_TRAILER <? S trailer)%nat then refuse c1 (bstr "trailer section too long")
      else if b =? CR then go TrailerCr line (S trailer)
      else if b =? LF then refuse c1 (bstr "bare LF in a trailer")
      else go TrailerLine line (S trailer)
  | TrailerCr =>
      if negb (b =? LF) then refuse c (bstr "trailer line not closed by CRLF")
      else go TrailerStart line trailer
  | FinalLf =>
      if negb (b =? LF) then refuse c (bstr "chunked body not closed by CRLF")
      else go Done line trailer
  | Done => go Done line trailer
  end.

(** The [while] loop of [scan] over what remains of the input; the fuel (twice
    the input) is never used up, see [scan_total]. *)
Fixpoint scan_loop (fuel : nat) (c : ChunkScan) (i : usize) (rest : list u8)
    : outcome (usize * bool) :=
  match rest with
  | [] => Some (c, Ok (i, is_done c))
  | b :: rest' =>
      match fuel with
      | 0%nat => None
      | S fuel' =>
          match scan_state c with
          | Done => Some (c, Ok (i, true))
          | Data left_ =>
              let take_ := Z.to_nat (Z.min left_ (Z.of_nat (length rest))) in
              let left_' := left_ - Z.of_nat take_ in
              scan_loop fuel'
                (MkChunkScan (if left_' =? 0 then DataCr else Data left_') (scan_line c) (scan_trailer c))
                (i + take_) (drop take_ rest)
          | _ =>
              match step c b with
              | None => None
              | Some (c', Err e) => Some (c', Err e)
              | Some (c', Ok _) => scan_loop fuel' c' (S i) rest'
              end
          end
      end
  end.

Definition scan (c : ChunkScan) (input : list u8) : outcome (usize * bool) :=
  scan_loop (2 * length input) c 0 input.

(** ** The grammar of a chunked body *)

(** The value of a string of hexadecimal digits. *)
Fixpoint hex_number (acc : Z) (l : list u8) : option Z :=
  match l with
  | [] => Some acc
  | b :: l' => d ← hex_value b; hex_number (acc * 16 + d) l'
  end.

Definition no_crlf (l : list u8) : Prop := Forall (fun b => b <> CR /\ b <> LF) l.

(** A size line: one to sixteen digits, an optional extension, CRLF. *)
Inductive size_line (n : Z) : list u8 -> Prop :=
| size_line_plain hex :
    (1 <= length hex <= 16)%nat -> hex_number 0 hex = Some n ->
    size_line n (hex ++ [CR; LF])
| size_line_ext hex ext :
    (1 <= length hex <= 16)%nat -> hex_number 0 hex = Some n -> no_crlf ext ->
    (length hex + length ext + 2 <= MAX_CHUNK_LINE)%nat ->
    size_line n (hex ++ chr ";" :: ext ++ [CR; LF]).

(** The trailer section, [used] bytes of its budget already spent. *)
Inductive trailer_section : nat -> list u8 -> Prop :=
| trailer_end used :
    (used + 1 <= MAX_TRAILER)%nat -> trailer_section used [CR; LF]
| trailer_field used field rest :
    field <> [] -> no_crlf field -> (used + length field + 1 <= MAX_TRAILER)%nat ->
    trailer_section (used + length field + 1) rest ->
    trailer_section used (field ++ [CR; LF] ++ rest).

(** A whole body and the payload it carries. *)
Inductive chunked_body : list u8 -> list u8 -> Prop :=
| chunked_last line trailers :
    size_line 0 line -> trailer_section 0 trailers ->
    chunked_body (line ++ trailers) []
| chunked_chunk n line data rest payload :
    size_line n line -> 0 < n -> n = Z.of_nat (length data) ->
    chunked_body rest payload ->
    chunked_body (line ++ data ++ [CR; LF] ++ rest) (data ++ payload).

(** ** One byte at a time *)

(** What [scan] does with a single byte, the bulk path included. *)
Definition byte_step (c : ChunkScan) (b : u8) : outcome unit :=
  match scan_state c with
  | Data left_ =>
      Some (MkChunkScan (if left_ - 1 =? 0 then DataCr else Data (left_ - 1)) (scan_line c) (scan_trailer c), Ok tt)
  | _ => step c b
  end.

Fixpoint run (c : ChunkScan) (i : usize) (input : list u8) : outcome (usize * bool) :=
  match input with
  | [] => Some (c, Ok (i, is_done c))
  | b :: rest =>
      if is_done c then Some (c, Ok (i, true))
      else match byte_step c b with
           | None => None
           | Some (c', Err e) => Some (c', Err e)
           | Some (c', Ok _) => run c' (S i) rest
           end
  end.

(** Reading [l] from [c] ends in [c'], never standing still in [Done]. *)
Inductive reads : ChunkScan -> list u8 -> ChunkScan -> Prop :=
| reads_nil c : reads c [] c
| reads_cons c b l c1 c' :
    is_done c = false -> byte_step c b = Some (c1, Ok tt) -> reads c1 l c' ->
    reads c (b :: l) c'.

(** ** Lemmas *)

#[local] Arguments MAX_CHUNK_LINE : simpl never.
#[local] Arguments MAX_TRAILER : simpl never.

Definition scan_wf (c : ChunkScan) : Prop :=
  match scan_state c with
  | Data left_ => 0 < left_
  | Size n _ | Ext n | SizeLf n => 0 <= n
  | _ => True
  end.

Lemma is_done_spec c : is_done c = true <-> scan_state c = Done.
Proof. apply bool_decide_eq_true. Qed.

(** The counters only say how far a line may still go. *)
Ltac step_cases :=
  repeat match goal with
  | H : context [if ?b then _ else _] |- _ => destruct b eqn:?; simplify_eq/=
  | H : context [match hex_value ?b with _ => _ end] |- _ => destruct (hex_value b) eqn:?; simplify_eq/=
  end.

Lemma step_wf c b c' r : scan_wf c -> byte_step c b = Some (c', r) -> scan_wf c'.
Proof.
  unfold scan_wf, byte_step, step, go, refuse. intros Hwf Hs.
  destruct (scan_state c) eqn:Hc; step_cases; simplify_eq/=; rewrite ?Hc; try done; try lia.
  apply wrap_range. lia.
Qed.

Lemma byte_step_total c b : exists c' r, byte_step c b = Some (c', r).
Proof.
  unfold byte_step, step, go, refuse. destruct (scan_state c); eauto;
    repeat (case_match; eauto).
Qed.

Lemma hex_value_range b d : hex_value b = Some d -> 0 <= d < 16.
Proof. unfold hex_value. intros. step_cases; lia. Qed.

(** The bulk path over [n] bytes is [n] single steps. *)
Lemma run_data n left_ line trailer i rest :
  (n <= length rest)%nat -> Z.of_nat n <= left_ -> (0 < n)%nat ->
  run (MkChunkScan (Data left_) line trailer) i rest =
  run (MkChunkScan (if left_ - Z.of_nat n =? 0 then DataCr else Data (left_ - Z.of_nat n)) line trailer)
    (i + n) (drop n rest).
Proof.
  revert left_ i rest. induction n as [|n IH]; intros left_ i rest Hl Hn Hp; [lia|].
  destruct rest as [|b rest]; [simpl in Hl; lia|]. cbn [run drop].
  replace (is_done _) with false by done. unfold byte_step. cbn [scan_state scan_line scan_trailer].
  destruct n as [|n].
  - rewrite drop_0. replace (i + 1)%nat with (S i) by lia. done.
  - replace (left_ - 1 =? 0) with false by lia. rewrite IH by (simpl in Hl; lia).
    replace (left_ - 1 - Z.of_nat (S n)) with (left_ - Z.of_nat (S (S n))) by lia.
    by replace (S i + S n)%nat with (i + S (S n))%nat by lia.
Qed.

Lemma scan_loop_run fuel c i rest :
  scan_wf c -> (2 * length rest <= fuel)%nat -> scan_loop fuel c i rest = run c i rest.
Proof.
  revert c i rest. induction fuel as [|fuel IH]; intros c i rest Hwf Hf.
  { destruct rest; [done|simpl in Hf; lia]. }
  destruct rest as [|b rest]; [done|]. cbn [scan_loop].
  destruct (scan_state c) eqn:Hc.
  4: { destruct c as [st line trailer]. simpl in Hc. subst st.
    assert (Hp : 0 < left_) by done.
    set (n := Z.to_nat (Z.min left_ (Z.of_nat (length (b :: rest))))).
    assert (Hn : (0 < n <= length (b :: rest))%nat /\ Z.of_nat n <= left_) by (unfold n; simpl; lia).
    rewrite (run_data n) by lia. cbn [scan_line scan_trailer]. apply IH.
    - unfold scan_wf. simpl. destruct (_ =? 0) eqn:?; [done|lia].
    - rewrite length_drop. lia. }
  10: { cbn [run]. by rewrite (proj2 (is_done_spec c) Hc). }
  all: cbn [run]; assert (Hd : is_done c = false) by
    (apply not_true_iff_false; rewrite is_done_spec; congruence); rewrite Hd;
    assert (Hb : byte_step c b = step c b) by (unfold byte_step; by rewrite Hc);
    rewrite Hb; destruct (step c b) as [[c' [[]|e]]|] eqn:Hs; try done;
    apply IH; [by eapply step_wf|simpl in Hf; lia].
Qed.

Lemma scan_run c input : scan_wf c -> scan c input = run c 0 input.
Proof. intros. by apply scan_loop_run. Qed.

Lemma run_app c i a b :
  run c i (a ++ b) =
  match run c i a with
  | Some (c1, Ok (n, false)) => run c1 n b
  | r => r
  end.
Proof.
  revert c i. induction a as [|x a IH]; intros c i; cbn [app run].
  - destruct (is_done c) eqn:Hd; [|done]. destruct b; cbn [run]; by rewrite Hd.
  - destruct (is_done c); [done|]. destruct (byte_step c x) as [[c' [[]|e]]|]; [apply IH|done|done].
Qed.

Lemma run_wf c i a c' r : scan_wf c -> run c i a = Some (c', r) -> scan_wf c'.
Proof.
  revert c i. induction a as [|x a IH]; intros c i Hwf; cbn [run]; [by intros [= <- <-]|].
  destruct (is_done c); [by intros [= <- <-]|].
  destruct (byte_step c x) as [[c1 [[]|e]]|] eqn:Hs; try done; [|intros [= <- <-]; by eapply step_wf].
  apply IH. by eapply step_wf.
Qed.

Lemma run_offset c i k a :
  run c (k + i) a =
  match run c i a with
  | Some (c1, Ok (n, d)) => Some (c1, Ok ((k + n)%nat, d))
  | r => r
  end.
Proof.
  revert c i. induction a as [|x a IH]; intros c i; cbn [run]; [done|].
  destruct (is_done c); [done|]. destruct (byte_step c x) as [[c' [[]|e]]|]; try done.
  rewrite <- Nat.add_succ_r. apply IH.
Qed.

(** What a run reports about its input. *)
Lemma run_reads c i a c' n d :
  run c i a = Some (c', Ok (n, d)) ->
  exists body rest, a = body ++ rest /\ n = (i + length body)%nat /\ reads c body c' /\
    d = is_done c' /\ (d = false -> rest = []).
Proof.
  revert c i. induction a as [|x a IH]; intros c i; cbn [run].
  { intros [= <- <- <-]. exists [], []. split_and!; try done; try (simpl; lia); constructor. }
  destruct (is_done c) eqn:Hd.
  { intros [= <- <- <-]. exists [], (x :: a). split_and!; try done; try (simpl; lia); constructor. }
  destruct (byte_step c x) as [[c1 [[]|e]]|] eqn:Hs; try done.
  intros (body&rest&->&->&Hr&Hdn&Hrest)%IH. exists (x :: body), rest.
  split_and!; try done; try (simpl; lia); by eapply reads_cons.
Qed.

Lemma reads_run c body c' rest i :
  reads c body c' -> is_done c' = true -> run c i (body ++ rest) = Some (c', Ok ((i + length body)%nat, true)).
Proof.
  intros Hr Hd. revert i. induction Hr as [c|c b l c1 c' Hnd Hs Hr IH]; intros i.
  - simpl. rewrite Nat.add_0_r. destruct rest; cbn [run]; by rewrite Hd.
  - cbn [app run]. rewrite Hnd, Hs, IH by done. simpl. do 4 f_equal. lia.
Qed.

Lemma reads_app c a c1 b c2 : reads c a c1 -> reads c1 b c2 -> reads c (a ++ b) c2.
Proof. induction 1; simpl; [done|]. intros. eapply reads_cons; eauto. Qed.

Lemma reads_prefix_done c a b c1 c2 :
  reads c a c1 -> is_done c1 = true -> reads c (a ++ b) c2 -> b = [] /\ c2 = c1.
Proof.
  intros Ha Hd. revert c2. induction Ha as [c|c x l c1 c' Hnd Hs Hr IH]; intros c2; simpl.
  - inversion 1; [done|congruence].
  - inversion 1; subst. apply IH; [done|]. congruence.
Qed.

(** *** Reading each part of the grammar *)

Lemma reads_done_nil c l c' : is_done c = true -> reads c l c' -> l = [] /\ c' = c.
Proof. intros Hd. inversion 1; [done|congruence]. Qed.

Lemma reads_inv c l c' : is_done c = false -> is_done c' = true -> reads c l c' ->
  exists b t c1, l = b :: t /\ byte_step c b = Some (c1, Ok tt) /\ reads c1 t c'.
Proof. intros Hd Hd' Hr. inversion Hr; subst; [congruence|]. eauto 10. Qed.

(** Peels one byte off a read that finishes. *)
Ltac peel H :=
  apply reads_inv in H; [|done|assumption];
  let b := fresh "b" in let t := fresh "t" in let c1 := fresh "c1" in let Hs := fresh "Hs" in
  let Heq := fresh "Heq" in
  destruct H as (b&t&c1&Heq&Hs&H);
  match type of Heq with
  | ?x = _ => is_var x; subst x
  | _ => injection Heq as <- <-
  end; unfold byte_step, step, go, refuse in Hs;
  cbn [scan_state scan_line scan_trailer] in Hs.

Lemma wrap64_hex v d : 0 <= d -> d < 16 -> 0 <= v < 16 ^ d -> forall x, 0 <= x < 16 ->
  wrap64 (v * 16 + x) = v * 16 + x /\ 0 <= v * 16 + x < 16 ^ (d + 1).
Proof.
  intros Hd Hd' Hv x Hx. assert (16 ^ (d + 1) = 16 ^ d * 16) by (rewrite Z.pow_add_r by lia; lia).
  assert (16 ^ (d + 1) <= 16 ^ 16) by (apply Z.pow_le_mono_r; lia).
  change (16 ^ 16) with (2 ^ 64) in *. split; [|lia]. apply wrap_small. lia.
Qed.

Lemma hex_number_range hex v d n : 0 <= d -> 0 <= v < 16 ^ d ->
  hex_number v hex = Some n -> 0 <= n < 16 ^ (d + Z.of_nat (length hex)).
Proof.
  revert v d. induction hex as [|b hex IH]; intros v d Hd Hv; simpl.
  - intros [= <-]. by rewrite Z.add_0_r.
  - destruct (hex_value b) as [x|] eqn:Hx; simpl; [|done]. apply hex_value_range in Hx.
    intros Hn. replace (d + Z.of_nat (S (length hex))) with (d + 1 + Z.of_nat (length hex)) by lia.
    eapply IH; [|  |exact Hn]; [lia|].
    assert (16 ^ (d + 1) = 16 ^ d * 16) by (rewrite Z.pow_add_r by lia; lia). lia.
Qed.

Definition after_size (n : Z) (trailer : usize) : ChunkScan :=
  MkChunkScan (if n =? 0 then TrailerStart else Data n) 0 trailer.

Lemma read_size_digits body c' v d line tr :
  is_done c' = true -> 0 <= d <= 16 -> 0 <= v < 16 ^ d ->
  reads (MkChunkScan (Size v d) line tr) body c' ->
  exists hex n t, body = hex ++ t /\ hex_number v hex = Some n /\
    1 <= d + Z.of_nat (length hex) <= 16 /\ (line + length hex + 1 <= MAX_CHUNK_LINE)%nat /\
    ((exists t', t = CR :: t' /\ reads (MkChunkScan (SizeLf n) (line + length hex + 1) tr) t' c') \/
     (exists t', t = chr ";" :: t' /\ reads (MkChunkScan (Ext n) (line + length hex + 1) tr) t' c')).
Proof.
  intros Hd'. revert v d line. induction body as [|b body IH]; intros v d line Hd Hv Hr.
  { apply reads_inv in Hr as (?&?&?&?&_); done. }
  peel Hr.
  destruct (MAX_CHUNK_LINE <? S line)%nat eqn:Hline; [done|].
  destruct ((b =? CR) && (0 <? d)) eqn:Hcr.
  { injection Hs as <-. exists [], v, (b :: body). simpl. split_and!; try done; try lia.
    left. exists body. split; [f_equal; lia|]. by replace (line + 0 + 1)%nat with (S line) by lia. }
  destruct ((b =? 59) && (0 <? d)) eqn:Hsc.
  { injection Hs as <-. exists [], v, (b :: body). simpl. split_and!; try done; try lia.
    right. exists body. split; [f_equal; lia|]. by replace (line + 0 + 1)%nat with (S line) by lia. }
  destruct (hex_value b) as [x|] eqn:Hx; [|done].
  destruct (16 <=? d) eqn:H16; [done|]. injection Hs as <-.
  pose proof (hex_value_range _ _ Hx) as Hxr.
  destruct (wrap64_hex v d ltac:(lia) ltac:(lia) Hv x Hxr) as [Hw Hv']. rewrite Hw in Hr.
  destruct (IH _ (d + 1) _ ltac:(lia) Hv' Hr) as (hex&n&t&->&Hn&Hlen&Hl&Ht).
  exists (b :: hex), n, t. simpl. rewrite Hx. simpl. split_and!; try done; try lia.
  replace (line + S (length hex) + 1)%nat with (S line + length hex + 1)%nat by lia. done.
Qed.

Lemma read_ext body c' n line tr :
  is_done c' = true -> reads (MkChunkScan (Ext n) line tr) body c' ->
  exists ext t, body = ext ++ CR :: t /\ no_crlf ext /\ (line + length ext + 1 <= MAX_CHUNK_LINE)%nat /\
    reads (MkChunkScan (SizeLf n) (line + length ext + 1) tr) t c'.
Proof.
  intros Hd'. revert line. induction body as [|b body IH]; intros line Hr.
  { apply reads_inv in Hr as (?&?&?&?&_); done. }
  peel Hr.
  destruct (MAX_CHUNK_LINE <? S line)%nat eqn:Hline; [done|].
  destruct (b =? CR) eqn:Hcr.
  { injection Hs as <-. exists [], body. simpl. split_and!; [f_equal; lia|constructor|lia|].
    by replace (line + 0 + 1)%nat with (S line) by lia. }
  destruct (b =? LF) eqn:Hlf; [done|]. injection Hs as <-.
  destruct (IH _ Hr) as (ext&t&->&Hc&Hl&Ht). exists (b :: ext), t. simpl.
  split_and!; [done|constructor; [lia|done]|lia|].
  by replace (line + S (length ext) + 1)%nat with (S line + length ext + 1)%nat by lia.
Qed.

Lemma read_size_lf body c' n line tr :
  is_done c' = true -> reads (MkChunkScan (SizeLf n) line tr) body c' ->
  exists t, body = LF :: t /\ reads (after_size n tr) t c'.
Proof.
  intros Hd' Hr. peel Hr. destruct (negb (b =? LF)) eqn:Hb; [done|].
  assert (b = LF) as -> by lia. exists t. split; [done|]. unfold after_size.
  destruct (n =? 0); by injection Hs as <-.
Qed.

Lemma read_size_line body c' tr :
  is_done c' = true -> reads (MkChunkScan (Size 0 0) 0 tr) body c' ->
  exists n line t, body = line ++ t /\ size_line n line /\ 0 <= n /\ reads (after_size n tr) t c'.
Proof.
  intros Hd' Hr.
  destruct (read_size_digits _ _ 0 0 0 tr Hd' ltac:(lia) ltac:(lia) Hr)
    as (hex&n&t&->&Hn&Hlen&Hl&[(t'&->&Ht)|(t'&->&Ht)]).
  - apply read_size_lf in Ht as (t2&->&Ht); [|done]. exists n, (hex ++ [CR; LF]), t2.
    rewrite <- app_assoc. split_and!; [done|by constructor; [lia|]| |done].
    eapply (hex_number_range hex 0 0); [lia|lia|done].
  - apply read_ext in Ht as (ext&t2&->&Hc&Hl2&Ht); [|done].
    apply read_size_lf in Ht as (t3&->&Ht); [|done].
    exists n, (hex ++ 59 :: ext ++ [CR; LF]), t3.
    split_and!; [by rewrite <- app_assoc; simpl; rewrite <- app_assoc|
                 apply size_line_ext; [lia|done|done|lia]| |done].
    eapply (hex_number_range hex 0 0); [lia|lia|done].
Qed.

Lemma read_data body c' n line tr :
  is_done c' = true -> 0 < n -> reads (MkChunkScan (Data n) line tr) body c' ->
  exists data t, body = data ++ [CR; LF] ++ t /\ Z.of_nat (length data) = n /\
    reads (MkChunkScan (Size 0 0) line tr) t c'.
Proof.
  intros Hd'. revert n. induction body as [|b body IH]; intros n Hn Hr.
  { apply reads_inv in Hr as (?&?&?&?&_); done. }
  peel Hr. destruct (n - 1 =? 0) eqn:Hz; injection Hs as <-.
  - peel Hr. destruct (negb (b0 =? CR)) eqn:Hb0; [done|]. injection Hs as <-.
    peel Hr. destruct (negb (b1 =? LF)) eqn:Hb1; [done|]. injection Hs as <-.
    exists [b], t0. simpl. split_and!; [do 3 f_equal; lia|lia|done].
  - destruct (IH (n - 1) ltac:(lia) Hr) as (data&t&->&Hlen&Ht).
    exists (b :: data), t. simpl. split_and!; [done|lia|done].
Qed.

Lemma read_trailer_line body c' line used :
  is_done c' = true -> reads (MkChunkScan TrailerLine line used) body c' ->
  exists field t, body = field ++ [CR; LF] ++ t /\ no_crlf field /\
    (used + length field + 1 <= MAX_TRAILER)%nat /\
    reads (MkChunkScan TrailerStart line (used + length field + 1)) t c'.
Proof.
  intros Hd'. revert used. induction body as [|b body IH]; intros used Hr.
  { apply reads_inv in Hr as (?&?&?&?&_); done. }
  peel Hr.
  destruct (MAX_TRAILER <? S used)%nat eqn:Hu; [done|].
  destruct (b =? CR) eqn:Hcr.
  { injection Hs as <-. peel Hr. destruct (negb (b0 =? LF)) eqn:Hb0; [done|]. injection Hs as <-.
    exists [], t. simpl. split_and!; [do 2 f_equal; lia|constructor|lia|].
    by replace (used + 0 + 1)%nat with (S used) by lia. }
  destruct (b =? LF) eqn:Hlf; [done|]. injection Hs as <-.
  destruct (IH _ Hr) as (field&t&->&Hc&Hl&Ht). exists (b :: field), t. simpl.
  split_and!; [done|constructor; [lia|done]|lia|].
  by replace (used + S (length field) + 1)%nat with (S used + length field + 1)%nat by lia.
Qed.

Lemma read_trailer body c' line used :
  is_done c' = true -> reads (MkChunkScan TrailerStart line used) body c' -> trailer_section used body.
Proof.
  intros Hd'. remember (length body) as len eqn:Hlen. revert body used Hlen.
  induction len as [len IH] using lt_wf_ind. intros body used -> Hr.
  peel Hr. destruct (MAX_TRAILER <? S used)%nat eqn:Hu; [done|].
  destruct (b =? CR) eqn:Hcr.
  { injection Hs as <-. peel Hr. destruct (negb (b0 =? LF)) eqn:Hb0; [done|]. injection Hs as <-.
    apply reads_done_nil in Hr as [-> _]; [|done].
    assert (b = CR) as -> by lia. assert (b0 = LF) as -> by lia. apply trailer_end. lia. }
  destruct (b =? LF) eqn:Hlf; [done|]. injection Hs as <-.
  apply read_trailer_line in Hr as (field&t2&->&Hc&Hl&Hr); [|done].
  change (b :: field ++ [CR; LF] ++ t2) with ((b :: field) ++ [CR; LF] ++ t2).
  apply trailer_field; [done|constructor; [lia|done]|simpl; lia|].
  replace (used + length (b :: field) + 1)%nat with (S used + length field + 1)%nat by (simpl; lia).
  eapply IH; [|done|exact Hr]. simpl. rewrite length_app. simpl. lia.
Qed.

Lemma read_body body c' :
  is_done c' = true -> reads ChunkScan_new body c' -> exists payload, chunked_body body payload.
Proof.
  intros Hd'. remember (length body) as len eqn:Hlen. revert body Hlen.
  induction len as [len IH] using lt_wf_ind. intros body -> Hr.
  apply read_size_line in Hr as (n&line&t&->&Hline&Hn&Hr); [|done]. unfold after_size in Hr.
  destruct (n =? 0) eqn:Hz.
  - assert (n = 0) as -> by lia. apply read_trailer in Hr; [|done].
    exists []. by apply chunked_last.
  - apply read_data in Hr as (data&t2&->&Hdata&Hr); [|done|lia].
    destruct (IH (length t2)) with (body := t2) as [payload Hp]; [|done|done|].
    { rewrite !length_app. simpl length. lia. }
    exists (data ++ payload). apply (chunked_chunk n); [done|lia|lia|done].
Qed.

(** *** Every sentence of the grammar is read *)

Lemma reads_step c b c1 : is_done c = false -> byte_step c b = Some (c1, Ok tt) -> reads c [b] c1.
Proof. intros. eapply reads_cons; [done|done|constructor]. Qed.

(** One byte through a state whose counters allow it. *)
Ltac one_step :=
  apply reads_step; [done|]; unfold byte_step, step, go; cbn [scan_state scan_line scan_trailer];
  repeat match goal with |- context [(?a <? ?b)%nat] => replace (a <? b)%nat with false by lia end.

Lemma reads_digits hex v d n line tr :
  0 <= d -> 0 <= v < 16 ^ d -> hex_number v hex = Some n ->
  d + Z.of_nat (length hex) <= 16 -> (line + length hex <= MAX_CHUNK_LINE)%nat ->
  reads (MkChunkScan (Size v d) line tr) hex
        (MkChunkScan (Size n (d + Z.of_nat (length hex))) (line + length hex) tr).
Proof.
  revert v d line. induction hex as [|b hex IH]; intros v d line Hd Hv; simpl.
  - intros [= <-] _ _. rewrite Z.add_0_r, Nat.add_0_r. constructor.
  - destruct (hex_value b) as [x|] eqn:Hx; simpl; [|done]. intros Hn Hlen Hl.
    pose proof (hex_value_range _ _ Hx) as Hxr.
    destruct (wrap64_hex v d ltac:(lia) ltac:(lia) Hv x Hxr) as [Hw Hv'].
    apply (reads_app _ [b] (MkChunkScan (Size (v * 16 + x) (d + 1)) (S line) tr)).
    + one_step. rewrite Hx.
      assert (b <> CR /\ b <> 59) as [].
      { unfold hex_value in Hx. unfold CR. repeat (case_match; simplify_eq); lia. }
      replace (b =? CR) with false by lia. replace (b =? 59) with false by lia. cbn [andb].
      replace (16 <=? d) with false by lia. by rewrite Hw.
    + replace (d + Z.of_nat (S (length hex))) with (d + 1 + Z.of_nat (length hex)) by lia.
      replace (line + S (length hex))%nat with (S line + length hex)%nat by lia.
      apply IH; [lia|lia|done|lia|lia].
Qed.

Lemma reads_extension ext n line tr :
  no_crlf ext -> (line + length ext <= MAX_CHUNK_LINE)%nat ->
  reads (MkChunkScan (Ext n) line tr) ext (MkChunkScan (Ext n) (line + length ext) tr).
Proof.
  intros Hc. revert line. induction Hc as [|b ext [Hb1 Hb2] Hc IH]; intros line; simpl; intros Hl.
  - rewrite Nat.add_0_r. constructor.
  - apply (reads_app _ [b] (MkChunkScan (Ext n) (S line) tr)).
    + one_step. replace (b =? CR) with false by lia. by replace (b =? LF) with false by lia.
    + replace (line + S (length ext))%nat with (S line + length ext)%nat by lia. apply IH. lia.
Qed.

Lemma reads_line_end n line tr : 0 <= n ->
  reads (MkChunkScan (SizeLf n) line tr) [LF] (after_size n tr).
Proof. intros. one_step. cbn. unfold after_size, go. by destruct (n =? 0). Qed.

Lemma reads_size_line n l tr : size_line n l -> reads (MkChunkScan (Size 0 0) 0 tr) l (after_size n tr).
Proof.
  assert (HM : MAX_CHUNK_LINE = 1024%nat) by done.
  intros [hex Hlen Hn|hex ext Hlen Hn Hc Hl];
    pose proof (hex_number_range hex 0 0 n ltac:(lia) ltac:(lia) Hn) as Hr.
  - eapply reads_app; [apply (reads_digits hex 0 0 n); [lia|lia|done|lia|lia]|].
    apply (reads_app _ [CR] (MkChunkScan (SizeLf n) (S (length hex)) tr) [LF]); [|apply reads_line_end; lia].
    one_step. by replace (0 <? 0 + Z.of_nat (length hex)) with true by lia.
  - eapply reads_app; [apply (reads_digits hex 0 0 n); [lia|lia|done|lia|lia]|].
    apply (reads_app _ [59] (MkChunkScan (Ext n) (S (length hex)) tr)).
    { one_step. by replace (0 <? 0 + Z.of_nat (length hex)) with true by lia. }
    eapply reads_app; [apply reads_extension; [done|lia]|].
    apply (reads_app _ [CR] (MkChunkScan (SizeLf n) (S (S (length hex) + length ext)) tr) [LF]);
      [|apply reads_line_end; lia].
    one_step. done.
Qed.

Lemma reads_chunk_data data n line tr :
  Z.of_nat (length data) = n -> 0 < n ->
  reads (MkChunkScan (Data n) line tr) data (MkChunkScan DataCr line tr).
Proof.
  revert n. induction data as [|b data IH]; simpl; intros n Hl Hn; [lia|].
  destruct data as [|b2 data].
  - apply reads_step; [done|]. simpl in *. unfold byte_step. simpl. by replace (n - 1 =? 0) with true by lia.
  - eapply reads_cons; [done| |apply (IH (n - 1)); simpl in *; lia].
    unfold byte_step. simpl. simpl in Hl. by replace (n - 1 =? 0) with false by lia.
Qed.

Lemma reads_field_rest field line used :
  no_crlf field -> (used + length field <= MAX_TRAILER)%nat ->
  reads (MkChunkScan TrailerLine line used) field (MkChunkScan TrailerLine line (used + length field)).
Proof.
  intros Hc. revert used. induction Hc as [|b field [Hb1 Hb2] Hc IH]; intros used; simpl; intros Hl.
  - rewrite Nat.add_0_r. constructor.
  - apply (reads_app _ [b] (MkChunkScan TrailerLine line (S used))).
    + one_step. replace (b =? CR) with false by lia. by replace (b =? LF) with false by lia.
    + replace (used + S (length field))%nat with (S used + length field)%nat by lia. apply IH. lia.
Qed.

Lemma reads_trailer used l line :
  trailer_section used l ->
  exists c', reads (MkChunkScan TrailerStart line used) l c' /\ is_done c' = true.
Proof.
  induction 1 as [used Hu|used field rest Hne Hc Hu _ (c'&Hr&Hd)].
  - eexists. split; [|shelve].
    apply (reads_app _ [CR] (MkChunkScan FinalLf line (S used)) [LF]); [one_step; done|one_step; done].
    Unshelve. done.
  - exists c'. split; [|done]. destruct field as [|b field]; [done|].
    apply Forall_cons in Hc as [[Hb1 Hb2] Hc]. simpl in Hu.
    apply (reads_app _ [b] (MkChunkScan TrailerLine line (S used))).
    { one_step. replace (b =? CR) with false by lia. by replace (b =? LF) with false by lia. }
    eapply reads_app; [apply reads_field_rest; [done|lia]|].
    apply (reads_app _ [CR] (MkChunkScan TrailerCr line (S (S used + length field))) (LF :: rest)).
    { one_step. done. }
    apply (reads_app _ [LF] (MkChunkScan TrailerStart line (S (S used + length field))) rest).
    { one_step. done. }
    simpl in Hr. by replace (S (S used + length field)) with (used + S (length field) + 1)%nat by lia.
Qed.

Lemma reads_body body payload :
  chunked_body body payload -> exists c', reads ChunkScan_new body c' /\ is_done c' = true.
Proof.
  induction 1 as [line trailers Hl Ht|n line data rest payload Hl Hn Hd _ (c'&Hr&Hdn)].
  - destruct (reads_trailer _ _ 0 Ht) as (c'&Hr&Hd). exists c'. split; [|done].
    eapply reads_app; [by apply reads_size_line|]. exact Hr.
  - exists c'. split; [|done]. eapply reads_app; [by apply reads_size_line|].
    unfold after_size. replace (n =? 0) with false by lia.
    eapply reads_app; [apply reads_chunk_data; [by symmetry|done]|].
    apply (reads_app _ [CR] (MkChunkScan DataLf 0 0) (LF :: rest)); [one_step; done|].
    apply (reads_app _ [LF] ChunkScan_new rest); [one_step; done|]. exact Hr.
Qed.

Lemma ChunkScan_new_wf : scan_wf ChunkScan_new.
Proof. done. Qed.

Lemma run_total c i a : exists c' r, run c i a = Some (c', r).
Proof.
  revert c i. induction a as [|b a IH]; intros c i; cbn [run]; [eauto|].
  destruct (is_done c); [eauto|]. destruct (byte_step_total c b) as (c1&r&->).
  destruct r as [[]|e]; eauto.
Qed.

(** ** Feeding a body as it arrives *)

(** The relay's loop: one [scan] per read, until one of them says done. *)
Fixpoint feed (c : ChunkScan) (pieces : list (list u8)) : outcome (usize * bool) :=
  match pieces with
  | [] => Some (c, Ok (0%nat, is_done c))
  | p :: ps =>
      match scan c p with
      | Some (c1, Ok (n, false)) =>
          match feed c1 ps with
          | Some (c2, Ok (m, d)) => Some (c2, Ok ((n + m)%nat, d))
          | r => r
          end
      | r => r
      end
  end.

(** ** Properties *)

(** C12: The scanner finds exactly the chunked bodies.  Fed the bytes of a
    connection, a new scanner reports that the body ends after [n] bytes if
    and only if the first [n] bytes are a well-formed chunked body (sizes of
    at most sixteen digits, CRLF line ends, size line and trailer section
    within their limits): no byte of the next message is taken and none of
    the body is left, and sizes never overflow. *)
Theorem chunked_scan_exact input n :
  (exists c', scan ChunkScan_new input = Some (c', Ok (n, true))) <->
  (exists body rest payload, input = body ++ rest /\ length body = n /\ chunked_body body payload).
Proof.
  rewrite scan_run by done. split.
  - intros (c'&(body&rest&->&->&Hr&Hd&_)%run_reads).
    destruct (read_body _ _ (eq_sym Hd) Hr) as [payload Hp]. by exists body, rest, payload.
  - intros (body&rest&payload&->&<-&(c'&Hr&Hd)%reads_body). exists c'. by apply reads_run.
Qed.

(** Fragmentation does not matter.  However the stream is cut into reads,
    the scanner consumes the same number of bytes, reaches the same verdict or
    the same error, and ends in the same state as in one call. *)
Theorem chunked_scan_split c pieces :
  scan_wf c -> feed c pieces = scan c (concat pieces).
Proof.
  revert c. induction pieces as [|p ps IH]; intros c Hwf; [done|]. cbn [feed concat].
  rewrite !scan_run, run_app by done.
  destruct (run c 0 p) as [[c1 [[n [|]]|e]]|] eqn:Hp; try done.
  assert (Hwf1 : scan_wf c1) by (by eapply run_wf).
  rewrite IH, scan_run by done. pose proof (run_offset c1 0 n (concat ps)) as Ho.
  rewrite Nat.add_0_r in Ho. rewrite Ho. by destruct (run c1 0 (concat ps)) as [[c2 [[m d]|e]]|].
Qed.

(** The scanner always answers.  From every reachable state the loop
    terminates without reaching its [unreachable!] arm; it consumes at most
    the input, all of it unless the body ended, says done exactly when the new
    state is [Done], and leaves a well-formed state behind. *)
Theorem chunked_scan_total c input :
  scan_wf c ->
  exists c' r, scan c input = Some (c', r) /\ scan_wf c' /\
    match r with
    | Ok (n, d) => (n <= length input)%nat /\ d = is_done c' /\ (d = false -> n = length input)
    | Err _ => True
    end.
Proof.
  intros Hwf. rewrite scan_run by done. destruct (run_total c 0 input) as (c'&r&Hr).
  exists c', r. split; [done|]. split; [by eapply run_wf|]. destruct r as [[n d]|e]; [|done].
  apply run_reads in Hr as (body&rest&->&->&_&->&Hrest). rewrite length_app. split_and!; [lia|done|].
  intros ->%Hrest. simpl. lia.
Qed.

Definition demo_wire : list u8 :=
  bstr "5;n=v" ++ [CR; LF] ++ bstr "hello" ++ [CR; LF] ++ bstr "0" ++ [CR; LF]
  ++ bstr "X: y" ++ [CR; LF; CR; LF].

Lemma chunked_scan_split_witness :
  feed ChunkScan_new [take 9 demo_wire; drop 9 demo_wire ++ bstr "GET"]
  = scan ChunkScan_new (demo_wire ++ bstr "GET").
Proof.
  apply (chunked_scan_split ChunkScan_new [take 9 demo_wire; drop 9 demo_wire ++ bstr "GET"]).
  exact I || (vm_compute; discriminate).
Defined.

Lemma chunked_scan_total_witness :
  exists c' r, scan ChunkScan_new demo_wire = Some (c', r) /\ scan_wf c'.
Proof.
  destruct (chunked_scan_total ChunkScan_new demo_wire) as (c'&r&Hs&Hwf&_).
  - vm_compute. discriminate.
  - exists c', r. split; [exact Hs|exact Hwf].
Defined.

Example wire_is_measured :
  scan ChunkScan_new (demo_wire ++ bstr "GET / HTTP/1.1") =
  Some (MkChunkScan Done 0 6, Ok (length demo_wire, true)).
Proof. vm_compute. reflexivity. Qed.
Example bare_lf_refused : exists c,
  scan ChunkScan_new (bstr "5;e" ++ [LF] ++ bstr "hello")
  = Some (c, Err (Malformed (bstr "bare LF in a chunk extension"))).
Proof. eexists. vm_compute. reflexivity. Qed.
