(* ===== verification/Head.v ===== *)
(** HTTP/1.1 heads: [crates/ramjet-engine/src/codec/head.rs] and the framing
    rules of [codec/mod.rs].

    A [Span] is an offset and a length into the buffer the head was parsed
    from, both [u16].  A subslice of the source is modelled by its offset and
    its bytes, which is what [offset_in] recovers.  The parsers thread the
    reused [Head], whose [scanned] cursor makes partial reads linear, through
    errors as well. *)

From S2P Require Import Prelude Codec.

Record Span := MkSpan { span_start : u16; span_len : u16 }.
Definition Span_EMPTY : Span := MkSpan 0 0.
Definition Span_at (start len : usize) : Span :=
  MkSpan (wrap16 (Z.of_nat start)) (wrap16 (Z.of_nat len)).

(** [bytes]: [None] is the out-of-range panic. *)
Definition span_bytes (s : Span) (buf : bytes) : option bytes :=
  get_range buf (Z.to_nat (span_start s)) (Z.to_nat (span_start s) + Z.to_nat (span_len s)).
Definition span_str (s : Span) (buf : bytes) : option str :=
  b ← span_bytes s buf; from_utf8 b.
Definition span_is_empty (s : Span) : bool := span_len s =? 0.

Record HeaderSpan := MkHeaderSpan { hdr_name : Span; hdr_value : Span }.

Inductive StartLine :=
| Request (method target : Span) (version : Version)
| Status (code : u16) (reason : Span) (version : Version).

Record Head := MkHead {
  head_start : StartLine;
  head_headers : list HeaderSpan;
  head_len : usize;
  head_scanned : usize;
}.
Definition Head_default : Head := MkHead (Request Span_EMPTY Span_EMPTY Http11) [] 0 0.
Definition head_reset (h : Head) : Head := MkHead (head_start h) [] 0 0.

Definition head_version (h : Head) : Version :=
  match head_start h with Request _ _ v => v | Status _ _ v => v end.
Definition head_status (h : Head) : option u16 :=
  match head_start h with Status c _ _ => Some c | Request _ _ _ => None end.
Definition head_method (h : Head) (buf : bytes) : option bytes :=
  match head_start h with Request m _ _ => span_bytes m buf | Status _ _ _ => None end.
Definition head_target (h : Head) (buf : bytes) : option bytes :=
  match head_start h with Request _ t _ => span_bytes t buf | Status _ _ _ => None end.

(** Every field in wire order; a field whose span left the buffer would panic,
    see [parsed_spans_in_bounds]. *)
Definition header_pair (buf : bytes) (h : HeaderSpan) : option (bytes * bytes) :=
  n ← span_bytes (hdr_name h) buf; v ← span_bytes (hdr_value h) buf; Some (n, v).
Definition head_iter (h : Head) (buf : bytes) : list (bytes * bytes) :=
  omap (header_pair buf) (head_headers h).
Definition headers_named (h : Head) (buf name : bytes) : list (bytes * bytes) :=
  List.filter (fun '(n, _) => eq_ignore_ascii_case n name) (head_iter h buf).
Definition head_header (h : Head) (buf name : bytes) : option bytes :=
  snd <$> find_first (fun '(n, _) => eq_ignore_ascii_case n name) (head_iter h buf).

(** Reading the start line and every field does not panic. *)
Definition spans_readable (h : Head) (buf : bytes) : bool :=
  match head_start h with
  | Request m t _ => bool_decide (is_Some (span_bytes m buf)) && bool_decide (is_Some (span_bytes t buf))
  | Status _ reason _ => bool_decide (is_Some (span_bytes reason buf))
  end && forallb (fun f => bool_decide (is_Some (header_pair buf f))) (head_headers h).

(** ** Whitespace and tokens *)

Definition is_ows (b : u8) : bool := (b =? SP) || (b =? HTAB).

(** Where [trim_ows] starts, and what it returns. *)
Definition ows_start (value : bytes) : usize := (length value - length (drop_while is_ows value))%nat.
Definition trim_ows (value : bytes) : bytes :=
  rev (drop_while is_ows (rev (drop_while is_ows value))).

Definition has_token (value token : bytes) : bool :=
  existsb (fun part => eq_ignore_ascii_case (trim_ows part) token) (split_on (chr ",") value).

Definition is_tchar (b : u8) : bool :=
  is_ascii_alphanumeric b
  || existsb (Z.eqb b) (bstr "!#$%&'*+-.^_`|~").

(** ** Parsing *)

Definition CRLF : bytes := [CR; LF].
Definition CRLFCRLF : bytes := [CR; LF; CR; LF].

Definition set_scanned (h : Head) (n : usize) : Head :=
  MkHead (head_start h) (head_headers h) (head_len h) n.

Definition find_head_end (buf : bytes) (out : Head) : Head * result CodecError (option usize) :=
  let from := Nat.min (head_scanned out - 3) (length buf) in
  match find_sub CRLFCRLF (drop from buf) with
  | Some i =>
      let end_ := (from + i + 4)%nat in
      if (MAX_HEAD <? end_)%nat then (out, Err TooLarge) else (out, Ok (Some end_))
  | None =>
      let out' := set_scanned out (length buf) in
      if (MAX_HEAD <? length buf)%nat then (out', Err TooLarge) else (out', Ok None)
  end.

(** The line at [from] and the offset just after its CRLF. *)
Definition split_line (block : bytes) (from : usize) : bytes * usize :=
  let rest := drop from block in
  match find_sub CRLF rest with
  | Some i => (take i rest, (from + i + 2)%nat)
  | None => (rest, length block)
  end.

Definition parse_version (token : bytes) : result CodecError Version :=
  if bool_decide (token = bstr "HTTP/1.1") then Ok Http11
  else if bool_decide (token = bstr "HTTP/1.0") then Ok Http10
  else if bool_decide (token = []) then Err (Malformed (bstr "version missing"))
  else Err (Unsupported (bstr "http version")).

Definition parse_request_line (base : usize) (line : bytes) : result CodecError StartLine :=
  let too_few := Malformed (bstr "request line has too few parts") in
  match split_once SP line with
  | None => Err too_few
  | Some (method, rest) =>
      match split_once SP rest with
      | None => Err too_few
      | Some (target, version) =>
          if bool_decide (method = []) || negb (forallb is_tchar method)
          then Err (Malformed (bstr "malformed method"))
          else if bool_decide (target = []) then Err (Malformed (bstr "request target missing"))
          else if existsb (fun b => (b <=? 32) || (b =? 127)) target
          then Err (Malformed (bstr "malformed request target"))
          else
            v ← parse_version version;
            Ok (Request (Span_at base (length method))
                        (Span_at (base + length method + 1) (length target)) v)
      end
  end.

(** The number of three ASCII digits, in [u16]. *)
Definition code_of_digits (code : bytes) : u16 :=
  match code with
  | [a; b; c] => (a - 48) * 100 + (b - 48) * 10 + (c - 48)
  | _ => 0
  end.

Definition version_len (line : bytes) : usize :=
  default (length line) (position (fun b => b =? SP) line).

Definition parse_status_line (base : usize) (line : bytes) : result CodecError StartLine :=
  match split_once SP line with
  | None => Err (Malformed (bstr "status line has no code"))
  | Some (version, rest) =>
      let '(code, reason) :=
        match split_once SP rest with Some (c, r) => (c, r) | None => (rest, []) end in
      v ← parse_version version;
      if negb (length code =? 3)%nat || negb (forallb is_ascii_digit code)
      then Err (Malformed (bstr "status code is not three digits"))
      else
        let reason_start := (base + version_len line + 1 + 3 + 1)%nat in
        Ok (Status (code_of_digits code)
              (if bool_decide (reason = []) then Span_EMPTY
               else Span_at reason_start (length reason)) v)
  end.

(** One field line at [base]. *)
Definition parse_field (base : usize) (line : bytes) : result CodecError HeaderSpan :=
  if bool_decide (head line = Some SP \/ head line = Some HTAB)
  then Err (Malformed (bstr "obsolete line folding"))
  else match position (fun b => b =? chr ":") line with
  | None => Err (Malformed (bstr "header line has no colon"))
  | Some colon =>
      let name := take colon line in
      if bool_decide (name = []) || negb (forallb is_tchar name)
      then Err (Malformed (bstr "malformed header name"))
      else
        let raw_value := drop (colon + 1) line in
        if existsb (fun b => ((b <? 32) && negb (b =? HTAB)) || (b =? 127)) raw_value
        then Err (Malformed (bstr "header value contains a control byte"))
        else
          let trimmed := trim_ows raw_value in
          let value_start := (base + colon + 1 + ows_start raw_value)%nat in
          Ok (MkHeaderSpan (Span_at base (length name)) (Span_at value_start (length trimmed)))
  end.

(** The [while] loop of [parse_fields]; the fuel is the length of the block. *)
Fixpoint fields_loop (fuel : nat) (block : bytes) (cursor : usize) (headers : list HeaderSpan)
    : list HeaderSpan * result CodecError unit :=
  if (cursor <? length block)%nat then
    match fuel with
    | 0%nat => (headers, Ok tt)
    | S fuel' =>
        let '(line, next) := split_line block cursor in
        if bool_decide (line = []) then fields_loop fuel' block next headers
        else match parse_field cursor line with
             | Err e => (headers, Err e)
             | Ok h =>
                 if (length headers =? MAX_HEADERS)%nat then (headers, Err TooManyHeaders)
                 else fields_loop fuel' block next (headers ++ [h])
             end
    end
  else (headers, Ok tt).

Definition parse_fields (block : bytes) (cursor : usize) : list HeaderSpan * result CodecError unit :=
  fields_loop (length block) block cursor [].

Definition reject_duplicate_host (buf : bytes) (out : Head) : result CodecError unit :=
  if (1 <? length (headers_named out buf (bstr "host")))%nat
  then Err (Malformed (bstr "more than one Host header")) else Ok tt.

(** Both directions: the start line parser and the extra check differ. *)
Definition parse_head (start_line : usize -> bytes -> result CodecError StartLine)
    (check : bytes -> Head -> result CodecError unit) (buf : bytes) (out : Head)
    : Head * result CodecError bool :=
  let '(out1, e) := find_head_end buf out in
  match e with
  | Err e => (out1, Err e)
  | Ok None => (out1, Ok false)
  | Ok (Some end_) =>
      let block := take (end_ - 4) buf in
      let '(line, rest) := split_line block 0 in
      match start_line 0%nat line with
      | Err e => (out1, Err e)
      | Ok start =>
          let '(headers, r) := parse_fields block rest in
          let out2 := MkHead start headers (head_len out1) (head_scanned out1) in
          match r with
          | Err e => (out2, Err e)
          | Ok _ =>
              match check buf out2 with
              | Err e => (out2, Err e)
              | Ok _ => (MkHead start headers end_ 0, Ok true)
              end
          end
      end
  end.

Definition parse_request_head : bytes -> Head -> Head * result CodecError bool :=
  parse_head parse_request_line reject_duplicate_host.
Definition parse_response_head : bytes -> Head -> Head * result CodecError bool :=
  parse_head parse_status_line (fun _ _ => Ok tt).

(** ** Framing *)

Inductive Framing :=
| Empty
| Length (n : u64)
| Chunked
| UntilClose.
#[export] Instance Framing_eq_dec : EqDecision Framing.
Proof. solve_decision. Defined.

Definition allows_reuse (f : Framing) : bool :=
  match f with UntilClose => false | _ => true end.

(** The [for] loop of [transfer_encoding_is_chunked] over the field values. *)
Fixpoint te_loop (values : list bytes) (seen : bool) : result CodecError bool :=
  match values with
  | [] => Ok seen
  | value :: rest =>
      match List.filter (fun t => negb (bool_decide (t = []))) (map trim_ows (split_on (chr ",") value)) with
      | [] => Err (Malformed (bstr "empty Transfer-Encoding"))
      | only :: more =>
          if negb (bool_decide (more = [])) || negb (eq_ignore_ascii_case only (bstr "chunked"))
          then Err (Unsupported (bstr "a transfer coding other than chunked"))
          else te_loop rest true
      end
  end.
Definition transfer_encoding_is_chunked (h : Head) (buf : bytes) : result CodecError bool :=
  te_loop (map snd (headers_named h buf (bstr "transfer-encoding"))) false.

Fixpoint digits_loop (n : u64) (value : bytes) : option u64 :=
  match value with
  | [] => Some n
  | b :: rest =>
      n1 ← checked_mul u64_max n 10; n2 ← checked_add u64_max n1 (b - 48); digits_loop n2 rest
  end.
Definition parse_digits (value : bytes) : result CodecError u64 :=
  if bool_decide (value = []) || negb (forallb is_ascii_digit value)
  then Err (Malformed (bstr "Content-Length is not a number"))
  else ok_or (digits_loop 0 value) (Malformed (bstr "Content-Length overflows")).

Fixpoint cl_parts (parts : list bytes) (found : option u64) : result CodecError (option u64) :=
  match parts with
  | [] => Ok found
  | part :: rest =>
      n ← parse_digits part;
      match found with
      | Some prev =>
          if prev =? n then cl_parts rest (Some n)
          else Err (Malformed (bstr "conflicting Content-Length values"))
      | None => cl_parts rest (Some n)
      end
  end.
Fixpoint cl_loop (values : list bytes) (found : option u64) : result CodecError (option u64) :=
  match values with
  | [] => Ok found
  | value :: rest =>
      found' ← cl_parts (map trim_ows (split_on (chr ",") value)) found;
      cl_loop rest found'
  end.
Definition content_length (h : Head) (buf : bytes) : result CodecError (option u64) :=
  cl_loop (map snd (headers_named h buf (bstr "content-length"))) None.

Definition both_framings : CodecError := Malformed (bstr "both Transfer-Encoding and Content-Length").

Definition request_framing (h : Head) (buf : bytes) : result CodecError Framing :=
  chunked ← transfer_encoding_is_chunked h buf;
  length ← content_length h buf;
  match (chunked : bool), length with
  | true, Some _ => Err both_framings
  | true, None => Ok Chunked
  | false, Some 0 | false, None => Ok Empty
  | false, Some n => Ok (Length n)
  end.

Definition response_framing (h : Head) (buf : bytes) (method_was_head : bool)
    : result CodecError Framing :=
  status ← match head_start h with
    | Status code _ _ => Ok code
    | Request _ _ _ => Err (Malformed (bstr "expected a response, got a request"))
    end;
  if method_was_head || (status <? 200) || (status =? 204) || (status =? 304) then Ok Empty
  else
    chunked ← transfer_encoding_is_chunked h buf;
    length ← content_length h buf;
    match (chunked : bool), length with
    | true, Some _ => Err both_framings
    | true, None => Ok Chunked
    | false, Some 0 => Ok Empty
    | false, Some n => Ok (Length n)
    | false, None => Ok UntilClose
    end.

(** The [for] loop of [keep_alive]: [None] is the early [return false]. *)
Fixpoint connection_loop (values : list bytes) (saw_keep_alive : bool) : option bool :=
  match values with
  | [] => Some saw_keep_alive
  | value :: rest =>
      if has_token value (bstr "close") then None
      else connection_loop rest (saw_keep_alive || has_token value (bstr "keep-alive"))
  end.
Definition keep_alive (h : Head) (buf : bytes) (version : Version) : bool :=
  match connection_loop (map snd (headers_named h buf (bstr "connection"))) false with
  | None => false
  | Some saw => match version with Http11 => true | Http10 => saw end
  end.

(** ** Lemmas: finding the end of a head *)

#[local] Arguments MAX_HEAD : simpl never.
Lemma MAX_HEAD_Z : Z.of_nat MAX_HEAD = 16384.
Proof. done. Qed.
#[local] Opaque MAX_HEAD.

(** The cursor never passes a terminator: what [find_head_end] relies on. *)
Definition resumable (buf : bytes) (h : Head) : Prop :=
  forall j, occurs_at CRLFCRLF buf j -> (head_scanned h - 3 <= j)%nat.

Lemma resumable_fresh buf h : head_scanned h = 0%nat -> resumable buf h.
Proof. intros H j _. rewrite H. lia. Qed.

Lemma occurs_crlfcrlf_length buf j : occurs_at CRLFCRLF buf j -> (j + 4 <= length buf)%nat.
Proof. intros H. by apply (occurs_at_length CRLFCRLF). Qed.

(** Resuming the search finds what a search from the start finds. *)
Lemma find_from buf h :
  resumable buf h ->
  (Nat.add (Nat.min (head_scanned h - 3) (length buf))) <$>
    find_sub CRLFCRLF (drop (Nat.min (head_scanned h - 3) (length buf)) buf)
  = find_sub CRLFCRLF buf.
Proof.
  intros Hr. set (from := Nat.min _ _).
  assert (Hd : forall j, occurs_at CRLFCRLF (drop from buf) j <-> occurs_at CRLFCRLF buf (from + j)).
  { intros j. unfold occurs_at. by rewrite drop_drop. }
  destruct (find_sub CRLFCRLF (drop from buf)) as [i|] eqn:Hf; simpl; symmetry.
  - apply find_sub_Some in Hf as [Ho Hm]; [|done]. apply find_sub_Some; [done|].
    split; [by apply Hd|]. intros j Hj Hoj. specialize (Hr j Hoj).
    apply (Hm (j - from)%nat); [lia|]. apply Hd. by replace (from + (j - from))%nat with j by lia.
  - rewrite find_sub_None in Hf |- * by done. intros j Hoj. specialize (Hr j Hoj).
    apply (Hf (j - from)%nat), Hd. by replace (from + (j - from))%nat with j by lia.
Qed.

(** Where a head ends, independently of the cursor. *)
Definition head_end (buf : bytes) : option usize := (fun i => (i + 4)%nat) <$> find_sub CRLFCRLF buf.

Lemma find_head_end_spec buf h :
  resumable buf h ->
  find_head_end buf h =
  match head_end buf with
  | Some e => (h, if (MAX_HEAD <? e)%nat then Err TooLarge else Ok (Some e))
  | None => (set_scanned h (length buf), if (MAX_HEAD <? length buf)%nat then Err TooLarge else Ok None)
  end.
Proof.
  intros Hr. unfold find_head_end, head_end. rewrite <- (find_from _ _ Hr).
  destruct (find_sub _ (drop _ buf)); simpl; by case_match.
Qed.

Lemma head_end_Some buf e : head_end buf = Some e <->
  (4 <= e)%nat /\ occurs_at CRLFCRLF buf (e - 4) /\
  forall j, (j < e - 4)%nat -> ~ occurs_at CRLFCRLF buf j.
Proof.
  unfold head_end. rewrite fmap_Some. setoid_rewrite (find_sub_Some CRLFCRLF buf); [|done]. split.
  - intros (i&[Ho Hm]&->). replace (i + 4 - 4)%nat with i by lia. split_and!; [lia|done|done].
  - intros (He&Ho&Hm). exists (e - 4)%nat. split; [done|lia].
Qed.

Lemma head_end_None buf : head_end buf = None <-> forall j, ~ occurs_at CRLFCRLF buf j.
Proof. unfold head_end. rewrite fmap_None. by apply find_sub_None. Qed.

(** A head is decided by the bytes up to its end. *)
Lemma head_end_app buf more e : head_end buf = Some e -> head_end (buf ++ more) = Some e.
Proof.
  rewrite !head_end_Some. intros (He&Ho&Hm). pose proof (occurs_crlfcrlf_length _ _ Ho).
  split_and!; [done|by apply occurs_at_app_l; [simpl; lia|]|].
  intros j Hj Hoj. apply (Hm j Hj). by apply occurs_at_app_l in Hoj; [|simpl; lia].
Qed.

Lemma resumable_more buf more h :
  (forall j, ~ occurs_at CRLFCRLF buf j) -> resumable (buf ++ more) (set_scanned h (length buf)).
Proof.
  intros Hn j Hj. simpl. destruct (decide (j + 4 <= length buf)%nat); [|lia].
  destruct (Hn j). by apply occurs_at_app_l in Hj; [|simpl; lia].
Qed.

(** ** Lines *)

Definition no_cr (l : bytes) : Prop := CR ∉ l.

Lemma occurs_no_cr pat l k j :
  head pat = Some CR -> no_cr l -> (j < length l)%nat -> ~ occurs_at pat (l ++ k) j.
Proof.
  intros Hp Hn Hj Ho. unfold occurs_at in Ho.
  destruct (lookup_lt_is_Some_2 l j Hj) as [x Hx].
  rewrite (drop_S _ x) in Ho by (by apply lookup_app_l_Some). destruct pat as [|c pat]; [done|].
  simpl in *. simplify_eq. apply Hn. by eapply list_elem_of_lookup_2.
Qed.

Lemma find_crlf_line l k : no_cr l -> find_sub CRLF (l ++ CRLF ++ k) = Some (length l).
Proof.
  intros Hn. apply find_sub_Some; [done|]. split; [apply occurs_at_middle|].
  intros j Hj. by apply occurs_no_cr.
Qed.

Lemma find_crlf_last l : no_cr l -> find_sub CRLF l = None.
Proof.
  intros Hn. apply find_sub_None; [done|]. intros j Ho.
  pose proof (occurs_at_length CRLF _ _ ltac:(done) Ho) as Hl. simpl in Hl.
  rewrite <- (app_nil_r l) in Ho. eapply occurs_no_cr; [| |  |exact Ho]; [done|done|lia].
Qed.

(** [split_line] after a known prefix. *)
Lemma split_line_middle pre l k :
  no_cr l -> split_line (pre ++ l ++ CRLF ++ k) (length pre) = (l, (length pre + length l + 2)%nat).
Proof.
  intros Hn. unfold split_line. rewrite drop_app_length, find_crlf_line by done.
  by rewrite take_app_length.
Qed.
Lemma split_line_last pre l :
  no_cr l -> split_line (pre ++ l) (length pre) = (l, length (pre ++ l)).
Proof. intros Hn. unfold split_line. by rewrite drop_app_length, find_crlf_last. Qed.

(** A line is the bytes it says, and the scan moves forward inside the block. *)
Lemma split_line_inside block from line next :
  (from < length block)%nat -> split_line block from = (line, next) ->
  (from < next <= length block)%nat /\ take (length line) (drop from block) = line /\
  (from + length line <= length block)%nat.
Proof.
  intros Hf. unfold split_line. destruct (find_sub CRLF (drop from block)) as [i|] eqn:Hs.
  - intros [= <- <-]. apply find_sub_Some in Hs as [Ho _]; [|done].
    apply occurs_at_length in Ho; [|done]. rewrite length_drop in Ho. simpl in Ho.
    rewrite length_take, length_drop. split_and!; [lia|lia| |lia].
    by replace (Nat.min i (length block - from)) with i by lia.
  - intros [= <- <-]. rewrite length_drop. split_and!; [lia|lia| |lia].
    rewrite firstn_all2; [done|]. rewrite length_drop. lia.
Qed.

(** ** Spans *)

(** A span that points at [l] at offset [o] of [buf]. *)
Lemma span_at_bytes buf o l :
  take (length l) (drop o buf) = l -> (o + length l <= length buf)%nat -> Z.of_nat (o + length l) < 65536 ->
  span_bytes (Span_at o (length l)) buf = Some l.
Proof.
  intros Hl Hb Hw. unfold span_bytes, Span_at, get_range. simpl. unfold wrap16.
  rewrite !wrap_small, !Nat2Z.id by lia.
  replace ((o <=? o + length l)%nat && (o + length l <=? length buf)%nat) with true by lia.
  f_equal. by replace (o + length l - o)%nat with (length l) by lia.
Qed.

Lemma trim_ows_split v :
  exists k, drop_while is_ows v = trim_ows v ++ k /\ Forall (fun b => is_ows b = true) k.
Proof.
  unfold trim_ows. destruct (drop_while_split is_ows (rev (drop_while is_ows v))) as (k&Hk&Hall&_).
  exists (rev k). split.
  - rewrite <- rev_app_distr, <- Hk. by rewrite rev_involutive.
  - by apply Forall_rev.
Qed.

Lemma ows_start_split v : exists k, v = k ++ drop_while is_ows v /\ length k = ows_start v /\
  Forall (fun b => is_ows b = true) k.
Proof.
  destruct (drop_while_split is_ows v) as (k&Hk&Hall&_). exists k. split_and!; [done| |done].
  unfold ows_start. apply (f_equal length) in Hk. rewrite length_app in Hk. lia.
Qed.

(** The trimmed value is where [parse_field] says it is. *)
Lemma trim_ows_at v :
  take (length (trim_ows v)) (drop (ows_start v) v) = trim_ows v /\
  (ows_start v + length (trim_ows v) <= length v)%nat.
Proof.
  destruct (ows_start_split v) as (k&Hv&Hk&_). destruct (trim_ows_split v) as (k2&Hd&_).
  split.
  - rewrite <- Hk. replace (drop (length k) v) with (drop_while is_ows v).
    + by rewrite Hd, take_app_length.
    + rewrite Hv at 2. by rewrite drop_app_length.
  - apply (f_equal length) in Hv, Hd. rewrite length_app in Hv, Hd. lia.
Qed.

Lemma trim_ows_ends v :
  (forall b, head (trim_ows v) = Some b -> is_ows b = false) /\
  (forall b, last (trim_ows v) = Some b -> is_ows b = false).
Proof.
  destruct (drop_while_split is_ows v) as (_&_&_&Hh).
  split.
  - destruct (trim_ows_split v) as (k&Hk&_). intros b Hb. apply Hh. rewrite Hk. by destruct (trim_ows v).
  - unfold trim_ows. rewrite last_rev.
    by destruct (drop_while_split is_ows (rev (drop_while is_ows v))) as (_&_&_&?).
Qed.

(** ** Fields *)

Definition token (n : bytes) : Prop := n <> [] /\ forallb is_tchar n = true.
(** No control byte but the tab: nothing that could end a line. *)
Definition clean (v : bytes) : Prop := Forall (fun b => (32 <= b \/ b = HTAB) /\ b <> 127) v.
Definition trimmed (v : bytes) : Prop :=
  (forall b, head v = Some b -> is_ows b = false) /\ (forall b, last v = Some b -> is_ows b = false).

Definition field_good (buf : bytes) (h : HeaderSpan) : Prop :=
  exists n v, header_pair buf h = Some (n, v) /\ token n /\ clean v /\ trimmed v.

Lemma span_bytes_app s buf more l : span_bytes s buf = Some l -> span_bytes s (buf ++ more) = Some l.
Proof.
  unfold span_bytes, get_range. set (o := Z.to_nat (span_start s)). set (n := Z.to_nat (span_len s)).
  destruct ((o <=? o + n)%nat && (o + n <=? length buf)%nat) eqn:Hb; [|done]. intros [= <-].
  rewrite length_app.
  replace ((o <=? o + n)%nat && (o + n <=? length buf + length more)%nat) with true by lia.
  f_equal. rewrite drop_app_le by lia. rewrite take_app_le; [done|]. rewrite length_drop. lia.
Qed.

Lemma header_pair_app h buf more x : header_pair buf h = Some x -> header_pair (buf ++ more) h = Some x.
Proof.
  unfold header_pair. destruct (span_bytes (hdr_name h) buf) as [n|] eqn:Hn; simpl; [|done].
  destruct (span_bytes (hdr_value h) buf) as [v|] eqn:Hv; simpl; [|done]. intros [= <-].
  by rewrite (span_bytes_app _ _ _ _ Hn), (span_bytes_app _ _ _ _ Hv).
Qed.

Lemma field_good_app h buf more : field_good buf h -> field_good (buf ++ more) h.
Proof. intros (n&v&Hp&?). exists n, v. split; [by apply header_pair_app|done]. Qed.

(** A window of a window. *)
Lemma window_of_window (l : bytes) o line i k :
  take (length line) (drop o l) = line -> (i + k <= length line)%nat ->
  take k (drop (o + i) l) = take k (drop i line).
Proof.
  intros Hl Hk. rewrite <- drop_drop.
  transitivity (take k (drop i (take (length line) (drop o l)))); [|by rewrite Hl].
  rewrite skipn_firstn_comm, take_take. by rewrite Nat.min_l by lia.
Qed.

Lemma clean_raw v : existsb (fun b => ((b <? 32) && negb (b =? HTAB)) || (b =? 127)) v = false -> clean v.
Proof.
  intros Hv. apply Forall_forall. intros b Hb.
  destruct (((b <? 32) && negb (b =? HTAB)) || (b =? 127)) eqn:E; [|lia].
  assert (existsb (fun b => ((b <? 32) && negb (b =? HTAB)) || (b =? 127)) v = true); [|congruence].
  apply existsb_exists. exists b. split; [by apply list_elem_of_In|done].
Qed.

Lemma clean_trim v : clean v -> clean (trim_ows v).
Proof.
  intros Hc. destruct (ows_start_split v) as (k&Hv&_). destruct (trim_ows_split v) as (k2&Hd&_).
  unfold clean in *. rewrite Hv, Hd in Hc. apply Forall_app in Hc as [_ Hc].
  by apply Forall_app in Hc as [? _].
Qed.

Lemma parse_field_good block base line h :
  take (length line) (drop base block) = line -> (base + length line <= length block)%nat ->
  Z.of_nat (length block) < 65536 ->
  parse_field base line = Ok h -> field_good block h.
Proof.
  intros Hw Hb Hlen. unfold parse_field. case_bool_decide; [done|].
  destruct (position _ line) as [colon|] eqn:Hc; [|done]. apply position_lt in Hc.
  destruct (bool_decide (take colon line = []) || _) eqn:Hn; [done|]. bools. cbv zeta.
  destruct (existsb _ (drop (colon + 1) line)) eqn:Hv; [done|]. intros [= <-].
  pose proof (trim_ows_at (drop (colon + 1) line)) as [Ht Htl].
  rewrite length_drop in Htl. assert (Hcl : length (take colon line) = colon) by (rewrite length_take; lia).
  exists (take colon line), (trim_ows (drop (colon + 1) line)). split; [|split; [|split]].
  - assert (Hname : span_bytes (Span_at base (length (take colon line))) block = Some (take colon line)).
    { apply span_at_bytes; [|lia|lia]. rewrite Hcl. rewrite <- (Nat.add_0_r base).
      rewrite (window_of_window _ _ line) by (done || lia). by rewrite drop_0. }
    assert (Hval : span_bytes (Span_at (base + colon + 1 + ows_start (drop (colon + 1) line))
      (length (trim_ows (drop (colon + 1) line)))) block = Some (trim_ows (drop (colon + 1) line))).
    { apply span_at_bytes; [|lia|lia]. rewrite <- !Nat.add_assoc.
      rewrite (window_of_window _ _ line) by (done || lia).
      rewrite Nat.add_assoc. etransitivity; [|exact Ht]. f_equal.
      by rewrite (drop_drop line). }
    unfold header_pair. cbn [hdr_name hdr_value]. by rewrite Hname, Hval.
  - by split.
  - by apply clean_trim, clean_raw.
  - apply trim_ows_ends.
Qed.

Lemma fields_loop_good fuel block cursor headers hs :
  Z.of_nat (length block) < 65536 ->
  Forall (field_good block) headers -> (length headers <= MAX_HEADERS)%nat ->
  fields_loop fuel block cursor headers = (hs, Ok tt) ->
  Forall (field_good block) hs /\ (length hs <= MAX_HEADERS)%nat.
Proof.
  intros Hlen. revert cursor headers. induction fuel as [|fuel IH]; intros cursor headers Hg Hm; cbn [fields_loop].
  { case_match; by intros [= <-]. }
  destruct (cursor <? length block)%nat eqn:Hc; [|by intros [= <-]].
  destruct (split_line block cursor) as [line next] eqn:Hs.
  apply split_line_inside in Hs as (_&Hw&Hb); [|lia].
  case_bool_decide; [by apply IH|].
  destruct (parse_field cursor line) as [h|] eqn:Hp; [|done].
  destruct (length headers =? MAX_HEADERS)%nat eqn:Hfull; [done|]. apply IH.
  - apply Forall_app. split; [done|]. constructor; [|done]. by eapply parse_field_good.
  - rewrite length_app. simpl. lia.
Qed.

(** The fuel of [parse_fields] is enough: more changes nothing. *)
Lemma fields_loop_fuel f1 f2 block cursor headers :
  (length block - cursor <= f1)%nat -> (length block - cursor <= f2)%nat ->
  fields_loop f1 block cursor headers = fields_loop f2 block cursor headers.
Proof.
  revert f2 cursor headers. induction f1 as [|f1 IH]; intros f2 cursor headers H1 H2.
  { destruct f2; cbn [fields_loop]; replace (cursor <? length block)%nat with false by lia; done. }
  destruct f2 as [|f2]; cbn [fields_loop]; destruct (cursor <? length block)%nat eqn:Hc; try done; [lia|].
  destruct (split_line block cursor) as [line next] eqn:Hs.
  apply split_line_inside in Hs as (Hn&_&_); [|lia].
  case_bool_decide; [apply IH; lia|]. destruct (parse_field cursor line); [|done].
  case_match; [done|]. apply IH; lia.
Qed.

(** ** Start lines *)

Definition target_ok (t : bytes) : Prop := t <> [] /\ Forall (fun b => 32 < b /\ b <> 127) t.

Lemma parse_request_line_good block line s :
  take (length line) block = line -> (length line <= length block)%nat ->
  Z.of_nat (length block) < 65536 ->
  parse_request_line 0 line = Ok s ->
  exists m t v m' t', s = Request m t v /\ span_bytes m block = Some m' /\ span_bytes t block = Some t' /\
    token m' /\ target_ok t' /\ line = m' ++ SP :: t' ++ SP :: version_as_bytes v.
Proof.
  intros Hw Hl Hlen. unfold parse_request_line.
  destruct (split_once SP line) as [[m r1]|] eqn:H1; [|done].
  destruct (split_once SP r1) as [[t r2]|] eqn:H2; [|done].
  apply split_once_Some in H1 as [-> _], H2 as [-> _].
  destruct (bool_decide (m = []) || _) eqn:Hm; [done|]. bools.
  case_bool_decide; [done|]. destruct (existsb _ t) eqn:Ht; [done|].
  destruct (parse_version r2) as [v|] eqn:Hv; simpl; [|done]. intros [= <-].
  assert (Hr2 : r2 = version_as_bytes v).
  { unfold parse_version in Hv. repeat (case_bool_decide; simplify_eq/=; try done). }
  rewrite !length_app in Hl. simpl in Hl. rewrite length_app in Hl. simpl in Hl.
  eexists _, _, v, m, t. split; [done|]. split; [|split; [|split; [|split]]].
  - apply span_at_bytes; [|lia|lia]. change (drop 0 block) with (drop (0 + 0) block).
    rewrite (window_of_window _ 0 (m ++ SP :: t ++ SP :: r2)).
    + by rewrite drop_0, take_app_length.
    + by rewrite drop_0.
    + rewrite length_app. lia.
  - apply span_at_bytes; [|simpl; lia|simpl; lia].
    replace (length m + 1)%nat with (0 + S (length m))%nat by lia.
    rewrite (window_of_window _ 0 (m ++ SP :: t ++ SP :: r2)).
    + replace (S (length m)) with (length (m ++ [SP])) by (rewrite length_app; simpl; lia).
      change (SP :: t ++ SP :: r2) with ([SP] ++ t ++ SP :: r2).
      by rewrite app_assoc, drop_app_length, take_app_length.
    + by rewrite drop_0.
    + rewrite !length_app. simpl. rewrite length_app. lia.
  - by split.
  - split; [done|]. apply Forall_forall. intros b Hb.
    destruct ((b <=? 32) || (b =? 127)) eqn:E; [|lia].
    assert (existsb (fun b => (b <=? 32) || (b =? 127)) t = true); [|congruence].
    apply existsb_exists. exists b. split; [by apply list_elem_of_In|done].
  - by rewrite Hr2.
Qed.

(** ** What a parse means, independently of the cursor *)

(** The outcome of a parse of a whole buffer, with the fields it produced. *)
Definition parse_meaning (start_line : usize -> bytes -> result CodecError StartLine)
    (check : bytes -> Head -> result CodecError unit) (buf : bytes) (out : Head)
    : result CodecError (option Head) :=
  match head_end buf with
  | None => if (MAX_HEAD <? length buf)%nat then Err TooLarge else Ok None
  | Some e =>
      if (MAX_HEAD <? e)%nat then Err TooLarge else
      let block := take (e - 4) buf in
      let '(line, rest) := split_line block 0 in
      start ← start_line 0%nat line;
      let '(headers, r) := parse_fields block rest in
      _ ← r;
      let out2 := MkHead start headers (head_len out) (head_scanned out) in
      _ ← check buf out2;
      Ok (Some (MkHead start headers e 0))
  end.

(** A check that only reads the fields. *)
Definition check_fields (check : bytes -> Head -> result CodecError unit) : Prop :=
  forall buf h1 h2, head_headers h1 = head_headers h2 -> check buf h1 = check buf h2.

Lemma reject_duplicate_host_fields : check_fields reject_duplicate_host.
Proof.
  intros buf h1 h2 Hh. unfold reject_duplicate_host, headers_named, head_iter. by rewrite Hh.
Qed.

Lemma parse_head_meaning sl ck buf h :
  resumable buf h -> check_fields ck ->
  match parse_meaning sl ck buf Head_default with
  | Err e => (parse_head sl ck buf h).2 = Err e
  | Ok None => parse_head sl ck buf h = (set_scanned h (length buf), Ok false)
  | Ok (Some h') => parse_head sl ck buf h = (h', Ok true)
  end.
Proof.
  intros Hr Hck. unfold parse_head, parse_meaning. rewrite find_head_end_spec by done.
  destruct (head_end buf) as [e|]; [|by destruct (MAX_HEAD <? length buf)%nat].
  destruct (MAX_HEAD <? e)%nat; [done|].
  destruct (split_line (take (e - 4) buf) 0) as [line rest].
  destruct (sl 0%nat line) as [start|]; simpl; [|done].
  destruct (parse_fields _ rest) as [headers [[]|er]]; simpl; [|done].
  rewrite (Hck buf (MkHead start headers 0 0) (MkHead start headers (head_len h) (head_scanned h))) by done.
  by destruct (ck buf _) as [[]|].
Qed.

Lemma parse_meaning_unfinished sl ck buf out :
  parse_meaning sl ck buf out = Ok None -> (forall j, ~ occurs_at CRLFCRLF buf j).
Proof.
  unfold parse_meaning. destruct (head_end buf) as [e|] eqn:He; [|intros _; by apply head_end_None].
  case_match; [done|]. destruct (split_line _ 0) as [line rest].
  destruct (sl 0%nat line); simpl; [|done].
  destruct (parse_fields _ rest) as [headers [[]|]]; simpl; [|done].
  by destruct (ck buf _); simpl.
Qed.

(** Reading a head as it arrives: parse, append, parse again. *)
Fixpoint read_head (parse : bytes -> Head -> Head * result CodecError bool)
    (buf : bytes) (h : Head) (pieces : list bytes) : Head * result CodecError bool * bytes :=
  match pieces with
  | [] => (h, Ok false, buf)
  | p :: rest =>
      let buf' := buf ++ p in
      match parse buf' h with
      | (h', Ok false) => read_head parse buf' h' rest
      | (h', r) => (h', r, buf')
      end
  end.

Lemma read_head_meaning sl ck pieces buf h h' r buf' :
  check_fields ck -> (forall j, ~ occurs_at CRLFCRLF buf j) ->
  (forall more, resumable (buf ++ more) h) ->
  read_head (parse_head sl ck) buf h pieces = (h', r, buf') ->
  match r with
  | Ok true => parse_meaning sl ck buf' Head_default = Ok (Some h')
  | Ok false => forall j, ~ occurs_at CRLFCRLF buf' j
  | Err e => parse_meaning sl ck buf' Head_default = Err e
  end.
Proof.
  intros Hck. revert buf h. induction pieces as [|p rest IH]; intros buf h Hn Hr; cbn [read_head].
  { by intros [= <- <- <-]. }
  pose proof (parse_head_meaning sl ck (buf ++ p) h (Hr p) Hck) as Hm.
  destruct (parse_meaning sl ck (buf ++ p) Head_default) as [[h1|]|e] eqn:Hp.
  - rewrite Hm. by intros [= <- <- <-].
  - rewrite Hm. pose proof (parse_meaning_unfinished _ _ _ _ Hp) as Hno.
    apply IH; [done|]. intros more. by apply resumable_more.
  - destruct (parse_head sl ck (buf ++ p) h) as [h1 r1]. simpl in Hm. subst r1.
    by intros [= <- <- <-].
Qed.

(** ** Rendering, the inverse of parsing *)

Definition render_field (f : bytes * bytes) : bytes := f.1 ++ chr ":" :: SP :: f.2.
Fixpoint render_fields (fields : list (bytes * bytes)) : bytes :=
  match fields with
  | [] => []
  | f :: rest => CRLF ++ render_field f ++ render_fields rest
  end.
Definition render_head (start_line : bytes) (fields : list (bytes * bytes)) : bytes :=
  start_line ++ render_fields fields ++ CRLFCRLF.
Definition request_line (method target : bytes) (v : Version) : bytes :=
  method ++ SP :: target ++ SP :: version_as_bytes v.

Definition field_ok (f : bytes * bytes) : Prop := token f.1 /\ clean f.2 /\ trimmed f.2.

Lemma token_bytes n b : token n -> b ∈ n -> is_tchar b = true.
Proof. intros [_ Ht] Hb. rewrite forallb_forall in Ht. apply Ht. by apply list_elem_of_In. Qed.

Lemma token_no_cr n : token n -> no_cr n.
Proof. intros Ht Hc. by apply (token_bytes _ _ Ht) in Hc. Qed.

Lemma token_not_in n b : token n -> is_tchar b = false -> b ∉ n.
Proof. intros Ht Hb Hin. apply (token_bytes _ _ Ht) in Hin. congruence. Qed.

Lemma clean_no_cr v : clean v -> no_cr v.
Proof. intros Hc Hin. unfold clean in Hc. rewrite Forall_forall in Hc. specialize (Hc _ Hin). unfold CR, HTAB in *. lia. Qed.

Lemma render_field_no_cr f : field_ok f -> no_cr (render_field f).
Proof.
  intros (Ht&Hc&_) Hin. unfold render_field in Hin. apply elem_of_app in Hin as [Hin|Hin].
  - by apply (token_no_cr _ Ht).
  - apply elem_of_cons in Hin as [Hin|Hin]; [done|]. apply elem_of_cons in Hin as [Hin|Hin]; [done|].
    by apply (clean_no_cr _ Hc).
Qed.

Lemma trimmed_drop v : trimmed v -> drop_while is_ows v = v.
Proof. intros [Hh _]. destruct v as [|b v]; [done|]. simpl. by rewrite (Hh b). Qed.

Lemma trimmed_trim v : trimmed v -> trim_ows (SP :: v) = v /\ ows_start (SP :: v) = 1%nat.
Proof.
  intros Ht. pose proof (trimmed_drop _ Ht) as Hd. destruct Ht as [_ Hl].
  unfold trim_ows, ows_start. cbn [drop_while]. replace (is_ows SP) with true by done. rewrite Hd.
  split; [|cbn [length]; lia].
  assert (Hr : drop_while is_ows (rev v) = rev v).
  { destruct (rev v) as [|b k] eqn:Hrev; [done|]. simpl. rewrite (Hl b); [done|].
    rewrite <- (rev_involutive v), Hrev. by rewrite last_rev. }
  by rewrite Hr, rev_involutive.
Qed.

Lemma parse_field_render base f :
  field_ok f ->
  parse_field base (render_field f) =
  Ok (MkHeaderSpan (Span_at base (length f.1)) (Span_at (base + length f.1 + 2) (length f.2))).
Proof.
  intros (Ht&Hc&Htr). unfold parse_field, render_field. destruct f as [n v]. cbn [fst snd] in *.
  pose proof (trimmed_trim _ Htr) as [Hv Ho].
  assert (Hh : ~ (head (n ++ 58 :: SP :: v) = Some SP \/ head (n ++ 58 :: SP :: v) = Some HTAB)).
  { destruct Ht as [Hne Hall]. destruct n as [|b n]; [done|]. simpl in *. intros [[= ->]|[= ->]]; done. }
  rewrite bool_decide_eq_false_2 by done.
  rewrite (position_split (fun b => b =? 58) n 58); [| |done].
  2: { apply Forall_forall. intros b Hb. destruct (b =? 58) eqn:E; [|done].
       assert (b = 58) as -> by lia. by apply (token_bytes _ _ Ht) in Hb. }
  rewrite take_app_length. destruct Ht as [Hne Hall].
  rewrite bool_decide_eq_false_2, Hall by done. cbn [negb orb].
  replace (drop (length n + 1) (n ++ 58 :: SP :: v)) with (SP :: v).
  2: { rewrite drop_app_ge by lia. by replace (length n + 1 - length n)%nat with 1%nat by lia. }
  replace (existsb _ (SP :: v)) with false.
  2: { symmetry. apply not_true_iff_false. intros (b&Hb&Hbad)%existsb_exists.
       destruct Hb as [<-|Hb%list_elem_of_In]; [done|]. unfold clean in Hc. rewrite Forall_forall in Hc.
       specialize (Hc _ Hb). lia. }
  cbv zeta. rewrite Hv, Ho.
  by replace (base + length n + 1 + 1)%nat with (base + length n + 2)%nat by lia.
Qed.

(** The spans of rendered fields that start, with their CRLF, at [o]. *)
Fixpoint field_spans (o : usize) (fields : list (bytes * bytes)) : list HeaderSpan :=
  match fields with
  | [] => []
  | f :: rest =>
      MkHeaderSpan (Span_at (o + 2) (length f.1)) (Span_at (o + 2 + length f.1 + 2) (length f.2))
      :: field_spans (o + 2 + length (render_field f)) rest
  end.

Lemma length_field_spans o fields : length (field_spans o fields) = length fields.
Proof. revert o. induction fields as [|f fs IH]; intros o; simpl; [done|]. by rewrite IH. Qed.

Lemma split_line_fields pre l fields :
  no_cr l ->
  split_line (pre ++ l ++ render_fields fields) (length pre) =
  (l, match fields with
      | [] => length (pre ++ l)
      | _ => (length (pre ++ l) + 2)%nat
      end).
Proof.
  intros Hl. destruct fields as [|f fs]; cbn [render_fields].
  - rewrite app_nil_r. by apply split_line_last.
  - rewrite split_line_middle by done. rewrite length_app. done.
Qed.

Lemma fields_loop_render fields : forall pre headers fuel,
  Forall field_ok fields -> (length headers + length fields <= MAX_HEADERS)%nat ->
  (length (render_fields fields) <= fuel)%nat ->
  fields_loop fuel (pre ++ render_fields fields)
    (match fields with [] => length pre | _ => (length pre + 2)%nat end) headers =
  (headers ++ field_spans (length pre) fields, Ok tt).
Proof.
  induction fields as [|f fs IH]; intros pre headers fuel Hok Hm Hf.
  { cbn [render_fields field_spans]. rewrite !app_nil_r.
    destruct fuel; cbn [fields_loop]; by rewrite Nat.ltb_irrefl. }
  apply Forall_cons in Hok as [Hf1 Hok]. cbn [render_fields] in Hf |- *. rewrite !length_app in Hf. simpl in Hf, Hm.
  destruct fuel as [|fuel]; [lia|]. cbn [fields_loop].
  replace (length pre + 2)%nat with (length (pre ++ CRLF)) by (rewrite length_app; done).
  rewrite (app_assoc pre CRLF). rewrite split_line_fields by (by apply render_field_no_cr).
  assert (Hne : render_field f <> []) by (unfold render_field; by destruct (f.1)).
  assert (0 < length (render_field f))%nat by (unfold render_field; rewrite length_app; simpl; lia).
  replace (_ <? _)%nat with true by (rewrite !length_app; lia).
  rewrite bool_decide_eq_false_2 by done. rewrite parse_field_render by done.
  replace (length headers =? MAX_HEADERS)%nat with false by lia.
  rewrite app_assoc, (IH ((pre ++ CRLF) ++ render_field f)) by (try done; rewrite ?length_app; simpl; lia).
  rewrite <- app_assoc. cbn [field_spans]. by rewrite !length_app.
Qed.

Lemma field_spans_pairs fields : forall pre more,
  Z.of_nat (length (pre ++ render_fields fields)) < 65536 ->
  omap (header_pair (pre ++ render_fields fields ++ more)) (field_spans (length pre) fields) = fields.
Proof.
  induction fields as [|f fs IH]; intros pre more Hl; [done|]. cbn [render_fields field_spans omap list_omap].
  cbn [render_fields] in Hl. rewrite !length_app in Hl. simpl in Hl.
  assert (Hrf : render_field f = f.1 ++ ([chr ":"; SP] ++ f.2)) by done.
  assert (Hrl : length (render_field f) = (length f.1 + 2 + length f.2)%nat)
    by (rewrite Hrf, !length_app; simpl; lia).
  assert (Hp : header_pair (pre ++ (CRLF ++ render_field f ++ render_fields fs) ++ more)
    (MkHeaderSpan (Span_at (length pre + 2) (length f.1)) (Span_at (length pre + 2 + length f.1 + 2) (length f.2)))
    = Some f).
  { unfold header_pair. cbn [hdr_name hdr_value]. rewrite Hrf.
    assert (H1 : span_bytes (Span_at (length pre + 2) (length f.1))
      (pre ++ (CRLF ++ (f.1 ++ ([chr ":"; SP] ++ f.2)) ++ render_fields fs) ++ more) = Some f.1).
    { apply span_at_bytes; [|rewrite !length_app; simpl; lia|lia].
      replace (pre ++ (CRLF ++ (f.1 ++ ([chr ":"; SP] ++ f.2)) ++ render_fields fs) ++ more)
        with ((pre ++ CRLF) ++ f.1 ++ ([chr ":"; SP] ++ f.2) ++ render_fields fs ++ more) by (by rewrite <- !app_assoc).
      replace (length pre + 2)%nat with (length (pre ++ CRLF)) by (rewrite length_app; done).
      by rewrite drop_app_length, take_app_length. }
    assert (H2 : span_bytes (Span_at (length pre + 2 + length f.1 + 2) (length f.2))
      (pre ++ (CRLF ++ (f.1 ++ ([chr ":"; SP] ++ f.2)) ++ render_fields fs) ++ more) = Some f.2).
    { apply span_at_bytes; [|rewrite !length_app; simpl; lia|lia].
      replace (pre ++ (CRLF ++ (f.1 ++ ([chr ":"; SP] ++ f.2)) ++ render_fields fs) ++ more)
        with ((pre ++ CRLF ++ f.1 ++ [chr ":"; SP]) ++ f.2 ++ render_fields fs ++ more) by (by rewrite <- !app_assoc).
      replace (length pre + 2 + length f.1 + 2)%nat with (length (pre ++ CRLF ++ f.1 ++ [chr ":"; SP]))
        by (rewrite !length_app; simpl; lia).
      by rewrite drop_app_length, take_app_length. }
    rewrite H1, H2. by destruct f. }
  rewrite Hp. f_equal.
  replace (pre ++ (CRLF ++ render_field f ++ render_fields fs) ++ more)
    with ((pre ++ CRLF ++ render_field f) ++ render_fields fs ++ more) by (by rewrite <- !app_assoc).
  replace (length pre + 2 + length (render_field f))%nat with (length (pre ++ CRLF ++ render_field f))
    by (rewrite !length_app; simpl; lia).
  apply IH. rewrite !length_app. simpl. lia.
Qed.

(** The first CRLFCRLF of a rendered head is its own. *)
Lemma no_crlfcrlf_in_line l k j :
  no_cr l -> (j < length l + 2)%nat -> head k <> Some CR -> ~ occurs_at CRLFCRLF (l ++ CRLF ++ k) j.
Proof.
  intros Hl Hj Hk Ho. destruct (decide (j < length l)%nat); [by eapply occurs_no_cr; [| | |exact Ho]|].
  unfold occurs_at in Ho. rewrite drop_app_ge in Ho by lia.
  destruct (j - length l)%nat as [|[|]] eqn:E; [| |lia].
  - destruct k as [|c k]; unfold CRLFCRLF, CRLF in Ho; simpl in Ho; by simplify_eq/=.
  - done.
Qed.

Lemma head_end_render fields : forall l rest,
  no_cr l -> Forall field_ok fields ->
  find_sub CRLFCRLF (l ++ render_fields fields ++ CRLFCRLF ++ rest)
  = Some (length l + length (render_fields fields))%nat.
Proof.
  induction fields as [|f fs IH]; intros l rest Hl Hok; cbn [render_fields].
  - rewrite app_nil_l. cbn [length]. rewrite Nat.add_0_r.
    apply find_sub_Some; [done|]. split; [apply occurs_at_middle|].
    intros j Hj. by apply occurs_no_cr.
  - apply Forall_cons in Hok as [Hf Hok].
    assert (Hh : head (render_field f ++ render_fields fs ++ CRLFCRLF ++ rest) <> Some CR).
    { destruct Hf as [Ht _]. pose proof (token_no_cr _ Ht) as Hn. destruct Ht as [Hne _].
      unfold render_field. destruct (f.1) as [|c n]; [done|]. simpl. intros [= ->]. apply Hn. left. }
    specialize (IH (render_field f) rest (render_field_no_cr _ Hf) Hok).
    apply find_sub_Some in IH as [Ho Hm]; [|done]. apply find_sub_Some; [done|].
    replace (l ++ (CRLF ++ render_field f ++ render_fields fs) ++ CRLFCRLF ++ rest)
      with (l ++ CRLF ++ render_field f ++ render_fields fs ++ CRLFCRLF ++ rest) by (by rewrite <- !app_assoc).
    assert (Hshift : forall j, (length l + 2 <= j)%nat ->
      occurs_at CRLFCRLF (l ++ CRLF ++ render_field f ++ render_fields fs ++ CRLFCRLF ++ rest) j <->
      occurs_at CRLFCRLF (render_field f ++ render_fields fs ++ CRLFCRLF ++ rest) (j - (length l + 2))).
    { intros j Hj. rewrite (app_assoc l CRLF). rewrite occurs_at_app_r by (rewrite length_app; simpl; lia).
      rewrite length_app. done. }
    rewrite !length_app. simpl. split.
    + apply Hshift; [lia|].
      by replace (length l + S (S (length (render_field f) + length (render_fields fs))) - (length l + 2))%nat
        with (length (render_field f) + length (render_fields fs))%nat by lia.
    + intros j Hj Hoj. destruct (decide (j < length l + 2)%nat).
      * by eapply no_crlfcrlf_in_line in Hoj.
      * apply Hshift in Hoj; [|lia]. by eapply Hm in Hoj; [|lia].
Qed.

Lemma request_line_no_cr m t v : token m -> target_ok t -> no_cr (request_line m t v).
Proof.
  intros Hm [_ Ht] Hin. unfold request_line in Hin.
  apply elem_of_app in Hin as [Hin|[Hin|Hin]%elem_of_cons]; [by apply (token_no_cr _ Hm)|done|].
  apply elem_of_app in Hin as [Hin|[Hin|Hin]%elem_of_cons].
  - rewrite Forall_forall in Ht. specialize (Ht _ Hin). unfold CR in Ht. lia.
  - done.
  - destruct v; vm_compute in Hin; set_solver.
Qed.

Lemma split_once_first c a b : c ∉ a -> split_once c (a ++ c :: b) = Some (a, b).
Proof. intros. by apply split_once_Some. Qed.

Lemma parse_request_line_render m t v :
  token m -> target_ok t ->
  parse_request_line 0 (request_line m t v) =
  Ok (Request (Span_at 0 (length m)) (Span_at (length m + 1) (length t)) v).
Proof.
  intros Hm [Hne Ht]. unfold parse_request_line, request_line.
  rewrite split_once_first by (by apply (token_not_in _ _ Hm)).
  rewrite split_once_first.
  2: { intros Hin. rewrite Forall_forall in Ht. specialize (Ht _ Hin). unfold SP in Ht. lia. }
  destruct Hm as [Hmne Hmt]. rewrite bool_decide_eq_false_2, Hmt by done. cbn [negb orb].
  rewrite bool_decide_eq_false_2 by done. replace (existsb _ t) with false.
  2: { symmetry. apply not_true_iff_false. intros (b&Hb%list_elem_of_In&Hbad)%existsb_exists.
       rewrite Forall_forall in Ht. specialize (Ht _ Hb). simpl in *. lia. }
  assert (Hv : parse_version (version_as_bytes v) = Ok v) by (by destruct v).
  by rewrite Hv.
Qed.

(** ** Framing lemmas *)

(** The decimal value of a digit string. *)
Definition decimal (value : bytes) : Z := foldl (fun a b => a * 10 + (b - 48)) 0 value.
Definition is_decimal (value : bytes) (n : Z) : Prop :=
  value <> [] /\ forallb is_ascii_digit value = true /\ decimal value = n /\ n <= u64_max.

Lemma foldl_decimal_ge value n : 0 <= n -> forallb is_ascii_digit value = true ->
  n <= foldl (fun a b => a * 10 + (b - 48)) n value.
Proof.
  revert n. induction value as [|b value IH]; intros n Hn; simpl; [lia|]. intros Hd. bools.
  unfold is_ascii_digit in *. etransitivity; [|apply IH; [lia|done]]. lia.
Qed.

Lemma digits_loop_spec value n r : 0 <= n <= u64_max -> forallb is_ascii_digit value = true ->
  digits_loop n value = Some r <->
  foldl (fun a b => a * 10 + (b - 48)) n value = r /\ r <= u64_max.
Proof.
  revert n. induction value as [|b value IH]; intros n Hn Hd; simpl; simpl in Hd.
  { split; [intros [= <-]; split; [done|lia]|]. by intros [-> _]. }
  bools. unfold is_ascii_digit, checked_mul, checked_add in *.
  assert (Hge : n * 10 + (b - 48) <= foldl (fun a b => a * 10 + (b - 48)) (n * 10 + (b - 48)) value)
    by (apply foldl_decimal_ge; [lia|done]).
  destruct (n * 10 <=? u64_max) eqn:H1; simpl.
  - destruct (n * 10 + (b - 48) <=? u64_max) eqn:H2; simpl.
    + apply IH; [lia|done].
    + split; [done|]. intros [<- ?]. lia.
  - split; [done|]. intros [<- ?]. lia.
Qed.

Lemma parse_digits_spec value n : parse_digits value = Ok n <-> is_decimal value n.
Proof.
  unfold parse_digits, is_decimal, decimal. case_bool_decide as He; simpl; [split; [done|naive_solver]|].
  destruct (forallb is_ascii_digit value) eqn:Hd; simpl; [|split; [done|naive_solver]].
  assert (Hs : forall r, digits_loop 0 value = Some r <->
    foldl (fun a b => a * 10 + (b - 48)) 0 value = r /\ r <= u64_max).
  { intros r. apply digits_loop_spec; [|done]. split; [lia|done]. }
  unfold ok_or. destruct (digits_loop 0 value) as [r|].
  - specialize (Hs r). destruct Hs as [Hs _]. destruct (Hs eq_refl) as [<- ?]. naive_solver.
  - split; [done|]. intros (_&_&Hv&Hm). specialize (Hs n). destruct Hs as [_ Hs].
    by discriminate Hs.
Qed.

(** One Transfer-Encoding value this codec accepts: exactly one token. *)
Definition te_value_ok (value : bytes) : Prop :=
  exists only, List.filter (fun t => negb (bool_decide (t = []))) (map trim_ows (split_on (chr ",") value)) = [only]
    /\ eq_ignore_ascii_case only (bstr "chunked") = true.

Lemma te_loop_spec values seen b :
  te_loop values seen = Ok b <-> Forall te_value_ok values /\ b = seen || negb (bool_decide (values = [])).
Proof.
  revert seen. induction values as [|v values IH]; intros seen; simpl.
  { rewrite orb_false_r. split; [intros [= ->]; by split|]. by intros [_ ->]. }
  rewrite orb_true_r, Forall_cons.
  assert (Hv : te_value_ok v <-> exists only more,
    List.filter (fun t => negb (bool_decide (t = []))) (map trim_ows (split_on (chr ",") v)) = only :: more /\
    more = [] /\ eq_ignore_ascii_case only (bstr "chunked") = true).
  { unfold te_value_ok. naive_solver. }
  rewrite Hv. destruct (List.filter _ _) as [|only more]; [split; [done|naive_solver]|].
  destruct (negb (bool_decide (more = [])) || negb (eq_ignore_ascii_case only (bstr "chunked"))) eqn:Hb.
  - split; [done|]. intros (((o&m&[= <- <-]&->&He)&_)&_). rewrite He in Hb. done.
  - bools. subst more. rewrite IH. simpl. split.
    + intros [Hall ->]. split; [|done]. split; [|done]. by eexists _, _.
    + naive_solver.
Qed.

(** Every element of every Content-Length field. *)
Definition cl_elements (values : list bytes) : list bytes :=
  flat_map (fun v => map trim_ows (split_on (chr ",") v)) values.

Lemma cl_parts_spec parts found r :
  cl_parts parts found = Ok r <->
  match r with
  | None => parts = [] /\ found = None
  | Some n => Forall (fun p => is_decimal p n) parts /\ (found = Some n \/ found = None /\ parts <> [])
  end.
Proof.
  revert found. induction parts as [|p parts IH]; intros found; simpl.
  { destruct r; naive_solver. }
  destruct (parse_digits p) as [n|] eqn:Hp; simpl.
  - apply parse_digits_spec in Hp. assert (Hu : forall m, is_decimal p m -> m = n).
    { intros m (_&_&<-&_). destruct Hp as (_&_&->&_). done. }
    destruct found as [prev|].
    + destruct (prev =? n) eqn:E.
      * assert (prev = n) as -> by lia. rewrite IH. destruct r as [m|]; [|naive_solver].
        rewrite Forall_cons. split; [intros [? [[= ->]|[]]]; [|done]; auto|].
        intros [[Hm ?] _]. apply Hu in Hm as ->. auto.
      * split; [done|]. destruct r as [m|]; [|naive_solver]. rewrite Forall_cons.
        intros [[Hm%Hu _] [[= ->]|[]]]; [lia|done].
    + rewrite IH. destruct r as [m|]; [|naive_solver]. rewrite Forall_cons.
      split; [intros [? [[= ->]|[]]]; [|done]; split; [done|right; done]|].
      intros [[Hm ?] _]. apply Hu in Hm as ->. auto.
  - split; [done|]. destruct r as [m|]; [|naive_solver]. rewrite Forall_cons.
    intros [[Hm _] _]. apply parse_digits_spec in Hm. congruence.
Qed.

Lemma cl_loop_spec values found r :
  cl_loop values found = Ok r <->
  match r with
  | None => values = [] /\ found = None
  | Some n => Forall (fun p => is_decimal p n) (cl_elements values) /\
      (found = Some n \/ found = None /\ values <> [])
  end.
Proof.
  revert found. induction values as [|v values IH]; intros found; simpl.
  { destruct r; naive_solver. }
  assert (Hne : map trim_ows (split_on 44 v) <> []).
  { pose proof (split_on_nonempty 44 v). by destruct (split_on 44 v). }
  destruct (cl_parts _ found) as [f|] eqn:Hp; simpl.
  - apply cl_parts_spec in Hp. rewrite IH. destruct f as [n|]; [|naive_solver].
    destruct Hp as [Hall Hf]. destruct r as [m|].
    + rewrite Forall_app. split.
      * intros [? [[= ->]|[]]]; [|done]. split; [done|]. naive_solver.
      * intros [[Hm ?] _]. destruct (map trim_ows _) as [|p ps]; [done|].
        apply Forall_cons in Hall as [(_&_&<-&_) _], Hm as [(_&_&<-&_) _]. auto.
    + naive_solver.
  - split; [done|]. destruct r as [m|]; [|naive_solver]. rewrite Forall_app.
    intros [[Hm ?] Hf]. assert (cl_parts (map trim_ows (split_on 44 v)) found = Ok (Some m)); [|congruence].
    apply cl_parts_spec. split; [done|]. naive_solver.
Qed.

(** What the framing headers of a head say. *)
Definition te_values (h : Head) (buf : bytes) : list bytes :=
  map snd (headers_named h buf (bstr "transfer-encoding")).
Definition cl_values (h : Head) (buf : bytes) : list bytes :=
  map snd (headers_named h buf (bstr "content-length")).

(** Every Content-Length element reads as the same number. *)
Definition declared_length (h : Head) (buf : bytes) (n : Z) : Prop :=
  cl_values h buf <> [] /\ Forall (fun p => is_decimal p n) (cl_elements (cl_values h buf)).

Definition framing_means (h : Head) (buf : bytes) (f : Framing) : Prop :=
  match f with
  | Chunked => te_values h buf <> [] /\ Forall te_value_ok (te_values h buf) /\ cl_values h buf = []
  | Length n => n <> 0 /\ te_values h buf = [] /\ declared_length h buf n
  | Empty => te_values h buf = [] /\ (cl_values h buf = [] \/ declared_length h buf 0)
  | UntilClose => False
  end.

Lemma te_spec h buf b :
  transfer_encoding_is_chunked h buf = Ok b <->
  Forall te_value_ok (te_values h buf) /\ b = negb (bool_decide (te_values h buf = [])).
Proof. unfold transfer_encoding_is_chunked. rewrite te_loop_spec. done. Qed.

Lemma cl_spec h buf r :
  content_length h buf = Ok r <->
  match r with None => cl_values h buf = [] | Some n => declared_length h buf n end.
Proof. unfold content_length. rewrite cl_loop_spec. unfold declared_length. destruct r; naive_solver. Qed.

(** What a writer renders, the parser reads back. *)
Lemma parse_rendered m t v fields rest :
  token m -> target_ok t -> Forall field_ok fields -> (length fields <= MAX_HEADERS)%nat ->
  (length (List.filter (fun '(n, _) => eq_ignore_ascii_case n (bstr "host")) fields) <= 1)%nat ->
  let wire := render_head (request_line m t v) fields in
  (length wire <= MAX_HEAD)%nat ->
  exists h, parse_request_head (wire ++ rest) Head_default = (h, Ok true) /\
    head_len h = length wire /\ head_method h (wire ++ rest) = Some m /\
    head_target h (wire ++ rest) = Some t /\ head_version h = v /\
    head_iter h (wire ++ rest) = fields.
Proof.
  intros Hm Ht Hf Hc Hhost wire Hlen.
  set (line := request_line m t v) in *. set (block := line ++ render_fields fields).
  assert (Hwire : wire = block ++ CRLFCRLF) by (unfold wire, render_head, block; by rewrite <- app_assoc).
  assert (Hwl : length wire = (length block + 4)%nat) by (rewrite Hwire, length_app; done).
  assert (Hmax : Z.of_nat (length block) < 65000) by (pose proof MAX_HEAD_Z; lia).
  assert (Hline : no_cr line) by (by apply request_line_no_cr).
  assert (Hend : head_end (wire ++ rest) = Some (length wire)).
  { unfold head_end. rewrite Hwire. unfold block.
    replace (((line ++ render_fields fields) ++ CRLFCRLF) ++ rest)
      with (line ++ render_fields fields ++ CRLFCRLF ++ rest) by (by rewrite <- !app_assoc).
    rewrite head_end_render by done. simpl. by rewrite !length_app. }
  assert (Hblock : take (length wire - 4) (wire ++ rest) = block).
  { rewrite Hwl. replace (length block + 4 - 4)%nat with (length block) by lia.
    by rewrite Hwire, <- app_assoc, take_app_length. }
  set (spans := field_spans (length line) fields).
  set (start := Request (Span_at 0 (length m)) (Span_at (length m + 1) (length t)) v).
  assert (Hfields : parse_fields block (split_line block 0).2 = (spans, Ok tt)).
  { unfold parse_fields, block. pose proof (split_line_fields [] line fields Hline) as Hs.
    rewrite !app_nil_l in Hs. change (length (@nil Z)) with 0%nat in Hs. rewrite Hs. simpl.
    by apply (fields_loop_render fields line []); [|simpl; lia|rewrite length_app; lia]. }
  assert (Hsplit : (split_line block 0).1 = line).
  { unfold block. pose proof (split_line_fields [] line fields Hline) as Hs.
    rewrite !app_nil_l in Hs. change (length (@nil Z)) with 0%nat in Hs. by rewrite Hs. }
  assert (Hiter : forall h, head_headers h = spans -> head_iter h (wire ++ rest) = fields).
  { intros h Hh. unfold head_iter. rewrite Hh, Hwire. unfold block. rewrite <- !app_assoc.
    apply field_spans_pairs. fold block. lia. }
  pose proof (parse_head_meaning parse_request_line reject_duplicate_host (wire ++ rest) Head_default
    (resumable_fresh _ Head_default eq_refl) reject_duplicate_host_fields) as Hp.
  unfold parse_meaning in Hp. rewrite Hend, Hblock in Hp.
  replace (MAX_HEAD <? length wire)%nat with false in Hp by lia.
  destruct (split_line block 0) as [l0 rest0]. simpl in Hfields, Hsplit. subst l0.
  unfold line in Hp at 1. rewrite parse_request_line_render in Hp by done. simpl in Hp.
  rewrite Hfields in Hp. simpl in Hp.
  unfold reject_duplicate_host, headers_named in Hp. rewrite Hiter in Hp by done.
  replace (1 <? _)%nat with false in Hp by lia. simpl in Hp.
  eexists. split; [exact Hp|]. cbn [head_len head_method head_target head_start head_version].
  assert (Hwm : forall l a b, wire ++ rest = a ++ l ++ b -> (length a + length l <= length block)%nat ->
    span_bytes (Span_at (length a) (length l)) (wire ++ rest) = Some l).
  { intros l a b Hw Hl. rewrite Hw. apply span_at_bytes; [by rewrite drop_app_length, take_app_length|
      rewrite !length_app; lia|lia]. }
  assert (Hbl : length block = (length m + 1 + length t + 1 + length (version_as_bytes v) + length (render_fields fields))%nat).
  { unfold block, line, request_line. rewrite !length_app. simpl. rewrite length_app. simpl. lia. }
  split_and!; [done| | |done|by apply Hiter].
  - apply (Hwm m [] (SP :: t ++ SP :: version_as_bytes v ++ render_fields fields ++ CRLFCRLF ++ rest)); [|simpl; lia].
    rewrite Hwire. unfold block, line, request_line. by rewrite <- !app_assoc; simpl; rewrite <- !app_assoc.
  - replace (length m + 1)%nat with (length (m ++ [SP])) by (by rewrite length_app).
    apply (Hwm t (m ++ [SP]) (SP :: version_as_bytes v ++ render_fields fields ++ CRLFCRLF ++ rest));
      [|rewrite length_app; simpl; lia].
    rewrite Hwire. unfold block, line, request_line. by rewrite <- !app_assoc; simpl; rewrite <- !app_assoc.
Qed.

(** [request_framing] decides [framing_means]. *)
Lemma request_framing_spec h buf f :
  request_framing h buf = Ok f <-> framing_means h buf f.
Proof.
  unfold request_framing.
  destruct (transfer_encoding_is_chunked h buf) as [ch|e] eqn:Hte; simpl.
  - apply te_spec in Hte as [Hte Hch].
    destruct (content_length h buf) as [len|e] eqn:Hcl; simpl.
    + apply cl_spec in Hcl. unfold framing_means.
      assert (Huniq : forall n m, declared_length h buf n -> declared_length h buf m -> n = m).
      { intros n m [Hne Hn] [_ Hm']. destruct (cl_values h buf) as [|v vs]; [done|]. simpl in Hn, Hm'.
        pose proof (split_on_nonempty 44 v). destruct (split_on 44 v) as [|p ps]; [done|]. simpl in *.
        apply Forall_cons in Hn as [(_&_&<-&_) _], Hm' as [(_&_&<-&_) _]. done. }
      case_bool_decide as Hv; simpl in Hch; subst ch.
      * destruct len as [n|].
        -- assert (Hd := Hcl). destruct Hcl as [Hne _]. destruct (decide (n = 0)) as [->|Hn0].
           ++ split; [intros [= <-]; auto|]. destruct f as [|k| |]; [done| |naive_solver|done].
              intros (Hk&_&Hk'). by rewrite (Huniq _ _ Hk' Hd) in Hk.
           ++ replace (match n with 0 => Ok Empty | _ => Ok (Length n) end)
                with (@Ok CodecError _ (Length n)) by (by destruct n).
              split; [intros [= <-]; auto|]. destruct f as [|k| |]; [| |naive_solver|done].
              ** intros (_&[?|Hz]); [done|]. by rewrite (Huniq _ _ Hz Hd) in Hn0.
              ** intros (_&_&Hk). by rewrite (Huniq _ _ Hk Hd).
        -- split; [intros [= <-]; auto|]. destruct f as [|k| |]; [naive_solver| |naive_solver|done].
           intros (_&_&[? _]). done.
      * destruct len as [n|].
        -- split; [done|]. destruct Hcl as [Hne _]. destruct f; naive_solver.
        -- split; [intros [= <-]; auto|]. destruct f; naive_solver.
    + split; [done|]. intros Hf. exfalso.
      assert (exists r, content_length h buf = Ok r) as [r Hr]; [|congruence].
      destruct f as [|k| |]; simpl in Hf; try done.
      * destruct Hf as [_ [Hf|Hf]]; [exists None|exists (Some 0)]; by apply cl_spec.
      * destruct Hf as (_&_&Hf). exists (Some k). by apply cl_spec.
      * destruct Hf as (_&_&Hf). exists None. by apply cl_spec.
  - split; [done|]. intros Hf. exfalso.
    assert (exists b, transfer_encoding_is_chunked h buf = Ok b) as [b Hb]; [|congruence].
    eexists. apply te_spec. split; [|done].
    destruct f as [|k| |]; simpl in Hf; [destruct Hf as [-> _]; constructor|
      destruct Hf as (_&->&_); constructor|by destruct Hf as (_&?&_)|done].
Qed.

(** What a parsed request head guarantees. *)
Lemma parse_request_sound buf h h' :
  resumable buf h -> parse_request_head buf h = (h', Ok true) ->
  (head_len h' <= length buf)%nat /\ (head_len h' <= MAX_HEAD)%nat /\
  head_end buf = Some (head_len h') /\
  (exists m t, head_method h' buf = Some m /\ head_target h' buf = Some t /\ token m /\ target_ok t) /\
  (length (head_headers h') <= MAX_HEADERS)%nat /\
  Forall (field_good buf) (head_headers h') /\
  (length (headers_named h' buf (bstr "host")) <= 1)%nat.
Proof.
  intros Hr Hp.
  pose proof (parse_head_meaning parse_request_line reject_duplicate_host buf h Hr
    reject_duplicate_host_fields) as Hm.
  unfold parse_request_head in Hp. rewrite Hp in Hm.
  destruct (parse_meaning _ _ buf _) as [[h1|]|e] eqn:He; simplify_eq. clear Hp.
  unfold parse_meaning in He. destruct (head_end buf) as [e|] eqn:Hend; [|by case_match].
  destruct (MAX_HEAD <? e)%nat eqn:Hmax; [done|].
  apply head_end_Some in Hend as Hx. destruct Hx as (H4&Ho&_). apply occurs_crlfcrlf_length in Ho.
  set (block := take (e - 4) buf) in *.
  assert (Hbl : length block = (e - 4)%nat) by (unfold block; rewrite length_take; lia).
  assert (Hlen : Z.of_nat (length block) < 65536) by (pose proof MAX_HEAD_Z; lia).
  destruct (split_line block 0) as [line rest] eqn:Hs.
  destruct (parse_request_line 0 line) as [start|] eqn:Hl; simpl in He; [|done].
  destruct (parse_fields block rest) as [hs [[]|]] eqn:Hf; simpl in He; [|done].
  destruct (reject_duplicate_host buf _) as [[]|] eqn:Hd; simpl in He; [|done].
  injection He as <-. cbn [head_len head_headers].
  assert (Hline : take (length line) block = line /\ (length line <= length block)%nat).
  { destruct (decide (0 < length block)%nat).
    - apply split_line_inside in Hs as (_&Hw&Hb); [|done]. by rewrite drop_0 in Hw.
    - assert (block = []) as Hnil by (destruct block; [done|simpl in *; lia]). rewrite Hnil in Hs.
      injection Hs as <- <-. by rewrite Hnil. }
  destruct (parse_request_line_good block line start (proj1 Hline) (proj2 Hline) Hlen Hl)
    as (m&t&v&m'&t'&->&Hmb&Htb&Hmt&Htt&_).
  apply fields_loop_good in Hf as [Hgood Hcount]; [|done|constructor|simpl; lia].
  assert (Hbuf : buf = block ++ drop (e - 4) buf) by (unfold block; by rewrite take_drop).
  split_and!; try done; try lia.
  - exists m', t'. unfold head_method, head_target. cbn [head_start].
    rewrite Hbuf, (span_bytes_app _ _ _ _ Hmb), (span_bytes_app _ _ _ _ Htb). done.
  - rewrite Hbuf. eapply Forall_impl; [exact Hgood|]. intros x. apply field_good_app.
  - unfold reject_duplicate_host in Hd. case_match eqn:Hc; [done|].
    unfold headers_named, head_iter in *. cbn [head_headers] in *. lia.
Qed.

(** The reason of a status line lies in the line. *)
Lemma parse_status_line_good block line s :
  take (length line) block = line -> (length line <= length block)%nat ->
  Z.of_nat (length block) < 65536 ->
  parse_status_line 0 line = Ok s ->
  exists code reason v, s = Status code reason v /\ is_Some (span_bytes reason block).
Proof.
  intros Hw Hl Hlen. unfold parse_status_line.
  destruct (split_once SP line) as [[version rest]|] eqn:H1; [|done].
  destruct (match split_once SP rest with Some (c, r) => (c, r) | None => (rest, []) end) as [code reason] eqn:H2.
  destruct (parse_version version) as [v|] eqn:Hv; simpl; [|done].
  destruct (negb (length code =? 3)%nat || _) eqn:Hc; [done|]. apply orb_false_iff in Hc as [Hc _]. apply negb_false_iff, Nat.eqb_eq in Hc.
  intros [= <-]. eexists _, _, _. split; [reflexivity|].
  case_bool_decide as Hr; [by eexists|].
  assert (Hrest : rest = code ++ SP :: reason).
  { destruct (split_once SP rest) as [[c r]|] eqn:H3; simplify_eq. by apply split_once_Some in H3 as [-> _]. }
  apply split_once_Some in H1 as [Hline Hv1].
  assert (Hvl : version_len line = length version).
  { unfold version_len. rewrite Hline.
    assert (Hp : position (fun b => b =? SP) (version ++ SP :: rest) = Some (length version)); [|by rewrite Hp].
    clear - Hv1. induction version as [|b version IH]; [done|]. simpl.
    rewrite not_elem_of_cons in Hv1. destruct Hv1 as [Hb Hv1].
    replace (b =? SP) with false by (symmetry; apply Z.eqb_neq; congruence). by rewrite IH. }
  rewrite Hvl. assert (Hall : line = (version ++ SP :: code ++ [SP]) ++ reason).
  { rewrite Hline, Hrest. by rewrite <- app_assoc; simpl; rewrite <- app_assoc. }
  assert (Hpre : length (version ++ SP :: code ++ [SP]) = (0 + length version + 1 + 3 + 1)%nat).
  { rewrite length_app. simpl. rewrite length_app. simpl. lia. }
  exists reason. rewrite Hall, length_app, Hpre in Hl. change (0 + length version)%nat with (length version) in *.
  apply span_at_bytes; [|lia|lia]. rewrite <- Hpre. change block with (drop 0 block) at 1.
  replace (length (version ++ SP :: code ++ [SP])) with (0 + length (version ++ SP :: code ++ [SP]))%nat by done.
  rewrite (window_of_window _ 0 line).
  - rewrite Hall, drop_app_length. apply firstn_all.
  - by rewrite drop_0.
  - rewrite Hall, !length_app. lia.
Qed.

(** Reading a head that was just parsed never panics, whatever cursor the
    parse started from. *)
Lemma parse_head_readable sl ck buf h h' :
  (forall block line s, take (length line) block = line -> (length line <= length block)%nat ->
     Z.of_nat (length block) < 65536 -> sl 0%nat line = Ok s ->
     forall hs n m, forallb (fun f => bool_decide (is_Some (header_pair block f))) hs = true ->
       spans_readable (MkHead s hs n m) block = true) ->
  parse_head sl ck buf h = (h', Ok true) -> spans_readable h' buf = true /\ (head_len h' <= length buf)%nat.
Proof.
  intros Hsl. unfold parse_head, find_head_end. set (from := Nat.min _ _).
  destruct (find_sub CRLFCRLF (drop from buf)) as [i|] eqn:Hf; [|by repeat case_match].
  destruct (MAX_HEAD <? from + i + 4)%nat eqn:Hmax; [done|].
  apply find_sub_Some in Hf as [Ho _]; [|done]. apply occurs_crlfcrlf_length in Ho. rewrite length_drop in Ho.
  assert (Hfrom : (from <= length buf)%nat) by lia. set (e := (from + i + 4)%nat) in *.
  set (block := take (e - 4) buf).
  assert (Hbl : length block = (e - 4)%nat) by (unfold block; rewrite length_take; lia).
  assert (Hlen : Z.of_nat (length block) < 65536) by (pose proof MAX_HEAD_Z; lia).
  destruct (split_line block 0) as [line rest] eqn:Hs.
  assert (Hline : take (length line) block = line /\ (length line <= length block)%nat).
  { destruct (decide (0 < length block)%nat).
    - apply split_line_inside in Hs as (_&Hw&Hb); [|done]. by rewrite drop_0 in Hw.
    - assert (block = []) as Hnil by (destruct block; [done|simpl in *; lia]). rewrite Hnil in Hs.
      injection Hs as <- <-. by rewrite Hnil. }
  destruct (sl 0%nat line) as [start|] eqn:Hl; [|done].
  destruct (parse_fields block rest) as [hs [[]|]] eqn:Hfs; [|done].
  destruct (ck _ _) as [[]|]; [|done]. intros [= <-].
  apply fields_loop_good in Hfs as [Hgood _]; [|done|constructor|simpl; lia].
  assert (Hread : spans_readable (MkHead start hs e 0) block = true).
  { apply (Hsl _ _ _ (proj1 Hline) (proj2 Hline) Hlen Hl). apply forallb_forall. intros x Hx%list_elem_of_In.
    rewrite Forall_forall in Hgood. destruct (Hgood x Hx) as (n&v&Hp&_).
    apply bool_decide_eq_true. rewrite Hp. by eexists. }
  split; [|cbn; lia]. revert Hread. assert (Hbuf : buf = block ++ drop (e - 4) buf) by (unfold block; by rewrite take_drop).
  rewrite Hbuf. generalize (drop (e - 4) buf). clear. intros more. unfold spans_readable. cbn [head_start head_headers].
  rewrite !andb_true_iff. intros [H1 H2]. split.
  - assert (Happ : forall s, bool_decide (is_Some (span_bytes s block)) = true ->
      bool_decide (is_Some (span_bytes s (block ++ more))) = true).
    { intros s [x Hx]%bool_decide_eq_true. apply bool_decide_eq_true. exists x. by apply span_bytes_app. }
    destruct start; [|by apply Happ]. apply andb_true_iff in H1 as [? ?]. by rewrite !Happ.
  - rewrite forallb_forall in *. intros x Hx. specialize (H2 x Hx). apply bool_decide_eq_true in H2 as [y Hy].
    apply bool_decide_eq_true. exists y. by apply header_pair_app.
Qed.

Lemma request_head_readable buf h h' :
  parse_request_head buf h = (h', Ok true) -> spans_readable h' buf = true /\ (head_len h' <= length buf)%nat.
Proof.
  apply parse_head_readable. intros block line s H1 H2 H3 Hs hs n m Hh.
  destruct (parse_request_line_good block line s H1 H2 H3 Hs) as (me&t&v&m'&t'&->&Hm&Ht&_).
  unfold spans_readable. cbn [head_start head_headers]. by rewrite Hm, Ht, Hh.
Qed.
Lemma response_head_readable buf h h' :
  parse_response_head buf h = (h', Ok true) -> spans_readable h' buf = true /\ (head_len h' <= length buf)%nat.
Proof.
  apply parse_head_readable. intros block line s H1 H2 H3 Hs hs n m Hh.
  destruct (parse_status_line_good block line s H1 H2 H3 Hs) as (code&r&v&->&x&Hr).
  unfold spans_readable. cbn [head_start head_headers]. by rewrite Hr, Hh.
Qed.

(** ** Properties *)

(** A head is read the same however it arrives.  Appending the reads of a
    connection to a buffer and parsing after each, with the scan cursor carried
    over, stops with the head (or the error) that one parse of the accumulated
    bytes gives, and never reports a complete or unfinished head differently:
    the cursor never skips a terminator. *)
Theorem request_head_resume pieces h r buf :
  read_head parse_request_head [] Head_default pieces = (h, r, buf) ->
  match r with
  | Ok true => parse_request_head buf Head_default = (h, Ok true)
  | Ok false => (parse_request_head buf Head_default).2 = Ok false \/
      (parse_request_head buf Head_default).2 = Err TooLarge
  | Err e => (parse_request_head buf Head_default).2 = Err e
  end.
Proof.
  intros Hr. apply read_head_meaning in Hr.
  - pose proof (parse_head_meaning parse_request_line reject_duplicate_host buf Head_default
      (resumable_fresh _ Head_default eq_refl) reject_duplicate_host_fields) as Hm.
    unfold parse_request_head. destruct r as [[]|e].
    + by rewrite Hr in Hm.
    + apply head_end_None in Hr. unfold parse_meaning in Hm. rewrite Hr in Hm.
      destruct (MAX_HEAD <? length buf)%nat; [by right|left]. by rewrite Hm.
    + by rewrite Hr in Hm.
  - apply reject_duplicate_host_fields.
  - intros j Hj%occurs_crlfcrlf_length. simpl in Hj. lia.
  - intros more. by apply resumable_fresh.
Qed.

(** C24: An accepted head is safe to use.  Its end is the first CRLFCRLF and
    within 16 KiB; every span lies inside the buffer, so reading one never
    panics; the method and the field names are tokens, the target holds no
    space or control byte, no value holds a byte that could end a line, at
    most 64 fields and at most one [Host] are kept. *)
Theorem parsed_head_sound buf h h' :
  resumable buf h -> parse_request_head buf h = (h', Ok true) ->
  (head_len h' <= length buf)%nat /\ (head_len h' <= MAX_HEAD)%nat /\
  head_end buf = Some (head_len h') /\
  (exists m t, head_method h' buf = Some m /\ head_target h' buf = Some t /\ token m /\ target_ok t) /\
  (length (head_headers h') <= MAX_HEADERS)%nat /\
  Forall (field_good buf) (head_headers h') /\
  (length (headers_named h' buf (bstr "host")) <= 1)%nat.
Proof. exact (parse_request_sound buf h h'). Qed.

(** C25: Parsing inverts rendering.  A request written as method, target,
    version and fields (tokens, a clean target, trimmed clean values, at most
    64 fields and one [Host], within 16 KiB) is parsed back to exactly those
    parts, and the head ends where the body starts, whatever follows. *)
Theorem request_head_roundtrip m t v fields rest :
  token m -> target_ok t -> Forall field_ok fields -> (length fields <= MAX_HEADERS)%nat ->
  (length (List.filter (fun '(n, _) => eq_ignore_ascii_case n (bstr "host")) fields) <= 1)%nat ->
  let wire := render_head (request_line m t v) fields in
  (length wire <= MAX_HEAD)%nat ->
  exists h, parse_request_head (wire ++ rest) Head_default = (h, Ok true) /\
    head_len h = length wire /\ head_method h (wire ++ rest) = Some m /\
    head_target h (wire ++ rest) = Some t /\ head_version h = v /\
    head_iter h (wire ++ rest) = fields.
Proof. exact (parse_rendered m t v fields rest). Qed.

(** C10: Framing is unambiguous.  [request_framing] answers exactly when the
    head says one thing: chunked when every Transfer-Encoding is the single
    coding [chunked] and no Content-Length is present, a length when no
    Transfer-Encoding is present and every Content-Length element is the same
    64-bit decimal, no body otherwise; both headers together, another coding,
    a malformed or conflicting length are errors. *)
Theorem request_framing_exact h buf f :
  request_framing h buf = Ok f <-> framing_means h buf f.
Proof. exact (request_framing_spec h buf f). Qed.

(** ** Witnesses and examples *)

Definition demo_fields : list (bytes * bytes) :=
  [(bstr "Host", bstr "a.example"); (bstr "Content-Length", bstr "5")].
Definition demo_wire : bytes := render_head (request_line (bstr "POST") (bstr "/x?y=1") Http11) demo_fields.
Definition demo_head : Head := (parse_request_head (demo_wire ++ bstr "hello") Head_default).1.

Lemma demo_token n : n <> [] -> forallb is_tchar n = true -> token n.
Proof. by split. Qed.
Lemma demo_clean v :
  forallb (fun b => ((32 <=? b) || (b =? HTAB)) && negb (b =? 127)) v = true -> clean v.
Proof.
  intros Hv. apply Forall_forall. intros b Hb%list_elem_of_In. rewrite forallb_forall in Hv.
  specialize (Hv _ Hb). simpl in Hv. lia.
Qed.
Lemma demo_trimmed v :
  (match head v with Some b => is_ows b | None => false end) = false ->
  (match last v with Some b => is_ows b | None => false end) = false -> trimmed v.
Proof. intros H1 H2. split; intros b Hb; by rewrite Hb in *. Qed.
Lemma demo_target t : t <> [] -> forallb (fun b => (32 <? b) && negb (b =? 127)) t = true -> target_ok t.
Proof.
  intros Hn Ht. split; [done|]. apply Forall_forall. intros b Hb%list_elem_of_In.
  rewrite forallb_forall in Ht. specialize (Ht _ Hb). simpl in Ht. lia.
Qed.

Lemma request_head_roundtrip_witness :
  exists h, parse_request_head (demo_wire ++ bstr "hello") Head_default = (h, Ok true) /\
    head_iter h (demo_wire ++ bstr "hello") = demo_fields.
Proof.
  destruct (request_head_roundtrip (bstr "POST") (bstr "/x?y=1") Http11 demo_fields (bstr "hello"))
    as (h&Hp&_&_&_&_&Hi).
  - apply demo_token; [discriminate|vm_compute; reflexivity].
  - apply demo_target; [discriminate|vm_compute; reflexivity].
  - repeat constructor; cbn [fst snd]; try discriminate; try (vm_compute; reflexivity);
      try (apply demo_clean; vm_compute; reflexivity);
      intros b Hb; vm_compute in Hb; injection Hb as <-; vm_compute; reflexivity.
  - vm_compute. repeat constructor.
  - vm_compute. repeat constructor.
  - apply Nat.leb_le. vm_compute. reflexivity.
  - exists h. split; [exact Hp|exact Hi].
Defined.

Lemma parsed_head_sound_witness :
  (head_len demo_head <= length (demo_wire ++ bstr "hello"))%nat /\
  Forall (field_good (demo_wire ++ bstr "hello")) (head_headers demo_head).
Proof.
  destruct (parsed_head_sound (demo_wire ++ bstr "hello") Head_default demo_head)
    as (Hl&_&_&_&_&Hf&_).
  - apply resumable_fresh. reflexivity.
  - vm_compute. reflexivity.
  - split; [exact Hl|exact Hf].
Defined.

Lemma request_head_resume_witness :
  parse_request_head (demo_wire ++ bstr "hello") Head_default = (demo_head, Ok true).
Proof.
  apply (request_head_resume [take 40 demo_wire; drop 40 demo_wire ++ bstr "hello"] demo_head (Ok true)
    (demo_wire ++ bstr "hello")).
  vm_compute. reflexivity.
Defined.

Example content_length_read : request_framing demo_head demo_wire = Ok (Length 5).
Proof. vm_compute. reflexivity. Qed.
Example smuggling_pair_refused :
  let wire := render_head (request_line (bstr "POST") (bstr "/") Http11)
    [(bstr "Content-Length", bstr "5"); (bstr "transfer-encoding", bstr "Chunked")] in
  request_framing (parse_request_head wire Head_default).1 wire = Err both_framings.
Proof. vm_compute. reflexivity. Qed.
Example token_list_is_scanned : has_token (bstr "keep-alive, Upgrade") (bstr "upgrade") = true
  /\ has_token (bstr "not-close") (bstr "close") = false.
Proof. vm_compute. done. Qed.
Example folded_header_refused :
  (parse_request_head (bstr "GET / HTTP/1.1" ++ CRLF ++ bstr "A: b" ++ CRLF ++ bstr " c" ++ CRLFCRLF) Head_default).2
  = Err (Malformed (bstr "obsolete line folding")).
Proof. vm_compute. reflexivity. Qed.
Example bare_version_unsupported :
  (parse_request_head (bstr "GET / HTTP/2" ++ CRLFCRLF) Head_default).2 = Err (Unsupported (bstr "http version")).
Proof. vm_compute. reflexivity. Qed.
Example status_line_read :
  let wire := bstr "HTTP/1.1 204 No Content" ++ CRLF ++ bstr "Content-Length: 9" ++ CRLFCRLF in
  let h := (parse_response_head wire Head_default).1 in
  head_status h = Some 204 /\ response_framing h wire false = Ok Empty.
Proof. vm_compute. done. Qed.
