(* ===== verification/NetText.v ===== *)
(** Text forms of the Rust standard library the sources parse: [u16::from_str]
    on digit strings, [Ipv4Addr::from_str] and [Ipv6Addr::from_str].

    The address parsers follow [core::net::parser]: each reader takes the rest
    of the input and returns what it read with what is left, or nothing and
    leaves the input alone (the library's [read_atomically]). *)

From S2P Require Import Prelude.

Definition digit_value (radix : Z) (b : u8) : option Z :=
  let v :=
    if (48 <=? b) && (b <=? 57) then b - 48
    else if (97 <=? b) && (b <=? 122) then b - 97 + 10
    else if (65 <=? b) && (b <=? 90) then b - 65 + 10
    else radix in
  if v <? radix then Some v else None.

(** The loop of [read_number]: at most [max_digits] digits, the value at most
    [max]; returns the value, the digit count and the rest. *)
Fixpoint number_loop (radix max : Z) (max_digits : nat) (s : str) (acc : Z) (count : nat)
    : option (Z * nat * str) :=
  match s with
  | [] => Some (acc, count, [])
  | b :: s' =>
      match digit_value radix b with
      | None => Some (acc, count, s)
      | Some d =>
          if max <? acc * radix + d then None
          else if (max_digits <? S count)%nat then None
          else number_loop radix max max_digits s' (acc * radix + d) (S count)
      end
  end.

Definition read_number (radix max : Z) (max_digits : nat) (allow_zero_prefix : bool) (s : str)
    : option (Z * str) :=
  match number_loop radix max max_digits s 0 0 with
  | None => None
  | Some (v, count, rest) =>
      if (count =? 0)%nat then None
      else if negb allow_zero_prefix && bool_decide (head s = Some (chr "0")) && (1 <? count)%nat
      then None
      else Some (v, rest)
  end.

Definition read_given_char (c : u8) (s : str) : option str :=
  match s with
  | b :: s' => if b =? c then Some s' else None
  | [] => None
  end.

(** The separator before every element but the first. *)
Definition read_separator {A} (sep : u8) (index : nat) (inner : str -> option (A * str)) (s : str)
    : option (A * str) :=
  match index with
  | 0%nat => inner s
  | _ => s' ← read_given_char sep s; inner s'
  end.

Definition read_octet : str -> option (u8 * str) := read_number 10 255 3 false.

Definition read_ipv4_addr (s : str) : option (list u8 * str) :=
  '(a, s) ← read_octet s;
  '(b, s) ← read_separator (chr ".") 1 read_octet s;
  '(c, s) ← read_separator (chr ".") 2 read_octet s;
  '(d, s) ← read_separator (chr ".") 3 read_octet s;
  Some ([a; b; c; d], s).

(** [read_groups]: [i] groups read so far out of [limit]; returns the groups,
    whether an IPv4 tail was read, and the rest. *)
Fixpoint read_groups (fuel : nat) (limit i : nat) (s : str) : list u16 * bool * str :=
  match fuel with
  | 0%nat => ([], false, s)
  | S fuel' =>
      let ipv4 :=
        if (S i <? limit)%nat then read_separator (chr ":") i read_ipv4_addr s else None in
      match ipv4 with
      | Some ([one; two; three; four], rest) => ([one * 256 + two; three * 256 + four], true, rest)
      | _ =>
          match read_separator (chr ":") i (read_number 16 65535 4 true) s with
          | None => ([], false, s)
          | Some (g, rest) =>
              let '(gs, v4, rest') := read_groups fuel' limit (S i) rest in
              (g :: gs, v4, rest')
          end
      end
  end.

Definition read_ipv6_addr (s : str) : option (list u16 * str) :=
  let '(front, front_ipv4, s1) := read_groups 8 8 0 s in
  if (length front =? 8)%nat then Some (front, s1)
  else if front_ipv4 then None
  else
    s2 ← read_given_char (chr ":") s1;
    s3 ← read_given_char (chr ":") s2;
    let limit := (8 - (length front + 1))%nat in
    let '(back, _, s4) := read_groups limit limit 0 s3 in
    Some (front ++ replicate (8 - length front - length back) 0 ++ back, s4).

Definition groups_to_octets (gs : list u16) : list u8 :=
  flat_map (fun g => [g / 256; g mod 256]) gs.

(** The whole string must be the address; IPv4 text is at most 15 bytes. *)
Definition parse_ipv4 (s : str) : option (list u8) :=
  if (15 <? length s)%nat then None
  else match read_ipv4_addr s with
       | Some (ip, []) => Some ip
       | _ => None
       end.
Definition parse_ipv6 (s : str) : option (list u8) :=
  match read_ipv6_addr s with
  | Some (gs, []) => Some (groups_to_octets gs)
  | _ => None
  end.

(** [u16::from_str] on a non-empty string of digits. *)
Definition parse_u16_digits (s : str) : option u16 :=
  let v := foldl (fun acc b => acc * 10 + (b - 48)) 0 s in
  if v <=? u16_max then Some v else None.

Example ipv4_text : parse_ipv4 (bstr "192.0.2.10") = Some [192; 0; 2; 10].
Proof. reflexivity. Qed.
Example ipv4_bad : map parse_ipv4 [bstr "1.2.3"; bstr "1.2.3.256"; bstr "01.2.3.4"; bstr "1.2.3.4 "; bstr "2001:db8::1"]
  = [None; None; None; None; None].
Proof. reflexivity. Qed.
Example ipv6_text : parse_ipv6 (bstr "2001:db8::1") =
  Some [32; 1; 13; 184; 0; 0; 0; 0; 0; 0; 0; 0; 0; 0; 0; 1].
Proof. reflexivity. Qed.
Example ipv6_v4_tail : parse_ipv6 (bstr "::ffff:10.0.0.1") =
  Some [0; 0; 0; 0; 0; 0; 0; 0; 0; 0; 255; 255; 10; 0; 0; 1].
Proof. reflexivity. Qed.
Example ipv6_bad : map parse_ipv6 [bstr "192.0.2.10"; bstr ":::"; bstr "1:2:3:4:5:6:7"; bstr "12345::"]
  = [None; None; None; None].
Proof. reflexivity. Qed.
Example ipv6_any : parse_ipv6 (bstr "::") = Some (replicate 16 0).
Proof. reflexivity. Qed.

(** [str::trim]: the encodings of the [White_Space] scalars, one to three bytes. *)
Definition ascii_space (b : u8) : bool := ((9 <=? b) && (b <=? 13)) || (b =? 32).
Definition space2 (b0 b1 : u8) : bool := (b0 =? 194) && ((b1 =? 133) || (b1 =? 160)).
Definition space3 (b0 b1 b2 : u8) : bool :=
  ((b0 =? 225) && (b1 =? 154) && (b2 =? 128))
  || ((b0 =? 226) && (b1 =? 128)
      && (((128 <=? b2) && (b2 <=? 138)) || (b2 =? 168) || (b2 =? 169) || (b2 =? 175)))
  || ((b0 =? 226) && (b1 =? 129) && (b2 =? 159))
  || ((b0 =? 227) && (b1 =? 128) && (b2 =? 128)).
Fixpoint trim_start (s : str) : str :=
  match s with
  | b0 :: s0 =>
      if ascii_space b0 then trim_start s0
      else match s0 with
      | b1 :: s1 =>
          if space2 b0 b1 then trim_start s1
          else match s1 with
          | b2 :: s2 => if space3 b0 b1 b2 then trim_start s2 else s
          | [] => s
          end
      | [] => s
      end
  | [] => []
  end.
(** The same at the end, on the reversed bytes. *)
Fixpoint trim_end_rev (s : str) : str :=
  match s with
  | b0 :: s0 =>
      if ascii_space b0 then trim_end_rev s0
      else match s0 with
      | b1 :: s1 =>
          if space2 b1 b0 then trim_end_rev s1
          else match s1 with
          | b2 :: s2 => if space3 b2 b1 b0 then trim_end_rev s2 else s
          | [] => s
          end
      | [] => s
      end
  | [] => []
  end.
Definition str_trim (s : str) : str := rev (trim_end_rev (rev (trim_start s))).

Example trims : map str_trim [bstr "  a b "; [194; 160; 97; 226; 128; 131]; bstr ""; [9; 10]]
  = [bstr "a b"; [97]; []; []].
Proof. reflexivity. Qed.

(** ** Decimal text, written and read back *)

#[local] Ltac Zify.zify_post_hook ::= Z.to_euclidean_division_equations.

Fixpoint decimal_fuel (fuel : nat) (n : Z) : str :=
  match fuel with
  | 0%nat => []
  | S fuel' => if n <? 10 then [48 + n] else decimal_fuel fuel' (n / 10) ++ [48 + n mod 10]
  end.
(** [u16::to_string]: five digits are enough. *)
Definition decimal (n : u16) : str := decimal_fuel 5 n.
Definition ipv4_to_text (ip : list u8) : str :=
  match ip with
  | [a; b; c; d] =>
      decimal a ++ chr "." :: decimal b ++ chr "." :: decimal c ++ chr "." :: decimal d
  | _ => []
  end.

(** [to_string] of a [u64] or a non-negative [i64]: twenty digits are enough. *)
Definition to_string (n : Z) : str := decimal_fuel 20 n.

(** The [Display] of an [Ipv6Addr]: lower-case groups, the first longest run of
    two or more zero groups as [::], a mapped address with an IPv4 tail. *)
Fixpoint hex_fuel (fuel : nat) (n : Z) : str :=
  let digit d := if d <? 10 then 48 + d else 87 + d in
  match fuel with
  | 0%nat => []
  | S fuel' => if n <? 16 then [digit n] else hex_fuel fuel' (n / 16) ++ [digit (n mod 16)]
  end.
Fixpoint groups_of_octets (octets : list u8) : list u16 :=
  match octets with
  | high :: low :: rest => high * 256 + low :: groups_of_octets rest
  | _ => []
  end.
(** The run that starts here, and the first longest run: its start and length. *)
Fixpoint zero_run (gs : list u16) : nat :=
  match gs with
  | g :: gs' => if g =? 0 then S (zero_run gs') else 0%nat
  | [] => 0%nat
  end.
Fixpoint longest_run (start : nat) (gs : list u16) : nat * nat :=
  match gs with
  | [] => (start, 0%nat)
  | g :: gs' =>
      let '(s, n) := longest_run (S start) gs' in
      if (n <=? zero_run gs)%nat then (start, zero_run gs) else (s, n)
  end.
Fixpoint groups_text (gs : list u16) : str :=
  match gs with
  | [] => []
  | [g] => hex_fuel 4 g
  | g :: gs' => hex_fuel 4 g ++ chr ":" :: groups_text gs'
  end.
Definition compressed_text (gs : list u16) : str :=
  let '(start, n) := longest_run 0 gs in
  if (1 <? n)%nat
  then groups_text (take start gs) ++ bstr "::" ++ groups_text (drop (start + n) gs)
  else groups_text gs.
Definition ipv6_to_text (ip : list u8) : str :=
  let gs := groups_of_octets ip in
  if bool_decide (take 6 gs = [0; 0; 0; 0; 0; 65535])
  then bstr "::ffff:" ++ ipv4_to_text (drop 12 ip)
  else compressed_text gs.
Definition ip_to_text (ip : IpAddr) : str :=
  match ip with IpV4 octets => ipv4_to_text octets | IpV6 octets => ipv6_to_text octets end.
Definition socket_to_text (a : SocketAddr) : str :=
  match a with
  | SocketV4 ip p => ipv4_to_text ip ++ chr ":" :: decimal p
  | SocketV6 ip p _ scope =>
      chr "[" :: ipv6_to_text ip ++ (if scope =? 0 then [] else chr "%" :: to_string scope) ++ bstr "]:" ++ decimal p
  end.

Example ip_texts :
  map (fun s => ipv6_to_text <$> parse_ipv6 s)
    [bstr "2001:db8::1"; bstr "::"; bstr "1:0:0:2:0:0:0:3"; bstr "::ffff:10.0.0.1"; bstr "1:0:2:3:4:5:6:7"; bstr "fe80:0:0:1:0:0:2:3"]
  = [Some (bstr "2001:db8::1"); Some (bstr "::"); Some (bstr "1:0:0:2::3"); Some (bstr "::ffff:10.0.0.1");
     Some (bstr "1:0:2:3:4:5:6:7"); Some (bstr "fe80::1:0:0:2:3")].
Proof. reflexivity. Qed.
Example socket_texts :
  socket_to_text (SocketV4 [10; 0; 0; 1] 8080) = bstr "10.0.0.1:8080" /\
  socket_to_text (SocketV6 [0; 0; 0; 0; 0; 0; 0; 0; 0; 0; 0; 0; 0; 0; 0; 1] 80 0 3) = bstr "[::1%3]:80".
Proof. split; reflexivity. Qed.

Lemma decimal_fuel_digits fuel n :
  0 <= n -> Forall (fun b => is_ascii_digit b = true) (decimal_fuel fuel n).
Proof.
  revert n. induction fuel as [|fuel IH]; intros n Hn; simpl; [constructor|].
  unfold is_ascii_digit in *. case_match eqn:E.
  - repeat constructor. lia.
  - apply Forall_app. split; [apply IH; lia|]. repeat constructor. lia.
Qed.

Lemma decimal_fuel_length fuel n k :
  0 <= n < 10 ^ Z.of_nat k -> (0 < k)%nat -> (length (decimal_fuel fuel n) <= k)%nat.
Proof.
  revert n k. induction fuel as [|fuel IH]; intros n k Hn Hk; simpl; [lia|].
  case_match; simpl; [lia|]. rewrite length_app. simpl. destruct k as [|[|k]]; [lia|simpl in *; lia|].
  assert (length (decimal_fuel fuel (n / 10)) <= S k)%nat; [|lia]. apply IH; [|lia].
  replace (Z.of_nat (S (S k))) with (Z.of_nat (S k) + 1) in Hn by lia.
  rewrite Z.pow_add_r in Hn by lia. lia.
Qed.

Lemma decimal_fuel_ne fuel n : decimal_fuel (S fuel) n <> [].
Proof. cbn [decimal_fuel]. case_match; [done|]. by destruct (decimal_fuel fuel (n / 10)). Qed.

Lemma decimal_fuel_head fuel n :
  10 <= n -> n < 10 ^ Z.of_nat fuel -> head (decimal_fuel fuel n) <> Some (chr "0").
Proof.
  revert n. induction fuel as [|fuel IH]; intros n Hn Hf; simpl; [done|].
  replace (n <? 10) with false by lia.
  replace (Z.of_nat (S fuel)) with (Z.of_nat fuel + 1) in Hf by lia.
  rewrite Z.pow_add_r in Hf by lia.
  destruct (decide (n / 10 < 10)) as [Hd|Hd].
  - destruct fuel as [|fuel]; [simpl in Hf; lia|]. simpl.
    replace (n / 10 <? 10) with true by lia. simpl. intros [= E]. lia.
  - specialize (IH (n / 10) ltac:(lia) ltac:(lia)).
    destruct fuel as [|fuel]; [simpl in Hf; lia|].
    pose proof (decimal_fuel_ne fuel (n / 10)). by destruct (decimal_fuel (S fuel) (n / 10)).
Qed.

Lemma digit_value_decimal d : 0 <= d < 10 -> digit_value 10 (48 + d) = Some d.
Proof.
  intros Hd. unfold digit_value. replace ((48 <=? 48 + d) && (48 + d <=? 57)) with true by lia.
  replace (48 + d - 48 <? 10) with true by lia. f_equal. lia.
Qed.

Lemma number_loop_decimal fuel max md n rest :
  0 <= n < 10 ^ Z.of_nat fuel -> n <= max -> (length (decimal_fuel fuel n) <= md)%nat -> (0 < fuel)%nat ->
  number_loop 10 max md (decimal_fuel fuel n ++ rest) 0 0
  = number_loop 10 max md rest n (length (decimal_fuel fuel n)).
Proof.
  revert n rest. induction fuel as [|fuel IH]; intros n rest Hn Hmax Hmd Hf; [lia|].
  cbn [decimal_fuel] in *. case_match eqn:E.
  - cbn [app number_loop length] in *. rewrite digit_value_decimal by lia.
    replace (max <? 0 * 10 + n) with false by lia. replace (md <? 1)%nat with false by lia.
    by rewrite Z.mul_0_l, Z.add_0_l.
  - rewrite length_app in *. cbn [length] in *.
    replace (Z.of_nat (S fuel)) with (Z.of_nat fuel + 1) in Hn by lia.
    rewrite Z.pow_add_r in Hn by lia. destruct fuel as [|fuel]; [simpl in Hn; lia|].
    rewrite <- app_assoc, IH by lia. cbn [app number_loop].
    rewrite digit_value_decimal by lia.
    replace (n / 10 * 10 + n mod 10) with n by lia.
    replace (max <? n) with false by lia.
    match goal with |- context [(md <? ?x)%nat] => replace (md <? x)%nat with false by lia end.
    by rewrite Nat.add_1_r.
Qed.

(** A number ends where the digits end. *)
Definition no_digit (s : str) : Prop := forall b, head s = Some b -> digit_value 10 b = None.

Lemma read_octet_decimal n rest :
  is_byte n -> no_digit rest -> read_octet (decimal n ++ rest) = Some (n, rest).
Proof.
  intros Hn Hrest. unfold is_byte in Hn. unfold read_octet, read_number, decimal.
  assert (Hlen : (length (decimal_fuel 5 n) <= 3)%nat) by (apply decimal_fuel_length; simpl; lia).
  rewrite number_loop_decimal by (simpl Z.pow; lia).
  assert (number_loop 10 255 3 rest n (length (decimal_fuel 5 n))
          = Some (n, length (decimal_fuel 5 n), rest)) as ->.
  { destruct rest as [|b rest]; simpl; [done|]. by rewrite (Hrest b). }
  assert (Hhead : head (decimal_fuel 5 n ++ rest) = head (decimal_fuel 5 n) /\ decimal_fuel 5 n <> []).
  { pose proof (decimal_fuel_ne 4 n). by destruct (decimal_fuel 5 n). }
  destruct Hhead as [-> Hne]. destruct (decide (n < 10)).
  - cbn [decimal_fuel]. replace (n <? 10) with true by lia. simpl. by rewrite andb_false_r.
  - pose proof (decimal_fuel_head 5 n ltac:(lia) ltac:(simpl; lia)) as Hz.
    rewrite bool_decide_eq_false_2 by done. destruct (decimal_fuel 5 n); [done|]. done.
Qed.

Lemma parse_ipv4_text ip :
  length ip = 4%nat -> Forall is_byte ip -> parse_ipv4 (ipv4_to_text ip) = Some ip.
Proof.
  intros Hl Hb. destruct ip as [|a [|b [|c [|d [|]]]]]; try done. clear Hl.
  rewrite !Forall_cons in Hb. destruct Hb as (Ha&Hb&Hc&Hd&_). unfold parse_ipv4.
  assert (Hlen : forall n, is_byte n -> (length (decimal n) <= 3)%nat).
  { unfold is_byte. intros. apply decimal_fuel_length; simpl; lia. }
  pose proof (Hlen a Ha). pose proof (Hlen b Hb). pose proof (Hlen c Hc). pose proof (Hlen d Hd).
  assert (Hdot : forall s, no_digit (chr "." :: s)) by (by intros s b' [= <-]).
  cbn [ipv4_to_text].
  match goal with |- context [(15 <? ?x)%nat] => replace (15 <? x)%nat with false end.
  2: { rewrite !length_app; simpl; rewrite !length_app; simpl; rewrite !length_app; simpl. lia. }
  unfold read_ipv4_addr, read_separator, mbind, option_bind. rewrite read_octet_decimal by done.
  cbn [read_given_char]. rewrite Z.eqb_refl, read_octet_decimal by done.
  cbn [read_given_char]. rewrite Z.eqb_refl, read_octet_decimal by done.
  cbn [read_given_char]. rewrite Z.eqb_refl. rewrite <- (app_nil_r (decimal d)).
  by rewrite read_octet_decimal.
Qed.

Lemma parse_u16_decimal n : 0 <= n <= u16_max -> parse_u16_digits (decimal n) = Some n.
Proof.
  unfold u16_max. intros Hn. unfold parse_u16_digits, decimal.
  assert (H : forall fuel m, 0 <= m < 10 ^ Z.of_nat fuel ->
    foldl (fun acc b => acc * 10 + (b - 48)) 0 (decimal_fuel fuel m) = m).
  { induction fuel as [|fuel IH]; intros m Hm; [simpl in *; lia|]. cbn [decimal_fuel].
    case_match; [simpl; lia|]. rewrite foldl_app. cbn [foldl].
    replace (Z.of_nat (S fuel)) with (Z.of_nat fuel + 1) in Hm by lia.
    rewrite Z.pow_add_r in Hm by lia. rewrite IH by lia. lia. }
  rewrite H by (simpl; lia). by replace (n <=? u16_max) with true by (unfold u16_max; lia).
Qed.

(** Text of digits and dots. *)
Definition plain (b : u8) : Prop := 33 <= b < 127.

Lemma decimal_plain n : 0 <= n -> Forall plain (decimal n).
Proof.
  intros Hn. eapply Forall_impl; [by apply (decimal_fuel_digits 5)|].
  unfold is_ascii_digit, plain. simpl. lia.
Qed.

Lemma ipv4_text_length ip : Forall is_byte ip -> (length (ipv4_to_text ip) <= 15)%nat.
Proof.
  intros H. destruct ip as [|a [|b [|c [|d [|]]]]]; try (simpl; lia).
  rewrite !Forall_cons in H. unfold is_byte in H. cbn [ipv4_to_text].
  assert (Hl : forall n, 0 <= n < 256 -> (length (decimal n) <= 3)%nat).
  { intros. apply decimal_fuel_length; simpl; lia. }
  repeat (rewrite length_app || cbn [length]).
  pose proof (Hl a). pose proof (Hl b). pose proof (Hl c). pose proof (Hl d). lia.
Qed.

Lemma ipv4_text_plain ip : Forall is_byte ip -> Forall plain (ipv4_to_text ip).
Proof.
  intros H. destruct ip as [|a [|b [|c [|d [|]]]]]; try by constructor.
  rewrite !Forall_cons in H. unfold is_byte in H. cbn [ipv4_to_text].
  repeat first [apply Forall_app; split | apply Forall_cons; split];
    (apply decimal_plain; lia) || (unfold plain; lia).
Qed.

Lemma plain_not_in c l : Forall plain l -> ~ plain c -> c ∉ l.
Proof. intros H Hc Hin. rewrite Forall_forall in H. by apply Hc, H. Qed.

Lemma decimal_fuel_plain fuel n : 0 <= n -> Forall plain (decimal_fuel fuel n).
Proof.
  intros Hn. eapply Forall_impl; [by apply decimal_fuel_digits|]. unfold is_ascii_digit, plain. simpl. lia.
Qed.

Lemma hex_fuel_plain fuel n : 0 <= n -> Forall plain (hex_fuel fuel n).
Proof.
  revert n. induction fuel as [|fuel IH]; intros n Hn; cbn [hex_fuel]; [constructor|]. cbv zeta.
  assert (Hd : forall d, 0 <= d < 16 -> plain (if d <? 10 then 48 + d else 87 + d)).
  { intros d Hd. unfold plain. destruct (d <? 10) eqn:?; lia. }
  destruct (n <? 16) eqn:?; [repeat constructor; apply Hd; lia|].
  apply Forall_app. split; [apply IH; lia|]. constructor; [apply Hd; lia|constructor].
Qed.

Lemma groups_text_plain gs : Forall (fun g => 0 <= g) gs -> Forall plain (groups_text gs).
Proof.
  induction 1 as [|g gs Hg Hgs IH]; [constructor|]. cbn [groups_text]. destruct gs as [|g' gs].
  - by apply hex_fuel_plain.
  - apply Forall_app. split; [by apply hex_fuel_plain|]. constructor; [unfold plain; lia|done].
Qed.

Lemma groups_nonneg ip : Forall is_byte ip -> Forall (fun g => 0 <= g < 65536) (groups_of_octets ip).
Proof.
  assert (H : forall n ip, (length ip <= n)%nat -> Forall is_byte ip ->
    Forall (fun g => 0 <= g < 65536) (groups_of_octets ip)); [|eauto].
  induction n as [|n IH]; intros [|a [|b l]] Hl Hb; try constructor; try (simpl in Hl; lia).
  - rewrite !Forall_cons in Hb. unfold is_byte in Hb. lia.
  - rewrite !Forall_cons in Hb. apply IH; [simpl in Hl; lia|apply Hb].
Qed.

Lemma ipv6_text_plain ip : Forall is_byte ip -> Forall plain (ipv6_to_text ip).
Proof.
  intros Hb. pose proof (groups_nonneg ip Hb) as Hg. unfold ipv6_to_text. cbv zeta.
  destruct (bool_decide _).
  { repeat (constructor; [unfold plain; lia|]). by apply ipv4_text_plain, Forall_drop. }
  assert (Hp : forall l, Forall (fun g => 0 <= g < 65536) l -> Forall plain (groups_text l)).
  { intros l Hl. apply groups_text_plain. eapply Forall_impl; [exact Hl|]. simpl. lia. }
  unfold compressed_text. destruct (longest_run _ _) as [start n]. destruct (1 <? n)%nat; [|by apply Hp].
  apply Forall_app. split; [by apply Hp, Forall_take|]. repeat (constructor; [unfold plain; lia|]).
  by apply Hp, Forall_drop.
Qed.

Definition ip_ok (ip : IpAddr) : Prop :=
  match ip with
  | IpV4 octets => length octets = 4%nat /\ Forall is_byte octets
  | IpV6 octets => length octets = 16%nat /\ Forall is_byte octets
  end.

Lemma ip_text_plain ip : ip_ok ip -> Forall plain (ip_to_text ip).
Proof. destruct ip; intros [_ ?]; [by apply ipv4_text_plain|by apply ipv6_text_plain]. Qed.

Definition socket_ok (a : SocketAddr) : Prop :=
  match a with
  | SocketV4 ip p => ip_ok (IpV4 ip) /\ 0 <= p <= u16_max
  | SocketV6 ip p _ scope => ip_ok (IpV6 ip) /\ 0 <= p <= u16_max /\ 0 <= scope
  end.

Lemma socket_text_plain a : socket_ok a -> Forall plain (socket_to_text a).
Proof.
  assert (Hb : plain 58 /\ plain 91 /\ plain 37 /\ plain 93) by (unfold plain; lia).
  destruct Hb as (?&?&?&?). destruct a as [ip p|ip p flow scope]; simpl.
  - intros [[_ ?] ?]. apply Forall_app. split; [by apply ipv4_text_plain|].
    constructor; [done|]. apply decimal_plain. lia.
  - intros ([_ ?]&?&?). constructor; [done|]. apply Forall_app. split; [by apply ipv6_text_plain|].
    apply Forall_app. split.
    + case_match; constructor; [done|]. by apply decimal_fuel_plain.
    + repeat (constructor; [done|]). apply decimal_plain. lia.
Qed.

Lemma socket_text_ne a : socket_to_text a <> [].
Proof. destruct a as [ip p|]; [|done]. simpl. by destruct (ipv4_to_text ip). Qed.

Lemma hex_fuel_ne fuel n : hex_fuel (S fuel) n <> [].
Proof. cbn [hex_fuel]. cbv zeta. case_match; [done|]. by destruct (hex_fuel fuel (n / 16)). Qed.

Lemma ip_text_ne ip : ip_ok ip -> ip_to_text ip <> [].
Proof.
  destruct ip as [ip|ip]; intros [Hl _]; simpl.
  - do 5 (destruct ip as [|? ip]; try done). simpl. intros [H _]%app_nil. by apply decimal_fuel_ne in H.
  - unfold ipv6_to_text. cbv zeta. destruct (bool_decide _); [done|]. unfold compressed_text.
    destruct (longest_run _ _) as [start n]. destruct (1 <? n)%nat; [by intros [_ ?]%app_nil|].
    do 4 (destruct ip as [|? ip]; try done). cbn [groups_of_octets groups_text].
    intros [H _]%app_nil. by apply hex_fuel_ne in H.
Qed.

(** ** Integers read from text: [str::parse] of the integer types *)

Definition digits_value (s : str) : Z := foldl (fun acc b => acc * 10 + (b - 48)) 0 s.
Definition ascii (s : str) : Prop := Forall (fun b => 0 <= b < 128) s.
Definition all_digits (s : str) : Prop := Forall (fun b => is_ascii_digit b = true) s.

Lemma all_digits_ascii s : all_digits s -> ascii s.
Proof. intros H. eapply Forall_impl; [exact H|]. unfold is_ascii_digit. simpl. lia. Qed.

Lemma digits_value_decimal fuel n : 0 <= n < 10 ^ Z.of_nat fuel -> digits_value (decimal_fuel fuel n) = n.
Proof.
  unfold digits_value. revert n. induction fuel as [|fuel IH]; intros n Hn; [simpl in *; lia|].
  cbn [decimal_fuel]. case_match; [simpl; lia|]. rewrite foldl_app. cbn [foldl].
  replace (Z.of_nat (S fuel)) with (Z.of_nat fuel + 1) in Hn by lia.
  rewrite Z.pow_add_r in Hn by lia. rewrite IH by lia. lia.
Qed.

Lemma digits_value_zeros k s : digits_value (replicate k (chr "0") ++ s) = digits_value s.
Proof. unfold digits_value. rewrite foldl_app. f_equal. by induction k. Qed.

(** Signed: an optional sign and at least one digit. *)
Definition parse_signed (lo hi : Z) (s : str) : option Z :=
  let '(negative, digits) :=
    match s with
    | b :: s' => if b =? chr "-" then (true, s') else if b =? chr "+" then (false, s') else (false, s)
    | [] => (false, s)
    end in
  if bool_decide (digits = []) || negb (forallb is_ascii_digit digits) then None
  else
    let v := if negative : bool then - digits_value digits else digits_value digits in
    if (lo <=? v) && (v <=? hi) then Some v else None.

(** Unsigned: a plus sign is allowed, a minus sign is not. *)
Definition parse_unsigned (hi : Z) (s : str) : option Z :=
  let digits := match s with b :: s' => if b =? chr "+" then s' else s | [] => s end in
  if bool_decide (digits = []) || negb (forallb is_ascii_digit digits) then None
  else if digits_value digits <=? hi then Some (digits_value digits) else None.

Lemma all_digits_forallb s : all_digits s -> forallb is_ascii_digit s = true.
Proof. intros Hd. induction Hd as [|x l Hx Hd IH]; simpl; [done|]. by rewrite Hx. Qed.

Lemma digits_sign b s : all_digits (b :: s) -> (b =? chr "-") = false /\ (b =? chr "+") = false.
Proof. intros [Hb _]%Forall_cons. unfold is_ascii_digit in Hb. lia. Qed.

Lemma parse_signed_digits lo hi s :
  s <> [] -> all_digits s -> lo <= digits_value s <= hi -> parse_signed lo hi s = Some (digits_value s).
Proof.
  intros Hs Hd Hv. destruct s as [|b s]; [done|]. unfold parse_signed.
  destruct (digits_sign b s Hd) as [-> ->].
  rewrite bool_decide_eq_false_2, all_digits_forallb by done. cbn [orb negb].
  by replace ((lo <=? _) && _) with true by lia.
Qed.

Lemma parse_unsigned_digits hi s :
  s <> [] -> all_digits s -> digits_value s <= hi -> parse_unsigned hi s = Some (digits_value s).
Proof.
  intros Hs Hd Hv. destruct s as [|b s]; [done|]. unfold parse_unsigned.
  destruct (digits_sign b s Hd) as [_ ->].
  rewrite bool_decide_eq_false_2, all_digits_forallb by done. cbn [orb negb].
  by replace (_ <=? hi) with true by lia.
Qed.

Lemma digits_value_nonneg s : all_digits s -> 0 <= digits_value s.
Proof.
  intros Hd. unfold digits_value.
  assert (Hg : forall acc, 0 <= acc -> 0 <= foldl (fun acc b => acc * 10 + (b - 48)) acc s); [|by apply Hg].
  induction Hd as [|b s Hb Hd IH]; intros acc Hacc; simpl; [done|]. apply IH. unfold is_ascii_digit in Hb. lia.
Qed.

Lemma forallb_all_digits s : forallb is_ascii_digit s = true -> all_digits s.
Proof.
  intros Hd. apply Forall_forall. intros b Hb. apply List.forallb_forall with (x := b) in Hd; [done|].
  by apply list_elem_of_In.
Qed.

Lemma parse_unsigned_range hi s v : parse_unsigned hi s = Some v -> 0 <= v <= hi.
Proof.
  unfold parse_unsigned. set (digits := match s with [] => s | _ => _ end).
  destruct (bool_decide (digits = [])); [done|]. simpl.
  destruct (forallb is_ascii_digit digits) eqn:Hd; [|done]. simpl.
  destruct (_ <=? hi) eqn:E; [|done]. intros [= <-]. split; [|lia].
  by apply digits_value_nonneg, forallb_all_digits.
Qed.

Lemma parse_signed_digit_head lo hi b s n :
  is_ascii_digit b = true -> parse_signed lo hi (b :: s) = Some n -> 0 <= n <= hi.
Proof.
  intros Hb. unfold parse_signed. unfold is_ascii_digit in Hb.
  replace (b =? chr "-") with false by lia. replace (b =? chr "+") with false by lia.
  rewrite bool_decide_eq_false_2 by done. destruct (forallb is_ascii_digit (b :: s)) eqn:Hd; [|done].
  cbn [orb negb]. match goal with |- context [if ?c then _ else _] => destruct c eqn:E end; [|done]. intros [= <-].
  split; [by apply digits_value_nonneg, forallb_all_digits|lia].
Qed.

(** Writing a number and reading it back. *)
Lemma parse_unsigned_to_string hi n : 0 <= n < 10 ^ 20 -> n <= hi -> parse_unsigned hi (to_string n) = Some n.
Proof.
  intros Hn Hhi. unfold to_string. rewrite parse_unsigned_digits; rewrite ?digits_value_decimal; try done.
  - apply decimal_fuel_ne.
  - apply decimal_fuel_digits. lia.
Qed.

(** ** Trimming text that starts with something visible *)

Lemma trim_end_rev_keep r q b q' :
  q = b :: q' -> plain b -> exists k, trim_end_rev (r ++ q) = k ++ q.
Proof.
  intros -> Hb. unfold plain in Hb. remember (length r) as n eqn:Hn. revert r Hn.
  induction n as [n IH] using lt_wf_ind. intros r Hn. destruct r as [|b0 s0]; [exists []|].
  { cbn [app trim_end_rev]. replace (ascii_space b) with false by (unfold ascii_space; lia).
    destruct q' as [|b1 s1]; [done|]. replace (space2 b1 b) with false by (unfold space2; lia).
    destruct s1 as [|b2 s2]; [done|]. by replace (space3 b2 b1 b) with false by (unfold space3; lia). }
  cbn [app trim_end_rev]. destruct (ascii_space b0).
  { destruct (IH (length s0) ltac:(simpl in Hn; lia) s0 eq_refl) as [k ->]. by exists k. }
  destruct s0 as [|b1 s1].
  { cbn [app]. replace (space2 b b0) with false by (unfold space2; lia). exists [b0].
    destruct q' as [|b2 s2]; [done|]. by replace (space3 b2 b b0) with false by (unfold space3; lia). }
  cbn [app]. destruct (space2 b1 b0).
  { destruct (IH (length s1) ltac:(simpl in Hn; lia) s1 eq_refl) as [k ->]. by exists k. }
  destruct s1 as [|b2 s2].
  { cbn [app]. replace (space3 b b1 b0) with false by (unfold space3; lia). by exists [b0; b1]. }
  cbn [app]. destruct (space3 b2 b1 b0).
  { destruct (IH (length s2) ltac:(simpl in Hn; lia) s2 eq_refl) as [k ->]. by exists k. }
  by exists (b0 :: b1 :: b2 :: s2).
Qed.

Lemma trim_start_plain b s : plain b -> trim_start (b :: s) = b :: s.
Proof.
  unfold plain. intros Hb. cbn [trim_start]. replace (ascii_space b) with false by (unfold ascii_space; lia).
  destruct s as [|b1 s]; [done|]. replace (space2 b b1) with false by (unfold space2; lia).
  destruct s as [|b2 s]; [done|]. by replace (space3 b b1 b2) with false by (unfold space3; lia).
Qed.

(** Trimming keeps a visible prefix whole. *)
Lemma str_trim_prefix p s : p <> [] -> Forall plain p -> exists k, str_trim (p ++ s) = p ++ k.
Proof.
  intros Hne Hp. unfold str_trim. destruct p as [|b p]; [done|].
  pose proof (proj1 (Forall_cons _ _ _) Hp) as [Hb _]. cbn [app]. rewrite trim_start_plain by done.
  change (b :: p ++ s) with ((b :: p) ++ s). rewrite rev_app_distr.
  assert (Hr : Forall plain (rev (b :: p))) by (by apply Forall_rev).
  destruct (rev (b :: p)) as [|c q] eqn:E; [by apply (f_equal length) in E; rewrite length_rev in E|].
  destruct (trim_end_rev_keep (rev s) (c :: q) c q eq_refl) as [k ->]; [by apply Forall_cons in Hr as [? _]|].
  exists (rev k). rewrite rev_app_distr, <- E, rev_involutive. done.
Qed.

Lemma str_trim_plain s : Forall plain s -> str_trim s = s.
Proof.
  intros Hs. destruct s as [|b s]; [done|]. destruct (str_trim_prefix (b :: s) [] ltac:(done) Hs) as [k Hk].
  rewrite app_nil_r in Hk. rewrite Hk. enough (k = []) as -> by (by rewrite app_nil_r).
  apply length_zero_iff_nil. assert (Hle : forall x, (length (str_trim x) <= length x)%nat); [|].
  - assert (Hstart : forall n x, (length x <= n)%nat -> (length (trim_start x) <= length x)%nat).
    { induction n as [|n IH]; intros [|x0 [|x1 [|x2 x]]] Hx; simpl in *; try lia; repeat case_match; simpl in *; try lia;
        match goal with |- (length (trim_start ?y) <= _)%nat => pose proof (IH y ltac:(simpl; lia)); simpl in *; lia | |- _ => idtac end. }
    assert (Hend : forall n x, (length x <= n)%nat -> (length (trim_end_rev x) <= length x)%nat).
    { induction n as [|n IH]; intros [|x0 [|x1 [|x2 x]]] Hx; simpl in *; try lia; repeat case_match; simpl in *; try lia;
        match goal with |- (length (trim_end_rev ?y) <= _)%nat => pose proof (IH y ltac:(simpl; lia)); simpl in *; lia | |- _ => idtac end. }
    intros x. unfold str_trim. rewrite length_rev. etransitivity; [by apply (Hend (length (rev (trim_start x))))|].
    rewrite length_rev. by apply (Hstart (length x)).
  - specialize (Hle (b :: s)). rewrite Hk, length_app in Hle. lia.
Qed.
