(* ===== verification/Limits.v ===== *)
(** What the engine answers by itself: [crates/ramjet-engine/src/limits.rs].

    The encoder of [ramjet_http], a crate outside the repository, is the class
    [Encoder]: what it appends to the buffer, and whether it succeeded. *)

From S2P Require Import Prelude NetText.

Class Encoder := {
  reason : u16 -> str;
  response : u16 -> list (str * str) -> bytes -> bytes * bool;
  response_head_only : u16 -> list (str * str) -> usize -> bytes * bool;
}.

Definition line (s : str) : bytes := s ++ [LF].

Definition NO_ROUTE : bytes := line (bstr "404 Not Found: no ingress rule matches this host and path").
Definition NO_ENDPOINT : bytes := line (bstr "503 Service Unavailable: the backend has no ready endpoints").
Definition CONNECT_FAILED : bytes := line (bstr "502 Bad Gateway: could not connect to any upstream endpoint").
Definition UPSTREAM_FAILED : bytes := line (bstr "502 Bad Gateway: the upstream connection failed").
Definition TIMEOUT : bytes := line (bstr "504 Gateway Timeout: the upstream sent no response headers in time").
Definition GRPC : bytes :=
  line (bstr "502 Bad Gateway: gRPC requires an HTTP/2 backend; set nginx.ingress.kubernetes.io/backend-protocol: GRPC on the Ingress").
Definition NO_H2C_UPSTREAM : bytes :=
  line (bstr "502 Bad Gateway: this backend needs an HTTP/2 upstream, which the uring engine does not dial; use --engine hyper").
Definition UPGRADE_FAILED : bytes := line (bstr "502 Bad Gateway: the upstream refused to complete the upgrade").
Definition NO_HTTP2 : bytes := line (bstr "502 Bad Gateway: the uring engine speaks HTTP/1.1 only; use --engine hyper").
Definition UNSUPPORTED_HEADER : str := bstr "x-ramjet-unsupported".
Definition UNSUPPORTED_H2C_UPSTREAM : str := bstr "h2c-upstream".
Definition UNSUPPORTED_GRPC : str := bstr "grpc-needs-backend-protocol".

(** The array of [static_headers] and the part of it that is in use. *)
Definition static_headers (close : bool) (unsupported : option str) : list (str * str) * usize :=
  let headers := replicate 3 (bstr "Content-Type", bstr "text/plain; charset=utf-8") in
  let '(headers, len) :=
    if close then (<[1%nat := (bstr "Connection", bstr "close")]> headers, 2%nat) else (headers, 1%nat) in
  match unsupported with
  | Some feature => (<[len := (UNSUPPORTED_HEADER, feature)]> headers, S len)
  | None => (headers, len)
  end.

(** The bare 500 a failing encoder degrades to. *)
Definition BARE_500 : bytes :=
  bstr "HTTP/1.1 500 Internal Server Error" ++ [CR; LF] ++ bstr "Content-Length: 0" ++ [CR; LF; CR; LF].

Section limits.
Context {E : Encoder}.

Definition bad_request_body (status : u16) (detail : str) : bytes :=
  to_string status ++ SP :: reason status ++ bstr ": " ++ detail ++ [LF].

(** [out] after the call. *)
Definition write_static_unsupported (out : bytes) (status : u16) (body : bytes) (close : bool)
    (unsupported : option str) : bytes :=
  let '(headers, len) := static_headers close unsupported in
  let '(written, ok) := response status (take len headers) body in
  out ++ written ++ (if ok then [] else BARE_500).
Definition write_static (out : bytes) (status : u16) (body : bytes) (close : bool) : bytes :=
  write_static_unsupported out status body close None.

Definition write_static_head_only_unsupported (out : bytes) (status : u16) (body_len : usize)
    (close : bool) (unsupported : option str) : bytes :=
  let '(headers, len) := static_headers close unsupported in
  let '(written, ok) := response_head_only status (take len headers) body_len in
  out ++ written ++ (if ok then [] else BARE_500).
Definition write_static_head_only (out : bytes) (status : u16) (body_len : usize) (close : bool) : bytes :=
  write_static_head_only_unsupported out status body_len close None.
End limits.

(** The headers that are in use: the content type, then what applies. *)
Lemma static_headers_list close unsupported :
  take (static_headers close unsupported).2 (static_headers close unsupported).1 =
  (bstr "Content-Type", bstr "text/plain; charset=utf-8")
  :: (if close then [(bstr "Connection", bstr "close")] else [])
  ++ match unsupported with Some f => [(UNSUPPORTED_HEADER, f)] | None => [] end.
Proof. by destruct close, unsupported. Qed.
