(* ===== verification/F64.v ===== *)
(** The [f64] arithmetic the sources use, on the Standard Library's executable
    specification of binary floating point: conversion from [u64],
    multiplication, division, comparison, [str::parse::<f64>] and the fixed
    notation [{:.n}].  Nothing here assumes an axiom: [spec_float] is a data
    type and its operations are functions. *)

From Stdlib Require Import SpecFloat.
From S2P Require Import Prelude NetText.

Abbreviation f64 := spec_float (only parsing).
Definition prec64 : Z := 53.
Definition emax64 : Z := 1024.

(** [m * 2 ^ e], rounded to nearest even. *)
Definition f64_of (m e : Z) : f64 := binary_normalize prec64 emax64 m e false.
Definition f64_of_u64 (n : u64) : f64 := f64_of n 0.
Definition f64_mul (x y : f64) : f64 := SFmul prec64 emax64 x y.
Definition f64_div (x y : f64) : f64 := SFdiv prec64 emax64 x y.
Definition f64_add (x y : f64) : f64 := SFadd prec64 emax64 x y.
Definition f64_sub (x y : f64) : f64 := SFsub prec64 emax64 x y.
(** [x > y], [x >= y]: false when either is NaN. *)
Definition f64_gt (x y : f64) : bool := SFltb y x.
Definition f64_ge (x y : f64) : bool := SFleb y x.
Definition f64_is_finite (x : f64) : bool :=
  match x with S754_zero _ | S754_finite _ _ _ => true | _ => false end.

(** [x as u64] and [x as i64]: towards zero, saturating, NaN to zero. *)
Definition f64_trunc (m : positive) (e : Z) : Z :=
  if 0 <=? e then Zpos m * 2 ^ e else Zpos m / 2 ^ (- e).
Definition f64_to_u64 (x : f64) : u64 :=
  match x with
  | S754_finite false m e => Z.min u64_max (f64_trunc m e)
  | S754_infinity false => u64_max
  | _ => 0
  end.
Definition i64_top : Z := 9223372036854775807.
Definition f64_to_i64 (x : f64) : Z :=
  match x with
  | S754_finite false m e => Z.min i64_top (f64_trunc m e)
  | S754_finite true m e => Z.max (- i64_top - 1) (- f64_trunc m e)
  | S754_infinity false => i64_top
  | S754_infinity true => - i64_top - 1
  | _ => 0
  end.

(** [f64::total_cmp], on numbers in canonical form; a NaN sorts last. *)
Definition total_key (x : f64) : Z * (Z * Z) :=
  match x with
  | S754_infinity true => (0, (0, 0))
  | S754_finite true m e => (1, (- e, Zneg m))
  | S754_zero true => (2, (0, 0))
  | S754_zero false => (3, (0, 0))
  | S754_finite false m e => (4, (e, Zpos m))
  | S754_infinity false => (5, (0, 0))
  | S754_nan => (6, (0, 0))
  end.

(** ** Reading *)

(** [m * 10 ^ e], rounded to nearest even. *)
Definition f64_of_decimal (m : Z) (e : Z) : f64 :=
  if 0 <=? e then f64_of (m * 10 ^ e) 0
  else
    match m with
    | Zpos _ =>
        let '(q, ez, loc) := SFdiv_core_binary prec64 emax64 m 0 (10 ^ (- e)) 0 in
        binary_round_aux prec64 emax64 false q ez loc
    | _ => S754_zero false
    end.

Fixpoint take_digits (s : str) : str * str :=
  match s with
  | b :: s' => if is_ascii_digit b then let '(d, r) := take_digits s' in (b :: d, r) else ([], s)
  | [] => ([], [])
  end.

(** [parse_scientific]: the exponent after [e]. *)
Definition parse_exponent (s : str) : option (Z * str) :=
  let '(negative, s) :=
    match s with
    | b :: s' => if b =? chr "-" then (true, s') else if b =? chr "+" then (false, s') else (false, s)
    | [] => (false, [])
    end in
  let '(d, rest) := take_digits s in
  if bool_decide (d = []) then None
  else Some (if negative : bool then - digits_value d else digits_value d, rest).

(** [parse_number]: the magnitude of a decimal number, all of it. *)
Definition parse_decimal (s : str) : option f64 :=
  let '(whole, s1) := take_digits s in
  let '(frac, s2) :=
    match s1 with
    | b :: s' => if b =? chr "." then take_digits s' else ([], s1)
    | [] => ([], [])
    end in
  if bool_decide (whole ++ frac = []) then None
  else
    '(e, s3) ← match s2 with
      | b :: s' => if (b =? chr "e") || (b =? chr "E") then parse_exponent s' else Some (0, s2)
      | [] => Some (0, [])
      end;
    match s3 with
    | [] => Some (f64_of_decimal (digits_value (whole ++ frac)) (e - Z.of_nat (length frac)))
    | _ => None
    end.

Definition parse_inf_nan (s : str) : option f64 :=
  if eq_ignore_ascii_case s (bstr "nan") then Some S754_nan
  else if eq_ignore_ascii_case s (bstr "inf") || eq_ignore_ascii_case s (bstr "infinity")
  then Some (S754_infinity false) else None.

Definition parse_f64 (s : str) : option f64 :=
  match s with
  | [] => None
  | b :: s' =>
      let '(negative, s1) :=
        if b =? chr "-" then (true, s') else if b =? chr "+" then (false, s') else (false, s) in
      let magnitude := match parse_decimal s1 with Some x => Some x | None => parse_inf_nan s1 end in
      (fun x => if negative : bool then SFopp x else x) <$> magnitude
  end.

(** ** Writing *)

Definition round_half_even (num den : Z) : Z :=
  let q := num / den in
  match 2 * (num mod den) ?= den with
  | Lt => q
  | Gt => q + 1
  | Eq => if Z.even q then q else q + 1
  end.

(** The decimal digits of [n], at least [w] of them. *)
Definition digits_padded (w : nat) (n : Z) : str :=
  let d := decimal_fuel 330 n in replicate (w - length d) (chr "0") ++ d.

(** [{:.d}] for a positive [d]. *)
Definition fixed (d : nat) (x : f64) : str :=
  let write (s : bool) (n : Z) :=
    (if s then [chr "-"] else []) ++ digits_padded 1 (n / 10 ^ Z.of_nat d) ++ chr "." ::
    digits_padded d (n mod 10 ^ Z.of_nat d) in
  match x with
  | S754_nan => bstr "NaN"
  | S754_infinity s => (if s then [chr "-"] else []) ++ bstr "inf"
  | S754_zero s => write s 0
  | S754_finite s m e =>
      let scaled := Zpos m * 10 ^ Z.of_nat d in
      write s (if 0 <=? e then scaled * 2 ^ e else round_half_even scaled (2 ^ (- e)))
  end.

(** ** Examples *)

Example parsed_texts :
  map (fun s => fixed 2 <$> parse_f64 s)
    [bstr "0.1"; bstr "+2."; bstr ".5"; bstr "1e3"; bstr "-12.345e-1"; bstr "INF"; bstr "."; bstr "1x"; bstr ""; bstr "+"]
  = [Some (bstr "0.10"); Some (bstr "2.00"); Some (bstr "0.50"); Some (bstr "1000.00"); Some (bstr "-1.23");
     Some (bstr "inf"); None; None; None; None].
Proof. vm_compute. reflexivity. Qed.
Example division : fixed 2 (f64_div (f64_mul (f64_of_u64 2) (f64_of_u64 100)) (f64_of_u64 3)) = bstr "66.67".
Proof. vm_compute. reflexivity. Qed.
Example ties : map (fixed 1) [f64_of 1 (-2); f64_of 3 (-2); f64_of 15 (-2)] = [bstr "0.2"; bstr "0.8"; bstr "3.8"].
Proof. vm_compute. reflexivity. Qed.
Example one_and_a_half : parse_f64 (bstr "1.5") = Some (f64_of 3 (-1)).
Proof. vm_compute. reflexivity. Qed.

(** ** Lemmas *)

(** Nothing divides or multiplies into a value above a non-negative bound when
    it starts at zero. *)
Lemma zero_share_not_above y z bound :
  f64_ge bound (S754_zero false) = true ->
  f64_gt (f64_div (f64_mul (S754_zero false) y) z) bound = false.
Proof.
  unfold f64_ge, f64_gt, f64_div, f64_mul, SFleb, SFltb.
  destruct y as [[]|[]| |[]], z as [[]|[]| |[]], bound as [[]|[]| |[]]; simpl; done.
Qed.

Lemma f64_of_zero e : f64_of 0 e = S754_zero false.
Proof. done. Qed.

(** ** Whole numbers up to 2^53 are exact *)

Lemma digits2_pos_log2 p : Zpos (digits2_pos p) = Z.log2 (Zpos p) + 1.
Proof.
  induction p as [p IH|p IH|]; cbn [digits2_pos]; [| |done].
  - rewrite Pos2Z.inj_succ, IH. change (Zpos p~1) with (2 * Zpos p + 1). rewrite Z.log2_succ_double by lia. lia.
  - rewrite Pos2Z.inj_succ, IH. change (Zpos p~0) with (2 * Zpos p). rewrite Z.log2_double by lia. lia.
Qed.

Lemma iter_xO p d : Zpos (Pos.iter xO p d) = Zpos p * 2 ^ Zpos d.
Proof.
  induction d as [|d IH] using Pos.peano_ind; [simpl; lia|].
  rewrite Pos.iter_succ, Pos2Z.inj_xO, IH, Pos2Z.inj_succ, Z.pow_succ_r by lia. lia.
Qed.

Lemma round_canonical s m e :
  Z.log2 (Zpos m) = 52 -> -1074 <= e <= 971 -> binary_round_aux prec64 emax64 s (Zpos m) e loc_Exact = S754_finite s m e.
Proof.
  intros Hm He. unfold binary_round_aux.
  assert (Hs : shr_fexp prec64 emax64 (Zpos m) e loc_Exact = (shr_record_of_loc (Zpos m) loc_Exact, e)).
  { unfold shr_fexp. cbn [Zdigits2]. rewrite digits2_pos_log2, Hm. unfold fexp, emin, prec64, emax64, shr.
    by replace (Z.max _ _ - e) with 0 by lia. }
  rewrite Hs. cbn [shr_m shr_record_of_loc loc_of_shr_record round_nearest_even]. rewrite Hs.
  cbn [shr_m shr_record_of_loc]. unfold emax64, prec64. by replace (e <=? 1024 - 53) with true by lia.
Qed.

Lemma f64_of_exact p :
  Zpos p < 2 ^ 53 ->
  exists m k, f64_of (Zpos p) 0 = S754_finite false m (- k) /\ 0 <= k <= 52 /\ Zpos m = Zpos p * 2 ^ k.
Proof.
  intros Hp. set (l := Z.log2 (Zpos p)).
  assert (Hl : 0 <= l <= 52).
  { split; [apply Z.log2_nonneg|]. enough (l < 53) by lia. by apply Z.log2_lt_pow2. }
  unfold f64_of, binary_normalize, binary_round. rewrite digits2_pos_log2. fold l.
  replace (fexp prec64 emax64 (l + 1 + 0)) with (l - 52) by (unfold fexp, emin, prec64, emax64; lia).
  unfold shl_align. destruct (l - 52 - 0) as [|d|d] eqn:Ed; [|lia|].
  - exists p, 0. rewrite round_canonical by lia. split; [done|]. rewrite Z.pow_0_r. lia.
  - exists (Pos.iter xO p d), (Zpos d). rewrite round_canonical; [|rewrite iter_xO, Z.log2_mul_pow2 by lia; lia|lia].
    split; [f_equal; lia|]. split; [lia|apply iter_xO].
Qed.

(** Reading a count back: nothing is lost below 2^53. *)
Lemma f64_to_u64_exact n : 0 <= n < 2 ^ 53 -> f64_to_u64 (f64_of n 0) = n.
Proof.
  intros Hn. destruct n as [|p|]; [done| |lia]. destruct (f64_of_exact p) as (m & k & -> & Hk & Hm); [lia|].
  unfold f64_to_u64, f64_trunc. assert (Hd : Zpos m / 2 ^ k = Zpos p) by (rewrite Hm; apply Z.div_mul; lia).
  destruct (0 <=? - k) eqn:E; [assert (k = 0) as -> by lia; rewrite Hm; simpl; unfold u64_max; lia|].
  rewrite Z.opp_involutive, Hd. unfold u64_max. lia.
Qed.
Lemma f64_to_i64_exact n : 0 <= n < 2 ^ 53 -> f64_to_i64 (f64_of n 0) = n.
Proof.
  intros Hn. pose proof (f64_to_u64_exact n Hn) as Hu. destruct n as [|p|]; [done| |lia].
  destruct (f64_of_exact p) as (m & k & E & _); [lia|]. rewrite E in *. cbn [f64_to_u64 f64_to_i64] in *.
  unfold u64_max, i64_top in *. lia.
Qed.
Lemma f64_of_nonneg n : 0 <= n < 2 ^ 53 -> f64_is_finite (f64_of n 0) = true /\ f64_gt (f64_of n 0) (S754_zero false) = (0 <? n).
Proof.
  intros Hn. destruct n as [|p|]; [done| |lia]. by destruct (f64_of_exact p) as (m & k & -> & _); [lia|].
Qed.

(** ** Signs and finiteness *)

Lemma shr_1_half r : 0 <= shr_m r -> shr_m (shr_1 r) = shr_m r / 2 /\ 0 <= shr_m (shr_1 r).
Proof.
  destruct r as [[|[p|p|]|p] b s]; cbn [shr_m shr_1]; intros H; split; try lia; try done.
  - rewrite Pos2Z.inj_xI. rewrite Z.mul_comm, Z.div_add_l by lia. change (1 / 2) with 0. lia.
  - rewrite Pos2Z.inj_xO. rewrite Z.mul_comm, Z.div_mul by lia. done.
Qed.

Lemma shr_iter k r : 0 <= shr_m r -> shr_m (SpecFloat.iter_pos shr_1 k r) = shr_m r / 2 ^ Zpos k /\ 0 <= shr_m (SpecFloat.iter_pos shr_1 k r).
Proof.
  revert r. induction k as [k IH|k IH|]; intros r Hr; cbn [SpecFloat.iter_pos].
  - destruct (shr_1_half r Hr) as [E1 H1]. destruct (IH _ H1) as [E2 H2]. destruct (IH _ H2) as [E3 H3].
    split; [|done]. rewrite E3, E2, E1. rewrite Z.div_div, Z.div_div by lia. f_equal.
    rewrite Pos2Z.inj_xI, Z.pow_add_r, Z.pow_1_r by lia. rewrite <- Z.pow_add_r by lia. 
    replace (2 * Z.pos k) with (Z.pos k + Z.pos k) by lia. rewrite Z.pow_add_r by lia. lia.
  - destruct (IH r Hr) as [E1 H1]. destruct (IH _ H1) as [E2 H2]. split; [|done]. rewrite E2, E1.
    rewrite Z.div_div by lia. f_equal. replace (Zpos k~0) with (Z.pos k + Z.pos k) by lia. by rewrite Z.pow_add_r.
  - rewrite Z.pow_1_r. by apply shr_1_half.
Qed.

Lemma shr_nonneg r e n : 0 <= shr_m r -> 0 <= shr_m (shr r e n).1.
Proof. intros Hr. destruct n as [|k|k]; cbn [shr fst]; [done| |done]. by apply shr_iter. Qed.

Lemma round_even_nonneg m l : 0 <= m -> 0 <= round_nearest_even m l.
Proof. intros Hm. destruct l as [|[]]; simpl; try lia. destruct (Z.even m); lia. Qed.

Lemma shr_record_m m l : shr_m (shr_record_of_loc m l) = m.
Proof. by destruct l as [|[]]. Qed.

(** [x >= 0]: a number, and not below zero. *)
Definition nonneg (x : f64) : Prop := f64_ge x (S754_zero false) = true.

Lemma round_nonneg m e l : 0 <= m -> nonneg (binary_round_aux prec64 emax64 false m e l).
Proof.
  intros Hm. unfold binary_round_aux, shr_fexp.
  pose proof (shr_nonneg (shr_record_of_loc m l) e (fexp prec64 emax64 (Zdigits2 m + e) - e)) as H1.
  rewrite shr_record_m in H1. specialize (H1 Hm). destruct (shr _ _ _) as [r e1]. cbn [fst] in H1.
  set (m2 := round_nearest_even _ _). assert (H2 : 0 <= m2) by (by apply round_even_nonneg).
  pose proof (shr_nonneg (shr_record_of_loc m2 loc_Exact) e1 (fexp prec64 emax64 (Zdigits2 m2 + e1) - e1)) as H3.
  rewrite shr_record_m in H3. specialize (H3 H2). destruct (shr _ _ _) as [r2 e2]. cbn [fst] in H3.
  destruct (shr_m r2); [done|by case_match|lia].
Qed.

Lemma round_even_cases m l : round_nearest_even m l = m \/ round_nearest_even m l = m + 1.
Proof. destruct l as [|[]]; simpl; auto. destruct (Z.even m); auto. Qed.

(** A count of 64 bits is a positive finite number, far from the largest. *)
Lemma f64_of_bounded n :
  0 < n < 2 ^ 64 -> exists m e, f64_of n 0 = S754_finite false m e /\ Zpos m < 2 ^ 110 /\ e <= 12.
Proof.
  intros Hn. destruct n as [|p|]; [lia| |lia]. destruct (decide (Zpos p < 2 ^ 53)) as [Hs|Hs].
  { destruct (f64_of_exact p Hs) as (m & k & E & Hk & Hm). exists m, (- k). split_and!; [done| |lia].
    rewrite Hm. apply Z.le_lt_trans with (Zpos p * 2 ^ 52); [|lia]. apply Z.mul_le_mono_nonneg_l; [lia|].
    apply Z.pow_le_mono_r; lia. }
  set (l := Z.log2 (Zpos p)).
  assert (Hl : 53 <= l < 64) by (split; [by apply Z.log2_le_pow2; lia|by apply Z.log2_lt_pow2; lia]).
  assert (Hspec : 2 ^ l <= Zpos p < 2 ^ Z.succ l) by (apply Z.log2_spec; lia).
  unfold f64_of, binary_normalize, binary_round. rewrite digits2_pos_log2. fold l.
  replace (fexp prec64 emax64 (l + 1 + 0)) with (l - 52) by (unfold fexp, emin, prec64, emax64; lia).
  unfold shl_align. destruct (l - 52 - 0) as [|k|k] eqn:Ek; [lia| |lia].
  unfold binary_round_aux, shr_fexp. cbn [Zdigits2]. rewrite digits2_pos_log2. fold l.
  replace (fexp prec64 emax64 (l + 1 + 0) - 0) with (Zpos k) by (unfold fexp, emin, prec64, emax64; lia).
  cbn [shr]. destruct (shr_iter k (shr_record_of_loc (Zpos p) loc_Exact)) as [E1 H1]; [simpl; lia|].
  set (r := SpecFloat.iter_pos shr_1 k _) in *. rewrite shr_record_m in E1.
  assert (Hm1 : 2 ^ 52 <= shr_m r < 2 ^ 53).
  { rewrite E1. replace (Zpos k) with (l - 52) by lia. split.
    - apply Z.div_le_lower_bound; [lia|]. rewrite <- Z.pow_add_r by lia. replace (l - 52 + 52) with l by lia. lia.
    - apply Z.div_lt_upper_bound; [lia|]. rewrite <- Z.pow_add_r by lia.
      replace (l - 52 + 53) with (Z.succ l) by lia. lia. }
  set (m2 := round_nearest_even _ _).
  assert (Hm2 : 2 ^ 52 <= m2 <= 2 ^ 53) by (destruct (round_even_cases (shr_m r) (loc_of_shr_record r)) as [E|E]; subst m2; rewrite E; lia).
  destruct m2 as [|q|q] eqn:E2; [lia| |lia]. cbn [Zdigits2]. rewrite digits2_pos_log2.
  destruct (decide (Zpos q = 2 ^ 53)) as [Eq|Nq].
  - assert (Eq' : q = 9007199254740992%positive) by (simpl in Eq; lia). rewrite Eq'.
    replace (fexp _ _ _ - _) with 1 by (unfold fexp, emin, prec64, emax64; change (Z.log2 9007199254740992) with 53; lia).
    cbn. unfold emax64, prec64. replace (_ <=? 1024 - 53) with true by lia. eexists _, _. split_and!; [done|lia|lia].
  - assert (Hlog : Z.log2 (Zpos q) = 52) by (apply Z.log2_unique; lia). rewrite Hlog.
    replace (fexp _ _ _ - _) with 0 by (unfold fexp, emin, prec64, emax64; lia). cbn [shr shr_record_of_loc shr_m].
    unfold emax64, prec64. replace (_ <=? 1024 - 53) with true by lia. eexists _, _. split_and!; [done|lia|lia].
Qed.
Lemma f64_of_pos n : 0 < n < 2 ^ 64 -> exists m e, f64_of n 0 = S754_finite false m e.
Proof. intros (m & e & E & _)%f64_of_bounded. eauto. Qed.

Lemma normalize_nonneg m e : 0 <= m -> nonneg (binary_normalize prec64 emax64 m e false).
Proof.
  intros Hm. destruct m as [|p|p]; [done| |lia]. cbn [binary_normalize]. unfold binary_round.
  destruct (shl_align _ _ _) as [mz ez]. apply round_nonneg. lia.
Qed.
Lemma f64_of_u64_nonneg n : 0 <= n -> nonneg (f64_of_u64 n).
Proof. apply normalize_nonneg. Qed.

(** A number above zero, and finite. *)
Definition positive_finite (x : f64) : Prop := exists m e, x = S754_finite false m e.
Lemma positive_finite_iff x : positive_finite x <-> f64_is_finite x = true /\ f64_gt x (S754_zero false) = true.
Proof.
  split; [by intros (m & e & ->)|]. intros [H1 H2]. destruct x as [s|s| |[] m e]; try done. by exists m, e.
Qed.

(** Dividing something that is not below zero by something above it. *)
Lemma f64_div_nonneg x y : nonneg x -> positive_finite y -> nonneg (f64_div x y).
Proof.
  intros Hx (my & ey & ->). unfold f64_div. destruct x as [s|[]| |[] mx ex]; try done; try (by destruct s).
  unfold SFdiv. destruct (SFdiv_core_binary _ _ _ _ _ _) as [[q e] l] eqn:E. cbn [xorb]. apply round_nonneg.
  unfold SFdiv_core_binary in E. 
  set (s := _ - _ - _) in E. set (m' := match s with Z0 => _ | Zpos _ => _ | Zneg _ => _ end) in E.
  assert (Hm : 0 <= m').
  { subst m'. destruct s; [lia| |lia]. apply Z.shiftl_nonneg. lia. }
  clearbody m' s. pose proof (Z.div_pos m' (Zpos my) Hm ltac:(lia)) as Hq. unfold Z.div in Hq.
  destruct (Z.div_eucl m' (Zpos my)) as [q' r]. by injection E as <- _ _.
Qed.
Lemma f64_mul_nonneg x y : nonneg x -> positive_finite y -> nonneg (f64_mul x y).
Proof.
  intros Hx (my & ey & ->). unfold f64_mul. destruct x as [s|[]| |[] mx ex]; try done; try (by destruct s).
  cbn [SFmul xorb]. apply round_nonneg. lia.
Qed.

(** ** Not out of range *)

Lemma digits_bound q d : 0 <= d -> 0 <= q < 2 ^ d -> 0 <= Zdigits2 q <= d.
Proof.
  intros Hd Hq. destruct q as [|p|p]; cbn [Zdigits2]; [lia| |lia]. rewrite digits2_pos_log2.
  pose proof (Z.log2_nonneg (Zpos p)). enough (Z.log2 (Zpos p) < d) by lia. apply Z.log2_lt_pow2; lia.
Qed.

Lemma shr_bounds r e n d :
  0 <= d -> 0 <= shr_m r < 2 ^ d -> 0 <= shr_m (shr r e n).1 < 2 ^ d /\ (shr r e n).2 = Z.max e (e + n).
Proof.
  intros Hd Hr. destruct n as [|k|k]; cbn [shr fst snd]; [split; [done|lia]| |split; [done|lia]].
  destruct (shr_iter k r) as [E H]; [lia|]. split; [|lia]. rewrite E in *. split; [done|].
  apply Z.le_lt_trans with (shr_m r); [|lia]. apply Z.div_le_upper_bound; [lia|].
  assert (0 < 2 ^ Zpos k) by lia. nia.
Qed.

(** Rounding cannot overflow what is far from the largest exponent. *)
Lemma round_finite q e l d :
  0 <= d <= 300 -> 0 <= q < 2 ^ d -> e <= 200 -> f64_is_finite (binary_round_aux prec64 emax64 false q e l) = true.
Proof.
  intros Hd Hq He. unfold binary_round_aux, shr_fexp. set (n := fexp _ _ (Zdigits2 q + e) - e).
  pose proof (digits_bound q d ltac:(lia) Hq) as Hdig.
  assert (Hn : n <= Z.max (d - 53) (-1074 - e)) by (unfold n, fexp, emin, prec64, emax64; lia).
  destruct (shr_bounds (shr_record_of_loc q l) e n d ltac:(lia)) as [H1 E1]; [by rewrite shr_record_m|].
  destruct (shr _ _ _) as [r e1]. cbn [fst snd] in H1, E1. set (m2 := round_nearest_even _ _).
  assert (H2 : 0 <= m2 < 2 ^ (d + 1)).
  { rewrite Z.pow_add_r by lia. destruct (round_even_cases (shr_m r) (loc_of_shr_record r)) as [E|E]; subst m2; rewrite E; lia. }
  set (n2 := fexp _ _ (Zdigits2 m2 + e1) - e1). pose proof (digits_bound m2 (d + 1) ltac:(lia) H2) as Hdig2.
  assert (Hn2 : n2 <= Z.max (d + 1 - 53) (-1074 - e1)) by (unfold n2, fexp, emin, prec64, emax64; lia).
  destruct (shr_bounds (shr_record_of_loc m2 loc_Exact) e1 n2 (d + 1) ltac:(lia)) as [H3 E3]; [by rewrite shr_record_m|].
  destruct (shr _ _ _) as [r2 e2]. cbn [fst snd] in H3, E3.
  destruct (shr_m r2); [done| |lia]. unfold emax64, prec64. by replace (e2 <=? 1024 - 53) with true by lia.
Qed.

(** A count of 64 bits divided by a constant of moderate size. *)
Lemma f64_div_finite n my ey :
  0 <= n < 2 ^ 64 -> Zpos my < 2 ^ 110 -> -100 <= ey <= 0 -> f64_is_finite (f64_div (f64_of_u64 n) (S754_finite false my ey)) = true.
Proof.
  intros Hn Hmy Hey. destruct (decide (n = 0)) as [->|Hn0]; [done|]. unfold f64_of_u64, f64_div.
  destruct (f64_of_bounded n ltac:(lia)) as (mx & ex & -> & Hmx & Hex). unfold SFdiv.
  destruct (SFdiv_core_binary _ _ _ _ _ _) as [[q e] l] eqn:E. cbn [xorb]. unfold SFdiv_core_binary in E.
  set (e' := Z.min _ _) in E. set (s := ex - ey - e') in E. assert (Hs : 0 <= s <= 170).
  { pose proof (digits_bound (Zpos mx) 110 ltac:(lia) ltac:(lia)).
    pose proof (digits_bound (Zpos my) 110 ltac:(lia) ltac:(lia)). unfold s, e', fexp, emin, prec64, emax64. lia. }
  set (m' := match s with Z0 => _ | Zpos _ => _ | Zneg _ => _ end) in E.
  assert (Hm : m' = Zpos mx * 2 ^ s) by (subst m'; destruct s; [lia|by rewrite Z.shiftl_mul_pow2|lia]).
  assert (Hm' : 0 <= m' < 2 ^ (110 + s)) by (rewrite Hm, Z.pow_add_r by lia; assert (0 < 2 ^ s) by lia; nia).
  assert (He : e' + s = ex - ey) by (unfold s; lia). clearbody m' s e'.
  assert (Hq : 0 <= m' / Zpos my <= m').
  { split; [apply Z.div_pos; lia|apply Z.div_le_upper_bound; nia]. }
  unfold Z.div in Hq. destruct (Z.div_eucl m' (Zpos my)) as [q' r]. injection E as <- <- _.
  apply (round_finite _ _ _ (110 + s)); lia.
Qed.
