(* ===== verification/Json.v ===== *)
(** JSON values, as [serde_json] has them, and what [json!] builds.

    An object is the list of its fields; [value_get] reads the first of a name. *)

From S2P Require Import Prelude F64.

#[local] Set Warnings "-register-all".
Inductive Value :=
| Null
| Bool (b : bool)
| PosInt (n : u64)
| NegInt (n : Z)
| Float (x : f64)
| Text (s : str)
| Array (l : list Value)
| Object (fields : list (str * Value)).

(** [Value::get] with a string, [Value::as_u64]. *)
Definition value_get (key : str) (v : Value) : option Value :=
  match v with
  | Object fields => snd <$> find_first (fun p => bool_decide (p.1 = key)) fields
  | _ => None
  end.
Definition as_u64 (v : Value) : option u64 := match v with PosInt n => Some n | _ => None end.

(** What [json!] makes of a double, an option and a list of strings. *)
Definition json_f64 (x : f64) : Value := if f64_is_finite x then Float x else Null.
Definition json_option {A} (f : A -> Value) (o : option A) : Value := match o with Some x => f x | None => Null end.
Definition json_texts (l : list str) : Value := Array (map Text l).

Class SerdeJson := {
  (** [serde_json::to_vec] and [from_slice]. *)
  to_vec : Value -> option bytes;
  from_slice : bytes -> option Value;
}.

