(* ===== verification/Annotations.v ===== *)
(** The annotation vocabulary: [crates/ramjet-controller/src/annotations.rs].

    An object's annotations are a map from text to text.  A [Duration] is a
    number of nanoseconds and an [f64] a [spec_float] of [F64].  The lists of
    keys that could not be read carry the keys themselves, as in the code. *)

From Stdlib Require Import SpecFloat.
From S2P Require Import Prelude Order NetText F64 RouterTypes.

Definition ANNOTATION_CANARY : str := bstr "nginx.ingress.kubernetes.io/canary".
Definition ANNOTATION_CANARY_WEIGHT : str := bstr "nginx.ingress.kubernetes.io/canary-weight".
Definition ANNOTATION_CANARY_WEIGHT_TOTAL : str := bstr "nginx.ingress.kubernetes.io/canary-weight-total".
Definition ANNOTATION_CANARY_BY_HEADER : str := bstr "nginx.ingress.kubernetes.io/canary-by-header".
Definition ANNOTATION_CANARY_BY_HEADER_VALUE : str :=
  bstr "nginx.ingress.kubernetes.io/canary-by-header-value".
Definition ANNOTATION_CANARY_BY_HEADER_PATTERN : str :=
  bstr "nginx.ingress.kubernetes.io/canary-by-header-pattern".
Definition ANNOTATION_CANARY_BY_COOKIE : str := bstr "nginx.ingress.kubernetes.io/canary-by-cookie".
Definition ANNOTATION_BACKEND_PROTOCOL : str := bstr "nginx.ingress.kubernetes.io/backend-protocol".
Definition ANNOTATION_MIRROR_BACKEND : str := bstr "ramjet.dev/mirror-backend".
Definition ANNOTATION_MIRROR_PERCENT : str := bstr "ramjet.dev/mirror-percent".
Definition ANNOTATION_MIRROR_HOST : str := bstr "ramjet.dev/mirror-host".
Definition ANNOTATION_AUTO_PROMOTE : str := bstr "ramjet.dev/auto-promote".
Definition ANNOTATION_AUTO_PROMOTE_INTERVAL : str := bstr "ramjet.dev/auto-promote-interval".
Definition ANNOTATION_AUTO_PROMOTE_STEPS : str := bstr "ramjet.dev/auto-promote-steps".
Definition ANNOTATION_AUTO_PROMOTE_MAX_5XX : str := bstr "ramjet.dev/auto-promote-max-5xx-percent".
Definition ANNOTATION_AUTO_PROMOTE_MAX_LATENCY : str := bstr "ramjet.dev/auto-promote-max-latency-factor".
Definition ANNOTATION_AUTO_PROMOTE_MIN_REQUESTS : str := bstr "ramjet.dev/auto-promote-min-requests".
Definition ANNOTATION_AUTO_PROMOTE_STATUS : str := bstr "ramjet.dev/auto-promote-status".
Definition ANNOTATION_LEGACY_CLASS : str := bstr "kubernetes.io/ingress.class".
Definition ANNOTATION_IS_DEFAULT_CLASS : str := bstr "ingressclass.kubernetes.io/is-default-class".

Definition DEFAULT_MIRROR_PERCENT : u32 := 100.
Definition seconds (s : Z) : Z := s * 1000000000.
Definition DEFAULT_PROMOTE_INTERVAL : Z := seconds 60.
Definition DEFAULT_PROMOTE_STEPS : list u32 := [5; 10; 25; 50; 100].
Definition DEFAULT_PROMOTE_MAX_5XX_PERCENT : f64 := f64_of 1 0.
Definition DEFAULT_PROMOTE_MAX_LATENCY_FACTOR : f64 := f64_of 3 (-1).
Definition DEFAULT_PROMOTE_MIN_REQUESTS : u64 := 50.
Definition STATUS_ROLLED_BACK : str := bstr "rolled-back".
Definition STATUS_PROMOTED : str := bstr "promoted".

Abbreviation annotations := (gmap (list Z) (list Z)) (only parsing).

Definition is_true_text (value : str) : bool := eq_ignore_ascii_case (str_trim value) (bstr "true").

(** The [get] of the mirror and promotion parsers: trimmed, absent when empty. *)
Definition get_trimmed (a : annotations) (key : str) : option str :=
  v ← a !! key; if bool_decide (str_trim v = []) then None else Some (str_trim v).

(** ** Canary *)

Record CanaryAnnotations := MkCanaryAnnotations {
  ca_enabled : bool;
  ca_weight : u32;
  ca_weight_total : u32;
  ca_header : option str;
  ca_header_value : option str;
  ca_header_pattern : option str;
  ca_cookie : option str;
  ca_invalid : list str;
}.

(** [number]: the value, and the key when it could not be read. *)
Definition canary_number (a : annotations) (key : str) : u32 * list str :=
  match a !! key with
  | None => (0, [])
  | Some raw =>
      match parse_unsigned u32_max (str_trim raw) with
      | Some v => (v, [])
      | None => (0, [key])
      end
  end.

Definition canary_parse (a : annotations) : CanaryAnnotations :=
  let '(weight, bad1) := canary_number a ANNOTATION_CANARY_WEIGHT in
  let '(weight_total, bad2) := canary_number a ANNOTATION_CANARY_WEIGHT_TOTAL in
  MkCanaryAnnotations
    (match a !! ANNOTATION_CANARY with Some v => is_true_text v | None => false end)
    weight weight_total
    (a !! ANNOTATION_CANARY_BY_HEADER) (a !! ANNOTATION_CANARY_BY_HEADER_VALUE)
    (a !! ANNOTATION_CANARY_BY_HEADER_PATTERN) (a !! ANNOTATION_CANARY_BY_COOKIE)
    (bad1 ++ bad2).

Definition is_inert (c : CanaryAnnotations) : bool :=
  (ca_weight c =? 0) && bool_decide (ca_header c = None) && bool_decide (ca_cookie c = None).

(** ** Mirror *)

Record MirrorAnnotations := MkMirrorAnnotations {
  ma_backend : option str;
  ma_percent : u32;
  ma_host : option str;
  ma_invalid : list str;
}.

Definition mirror_parse (a : annotations) : MirrorAnnotations :=
  let '(percent, invalid) :=
    match get_trimmed a ANNOTATION_MIRROR_PERCENT with
    | None => (DEFAULT_MIRROR_PERCENT, [])
    | Some raw =>
        match parse_unsigned u32_max raw with
        | Some value => if value <=? 100 then (value, []) else (DEFAULT_MIRROR_PERCENT, [ANNOTATION_MIRROR_PERCENT])
        | None => (DEFAULT_MIRROR_PERCENT, [ANNOTATION_MIRROR_PERCENT])
        end
    end in
  MkMirrorAnnotations (get_trimmed a ANNOTATION_MIRROR_BACKEND) percent
    (get_trimmed a ANNOTATION_MIRROR_HOST) invalid.

Definition mirror_enabled (m : MirrorAnnotations) : bool := bool_decide (is_Some (ma_backend m)).

(** ** Backend protocol *)

Record BackendProtocolAnnotation := MkBackendProtocolAnnotation {
  bp_protocol : BackendProtocol;
  bp_unsupported : option str;
}.

Definition backend_protocol_parse (a : annotations) : BackendProtocolAnnotation :=
  match get_trimmed a ANNOTATION_BACKEND_PROTOCOL with
  | None => MkBackendProtocolAnnotation Http1 None
  | Some raw =>
      if eq_ignore_ascii_case raw (bstr "HTTP") then MkBackendProtocolAnnotation Http1 None
      else if eq_ignore_ascii_case raw (bstr "GRPC") then MkBackendProtocolAnnotation H2c None
      else MkBackendProtocolAnnotation Http1 (Some raw)
  end.

(** ** Automatic promotion *)

Record PromotionAnnotations := MkPromotionAnnotations {
  pa_enabled : bool;
  pa_interval : Z;
  pa_steps : list u32;
  pa_max_5xx_percent : f64;
  pa_max_latency_factor : f64;
  pa_min_requests : u64;
  pa_status : option str;
  pa_invalid : list str;
}.

Definition PromotionAnnotations_default : PromotionAnnotations :=
  MkPromotionAnnotations false DEFAULT_PROMOTE_INTERVAL DEFAULT_PROMOTE_STEPS
    DEFAULT_PROMOTE_MAX_5XX_PERCENT DEFAULT_PROMOTE_MAX_LATENCY_FACTOR
    DEFAULT_PROMOTE_MIN_REQUESTS None [].

Definition parse_duration (raw : str) : option Z :=
  let raw := str_trim raw in
  b ← last raw;
  let '(value, multiplier) :=
    if b =? chr "s" then (removelast raw, 1)
    else if b =? chr "m" then (removelast raw, 60)
    else if b =? chr "h" then (removelast raw, 3600)
    else (raw, 1) in
  secs ← parse_unsigned u64_max (str_trim value);
  if 0 <? secs then Some (seconds (sat_mul u64_max secs multiplier)) else None.

(** The loop over the fields; [None] is the early return. *)
Fixpoint steps_loop (fields : list str) (steps : list u32) : option (list u32) :=
  match fields with
  | [] => Some steps
  | field :: rest =>
      let field := str_trim field in
      if bool_decide (field = []) then steps_loop rest steps
      else
        step ← parse_unsigned u32_max field;
        if (step =? 0) || (100 <? step) then None else steps_loop rest (steps ++ [step])
  end.

Definition parse_steps (raw : str) : option (list u32) :=
  steps ← steps_loop (split_on (chr ",") raw) [];
  if bool_decide (steps = []) then None else Some (dedup (sort_by ord_le steps)).

(** One optional setting: its default, or its parsed value, or its default and
    the key reported. *)
Definition setting {A : Type} (a : annotations) (key : str) (parse : str -> option A) (default_value : A)
    : A * list str :=
  match get_trimmed a key with
  | None => (default_value, [])
  | Some raw =>
      match parse raw with
      | Some v => (v, [])
      | None => (default_value, [key])
      end
  end.

(** A finite number at least [low]. *)
Definition threshold (low : f64) (raw : str) : option f64 :=
  value ← parse_f64 raw;
  if f64_is_finite value && f64_ge value low then Some value else None.

Definition promotion_parse (a : annotations) : PromotionAnnotations :=
  let d := PromotionAnnotations_default in
  let '(interval, bad1) := setting a ANNOTATION_AUTO_PROMOTE_INTERVAL parse_duration (pa_interval d) in
  let '(steps, bad2) := setting a ANNOTATION_AUTO_PROMOTE_STEPS parse_steps (pa_steps d) in
  let '(max_5xx, bad3) :=
    setting a ANNOTATION_AUTO_PROMOTE_MAX_5XX (threshold (S754_zero false)) (pa_max_5xx_percent d) in
  let '(max_latency, bad4) :=
    setting a ANNOTATION_AUTO_PROMOTE_MAX_LATENCY (threshold (f64_of 1 0)) (pa_max_latency_factor d) in
  let '(min_requests, bad5) :=
    setting a ANNOTATION_AUTO_PROMOTE_MIN_REQUESTS (parse_unsigned u64_max) (pa_min_requests d) in
  MkPromotionAnnotations
    (match get_trimmed a ANNOTATION_AUTO_PROMOTE with Some v => is_true_text v | None => false end)
    interval steps max_5xx max_latency min_requests
    (get_trimmed a ANNOTATION_AUTO_PROMOTE_STATUS) (bad1 ++ bad2 ++ bad3 ++ bad4 ++ bad5).

Definition rolled_back (p : PromotionAnnotations) : bool :=
  match pa_status p with Some status => starts_with STATUS_ROLLED_BACK status | None => false end.
Definition next_step (p : PromotionAnnotations) (weight : u32) : option u32 :=
  find_first (fun step => weight <? step) (pa_steps p).
Definition final_step (p : PromotionAnnotations) : u32 := default 100 (last (pa_steps p)).

(** ** Lemmas *)

Lemma setting_cases {A : Type} (a : annotations) key (parse : str -> option A) d (P : A -> Prop) :
  P d -> (forall raw v, parse raw = Some v -> P v) -> P (setting a key parse d).1.
Proof.
  intros Hd Hp. unfold setting. destruct (get_trimmed a key) as [raw|]; [|done].
  destruct (parse raw) as [v|] eqn:E; [by eapply Hp|done].
Qed.

Lemma parse_duration_positive raw v : parse_duration raw = Some v -> seconds 1 <= v.
Proof.
  unfold parse_duration. destruct (last (str_trim raw)) as [b|]; simpl; [|done].
  set (p := if b =? _ then _ else _). assert (Hm : 1 <= p.2).
  { unfold p. repeat (destruct (b =? _); [simpl; lia|]). simpl. lia. }
  destruct p as [value multiplier]. simpl in Hm. destruct (parse_unsigned u64_max (str_trim value)) as [secs|]; [|done].
  simpl. destruct (0 <? secs) eqn:E; [|done]. intros [= <-]. unfold seconds, sat_mul, u64_max. nia.
Qed.

Lemma steps_loop_range fields steps out :
  steps_loop fields steps = Some out -> Forall (fun s => 1 <= s <= 100) steps ->
  Forall (fun s => 1 <= s <= 100) out.
Proof.
  revert steps. induction fields as [|field rest IH]; intros steps Hl Hs; cbn [steps_loop] in Hl; [by simplify_eq|].
  destruct (bool_decide _); [by eapply IH|].
  destruct (parse_unsigned u32_max (str_trim field)) as [step|] eqn:Hp; [|done]. simpl in Hl.
  apply parse_unsigned_range in Hp. destruct ((step =? 0) || (100 <? step)) eqn:E; [done|].
  eapply IH; [exact Hl|]. apply Forall_app. split; [done|]. constructor; [lia|constructor].
Qed.

Definition ladder (steps : list u32) : Prop :=
  StronglySorted Z.lt steps /\ steps <> [] /\ Forall (fun s => 1 <= s <= 100) steps.

Lemma parse_steps_ladder raw steps : parse_steps raw = Some steps -> ladder steps.
Proof.
  unfold parse_steps. destruct (steps_loop _ []) as [l|] eqn:Hl; [|done]. simpl.
  apply steps_loop_range in Hl; [|constructor]. case_bool_decide as Hne; [done|]. intros [= <-]. split_and!.
  - eapply strongly_sorted_impl; [|apply dedup_sorted, sort_by_ord_sorted].
    intros x y. unfold cmp, Z_ord. apply Z.compare_lt_iff.
  - rewrite dedup_nil. intros Hs. apply Hne. pose proof (sort_by_perm ord_le l) as Hp. rewrite Hs in Hp.
    by apply Permutation_nil_l in Hp.
  - apply Forall_forall. intros x Hx. rewrite dedup_elem, elem_of_sort_by in Hx.
    rewrite Forall_forall in Hl. by apply Hl.
Qed.

Lemma threshold_low low raw v : threshold low raw = Some v -> f64_is_finite v = true /\ f64_ge v low = true.
Proof.
  unfold threshold. destruct (parse_f64 raw) as [x|]; [|done]. simpl.
  destruct (f64_is_finite x) eqn:E1, (f64_ge x low) eqn:E2; simpl; [|done..]. by intros [= <-].
Qed.

(** What every policy the loop runs with satisfies. *)
Record policy_ok (p : PromotionAnnotations) : Prop := {
  pol_steps : ladder (pa_steps p);
  pol_interval : seconds 1 <= pa_interval p;
  pol_5xx : f64_is_finite (pa_max_5xx_percent p) = true /\ f64_ge (pa_max_5xx_percent p) (S754_zero false) = true;
  pol_latency : f64_is_finite (pa_max_latency_factor p) = true /\ f64_ge (pa_max_latency_factor p) (f64_of 1 0) = true;
  pol_requests : 0 <= pa_min_requests p <= u64_max;
}.

Lemma promotion_parse_fields a :
  pa_steps (promotion_parse a) = (setting a ANNOTATION_AUTO_PROMOTE_STEPS parse_steps DEFAULT_PROMOTE_STEPS).1 /\
  pa_interval (promotion_parse a) =
    (setting a ANNOTATION_AUTO_PROMOTE_INTERVAL parse_duration DEFAULT_PROMOTE_INTERVAL).1 /\
  pa_max_5xx_percent (promotion_parse a) =
    (setting a ANNOTATION_AUTO_PROMOTE_MAX_5XX (threshold (S754_zero false)) DEFAULT_PROMOTE_MAX_5XX_PERCENT).1 /\
  pa_max_latency_factor (promotion_parse a) =
    (setting a ANNOTATION_AUTO_PROMOTE_MAX_LATENCY (threshold (f64_of 1 0)) DEFAULT_PROMOTE_MAX_LATENCY_FACTOR).1 /\
  pa_min_requests (promotion_parse a) =
    (setting a ANNOTATION_AUTO_PROMOTE_MIN_REQUESTS (parse_unsigned u64_max) DEFAULT_PROMOTE_MIN_REQUESTS).1.
Proof.
  unfold promotion_parse. cbn [PromotionAnnotations_default pa_interval pa_steps pa_max_5xx_percent
    pa_max_latency_factor pa_min_requests].
  destruct (setting a ANNOTATION_AUTO_PROMOTE_INTERVAL _ _), (setting a ANNOTATION_AUTO_PROMOTE_STEPS _ _),
    (setting a ANNOTATION_AUTO_PROMOTE_MAX_5XX _ _), (setting a ANNOTATION_AUTO_PROMOTE_MAX_LATENCY _ _),
    (setting a ANNOTATION_AUTO_PROMOTE_MIN_REQUESTS _ _). done.
Qed.

(** * Properties *)

(** Whatever the annotations say, the promotion policy is safe to run
    with: the steps are strictly ascending, not empty and within 1 to 100, so
    the loop never demotes and always has a last step; the interval is at
    least a second, so it never spins; the error budget is a finite
    non-negative number and the latency factor a finite number of at least one,
    so no comparison meets a NaN; and the traffic gate fits its width. *)
Theorem promotion_policy_sane (a : annotations) : policy_ok (promotion_parse a).
Proof.
  destruct (promotion_parse_fields a) as (Hs&Hi&H5&Hl&Hr). split; rewrite ?Hs, ?Hi, ?H5, ?Hl, ?Hr.
  - apply (setting_cases a _ _ _ ladder); [|apply parse_steps_ladder]. unfold DEFAULT_PROMOTE_STEPS.
    split_and!; [|done|]; repeat (constructor || lia).
  - apply (setting_cases a _ _ _ (fun v => seconds 1 <= v)); [by compute|apply parse_duration_positive].
  - apply (setting_cases a _ _ _ (fun v => _ v = true /\ f64_ge v _ = true)); [done|apply threshold_low].
  - apply (setting_cases a _ _ _ (fun v => _ v = true /\ f64_ge v _ = true)); [done|apply threshold_low].
  - apply (setting_cases a _ _ _ (fun v => 0 <= v <= u64_max)); [by compute|apply parse_unsigned_range].
Qed.
