(* ===== verification/Metrics.v ===== *)
(** The counters of both data planes and the page they are exported on:
    [crates/ramjet-proxy/src/metrics.rs] and [crates/ramjet-engine/src/metrics.rs].

    An atomic counter is its value and [fetch_add] wraps; a [Duration] is a
    number of nanoseconds.  A bucket bound is the text [Display] gives the
    constant, and the constant is what that text parses to.  The two formatters
    are translated separately, since that they agree is what is to be shown:
    [one_page_whoever_serves].  Sums are those of the release build, which
    wraps. *)

From Stdlib Require Import SpecFloat.
From S2P Require Import Prelude NetText F64.

Definition wrap_i64 (x : Z) : Z := wrap64 (x + 2 ^ 63) - 2 ^ 63.
Definition i64_text (n : Z) : str := if n <? 0 then chr "-" :: to_string (- n) else to_string n.

(** [writeln!(out, ...)] of one line; a string constant with a quote in it. *)
Definition writeln (line : str) : str := line ++ [LF].
Definition quoted (s : str) : str := 34 :: s ++ [34].

(** ** The hyper engine *)

Definition BUCKETS : list str :=
  [bstr "0.001"; bstr "0.0025"; bstr "0.005"; bstr "0.01"; bstr "0.025"; bstr "0.05"; bstr "0.1"; bstr "0.25";
   bstr "0.5"; bstr "1"; bstr "5"; bstr "10"].
Definition bound_value (b : str) : f64 := default S754_nan (parse_f64 b).
Definition CLASSES : list str := [bstr "1xx"; bstr "2xx"; bstr "3xx"; bstr "4xx"; bstr "5xx"; bstr "other"].

Record Histogram := MkHistogram { h_buckets : list u64; h_sum_nanos : u64; h_count : u64 }.
Definition Histogram_default : Histogram := MkHistogram (replicate 12 0) 0 0.

Definition fetch_add (n d : Z) : u64 := wrap64 (n + d).

(** [Duration::as_secs_f64]. *)
Definition as_secs_f64 (elapsed : Z) : f64 :=
  f64_add (f64_of_u64 (elapsed / 1000000000)) (f64_div (f64_of_u64 (elapsed mod 1000000000)) (f64_of_u64 1000000000)).

Definition bucket_index (elapsed : Z) : option nat :=
  position (fun b => f64_ge (bound_value b) (as_secs_f64 elapsed)) BUCKETS.

Arguments bucket_index : simpl never.

Definition observe (elapsed : Z) (h : Histogram) : Histogram :=
  let buckets :=
    match bucket_index elapsed with
    | Some i => alter (fun b => fetch_add b 1) i (h_buckets h)
    | None => h_buckets h
    end in
  MkHistogram buckets (fetch_add (h_sum_nanos h) (Z.min elapsed u64_max)) (fetch_add (h_count h) 1).

(** [cumulative += ...] down the bounds. *)
Fixpoint cumulative_lines (name : str) (cumulative : u64) (bounds : list str) (counts : list u64) : str :=
  match bounds with
  | [] => []
  | bound :: bounds =>
      let cumulative := wrap64 (cumulative + hd 0 counts) in
      writeln (name ++ bstr "_bucket{le=" ++ quoted bound ++ bstr "} " ++ to_string cumulative) ++
      cumulative_lines name cumulative bounds (tl counts)
  end.

Definition histogram_render (h : Histogram) (name : str) : str :=
  cumulative_lines name 0 BUCKETS (h_buckets h) ++
  writeln (name ++ bstr "_bucket{le=" ++ quoted (bstr "+Inf") ++ bstr "} " ++ to_string (h_count h)) ++
  writeln (name ++ bstr "_sum " ++ fixed 6 (f64_div (f64_of_u64 (h_sum_nanos h)) (f64_of_u64 1000000000))) ++
  writeln (name ++ bstr "_count " ++ to_string (h_count h)).

Record Totals := MkTotals {
  t_requests : list u64;
  t_latency_buckets : list u64;
  t_latency_nanos : u64;
  t_latency_count : u64;
  t_active_connections : Z;
  t_tls_handshakes : u64;
  t_tls_handshake_failures : u64;
  t_dispatch_uring : u64;
  t_dispatch_hyper : u64;
  t_connect_failures : u64;
  t_retries : u64;
  t_timeouts : u64;
  t_route_misses : u64;
  t_h3_connections : u64;
  t_h3_requests : u64;
  t_h3_handshake_failures : u64;
  t_mirrored : u64;
  t_mirror_dropped : u64;
  t_mirror_skipped : u64;
  t_mirror_failures : u64;
  t_unsupported_h2c : u64;
  t_unsupported_grpc : u64;
}.
Definition Totals_default : Totals := {|
  t_requests := replicate 6 0; t_latency_buckets := replicate 12 0; t_latency_nanos := 0; t_latency_count := 0;
  t_active_connections := 0; t_tls_handshakes := 0; t_tls_handshake_failures := 0; t_dispatch_uring := 0;
  t_dispatch_hyper := 0; t_connect_failures := 0; t_retries := 0; t_timeouts := 0; t_route_misses := 0;
  t_h3_connections := 0; t_h3_requests := 0; t_h3_handshake_failures := 0; t_mirrored := 0; t_mirror_dropped := 0;
  t_mirror_skipped := 0; t_mirror_failures := 0; t_unsupported_h2c := 0; t_unsupported_grpc := 0 |}.

Record Metrics := MkMetrics {
  m_requests : list u64;
  m_upstream_latency : Histogram;
  m_active_connections : Z;
  m_tls_handshakes : u64;
  m_tls_handshake_failures : u64;
  m_dispatch_uring : u64;
  m_dispatch_hyper : u64;
  m_upstream_connect_failures : u64;
  m_upstream_retries : u64;
  m_upstream_timeouts : u64;
  m_route_misses : u64;
  m_mirrored : u64;
  m_mirror_dropped : u64;
  m_mirror_skipped : u64;
  m_mirror_failures : u64;
  m_h3_connections : u64;
  m_h3_requests : u64;
  m_h3_handshake_failures : u64;
  m_unsupported_h2c : u64;
  m_unsupported_grpc : u64;
}.
Definition Metrics_eta (m : Metrics) : Metrics :=
  MkMetrics (m_requests m) (m_upstream_latency m) (m_active_connections m) (m_tls_handshakes m)
    (m_tls_handshake_failures m) (m_dispatch_uring m) (m_dispatch_hyper m) (m_upstream_connect_failures m)
    (m_upstream_retries m) (m_upstream_timeouts m) (m_route_misses m) (m_mirrored m) (m_mirror_dropped m)
    (m_mirror_skipped m) (m_mirror_failures m) (m_h3_connections m) (m_h3_requests m) (m_h3_handshake_failures m)
    (m_unsupported_h2c m) (m_unsupported_grpc m).
#[export] Instance set_m_requests : Setter m_requests := ltac:(derive_setter Metrics_eta).
#[export] Instance set_m_upstream_latency : Setter m_upstream_latency := ltac:(derive_setter Metrics_eta).
#[export] Instance set_m_active_connections : Setter m_active_connections := ltac:(derive_setter Metrics_eta).
#[export] Instance set_m_tls_handshakes : Setter m_tls_handshakes := ltac:(derive_setter Metrics_eta).
#[export] Instance set_m_tls_handshake_failures : Setter m_tls_handshake_failures := ltac:(derive_setter Metrics_eta).
#[export] Instance set_m_dispatch_uring : Setter m_dispatch_uring := ltac:(derive_setter Metrics_eta).
#[export] Instance set_m_dispatch_hyper : Setter m_dispatch_hyper := ltac:(derive_setter Metrics_eta).
#[export] Instance set_m_upstream_connect_failures : Setter m_upstream_connect_failures := ltac:(derive_setter Metrics_eta).
#[export] Instance set_m_upstream_retries : Setter m_upstream_retries := ltac:(derive_setter Metrics_eta).
#[export] Instance set_m_upstream_timeouts : Setter m_upstream_timeouts := ltac:(derive_setter Metrics_eta).
#[export] Instance set_m_route_misses : Setter m_route_misses := ltac:(derive_setter Metrics_eta).
#[export] Instance set_m_mirrored : Setter m_mirrored := ltac:(derive_setter Metrics_eta).
#[export] Instance set_m_mirror_dropped : Setter m_mirror_dropped := ltac:(derive_setter Metrics_eta).
#[export] Instance set_m_mirror_skipped : Setter m_mirror_skipped := ltac:(derive_setter Metrics_eta).
#[export] Instance set_m_mirror_failures : Setter m_mirror_failures := ltac:(derive_setter Metrics_eta).
#[export] Instance set_m_h3_connections : Setter m_h3_connections := ltac:(derive_setter Metrics_eta).
#[export] Instance set_m_h3_requests : Setter m_h3_requests := ltac:(derive_setter Metrics_eta).
#[export] Instance set_m_h3_handshake_failures : Setter m_h3_handshake_failures := ltac:(derive_setter Metrics_eta).
#[export] Instance set_m_unsupported_h2c : Setter m_unsupported_h2c := ltac:(derive_setter Metrics_eta).
#[export] Instance set_m_unsupported_grpc : Setter m_unsupported_grpc := ltac:(derive_setter Metrics_eta).

Definition Metrics_new : Metrics :=
  MkMetrics (replicate 6 0) Histogram_default 0 0 0 0 0 0 0 0 0 0 0 0 0 0 0 0 0 0.

Definition totals (m : Metrics) : Totals := {|
  t_requests := m_requests m;
  t_latency_buckets := h_buckets (m_upstream_latency m);
  t_latency_nanos := h_sum_nanos (m_upstream_latency m);
  t_latency_count := h_count (m_upstream_latency m);
  t_active_connections := m_active_connections m;
  t_tls_handshakes := m_tls_handshakes m;
  t_tls_handshake_failures := m_tls_handshake_failures m;
  t_dispatch_uring := m_dispatch_uring m;
  t_dispatch_hyper := m_dispatch_hyper m;
  t_connect_failures := m_upstream_connect_failures m;
  t_retries := m_upstream_retries m;
  t_timeouts := m_upstream_timeouts m;
  t_route_misses := m_route_misses m;
  t_h3_connections := m_h3_connections m;
  t_h3_requests := m_h3_requests m;
  t_h3_handshake_failures := m_h3_handshake_failures m;
  t_mirrored := m_mirrored m;
  t_mirror_dropped := m_mirror_dropped m;
  t_mirror_skipped := m_mirror_skipped m;
  t_mirror_failures := m_mirror_failures m;
  t_unsupported_h2c := m_unsupported_h2c m;
  t_unsupported_grpc := m_unsupported_grpc m |}.

Definition class_index (status : u16) : nat :=
  let c := status / 100 in
  if c =? 1 then 0 else if c =? 2 then 1 else if c =? 3 then 2 else if c =? 4 then 3 else if c =? 5 then 4 else 5.

Arguments class_index : simpl never.

Definition record_response (status : u16) (m : Metrics) : Metrics :=
  m <| m_requests := alter (fun n => fetch_add n 1) (class_index status) (m_requests m) |>.
Definition record_upstream_latency (elapsed : Z) (m : Metrics) : Metrics :=
  m <| m_upstream_latency := observe elapsed (m_upstream_latency m) |>.
Definition connection_opened (m : Metrics) : Metrics :=
  m <| m_active_connections := wrap_i64 (m_active_connections m + 1) |>.
(** Dropping the [ConnectionGuard]. *)
Definition connection_dropped (m : Metrics) : Metrics :=
  m <| m_active_connections := wrap_i64 (m_active_connections m - 1) |>.
Definition record_tls_handshake (m : Metrics) : Metrics :=
  m <| m_tls_handshakes := fetch_add (m_tls_handshakes m) 1 |>.
Definition record_tls_handshake_failure (m : Metrics) : Metrics :=
  m <| m_tls_handshake_failures := fetch_add (m_tls_handshake_failures m) 1 |>.
Definition record_connect_failure (m : Metrics) : Metrics :=
  m <| m_upstream_connect_failures := fetch_add (m_upstream_connect_failures m) 1 |>.
Definition record_retry (m : Metrics) : Metrics :=
  m <| m_upstream_retries := fetch_add (m_upstream_retries m) 1 |>.
Definition record_upstream_timeout (m : Metrics) : Metrics :=
  m <| m_upstream_timeouts := fetch_add (m_upstream_timeouts m) 1 |>.
Definition record_route_miss (m : Metrics) : Metrics :=
  m <| m_route_misses := fetch_add (m_route_misses m) 1 |>.
Definition record_h3_connection (m : Metrics) : Metrics :=
  m <| m_h3_connections := fetch_add (m_h3_connections m) 1 |>.
Definition record_h3_request (m : Metrics) : Metrics :=
  m <| m_h3_requests := fetch_add (m_h3_requests m) 1 |>.
Definition record_h3_handshake_failure (m : Metrics) : Metrics :=
  m <| m_h3_handshake_failures := fetch_add (m_h3_handshake_failures m) 1 |>.
Definition record_mirrored (m : Metrics) : Metrics := m <| m_mirrored := fetch_add (m_mirrored m) 1 |>.
Definition record_mirror_dropped (m : Metrics) : Metrics :=
  m <| m_mirror_dropped := fetch_add (m_mirror_dropped m) 1 |>.
Definition record_mirror_skipped (m : Metrics) : Metrics :=
  m <| m_mirror_skipped := fetch_add (m_mirror_skipped m) 1 |>.
Definition record_mirror_failure (m : Metrics) : Metrics :=
  m <| m_mirror_failures := fetch_add (m_mirror_failures m) 1 |>.
Definition record_unsupported_grpc (m : Metrics) : Metrics :=
  m <| m_unsupported_grpc := fetch_add (m_unsupported_grpc m) 1 |>.

Definition responses (class : str) (m : Metrics) : u64 :=
  default 0 (i ← position (fun c => bool_decide (c = class)) CLASSES; m_requests m !! i).

Definition gauge (name help : str) (value : Z) : str :=
  writeln (bstr "# HELP " ++ name ++ [SP] ++ help) ++ writeln (bstr "# TYPE " ++ name ++ bstr " gauge") ++
  writeln (name ++ [SP] ++ i64_text value).
Definition counter_lines (l : list (str * str * u64)) : str :=
  concat (map (fun '(name, help, value) =>
    writeln (bstr "# HELP " ++ name ++ [SP] ++ help) ++ writeln (bstr "# TYPE " ++ name ++ bstr " counter") ++
    writeln (name ++ [SP] ++ to_string value)) l).
Definition class_lines (value : nat -> u64) : str :=
  concat (imap (fun i class =>
    writeln (bstr "ramjet_requests_total{code=" ++ quoted class ++ bstr "} " ++ to_string (value i))) CLASSES).

Definition render_prometheus (m : Metrics) (generation : u64) (pinned : bool) : str :=
  writeln (bstr "# HELP ramjet_requests_total Responses served, by status class.") ++
  writeln (bstr "# TYPE ramjet_requests_total counter") ++
  class_lines (fun i => default 0 (m_requests m !! i)) ++
  writeln (bstr "# HELP ramjet_upstream_latency_seconds Time from upstream dispatch to response headers.") ++
  writeln (bstr "# TYPE ramjet_upstream_latency_seconds histogram") ++
  histogram_render (m_upstream_latency m) (bstr "ramjet_upstream_latency_seconds") ++
  gauge (bstr "ramjet_active_connections") (bstr "Downstream connections currently being served.")
    (m_active_connections m) ++
  gauge (bstr "ramjet_route_table_generation") (bstr "Generation of the currently published route table.")
    (wrap_i64 generation) ++
  gauge (bstr "ramjet_pinned") (bstr "1 when a rollback is holding publication at a chosen generation.")
    (if pinned then 1 else 0) ++
  counter_lines [
    (bstr "ramjet_tls_handshakes_total", bstr "TLS handshakes completed.",
      m_tls_handshakes m);
    (bstr "ramjet_tls_handshake_failures_total", bstr "TLS handshakes that failed.",
      m_tls_handshake_failures m);
    (bstr "ramjet_dispatch_uring_total", bstr "Connections the uring engine kept after reading what the client offered.",
      m_dispatch_uring m);
    (bstr "ramjet_dispatch_hyper_total", bstr "Connections handed to the hyper engine because the client asked for HTTP/2.",
      m_dispatch_hyper m);
    (bstr "ramjet_upstream_connect_failures_total", bstr "Failures to connect to an upstream endpoint.",
      m_upstream_connect_failures m);
    (bstr "ramjet_upstream_retries_total", bstr "Requests re-dispatched to a different endpoint.",
      m_upstream_retries m);
    (bstr "ramjet_upstream_timeouts_total", bstr "Upstreams that did not send headers before the deadline.",
      m_upstream_timeouts m);
    (bstr "ramjet_route_misses_total", bstr "Requests that matched no route and no default backend.",
      m_route_misses m);
    (bstr "ramjet_h3_connections_total", bstr "HTTP/3 connections established on the QUIC listener.",
      m_h3_connections m);
    (bstr "ramjet_h3_requests_total", bstr "Requests that arrived over HTTP/3.",
      m_h3_requests m);
    (bstr "ramjet_h3_handshake_failures_total", bstr "QUIC connections that never became usable HTTP/3 connections.",
      m_h3_handshake_failures m);
    (bstr "ramjet_mirrored_total", bstr "Requests copied to a mirror backend, which accepted the copy.",
      m_mirrored m);
    (bstr "ramjet_mirror_dropped_total", bstr "Copies discarded because a serving runtime's mirror queue was full.",
      m_mirror_dropped m);
    (bstr "ramjet_mirror_skipped_total", bstr "Copies not attempted because the request body exceeded --mirror-max-body.",
      m_mirror_skipped m);
    (bstr "ramjet_mirror_failures_total", bstr "Copies a mirror backend refused, failed, or did not answer in time.",
      m_mirror_failures m);
    (bstr "ramjet_engine_unsupported_h2c_total", bstr "Requests refused because the backend needs an HTTP/2 upstream this engine does not dial.",
      m_unsupported_h2c m);
    (bstr "ramjet_engine_unsupported_grpc_total", bstr "gRPC requests refused because the backend is not annotated backend-protocol: GRPC.",
      m_unsupported_grpc m)].

(** ** The reactor engine *)

Record CoreMetrics := MkCoreMetrics {
  c_requests : list u64;
  c_buckets : list u64;
  c_sum_nanos : u64;
  c_latency_count : u64;
  c_active : Z;
  c_connect_failures : u64;
  c_retries : u64;
  c_timeouts : u64;
  c_route_misses : u64;
  c_tls_handshakes : u64;
  c_tls_handshake_failures : u64;
  c_dispatched_here : u64;
  c_dispatched_away : u64;
  c_unsupported_h2c : u64;
  c_unsupported_grpc : u64;
}.
Definition CoreMetrics_eta (c : CoreMetrics) : CoreMetrics :=
  MkCoreMetrics (c_requests c) (c_buckets c) (c_sum_nanos c) (c_latency_count c) (c_active c) (c_connect_failures c)
    (c_retries c) (c_timeouts c) (c_route_misses c) (c_tls_handshakes c) (c_tls_handshake_failures c)
    (c_dispatched_here c) (c_dispatched_away c) (c_unsupported_h2c c) (c_unsupported_grpc c).
#[export] Instance set_c_requests : Setter c_requests := ltac:(derive_setter CoreMetrics_eta).
#[export] Instance set_c_buckets : Setter c_buckets := ltac:(derive_setter CoreMetrics_eta).
#[export] Instance set_c_sum_nanos : Setter c_sum_nanos := ltac:(derive_setter CoreMetrics_eta).
#[export] Instance set_c_latency_count : Setter c_latency_count := ltac:(derive_setter CoreMetrics_eta).
#[export] Instance set_c_active : Setter c_active := ltac:(derive_setter CoreMetrics_eta).
#[export] Instance set_c_connect_failures : Setter c_connect_failures := ltac:(derive_setter CoreMetrics_eta).
#[export] Instance set_c_retries : Setter c_retries := ltac:(derive_setter CoreMetrics_eta).
#[export] Instance set_c_timeouts : Setter c_timeouts := ltac:(derive_setter CoreMetrics_eta).
#[export] Instance set_c_route_misses : Setter c_route_misses := ltac:(derive_setter CoreMetrics_eta).
#[export] Instance set_c_tls_handshakes : Setter c_tls_handshakes := ltac:(derive_setter CoreMetrics_eta).
#[export] Instance set_c_tls_handshake_failures : Setter c_tls_handshake_failures := ltac:(derive_setter CoreMetrics_eta).
#[export] Instance set_c_dispatched_here : Setter c_dispatched_here := ltac:(derive_setter CoreMetrics_eta).
#[export] Instance set_c_dispatched_away : Setter c_dispatched_away := ltac:(derive_setter CoreMetrics_eta).
#[export] Instance set_c_unsupported_h2c : Setter c_unsupported_h2c := ltac:(derive_setter CoreMetrics_eta).
#[export] Instance set_c_unsupported_grpc : Setter c_unsupported_grpc := ltac:(derive_setter CoreMetrics_eta).
Definition CoreMetrics_default : CoreMetrics :=
  MkCoreMetrics (replicate 6 0) (replicate 12 0) 0 0 0 0 0 0 0 0 0 0 0 0 0.

Definition core_response (status : u16) (c : CoreMetrics) : CoreMetrics :=
  c <| c_requests := alter (fun n => fetch_add n 1) (class_index status) (c_requests c) |>.
Definition core_upstream_latency (elapsed : Z) (c : CoreMetrics) : CoreMetrics :=
  let c :=
    match bucket_index elapsed with
    | Some i => c <| c_buckets := alter (fun n => fetch_add n 1) i (c_buckets c) |>
    | None => c
    end in
  let c := c <| c_sum_nanos := fetch_add (c_sum_nanos c) (if elapsed <=? u64_max then elapsed else u64_max) |> in
  c <| c_latency_count := fetch_add (c_latency_count c) 1 |>.
Definition core_connection_opened (c : CoreMetrics) : CoreMetrics := c <| c_active := wrap_i64 (c_active c + 1) |>.
Definition core_connection_closed (c : CoreMetrics) : CoreMetrics := c <| c_active := wrap_i64 (c_active c - 1) |>.
Definition core_connect_failure (c : CoreMetrics) : CoreMetrics := c <| c_connect_failures := fetch_add (c_connect_failures c) 1 |>.
Definition core_retry (c : CoreMetrics) : CoreMetrics := c <| c_retries := fetch_add (c_retries c) 1 |>.
Definition core_timeout (c : CoreMetrics) : CoreMetrics := c <| c_timeouts := fetch_add (c_timeouts c) 1 |>.
Definition core_route_miss (c : CoreMetrics) : CoreMetrics := c <| c_route_misses := fetch_add (c_route_misses c) 1 |>.
Definition core_tls_handshake (c : CoreMetrics) : CoreMetrics := c <| c_tls_handshakes := fetch_add (c_tls_handshakes c) 1 |>.
Definition core_tls_handshake_failure (c : CoreMetrics) : CoreMetrics := c <| c_tls_handshake_failures := fetch_add (c_tls_handshake_failures c) 1 |>.
Definition core_dispatched_here (c : CoreMetrics) : CoreMetrics := c <| c_dispatched_here := fetch_add (c_dispatched_here c) 1 |>.
Definition core_dispatched_away (c : CoreMetrics) : CoreMetrics := c <| c_dispatched_away := fetch_add (c_dispatched_away c) 1 |>.
Definition core_unsupported_h2c (c : CoreMetrics) : CoreMetrics := c <| c_unsupported_h2c := fetch_add (c_unsupported_h2c c) 1 |>.
Definition core_unsupported_grpc (c : CoreMetrics) : CoreMetrics := c <| c_unsupported_grpc := fetch_add (c_unsupported_grpc c) 1 |>.

Record EngineMetrics := MkEngineMetrics { em_cores : list CoreMetrics; em_peer : option Metrics }.
Definition EngineMetrics_new (cores : nat) : EngineMetrics :=
  MkEngineMetrics (replicate (Nat.max cores 1) CoreMetrics_default) None.
Definition with_peer (cores : nat) (peer : Metrics) : EngineMetrics :=
  MkEngineMetrics (em_cores (EngineMetrics_new cores)) (Some peer).
Definition peer_totals (em : EngineMetrics) : Totals :=
  match em_peer em with Some m => totals m | None => Totals_default end.

Definition sum (pick : CoreMetrics -> u64) (em : EngineMetrics) : u64 :=
  foldl (fun acc c => wrap64 (acc + pick c)) 0 (em_cores em).
Definition sum_i64 (pick : CoreMetrics -> Z) (em : EngineMetrics) : Z :=
  foldl (fun acc c => wrap_i64 (acc + pick c)) 0 (em_cores em).
Definition nth_count (i : nat) (l : list u64) : u64 := default 0 (l !! i).

Definition engine_active_connections (em : EngineMetrics) : Z := sum_i64 c_active em.
Definition engine_responses (class : str) (em : EngineMetrics) : u64 :=
  match position (fun c => bool_decide (c = class)) CLASSES with
  | Some i => sum (fun c => nth_count i (c_requests c)) em
  | None => 0
  end.

(** The loop over the bounds, from index [i]. *)
Fixpoint engine_bucket_lines (name : str) (value : nat -> u64) (i : nat) (cumulative : u64) (bounds : list str) : str :=
  match bounds with
  | [] => []
  | bound :: bounds =>
      let cumulative := wrap64 (cumulative + value i) in
      writeln (name ++ bstr "_bucket{le=" ++ quoted bound ++ bstr "} " ++ to_string cumulative) ++
      engine_bucket_lines name value (S i) cumulative bounds
  end.

Definition engine_render_prometheus (em : EngineMetrics) (generation : u64) (pinned : bool) : str :=
  let p := peer_totals em in
  let name := bstr "ramjet_upstream_latency_seconds" in
  let count := fetch_add (sum c_latency_count em) (t_latency_count p) in
  let nanos := fetch_add (sum c_sum_nanos em) (t_latency_nanos p) in
  writeln (bstr "# HELP ramjet_requests_total Responses served, by status class.") ++
  writeln (bstr "# TYPE ramjet_requests_total counter") ++
  class_lines (fun i => fetch_add (sum (fun c => nth_count i (c_requests c)) em) (nth_count i (t_requests p))) ++
  writeln (bstr "# HELP ramjet_upstream_latency_seconds Time from upstream dispatch to response headers.") ++
  writeln (bstr "# TYPE ramjet_upstream_latency_seconds histogram") ++
  engine_bucket_lines name
    (fun i => fetch_add (sum (fun c => nth_count i (c_buckets c)) em) (nth_count i (t_latency_buckets p))) 0 0 BUCKETS ++
  writeln (name ++ bstr "_bucket{le=" ++ quoted (bstr "+Inf") ++ bstr "} " ++ to_string count) ++
  writeln (name ++ bstr "_sum " ++ fixed 6 (f64_div (f64_of_u64 nanos) (f64_of_u64 1000000000))) ++
  writeln (name ++ bstr "_count " ++ to_string count) ++
  gauge (bstr "ramjet_active_connections") (bstr "Downstream connections currently being served.")
    (wrap_i64 (engine_active_connections em + t_active_connections p)) ++
  gauge (bstr "ramjet_route_table_generation") (bstr "Generation of the currently published route table.")
    (wrap_i64 generation) ++
  gauge (bstr "ramjet_pinned") (bstr "1 when a rollback is holding publication at a chosen generation.")
    (if pinned then 1 else 0) ++
  counter_lines [
    (bstr "ramjet_tls_handshakes_total", bstr "TLS handshakes completed.",
      fetch_add (sum c_tls_handshakes em) (t_tls_handshakes p));
    (bstr "ramjet_tls_handshake_failures_total", bstr "TLS handshakes that failed.",
      fetch_add (sum c_tls_handshake_failures em) (t_tls_handshake_failures p));
    (bstr "ramjet_dispatch_uring_total", bstr "Connections the uring engine kept after reading what the client offered.",
      fetch_add (sum c_dispatched_here em) (t_dispatch_uring p));
    (bstr "ramjet_dispatch_hyper_total", bstr "Connections handed to the hyper engine because the client asked for HTTP/2.",
      fetch_add (sum c_dispatched_away em) (t_dispatch_hyper p));
    (bstr "ramjet_upstream_connect_failures_total", bstr "Failures to connect to an upstream endpoint.",
      fetch_add (sum c_connect_failures em) (t_connect_failures p));
    (bstr "ramjet_upstream_retries_total", bstr "Requests re-dispatched to a different endpoint.",
      fetch_add (sum c_retries em) (t_retries p));
    (bstr "ramjet_upstream_timeouts_total", bstr "Upstreams that did not send headers before the deadline.",
      fetch_add (sum c_timeouts em) (t_timeouts p));
    (bstr "ramjet_route_misses_total", bstr "Requests that matched no route and no default backend.",
      fetch_add (sum c_route_misses em) (t_route_misses p));
    (bstr "ramjet_h3_connections_total", bstr "HTTP/3 connections established on the QUIC listener.",
      t_h3_connections p);
    (bstr "ramjet_h3_requests_total", bstr "Requests that arrived over HTTP/3.",
      t_h3_requests p);
    (bstr "ramjet_h3_handshake_failures_total", bstr "QUIC connections that never became usable HTTP/3 connections.",
      t_h3_handshake_failures p);
    (bstr "ramjet_mirrored_total", bstr "Requests copied to a mirror backend, which accepted the copy.",
      t_mirrored p);
    (bstr "ramjet_mirror_dropped_total", bstr "Copies discarded because a serving runtime's mirror queue was full.",
      t_mirror_dropped p);
    (bstr "ramjet_mirror_skipped_total", bstr "Copies not attempted because the request body exceeded --mirror-max-body.",
      t_mirror_skipped p);
    (bstr "ramjet_mirror_failures_total", bstr "Copies a mirror backend refused, failed, or did not answer in time.",
      t_mirror_failures p);
    (bstr "ramjet_engine_unsupported_h2c_total", bstr "Requests refused because the backend needs an HTTP/2 upstream this engine does not dial.",
      fetch_add (sum c_unsupported_h2c em) (t_unsupported_h2c p));
    (bstr "ramjet_engine_unsupported_grpc_total", bstr "gRPC requests refused because the backend is not annotated backend-protocol: GRPC.",
      fetch_add (sum c_unsupported_grpc em) (t_unsupported_grpc p))].

(** ** What happens, and who counts it *)

(** Everything that is counted: by both engines, by the tokio side of the
    process only, and, last, by the reactor engine only. *)
Inductive Event :=
| Ev_response (status : u16)
| Ev_latency (elapsed : Z)
| Ev_opened | Ev_closed | Ev_connect_failure | Ev_retry | Ev_timeout | Ev_route_miss | Ev_tls | Ev_tls_failure
| Ev_grpc
| Ev_h3_connection | Ev_h3_request | Ev_h3_failure | Ev_mirrored | Ev_mirror_dropped | Ev_mirror_skipped
| Ev_mirror_failure
| Ev_dispatched_here | Ev_dispatched_away | Ev_h2c.
#[export] Instance Event_eq_dec : EqDecision Event.
Proof. solve_decision. Defined.

(** The counters of [ramjet_proxy::Metrics]: nothing there counts the last
    three, which the hyper engine has no occasion for. *)
Definition hyper_step (e : Event) (m : Metrics) : Metrics :=
  match e with
  | Ev_response status => record_response status m
  | Ev_latency elapsed => record_upstream_latency elapsed m
  | Ev_opened => connection_opened m
  | Ev_closed => connection_dropped m
  | Ev_connect_failure => record_connect_failure m
  | Ev_retry => record_retry m
  | Ev_timeout => record_upstream_timeout m
  | Ev_route_miss => record_route_miss m
  | Ev_tls => record_tls_handshake m
  | Ev_tls_failure => record_tls_handshake_failure m
  | Ev_grpc => record_unsupported_grpc m
  | Ev_h3_connection => record_h3_connection m
  | Ev_h3_request => record_h3_request m
  | Ev_h3_failure => record_h3_handshake_failure m
  | Ev_mirrored => record_mirrored m
  | Ev_mirror_dropped => record_mirror_dropped m
  | Ev_mirror_skipped => record_mirror_skipped m
  | Ev_mirror_failure => record_mirror_failure m
  | Ev_dispatched_here | Ev_dispatched_away | Ev_h2c => m
  end.

Definition core_step (e : Event) (c : CoreMetrics) : option CoreMetrics :=
  match e with
  | Ev_response status => Some (core_response status c)
  | Ev_latency elapsed => Some (core_upstream_latency elapsed c)
  | Ev_opened => Some (core_connection_opened c)
  | Ev_closed => Some (core_connection_closed c)
  | Ev_connect_failure => Some (core_connect_failure c)
  | Ev_retry => Some (core_retry c)
  | Ev_timeout => Some (core_timeout c)
  | Ev_route_miss => Some (core_route_miss c)
  | Ev_tls => Some (core_tls_handshake c)
  | Ev_tls_failure => Some (core_tls_handshake_failure c)
  | Ev_grpc => Some (core_unsupported_grpc c)
  | Ev_dispatched_here => Some (core_dispatched_here c)
  | Ev_dispatched_away => Some (core_dispatched_away c)
  | Ev_h2c => Some (core_unsupported_h2c c)
  | _ => None
  end.

(** One event in a process that runs the reactor engine: on core [i], or on its
    tokio side. *)
Inductive engine_step : EngineMetrics -> Event -> EngineMetrics -> Prop :=
| on_core i c c' e cores peer :
    cores !! i = Some c -> core_step e c = Some c' ->
    engine_step (MkEngineMetrics cores peer) e (MkEngineMetrics (<[i := c']> cores) peer)
| on_peer m e cores :
    e ∉ [Ev_dispatched_here; Ev_dispatched_away; Ev_h2c] ->
    engine_step (MkEngineMetrics cores (Some m)) e (MkEngineMetrics cores (Some (hyper_step e m))).
Inductive engine_run : EngineMetrics -> list Event -> EngineMetrics -> Prop :=
| run_nil em : engine_run em [] em
| run_cons em e em' es em'' : engine_step em e em' -> engine_run em' es em'' -> engine_run em (e :: es) em''.

(** What an event adds to the page of such a process. *)
Definition page_step (e : Event) (m : Metrics) : Metrics :=
  match e with
  | Ev_dispatched_here => m <| m_dispatch_uring := fetch_add (m_dispatch_uring m) 1 |>
  | Ev_dispatched_away => m <| m_dispatch_hyper := fetch_add (m_dispatch_hyper m) 1 |>
  | Ev_h2c => m <| m_unsupported_h2c := fetch_add (m_unsupported_h2c m) 1 |>
  | _ => hyper_step e m
  end.

(** The page of the hyper engine, but for the three series it never counts. *)
Definition count (e : Event) (es : list Event) : Z := Z.of_nat (length (filter (fun e' => e' = e) es)).
Definition with_engine_only (here away h2c : Z) (m : Metrics) : Metrics :=
  m <| m_dispatch_uring := wrap64 here |> <| m_dispatch_hyper := wrap64 away |> <| m_unsupported_h2c := wrap64 h2c |>.

(** The sum of the two sides, series by series. *)
Definition merged (em : EngineMetrics) : Totals :=
  let p := peer_totals em in {|
  t_requests := map (fun i => fetch_add (sum (fun c => nth_count i (c_requests c)) em) (nth_count i (t_requests p))) (seq 0 6);
  t_latency_buckets := map (fun i => fetch_add (sum (fun c => nth_count i (c_buckets c)) em) (nth_count i (t_latency_buckets p))) (seq 0 12);
  t_latency_nanos := fetch_add (sum c_sum_nanos em) (t_latency_nanos p);
  t_latency_count := fetch_add (sum c_latency_count em) (t_latency_count p);
  t_active_connections := wrap_i64 (engine_active_connections em + t_active_connections p);
  t_tls_handshakes := fetch_add (sum c_tls_handshakes em) (t_tls_handshakes p);
  t_tls_handshake_failures := fetch_add (sum c_tls_handshake_failures em) (t_tls_handshake_failures p);
  t_dispatch_uring := fetch_add (sum c_dispatched_here em) (t_dispatch_uring p);
  t_dispatch_hyper := fetch_add (sum c_dispatched_away em) (t_dispatch_hyper p);
  t_connect_failures := fetch_add (sum c_connect_failures em) (t_connect_failures p);
  t_retries := fetch_add (sum c_retries em) (t_retries p);
  t_timeouts := fetch_add (sum c_timeouts em) (t_timeouts p);
  t_route_misses := fetch_add (sum c_route_misses em) (t_route_misses p);
  t_h3_connections := t_h3_connections p;
  t_h3_requests := t_h3_requests p;
  t_h3_handshake_failures := t_h3_handshake_failures p;
  t_mirrored := t_mirrored p;
  t_mirror_dropped := t_mirror_dropped p;
  t_mirror_skipped := t_mirror_skipped p;
  t_mirror_failures := t_mirror_failures p;
  t_unsupported_h2c := fetch_add (sum c_unsupported_h2c em) (t_unsupported_h2c p);
  t_unsupported_grpc := fetch_add (sum c_unsupported_grpc em) (t_unsupported_grpc p) |}.

(** The counters of the hyper engine from their totals. *)
Definition of_totals (t : Totals) : Metrics :=
  MkMetrics (t_requests t) (MkHistogram (t_latency_buckets t) (t_latency_nanos t) (t_latency_count t))
    (t_active_connections t) (t_tls_handshakes t) (t_tls_handshake_failures t) (t_dispatch_uring t)
    (t_dispatch_hyper t) (t_connect_failures t) (t_retries t) (t_timeouts t) (t_route_misses t) (t_mirrored t)
    (t_mirror_dropped t) (t_mirror_skipped t) (t_mirror_failures t) (t_h3_connections t) (t_h3_requests t)
    (t_h3_handshake_failures t) (t_unsupported_h2c t) (t_unsupported_grpc t).

Lemma of_totals_totals m : of_totals (totals m) = m.
Proof. by destruct m as [? []]. Qed.
Lemma totals_of_totals t : totals (of_totals t) = t.
Proof. by destruct t. Qed.

(** ** One formatter, written twice *)

Lemma bucket_lines_alike name value bounds i cumulative :
  cumulative_lines name cumulative bounds (map value (seq i (length bounds))) =
  engine_bucket_lines name value i cumulative bounds.
Proof.
  revert i cumulative. induction bounds as [|b bounds IH]; intros i cumulative; [done|].
  cbn [cumulative_lines engine_bucket_lines length seq map hd tl]. cbv zeta. by rewrite IH.
Qed.

Lemma class_lines_alike value : class_lines (fun i => default 0 (map value (seq 0 6) !! i)) = class_lines value.
Proof. reflexivity. Qed.

Lemma engine_render_merged em generation pinned :
  engine_render_prometheus em generation pinned = render_prometheus (of_totals (merged em)) generation pinned.
Proof.
  unfold engine_render_prometheus, render_prometheus, histogram_render. cbv zeta.
  cbn [of_totals merged m_requests m_upstream_latency m_active_connections m_tls_handshakes m_tls_handshake_failures
    m_dispatch_uring m_dispatch_hyper m_upstream_connect_failures m_upstream_retries m_upstream_timeouts
    m_route_misses m_mirrored m_mirror_dropped m_mirror_skipped m_mirror_failures m_h3_connections m_h3_requests
    m_h3_handshake_failures m_unsupported_h2c m_unsupported_grpc h_buckets h_sum_nanos h_count
    t_requests t_latency_buckets t_latency_nanos t_latency_count t_active_connections t_tls_handshakes
    t_tls_handshake_failures t_dispatch_uring t_dispatch_hyper t_connect_failures t_retries t_timeouts
    t_route_misses t_h3_connections t_h3_requests t_h3_handshake_failures t_mirrored t_mirror_dropped
    t_mirror_skipped t_mirror_failures t_unsupported_h2c t_unsupported_grpc].
  rewrite class_lines_alike. change 12%nat with (length BUCKETS). rewrite bucket_lines_alike.
  by rewrite <- !(assoc_L (++)).
Qed.

(** ** Sums over the cores, modulo the width *)

Definition zsum {A} (pick : A -> Z) (l : list A) : Z := foldr (fun c acc => pick c + acc) 0 l.

Lemma zsum_insert {A} (pick : A -> Z) l i c c' :
  l !! i = Some c -> zsum pick (<[i := c']> l) = zsum pick l + (pick c' - pick c).
Proof.
  revert i. induction l as [|x l IH]; intros [|i] H; simplify_eq/=; [lia|]. rewrite (IH i H). lia.
Qed.

Lemma wrap_i64_eqm x : eqm 64 (wrap_i64 x) x.
Proof.
  unfold wrap_i64, wrap64. setoid_rewrite (wrap_eqm 64 (x + 2 ^ 63)) at 1. by replace (x + 2 ^ 63 - 2 ^ 63) with x by lia.
Qed.
#[export] Instance wrap_i64_proper : Proper (eqm 64 ==> eq) wrap_i64.
Proof. intros x y H. unfold wrap_i64, wrap64. by rewrite H. Qed.
#[export] Instance fetch_add_proper : Proper (eqm 64 ==> eqm 64 ==> eq) fetch_add.
Proof. intros x y H x' y' H'. unfold fetch_add, wrap64. by rewrite H, H'. Qed.
Lemma fetch_add_eqm x y : eqm 64 (fetch_add x y) (x + y).
Proof. apply wrap_eqm. Qed.

Lemma foldl_zsum {A} (f : Z -> Z) (pick : A -> Z) l a :
  (forall x, eqm 64 (f x) x) -> eqm 64 (foldl (fun acc c => f (acc + pick c)) a l) (a + zsum pick l).
Proof.
  intros Hf. revert a. induction l as [|c l IH]; intros a; simpl; [by rewrite Z.add_0_r|].
  rewrite IH, Hf. by replace (a + pick c + zsum pick l) with (a + (pick c + zsum pick l)) by lia.
Qed.
Lemma sum_eqm pick em : eqm 64 (sum pick em) (zsum pick (em_cores em)).
Proof. unfold sum. by rewrite (foldl_zsum wrap64 pick _ 0 (wrap_eqm 64)). Qed.
Lemma sum_i64_eqm pick em : eqm 64 (sum_i64 pick em) (zsum pick (em_cores em)).
Proof. unfold sum_i64. by rewrite (foldl_zsum wrap_i64 pick _ 0 wrap_i64_eqm). Qed.

Section one_core.
Context (cores : list CoreMetrics) (peer : option Metrics) (i : nat) (c c' : CoreMetrics).
Hypothesis Hc : cores !! i = Some c.

(** A core's count grew by [d], and with it what the page shows. *)
Lemma sum_step pick d p :
  eqm 64 (pick c') (pick c + d) ->
  fetch_add (sum pick (MkEngineMetrics (<[i := c']> cores) peer)) p =
  fetch_add (fetch_add (sum pick (MkEngineMetrics cores peer)) p) d.
Proof.
  intros Hd. apply (eqm_elim 64). rewrite fetch_add_eqm, !sum_eqm. cbn [em_cores].
  rewrite (zsum_insert pick cores i c c' Hc), Hd.
  by replace (zsum pick cores + (pick c + d - pick c) + p) with (zsum pick cores + p + d) by lia.
Qed.
Lemma sum_i64_step pick d p :
  eqm 64 (pick c') (pick c + d) ->
  wrap_i64 (sum_i64 pick (MkEngineMetrics (<[i := c']> cores) peer) + p) =
  wrap_i64 (wrap_i64 (sum_i64 pick (MkEngineMetrics cores peer) + p) + d).
Proof.
  intros Hd. apply wrap_i64_proper. rewrite wrap_i64_eqm, !sum_i64_eqm. cbn [em_cores].
  rewrite (zsum_insert pick cores i c c' Hc), Hd.
  by replace (zsum pick cores + (pick c + d - pick c) + p) with (zsum pick cores + p + d) by lia.
Qed.
(** A count the step leaves alone. *)
Lemma sum_same pick p :
  pick c' = pick c ->
  fetch_add (sum pick (MkEngineMetrics (<[i := c']> cores) peer)) p = fetch_add (sum pick (MkEngineMetrics cores peer)) p.
Proof.
  intros Hd. rewrite !sum_eqm. cbn [em_cores]. rewrite (zsum_insert pick cores i c c' Hc), Hd.
  by replace (zsum pick cores + (pick c - pick c)) with (zsum pick cores) by lia.
Qed.
Lemma sum_i64_same pick p :
  pick c' = pick c ->
  wrap_i64 (sum_i64 pick (MkEngineMetrics (<[i := c']> cores) peer) + p) =
  wrap_i64 (sum_i64 pick (MkEngineMetrics cores peer) + p).
Proof.
  intros Hd. rewrite !sum_i64_eqm. cbn [em_cores]. rewrite (zsum_insert pick cores i c c' Hc), Hd.
  by replace (zsum pick cores + (pick c - pick c)) with (zsum pick cores) by lia.
Qed.

(** An array of counts, one of which grew by one. *)
Lemma array_step (pick : CoreMetrics -> list u64) (p : list u64) n j :
  length (pick c) = n -> pick c' = alter (fun x => fetch_add x 1) j (pick c) ->
  map (fun k => fetch_add (sum (fun c => nth_count k (pick c)) (MkEngineMetrics (<[i := c']> cores) peer)) (nth_count k p)) (seq 0 n) =
  alter (fun x => fetch_add x 1) j
    (map (fun k => fetch_add (sum (fun c => nth_count k (pick c)) (MkEngineMetrics cores peer)) (nth_count k p)) (seq 0 n)).
Proof.
  intros Hn Hp. apply list_eq. intros k. destruct (decide (j = k)) as [<-|Hne].
  - rewrite list_lookup_alter_eq. rewrite !list_lookup_fmap. destruct (decide (j < n)%nat) as [Hj|Hj].
    + rewrite !lookup_seq_lt by done. cbn [fmap option_fmap option_map]. f_equal. apply sum_step. rewrite Hp.
      change (0 + j)%nat with j. unfold nth_count. rewrite list_lookup_alter_eq.
      destruct (lookup_lt_is_Some_2 (pick c) j) as [x Hx]; [lia|]. rewrite Hx. cbn. apply fetch_add_eqm.
    + by rewrite !lookup_seq_ge by lia.
  - rewrite list_lookup_alter_ne by done. rewrite !list_lookup_fmap. destruct (seq 0 n !! k) as [k'|] eqn:E; [|done].
    apply lookup_seq in E as [-> _]. cbn [fmap option_fmap option_map]. f_equal. apply sum_same. rewrite Hp.
    unfold nth_count. by rewrite list_lookup_alter_ne.
Qed.
Lemma array_same (pick : CoreMetrics -> list u64) (p : list u64) n :
  pick c' = pick c ->
  map (fun k => fetch_add (sum (fun c => nth_count k (pick c)) (MkEngineMetrics (<[i := c']> cores) peer)) (nth_count k p)) (seq 0 n) =
  map (fun k => fetch_add (sum (fun c => nth_count k (pick c)) (MkEngineMetrics cores peer)) (nth_count k p)) (seq 0 n).
Proof. intros Hp. apply map_ext. intros k. apply sum_same. by rewrite Hp. Qed.
End one_core.

(** ** The two engines, step by step *)

(** The arrays of a core and of the peer have the lengths they are declared
    with. *)
Definition core_shaped (c : CoreMetrics) : Prop := length (c_requests c) = 6%nat /\ length (c_buckets c) = 12%nat.
Definition peer_shaped (m : Metrics) : Prop :=
  length (m_requests m) = 6%nat /\ length (h_buckets (m_upstream_latency m)) = 12%nat.
Definition shaped (em : EngineMetrics) : Prop :=
  Forall core_shaped (em_cores em) /\ (forall m, em_peer em = Some m -> peer_shaped m).

Lemma core_step_shaped e c c' : core_shaped c -> core_step e c = Some c' -> core_shaped c'.
Proof.
  intros [H1 H2] H. destruct e; try discriminate H; injection H as <-; split; cbn -[alter]; rewrite ?length_alter; try done.
  all: destruct (bucket_index elapsed); cbn -[alter]; by rewrite ?length_alter.
Qed.
Lemma hyper_step_shaped e m : peer_shaped m -> peer_shaped (hyper_step e m).
Proof.
  intros [H1 H2]. destruct e; split; cbn -[alter]; rewrite ?length_alter; try done.
  destruct (bucket_index elapsed); cbn -[alter]; by rewrite ?length_alter.
Qed.
Lemma engine_step_shaped em e em' : engine_step em e em' -> shaped em -> shaped em'.
Proof.
  intros [i c c' f cores peer Hc Hs|m f cores Hown] [H1 H2]; split; cbn [em_cores em_peer] in *.
  - apply Forall_insert; [done|]. apply (core_step_shaped f c c'); [by eapply Forall_lookup_1|done].
  - done.
  - done.
  - intros ? [= <-]. by apply hyper_step_shaped, H2.
Qed.

(** Counting on one core shows on the page as counting on the hyper engine. *)
Ltac series Hc Hr Hb :=
  first
  [ reflexivity
  | refine (sum_same _ _ _ _ _ Hc _ _ _); reflexivity
  | refine (array_same _ _ _ _ _ Hc _ _ _ _); reflexivity
  | refine (sum_i64_same _ _ _ _ _ Hc _ _ _); reflexivity
  | refine (sum_step _ _ _ _ _ Hc _ _ _ _); apply fetch_add_eqm
  | refine (sum_i64_step _ _ _ _ _ Hc _ _ _ _); apply wrap_i64_eqm
  | refine (array_step _ _ _ _ _ Hc _ _ _ _ Hr _); reflexivity
  | refine (array_step _ _ _ _ _ Hc _ _ _ _ Hb _); reflexivity ].

Lemma merged_core cores peer i c c' e :
  cores !! i = Some c -> core_shaped c -> core_step e c = Some c' ->
  merged (MkEngineMetrics (<[i := c']> cores) peer) =
  totals (page_step e (of_totals (merged (MkEngineMetrics cores peer)))).
Proof.
  intros Hc [Hr Hb] Hs. destruct e; try discriminate Hs; injection Hs as <-.
  2: { assert (Hm : (if elapsed <=? u64_max then elapsed else u64_max) = Z.min elapsed u64_max) by (case_match; lia).
    unfold core_upstream_latency, page_step, hyper_step, record_upstream_latency, observe. rewrite Hm. clear Hm.
    destruct (bucket_index elapsed); unfold merged at 1, totals, engine_active_connections; cbv zeta; f_equal;
      series Hc Hr Hb. }
  all: unfold merged at 1, totals, engine_active_connections; cbv zeta; f_equal; series Hc Hr Hb.
Qed.

Lemma nth_count_alter f j k (l : list u64) :
  (j < length l)%nat -> nth_count k (alter f j l) = if decide (j = k) then f (nth_count k l) else nth_count k l.
Proof.
  intros Hj. unfold nth_count. destruct (decide (j = k)) as [<-|Hne].
  - rewrite list_lookup_alter_eq. by destruct (lookup_lt_is_Some_2 l j Hj) as [x ->].
  - by rewrite list_lookup_alter_ne.
Qed.

Lemma array_peer (s : nat -> Z) (l : list u64) j :
  map (fun k => fetch_add (s k) (nth_count k (alter (fun x => fetch_add x 1) j l))) (seq 0 (length l)) =
  alter (fun x => fetch_add x 1) j (map (fun k => fetch_add (s k) (nth_count k l)) (seq 0 (length l))).
Proof.
  apply list_eq. intros k. destruct (decide (j = k)) as [<-|Hne].
  - rewrite list_lookup_alter_eq, !list_lookup_fmap. destruct (decide (j < length l)%nat) as [Hj|Hj].
    + rewrite !lookup_seq_lt by done. cbn [fmap option_fmap option_map]. f_equal.
      rewrite nth_count_alter, decide_True by done. change (0 + j)%nat with j. apply (eqm_elim 64).
      rewrite !fetch_add_eqm. by rewrite Z.add_assoc.
    + by rewrite !lookup_seq_ge by lia.
  - rewrite list_lookup_alter_ne, !list_lookup_fmap by done. destruct (seq 0 (length l) !! k) as [k'|] eqn:E; [|done].
    apply lookup_seq in E as [-> Hk]. cbn [fmap option_fmap option_map]. f_equal. f_equal. unfold nth_count.
    by rewrite list_lookup_alter_ne.
Qed.

Lemma peer_count s p d : fetch_add s (fetch_add p d) = fetch_add (fetch_add s p) d.
Proof. apply (eqm_elim 64). rewrite !fetch_add_eqm. by rewrite Z.add_assoc. Qed.
Lemma peer_gauge s p d : wrap_i64 (s + wrap_i64 (p + d)) = wrap_i64 (wrap_i64 (s + p) + d).
Proof. apply wrap_i64_proper. rewrite !wrap_i64_eqm. by rewrite Z.add_assoc. Qed.

Lemma merged_peer cores m e :
  peer_shaped m -> e ∉ [Ev_dispatched_here; Ev_dispatched_away; Ev_h2c] ->
  merged (MkEngineMetrics cores (Some (hyper_step e m))) =
  totals (page_step e (of_totals (merged (MkEngineMetrics cores (Some m))))).
Proof.
  intros [Hr Hb] Hown.
  assert (Hl : forall pick e', sum pick (MkEngineMetrics cores (Some (hyper_step e' m))) = sum pick (MkEngineMetrics cores (Some m))) by done.
  destruct e; try (exfalso; apply Hown; set_solver).
  2: { unfold page_step, hyper_step, record_upstream_latency, observe.
    destruct (bucket_index elapsed); unfold merged at 1, totals, engine_active_connections; cbv zeta; f_equal;
      first [reflexivity|refine (peer_count _ _ _)|idtac].
    cbn -[alter sum seq]. rewrite <- Hb. apply array_peer. }
  all: unfold merged at 1, totals, engine_active_connections; cbv zeta; f_equal;
    first [reflexivity|refine (peer_count _ _ _)|refine (peer_gauge _ _ _)|idtac].
  cbn -[alter sum seq]. rewrite <- Hr. apply array_peer.
Qed.

Lemma engine_step_merged em e em' :
  shaped em -> engine_step em e em' -> merged em' = totals (page_step e (of_totals (merged em))).
Proof.
  intros [Hf Hp] Hs. destruct Hs as [i c c' f cores peer Hc Hs|m f cores Hown].
  - apply (merged_core cores peer i c); [done|by eapply Forall_lookup_1|done].
  - apply merged_peer; [by apply Hp|done].
Qed.

Lemma engine_run_merged em es em' :
  shaped em -> engine_run em es em' -> merged em' = totals (foldl (fun m e => page_step e m) (of_totals (merged em)) es).
Proof.
  intros Hw H. induction H as [em|em e em1 es em2 H1 H2 IH]; [by cbn [foldl]; rewrite totals_of_totals|].
  rewrite IH by (by eapply engine_step_shaped). cbn [foldl]. by rewrite (engine_step_merged em e em1 Hw H1), of_totals_totals.
Qed.

Lemma sum_zero pick n peer :
  pick CoreMetrics_default = 0 -> sum pick (MkEngineMetrics (replicate n CoreMetrics_default) peer) = 0.
Proof. intros Hp. unfold sum. cbn [em_cores]. induction n as [|n IH]; [done|]. cbn [replicate foldl]. by rewrite Hp. Qed.

Lemma nth_count_zero k n : nth_count k (replicate n 0) = 0.
Proof. unfold nth_count. destruct (replicate n 0 !! k) eqn:E; [|done]. by apply lookup_replicate in E as [-> _]. Qed.

(** A process that starts shows what a hyper engine that starts shows. *)
Lemma merged_new cores peer :
  peer = None \/ peer = Some Metrics_new ->
  merged (MkEngineMetrics (replicate cores CoreMetrics_default) peer) = totals Metrics_new.
Proof.
  intros Hpeer. set (em := MkEngineMetrics _ _).
  assert (Hp : peer_totals em = Totals_default) by (by destruct Hpeer as [-> | ->]).
  assert (Hi : sum_i64 c_active em = 0).
  { unfold sum_i64, em. cbn [em_cores]. clear. induction cores as [|n IH]; [done|]. exact IH. }
  unfold merged. rewrite Hp. unfold engine_active_connections. rewrite Hi.
  assert (Hs : forall pick, pick CoreMetrics_default = 0 -> sum pick em = 0) by (intros; by apply sum_zero).
  rewrite (Hs c_sum_nanos), (Hs c_latency_count), (Hs c_tls_handshakes), (Hs c_tls_handshake_failures),
    (Hs c_dispatched_here), (Hs c_dispatched_away), (Hs c_connect_failures), (Hs c_retries), (Hs c_timeouts),
    (Hs c_route_misses), (Hs c_unsupported_h2c), (Hs c_unsupported_grpc) by reflexivity.
  assert (Ha : forall (pick : CoreMetrics -> list u64) n d, pick CoreMetrics_default = replicate n 0 ->
    map (fun i => fetch_add (sum (fun c => nth_count i (pick c)) em) (nth_count i (replicate n 0))) (seq d n) = replicate n 0).
  { intros pick n d Hpick. apply list_eq. intros k. rewrite list_lookup_fmap. destruct (decide (k < n)%nat) as [Hk|Hk].
    - rewrite lookup_seq_lt, lookup_replicate_2 by done. cbn [fmap option_fmap option_map]. f_equal.
      rewrite (Hs (fun c => nth_count (d + k) (pick c))) by (by rewrite Hpick, nth_count_zero). by rewrite nth_count_zero.
    - rewrite lookup_seq_ge by lia. symmetry. apply lookup_ge_None. rewrite length_replicate. lia. }
  change (t_requests Totals_default) with (replicate 6 0). change (t_latency_buckets Totals_default) with (replicate 12 0).
  by rewrite (Ha c_requests 6%nat), (Ha c_buckets 12%nat).
Qed.

Lemma page_only e here away h2c m :
  page_step e (with_engine_only here away h2c m) =
  with_engine_only (here + count Ev_dispatched_here [e]) (away + count Ev_dispatched_away [e]) (h2c + count Ev_h2c [e])
    (hyper_step e m).
Proof.
  assert (Hadd : forall n, fetch_add (wrap64 n) 1 = wrap64 (n + 1)) by (intros n; apply Zplus_mod_idemp_l).
  destruct e; unfold with_engine_only, count; cbn [filter list_filter];
    repeat (destruct (decide _) as [?|?]; try done); cbn [length Z.of_nat]; rewrite ?Z.add_0_r; try reflexivity.
  all: cbn [page_step hyper_step]; change (Z.of_nat 1) with 1; rewrite <- Hadd; reflexivity.
Qed.
Lemma page_apart es here away h2c m :
  foldl (fun m e => page_step e m) (with_engine_only here away h2c m) es =
  with_engine_only (here + count Ev_dispatched_here es) (away + count Ev_dispatched_away es) (h2c + count Ev_h2c es)
    (foldl (fun m e => hyper_step e m) m es).
Proof.
  revert here away h2c m. induction es as [|e es IH]; intros here away h2c m.
  { unfold count. cbn. by rewrite !Z.add_0_r. }
  cbn [foldl]. rewrite page_only, IH. assert (Hc : forall x, count x (e :: es) = count x [e] + count x es).
  { intros x. unfold count. rewrite (filter_app _ [e] es : filter _ (e :: es) = _), length_app. lia. }
  by rewrite !Hc, !Z.add_assoc.
Qed.


Definition demo_events : list Event :=
  [Ev_opened; Ev_response 200; Ev_latency 4000000; Ev_mirrored; Ev_response 503; Ev_closed; Ev_dispatched_here].
Definition demo_core : CoreMetrics :=
  core_dispatched_here (core_connection_closed (core_upstream_latency 4000000 (core_connection_opened CoreMetrics_default))).
Definition demo_engine : EngineMetrics :=
  MkEngineMetrics [demo_core; core_response 200 CoreMetrics_default]
    (Some (record_response 503 (record_mirrored Metrics_new))).

