(* ===== verification/Scrape.v ===== *)
(** What the dashboard reads from a metrics page:
    [crates/ramjet-top/src/prom.rs].

    [scrape_reads_page] composes it with the page of [Metrics]: the numbers
    that reach the screen are the numbers the data plane counted. *)

From Stdlib Require Import SpecFloat.
From S2P Require Import Prelude NetText F64 Metrics.

Record MetricsSnapshot := MkMetricsSnapshot {
  ms_requests_total : u64;
  ms_errors_5xx_total : u64;
  ms_active_connections : option Z;
  ms_generation : option u64;
  ms_latency_sum_seconds : f64;
  ms_latency_count : u64;
  ms_pinned : option u64;
}.
Definition MetricsSnapshot_eta (s : MetricsSnapshot) : MetricsSnapshot :=
  MkMetricsSnapshot (ms_requests_total s) (ms_errors_5xx_total s) (ms_active_connections s) (ms_generation s)
    (ms_latency_sum_seconds s) (ms_latency_count s) (ms_pinned s).
#[export] Instance set_ms_requests_total : Setter ms_requests_total := ltac:(derive_setter MetricsSnapshot_eta).
#[export] Instance set_ms_errors_5xx_total : Setter ms_errors_5xx_total := ltac:(derive_setter MetricsSnapshot_eta).
#[export] Instance set_ms_active_connections : Setter ms_active_connections := ltac:(derive_setter MetricsSnapshot_eta).
#[export] Instance set_ms_generation : Setter ms_generation := ltac:(derive_setter MetricsSnapshot_eta).
#[export] Instance set_ms_latency_sum_seconds : Setter ms_latency_sum_seconds := ltac:(derive_setter MetricsSnapshot_eta).
#[export] Instance set_ms_latency_count : Setter ms_latency_count := ltac:(derive_setter MetricsSnapshot_eta).
#[export] Instance set_ms_pinned : Setter ms_pinned := ltac:(derive_setter MetricsSnapshot_eta).
Definition MetricsSnapshot_default : MetricsSnapshot := MkMetricsSnapshot 0 0 None None (S754_zero false) 0 None.

Definition lifetime_mean_latency_ms (s : MetricsSnapshot) : option f64 :=
  if 0 <? ms_latency_count s
  then Some (f64_div (f64_mul (ms_latency_sum_seconds s) (f64_of_u64 1000)) (f64_of_u64 (ms_latency_count s)))
  else None.

(** ** Text *)

(** [str::lines]. *)
Fixpoint lines (s : str) : list str :=
  match s with
  | [] => []
  | b :: s' =>
      if b =? LF then [] :: lines s'
      else
        match s' with
        | [] => [[b]]
        | c :: s'' =>
            if (b =? CR) && (c =? LF) then [] :: lines s''
            else match lines s' with [] => [[b]] | l :: rest => (b :: l) :: rest end
        end
  end.

(** [split_whitespace().next()]. *)
Fixpoint take_word (s : str) : str :=
  match s with
  | [] => []
  | b0 :: s' =>
      if ascii_space b0 then []
      else
        match s' with
        | b1 :: s'' =>
            if space2 b0 b1 then []
            else match s'' with b2 :: _ => if space3 b0 b1 b2 then [] else b0 :: take_word s' | [] => b0 :: take_word s' end
        | [] => [b0]
        end
  end.
Definition first_word (s : str) : option str :=
  match trim_start s with [] => None | t => Some (take_word t) end.

Definition trim_matches (c : u8) (s : str) : str :=
  rev (drop_while (fun b => b =? c) (rev (drop_while (fun b => b =? c) s))).

(** ** The scanner *)

Record Sample := MkSample { sample_name : str; sample_labels : str; sample_value : f64 }.

Definition split_sample (line : str) : option Sample :=
  let line := str_trim line in
  if bool_decide (line = []) || starts_with [chr "#"] line then None
  else
    '(name, labels, rest) ←
      match split_once (chr "{") line with
      | Some (name, after) => '(labels, rest) ← split_once (chr "}") after; Some (name, labels, rest)
      | None => '(name, rest) ← split_once SP line; Some (name, [], rest)
      end;
    word ← first_word rest;
    value ← parse_f64 word;
    Some (MkSample (str_trim name) labels value).

Fixpoint find_map {A B} (f : A -> option B) (l : list A) : option B :=
  match l with
  | [] => None
  | x :: l => match f x with Some y => Some y | None => find_map f l end
  end.

Definition label (labels key : str) : option str :=
  find_map (fun pair =>
    '(name, value) ← split_once (chr "=") pair;
    if bool_decide (str_trim name = key) then Some (trim_matches 34 (str_trim value)) else None)
    (split_on (chr ",") labels).

Definition as_counter (value : f64) : u64 :=
  if f64_is_finite value && f64_gt value (S754_zero false) then f64_to_u64 value else 0.

Definition add_sample (x : Sample) (s : MetricsSnapshot) : MetricsSnapshot :=
  let name := sample_name x in
  let v := sample_value x in
  if bool_decide (name = bstr "ramjet_requests_total") then
    let class := default [] (label (sample_labels x) (bstr "code")) in
    let count := as_counter v in
    let s := s <| ms_requests_total := sat_add u64_max (ms_requests_total s) count |> in
    if bool_decide (class = bstr "5xx")
    then s <| ms_errors_5xx_total := sat_add u64_max (ms_errors_5xx_total s) count |> else s
  else if bool_decide (name = bstr "ramjet_active_connections") && f64_is_finite v then
    s <| ms_active_connections := Some (f64_to_i64 v) |>
  else if bool_decide (name = bstr "ramjet_route_table_generation") then
    s <| ms_generation := Some (as_counter v) |>
  else if bool_decide (name = bstr "ramjet_upstream_latency_seconds_sum") &&
          (f64_is_finite v && f64_ge v (S754_zero false)) then
    s <| ms_latency_sum_seconds := v |>
  else if bool_decide (name = bstr "ramjet_upstream_latency_seconds_count") then
    s <| ms_latency_count := as_counter v |>
  else if bool_decide (name = bstr "ramjet_pinned") then
    let generation := as_counter v in
    s <| ms_pinned := (if 0 <? generation then Some generation else None) |>
  else s.

Definition scan_line (s : MetricsSnapshot) (line : str) : MetricsSnapshot :=
  match split_sample line with Some x => add_sample x s | None => s end.

Definition parse (text : str) : MetricsSnapshot := foldl scan_line MetricsSnapshot_default (lines text).

Example scanned :
  parse (bstr "# HELP x
ramjet_requests_total{code=2xx} 3 1700000000
ramjet_requests_total{ code = 5xx ,a=b} 1e1
ramjet_active_connections -2
junk
ramjet_pinned 41") =
  MkMetricsSnapshot 13 10 (Some (-2)) None (S754_zero false) 0 (Some 41).
Proof. vm_compute. reflexivity. Qed.

(** ** Lines that come from a page *)

(** A printable line, which no cut of the text can split. *)
Definition printable (b : u8) : Prop := 32 <= b < 127.
Definition feed (s : MetricsSnapshot) (text : str) : MetricsSnapshot := foldl scan_line s (lines text).

Lemma lines_writeln l rest : Forall printable l -> lines (writeln l ++ rest) = l :: lines rest.
Proof.
  unfold writeln. induction 1 as [|b l Hb Hl IH]; [done|]. unfold printable in Hb.
  cbn [app lines]. replace (b =? LF) with false by (unfold LF; lia).
  rewrite <- app_assoc in *. destruct (l ++ [LF] ++ rest) as [|c s] eqn:E; [by destruct l|].
  replace (b =? CR) with false by (unfold CR; lia). cbn [andb]. by rewrite IH.
Qed.

Lemma feed_writeln s l rest : Forall printable l -> feed s (writeln l ++ rest) = feed (scan_line s l) rest.
Proof. intros Hl. unfold feed. by rewrite lines_writeln. Qed.

Lemma plain_printable l : Forall plain l -> Forall printable l.
Proof. intros H. eapply Forall_impl; [exact H|]. unfold plain, printable. simpl. lia. Qed.

Lemma trim_end_rev_plain c q : plain c -> trim_end_rev (c :: q) = c :: q.
Proof.
  unfold plain. intros Hc. cbn [trim_end_rev]. replace (ascii_space c) with false by (unfold ascii_space; lia).
  destruct q as [|b q]; [done|]. replace (space2 b c) with false by (unfold space2; lia).
  destruct q as [|b' q]; [done|]. by replace (space3 b' b c) with false by (unfold space3; lia).
Qed.

(** Nothing is trimmed from a text with visible ends. *)
Lemma str_trim_ends b m c : plain b -> plain c -> str_trim (b :: m ++ [c]) = b :: m ++ [c].
Proof.
  intros Hb Hc. unfold str_trim. rewrite trim_start_plain by done. cbn [rev].
  rewrite rev_app_distr. cbn [rev app]. rewrite trim_end_rev_plain by done. cbn [rev].
  by rewrite rev_app_distr, rev_involutive.
Qed.

Lemma str_trim_between p q m : p <> [] -> q <> [] -> Forall plain p -> Forall plain q -> str_trim (p ++ m ++ q) = p ++ m ++ q.
Proof.
  intros Hp Hq Fp Fq. destruct p as [|b p]; [done|]. apply Forall_cons in Fp as [Hb _].
  destruct q as [|c q _] using rev_ind; [done|]. apply Forall_app in Fq as [_ Fc]. apply Forall_cons in Fc as [Hc _].
  cbn [app]. rewrite !app_assoc, <- !app_assoc. rewrite (app_assoc m q [c]), (app_assoc p (m ++ q) [c]).
  by apply str_trim_ends.
Qed.

Lemma take_word_plain w : Forall plain w -> take_word w = w.
Proof.
  induction 1 as [|b w Hb Hw IH]; [done|]. cbn [take_word]. unfold plain in Hb.
  replace (ascii_space b) with false by (unfold ascii_space; lia).
  destruct w as [|c w]; [done|]. replace (space2 b c) with false by (unfold space2; lia).
  destruct w as [|d w]; [by rewrite IH|]. replace (space3 b c d) with false by (unfold space3; lia). by rewrite IH.
Qed.
Lemma first_word_plain w : w <> [] -> Forall plain w -> first_word w = Some w.
Proof.
  intros Hne Hw. unfold first_word. destruct w as [|b w]; [done|].
  rewrite trim_start_plain by (by apply Forall_cons in Hw as [? _]). by rewrite take_word_plain.
Qed.
Lemma first_word_space w : w <> [] -> Forall plain w -> first_word (SP :: w) = Some w.
Proof. intros Hne Hw. by rewrite <- (first_word_plain w). Qed.

Lemma split_once_none c l : c ∉ l -> split_once c l = None.
Proof.
  induction l as [|b l IH]; intros H; [done|]. apply not_elem_of_cons in H as [Hb Hl]. cbn [split_once].
  replace (b =? c) with false by lia. by rewrite IH.
Qed.
Lemma split_once_at c a b : c ∉ a -> split_once c (a ++ c :: b) = Some (a, b).
Proof.
  induction a as [|x a IH]; intros H; cbn [app split_once]; [by rewrite Z.eqb_refl|].
  apply not_elem_of_cons in H as [Hx Ha]. replace (x =? c) with false by lia. by rewrite IH.
Qed.

(** What a series can be called and labelled on a page. *)
Definition name_byte (b : u8) : bool := (33 <=? b) && (b <? 127) && negb (b =? chr "{") && negb (b =? chr "#").
Definition label_byte (b : u8) : bool := (33 <=? b) && (b <? 127) && negb (b =? chr "}").
Definition name_ok (n : str) : bool := negb (bool_decide (n = [])) && forallb name_byte n.

Lemma name_ok_plain n : name_ok n = true -> n <> [] /\ Forall plain n /\ chr "{" ∉ n /\ SP ∉ n /\ chr "#" ∉ n.
Proof.
  unfold name_ok. rewrite andb_true_iff, negb_true_iff, bool_decide_eq_false. intros [Hne Hf].
  assert (H : Forall (fun b => name_byte b = true) n).
  { apply Forall_forall. intros b Hb. rewrite List.forallb_forall in Hf. by apply Hf, list_elem_of_In. }
  split; [done|]. rewrite Forall_forall in H. split_and!.
  - apply Forall_forall. intros b Hb. specialize (H b Hb). unfold name_byte in H. unfold plain. lia.
  - intros Hb. by specialize (H _ Hb).
  - intros Hb. by specialize (H _ Hb).
  - intros Hb. by specialize (H _ Hb).
Qed.

Lemma not_comment n m : name_ok n = true -> starts_with [chr "#"] (n ++ m) = false.
Proof.
  intros (Hne & _ & _ & _ & Hh)%name_ok_plain. destruct n as [|b n]; [done|]. apply not_elem_of_cons in Hh as [Hb _].
  cbn [app starts_with]. by replace (_ =? _) with false by lia.
Qed.

Lemma app_nonempty {A} (p q : list A) : p <> [] -> p ++ q <> [].
Proof. by destruct p. Qed.

(** A series without labels. *)
Lemma split_plain name value :
  name_ok name = true -> value <> [] -> Forall plain value -> chr "{" ∉ value ->
  split_sample (name ++ [SP] ++ value) = (fun v => MkSample name [] v) <$> parse_f64 value.
Proof.
  intros Hname Hne Hv Hb. pose proof (name_ok_plain _ Hname) as (Hn & Hp & Hnb & Hsp & _). unfold split_sample.
  rewrite str_trim_between by done. rewrite bool_decide_eq_false_2 by (by apply app_nonempty).
  rewrite not_comment by done. cbn [orb].
  rewrite split_once_none by (rewrite !elem_of_app; intros [?|[?|?]]; try done; set_solver).
  cbn [app]. rewrite split_once_at by done. cbn [mbind option_bind]. rewrite first_word_plain by done.
  cbn [mbind option_bind]. rewrite str_trim_plain by done. by destruct (parse_f64 value).
Qed.

(** A series with labels. *)
Lemma split_labelled name labels value :
  name_ok name = true -> forallb label_byte labels = true -> value <> [] -> Forall plain value ->
  split_sample (name ++ chr "{" :: labels ++ chr "}" :: SP :: value) =
  (fun v => MkSample name labels v) <$> parse_f64 value.
Proof.
  intros Hname Hl Hne Hv. pose proof (name_ok_plain _ Hname) as (Hn & Hp & Hnb & Hsp & _). unfold split_sample.
  assert (Hlb : chr "}" ∉ labels).
  { intros Hin%list_elem_of_In. rewrite List.forallb_forall in Hl. by specialize (Hl _ Hin). }
  replace (name ++ chr "{" :: labels ++ chr "}" :: SP :: value)
    with (name ++ (chr "{" :: labels ++ [chr "}"; SP]) ++ value) by (simpl; by rewrite <- app_assoc).
  rewrite str_trim_between by done. rewrite bool_decide_eq_false_2 by (by apply app_nonempty).
  rewrite not_comment by done. cbn [orb]. cbn [app]. rewrite split_once_at by done. cbn [mbind option_bind].
  rewrite <- app_assoc. cbn [app]. rewrite split_once_at by done. cbn [mbind option_bind].
  rewrite first_word_space by done. cbn [mbind option_bind]. rewrite str_trim_plain by done. by destruct (parse_f64 value).
Qed.

Lemma scan_comment s l : scan_line s (chr "#" :: l) = s.
Proof.
  unfold scan_line, split_sample. destruct (str_trim_prefix [chr "#"] l) as [k Hk]; [done|by repeat constructor|].
  cbn [app] in Hk. by rewrite Hk.
Qed.

(** ** Numbers that come from a page *)

Lemma take_digits_all d : all_digits d -> take_digits d = (d, []).
Proof. induction 1 as [|b d Hb Hd IH]; [done|]. cbn [take_digits]. by rewrite Hb, IH. Qed.

Lemma parse_f64_digits d : d <> [] -> all_digits d -> parse_f64 d = Some (f64_of (digits_value d) 0).
Proof.
  intros Hne Hd. destruct d as [|b d]; [done|]. unfold parse_f64. destruct (digits_sign b d Hd) as [-> ->].
  unfold parse_decimal. rewrite take_digits_all by done. rewrite app_nil_r, bool_decide_eq_false_2 by done.
  cbn [mbind option_bind length Z.of_nat]. unfold f64_of_decimal. cbn [Z.sub Z.leb Z.add Z.opp Z.compare].
  by rewrite Z.mul_1_r.
Qed.

Lemma parse_f64_count n : 0 <= n < 10 ^ 20 -> parse_f64 (to_string n) = Some (f64_of n 0).
Proof.
  intros Hn. unfold to_string. rewrite parse_f64_digits.
  - by rewrite digits_value_decimal by done.
  - apply decimal_fuel_ne.
  - apply decimal_fuel_digits. lia.
Qed.

Lemma as_counter_count n : 0 <= n < 2 ^ 53 -> as_counter (f64_of n 0) = n.
Proof.
  intros Hn. unfold as_counter. destruct (f64_of_nonneg n Hn) as [-> ->]. cbn [andb].
  destruct (0 <? n) eqn:E; [by apply f64_to_u64_exact|lia].
Qed.

Lemma to_string_ok n : 0 <= n -> to_string n <> [] /\ Forall plain (to_string n) /\ chr "{" ∉ to_string n.
Proof.
  intros Hn. split; [apply decimal_fuel_ne|]. split; [by apply decimal_fuel_plain|].
  pose proof (decimal_fuel_digits 20 n Hn) as Hd. rewrite Forall_forall in Hd. intros Hin. by specialize (Hd _ Hin).
Qed.

Lemma f64_neg_exact n : 0 < n < 2 ^ 53 ->
  f64_is_finite (SFopp (f64_of n 0)) = true /\ f64_to_i64 (SFopp (f64_of n 0)) = - n.
Proof.
  intros Hn. pose proof (f64_to_i64_exact n ltac:(lia)) as Hi. destruct n as [|p|]; [lia| |lia].
  destruct (f64_of_exact p) as (m & k & E & _); [lia|]. rewrite E in *. split; [done|].
  cbn [SFopp negb f64_to_i64] in *. unfold i64_top in *. lia.
Qed.

Lemma i64_text_read n : - 2 ^ 53 < n < 2 ^ 53 ->
  exists v, parse_f64 (i64_text n) = Some v /\ f64_is_finite v = true /\ f64_to_i64 v = n /\
    i64_text n <> [] /\ Forall plain (i64_text n) /\ chr "{" ∉ i64_text n.
Proof.
  intros Hn. unfold i64_text. destruct (n <? 0) eqn:E.
  - destruct (to_string_ok (- n)) as (H1 & H2 & H3); [lia|]. destruct (f64_neg_exact (- n)) as [Hf Hv]; [lia|].
    exists (SFopp (f64_of (- n) 0)). split_and!; [|done|lia|done|by constructor; [unfold plain; lia|]|].
    + pose proof (parse_f64_count (- n) ltac:(lia)) as Hp. unfold parse_f64 at 1. rewrite Z.eqb_refl.
      unfold parse_f64 in Hp. destruct (to_string (- n)) as [|b s] eqn:Es; [done|].
      pose proof (decimal_fuel_digits 20 (- n) ltac:(lia)) as Hd. unfold to_string in Es. rewrite Es in Hd.
      destruct (digits_sign b s Hd) as [E1 E2]. rewrite E1, E2 in Hp.
      destruct (match parse_decimal (b :: s) with Some x => Some x | None => parse_inf_nan (b :: s) end); [|done].
      cbn [fmap option_fmap option_map] in *. by injection Hp as ->.
    + apply not_elem_of_cons. done.
  - destruct (to_string_ok n) as (H1 & H2 & H3); [lia|]. exists (f64_of n 0).
    split_and!; [apply parse_f64_count; lia|by apply f64_of_nonneg; lia|apply f64_to_i64_exact; lia|done..].
Qed.

Lemma digits_padded_ok w n : 0 <= n -> Forall (fun b => is_ascii_digit b = true) (digits_padded w n).
Proof.
  intros Hn. unfold digits_padded. apply Forall_app. split; [by apply Forall_replicate|by apply decimal_fuel_digits].
Qed.

Lemma round_half_even_nonneg a b : 0 <= a -> 0 < b -> 0 <= round_half_even a b.
Proof.
  intros Ha Hb. unfold round_half_even. pose proof (Z.div_pos a b Ha Hb).
  destruct (_ ?= _); [destruct (Z.even _)| |]; lia.
Qed.

(** A number in fixed notation is one visible word. *)
Lemma fixed_ok d x : fixed d x <> [] /\ Forall plain (fixed d x) /\ chr "{" ∉ fixed d x.
Proof.
  assert (Hd : forall l, Forall (fun b => is_ascii_digit b = true) l -> Forall (fun b => plain b /\ b <> chr "{") l).
  { intros l H. eapply Forall_impl; [exact H|]. unfold is_ascii_digit, plain. simpl. lia. }
  enough (H : fixed d x <> [] /\ Forall (fun b => plain b /\ b <> chr "{") (fixed d x)).
  { destruct H as [Hne H]. split; [done|]. rewrite Forall_forall in H. split; [apply Forall_forall; intros b Hb; by apply H|].
    intros Hb. by destruct (H _ Hb). }
  assert (Hw : forall s n, 0 <= n ->
    let t := (if s : bool then [chr "-"] else []) ++ digits_padded 1 (n / 10 ^ Z.of_nat d) ++ chr "." :: digits_padded d (n mod 10 ^ Z.of_nat d) in
    t <> [] /\ Forall (fun b => plain b /\ b <> chr "{") t).
  { intros s n Hn. cbv zeta. split; [by destruct s, (digits_padded 1 _)|]. apply Forall_app. split.
    - destruct s; repeat constructor; unfold plain; lia.
    - apply Forall_app. split; [apply Hd, digits_padded_ok; apply Z.div_pos; lia|].
      constructor; [unfold plain; lia|]. apply Hd, digits_padded_ok. apply Z.mod_pos_bound. lia. }
  unfold fixed. cbv zeta. destruct x as [s|s| |s m e].
  - by apply Hw.
  - split; [by destruct s|]. destruct s; repeat constructor; unfold plain; lia.
  - split; [done|]. repeat constructor; unfold plain; lia.
  - apply Hw. case_match; [apply Z.mul_nonneg_nonneg; lia|apply round_half_even_nonneg; lia].
Qed.

(** ** One piece of a page at a time *)

Definition READ : list str :=
  [bstr "ramjet_requests_total"; bstr "ramjet_active_connections"; bstr "ramjet_route_table_generation";
   bstr "ramjet_upstream_latency_seconds_sum"; bstr "ramjet_upstream_latency_seconds_count"; bstr "ramjet_pinned"].

Lemma add_sample_other x s : sample_name x ∉ READ -> add_sample x s = s.
Proof.
  unfold READ. rewrite !not_elem_of_cons. intros (H1 & H2 & H3 & H4 & H5 & H6 & _). unfold add_sample.
  by rewrite !bool_decide_eq_false_2 by done.
Qed.

Lemma printable_app a b : Forall printable a -> Forall printable b -> Forall printable (a ++ b).
Proof. intros. by apply Forall_app. Qed.
Lemma printable_literal l : forallb (fun b => (32 <=? b) && (b <? 127)) l = true -> Forall printable l.
Proof.
  intros H. apply Forall_forall. intros b Hb%list_elem_of_In. rewrite List.forallb_forall in H. specialize (H b Hb).
  unfold printable. lia.
Qed.
Lemma name_printable n : name_ok n = true -> Forall printable n.
Proof. intros (_ & H & _)%name_ok_plain. by apply plain_printable. Qed.

Lemma feed_comment s l rest : Forall printable l -> feed s (writeln (chr "#" :: l) ++ rest) = feed s rest.
Proof. intros Hl. rewrite feed_writeln, scan_comment; [done|]. constructor; [unfold printable; lia|done]. Qed.

Lemma feed_help s a b rest :
  forallb (fun b => (32 <=? b) && (b <? 127)) a = true -> Forall printable b ->
  feed s (writeln ((chr "#" :: a) ++ b) ++ rest) = feed s rest.
Proof. intros Ha Hb. apply (feed_comment s (a ++ b)). apply printable_app; [by apply printable_literal|done]. Qed.

Lemma feed_value s name value v rest :
  name_ok name = true -> value <> [] -> Forall plain value -> chr "{" ∉ value -> parse_f64 value = Some v ->
  feed s (writeln (name ++ [SP] ++ value) ++ rest) = feed (add_sample (MkSample name [] v) s) rest.
Proof.
  intros Hn Hne Hp Hb Hv. rewrite feed_writeln.
  - unfold scan_line. by rewrite split_plain, Hv.
  - apply printable_app; [by apply name_printable|]. constructor; [unfold printable, SP; lia|by apply plain_printable].
Qed.

Lemma feed_count s name n rest :
  name_ok name = true -> 0 <= n < 10 ^ 20 ->
  feed s (writeln (name ++ [SP] ++ to_string n) ++ rest) = feed (add_sample (MkSample name [] (f64_of n 0)) s) rest.
Proof.
  intros Hn Hr. destruct (to_string_ok n) as (H1 & H2 & H3); [lia|]. apply feed_value; try done.
  by apply parse_f64_count.
Qed.

Lemma feed_labelled s name labels n rest :
  name_ok name = true -> forallb label_byte labels = true -> 0 <= n < 10 ^ 20 ->
  feed s (writeln (name ++ chr "{" :: labels ++ chr "}" :: SP :: to_string n) ++ rest) =
  feed (add_sample (MkSample name labels (f64_of n 0)) s) rest.
Proof.
  intros Hn Hl Hr. destruct (to_string_ok n) as (H1 & H2 & H3); [lia|]. rewrite feed_writeln.
  - unfold scan_line. by rewrite split_labelled, parse_f64_count.
  - apply printable_app; [by apply name_printable|]. constructor; [unfold printable; lia|]. apply printable_app.
    + apply Forall_forall. intros b Hb%list_elem_of_In. rewrite List.forallb_forall in Hl. specialize (Hl b Hb).
      unfold label_byte in Hl. unfold printable. lia.
    + repeat (constructor; [unfold printable, SP; lia|]). by apply plain_printable.
Qed.

(** The counters nobody reads. *)
Lemma feed_counters s (l : list (str * str * u64)) rest :
  forallb (fun x => name_ok x.1.1 && negb (bool_decide (x.1.1 ∈ READ)) &&
    forallb (fun b => (32 <=? b) && (b <? 127)) x.1.2) l = true ->
  Forall (fun x => 0 <= x.2 < 10 ^ 20) l -> feed s (counter_lines l ++ rest) = feed s rest.
Proof.
  revert s. induction l as [|[[name help] n] l IH]; intros s Hl Hn; [done|].
  cbn [forallb] in Hl. rewrite !andb_true_iff, negb_true_iff, bool_decide_eq_false in Hl.
  destruct Hl as [[[Hname Hread] Hhelp] Hl]. apply Forall_cons in Hn as [Hn Hns]. cbn [fst snd] in *.
  unfold counter_lines. cbn [map concat]. rewrite <- !app_assoc.
  rewrite feed_help, feed_help, feed_count, add_sample_other by
    (try done; repeat (apply printable_app || apply Forall_cons_2); try (by apply name_printable); try (by apply printable_literal);
     unfold printable, SP; lia).
  by apply IH.
Qed.

Lemma feed_buckets s name bounds counts cumulative rest :
  name_ok name = true -> name ++ bstr "_bucket" ∉ READ ->
  forallb (fun b => forallb label_byte b) bounds = true ->
  feed s (cumulative_lines name cumulative bounds counts ++ rest) = feed s rest.
Proof.
  intros Hname Hread. revert s cumulative counts. induction bounds as [|b bounds IH]; intros s cumulative counts Hb; [done|].
  cbn [forallb] in Hb. apply andb_true_iff in Hb as [Hb Hbs]. cbn [cumulative_lines]. cbv zeta. rewrite <- app_assoc.
  replace (name ++ bstr "_bucket{le=" ++ quoted b ++ bstr "} " ++ to_string (wrap64 (cumulative + hd 0 counts)))
    with ((name ++ bstr "_bucket") ++ chr "{" :: (bstr "le=" ++ quoted b) ++ chr "}" :: SP :: to_string (wrap64 (cumulative + hd 0 counts)))
    by (by rewrite <- !app_assoc).
  rewrite feed_labelled, add_sample_other.
  - by apply IH.
  - done.
  - unfold name_ok in *. rewrite andb_true_iff, negb_true_iff, bool_decide_eq_false in Hname. destruct Hname as [Hne Hf].
    rewrite bool_decide_eq_false_2 by (by apply app_nonempty). by rewrite forallb_app, Hf.
  - unfold quoted. rewrite !forallb_app. cbn [forallb]. by rewrite forallb_app, Hb.
  - pose proof (wrap_range 64 (cumulative + hd 0 counts) ltac:(lia)). unfold wrap64. lia.
Qed.

(** One status class. *)
Definition count_class (class : str) (n : u64) (s : MetricsSnapshot) : MetricsSnapshot :=
  let s := s <| ms_requests_total := sat_add u64_max (ms_requests_total s) n |> in
  if bool_decide (class = bstr "5xx")
  then s <| ms_errors_5xx_total := sat_add u64_max (ms_errors_5xx_total s) n |> else s.

Lemma feed_class s class n rest :
  class ∈ CLASSES -> 0 <= n < 2 ^ 53 ->
  feed s (writeln (bstr "ramjet_requests_total{code=" ++ quoted class ++ bstr "} " ++ to_string n) ++ rest) =
  feed (count_class class n s) rest.
Proof.
  intros Hc Hn.
  replace (bstr "ramjet_requests_total{code=" ++ quoted class ++ bstr "} " ++ to_string n)
    with (bstr "ramjet_requests_total" ++ chr "{" :: (bstr "code=" ++ quoted class) ++ chr "}" :: SP :: to_string n) by done.
  assert (Hl : forallb label_byte (bstr "code=" ++ quoted class) = true /\
    label (bstr "code=" ++ quoted class) (bstr "code") = Some class).
  { unfold CLASSES in Hc. repeat (apply elem_of_cons in Hc as [->|Hc]; [by vm_compute|]). by apply not_elem_of_nil in Hc. }
  destruct Hl as [Hl Hlabel]. rewrite feed_labelled by (try done; lia). f_equal. unfold add_sample.
  cbn [sample_name sample_labels sample_value]. rewrite bool_decide_eq_true_2 by done.
  rewrite Hlabel, as_counter_count by done. reflexivity.
Qed.

Lemma feed_gauge s name help value v rest :
  name_ok name = true -> forallb (fun b => (32 <=? b) && (b <? 127)) help = true ->
  i64_text value <> [] -> Forall plain (i64_text value) -> chr "{" ∉ i64_text value ->
  parse_f64 (i64_text value) = Some v ->
  feed s (gauge name help value ++ rest) = feed (add_sample (MkSample name [] v) s) rest.
Proof.
  intros Hn Hh H1 H2 H3 Hv. unfold gauge. rewrite <- !app_assoc.
  rewrite feed_help, feed_help, (feed_value _ _ _ v) by
    (try done; repeat (apply printable_app || apply Forall_cons_2); try (by apply name_printable); try (by apply printable_literal);
     unfold printable, SP; lia).
  done.
Qed.

(** The sum of latencies as it is printed: to the microsecond. *)
Definition printed_seconds (nanos : u64) : f64 :=
  match parse_f64 (fixed 6 (f64_div (f64_of_u64 nanos) (f64_of_u64 1000000000))) with
  | Some v => if f64_is_finite v && f64_ge v (S754_zero false) then v else S754_zero false
  | None => S754_zero false
  end.

Definition count_ok (n : Z) : Prop := 0 <= n < 2 ^ 53.

(** Numbers a double can carry. *)
Record readable (t : Totals) (generation : u64) : Prop := {
  readable_requests : length (t_requests t) = 6%nat /\ Forall count_ok (t_requests t);
  readable_count : count_ok (t_latency_count t);
  readable_active : - 2 ^ 53 < t_active_connections t < 2 ^ 53;
  readable_generation : count_ok generation;
  readable_others : Forall (fun n => 0 <= n < 10 ^ 20)
    [t_tls_handshakes t; t_tls_handshake_failures t; t_dispatch_uring t; t_dispatch_hyper t; t_connect_failures t;
     t_retries t; t_timeouts t; t_route_misses t; t_h3_connections t; t_h3_requests t; t_h3_handshake_failures t;
     t_mirrored t; t_mirror_dropped t; t_mirror_skipped t; t_mirror_failures t; t_unsupported_h2c t; t_unsupported_grpc t];
}.

Lemma feed_classes s requests rest :
  length requests = 6%nat -> Forall count_ok requests ->
  feed s (class_lines (fun i => default 0 (requests !! i)) ++ rest) =
  feed (foldl (fun s x => count_class x.1 x.2 s) s (zip CLASSES requests)) rest.
Proof.
  intros Hl Hr. do 7 (destruct requests as [|? requests]; try discriminate Hl). 
  rewrite !Forall_cons in Hr. unfold count_ok in Hr. unfold class_lines, CLASSES. cbn [imap concat].
  unfold CLASSES. cbn [imap concat compose]. rewrite <- !app_assoc.
  rewrite !feed_class by (first [cbn; lia|unfold CLASSES; set_solver]). reflexivity.
Qed.

Definition total_requests (requests : list u64) : Z := foldr Z.add 0 requests.

Lemma count_class_other class n s :
  bool_decide (class = bstr "5xx") = false ->
  count_class class n s = s <| ms_requests_total := sat_add u64_max (ms_requests_total s) n |>.
Proof. intros H. unfold count_class. cbv zeta. by rewrite H. Qed.
Lemma count_class_5xx n s :
  count_class (bstr "5xx") n s =
  s <| ms_requests_total := sat_add u64_max (ms_requests_total s) n |>
    <| ms_errors_5xx_total := sat_add u64_max (ms_errors_5xx_total s) n |>.
Proof. unfold count_class. cbv zeta. by rewrite bool_decide_eq_true_2. Qed.

Lemma count_classes requests s :
  length requests = 6%nat -> Forall count_ok requests -> ms_requests_total s = 0 -> ms_errors_5xx_total s = 0 ->
  foldl (fun s x => count_class x.1 x.2 s) s (zip CLASSES requests) =
  s <| ms_requests_total := total_requests requests |> <| ms_errors_5xx_total := default 0 (requests !! 4%nat) |>.
Proof.
  intros Hl Hr H0 H1. do 7 (destruct requests as [|? requests]; try discriminate Hl).
  rewrite !Forall_cons in Hr. unfold count_ok in Hr. destruct s as [a b c d e f g]. cbn [ms_requests_total ms_errors_5xx_total] in *.
  subst a b. unfold CLASSES. cbn [zip_with foldl fst snd].
  rewrite (count_class_other (bstr "other")), count_class_5xx, (count_class_other (bstr "4xx")),
    (count_class_other (bstr "3xx")), (count_class_other (bstr "2xx")), (count_class_other (bstr "1xx")) by reflexivity.
  unfold total_requests, set_field, set_ms_requests_total, set_ms_errors_5xx_total.
  cbn [ms_requests_total ms_errors_5xx_total ms_active_connections ms_generation ms_latency_sum_seconds ms_latency_count
    ms_pinned foldr]. unfold sat_add, u64_max. f_equal; [lia|]. cbn -[Z.min Z.add Z.pow]. lia.
Qed.

(** Which series a name is, decided by evaluation. *)
Ltac which_series :=
  unfold add_sample; cbn [sample_name sample_labels sample_value];
  repeat match goal with |- context [bool_decide (?x = ?y :> list Z)] =>
    let r := eval vm_compute in (bool_decide (x = y :> list Z)) in change (bool_decide (x = y)) with r
  end; cbn [andb].

Lemma add_count v s :
  add_sample (MkSample (bstr "ramjet_upstream_latency_seconds_count") [] v) s = s <| ms_latency_count := as_counter v |>.
Proof. by which_series. Qed.
Lemma add_sum v s :
  add_sample (MkSample (bstr "ramjet_upstream_latency_seconds_sum") [] v) s =
  if f64_is_finite v && f64_ge v (S754_zero false) then s <| ms_latency_sum_seconds := v |> else s.
Proof. by which_series. Qed.
Lemma add_active v s :
  f64_is_finite v = true ->
  add_sample (MkSample (bstr "ramjet_active_connections") [] v) s = s <| ms_active_connections := Some (f64_to_i64 v) |>.
Proof. intros Hv. which_series. by rewrite Hv. Qed.
Lemma add_generation v s :
  add_sample (MkSample (bstr "ramjet_route_table_generation") [] v) s = s <| ms_generation := Some (as_counter v) |>.
Proof. by which_series. Qed.
Lemma add_pinned v s :
  add_sample (MkSample (bstr "ramjet_pinned") [] v) s =
  s <| ms_pinned := (if 0 <? as_counter v then Some (as_counter v) else None) |>.
Proof. by which_series. Qed.

Lemma feed_histogram s h rest :
  count_ok (h_count h) -> ms_latency_sum_seconds s = S754_zero false ->
  feed s (histogram_render h (bstr "ramjet_upstream_latency_seconds") ++ rest) =
  feed (s <| ms_latency_sum_seconds := printed_seconds (h_sum_nanos h) |> <| ms_latency_count := h_count h |>) rest.
Proof.
  intros Hc Hs. unfold count_ok in Hc. unfold histogram_render. rewrite <- !app_assoc.
  rewrite feed_buckets by (first [reflexivity|by apply (bool_decide_unpack _)]).
  etransitivity; [refine (feed_labelled s (bstr "ramjet_upstream_latency_seconds_bucket")
    (bstr "le=" ++ quoted (bstr "+Inf")) (h_count h) _ _ _ _); [reflexivity..|lia]|].
  rewrite add_sample_other by (by apply (bool_decide_unpack _)).
  set (x := f64_div _ _). destruct (fixed_ok 6 x) as (H1 & H2 & H3).
  transitivity (feed (s <| ms_latency_sum_seconds := printed_seconds (h_sum_nanos h) |>)
    (writeln (bstr "ramjet_upstream_latency_seconds_count" ++ [SP] ++ to_string (h_count h)) ++ rest)).
  - unfold printed_seconds. fold x. destruct (parse_f64 (fixed 6 x)) as [v|] eqn:Hv.
    + etransitivity; [refine (feed_value s (bstr "ramjet_upstream_latency_seconds_sum") (fixed 6 x) v _ _ H1 H2 H3 Hv);
        reflexivity|]. rewrite add_sum. destruct (f64_is_finite v && f64_ge v (S754_zero false)); [done|].
      rewrite <- Hs. by destruct s.
    + etransitivity; [refine (feed_writeln s (bstr "ramjet_upstream_latency_seconds_sum" ++ [SP] ++ fixed 6 x) _ _)|].
      * apply printable_app; [by apply printable_literal|]. constructor; [unfold printable, SP; lia|by apply plain_printable].
      * unfold scan_line. rewrite split_plain, Hv by done. cbn [fmap option_fmap option_map]. rewrite <- Hs. by destruct s.
  - rewrite feed_count by (first [reflexivity|lia]). by rewrite add_count, as_counter_count.
Qed.

Lemma feed_gauge_count s name help n rest :
  name_ok name = true -> forallb (fun b => (32 <=? b) && (b <? 127)) help = true -> count_ok n ->
  feed s (gauge name help n ++ rest) = feed (add_sample (MkSample name [] (f64_of n 0)) s) rest.
Proof.
  intros Hn Hh Hc. unfold count_ok in Hc. destruct (to_string_ok n) as (H1 & H2 & H3); [lia|].
  assert (E : i64_text n = to_string n) by (unfold i64_text; by replace (n <? 0) with false by lia).
  apply feed_gauge; rewrite ?E; try done. apply parse_f64_count. lia.
Qed.

Lemma wrap_i64_small n : count_ok n -> wrap_i64 n = n.
Proof. intros Hn. unfold count_ok in Hn. unfold wrap_i64, wrap64, wrap. rewrite Z.mod_small; lia. Qed.

(** What a reader takes from a page with these totals. *)
Definition shown (t : Totals) (generation : u64) (pinned : bool) : MetricsSnapshot :=
  MkMetricsSnapshot (total_requests (t_requests t)) (default 0 (t_requests t !! 4%nat))
    (Some (t_active_connections t)) (Some generation) (printed_seconds (t_latency_nanos t)) (t_latency_count t)
    (if pinned then Some 1 else None).

Lemma totals_read_back t generation pinned :
  readable t generation -> parse (render_prometheus (of_totals t) generation pinned) = shown t generation pinned.
Proof.
  intros [[Hl Hr] Hc Ha Hg Ho]. change (parse ?x) with (feed MetricsSnapshot_default x). unfold render_prometheus, shown.
  rewrite feed_comment, feed_comment by (by apply printable_literal). cbn [of_totals m_requests].
  rewrite feed_classes, count_classes by done. rewrite feed_comment, feed_comment by (by apply printable_literal).
  rewrite feed_histogram by done. destruct (i64_text_read _ Ha) as (v & Hv & Hf & Hi & H1 & H2 & H3).
  rewrite (feed_gauge _ _ _ _ v), add_active, Hi by (first [reflexivity|done]).
  rewrite wrap_i64_small, feed_gauge_count, add_generation, as_counter_count by (first [reflexivity|done]).
  rewrite feed_gauge_count by (first [reflexivity|by destruct pinned]).
  rewrite add_pinned, as_counter_count by (by destruct pinned). rewrite <- (app_nil_r (counter_lines _)).
  rewrite feed_counters; [|reflexivity|apply (Forall_fmap snd (fun n => 0 <= n < 10 ^ 20)); exact Ho].
  cbn [of_totals m_upstream_latency h_sum_nanos h_count m_active_connections]. by destruct pinned.
Qed.

(** C37: What the dashboard shows is what was counted.  Parsed back, the page of
    either engine (that of the reactor engine over the sums of its cores and of
    the tokio side of its process) gives the sum of the responses of every
    class, those of the 5xx class, the open connections, the generation being
    served, the latency count, and the latency sum to the microsecond it is
    printed with; no other line of the page changes anything.  Every number is
    exact as long as a double holds it (below 2^53).  The one field that does
    not mean what its reader documents is the pin: the page says whether there
    is one, and a pinned data plane reads as pinned to generation 1, whichever
    it is. *)
Theorem scrape_reads_page generation pinned :
  (forall m, readable (totals m) generation ->
     parse (render_prometheus m generation pinned) = shown (totals m) generation pinned) /\
  (forall em, readable (merged em) generation ->
     parse (engine_render_prometheus em generation pinned) = shown (merged em) generation pinned).
Proof.
  split; [intros m Hm; rewrite <- (of_totals_totals m) at 1|intros em Hem; rewrite engine_render_merged];
    by apply totals_read_back.
Qed.

Definition demo_totals : Totals := {|
  t_requests := [0; 1; 0; 0; 1; 0]; t_latency_buckets := [0; 0; 1; 0; 0; 0; 0; 0; 0; 0; 0; 0];
  t_latency_nanos := 4000000; t_latency_count := 1; t_active_connections := 3; t_tls_handshakes := 0;
  t_tls_handshake_failures := 0; t_dispatch_uring := 0; t_dispatch_hyper := 0; t_connect_failures := 0; t_retries := 0;
  t_timeouts := 0; t_route_misses := 0; t_h3_connections := 0; t_h3_requests := 0; t_h3_handshake_failures := 0;
  t_mirrored := 1; t_mirror_dropped := 0; t_mirror_skipped := 0; t_mirror_failures := 0; t_unsupported_h2c := 0;
  t_unsupported_grpc := 0 |}.

Lemma demo_readable : readable demo_totals 7.
Proof.
  constructor.
  - split; [reflexivity|]. repeat (constructor; [unfold count_ok; lia|]). constructor.
  - unfold count_ok. simpl. lia.
  - simpl. lia.
  - unfold count_ok. lia.
  - repeat (constructor; [simpl; lia|]). constructor.
Qed.

(** On one core and the tokio side: a 5xx answer on the core, the rest there. *)
Definition demo_split : EngineMetrics :=
  MkEngineMetrics [core_response 503 CoreMetrics_default]
    (Some ((of_totals demo_totals) <| m_requests := [0; 1; 0; 0; 0; 0] |>)).

Lemma scrape_reads_page_witness :
  parse (render_prometheus (of_totals demo_totals) 7 true) =
    MkMetricsSnapshot 2 1 (Some 3) (Some 7) (printed_seconds 4000000) 1 (Some 1) /\
  parse (engine_render_prometheus demo_split 7 true) =
    MkMetricsSnapshot 2 1 (Some 3) (Some 7) (printed_seconds 4000000) 1 (Some 1).
Proof.
  destruct (scrape_reads_page 7 true) as [Hhyper Hengine]. split.
  - apply (Hhyper (of_totals demo_totals)). rewrite totals_of_totals. exact demo_readable.
  - assert (Hm : merged demo_split = demo_totals) by (vm_compute; reflexivity).
    rewrite (Hengine demo_split); rewrite Hm; [reflexivity|exact demo_readable].
Defined.
