(* ===== verification/Rates.v ===== *)
(** Two polls become the numbers on the screen:
    [crates/ramjet-top/src/model.rs] and the row types of [contract.rs].

    A [Duration] is a number of nanoseconds.  The responses of the admin API
    are the records they are deserialised into; serde and the JSON text are not
    modelled, nor is [str::to_lowercase] of the filter box.  What is shown is
    that a rate is never invented, never negative and never NaN, and that the
    order of the rows is a function of what they show. *)

From Stdlib Require Import SpecFloat.
From S2P Require Import Prelude Order NetText F64 Metrics Scrape.

(** ** The responses *)

Inductive PathType := PT_Exact | PT_Prefix | PT_ImplementationSpecific | PT_Other (s : str).
#[export] Instance PathType_eq_dec : EqDecision PathType.
Proof. solve_decision. Defined.
Definition path_type_as_str (p : PathType) : str :=
  match p with
  | PT_Exact => bstr "Exact"
  | PT_Prefix => bstr "Prefix"
  | PT_ImplementationSpecific => bstr "ImplementationSpecific"
  | PT_Other s => s
  end.
Definition path_type_short (p : PathType) : str :=
  match p with PT_ImplementationSpecific => bstr "ImplSpec" | other => path_type_as_str other end.
Definition path_type_deserialize (raw : str) : PathType :=
  if bool_decide (raw = bstr "Exact") then PT_Exact
  else if bool_decide (raw = bstr "Prefix") then PT_Prefix
  else if bool_decide (raw = bstr "ImplementationSpecific") then PT_ImplementationSpecific
  else PT_Other raw.

Record CanaryStats := MkCanaryStats {
  cs_requests_total : u64;
  cs_errors_5xx_total : u64;
  cs_upstream_latency_ms_sum : f64;
  cs_upstream_latency_count : u64;
}.
Record Canary := MkCanary { cn_backend : str; cn_weight_percent : u64 }.
Record RouteEntry := MkRouteEntry {
  re_host : str;
  re_path : str;
  re_path_type : PathType;
  re_backend : str;
  re_endpoints : u64;
  re_requests_total : u64;
  re_errors_5xx_total : u64;
  re_upstream_latency_ms_sum : f64;
  re_upstream_latency_count : u64;
  re_canary : option Canary;
  re_canary_stats : option CanaryStats;
}.
Record RoutesResponse := MkRoutesResponse { rr_version : u64; rr_generation : u64; rr_routes : list RouteEntry }.

(** ** Counters and the baseline *)

Record RouteKey := MkRouteKey { key_host : str; key_path : str; key_path_type : str }.
#[export] Instance RouteKey_eq_dec : EqDecision RouteKey.
Proof. solve_decision. Defined.
#[export] Instance RouteKey_countable : Countable RouteKey.
Proof.
  refine (inj_countable' (fun k => (key_host k, key_path k, key_path_type k))
    (fun x => MkRouteKey x.1.1 x.1.2 x.2) _). by intros [].
Defined.
Definition key_of (e : RouteEntry) : RouteKey := MkRouteKey (re_host e) (re_path e) (path_type_as_str (re_path_type e)).

Record CanaryCounters := MkCanaryCounters {
  cc_requests_total : u64;
  cc_errors_5xx_total : u64;
  cc_latency_ms_sum : f64;
  cc_latency_count : u64;
}.
Definition CanaryCounters_default : CanaryCounters := MkCanaryCounters 0 0 (S754_zero false) 0.
Record RouteCounters := MkRouteCounters {
  rc_requests_total : u64;
  rc_errors_5xx_total : u64;
  rc_latency_ms_sum : f64;
  rc_latency_count : u64;
  rc_canary : CanaryCounters;
}.
Definition counters_of (e : RouteEntry) : RouteCounters :=
  MkRouteCounters (re_requests_total e) (re_errors_5xx_total e) (re_upstream_latency_ms_sum e)
    (re_upstream_latency_count e)
    match re_canary_stats e with
    | Some s => MkCanaryCounters (cs_requests_total s) (cs_errors_5xx_total s) (cs_upstream_latency_ms_sum s)
                  (cs_upstream_latency_count s)
    | None => CanaryCounters_default
    end.

Definition CounterBaseline : Type := gmap RouteKey RouteCounters.
Definition baseline_of (r : RoutesResponse) : CounterBaseline :=
  foldl (fun m e => <[key_of e := counters_of e]> m) ∅ (rr_routes r).

(** ** Differences *)

Definition counter_delta (now before : u64) : u64 := sat_sub now before.
Definition sum_delta (now before : f64) : f64 :=
  let delta := f64_sub now before in
  if f64_is_finite delta && f64_gt delta (S754_zero false) then delta else S754_zero false.
Definition usable_seconds (elapsed : Z) : option f64 :=
  let s := as_secs_f64 elapsed in
  if f64_is_finite s && f64_gt s (S754_zero false) then Some s else None.

Record Rates := MkRates {
  rate_rps : f64;
  rate_error : option f64;
  rate_avg_latency : option f64;
  rate_canary_error : option f64;
  rate_canary_avg_latency : option f64;
}.

Definition percent_of (part whole : u64) : option f64 :=
  if 0 <? whole then Some (f64_div (f64_mul (f64_of_u64 part) (f64_of_u64 100)) (f64_of_u64 whole)) else None.
Definition mean_of (sum : f64) (count : u64) : option f64 :=
  if 0 <? count then Some (f64_div sum (f64_of_u64 count)) else None.

Definition rates_between (before now : RouteCounters) (seconds : f64) : Rates :=
  let requests := counter_delta (rc_requests_total now) (rc_requests_total before) in
  let errors := counter_delta (rc_errors_5xx_total now) (rc_errors_5xx_total before) in
  let latency_sum := sum_delta (rc_latency_ms_sum now) (rc_latency_ms_sum before) in
  let latency_count := counter_delta (rc_latency_count now) (rc_latency_count before) in
  let c := rc_canary now in
  let c0 := rc_canary before in
  let canary_requests := counter_delta (cc_requests_total c) (cc_requests_total c0) in
  let canary_errors := counter_delta (cc_errors_5xx_total c) (cc_errors_5xx_total c0) in
  let canary_latency_sum := sum_delta (cc_latency_ms_sum c) (cc_latency_ms_sum c0) in
  let canary_latency_count := counter_delta (cc_latency_count c) (cc_latency_count c0) in
  MkRates (f64_div (f64_of_u64 requests) seconds) (percent_of errors requests) (mean_of latency_sum latency_count)
    (percent_of canary_errors canary_requests) (mean_of canary_latency_sum canary_latency_count).

Record RouteRow := MkRouteRow {
  row_host : str;
  row_path : str;
  row_path_type : PathType;
  row_backend : str;
  row_endpoints : u64;
  row_requests_total : u64;
  row_errors_5xx_total : u64;
  row_rps : option f64;
  row_error_rate_percent : option f64;
  row_avg_latency_ms : option f64;
  row_canary : option Canary;
  row_canary_error_rate_percent : option f64;
  row_canary_avg_latency_ms : option f64;
  row_is_new : bool;
}.

Definition compute_row (baseline : option CounterBaseline) (seconds : option f64) (e : RouteEntry) : RouteRow :=
  let previous := b ← baseline; b !! key_of e in
  let is_new := bool_decide (is_Some baseline) && bool_decide (previous = None) in
  let counters := counters_of e in
  let rates := before ← previous; s ← seconds; Some (rates_between before counters s) in
  MkRouteRow (re_host e) (re_path e) (re_path_type e) (re_backend e) (re_endpoints e)
    (rc_requests_total counters) (rc_errors_5xx_total counters) (rate_rps <$> rates) (r ← rates; rate_error r)
    (r ← rates; rate_avg_latency r) (re_canary e) (r ← rates; rate_canary_error r)
    (r ← rates; rate_canary_avg_latency r) is_new.
Definition compute_rows (routes : RoutesResponse) (baseline : option CounterBaseline) (elapsed : Z) : list RouteRow :=
  map (compute_row baseline (usable_seconds elapsed)) (rr_routes routes).

(** ** The header *)

Record GlobalStats := MkGlobalStats {
  gs_rps : option f64;
  gs_error_rate_percent : option f64;
  gs_avg_latency_ms : option f64;
  gs_active_connections : option Z;
}.
Definition compute_global (now : MetricsSnapshot) (before : option MetricsSnapshot) (elapsed : Z) : GlobalStats :=
  match before, usable_seconds elapsed with
  | Some before, Some seconds =>
      let requests := counter_delta (ms_requests_total now) (ms_requests_total before) in
      let errors := counter_delta (ms_errors_5xx_total now) (ms_errors_5xx_total before) in
      let latency_sum := sum_delta (ms_latency_sum_seconds now) (ms_latency_sum_seconds before) in
      let latency_count := counter_delta (ms_latency_count now) (ms_latency_count before) in
      MkGlobalStats (Some (f64_div (f64_of_u64 requests) seconds)) (percent_of errors requests)
        (mean_of (f64_mul latency_sum (f64_of_u64 1000)) latency_count) (ms_active_connections now)
  | _, _ => MkGlobalStats None None None (ms_active_connections now)
  end.

(** ** Order *)

Inductive Sort := By_rps | By_errors | By_latency | By_host.
Definition sort_as_str (s : Sort) : str :=
  match s with By_rps => bstr "rps" | By_errors => bstr "5xx" | By_latency => bstr "latency" | By_host => bstr "host" end.
Definition sort_key (s : Sort) : u8 :=
  match s with By_rps => chr "r" | By_errors => chr "e" | By_latency => chr "l" | By_host => chr "h" end.
Definition sort_from_key (key : u8) : option Sort :=
  if key =? chr "r" then Some By_rps else if key =? chr "e" then Some By_errors
  else if key =? chr "l" then Some By_latency else if key =? chr "h" then Some By_host else None.
Definition defaults_to_descending (s : Sort) : bool := match s with By_host => false | _ => true end.

Definition total_cmp (a b : f64) : comparison := cmp (total_key a) (total_key b).
Definition compare_optional (a b : option f64) (descending : bool) : comparison :=
  match a, b with
  | Some a, Some b => if descending then CompOpp (total_cmp a b) else total_cmp a b
  | Some _, None => Lt
  | None, Some _ => Gt
  | None, None => Eq
  end.

Definition compare_rows (sort : Sort) (descending : bool) (a b : RouteRow) : comparison :=
  let by_name := then_with (cmp (row_host a) (row_host b)) (cmp (row_path a) (row_path b)) in
  let ordering :=
    match sort with
    | By_host => by_name
    | By_rps => compare_optional (row_rps a) (row_rps b) descending
    | By_errors => compare_optional (row_error_rate_percent a) (row_error_rate_percent b) descending
    | By_latency => compare_optional (row_avg_latency_ms a) (row_avg_latency_ms b) descending
    end in
  let directed := match sort with By_host => if descending then CompOpp ordering else ordering | _ => ordering end in
  then_with (then_with directed (cmp (row_host a) (row_host b))) (cmp (row_path a) (row_path b)).

Definition rows_le (sort : Sort) (descending : bool) (a b : RouteRow) : bool :=
  match compare_rows sort descending a b with Gt => false | _ => true end.
Definition sort_rows (rows : list RouteRow) (sort : Sort) (descending : bool) : list RouteRow :=
  sort_by (rows_le sort descending) rows.

(** ** Numbers with evidence behind them *)

Lemma count_positive n : 0 < n < 2 ^ 64 -> positive_finite (f64_of_u64 n).
Proof. intros Hn. by apply f64_of_pos. Qed.

Lemma usable_positive elapsed s : usable_seconds elapsed = Some s -> positive_finite s.
Proof.
  unfold usable_seconds. cbv zeta. destruct (_ && _) eqn:E; [|discriminate]. intros [= <-].
  apply positive_finite_iff. by apply andb_true_iff in E.
Qed.

Lemma sum_delta_nonneg now before : nonneg (sum_delta now before).
Proof.
  unfold sum_delta. cbv zeta. destruct (_ && _) eqn:E; [|done]. apply andb_true_iff in E as [H1 H2].
  destruct (proj2 (positive_finite_iff _) (conj H1 H2)) as (m & e & ->). done.
Qed.

Lemma counter_delta_range now before : 0 <= now < 2 ^ 64 -> 0 <= before -> 0 <= counter_delta now before < 2 ^ 64.
Proof. unfold counter_delta, sat_sub. lia. Qed.

Lemma percent_of_nonneg part whole x : 0 <= part -> 0 <= whole < 2 ^ 64 -> percent_of part whole = Some x -> nonneg x.
Proof.
  intros Hp Hw. unfold percent_of. destruct (0 <? whole) eqn:E; [|discriminate]. intros [= <-].
  apply f64_div_nonneg; [|apply count_positive; lia]. apply f64_mul_nonneg; [by apply f64_of_u64_nonneg|].
  apply (count_positive 100). lia.
Qed.
Lemma mean_of_nonneg sum count x : nonneg sum -> 0 <= count < 2 ^ 64 -> mean_of sum count = Some x -> nonneg x.
Proof.
  intros Hs Hc. unfold mean_of. destruct (0 <? count) eqn:E; [|discriminate]. intros [= <-].
  apply f64_div_nonneg; [done|]. apply count_positive. lia.
Qed.

(** A row of counters the server can have sent: 64-bit numbers. *)
Definition u64_ok (n : Z) : Prop := 0 <= n < 2 ^ 64.
Record counters_ok (c : RouteCounters) : Prop := {
  ok_requests : u64_ok (rc_requests_total c);
  ok_errors : u64_ok (rc_errors_5xx_total c);
  ok_count : u64_ok (rc_latency_count c);
  ok_canary_requests : u64_ok (cc_requests_total (rc_canary c));
  ok_canary_errors : u64_ok (cc_errors_5xx_total (rc_canary c));
  ok_canary_count : u64_ok (cc_latency_count (rc_canary c));
}.

(** Every number of a row that is a rate. *)
Definition shown (r : RouteRow) : list f64 :=
  omap id [row_rps r; row_error_rate_percent r; row_avg_latency_ms r; row_canary_error_rate_percent r;
           row_canary_avg_latency_ms r].

Lemma elem_of_shown x r :
  x ∈ shown r <-> row_rps r = Some x \/ row_error_rate_percent r = Some x \/ row_avg_latency_ms r = Some x \/
    row_canary_error_rate_percent r = Some x \/ row_canary_avg_latency_ms r = Some x.
Proof.
  unfold shown. rewrite list_elem_of_omap. unfold id. split.
  - intros (y & Hy & ->). rewrite !elem_of_cons in Hy. destruct Hy as [?|[?|[?|[?|[?|[]%not_elem_of_nil]]]]]; auto 6.
  - intros H. exists (Some x). rewrite !elem_of_cons. split; [naive_solver|done].
Qed.

Lemma rates_nonneg before now seconds :
  counters_ok now -> counters_ok before -> positive_finite seconds ->
  let r := rates_between before now seconds in
  nonneg (rate_rps r) /\
  (forall x, rate_error r = Some x \/ rate_avg_latency r = Some x \/ rate_canary_error r = Some x \/
     rate_canary_avg_latency r = Some x -> nonneg x).
Proof.
  intros [H1 H2 H3 H4 H5 H6] [G1 G2 G3 G4 G5 G6] Hs. unfold u64_ok in *. cbv zeta. unfold rates_between. cbv zeta.
  cbn [rate_rps rate_error rate_avg_latency rate_canary_error rate_canary_avg_latency].
  pose proof counter_delta_range as Hd. split.
  - apply f64_div_nonneg; [|done]. apply f64_of_u64_nonneg. apply Hd; lia.
  - intros x [Hx|[Hx|[Hx|Hx]]].
    + eapply percent_of_nonneg in Hx; [done|apply Hd; lia..].
    + eapply mean_of_nonneg in Hx; [done|apply sum_delta_nonneg|apply Hd; lia].
    + eapply percent_of_nonneg in Hx; [done|apply Hd; lia..].
    + eapply mean_of_nonneg in Hx; [done|apply sum_delta_nonneg|apply Hd; lia].
Qed.



(** ** The order of the rows *)

(** A comparison that orders by something: what it cannot tell apart compares
    alike. *)
Record comparator {A} (c : A -> A -> comparison) : Prop := {
  comparator_flip : forall x y, c y x = CompOpp (c x y);
  comparator_eq : forall x y z, c x y = Eq -> c x z = c y z;
  comparator_lt : forall x y z, c x y = Lt -> c y z = Lt -> c x z = Lt;
}.

Lemma comparator_key {A K} `{OrdLaws K} (key : A -> K) : comparator (fun x y => cmp (key x) (key y)).
Proof.
  split.
  - intros x y. apply cmp_flip.
  - intros x y z. rewrite cmp_eq. by intros ->.
  - intros x y z. apply cmp_lt_trans.
Qed.
Lemma comparator_then {A} (c d : A -> A -> comparison) :
  comparator c -> comparator d -> comparator (fun x y => then_with (c x y) (d x y)).
Proof.
  intros Hc Hd. split.
  - intros x y. by apply then_with_flip; [apply comparator_flip|apply comparator_flip].
  - intros x y z. destruct (c x y) eqn:E; try done. cbn [then_with]. intros Hxy.
    rewrite (comparator_eq c Hc x y z E). by rewrite (comparator_eq d Hd x y z Hxy).
  - intros x y z. destruct (c x y) eqn:E1, (c y z) eqn:E2; cbn [then_with]; try done; intros H1 H2.
    + rewrite (comparator_eq c Hc x y z E1), E2. by apply (comparator_lt d Hd x y z).
    + by rewrite (comparator_eq c Hc x y z E1), E2.
    + assert (E : c z y = Eq) by (by rewrite (comparator_flip c Hc y z), E2).
      by rewrite (comparator_flip c Hc z x), (comparator_eq c Hc z y x E), (comparator_flip c Hc x y), E1.
    + by rewrite (comparator_lt c Hc x y z E1 E2).
Qed.
Lemma comparator_opp {A} (c : A -> A -> comparison) : comparator c -> comparator (fun x y => CompOpp (c x y)).
Proof.
  intros Hc. split.
  - intros x y. f_equal. apply (comparator_flip c Hc).
  - intros x y z Hxy. f_equal. apply (comparator_eq c Hc). by destruct (c x y).
  - intros x y z H1 H2. rewrite <- (comparator_flip c Hc x z). apply (comparator_lt c Hc z y x).
    + by rewrite (comparator_flip c Hc y z).
    + by rewrite (comparator_flip c Hc x y).
Qed.
Lemma comparator_optional {A} (value : A -> option f64) descending :
  comparator (fun x y => compare_optional (value x) (value y) descending).
Proof.
  assert (Ht : comparator total_cmp) by exact (comparator_key total_key).
  set (c := fun a b => if descending : bool then CompOpp (total_cmp a b) else total_cmp a b).
  assert (Hc : comparator c) by (unfold c; destruct descending; [by apply comparator_opp|done]).
  split.
  - intros x y. destruct (value x) as [a|], (value y) as [b|]; try done. apply (comparator_flip c Hc).
  - intros x y z. destruct (value x) as [a|], (value y) as [b|], (value z) as [d|]; try done. apply (comparator_eq c Hc).
  - intros x y z. destruct (value x) as [a|], (value y) as [b|], (value z) as [d|]; try done. apply (comparator_lt c Hc).
Qed.

Lemma compare_rows_comparator sort descending : comparator (compare_rows sort descending).
Proof.
  assert (Hh : comparator (fun a b => cmp (row_host a) (row_host b))) by exact (comparator_key row_host).
  assert (Hp : comparator (fun a b => cmp (row_path a) (row_path b))) by exact (comparator_key row_path).
  pose proof (comparator_then _ _ Hh Hp) as Hn.
  assert (Hd : comparator (fun a b =>
    match sort with
    | By_host => if descending then CompOpp (then_with (cmp (row_host a) (row_host b)) (cmp (row_path a) (row_path b)))
                 else then_with (cmp (row_host a) (row_host b)) (cmp (row_path a) (row_path b))
    | By_rps => compare_optional (row_rps a) (row_rps b) descending
    | By_errors => compare_optional (row_error_rate_percent a) (row_error_rate_percent b) descending
    | By_latency => compare_optional (row_avg_latency_ms a) (row_avg_latency_ms b) descending
    end)).
  { destruct sort; try apply comparator_optional. destruct descending; [by apply comparator_opp|done]. }
  pose proof (comparator_then _ _ (comparator_then _ _ Hd Hh) Hp) as H. clear Hh Hp Hn Hd.
  by destruct sort.
Qed.

(** The column a row is sorted by. *)
Definition column (sort : Sort) (r : RouteRow) : option f64 :=
  match sort with
  | By_rps => row_rps r
  | By_errors => row_error_rate_percent r
  | By_latency => row_avg_latency_ms r
  | By_host => Some S754_nan
  end.

Lemma no_value_after sort descending a b :
  column sort a = None -> is_Some (column sort b) -> rows_le sort descending a b = false.
Proof. intros Ha [v Hb]. unfold rows_le, compare_rows. destruct sort; simpl in *; try done; by rewrite Ha, Hb. Qed.

Lemma rows_le_total sort descending a b : rows_le sort descending a b = false -> rows_le sort descending b a = true.
Proof.
  unfold rows_le. rewrite (comparator_flip _ (compare_rows_comparator sort descending) a b). by destruct (compare_rows _ _ a b).
Qed.
Lemma rows_le_trans sort descending a b c :
  rows_le sort descending a b = true -> rows_le sort descending b c = true -> rows_le sort descending a c = true.
Proof.
  pose proof (compare_rows_comparator sort descending) as Hc. unfold rows_le.
  destruct (compare_rows sort descending a b) eqn:E1; [by rewrite (comparator_eq _ Hc a b c E1)| |done].
  destruct (compare_rows sort descending b c) eqn:E2; [|by rewrite (comparator_lt _ Hc a b c E1 E2)|done].
  intros _ _.
  assert (E : compare_rows sort descending c b = Eq) by (by rewrite (comparator_flip _ Hc b c), E2).
  by rewrite (comparator_flip _ Hc c a), (comparator_eq _ Hc c b a E), (comparator_flip _ Hc a b), E1.
Qed.

Lemma sort_rows_sorted rows sort descending :
  StronglySorted (fun a b => rows_le sort descending a b = true) (sort_rows rows sort descending).
Proof. apply sort_by_sorted; [apply rows_le_total|apply rows_le_trans]. Qed.

(** Two rows that compare equal have the same host and path. *)
Lemma rows_tie sort descending a b :
  rows_le sort descending a b = true -> rows_le sort descending b a = true ->
  (row_host a, row_path a) = (row_host b, row_path b).
Proof.
  pose proof (compare_rows_comparator sort descending) as Hc. unfold rows_le.
  rewrite (comparator_flip _ Hc a b). destruct (compare_rows sort descending a b) eqn:E; try done. intros _ _.
  unfold compare_rows in E. cbv zeta in E.
  destruct (then_with _ (cmp (row_host a) (row_host b))) eqn:E1; try done. cbn [then_with] in E.
  assert (E2 : cmp (row_host a) (row_host b) = Eq).
  { revert E1. match goal with |- then_with ?x _ = Eq -> _ => by destruct x end. }
  apply cmp_eq in E2 as ->. by apply cmp_eq in E as ->.
Qed.

(** The table on the screen does not jump.  For every column and both
    directions the rows shown are the rows given, in the order of the column;
    a row without a value for it comes after every row with one, ascending or
    descending; and as long as no two rows have the same host and path, the
    order depends on the rows alone and not on the order they were received
    in, which changes with every generation. *)
Theorem rows_in_order rows sort descending :
  sort_rows rows sort descending ≡ₚ rows /\
  StronglySorted (fun a b => compare_rows sort descending a b <> Gt) (sort_rows rows sort descending) /\
  (forall i j a b, sort_rows rows sort descending !! i = Some a -> sort_rows rows sort descending !! j = Some b ->
    column sort a = None -> is_Some (column sort b) -> (j < i)%nat) /\
  (forall rows', NoDup (map (fun r => (row_host r, row_path r)) rows) -> rows' ≡ₚ rows ->
    sort_rows rows' sort descending = sort_rows rows sort descending).
Proof.
  assert (Hs : forall l, StronglySorted (fun a b => rows_le sort descending a b = true) (sort_rows l sort descending)).
  { intros l. apply sort_rows_sorted. }
  split_and!.
  - apply sort_by_perm.
  - eapply strongly_sorted_impl; [|apply Hs]. intros a b. unfold rows_le. by destruct (compare_rows _ _ a b).
  - intros i j a b Hi Hj Ha Hb. pose proof (no_value_after sort descending a b Ha Hb) as Hn.
    destruct (decide (j < i)%nat) as [|Hge]; [done|]. exfalso. destruct (decide (i = j)) as [->|Hne].
    + rewrite Hi in Hj. injection Hj as <-. rewrite Ha in Hb. by destruct Hb.
    + pose proof (strongly_sorted_lookup _ _ i j a b (Hs rows) Hi Hj ltac:(lia)) as Hle. simpl in Hle. congruence.
  - intros rows' Hnd Hp. apply (sorted_unique_on (fun a b => rows_le sort descending a b = true)); [|apply Hs..|].
    + intros a b Ha Hb Hab Hba. pose proof (rows_tie sort descending a b Hab Hba) as Htie.
      apply elem_of_sort_by in Ha, Hb. rewrite Hp in Ha, Hb.
      apply list_elem_of_lookup in Ha as [i Hi]. apply list_elem_of_lookup in Hb as [j Hj].
      assert (i = j) as ->; [|congruence].
      eapply (NoDup_lookup _ i j (row_host a, row_path a)); [exact Hnd|..];
        rewrite list_lookup_fmap, ?Hi, ?Hj; simpl; congruence.
    + unfold sort_rows. by rewrite !sort_by_perm.
Qed.
