(* ===== verification/Config.v ===== *)
(** The compiled artifact and the names inside it:
    [crates/ramjet-controller/src/config.rs], with the [ObjectKey] of
    [translate.rs].

    A [Duration] is a number of nanoseconds.  Rendering an error is kept apart
    from the error itself, as [thiserror] does. *)

From S2P Require Import Prelude Order NetText RouterTypes Canary Paths Stats Backends Table Annotations.

Definition CONTROLLER_NAME : str := bstr "ramjet.dev/ingress".

(** ** Object names *)

Record ObjectKey := MkObjectKey { ok_namespace : str; ok_name : str }.
#[export] Instance ObjectKey_eq_dec : EqDecision ObjectKey.
Proof. solve_decision. Defined.
#[export] Instance ObjectKey_countable : Countable ObjectKey.
Proof.
  refine (inj_countable' (fun k => (ok_namespace k, ok_name k)) (fun p => MkObjectKey p.1 p.2) _).
  by intros [].
Defined.
#[export] Instance ObjectKey_ord : Ord ObjectKey := key_ord (fun k => (ok_namespace k, ok_name k)).
#[export] Instance ObjectKey_ord_laws : OrdLaws ObjectKey.
Proof. apply key_ord_laws. by intros [] [] [= -> ->]. Qed.

Definition key_text (k : ObjectKey) : str :=
  if bool_decide (ok_namespace k = []) then ok_name k
  else ok_namespace k ++ chr "/" :: ok_name k.

(** ** Service ports *)

Inductive BackendPort :=
| Port_Number (n : Z)
| Port_Name (name : str).
#[export] Instance BackendPort_eq_dec : EqDecision BackendPort.
Proof. solve_decision. Defined.

(** The [Display] of an [i32]. *)
Definition i32_text (n : Z) : str := if n <? 0 then chr "-" :: to_string (- n) else to_string n.
Definition port_text (p : BackendPort) : str :=
  match p with Port_Number n => i32_text n | Port_Name n => n end.

Record ServiceRef := MkServiceRef { sr_namespace : str; sr_name : str; sr_port : BackendPort }.
#[export] Instance ServiceRef_eq_dec : EqDecision ServiceRef.
Proof. solve_decision. Defined.

(** Derived order: a number sorts before a name. *)
Definition port_key (p : BackendPort) : Z * (Z * str) :=
  match p with Port_Number n => (0, (n, [])) | Port_Name n => (1, (0, n)) end.
Definition ref_key (r : ServiceRef) : str * (str * (Z * (Z * str))) :=
  (sr_namespace r, (sr_name r, port_key (sr_port r))).
#[export] Instance ref_key_inj : Inj (=) (=) ref_key.
Proof. intros [a b [n|n]] [a' b' [n'|n']] [=]; subst; done. Qed.
#[export] Instance ServiceRef_ord : Ord ServiceRef := key_ord ref_key.
#[export] Instance ServiceRef_ord_laws : OrdLaws ServiceRef.
Proof. apply key_ord_laws, _. Qed.
#[export] Instance ServiceRef_countable : Countable ServiceRef.
Proof.
  refine (inj_countable' ref_key (fun k =>
    MkServiceRef k.1 k.2.1 (if k.2.2.1 =? 0 then Port_Number k.2.2.2.1 else Port_Name k.2.2.2.2)) _).
  by intros [? ? []].
Defined.

Definition backend_name (r : ServiceRef) : str :=
  sr_namespace r ++ chr "/" :: sr_name r ++ chr ":" :: port_text (sr_port r).

Inductive ServiceRefError :=
| Shape (input : str)
| Bad_port (input port : str).

Definition service_ref_error_text (e : ServiceRefError) : str :=
  match e with
  | Shape s => chr "`" :: s ++ bstr "` is not of the form `namespace/name:port`"
  | Bad_port input port =>
      chr "`" :: port ++ bstr "` in `" ++ input ++ bstr "` is not a valid port number or name"
  end.

(** [rsplit_once]: around the last occurrence. *)
Definition rsplit_once (c : u8) (s : str) : option (str * str) :=
  '(x, y) ← split_once c (rev s); Some (rev y, rev x).

Definition i32_max : Z := 2147483647.

Definition service_ref_parse (s : str) : result ServiceRefError ServiceRef :=
  '(namespace, rest) ← ok_or (split_once (chr "/") s) (Shape s);
  '(name, port) ← ok_or (rsplit_once (chr ":") rest) (Shape s);
  if bool_decide (namespace = []) || bool_decide (name = []) || bool_decide (port = []) then Err (Shape s)
  else
    p ← (if match port with b :: _ => is_ascii_digit b | [] => false end
         then n ← ok_or (parse_signed (- i32_max - 1) i32_max port) (Bad_port s port); Ok (Port_Number n)
         else Ok (Port_Name port));
    Ok (MkServiceRef namespace name p).

(** ** One generation of configuration *)

Record PromotionRoute := MkPromotionRoute { pr_host : str; pr_path : str; pr_path_type : PathType }.
Record PromotionTarget := MkPromotionTarget {
  pt_ingress : ObjectKey;
  pt_uid : option str;
  pt_routes : list PromotionRoute;
  pt_weight : u32;
  pt_policy : PromotionAnnotations;
}.

Record CertMaterial := MkCertMaterial {
  handle_id : u64;
  cert_chain_pem : bytes;
  key_pem : bytes;
}.

Record CompiledConfig `{RegexEngine} := MkCompiledConfig {
  config_table : RouteTable;
  certs : list CertMaterial;
  promotions : list PromotionTarget;
  config_digest : u64;
}.
Arguments MkCompiledConfig {_} config_table certs promotions config_digest.

Record ControllerOpts := MkControllerOpts {
  opts_namespace : option str;
  class_name : str;
  opts_default_backend : option ServiceRef;
  default_tls_secret : option str;
  publish_address : option str;
  publish_service : option str;
  update_status : bool;
  debounce : Z;
  lb_policy : LbPolicy;
}.
Definition ControllerOpts_default : ControllerOpts :=
  MkControllerOpts None (bstr "ramjet") None None None None true 200000000 RoundRobin.

(** ** Names that can be read back *)

(** What the API server's validation and [service_ref_parse] both leave: a
    namespace without a slash, and a port that is a non-negative number or a
    name no number is written as. *)
Definition port_ok (p : BackendPort) : Prop :=
  match p with
  | Port_Number n => 0 <= n <= i32_max
  | Port_Name s => chr ":" ∉ s /\ exists b s', s = b :: s' /\ is_ascii_digit b = false
  end.
Definition addressable (r : ServiceRef) : Prop :=
  sr_namespace r <> [] /\ chr "/" ∉ sr_namespace r /\ sr_name r <> [] /\ port_ok (sr_port r).

Lemma elem_of_rev {A : Type} (x : A) l : x ∈ rev l <-> x ∈ l.
Proof. rewrite !list_elem_of_In. symmetry. apply in_rev. Qed.

Lemma rsplit_once_Some c s x y : rsplit_once c s = Some (x, y) <-> s = x ++ c :: y /\ c ∉ y.
Proof.
  unfold rsplit_once. destruct (split_once c (rev s)) as [[a b]|] eqn:E; simpl.
  - apply split_once_Some in E as [Hs Ha]. assert (s = rev b ++ c :: rev a) as Hrev.
    { rewrite <- (rev_involutive s), Hs, rev_app_distr. simpl. by rewrite <- app_assoc. }
    split.
    + intros [= <- <-]. split; [done|]. by rewrite elem_of_rev in *.
    + intros [Hs' Hy]. assert (Hr : rev s = rev y ++ c :: rev x).
      { rewrite Hs', rev_app_distr. simpl. by rewrite <- app_assoc. }
      assert (Hy' : c ∉ rev y) by (by rewrite elem_of_rev).
      pose proof (proj2 (split_once_Some c (rev s) _ _) (conj Hr Hy')) as E1.
      pose proof (proj2 (split_once_Some c (rev s) _ _) (conj Hs Ha)) as E2.
      rewrite E1 in E2. injection E2 as <- <-. by rewrite !rev_involutive.
  - split; [done|]. intros [-> Hy]. rewrite rev_app_distr in E. simpl in E.
    rewrite <- app_assoc in E. simpl in E.
    rewrite (proj2 (split_once_Some c _ (rev y) (rev x))) in E; [done|].
    split; [done|]. by rewrite elem_of_rev.
Qed.

Lemma to_string_digits n : 0 <= n -> all_digits (to_string n) /\ to_string n <> [].
Proof. split; [by apply decimal_fuel_digits|apply decimal_fuel_ne]. Qed.

Lemma port_text_ok p : port_ok p -> chr ":" ∉ port_text p /\ port_text p <> [].
Proof.
  destruct p as [n|s]; simpl.
  - intros Hn. unfold i32_text. replace (n <? 0) with false by lia.
    destruct (to_string_digits n) as [Hd Hne]; [lia|]. split; [|done].
    intros Hin. unfold all_digits in Hd. rewrite Forall_forall in Hd. specialize (Hd _ Hin). done.
  - intros [Hc (b&s'&->&_)]. done.
Qed.

Lemma service_ref_parse_name r : addressable r -> service_ref_parse (backend_name r) = Ok r.
Proof.
  intros (Hns&Hslash&Hname&Hport). destruct r as [ns name port]. unfold service_ref_parse, backend_name. simpl in *.
  destruct (port_text_ok port Hport) as [Hcolon Hne].
  rewrite (proj2 (split_once_Some (chr "/") _ ns (name ++ chr ":" :: port_text port))) by done. cbn.
  rewrite (proj2 (rsplit_once_Some (chr ":") _ name (port_text port))) by done. cbn.
  rewrite !bool_decide_eq_false_2 by done. simpl. destruct port as [n|s]; simpl in *.
  - unfold i32_text in *. replace (n <? 0) with false in * by lia. destruct (to_string_digits n) as [Hd _]; [lia|].
    assert (Hv : digits_value (to_string n) = n) by (apply digits_value_decimal; unfold i32_max in Hport; lia).
    destruct (to_string n) as [|b t] eqn:E; [done|].
    assert (Hb : is_ascii_digit b = true) by (by apply Forall_cons in Hd as [? _]). rewrite Hb.
    rewrite parse_signed_digits; [by rewrite Hv|done|done|unfold i32_max in *; lia].
  - destruct Hport as [_ (b&s'&->&Hb)]. by rewrite Hb.
Qed.

Lemma service_ref_parse_ok s r : service_ref_parse s = Ok r -> addressable r.
Proof.
  unfold service_ref_parse. destruct (split_once (chr "/") s) as [[ns rest]|] eqn:E1; [|done]. simpl.
  apply split_once_Some in E1 as [-> Hns].
  destruct (rsplit_once (chr ":") rest) as [[name port]|] eqn:E2; [|done]. simpl.
  apply rsplit_once_Some in E2 as [-> Hport].
  case_bool_decide as H1; [done|]. case_bool_decide as H2; [done|]. case_bool_decide as H3; [done|]. simpl.
  destruct port as [|b port]; [done|]. destruct (is_ascii_digit b) eqn:Hb.
  - destruct (parse_signed _ _ (b :: port)) as [n|] eqn:Hn; [|done]. simpl. intros [= <-].
    unfold addressable. simpl. split_and!; try done.
    all: pose proof (parse_signed_digit_head _ _ _ _ _ Hb Hn); lia.
  - simpl. intros [= <-]. unfold addressable. simpl. split_and!; try done. by exists b, port.
Qed.

Lemma backend_name_inj r r' : addressable r -> addressable r' -> backend_name r = backend_name r' -> r = r'.
Proof.
  intros Hr Hr' Heq. apply service_ref_parse_name in Hr, Hr'. rewrite Heq in Hr. congruence.
Qed.

(** * Properties *)

(** A reference that was read can be written and read back: whatever
    [namespace/name:port] text is accepted, the backend name made from it is
    accepted again and names the same Service port, so two references have the
    same backend name only when they are the same. *)
Theorem service_ref_roundtrip (s : str) (r : ServiceRef) (Hs : service_ref_parse s = Ok r) :
  service_ref_parse (backend_name r) = Ok r /\
  forall s' r', service_ref_parse s' = Ok r' -> backend_name r' = backend_name r -> r' = r.
Proof.
  pose proof (service_ref_parse_ok s r Hs) as Hr. split; [by apply service_ref_parse_name|].
  intros s' r' Hs' Heq. apply backend_name_inj; [by eapply service_ref_parse_ok|done|done].
Qed.

Lemma service_ref_roundtrip_witness :
  service_ref_parse (bstr "default/web:080") = Ok (MkServiceRef (bstr "default") (bstr "web") (Port_Number 80)) /\
  service_ref_parse (bstr "default/web:80") = Ok (MkServiceRef (bstr "default") (bstr "web") (Port_Number 80)).
Proof.
  split; [vm_compute; reflexivity|].
  exact (proj1 (service_ref_roundtrip (bstr "default/web:080")
    (MkServiceRef (bstr "default") (bstr "web") (Port_Number 80)) ltac:(vm_compute; reflexivity))).
Defined.
