(* ===== verification/Promotion.v ===== *)
(** Canary auto-promotion: [crates/ramjet-ingressd/src/promotion.rs], with the
    derived numbers of [RouteTotals] in [stats.rs].

    [decide] is the pure decision table; [Promoter] is the loop's memory, and
    [pass] one pass over the targets of a generation.  The cluster answers a
    patch through [patch], the route table and the counters a target is read
    from come from [view], and the clock is an argument.  Adding an interval to
    a clock reading panics past the last representable instant, so a pass
    returns an option.  Log lines are not modelled; what reaches the cluster and
    the audit sink is, as a list of effects in order. *)

From Stdlib Require Import SpecFloat.
From S2P Require Import Prelude Order NetText F64 RouterTypes Canary Paths Stats Backends Table Annotations Config.

Definition IDLE_POLL : Z := seconds 30.
Definition MIN_TICK : Z := seconds 1.

(** The last [Instant] of the platform: a signed 64-bit count of seconds. *)
Definition INSTANT_MAX : Z := seconds (2 ^ 63) - 1.
Definition instant_add (now d : Z) : option Z := if now + d <=? INSTANT_MAX then Some (now + d) else None.

(** ** Derived numbers of a reading *)

Definition upstream_latency_ms (t : RouteTotals) : f64 :=
  f64_div (f64_of_u64 (upstream_latency_micros t)) (f64_of_u64 1000).
Definition error_percent (t : RouteTotals) : option f64 :=
  if 0 <? requests t
  then Some (f64_div (f64_mul (f64_of_u64 (errors_5xx t)) (f64_of_u64 100)) (f64_of_u64 (requests t)))
  else None.
Definition avg_latency_ms (t : RouteTotals) : option f64 :=
  if 0 <? upstream_latency_count t
  then Some (f64_div (upstream_latency_ms t) (f64_of_u64 (upstream_latency_count t)))
  else None.

(** ** The decision *)

Record Window := MkWindow { w_canary : RouteTotals; w_stable : RouteTotals }.

Inductive Verdict :=
| Hold_LowTraffic (canary stable : u64)
| Step (to : u32)
| Promote
| RollBack (reason : str).

Definition error_reason (percent budget : f64) : str :=
  bstr "5xx " ++ fixed 2 percent ++ bstr "% over " ++ fixed 2 budget ++ bstr "%".
Definition latency_reason (canary ceiling stable factor : f64) : str :=
  bstr "latency " ++ fixed 1 canary ++ bstr "ms over " ++ fixed 1 ceiling ++ bstr "ms ("
  ++ fixed 1 stable ++ bstr "ms x " ++ fixed 2 factor ++ bstr ")".

(** The two gates, in order: why the canary must go, if it must. *)
Definition breach (policy : PromotionAnnotations) (w : Window) : option str :=
  let over_budget :=
    percent ← error_percent (w_canary w);
    if f64_gt percent (pa_max_5xx_percent policy)
    then Some (error_reason percent (pa_max_5xx_percent policy)) else None in
  match over_budget with
  | Some reason => Some reason
  | None =>
      canary ← avg_latency_ms (w_canary w);
      stable ← avg_latency_ms (w_stable w);
      let ceiling := f64_mul stable (pa_max_latency_factor policy) in
      if f64_gt canary ceiling
      then Some (latency_reason canary ceiling stable (pa_max_latency_factor policy)) else None
  end.

Definition decide_promotion (policy : PromotionAnnotations) (weight : u32) (w : Window) : Verdict :=
  if (requests (w_canary w) <? pa_min_requests policy) || (requests (w_stable w) <? pa_min_requests policy)
  then Hold_LowTraffic (requests (w_canary w)) (requests (w_stable w))
  else
    match breach policy w with
    | Some reason => RollBack reason
    | None =>
        match next_step policy weight with
        | Some to => Step to
        | None => Promote
        end
    end.

Definition is_finished (policy : PromotionAnnotations) : bool :=
  rolled_back policy || bool_decide (pa_status policy = Some STATUS_PROMOTED).

(** ** The loop *)

Definition host_matches (host : RouteHost) (wanted : str) : bool :=
  match host with
  | RouteHost_Exact name => bool_decide (wanted = name)
  | RouteHost_Wildcard parent => bool_decide (strip_prefix (bstr "*.") wanted = Some parent)
  | RouteHost_CatchAll => bool_decide (wanted = bstr "*")
  end.

Record Baseline := MkBaseline { base_totals : RouteTotals; base_canary : RouteTotals }.
Definition Baseline_default : Baseline := MkBaseline RouteCounters_default RouteCounters_default.
Definition base_stable (b : Baseline) : RouteTotals := totals_saturating_sub (base_totals b) (base_canary b).

Inductive AuditReason :=
| ConfigApplied | ConfigPinned | ConfigResumed | CanaryStepped | CanaryPromoted | CanaryRolledBack.

Record CanaryDecision := MkCanaryDecision {
  cdn_ingress : str;
  cdn_subject : option (str * str * str);
  cdn_from_weight : u32;
  cdn_to_weight : u32;
  cdn_detail : str;
  cdn_canary_requests : u64;
  cdn_canary_5xx_percent : f64;
  cdn_canary_latency_ms : f64;
  cdn_stable_requests : u64;
  cdn_stable_5xx_percent : f64;
  cdn_stable_latency_ms : f64;
}.

Inductive Effect :=
| Patch (ingress : ObjectKey) (annotations : list (str * str))
| Audit (reason : AuditReason) (decision : CanaryDecision).

Record Promoter := MkPromoter {
  baselines : gmap ObjectKey Baseline;
  due : gmap ObjectKey Z;
  finished : gset ObjectKey;
  pinned_reported : bool;
}.
Definition Promoter_new : Promoter := MkPromoter ∅ ∅ ∅ false.

Section promoter.
Context {E : RegexEngine} `{HashOrder}.

Definition route_wanted (host : RouteHost) (rule : PathRule) (wanted : PromotionRoute) : bool :=
  host_matches host (pr_host wanted) && bool_decide (pr_path wanted = rule_path rule)
  && bool_decide (pr_path_type wanted = rule_path_type rule).

(** One route of the table: the reading so far, and whether one was found. *)
Definition read_route (table : RouteTable) (store : RouteStore) (wanted : list PromotionRoute)
    (acc : Baseline * bool) (entry : RouteHost * PathRule) : Baseline * bool :=
  let '(host, rule) := entry in
  if existsb (route_wanted host rule) wanted then
    match (i ← route_slot (routes table) (rule_stats_index rule); store !! i) with
    | None => acc
    | Some slot =>
        (MkBaseline (totals_add (base_totals acc.1) (totals slot))
           (totals_add (base_canary acc.1) (canary_totals slot)), true)
    end
  else acc.
Definition read (table : RouteTable) (store : RouteStore) (wanted : list PromotionRoute) : option Baseline :=
  let '(reading, found) :=
    foldl (read_route table store wanted) (Baseline_default, false) (table_routes table) in
  if found : bool then Some reading else None.

(** What a verdict writes: the reason, the sentence, the weight after it and
    the annotations; nothing for a hold. *)
Definition verdict_writes (target : PromotionTarget) (v : Verdict)
    : option (AuditReason * str * u32 * list (str * str)) :=
  match v with
  | Hold_LowTraffic _ _ => None
  | Step to =>
      Some (CanaryStepped,
        bstr "canary healthy; weight " ++ to_string (pt_weight target) ++ bstr " -> " ++ to_string to,
        to, [(ANNOTATION_CANARY_WEIGHT, to_string to)])
  | Promote =>
      Some (CanaryPromoted,
        bstr "canary healthy at " ++ to_string (pt_weight target)
        ++ bstr "%, the last step; swap the production backend when ready",
        pt_weight target, [(ANNOTATION_AUTO_PROMOTE_STATUS, STATUS_PROMOTED)])
  | RollBack reason =>
      Some (CanaryRolledBack,
        bstr "rolled back from " ++ to_string (pt_weight target) ++ bstr "%: " ++ reason, 0,
        [(ANNOTATION_CANARY_WEIGHT, bstr "0"); (ANNOTATION_AUTO_PROMOTE, bstr "false");
         (ANNOTATION_AUTO_PROMOTE_STATUS, STATUS_ROLLED_BACK ++ bstr ": " ++ reason)])
  end.

Definition is_terminal (v : Verdict) : bool :=
  match v with Promote | RollBack _ => true | _ => false end.

Definition decision_of (target : PromotionTarget) (w : Window) (detail : str) (to_weight : u32)
    : CanaryDecision :=
  MkCanaryDecision (key_text (pt_ingress target))
    ((fun uid => (ok_namespace (pt_ingress target), ok_name (pt_ingress target), uid)) <$> pt_uid target)
    (pt_weight target) to_weight detail
    (requests (w_canary w)) (default (S754_zero false) (error_percent (w_canary w)))
    (default (S754_zero false) (avg_latency_ms (w_canary w)))
    (requests (w_stable w)) (default (S754_zero false) (error_percent (w_stable w)))
    (default (S754_zero false) (avg_latency_ms (w_stable w))).

Context (patch : ObjectKey -> list (str * str) -> result str unit).

Definition apply_verdict (target : PromotionTarget) (w : Window) (v : Verdict) (p : Promoter)
    : Promoter * list Effect :=
  match verdict_writes target v with
  | None => (p, [])
  | Some (reason, detail, to_weight, annotations) =>
      match patch (pt_ingress target) annotations with
      | Err _ => (p, [Patch (pt_ingress target) annotations])
      | Ok _ =>
          (if is_terminal v
           then MkPromoter (baselines p) (due p) ({[ pt_ingress target ]} ∪ finished p) (pinned_reported p)
           else p,
           [Patch (pt_ingress target) annotations; Audit reason (decision_of target w detail to_weight)])
      end
  end.

Definition window_between (previous reading : Baseline) : Window :=
  MkWindow (totals_saturating_sub (base_canary reading) (base_canary previous))
    (totals_saturating_sub (base_stable reading) (base_stable previous)).

Context (view : ObjectKey -> RouteTable * RouteStore).

Definition evaluate (target : PromotionTarget) (p : Promoter) : Promoter * list Effect :=
  let '(table, store) := view (pt_ingress target) in
  match read table store (pt_routes target) with
  | None => (p, [])
  | Some reading =>
      let previous := baselines p !! pt_ingress target in
      let p1 := MkPromoter (<[pt_ingress target := reading]> (baselines p)) (due p) (finished p)
                  (pinned_reported p) in
      match previous with
      | None => (p1, [])
      | Some previous =>
          let w := window_between previous reading in
          apply_verdict target w (decide_promotion (pt_policy target) (pt_weight target) w) p1
      end
  end.

Definition with_due (p : Promoter) (d : gmap ObjectKey Z) : Promoter :=
  MkPromoter (baselines p) d (finished p) (pinned_reported p).

(** One target of a pass; [next] is the shortest sleep so far. *)
Definition pass_target (now : Z) (acc : Promoter * Z * list Effect) (target : PromotionTarget)
    : option (Promoter * Z * list Effect) :=
  let '(p, next, out) := acc in
  let key := pt_ingress target in
  if is_finished (pt_policy target) || bool_decide (key ∈ finished p) then Some acc
  else
    let deadline := default now (due p !! key) in
    let p := with_due p (<[key := deadline]> (due p)) in
    if now <? deadline then Some (p, Z.min next (deadline - now), out)
    else
      again ← instant_add now (pa_interval (pt_policy target));
      let p := with_due p (<[key := again]> (due p)) in
      let '(p, effects) := evaluate target p in
      Some (p, Z.min next (pa_interval (pt_policy target)), out ++ effects).

Fixpoint pass_loop (now : Z) (targets : list PromotionTarget) (acc : Promoter * Z * list Effect)
    : option (Promoter * Z * list Effect) :=
  match targets with
  | [] => Some acc
  | target :: rest => acc ← pass_target now acc target; pass_loop now rest acc
  end.

(** Forgetting what is no longer a target. *)
Definition forget (live : gset ObjectKey) (p : Promoter) : Promoter :=
  MkPromoter (filter (fun kv => kv.1 ∈ live) (baselines p)) (filter (fun kv => kv.1 ∈ live) (due p))
    (filter (fun k => k ∈ live) (finished p)) (pinned_reported p).

(** One pass: the promoter after it, how long to sleep, and the effects. *)
Definition pass (pinned : option u64) (targets : list PromotionTarget) (now : Z) (p : Promoter)
    : option (Promoter * Z * list Effect) :=
  match pinned with
  | Some _ => Some (MkPromoter (baselines p) (due p) (finished p) true, IDLE_POLL, [])
  | None =>
      let p := MkPromoter (baselines p) (due p) (finished p) false in
      let p := forget (list_to_set (map pt_ingress targets)) p in
      '(p, next, out) ← pass_loop now targets (p, IDLE_POLL, []);
      Some (p, Z.max next MIN_TICK, out)
  end.

(** One turn of [run]: with no targets it waits for a generation instead of
    passing, [None] for the sleep. *)
Definition run_turn (pinned : option u64) (targets : list PromotionTarget) (now : Z) (p : Promoter)
    : option (Promoter * option Z * list Effect) :=
  match targets with
  | [] => Some (p, None, [])
  | _ => '(p, sleep, out) ← pass pinned targets now p; Some (p, Some sleep, out)
  end.
End promoter.

(** ** The rollout as the cluster sees it *)

Definition armed (a : annotations) : bool :=
  ca_enabled (canary_parse a) && pa_enabled (promotion_parse a).
Definition rollout_target (key : ObjectKey) (uid : option str) (routes : list PromotionRoute)
    (a : annotations) : PromotionTarget :=
  MkPromotionTarget key uid routes (ca_weight (canary_parse a)) (promotion_parse a).

(** A merge patch of [metadata.annotations]. *)
Definition merge_patch (edits : list (str * str)) (a : annotations) : annotations :=
  foldl (fun m '(k, v) => <[k := v]> m) a edits.

(** The edits a pass may send for a canary it reads as [a], on the window [w]. *)
Definition decided (key : ObjectKey) (a : annotations) (w : Window) (edits : list (str * str)) : Prop :=
  armed a = true /\ is_finished (promotion_parse a) = false /\
  exists uid wanted reason detail weight,
    verdict_writes (rollout_target key uid wanted a)
      (decide_promotion (promotion_parse a) (ca_weight (canary_parse a)) w) = Some (reason, detail, weight, edits).

(** Whether edits end the rollout: they write its status. *)
Definition ends (edits : list (str * str)) : bool :=
  existsb (fun kv => bool_decide (kv.1 = ANNOTATION_AUTO_PROMOTE_STATUS)) edits.

(** The patches a rollout still has to its name: one per step above the
    weight, and the one that ends it. *)
Definition steps_above (a : annotations) : list u32 :=
  List.filter (fun s => ca_weight (canary_parse a) <? s) (pa_steps (promotion_parse a)).
Definition budget (a : annotations) : nat :=
  if armed a && negb (is_finished (promotion_parse a)) then S (length (steps_above a)) else 0.

Lemma get_trimmed_ne a k k' v : k <> k' -> get_trimmed (<[k' := v]> a) k = get_trimmed a k.
Proof. intros Hk. unfold get_trimmed. by rewrite lookup_insert_ne. Qed.

Lemma get_trimmed_prefix a k p s :
  p <> [] -> Forall plain p -> exists t, get_trimmed (<[k := p ++ s]> a) k = Some (p ++ t).
Proof.
  intros Hne Hp. unfold get_trimmed. rewrite lookup_insert_eq. simpl.
  destruct (str_trim_prefix p s Hne Hp) as [t ->]. exists t.
  rewrite bool_decide_eq_false_2; [done|]. by destruct p.
Qed.

Lemma canary_number_ne a k k' v : k <> k' -> canary_number (<[k' := v]> a) k = canary_number a k.
Proof. intros Hk. unfold canary_number. by rewrite lookup_insert_ne. Qed.

Lemma setting_ne {A : Type} a k k' v (parse : str -> option A) d :
  k <> k' -> setting (<[k' := v]> a) k parse d = setting a k parse d.
Proof. intros Hk. unfold setting. by rewrite get_trimmed_ne. Qed.

(** Writing a key the promotion parser does not read. *)
Lemma promotion_parse_weight a v : promotion_parse (<[ANNOTATION_CANARY_WEIGHT := v]> a) = promotion_parse a.
Proof. unfold promotion_parse. by rewrite !setting_ne, !get_trimmed_ne by done. Qed.

Lemma canary_fields a :
  ca_weight (canary_parse a) = (canary_number a ANNOTATION_CANARY_WEIGHT).1 /\
  ca_enabled (canary_parse a) = (match a !! ANNOTATION_CANARY with Some v => is_true_text v | None => false end).
Proof. unfold canary_parse. by destruct (canary_number a ANNOTATION_CANARY_WEIGHT), (canary_number a ANNOTATION_CANARY_WEIGHT_TOTAL). Qed.

Lemma weight_written a n :
  0 <= n <= u32_max -> ca_weight (canary_parse (<[ANNOTATION_CANARY_WEIGHT := to_string n]> a)) = n.
Proof.
  intros Hn. rewrite (proj1 (canary_fields _)). unfold canary_number. rewrite lookup_insert_eq.
  unfold u32_max in *. rewrite str_trim_plain by (apply decimal_fuel_plain; lia).
  by rewrite parse_unsigned_to_string by lia.
Qed.

Lemma weight_untouched a k v :
  k <> ANNOTATION_CANARY_WEIGHT -> ca_weight (canary_parse (<[k := v]> a)) = ca_weight (canary_parse a).
Proof. intros Hk. rewrite !(proj1 (canary_fields _)). by rewrite canary_number_ne. Qed.

Lemma enabled_untouched a k v :
  k <> ANNOTATION_CANARY -> ca_enabled (canary_parse (<[k := v]> a)) = ca_enabled (canary_parse a).
Proof. intros Hk. rewrite !(proj2 (canary_fields _)). by rewrite lookup_insert_ne. Qed.

Lemma promotion_status a :
  pa_status (promotion_parse a) = get_trimmed a ANNOTATION_AUTO_PROMOTE_STATUS /\
  pa_enabled (promotion_parse a) =
    (match get_trimmed a ANNOTATION_AUTO_PROMOTE with Some v => is_true_text v | None => false end).
Proof.
  unfold promotion_parse. by destruct (setting a ANNOTATION_AUTO_PROMOTE_INTERVAL _ _),
    (setting a ANNOTATION_AUTO_PROMOTE_STEPS _ _), (setting a ANNOTATION_AUTO_PROMOTE_MAX_5XX _ _),
    (setting a ANNOTATION_AUTO_PROMOTE_MAX_LATENCY _ _), (setting a ANNOTATION_AUTO_PROMOTE_MIN_REQUESTS _ _).
Qed.

Lemma status_promoted a :
  is_finished (promotion_parse (<[ANNOTATION_AUTO_PROMOTE_STATUS := STATUS_PROMOTED]> a)) = true.
Proof.
  unfold is_finished. rewrite bool_decide_eq_true_2; [by rewrite orb_true_r|].
  rewrite (proj1 (promotion_status _)). unfold get_trimmed. rewrite lookup_insert_eq. by vm_compute.
Qed.

(** What a rollback leaves: no weight, disarmed, marked. *)
Definition disarmed (a : annotations) : Prop :=
  ca_weight (canary_parse a) = 0 /\ pa_enabled (promotion_parse a) = false /\
  rolled_back (promotion_parse a) = true.

Lemma rollback_disarms a reason :
  disarmed (merge_patch [(ANNOTATION_CANARY_WEIGHT, bstr "0"); (ANNOTATION_AUTO_PROMOTE, bstr "false");
    (ANNOTATION_AUTO_PROMOTE_STATUS, STATUS_ROLLED_BACK ++ bstr ": " ++ reason)] a).
Proof.
  unfold merge_patch. cbn [foldl]. split_and!.
  - rewrite !weight_untouched by done. by apply (weight_written a 0).
  - rewrite (proj2 (promotion_status _)), get_trimmed_ne by done. unfold get_trimmed.
    rewrite lookup_insert_eq. by vm_compute.
  - unfold rolled_back. rewrite (proj1 (promotion_status _)).
    destruct (get_trimmed_prefix (<[ANNOTATION_AUTO_PROMOTE:=bstr "false"]> (<[ANNOTATION_CANARY_WEIGHT:=bstr "0"]> a))
      ANNOTATION_AUTO_PROMOTE_STATUS STATUS_ROLLED_BACK (bstr ": " ++ reason)) as [t ->].
    + done.
    + repeat (constructor; [by unfold plain; lia|]). constructor.
    + apply starts_with_spec. by exists t.
Qed.

(** One patch that landed: where it leads and what it costs. *)
Inductive landed_patch (a : annotations) : annotations -> Prop :=
| landed_step to :
    next_step (promotion_parse a) (ca_weight (canary_parse a)) = Some to ->
    landed_patch a (<[ANNOTATION_CANARY_WEIGHT := to_string to]> a)
| landed_promote :
    next_step (promotion_parse a) (ca_weight (canary_parse a)) = None ->
    landed_patch a (<[ANNOTATION_AUTO_PROMOTE_STATUS := STATUS_PROMOTED]> a)
| landed_rollback a' : disarmed a' -> landed_patch a a'.

Lemma filter_above (steps : list Z) w to :
  find_first (fun s => w <? s) steps = Some to ->
  (length (List.filter (fun s => (to <? s)%Z) steps) < length (List.filter (fun s => (w <? s)%Z) steps))%nat.
Proof.
  intros Hf. apply find_first_elem in Hf as [Hin Hlt]. induction steps as [|s steps IH]; [set_solver|].
  assert (Hle : forall l, (length (List.filter (fun s => (to <? s)%Z) l) <= length (List.filter (fun s => (w <? s)%Z) l))%nat).
  { intros l. induction l as [|x l IHl]; [done|]. simpl.
    destruct (to <? x) eqn:E1, (w <? x) eqn:E2; simpl; lia. }
  apply elem_of_cons in Hin as [<-|Hin].
  - simpl. rewrite Z.ltb_irrefl, Hlt. simpl. specialize (Hle steps). lia.
  - specialize (IH Hin). simpl. destruct (to <? s) eqn:E1, (w <? s) eqn:E2; simpl; lia.
Qed.

(** On an ascending ladder the next step is the only one passed over. *)
Lemma filter_next (steps : list Z) w to :
  StronglySorted Z.lt steps -> find_first (fun s => w <? s) steps = Some to ->
  length (List.filter (fun s => (w <? s)%Z) steps) = S (length (List.filter (fun s => (to <? s)%Z) steps)).
Proof.
  intros Hsort Hs. induction Hsort as [|s l Hl IH Hx]; [done|]. simpl in *. destruct (w <? s) eqn:E.
  - injection Hs as ->. rewrite Z.ltb_irrefl. simpl. f_equal.
    rewrite Forall_forall in Hx. f_equal. apply List.filter_ext_in. intros x Hin%list_elem_of_In.
    specialize (Hx x Hin). lia.
  - replace (to <? s) with false; [by apply IH|]. apply find_first_elem in Hs as [_ Hlt]. lia.
Qed.

Lemma decide_step policy weight w to : decide_promotion policy weight w = Step to -> next_step policy weight = Some to.
Proof. unfold decide_promotion. intros Hd. repeat case_match; simplify_eq; done. Qed.

Lemma decide_promote policy weight w : decide_promotion policy weight w = Promote -> next_step policy weight = None.
Proof. unfold decide_promotion. intros Hd. repeat case_match; simplify_eq; done. Qed.

Lemma decided_lands key a w edits : decided key a w edits -> landed_patch a (merge_patch edits a).
Proof.
  intros (_&_&uid&wanted&reason&detail&weight&Hw). destruct (decide_promotion _ _ w) as [| to | |r] eqn:Hd; simpl in Hw; [done|..];
    injection Hw as _ _ _ <-.
  - apply decide_step in Hd. by apply landed_step.
  - apply decide_promote in Hd. by apply landed_promote.
  - apply landed_rollback, rollback_disarms.
Qed.

Lemma verdict_ends t v reason detail weight edits :
  verdict_writes t v = Some (reason, detail, weight, edits) -> ends edits = is_terminal v.
Proof. destruct v; intros [=]; by subst. Qed.

(** Whatever version it was decided on, a patch leaves an end an end. *)
Lemma finished_stays key a w edits c :
  decided key a w edits -> is_finished (promotion_parse c) = true -> is_finished (promotion_parse (merge_patch edits c)) = true.
Proof.
  intros (_&_&uid&wanted&reason&detail&weight&Hw) Hf. destruct (decide_promotion _ _ w) as [| to | |r]; simpl in Hw; [done|..];
    injection Hw as _ _ _ <-.
  - unfold merge_patch. simpl. by rewrite promotion_parse_weight.
  - apply status_promoted.
  - destruct (rollback_disarms c r) as (_&_&Hr). apply orb_true_iff. left. exact Hr.
Qed.

Lemma disarmed_budget a : disarmed a -> budget a = 0%nat.
Proof. intros (_&He&_). unfold budget, armed. by rewrite He, andb_false_r. Qed.

Lemma next_step_range a to :
  next_step (promotion_parse a) (ca_weight (canary_parse a)) = Some to ->
  1 <= to <= 100 /\ ca_weight (canary_parse a) < to.
Proof.
  intros Hs. apply find_first_elem in Hs as [Hin Hlt].
  destruct (pol_steps _ (promotion_policy_sane a)) as (_&_&Hall). rewrite Forall_forall in Hall.
  split; [by apply Hall|lia].
Qed.

Lemma landed_budget a a' :
  armed a = true -> is_finished (promotion_parse a) = false -> landed_patch a a' -> (budget a' < budget a)%nat.
Proof.
  intros Ha Hf Hl. unfold budget at 2. rewrite Ha, Hf. simpl. destruct Hl as [to Hs|Hs|a' Hd].
  - destruct (next_step_range a to Hs) as [Hto _]. unfold budget, armed, steps_above.
    rewrite promotion_parse_weight, enabled_untouched, weight_written by (done || (unfold u32_max; lia)).
    unfold armed in Ha. rewrite Ha, Hf. simpl. by apply -> Nat.succ_lt_mono; apply filter_above.
  - unfold budget. rewrite status_promoted, andb_false_r. lia.
  - rewrite disarmed_budget by done. lia.
Qed.

Lemma ladder_length steps : ladder steps -> (length steps <= 100)%nat.
Proof.
  intros (Hs&_&Hall). assert (Hnd : NoDup steps).
  { clear Hall. induction Hs as [|x l Hl IH Hx]; constructor; [|done].
    intros Hin. rewrite Forall_forall in Hx. specialize (Hx x Hin). lia. }
  change 100%nat with (length (seqZ 1 100)). apply submseteq_length, NoDup_submseteq; [done|].
  intros x Hx. rewrite Forall_forall in Hall. specialize (Hall x Hx). apply elem_of_seqZ. lia.
Qed.

Lemma budget_bound a : (budget a <= 101)%nat.
Proof.
  unfold budget. destruct (_ && _); [|lia].
  pose proof (ladder_length _ (pol_steps _ (promotion_policy_sane a))).
  assert (length (steps_above a) <= length (pa_steps (promotion_parse a)))%nat by apply List.filter_length_le. lia.
Qed.

Lemma landed_weight a a' : landed_patch a a' -> disarmed a' \/ ca_weight (canary_parse a) <= ca_weight (canary_parse a').
Proof.
  intros [to Hs|Hs|b Hd]; [right..|by left].
  - destruct (next_step_range a to Hs). rewrite weight_written; unfold u32_max; lia.
  - by rewrite weight_untouched.
Qed.

(** A window with enough traffic on both sides and no gate breached. *)
Definition healthy (policy : PromotionAnnotations) (w : Window) : Prop :=
  pa_min_requests policy <= requests (w_canary w) /\ pa_min_requests policy <= requests (w_stable w) /\
  breach policy w = None.

Lemma decide_healthy policy weight w :
  healthy policy w ->
  decide_promotion policy weight w = match next_step policy weight with Some to => Step to | None => Promote end.
Proof.
  intros (Hc&Hs&Hb). unfold decide_promotion. rewrite Hb.
  by replace ((_ <? _) || _) with false by lia.
Qed.

Lemma next_step_none_above a :
  next_step (promotion_parse a) (ca_weight (canary_parse a)) = None <-> steps_above a = [].
Proof.
  unfold next_step, steps_above. rewrite find_first_None.
  induction (pa_steps (promotion_parse a)) as [|s l IH]; [simpl; split; [done|constructor]|]. simpl.
  rewrite Forall_cons, IH. destruct (_ <? s); [split; [by intros []|done]|naive_solver].
Qed.

(** Patches one after the other, each decided on what the one before left. *)
Inductive walk (key : ObjectKey) (w : Window) : nat -> annotations -> annotations -> Prop :=
| walk_end a : walk key w 0 a a
| walk_patch a edits n a' : decided key a w edits -> walk key w n (merge_patch edits a) a' -> walk key w (S n) a a'.

(** A healthy canary is promoted.  An armed canary whose windows all have
    enough traffic and breach no gate, and whose patches land and are seen
    before the next pass, walks its steps one by one and is marked promoted
    after exactly its budget of patches, its weight then at or above the last
    step. *)
Theorem rollout_promotes key a w :
  armed a = true -> is_finished (promotion_parse a) = false -> healthy (promotion_parse a) w ->
  exists a', walk key w (budget a) a a' /\
    pa_status (promotion_parse a') = Some STATUS_PROMOTED /\ final_step (promotion_parse a) <= ca_weight (canary_parse a').
Proof.
  intros Ha Hf Hw. remember (length (steps_above a)) as k eqn:Hk. revert a Ha Hf Hw Hk.
  induction k as [k IH] using lt_wf_ind. intros a Ha Hf Hw Hk.
  assert (Hbudget : budget a = S k) by (unfold budget; rewrite Ha, Hf; simpl; lia). rewrite Hbudget.
  pose proof (decide_healthy _ (ca_weight (canary_parse a)) w Hw) as Hd.
  destruct (next_step (promotion_parse a) (ca_weight (canary_parse a))) as [to|] eqn:Hs.
  - destruct (next_step_range a to Hs) as [Hto Hlt]. set (a1 := <[ANNOTATION_CANARY_WEIGHT := to_string to]> a).
    assert (Hp : promotion_parse a1 = promotion_parse a) by apply promotion_parse_weight.
    assert (Hw1 : ca_weight (canary_parse a1) = to) by (apply weight_written; unfold u32_max; lia).
    assert (Ha1 : armed a1 = true) by (unfold armed in *; by rewrite Hp; unfold a1; rewrite enabled_untouched).
    assert (Hk1 : (length (steps_above a1) < k)%nat).
    { unfold steps_above. rewrite Hp, Hw1, Hk. by apply filter_above. }
    destruct (IH (length (steps_above a1)) Hk1 a1 Ha1) as (a'&Hr&Hst&Hfin); [by rewrite Hp|by rewrite Hp|done|].
    assert (Hnext : budget a1 = k).
    { unfold budget. rewrite Ha1, Hp, Hf. simpl. rewrite Hk. unfold steps_above. rewrite Hp, Hw1. symmetry.
      apply filter_next; [|done]. apply (pol_steps _ (promotion_policy_sane a)). }
    exists a'. rewrite Hp in Hfin. split_and!; [|done|done]. rewrite <- Hnext.
    eapply (walk_patch _ _ a [(ANNOTATION_CANARY_WEIGHT, to_string to)]); [|exact Hr].
    split_and!; [done|done|]. exists None, []. rewrite Hd. eexists _, _, _. reflexivity.
  - apply next_step_none_above in Hs as Hnil. rewrite Hnil in Hk. simpl in Hk. subst k.
    exists (<[ANNOTATION_AUTO_PROMOTE_STATUS := STATUS_PROMOTED]> a). split_and!.
    + eapply (walk_patch _ _ a [(ANNOTATION_AUTO_PROMOTE_STATUS, STATUS_PROMOTED)]); [|apply walk_end].
      split_and!; [done|done|]. exists None, []. rewrite Hd. eexists _, _, _. reflexivity.
    + rewrite (proj1 (promotion_status _)). unfold get_trimmed. rewrite lookup_insert_eq. by vm_compute.
    + rewrite weight_untouched by done. unfold final_step.
      destruct (last (pa_steps (promotion_parse a))) as [s|] eqn:Hl; simpl.
      * apply find_first_None in Hs. rewrite Forall_forall in Hs.
        assert (Hin : s ∈ pa_steps (promotion_parse a)) by (apply last_Some in Hl as [l ->]; set_solver).
        specialize (Hs s Hin). simpl in Hs. lia.
      * apply last_None in Hl. by destruct (pol_steps _ (promotion_policy_sane a)) as (_&Hne&_).
Qed.

Section pass_properties.
Context {E : RegexEngine} `{HashOrder}.
Context (patch : ObjectKey -> list (str * str) -> result str unit).
Context (view : ObjectKey -> RouteTable * RouteStore).

(** Why a target may be acted on: it is not finished, its interval is over, it
    was read before, and the edits are what the decision on the difference of
    the two readings writes. *)
Definition evidence (p : Promoter) (now : Z) (t : PromotionTarget) (edits : list (str * str)) : Prop :=
  is_finished (pt_policy t) = false /\ pt_ingress t ∉ finished p /\
  default now (due p !! pt_ingress t) <= now /\
  exists previous reading reason detail weight,
    baselines p !! pt_ingress t = Some previous /\
    read (view (pt_ingress t)).1 (view (pt_ingress t)).2 (pt_routes t) = Some reading /\
    verdict_writes t (decide_promotion (pt_policy t) (pt_weight t) (window_between previous reading))
    = Some (reason, detail, weight, edits).

(** What the promoter knows about one Ingress. *)
Definition known (p : Promoter) (k : ObjectKey) : option Baseline * option Z * bool :=
  (baselines p !! k, due p !! k, bool_decide (k ∈ finished p)).

Lemma known_finished p p' k : known p k = known p' k -> k ∉ finished p -> k ∉ finished p'.
Proof. intros [= _ _ Hf] Hk Hk'. by rewrite (bool_decide_eq_true_2 _ Hk'), bool_decide_eq_true in Hf. Qed.

Lemma evidence_known p p' now t edits :
  known p (pt_ingress t) = known p' (pt_ingress t) -> evidence p now t edits -> evidence p' now t edits.
Proof.
  intros Hk (H1&H2&H3&H4). pose proof (known_finished _ _ _ Hk H2). injection Hk as Hb Hd _.
  unfold evidence. rewrite <- Hb, <- Hd. by split_and!.
Qed.

Lemma evaluate_spec t p p' out :
  evaluate patch view t p = (p', out) ->
  (forall k, k <> pt_ingress t -> known p' k = known p k) /\ due p' = due p /\
  (pt_ingress t ∉ finished p -> forall k edits, Patch k edits ∈ out -> k = pt_ingress t /\
    exists previous reading reason detail weight,
      baselines p !! pt_ingress t = Some previous /\
      read (view (pt_ingress t)).1 (view (pt_ingress t)).2 (pt_routes t) = Some reading /\
      verdict_writes t (decide_promotion (pt_policy t) (pt_weight t) (window_between previous reading))
      = Some (reason, detail, weight, edits)).
Proof.
  unfold evaluate. destruct (view (pt_ingress t)) as [table store] eqn:Hv.
  destruct (read table store (pt_routes t)) as [reading|] eqn:Hr; [|intros [= <- <-]; split_and!; [done..|set_solver]].
  destruct (baselines p !! pt_ingress t) as [previous|] eqn:Hb.
  2: { intros [= <- <-]. split_and!; [|done|set_solver]. intros k Hk. unfold known. simpl.
       by rewrite lookup_insert_ne. }
  set (v := decide_promotion _ _ _). unfold apply_verdict.
  destruct (verdict_writes t v) as [[[[reason detail] weight] edits]|] eqn:Hw.
  2: { intros [= <- <-]. split_and!; [|done|set_solver]. intros k Hk. unfold known. simpl.
       by rewrite lookup_insert_ne. }
  assert (Hev : forall k es rest, Patch k es ∈ Patch (pt_ingress t) edits :: rest ->
    (forall e, e ∈ rest -> exists r d, e = Audit r d) -> k = pt_ingress t /\
    exists previous0 reading0 reason0 detail0 weight0, Some previous = Some previous0 /\
      Some reading = Some reading0 /\
      verdict_writes t (decide_promotion (pt_policy t) (pt_weight t) (window_between previous0 reading0))
      = Some (reason0, detail0, weight0, es)).
  { intros k es rest Hin Hrest. apply elem_of_cons in Hin as [[= -> ->]|Hin].
    - split; [done|]. eexists _, _, _, _, _. by split_and!.
    - by destruct (Hrest _ Hin) as (?&?&?). }
  simpl. rewrite Hr. destruct (patch (pt_ingress t) edits); intros [= <- <-].
  - split_and!.
    + intros k Hk. unfold known. destruct (is_terminal v); simpl; rewrite lookup_insert_ne by done; [|done].
      f_equal. apply bool_decide_ext. set_solver.
    + by destruct (is_terminal v).
    + intros _ k es Hin. apply (Hev _ _ _ Hin). set_solver.
  - split_and!; [|done|].
    + intros k Hk. unfold known. simpl. by rewrite lookup_insert_ne.
    + intros _ k es Hin. apply (Hev _ _ _ Hin). set_solver.
Qed.

Lemma pass_target_spec now p next out t p' next' out' :
  pass_target patch view now (p, next, out) t = Some (p', next', out') ->
  exists effects, out' = out ++ effects /\ next' <= next /\
  (forall k, k <> pt_ingress t -> known p' k = known p k) /\
  (forall k edits, Patch k edits ∈ effects -> k = pt_ingress t /\ evidence p now t edits) /\
  (is_finished (pt_policy t) = false -> pt_ingress t ∉ finished p ->
    exists d, due p' !! pt_ingress t = Some d /\ next' <= d - now).
Proof.
  unfold pass_target. destruct (is_finished (pt_policy t)) eqn:Hf; simpl.
  { intros [= <- <- <-]. exists []. rewrite app_nil_r. split_and!; [done|lia|done|set_solver|done]. }
  case_bool_decide as Hin.
  { intros [= <- <- <-]. exists []. rewrite app_nil_r. split_and!; [done|lia|done|set_solver|done]. }
  set (deadline := default now (due p !! pt_ingress t)). destruct (now <? deadline) eqn:Hd.
  { intros [= <- <- <-]. exists []. rewrite app_nil_r. split_and!; [done|lia| |set_solver|].
    - intros k Hk. unfold known. simpl. by rewrite lookup_insert_ne.
    - intros _ _. exists deadline. simpl. rewrite lookup_insert_eq. split; [done|lia]. }
  unfold instant_add. destruct (_ <=? INSTANT_MAX); [|done]. simpl.
  destruct (evaluate patch view t _) as [p2 effects] eqn:He. intros [= <- <- <-].
  apply evaluate_spec in He as (Hk&Hdue&Hp). simpl in *. exists effects. split_and!; [done|lia| | |].
  - intros k Hne. rewrite Hk by done. unfold known. simpl. by rewrite insert_insert_eq, lookup_insert_ne.
  - intros k edits Hpatch. destruct (Hp Hin k edits Hpatch) as [-> Hev]. split; [done|].
    split_and!; [done|done|fold deadline; lia|done].
  - intros _ _. exists (now + pa_interval (pt_policy t)). rewrite Hdue, lookup_insert_eq. split; [done|lia].
Qed.

Lemma pass_loop_spec now targets p next out p' next' out' :
  NoDup (map pt_ingress targets) ->
  pass_loop patch view now targets (p, next, out) = Some (p', next', out') ->
  exists effects, out' = out ++ effects /\ next' <= next /\
  (forall k, k ∉ map pt_ingress targets -> known p' k = known p k) /\
  (forall k edits, Patch k edits ∈ effects -> exists t, t ∈ targets /\ k = pt_ingress t /\ evidence p now t edits) /\
  (forall t, t ∈ targets -> is_finished (pt_policy t) = false -> pt_ingress t ∉ finished p ->
    exists d, due p' !! pt_ingress t = Some d /\ next' <= d - now).
Proof.
  revert p next out. induction targets as [|t rest IH]; intros p next out Hnd Hl; cbn [pass_loop] in Hl.
  { simplify_eq/=. exists []. rewrite app_nil_r. split_and!; [done|lia|done|set_solver|set_solver]. }
  destruct (pass_target patch view now (p, next, out) t) as [[[p1 next1] out1]|] eqn:Ht; [|done]. cbn [mbind option_bind] in Hl.
  simpl in Hnd. apply NoDup_cons in Hnd as [Hfresh Hnd].
  apply pass_target_spec in Ht as (e1&->&Hn1&Hk1&Hp1&Hd1).
  apply IH in Hl as (e2&->&Hn2&Hk2&Hp2&Hd2); [|done]. exists (e1 ++ e2). rewrite <- app_assoc.
  assert (Hother : forall t', t' ∈ rest -> known p1 (pt_ingress t') = known p (pt_ingress t')).
  { intros t' Hin. apply Hk1. intros Heq. apply Hfresh. rewrite <- Heq. by apply list_elem_of_fmap_2. }
  split_and!; [done|lia| | |].
  - intros k Hk. simpl in Hk. rewrite Hk2, Hk1; set_solver.
  - intros k edits [Hin|Hin]%elem_of_app.
    + destruct (Hp1 k edits Hin) as [-> Hev]. exists t. split_and!; [set_solver|done|done].
    + destruct (Hp2 k edits Hin) as (t'&Ht'&->&Hev). exists t'. split_and!; [set_solver|done|].
      eapply evidence_known; [by apply Hother|done].
  - intros t' [->|Hin]%elem_of_cons Hf Hnf.
    + destruct (Hd1 Hf Hnf) as (d&Hd&Hle). exists d. split; [|lia].
      pose proof (Hk2 (pt_ingress t) Hfresh) as Hk. unfold known in Hk. injection Hk as _ Hdk _. by rewrite Hdk.
    + apply Hd2; [done|done|]. eapply known_finished; [symmetry; by apply Hother|done].
Qed.

Lemma known_forget live p k : k ∈ live -> known (forget live p) k = known p k.
Proof.
  intros Hk. unfold known, forget. simpl. f_equal; [f_equal|].
  - apply option_eq. intros x. rewrite map_lookup_filter_Some. naive_solver.
  - apply option_eq. intros x. rewrite map_lookup_filter_Some. naive_solver.
  - apply bool_decide_ext. rewrite elem_of_filter. naive_solver.
Qed.

(** C35: A pass acts on evidence only, and oversleeps nothing.  Under a rollback
    pin it does nothing; otherwise every patch it sends is for one of its
    targets that is not finished and whose interval is over, and is what the
    decision writes for the difference between this reading and the one an
    earlier pass took, so a first sighting never acts; and the pass asks to be
    called again within a tick of the earliest deadline, after between one and
    thirty seconds. *)
Theorem pass_acts_on_evidence pinned targets now p p' sleep out :
  NoDup (map pt_ingress targets) ->
  pass patch view pinned targets now p = Some (p', sleep, out) ->
  (pinned <> None -> out = []) /\ MIN_TICK <= sleep <= IDLE_POLL /\
  (forall k edits, Patch k edits ∈ out -> exists t, t ∈ targets /\ k = pt_ingress t /\ evidence p now t edits) /\
  (pinned = None -> forall t, t ∈ targets -> is_finished (pt_policy t) = false -> pt_ingress t ∉ finished p ->
    exists d, due p' !! pt_ingress t = Some d /\ sleep <= Z.max MIN_TICK (d - now)).
Proof.
  intros Hnd Hp. unfold pass in Hp. destruct pinned as [g|].
  { simplify_eq. split_and!; [done|done|done|set_solver|done]. }
  set (p0 := MkPromoter _ _ _ _) in Hp. set (live := list_to_set (map pt_ingress targets)) in Hp.
  destruct (pass_loop _ _ _ _ _) as [[[p1 next] effects]|] eqn:Hl; [|done]. simpl in Hp. injection Hp as <- <- <-.
  apply pass_loop_spec in Hl as (e&->&Hn&_&He&Hd); [|done]. simpl.
  assert (Hlive : forall t, t ∈ targets -> known (forget live p0) (pt_ingress t) = known p (pt_ingress t)).
  { intros t Ht. rewrite known_forget; [done|]. unfold live. rewrite elem_of_list_to_set. by apply list_elem_of_fmap_2. }
  assert (Htick : MIN_TICK <= IDLE_POLL) by (by compute).
  split_and!; [done|lia|lia| |].
  - intros k edits Hin. destruct (He k edits Hin) as (t&Ht&->&Hev). exists t. split_and!; [done|done|].
    eapply evidence_known; [by apply Hlive|done].
  - intros _ t Ht Hf Hnf. destruct (Hd t Ht Hf) as (d&Hdue&Hle); [|exists d; split; [done|lia]].
    eapply known_finished; [symmetry; by apply Hlive|done].
Qed.

(** A canary the loop has finished with stays finished for as long as it is a
    target or there are no targets at all: re-arming it by hand changes
    nothing until the process restarts or another canary's pass forgets it. *)
Lemma pass_loop_finished now targets p next out p' next' out' k :
  k ∈ finished p -> pass_loop patch view now targets (p, next, out) = Some (p', next', out') ->
  k ∈ finished p' /\ forall edits, Patch k edits ∈ out' -> Patch k edits ∈ out.
Proof.
  revert p next out. induction targets as [|t rest IH]; intros p next out Hk Hl; cbn [pass_loop] in Hl; [by simplify_eq|].
  destruct (pass_target patch view now (p, next, out) t) as [[[p1 next1] out1]|] eqn:Ht; [|done]. cbn [mbind option_bind] in Hl.
  destruct (decide (k = pt_ingress t)) as [->|Hne].
  - unfold pass_target in Ht. rewrite bool_decide_eq_true_2, orb_true_r in Ht by done. simplify_eq. by eapply IH.
  - apply pass_target_spec in Ht as (e1&->&_&Hk1&Hp1&_). destruct (IH _ _ _ ltac:(
      specialize (Hk1 k Hne); unfold known in Hk1; injection Hk1 as _ _ Hk1;
      rewrite (bool_decide_eq_true_2 _ Hk) in Hk1; by apply bool_decide_eq_true in Hk1) Hl) as [Hf Hout].
    split; [done|]. intros edits Hin. destruct (proj1 (elem_of_app _ _ _) (Hout edits Hin)) as [|He]; [done|].
    by destruct (Hp1 k edits He).
Qed.

Lemma rearmed_canary_ignored pinned targets now p p' sleep out k :
  k ∈ finished p -> targets = [] \/ k ∈ map pt_ingress targets ->
  run_turn patch view pinned targets now p = Some (p', sleep, out) ->
  k ∈ finished p' /\ forall edits, Patch k edits ∉ out.
Proof.
  intros Hk Hin Hrun. unfold run_turn in Hrun. destruct targets as [|t rest]; [simplify_eq; set_solver|].
  destruct Hin as [|Hin]; [done|]. destruct (pass _ _ _ _ _ _) as [[[p1 s1] o1]|] eqn:Hp; [|done]. simpl in Hrun.
  simplify_eq. unfold pass in Hp. destruct pinned; [simplify_eq; split; [done|set_solver]|].
  destruct (pass_loop _ _ _ _ _) as [[[p2 next] e]|] eqn:Hl; [|done]. simpl in Hp. simplify_eq.
  apply (pass_loop_finished _ _ _ _ _ _ _ _ k) in Hl as [Hf Ho].
  - split; [done|]. intros edits Hedit. apply Ho in Hedit. set_solver.
  - cbn [forget finished]. rewrite elem_of_filter, elem_of_list_to_set. done.
Qed.

(** An end that was acknowledged is remembered. *)
Lemma evaluate_acked t p p' out edits :
  evaluate patch view t p = (p', out) -> Patch (pt_ingress t) edits ∈ out ->
  patch (pt_ingress t) edits = Ok tt -> ends edits = true -> pt_ingress t ∈ finished p'.
Proof.
  unfold evaluate. destruct (view _) as [table store]. destruct (read _ _ _) as [reading|]; [|intros [= <- <-]; set_solver].
  destruct (baselines p !! _) as [previous|]; [|intros [= <- <-]; set_solver]. cbv zeta. unfold apply_verdict.
  destruct (verdict_writes t _) as [[[[reason detail] weight] es]|] eqn:Hw; [|intros [= <- <-]; set_solver].
  apply verdict_ends in Hw. destruct (patch (pt_ingress t) es) eqn:Hp; intros [= <- <-] Hin Hok Hends.
  - assert (edits = es) as -> by set_solver. rewrite <- Hw, Hends. simpl. set_solver.
  - assert (edits = es) as -> by set_solver. by rewrite Hok in Hp.
Qed.

Lemma pass_loop_acked now targets p next out p' next' effects k edits :
  pass_loop patch view now targets (p, next, out) = Some (p', next', out ++ effects) ->
  Patch k edits ∈ effects -> patch k edits = Ok tt -> ends edits = true -> k ∈ finished p'.
Proof.
  revert p next out effects. induction targets as [|t rest IH]; intros p next out effects Hl Hin Hok Hends; cbn [pass_loop] in Hl.
  { injection Hl as _ _ Ho. rewrite <- (app_nil_r out) in Ho at 1. apply app_inv_head in Ho. subst. set_solver. }
  destruct (pass_target patch view now (p, next, out) t) as [[[p1 next1] out1]|] eqn:Ht; [|done]. cbn [mbind option_bind] in Hl.
  pose proof (pass_target_spec _ _ _ _ _ _ _ _ Ht) as (e1&->&_&_&Hp1&_).
  assert (Hmore : exists e2, effects = e1 ++ e2).
  { clear -Hl. assert (Hpre : exists e2, out ++ effects = (out ++ e1) ++ e2).
    { revert Hl. generalize (out ++ effects) as o. generalize (out ++ e1) as o1. generalize next1 as n. generalize p1 as q. clear.
      induction rest as [|t rest IH]; intros q n o1 o Hl; cbn [pass_loop] in Hl; [injection Hl as _ _ ->; exists []; by rewrite app_nil_r|].
      destruct (pass_target patch view now (q, n, o1) t) as [[[q1 n1] o2]|] eqn:Ht; [|done]. cbn [mbind option_bind] in Hl.
      apply pass_target_spec in Ht as (e&->&_). apply IH in Hl as (e2&->). exists (e ++ e2). by rewrite app_assoc. }
    destruct Hpre as [e2 He]. exists e2. rewrite <- app_assoc in He. by apply app_inv_head in He. }
  destruct Hmore as [e2 ->]. rewrite app_assoc in Hl. apply elem_of_app in Hin as [Hin|Hin]; [|by eapply IH].
  destruct (Hp1 k edits Hin) as [-> _]. eapply pass_loop_finished; [|exact Hl].
  unfold pass_target in Ht. destruct (_ || _) in Ht.
  { injection Ht as _ _ Ho. rewrite <- (app_nil_r out) in Ho at 1. apply app_inv_head in Ho. subst. set_solver. }
  destruct (now <? _) in Ht.
  { injection Ht as _ _ Ho. rewrite <- (app_nil_r out) in Ho at 1. apply app_inv_head in Ho. subst. set_solver. }
  destruct (instant_add _ _); [|done]. cbn [mbind option_bind] in Ht.
  destruct (evaluate patch view t _) as [p2 e] eqn:He. injection Ht as <- _ Ho. apply app_inv_head in Ho. subst.
  by eapply evaluate_acked.
Qed.

(** A patch of one turn of the loop, and the memory it leaves. *)
Lemma turn_patch pinned targets now p p' sleep out k edits :
  NoDup (map pt_ingress targets) -> run_turn patch view pinned targets now p = Some (p', sleep, out) ->
  Patch k edits ∈ out ->
  (exists t, t ∈ targets /\ k = pt_ingress t /\ evidence p now t edits) /\
  (patch k edits = Ok tt -> ends edits = true -> k ∈ finished p').
Proof.
  intros Hnd Hrun Hin. unfold run_turn in Hrun. destruct targets as [|t0 rest]; [simplify_eq; set_solver|].
  set (targets := t0 :: rest) in *. destruct (pass _ _ _ _ _ _) as [[[p1 s1] o1]|] eqn:Hp; [|done]. simpl in Hrun.
  injection Hrun as <- <- <-. unfold pass in Hp. destruct pinned; [simplify_eq; set_solver|].
  destruct (pass_loop _ _ _ _ _) as [[[p2 next] e]|] eqn:Hl; [|done]. cbn [mbind option_bind] in Hp. injection Hp as <- <- <-.
  split; [|by apply (pass_loop_acked _ _ _ _ [] _ _ e _ _ Hl)].
  apply pass_loop_spec in Hl as (e'&->&_&_&He&_); [|done]. destruct (He k edits Hin) as (t&Ht&->&Hev).
  exists t. split_and!; [done|done|]. eapply evidence_known; [|exact Hev]. rewrite known_forget; [done|].
  rewrite elem_of_list_to_set. by apply list_elem_of_fmap_2.
Qed.

(** An interval the annotation parser accepts and the clock cannot hold stops
    the whole loop: [18446744073709551615s] on one canary panics the pass. *)
Lemma huge_interval_panics key uid wanted a rest now p :
  0 <= now -> armed a = true -> is_finished (promotion_parse a) = false -> key ∉ finished p -> due p !! key = None ->
  a !! ANNOTATION_AUTO_PROMOTE_INTERVAL = Some (bstr "18446744073709551615s") ->
  pass patch view None (rollout_target key uid wanted a :: rest) now p = None.
Proof.
  intros Hnow _ Hf Hk Hd Ha. unfold pass. set (live := list_to_set _). set (p0 := forget _ _).
  assert (Hkn : known p0 key = known p key) by (apply (known_forget live (MkPromoter _ _ _ _)); unfold live; set_solver).
  cbn [pass_loop]. unfold pass_target. cbn [rollout_target pt_ingress pt_policy]. rewrite Hf.
  pose proof (known_finished _ _ _ (eq_sym Hkn) Hk) as Hk0. rewrite bool_decide_eq_false_2 by done. simpl.
  injection Hkn as _ Hdue _. rewrite Hdue, Hd. simpl. rewrite Z.ltb_irrefl.
  assert (Hi : pa_interval (promotion_parse a) = seconds u64_max).
  { rewrite (proj1 (proj2 (promotion_parse_fields a))). unfold setting, get_trimmed. rewrite Ha. by vm_compute. }
  unfold instant_add. rewrite Hi. by replace (now + seconds u64_max <=? INSTANT_MAX) with false
    by (unfold seconds, u64_max, INSTANT_MAX, seconds; lia).
Qed.
End pass_properties.

(** ** A fleet of promoters

    Every process of the deployment runs the loop on the generation it has last
    been given, which may lag behind the cluster, and they all patch the same
    canary Ingress.  [versions] are the annotations the Ingress has had, oldest
    first; a replica is its promoter and the version its generation was compiled
    from.  A turn is [run_turn] itself, whatever the counters, the pin, the
    clock and the other targets; its patch lands or not, and only a patch that
    landed is acknowledged.  A process may restart at any time, on any version
    there has been. *)

Section fleet.
Context {E : RegexEngine} `{HashOrder} (key : ObjectKey).

Record Fleet := MkFleet { versions : list annotations; replicas : list (Promoter * nat) }.
Definition newest (vs : list annotations) : annotations := default ∅ (last vs).

(** The targets of a generation in which the canary's annotations are [a]. *)
Definition compiled (a : annotations) (targets : list PromotionTarget) : Prop :=
  NoDup (map pt_ingress targets) /\
  forall t, t ∈ targets -> pt_ingress t = key -> armed a = true /\ exists uid wanted, t = rollout_target key uid wanted a.

(** The patch a turn sends for the canary. *)
Definition patch_of (out : list Effect) : option (list (str * str)) :=
  head (omap (fun e => match e with
                       | Patch k edits => if bool_decide (k = key) then Some edits else None
                       | Audit _ _ => None
                       end) out).
Record Sent := MkSent {
  sn_seen : annotations;
  sn_edits : list (str * str);
  sn_landed : bool;
  sn_acked : bool;
  sn_stale : bool;
}.
Definition sent_by (patch : ObjectKey -> list (str * str) -> result str unit) (vs : list annotations) (i : nat)
    (a : annotations) (landed : bool) (out : list Effect) : option Sent :=
  (fun edits => MkSent a edits landed (match patch key edits with Ok _ => true | Err _ => false end)
                  (negb (S i =? length vs)%nat)) <$> patch_of out.
Definition landing (vs : list annotations) (sent : option Sent) : list annotations :=
  match sent with
  | Some x => if sn_landed x then vs ++ [merge_patch (sn_edits x) (newest vs)] else vs
  | None => vs
  end.

(** [kept]: whether the turn leaves the promoter's memory of the canary. *)
Inductive Label := Turned (r : nat) (kept : bool) (sent : option Sent) | Watched (r : nat) | Restarted (r : nat).

Inductive fleet_step : Fleet -> Label -> Fleet -> Prop :=
| fleet_turn vs rs r p i a targets patch view pinned now p' sleep out landed sent :
    rs !! r = Some (p, i) -> vs !! i = Some a -> compiled a targets ->
    run_turn patch view pinned targets now p = Some (p', sleep, out) ->
    sent = sent_by patch vs i a landed out ->
    (forall x, sent = Some x -> sn_acked x = true -> landed = true) ->
    fleet_step (MkFleet vs rs)
      (Turned r (bool_decide (targets = []) || bool_decide (key ∈ map pt_ingress targets)) sent)
      (MkFleet (landing vs sent) (<[r := (p', i)]> rs))
| fleet_watch vs rs r p i j :
    rs !! r = Some (p, i) -> (i <= j < length vs)%nat -> fleet_step (MkFleet vs rs) (Watched r) (MkFleet vs (<[r := (p, j)]> rs))
| fleet_restart vs rs r p i j :
    rs !! r = Some (p, i) -> (j < length vs)%nat ->
    fleet_step (MkFleet vs rs) (Restarted r) (MkFleet vs (<[r := (Promoter_new, j)]> rs)).

Inductive fleet_run : Fleet -> list Label -> Fleet -> Prop :=
| fleet_nil s : fleet_run s [] s
| fleet_cons s l s1 ls s2 : fleet_step s l s1 -> fleet_run s1 ls s2 -> fleet_run s (l :: ls) s2.

Definition label_sent (l : Label) : option Sent := match l with Turned _ _ sent => sent | _ => None end.
(** The patches of a run that reached the cluster. *)
Definition landed_of (ls : list Label) : list Sent := List.filter sn_landed (omap label_sent ls).
Definition stale_of (ls : list Label) : list Sent := List.filter sn_stale (landed_of ls).
Definition forgets (r : nat) (l : Label) : bool :=
  match l with Restarted r' | Turned r' false _ => bool_decide (r' = r) | _ => false end.

Lemma patch_of_in out edits : patch_of out = Some edits -> Patch key edits ∈ out.
Proof.
  unfold patch_of. induction out as [|[k es|r d] out IH]; cbn; [done| |intros Hp; right; by apply IH].
  case_bool_decide as Hk; cbn; [intros [= ->]; subst; by left|]. intros Hp. right. by apply IH.
Qed.

Lemma turn_decided patch view pinned targets now p p' sleep out a edits :
  compiled a targets -> run_turn patch view pinned targets now p = Some (p', sleep, out) -> patch_of out = Some edits ->
  (exists w, decided key a w edits) /\ key ∈ map pt_ingress targets /\ key ∉ finished p /\
  (patch key edits = Ok tt -> ends edits = true -> key ∈ finished p').
Proof.
  intros [Hnd Hc] Hrun Hp%patch_of_in. destruct (turn_patch _ _ _ _ _ _ _ _ _ _ _ Hnd Hrun Hp) as [(t&Ht&Hk&Hev) Hack].
  destruct (Hc t Ht (eq_sym Hk)) as (Ha&uid&wanted&->). destruct Hev as (Hf&Hfin&_&previous&reading&reason&detail&weight&_&_&Hw).
  split_and!; [|rewrite Hk; by apply list_elem_of_fmap_2|by rewrite Hk|done].
  exists (window_between previous reading). split_and!; [done|done|]. by exists uid, wanted, reason, detail, weight.
Qed.

Lemma newest_snoc vs a : newest (vs ++ [a]) = a.
Proof. unfold newest. by rewrite last_snoc. Qed.
Lemma newest_at vs i a : vs !! i = Some a -> S i = length vs -> newest vs = a.
Proof. intros Hi Hl. unfold newest. rewrite last_lookup, <- Hl. simpl. by rewrite Hi. Qed.

(** What one step does to the annotations. *)
Lemma step_versions s l s' :
  fleet_step s l s' ->
  match label_sent l with
  | Some x =>
      (exists w, decided key (sn_seen x) w (sn_edits x)) /\ sn_seen x ∈ versions s /\
      versions s' = (if sn_landed x then versions s ++ [merge_patch (sn_edits x) (newest (versions s))] else versions s) /\
      (sn_stale x = false -> sn_seen x = newest (versions s))
  | None => versions s' = versions s
  end.
Proof.
  intros Hs. destruct Hs as [vs rs r p i a targets patch view pinned now p' sleep out landed sent Hr Hi Hc Hrun -> _| |]; [|done|done].
  simpl. unfold sent_by. destruct (patch_of out) as [edits|] eqn:Hp; [|done]. simpl.
  destruct (turn_decided _ _ _ _ _ _ _ _ _ _ _ Hc Hrun Hp) as (Hd&_).
  split_and!; [done|by eapply list_elem_of_lookup_2|done|]. intros Hst%negb_false_iff.
  apply (Nat.eqb_eq (S i)) in Hst. symmetry. by eapply newest_at.
Qed.

(** Once the status says so, it goes on saying so. *)
Definition stays_finished (vs : list annotations) : Prop :=
  forall i j a b, (i <= j)%nat -> vs !! i = Some a -> vs !! j = Some b ->
    is_finished (promotion_parse a) = true -> is_finished (promotion_parse b) = true.

Lemma step_finished s l s' : fleet_step s l s' -> stays_finished (versions s) -> stays_finished (versions s').
Proof.
  intros Hs Hf. apply step_versions in Hs. destruct (label_sent l) as [x|]; [|by rewrite Hs].
  destruct Hs as ((w&Hd)&Hseen&->&_). destruct (sn_landed x); [|done]. intros i j a b Hij Hi Hj Ha.
  apply lookup_snoc_Some in Hj as [[Hj Hb]|[-> <-]].
  - apply lookup_snoc_Some in Hi as [[Hi Ha']|[-> _]]; [|lia]. by apply (Hf i j a b).
  - apply lookup_snoc_Some in Hi as [[Hi Ha']|[-> <-]]; [|done]. apply (finished_stays _ _ _ _ _ Hd).
    destruct (versions s) as [|v vs _] using rev_ind; [simpl in Hi; lia|]. rewrite newest_snoc.
    rewrite length_app in Hi. simpl in Hi.
    apply (Hf i (length vs) a v); [lia|done|by rewrite lookup_app_r, Nat.sub_diag by lia|done].
Qed.

(** A landed patch uses the budget, unless it was decided on an old version. *)
Lemma landed_cost c x w :
  decided key (sn_seen x) w (sn_edits x) -> (sn_stale x = false -> sn_seen x = c) ->
  (1 + budget (merge_patch (sn_edits x) c) <= budget c + (if sn_stale x then 102 else 0))%nat.
Proof.
  intros Hd Hst. destruct (sn_stale x); [pose proof (budget_bound (merge_patch (sn_edits x) c)); lia|].
  rewrite Hst in Hd by done. pose proof (landed_budget c _ (proj1 Hd) (proj1 (proj2 Hd)) (decided_lands _ _ _ _ Hd)). lia.
Qed.

Lemma run_budget s ls s' :
  fleet_run s ls s' ->
  (length (landed_of ls) + budget (newest (versions s')) <= budget (newest (versions s)) + 102 * length (stale_of ls))%nat.
Proof.
  induction 1 as [s|s l s1 ls s2 Hs _ IH]; [simpl; lia|]. apply step_versions in Hs.
  unfold landed_of, stale_of, landed_of in *. cbn [omap list_omap]. destruct (label_sent l) as [x|]; [|rewrite Hs in IH; exact IH].
  destruct Hs as ((w&Hd)&_&Hv&Hst). cbn [List.filter]. destruct (sn_landed x); [|rewrite Hv in IH; exact IH].
  rewrite Hv, newest_snoc in IH. pose proof (landed_cost _ _ _ Hd Hst) as Hc. cbn [List.filter length].
  destruct (sn_stale x); cbn [length]; lia.
Qed.

Lemma walk_weight s ls s' :
  fleet_run s ls s' -> stale_of ls = [] ->
  (disarmed (newest (versions s)) -> newest (versions s') = newest (versions s)) /\
  (disarmed (newest (versions s')) \/
   ca_weight (canary_parse (newest (versions s))) <= ca_weight (canary_parse (newest (versions s')))).
Proof.
  induction 1 as [s|s l s1 ls s2 Hs _ IH]; [split; [done|by right]|]. apply step_versions in Hs.
  unfold stale_of, landed_of in *. cbn [omap list_omap]. destruct (label_sent l) as [x|]; [|rewrite <- Hs; exact IH].
  destruct Hs as ((w&Hd)&_&Hv&Hst). cbn [List.filter]. destruct (sn_landed x); [|rewrite <- Hv; exact IH].
  cbn [List.filter]. destruct (sn_stale x); [done|]. intros [IH1 IH2]%IH. rewrite Hv, newest_snoc in IH1, IH2.
  rewrite Hst in Hd by done. set (c := newest (versions s)) in *. split.
  - intros (_&He&_). destruct Hd as (Ha&_). unfold armed in Ha. by rewrite He, andb_false_r in Ha.
  - destruct (landed_weight _ _ (decided_lands _ _ _ _ Hd)) as [Hdis|Hw]; [left; by rewrite IH1|].
    destruct IH2 as [Hdis|Hw']; [by left|right; lia].
Qed.

(** What one process remembers. *)
Definition remembers (r : nat) (s : Fleet) : Prop := exists p i, replicas s !! r = Some (p, i) /\ key ∈ finished p.

Lemma step_remembers r s l s' :
  fleet_step s l s' -> remembers r s -> forgets r l = false -> remembers r s'.
Proof.
  intros Hs (p0&i0&Hr0&Hfin) Hno.
  destruct Hs as [vs rs r' p i a targets patch view pinned now p' sleep out landed sent Hr Hi Hc Hrun Hsent _
    |vs rs r' p i j Hr Hj|vs rs r' p i j Hr Hj]; cbn [replicas] in *;
    (destruct (decide (r' = r)) as [->|Hne]; [|exists p0, i0; cbn; by rewrite list_lookup_insert_ne]).
  - rewrite Hr in Hr0. injection Hr0 as -> ->. exists p', i0. cbn.
    rewrite list_lookup_insert_eq by (by eapply lookup_lt_Some). split; [done|]. cbn in Hno.
    destruct (bool_decide (targets = []) || bool_decide (key ∈ map pt_ingress targets)) eqn:Ek;
      [|by rewrite bool_decide_eq_true_2 in Hno].
    assert (Hkept : targets = [] \/ key ∈ map pt_ingress targets)
      by (apply orb_true_iff in Ek as [Ek%bool_decide_eq_true|Ek%bool_decide_eq_true]; auto).
    by destruct (rearmed_canary_ignored _ _ _ _ _ _ _ _ _ _ Hfin Hkept Hrun).
  - rewrite Hr in Hr0. injection Hr0 as -> ->. exists p0, j. cbn.
    by rewrite list_lookup_insert_eq by (by eapply lookup_lt_Some).
  - cbn in Hno. by rewrite bool_decide_eq_true_2 in Hno.
Qed.

Lemma run_remembers r s ls s' :
  fleet_run s ls s' -> remembers r s -> Forall (fun l => forgets r l = false) ls -> remembers r s'.
Proof.
  induction 1 as [s|s l s1 ls s2 Hs _ IH]; intros Hr Hno; [done|]. apply Forall_cons in Hno as [Hl Hno].
  apply IH; [|done]. by eapply step_remembers.
Qed.

Lemma remembers_silent r s kept x s' : remembers r s -> ~ fleet_step s (Turned r kept (Some x)) s'.
Proof.
  intros (p0&i0&Hr0&Hfin) Hs.
  inversion Hs as [vs rs r' p i a targets patch view pinned now p' sleep out landed sent Hr Hi Hc Hrun Hsent _ | |]; subst.
  cbn in Hr0. rewrite Hr in Hr0. injection Hr0 as -> ->.
  unfold sent_by in Hsent. destruct (patch_of out) as [edits|] eqn:Hp; [|done].
  by destruct (turn_decided _ _ _ _ _ _ _ _ _ _ _ Hc Hrun Hp) as (_&_&Hnot&_).
Qed.

Lemma acked_remembers r kept x s s' :
  fleet_step s (Turned r kept (Some x)) s' -> sn_acked x = true -> ends (sn_edits x) = true -> remembers r s'.
Proof.
  inversion 1 as [vs rs r' p i a targets patch view pinned now p' sleep out landed sent Hr Hi Hc Hrun Hsent _ | |]; subst.
  unfold sent_by in Hsent. destruct (patch_of out) as [edits|] eqn:Hp; [|done]. injection Hsent as ->. cbn.
  destruct (turn_decided _ _ _ _ _ _ _ _ _ _ _ Hc Hrun Hp) as (_&Hkey&_&Hack). intros Hok Hends.
  exists p', i. cbn. rewrite list_lookup_insert_eq by (by eapply lookup_lt_Some). split; [done|]. apply Hack; [|done].
  by destruct (patch key edits) as [[]|].
Qed.

Lemma fleet_run_app s l1 l2 s' : fleet_run s (l1 ++ l2) s' -> exists s1, fleet_run s l1 s1 /\ fleet_run s1 l2 s'.
Proof.
  revert s. induction l1 as [|l l1 IH]; intros s Hr; [exists s; split; [constructor|done]|]. inversion Hr; subst.
  destruct (IH _ ltac:(eassumption)) as (s3&H1&H2). exists s3. split; [by econstructor|done].
Qed.

End fleet.

(** ** Witnesses: one canary walked to the end, and one rolled back *)

Definition demo_key : ObjectKey := MkObjectKey (bstr "prod") (bstr "web-canary").
Definition demo_annotations : annotations :=
  <[ANNOTATION_CANARY := bstr "true"]> (<[ANNOTATION_CANARY_WEIGHT := bstr "5"]>
  (<[ANNOTATION_AUTO_PROMOTE := bstr "true"]> (<[ANNOTATION_AUTO_PROMOTE_STEPS := bstr "50, 10,100,10"]> ∅))).
(** [requests] served, [errors] of them 5xx, each taking [ms] upstream. *)
Definition demo_side (requests errors ms : Z) : RouteTotals :=
  MkRouteCounters requests errors (ms * 1000 * requests) requests.
Definition demo_healthy : Window := MkWindow (demo_side 100 0 10) (demo_side 100 0 10).
Definition demo_broken : Window := MkWindow (demo_side 100 40 10) (demo_side 100 0 10).
Definition demo_policy : PromotionAnnotations := PromotionAnnotations_default.

Example demo_steps : pa_steps (promotion_parse demo_annotations) = [10; 50; 100].
Proof. vm_compute. reflexivity. Qed.
Example demo_verdicts :
  map (fun w => decide_promotion demo_policy 25 w)
    [demo_healthy; demo_broken; MkWindow (demo_side 100 0 20) (demo_side 100 0 10);
     MkWindow (demo_side 100 1 10) (demo_side 100 0 10); MkWindow (demo_side 49 49 10) (demo_side 100 0 10)]
  = [Step 50; RollBack (bstr "5xx 40.00% over 1.00%"); RollBack (bstr "latency 20.0ms over 15.0ms (10.0ms x 1.50)");
     Step 50; Hold_LowTraffic 49 100].
Proof. vm_compute. reflexivity. Qed.

Lemma rollout_promotes_witness :
  budget demo_annotations = 4%nat /\
  exists a', walk demo_key demo_healthy (budget demo_annotations) demo_annotations a' /\
    pa_status (promotion_parse a') = Some STATUS_PROMOTED.
Proof.
  split; [vm_compute; reflexivity|].
  destruct (rollout_promotes demo_key demo_annotations demo_healthy) as (a'&Hr&Hs&_).
  - vm_compute. reflexivity.
  - vm_compute. reflexivity.
  - split_and!; [vm_compute; discriminate|vm_compute; discriminate|vm_compute; reflexivity].
  - by exists a'.
Defined.

#[local] Existing Instance literal_engine.
#[local] Existing Instance listed_order.

Definition demo_counted : RouteTable :=
  MkRouteTable {[ demo_host := MkVirtualHost [set_stats_index (PathRule_new (bstr "/") Prefix None (MkBackendId 0) None) 0] ]}
    ∅ None None [] (MkBackendStats [] ∅) (MkRouteStats [0%nat] ∅) (MkSniMap ∅ ∅ None) 1.
Definition demo_store : RouteStore := [MkRouteSlot [demo_side 400 0 10] [demo_side 200 0 10]].
Definition demo_promoter : Promoter :=
  MkPromoter {[ demo_key := MkBaseline (demo_side 100 0 10) (demo_side 50 0 10) ]} {[ demo_key := seconds 60 ]} ∅ false.
Definition demo_targets : list PromotionTarget :=
  [MkPromotionTarget demo_key None [MkPromotionRoute demo_host (bstr "/") Prefix] 5 demo_policy].
Definition demo_passed : option (Promoter * Z * list Effect) :=
  pass (fun _ _ => Ok tt) (fun _ => (demo_counted, demo_store)) None demo_targets (seconds 60) demo_promoter.

Example demo_effects :
  (fun x => (x.1.2, match x.2 with Patch k e :: _ => Some (k, e) | _ => None end)) <$> demo_passed
  = Some (seconds 30, Some (demo_key, [(ANNOTATION_CANARY_WEIGHT, bstr "10")])).
Proof. vm_compute. reflexivity. Qed.

(** Two processes on the generation of the first version.  One sees a broken
    window and rolls the canary back, and the acknowledgement is lost; the
    other, whose counters are healthy, steps the canary it still reads as armed. *)
Definition demo_fleet : Fleet := MkFleet [demo_annotations] [(demo_promoter, 0%nat); (demo_promoter, 0%nat)].
Definition demo_broken_store : RouteStore := [MkRouteSlot [demo_side 400 80 10] [demo_side 200 80 10]].
Definition demo_seen : list PromotionTarget :=
  [rollout_target demo_key None [MkPromotionRoute demo_host (bstr "/") Prefix] demo_annotations].
Definition demo_turn (answer : result str unit) (store : RouteStore) : Promoter * option Z * list Effect :=
  default (Promoter_new, None, [])
    (run_turn (fun _ _ => answer) (fun _ => (demo_counted, store)) None demo_seen (seconds 60) demo_promoter).
Definition demo_rollback : Promoter * option Z * list Effect := demo_turn (Err (bstr "timeout")) demo_broken_store.
Definition demo_step : Promoter * option Z * list Effect := demo_turn (Ok tt) demo_store.
Definition demo_sent1 : option Sent :=
  sent_by demo_key (fun _ _ => Err (bstr "timeout")) [demo_annotations] 0 demo_annotations true demo_rollback.2.
Definition demo_rolled : list annotations := landing [demo_annotations] demo_sent1.
Definition demo_sent2 : option Sent :=
  sent_by demo_key (fun _ _ => Ok tt) demo_rolled 0 demo_annotations true demo_step.2.
Definition demo_versions : list annotations := landing demo_rolled demo_sent2.
Definition demo_labels : list Label := [Turned 0 true demo_sent1; Turned 1 true demo_sent2].

Lemma demo_compiled : compiled demo_key demo_annotations demo_seen.
Proof.
  split; [apply NoDup_singleton|]. intros t ->%list_elem_of_singleton _. split; [by vm_compute|]. by eexists _, _.
Qed.
Lemma demo_fleet_turn vs rs r answer store sent :
  rs !! r = Some (demo_promoter, 0%nat) -> head vs = Some demo_annotations ->
  run_turn (fun _ _ => answer) (fun _ => (demo_counted, store)) None demo_seen (seconds 60) demo_promoter
    = Some (demo_turn answer store) ->
  sent = sent_by demo_key (fun _ _ => answer) vs 0 demo_annotations true (demo_turn answer store).2 ->
  fleet_step demo_key (MkFleet vs rs) (Turned r true sent)
    (MkFleet (landing vs sent) (<[r := ((demo_turn answer store).1.1, 0%nat)]> rs)).
Proof.
  intros Hr Hv Ht Hsent. destruct (demo_turn answer store) as [[p' sleep] out].
  refine (fleet_turn demo_key vs rs r demo_promoter 0 demo_annotations demo_seen (fun _ _ => answer) _ None (seconds 60)
    p' sleep out true sent Hr _ demo_compiled Ht Hsent (fun _ _ _ => eq_refl)). by destruct vs.
Qed.
Lemma demo_rolled_head : head demo_rolled = Some demo_annotations.
Proof. unfold demo_rolled, landing. destruct demo_sent1 as [[? ? [] ? ?]|]; done. Qed.
Lemma demo_fleet_run :
  fleet_run demo_key demo_fleet demo_labels (MkFleet demo_versions [(demo_rollback.1.1, 0%nat); (demo_step.1.1, 0%nat)]).
Proof.
  eapply fleet_cons;
    [exact (demo_fleet_turn [demo_annotations] [(demo_promoter, 0%nat); (demo_promoter, 0%nat)] 0
      (Err (bstr "timeout")) demo_broken_store demo_sent1 eq_refl eq_refl ltac:(vm_compute; reflexivity) eq_refl)|].
  eapply fleet_cons; [|apply fleet_nil].
  exact (demo_fleet_turn demo_rolled [(demo_rollback.1.1, 0%nat); (demo_promoter, 0%nat)] 1
    (Ok tt) demo_store demo_sent2 eq_refl demo_rolled_head ltac:(vm_compute; reflexivity) eq_refl).
Qed.

(** A rolled-back canary gets traffic again. *)
Example stale_process_resteps :
  let a := newest demo_versions in
  ca_weight (canary_parse a) = 10 /\ rolled_back (promotion_parse a) = true /\
  ca_weight (canary_parse (newest demo_rolled)) = 0.
Proof. vm_compute. split_and!; reflexivity. Qed.


Lemma pass_acts_on_evidence_witness :
  match demo_passed with
  | Some (_, sleep, Patch k edits :: _) => MIN_TICK <= sleep <= IDLE_POLL /\ evidence (fun _ => (demo_counted, demo_store))
      demo_promoter (seconds 60) (default (rollout_target demo_key None [] ∅) (head demo_targets)) edits
  | _ => False
  end.
Proof.
  pose proof (fun p' sleep out => pass_acts_on_evidence (fun _ _ => Ok tt) (fun _ => (demo_counted, demo_store))
    None demo_targets (seconds 60) demo_promoter p' sleep out
    ltac:(apply NoDup_singleton)) as Hp. fold demo_passed in Hp.
  destruct demo_passed as [[[p' sleep] [|[k edits|] out]]|] eqn:E; try (by vm_compute in E).
  destruct (Hp p' sleep _ eq_refl) as (_&Hs&He&_). split; [exact Hs|].
  destruct (He k edits) as (t&Ht&_&Hev); [apply list_elem_of_here|].
  apply list_elem_of_singleton in Ht as ->. exact Hev.
Defined.
