(* ===== verification/Cluster.v ===== *)
(** What the translator reads from the cluster, and which Ingresses are ours:
    [crates/ramjet-controller/src/snapshot.rs] and [class.rs].

    The Kubernetes API types come from the [k8s_openapi] crate; each record
    holds the fields the sources read, optional where they are optional there.
    Missing annotations and labels read as empty maps, as [kube] does. *)

From S2P Require Import Prelude Order RouterTypes Annotations Config NetText Canary Paths Stats Backends Table.

(** ** Objects *)

Record ObjectMeta := MkObjectMeta {
  m_namespace : option str;
  m_name : option str;
  m_generate_name : option str;
  m_annotations : annotations;
  m_labels : annotations;
  m_creation : option Z;
  m_uid : option str;
}.

Record ServiceBackendPort := MkServiceBackendPort { sbp_name : option str; sbp_number : option Z }.
Record IngressServiceBackend := MkIngressServiceBackend {
  isb_name : str;
  isb_port : option ServiceBackendPort;
}.
(** [service] is absent when the backend is another resource. *)
Record IngressBackend := MkIngressBackend { ib_service : option IngressServiceBackend }.
Record HTTPIngressPath := MkHTTPIngressPath {
  hp_path : option str;
  hp_path_type : str;
  hp_backend : IngressBackend;
}.
Record IngressRule := MkIngressRule {
  ir_host : option str;
  ir_http : option (list HTTPIngressPath);
}.
Record IngressTLS := MkIngressTLS { it_hosts : option (list str); it_secret_name : option str }.
Record IngressSpec := MkIngressSpec {
  is_class_name : option str;
  is_default_backend : option IngressBackend;
  is_rules : option (list IngressRule);
  is_tls : option (list IngressTLS);
}.
Record Ingress := MkIngress { ing_meta : ObjectMeta; ing_spec : option IngressSpec }.

(** [spec.controller]. *)
Record IngressClass := MkIngressClass { ic_meta : ObjectMeta; ic_spec : option (option str) }.

Record ServicePort := MkServicePort { sp_name : option str; sp_port : Z }.
Record ServiceSpec := MkServiceSpec {
  ss_type : option str;
  ss_external_name : option str;
  ss_ports : option (list ServicePort);
}.
Record Service := MkService { svc_meta : ObjectMeta; svc_spec : option ServiceSpec }.

Record EndpointConditions := MkEndpointConditions { ec_ready : option bool; ec_terminating : option bool }.
Record SliceEndpoint := MkSliceEndpoint {
  se_addresses : list str;
  se_conditions : option EndpointConditions;
}.
Record EndpointPort := MkEndpointPort { ep_name : option str; ep_port : option Z }.
Record EndpointSlice := MkEndpointSlice {
  es_meta : ObjectMeta;
  es_address_type : str;
  es_ports : option (list EndpointPort);
  es_endpoints : option (list SliceEndpoint);
}.

Record Secret := MkSecret {
  sec_meta : ObjectMeta;
  sec_type : option str;
  sec_data : option (gmap str bytes);
}.

Record ClusterSnapshot := MkClusterSnapshot {
  ingresses : list Ingress;
  ingress_classes : list IngressClass;
  services : list Service;
  endpoint_slices : list EndpointSlice;
  secrets : list Secret;
}.

(** [ObjectKey::of]. *)
Definition key_of (m : ObjectMeta) : ObjectKey :=
  MkObjectKey (default [] (m_namespace m)) (default [] (m_name m)).
(** [ResourceExt::name_any]. *)
Definition name_any (m : ObjectMeta) : str :=
  match m_name m with Some n => n | None => default [] (m_generate_name m) end.

(** Indexing by namespace and name, as the Services and the Secrets are: an
    object without either is left out, and a later one replaces an earlier. *)
Definition named (m : ObjectMeta) : option (str * str) :=
  ns ← m_namespace m; name ← m_name m; Some (ns, name).
Definition index_named {A : Type} (meta : A -> ObjectMeta) (m : gmap (str * str) A) (x : A)
    : gmap (str * str) A :=
  match named (meta x) with
  | Some k => <[k := x]> m
  | None => m
  end.

(** What the API server guarantees: no two objects of a kind share namespace
    and name. *)
Definition unique_names {A : Type} (meta : A -> ObjectMeta) (l : list A) : Prop :=
  NoDup (map (fun x => key_of (meta x)) l).

(** ** Class filtering *)

Record ClassFilter := MkClassFilter {
  ours : gset str;
  known_classes : gset str;
  default_is_ours : bool;
  legacy_value : str;
}.

Definition class_is_ours (c : IngressClass) : bool :=
  bool_decide ((spec ← ic_spec c; spec) = Some CONTROLLER_NAME).
Definition class_is_default (c : IngressClass) : bool :=
  match m_annotations (ic_meta c) !! ANNOTATION_IS_DEFAULT_CLASS with
  | Some v => eq_ignore_ascii_case (str_trim v) (bstr "true")
  | None => false
  end.

Definition add_class (f : ClassFilter) (c : IngressClass) : ClassFilter :=
  let name := name_any (ic_meta c) in
  let f := MkClassFilter (ours f) ({[ name ]} ∪ known_classes f) (default_is_ours f) (legacy_value f) in
  if class_is_ours c
  then MkClassFilter ({[ name ]} ∪ ours f) (known_classes f) (default_is_ours f || class_is_default c) (legacy_value f)
  else f.
Definition class_filter (classes : list IngressClass) (legacy_value : str) : ClassFilter :=
  foldl add_class (MkClassFilter ∅ ∅ false legacy_value) classes.

Inductive ClaimVia := Via_ClassName | Via_LegacyAnnotation | Via_DefaultClass.
Inductive Claim :=
| Ours (via : ClaimVia)
| OtherController
| UnknownClass
| NoClass.
#[export] Instance ClaimVia_eq_dec : EqDecision ClaimVia.
Proof. solve_decision. Defined.
#[export] Instance Claim_eq_dec : EqDecision Claim.
Proof. solve_decision. Defined.

Definition classify (f : ClassFilter) (i : Ingress) : Claim :=
  match m_annotations (ing_meta i) !! ANNOTATION_LEGACY_CLASS with
  | Some annotated =>
      if bool_decide (str_trim annotated = legacy_value f) then Ours Via_LegacyAnnotation else OtherController
  | None =>
      match (spec ← ing_spec i; is_class_name spec) with
      | Some name =>
          if bool_decide (name ∈ ours f) then Ours Via_ClassName
          else if bool_decide (name ∈ known_classes f) then OtherController
          else UnknownClass
      | None => if default_is_ours f then Ours Via_DefaultClass else NoClass
      end
  end.
Definition manages (f : ClassFilter) (i : Ingress) : bool :=
  match classify f i with Ours _ => true | _ => false end.

(** ** Lemmas *)

Section named_lemmas.
Context {A : Type} (meta : A -> ObjectMeta).

Lemma index_named_lookup l m k :
  foldl (index_named meta) m l !! k =
  match last (filter (fun x => named (meta x) = Some k) l) with Some x => Some x | None => m !! k end.
Proof.
  induction l as [|x l IH] using rev_ind; [done|]. rewrite foldl_app, filter_app. simpl.
  rewrite filter_cons, filter_nil. unfold index_named at 1. destruct (named (meta x)) as [k'|] eqn:Ho.
  - destruct (decide (Some k' = Some k)) as [[= ->]|Hne].
    + by rewrite lookup_insert_eq, last_snoc.
    + rewrite lookup_insert_ne by congruence. by rewrite app_nil_r.
  - rewrite decide_False by done. by rewrite app_nil_r.
Qed.

Lemma unique_filter l k :
  unique_names meta l -> (length (filter (fun x => named (meta x) = Some k) l) <= 1)%nat.
Proof.
  intros Hu. destruct (filter _ l) as [|x [|y f]] eqn:Hf; simpl; [lia..|]. exfalso.
  assert (Hs : sublist (x :: y :: f) l) by (rewrite <- Hf; apply sublist_filter).
  assert (Hall : Forall (fun z => named (meta z) = Some k) (x :: y :: f)).
  { rewrite <- Hf. apply Forall_forall. by intros z [? ?]%list_elem_of_filter. }
  apply Forall_cons in Hall as [Hx Hall]. apply Forall_cons in Hall as [Hy _].
  assert (Hk : forall z, named (meta z) = Some k -> key_of (meta z) = MkObjectKey k.1 k.2).
  { intros z. unfold named, key_of. destruct (m_namespace (meta z)), (m_name (meta z)); naive_solver. }
  unfold unique_names in Hu. apply (fmap_sublist (fun x => key_of (meta x))) in Hs.
  assert (Hn : NoDup ((fun x => key_of (meta x)) <$> x :: y :: f)) by (by eapply sublist_NoDup).
  simpl in Hn. rewrite (Hk x), (Hk y) in Hn by done. inversion Hn; set_solver.
Qed.

(** Under unique names an index holds exactly the object of that name. *)
Lemma index_named_Some l k x :
  unique_names meta l -> (foldl (index_named meta) ∅ l !! k = Some x <-> x ∈ l /\ named (meta x) = Some k).
Proof.
  intros Hu. rewrite index_named_lookup, lookup_empty. pose proof (unique_filter l k Hu) as Hl.
  rewrite (and_comm (x ∈ l)), <- (list_elem_of_filter (fun x => named (meta x) = Some k)).
  destruct (filter _ l) as [|y [|z f]]; simpl in *; [..|lia].
  - split; [done|by intros ?%elem_of_nil].
  - rewrite list_elem_of_singleton. naive_solver.
Qed.

Lemma index_named_perm l l' :
  unique_names meta l -> l ≡ₚ l' -> foldl (index_named meta) ∅ l = foldl (index_named meta) ∅ l'.
Proof.
  intros Hu Hp. assert (Hu' : unique_names meta l') by (unfold unique_names in *; by rewrite <- Hp).
  apply map_eq. intros k. apply option_eq. intros x. rewrite !index_named_Some by done. by rewrite Hp.
Qed.
End named_lemmas.

Lemma exists_snoc {B : Type} (P : B -> Prop) l x :
  (exists y, y ∈ l ++ [x] /\ P y) <-> (exists y, y ∈ l /\ P y) \/ P x.
Proof.
  split.
  - intros (y&[Hy| ->%list_elem_of_singleton]%elem_of_app&Hp); eauto.
  - intros [(y&Hy&Hp)|Hp]; [exists y|exists x]; rewrite elem_of_app, ?list_elem_of_singleton; auto.
Qed.

(** The filter, whatever order the classes come in. *)
Lemma class_filter_spec classes legacy :
  let f := class_filter classes legacy in
  (forall n, n ∈ known_classes f <-> exists c, c ∈ classes /\ name_any (ic_meta c) = n) /\
  (forall n, n ∈ ours f <-> exists c, c ∈ classes /\ class_is_ours c = true /\ name_any (ic_meta c) = n) /\
  (default_is_ours f = true <-> exists c, c ∈ classes /\ class_is_ours c = true /\ class_is_default c = true) /\
  legacy_value f = legacy.
Proof.
  intros f. unfold f, class_filter. clear f. induction classes as [|c classes IH] using rev_ind.
  - simpl. split_and!; [| | |done]; intros; (split; [done|]); intros (c&Hc&_); by apply elem_of_nil in Hc.
  - rewrite foldl_app. simpl. set (g := foldl _ _ _) in *. destruct IH as (Hk&Ho&Hd&Hl).
    unfold add_class. destruct (class_is_ours c) eqn:Hc; simpl; split_and!; try done; try intros n;
      rewrite exists_snoc, ?elem_of_union, ?elem_of_singleton, ?orb_true_iff, ?Hk, ?Ho, ?Hd, ?Hc; naive_solver.
Qed.

Lemma classify_perm classes classes' legacy i :
  classes ≡ₚ classes' -> classify (class_filter classes legacy) i = classify (class_filter classes' legacy) i.
Proof.
  intros Hp. destruct (class_filter_spec classes legacy) as (Hk&Ho&Hd&Hl).
  destruct (class_filter_spec classes' legacy) as (Hk'&Ho'&Hd'&Hl'). unfold classify. rewrite Hl, Hl'.
  assert (Hdef : default_is_ours (class_filter classes legacy) = default_is_ours (class_filter classes' legacy)).
  { apply eq_iff_eq_true. rewrite Hd, Hd'. by setoid_rewrite Hp. }
  rewrite Hdef. destruct (m_annotations _ !! _); [done|]. destruct (_ ≫= _) as [name|]; [|done].
  assert (bool_decide (name ∈ ours (class_filter classes legacy)) = bool_decide (name ∈ ours (class_filter classes' legacy))) as ->.
  { apply bool_decide_ext. rewrite Ho, Ho'. by setoid_rewrite Hp. }
  assert (bool_decide (name ∈ known_classes (class_filter classes legacy)) = bool_decide (name ∈ known_classes (class_filter classes' legacy))) as ->;
    [|done].
  apply bool_decide_ext. rewrite Hk, Hk'. by setoid_rewrite Hp.
Qed.
