(* ===== verification/Endpoints.v ===== *)
(** From a Service reference to upstream addresses:
    [crates/ramjet-controller/src/endpoints.rs].

    Lists are read in the order the watch delivered them; the result is sorted
    and deduplicated at the end. *)

From S2P Require Import Prelude Order RouterTypes Annotations Config NetText Canary Paths Stats Backends Table Cluster.

Definition SERVICE_NAME_LABEL : str := bstr "kubernetes.io/service-name".
Definition EXTERNAL_NAME : str := bstr "ExternalName".

Inductive ResolveIssue :=
| ServiceMissing
| ExternalName (target : str)
| PortMissing
| NoReadyEndpoints (skipped : usize).

Record Resolution := MkResolution { res_endpoints : list Endpoint; res_skipped : usize }.

(** [IpAddr::from_str], [SocketAddr::new] and the derived order of addresses. *)
Definition parse_ip (s : str) : option IpAddr :=
  match parse_ipv4 s with
  | Some ip => Some (IpV4 ip)
  | None => IpV6 <$> parse_ipv6 s
  end.
Definition socket_of (ip : IpAddr) (port : u16) : SocketAddr :=
  match ip with IpV4 o => SocketV4 o port | IpV6 o => SocketV6 o port 0 0 end.
Definition addr_key (a : SocketAddr) : Z * (list Z * (Z * (Z * Z))) :=
  match a with
  | SocketV4 ip p => (0, (ip, (p, (0, 0))))
  | SocketV6 ip p f s => (1, (ip, (p, (f, s))))
  end.
#[export] Instance addr_key_inj : Inj (=) (=) addr_key.
Proof. intros [] [] [=]; by subst. Qed.
#[export] Instance SocketAddr_ord : Ord SocketAddr := key_ord addr_key.
#[export] Instance SocketAddr_ord_laws : OrdLaws SocketAddr.
Proof. apply key_ord_laws, _. Qed.

(** ** The index *)

Record EndpointIndex := MkEndpointIndex {
  ix_services : gmap (str * str) Service;
  ix_slices : gmap (str * str) (list EndpointSlice);
}.

Definition index_service : gmap (str * str) Service -> Service -> gmap (str * str) Service := index_named svc_meta.
Definition slice_owner (s : EndpointSlice) : option (str * str) :=
  ns ← m_namespace (es_meta s); service ← m_labels (es_meta s) !! SERVICE_NAME_LABEL; Some (ns, service).
Definition index_slice (m : gmap (str * str) (list EndpointSlice)) (s : EndpointSlice)
    : gmap (str * str) (list EndpointSlice) :=
  match slice_owner s with
  | Some k => <[k := default [] (m !! k) ++ [s]]> m
  | None => m
  end.
Definition endpoint_index (svcs : list Service) (slices : list EndpointSlice) : EndpointIndex :=
  MkEndpointIndex (foldl index_service ∅ svcs) (foldl index_slice ∅ slices).

Definition index_lookup (ix : EndpointIndex) (namespace name : str) : option Service :=
  ix_services ix !! (namespace, name).

(** ** Resolution *)

Definition port_matches (p : ServicePort) (wanted : BackendPort) : bool :=
  match wanted with
  | Port_Number n => sp_port p =? n
  | Port_Name name => bool_decide (sp_name p = Some name)
  end.

Definition slice_port (slice : EndpointSlice) (p : ServicePort) : option Z :=
  let wanted := default [] (sp_name p) in
  found ← find_first (fun q => bool_decide (default [] (ep_name q) = wanted)) (default [] (es_ports slice));
  ep_port found.

Definition is_serving (e : SliceEndpoint) : bool :=
  match se_conditions e with
  | None => true
  | Some c => default true (ec_ready c) && negb (default false (ec_terminating c))
  end.

(** What one endpoint adds: its addresses, and how many were skipped. *)
Definition endpoint_adds (port : u16) (e : SliceEndpoint) : list SocketAddr * usize :=
  if is_serving e
  then (omap (fun raw => (fun ip => socket_of ip port) <$> parse_ip raw) (se_addresses e),
        length (List.filter (fun raw => bool_decide (parse_ip raw = None)) (se_addresses e)))
  else ([], length (se_addresses e)).

Definition slice_adds (p : ServicePort) (slice : EndpointSlice) : list SocketAddr * usize :=
  if negb (bool_decide (es_address_type slice = bstr "IPv4") || bool_decide (es_address_type slice = bstr "IPv6"))
  then ([], 0%nat)
  else
    match slice_port slice p with
    | None => ([], 0%nat)
    | Some target_port =>
        if (0 <=? target_port) && (target_port <=? u16_max)
        then
          let adds := map (endpoint_adds target_port) (default [] (es_endpoints slice)) in
          (concat (map fst adds), sum_list (map snd adds))
        else ([], 0%nat)
    end.

Definition resolve_service (ix : EndpointIndex) (target : ServiceRef) : result ResolveIssue Resolution :=
  service ← ok_or (index_lookup ix (sr_namespace target) (sr_name target)) ServiceMissing;
  let spec := svc_spec service in
  if bool_decide ((s ← spec; ss_type s) = Some EXTERNAL_NAME)
  then Err (ExternalName (default [] (s ← spec; ss_external_name s)))
  else
    port ← ok_or (find_first (fun p => port_matches p (sr_port target)) (default [] (s ← spec; ss_ports s))) PortMissing;
    let adds := map (slice_adds port) (default [] (ix_slices ix !! (sr_namespace target, sr_name target))) in
    let addrs := dedup (sort_by ord_le (concat (map fst adds))) in
    let skipped := sum_list (map snd adds) in
    if bool_decide (addrs = []) then Err (NoReadyEndpoints skipped)
    else Ok (MkResolution (map Endpoint_new addrs) skipped).

(** ** Lemmas *)

Lemma index_slice_lookup slices m k :
  default [] (foldl index_slice m slices !! k) =
  default [] (m !! k) ++ filter (fun s => slice_owner s = Some k) slices.
Proof.
  revert m. induction slices as [|s slices IH]; intros m; simpl; [by rewrite app_nil_r|].
  rewrite IH. unfold index_slice. rewrite filter_cons. destruct (slice_owner s) as [k'|] eqn:Ho.
  - destruct (decide (Some k' = Some k)) as [[= ->]|Hne].
    + rewrite lookup_insert_eq. simpl. by rewrite <- app_assoc.
    + rewrite lookup_insert_ne by congruence. done.
  - by rewrite decide_False.
Qed.


Lemma sum_list_perm (l k : list nat) : l ≡ₚ k -> sum_list l = sum_list k.
Proof. induction 1; simpl; lia. Qed.

(** The order in which the watch delivered Services and slices is lost. *)
Lemma resolve_perm svcs svcs' slices slices' target :
  unique_names svc_meta svcs -> svcs ≡ₚ svcs' -> slices ≡ₚ slices' ->
  resolve_service (endpoint_index svcs slices) target = resolve_service (endpoint_index svcs' slices') target.
Proof.
  intros Hu Hs Hl. unfold resolve_service, index_lookup, endpoint_index. cbn [ix_services ix_slices].
  unfold index_service. rewrite (index_named_perm svc_meta svcs svcs' Hu Hs).
  destruct (ok_or _ _) as [service|]; [|done]. simpl. destruct (bool_decide _); [done|].
  destruct (ok_or _ _) as [port|]; [|done]. simpl.
  rewrite !index_slice_lookup, lookup_empty. simpl.
  set (f := filter _ slices). set (f' := filter _ slices').
  assert (Hf : map (slice_adds port) f ≡ₚ map (slice_adds port) f').
  { apply Permutation_map. unfold f, f'. by rewrite Hl. }
  rewrite (sort_by_ord_perm (concat (map fst (map (slice_adds port) f))) (concat (map fst (map (slice_adds port) f')))).
  2: { rewrite <- !flat_map_concat_map. by apply Permutation_flat_map. }
  rewrite (sum_list_perm (map snd (map (slice_adds port) f)) (map snd (map (slice_adds port) f'))); [done|].
  by apply Permutation_map.
Qed.

(** ** What a reference stands for *)

Definition backing_slice (target : ServiceRef) (slice : EndpointSlice) : Prop :=
  slice_owner slice = Some (sr_namespace target, sr_name target) /\
  (es_address_type slice = bstr "IPv4" \/ es_address_type slice = bstr "IPv6").

(** The ready, well-formed addresses behind one port of a Service. *)
Inductive backs (slices : list EndpointSlice) (target : ServiceRef) (p : ServicePort) : SocketAddr -> Prop :=
| backs_intro slice e raw ip port :
    slice ∈ slices -> backing_slice target slice -> slice_port slice p = Some port -> fits 16 port ->
    e ∈ default [] (es_endpoints slice) -> is_serving e = true ->
    raw ∈ se_addresses e -> parse_ip raw = Some ip ->
    backs slices target p (socket_of ip port).

Definition resolves_to (svcs : list Service) (target : ServiceRef) (svc : Service) : Prop :=
  svc ∈ svcs /\ named (svc_meta svc) = Some (sr_namespace target, sr_name target).
Definition is_external (svc : Service) : Prop := (s ← svc_spec svc; ss_type s) = Some EXTERNAL_NAME.
Definition service_port (svc : Service) (target : ServiceRef) : option ServicePort :=
  find_first (fun p => port_matches p (sr_port target)) (default [] (s ← svc_spec svc; ss_ports s)).

Lemma elem_of_concat_map {A B : Type} (f : A -> list B * nat) (l : list A) b :
  b ∈ concat (map fst (map f l)) <-> exists x, x ∈ l /\ b ∈ (f x).1.
Proof.
  rewrite map_map, <- flat_map_concat_map, list_elem_of_In, in_flat_map.
  by setoid_rewrite <- list_elem_of_In.
Qed.

Lemma slice_adds_elem target p slices slice a :
  slice ∈ slices -> slice_owner slice = Some (sr_namespace target, sr_name target) ->
  a ∈ (slice_adds p slice).1 -> backs slices target p a.
Proof.
  intros Hin Ho. unfold slice_adds. case_bool_decide as H4; simpl.
  2: case_bool_decide as H6; simpl; [|intros Ha; by apply elem_of_nil in Ha].
  all: destruct (slice_port slice p) as [port|] eqn:Hp; simpl; [|intros Ha; by apply elem_of_nil in Ha].
  all: destruct (_ && _) eqn:Hr; simpl; [|intros Ha; by apply elem_of_nil in Ha].
  all: rewrite elem_of_concat_map; intros (e&He&Ha); unfold endpoint_adds in Ha.
  all: destruct (is_serving e) eqn:Hs; simpl in Ha; [|by apply elem_of_nil in Ha].
  all: apply list_elem_of_omap in Ha as (raw&Hraw&Ha); destruct (parse_ip raw) as [ip|] eqn:Hip; [|done].
  all: simpl in Ha; injection Ha as <-; eapply backs_intro; try done.
  all: unfold backing_slice, fits, u16_max in *; bools; lia || auto.
Qed.

Lemma backs_slice_adds target p slices a :
  backs slices target p a ->
  exists slice, slice ∈ slices /\ slice_owner slice = Some (sr_namespace target, sr_name target) /\
    a ∈ (slice_adds p slice).1.
Proof.
  intros [slice e raw ip port Hin [Ho Ht] Hp Hr He Hs Hraw Hip]. exists slice. split_and!; [done|done|].
  unfold slice_adds. rewrite Hp. unfold fits in Hr.
  replace ((0 <=? port) && (port <=? u16_max)) with true by (unfold u16_max; lia).
  assert (bool_decide (es_address_type slice = bstr "IPv4") || bool_decide (es_address_type slice = bstr "IPv6") = true)
    as -> by (by rewrite orb_true_iff, !bool_decide_eq_true). simpl.
  apply elem_of_concat_map. exists e. split; [done|]. unfold endpoint_adds. rewrite Hs. simpl.
  apply list_elem_of_omap. exists raw. by rewrite Hip.
Qed.

(** The addresses one resolution collects, before they are ordered. *)
Lemma collected_backs slices svcs target p a :
  a ∈ concat (map fst (map (slice_adds p)
        (default [] (ix_slices (endpoint_index svcs slices) !! (sr_namespace target, sr_name target))))) <->
  backs slices target p a.
Proof.
  unfold endpoint_index. cbn [ix_slices]. rewrite index_slice_lookup, lookup_empty. simpl.
  rewrite elem_of_concat_map. split.
  - intros (slice&[Ho Hin]%list_elem_of_filter&Ha). by eapply slice_adds_elem.
  - intros (slice&Hin&Ho&Ha)%backs_slice_adds. exists slice. split; [by apply list_elem_of_filter|done].
Qed.

Lemma find_service svcs slices target :
  unique_names svc_meta svcs ->
  match index_lookup (endpoint_index svcs slices) (sr_namespace target) (sr_name target) with
  | Some svc => resolves_to svcs target svc
  | None => forall svc, ~ resolves_to svcs target svc
  end.
Proof.
  intros Hu. unfold index_lookup, endpoint_index, index_service, resolves_to. cbn [ix_services].
  destruct (foldl _ ∅ svcs !! _) as [svc|] eqn:E; [by apply (index_named_Some svc_meta)|].
  intros svc Hsvc. apply (index_named_Some svc_meta) in Hsvc; [|done]. congruence.
Qed.

(** * Properties *)

(** Resolution is exact, on every branch.  Under the API server's unique
    names, a resolved reference carries exactly the addresses that back the
    Service's first matching port (ready, not terminating, parseable, in an
    IPv4 or IPv6 slice of that Service), each once, in ascending order, with
    weight one, and at least one of them; each failure means what it says, and
    "no ready endpoints" that no address backs the port at all. *)
Theorem resolution_exact svcs slices target (Hu : unique_names svc_meta svcs) :
  match resolve_service (endpoint_index svcs slices) target with
  | Err ServiceMissing => forall svc, ~ resolves_to svcs target svc
  | Err (ExternalName name) =>
      exists svc, resolves_to svcs target svc /\ is_external svc /\
        name = default [] (s ← svc_spec svc; ss_external_name s)
  | Err PortMissing =>
      exists svc, resolves_to svcs target svc /\ ~ is_external svc /\ service_port svc target = None
  | Err (NoReadyEndpoints _) =>
      exists svc p, resolves_to svcs target svc /\ ~ is_external svc /\
        service_port svc target = Some p /\ forall a, ~ backs slices target p a
  | Ok r =>
      exists svc p addrs, resolves_to svcs target svc /\ ~ is_external svc /\
        service_port svc target = Some p /\ res_endpoints r = map Endpoint_new addrs /\ addrs <> [] /\
        StronglySorted (fun x y => cmp x y = Lt) addrs /\ forall a, a ∈ addrs <-> backs slices target p a
  end.
Proof.
  pose proof (find_service svcs slices target Hu) as Hsvc. unfold resolve_service.
  destruct (index_lookup _ _ _) as [svc|]; [|done]. simpl.
  case_bool_decide as Hx; [by exists svc|]. fold (service_port svc target).
  destruct (service_port svc target) as [p|] eqn:Hp; simpl; [|by exists svc].
  set (l := concat _). assert (Hl : forall a, a ∈ l <-> backs slices target p a) by (intros a; apply (collected_backs slices svcs)).
  case_bool_decide as He; simpl.
  - exists svc, p. split_and!; try done. intros a. rewrite <- Hl, <- (elem_of_sort_by ord_le), <- dedup_elem, He.
    apply not_elem_of_nil.
  - exists svc, p, (dedup (sort_by ord_le l)). split_and!; try done.
    + apply dedup_sorted, sort_by_ord_sorted.
    + intros a. by rewrite dedup_elem, elem_of_sort_by, Hl.
Qed.

Definition demo_meta (ns name : str) (labels : list (str * str)) : ObjectMeta :=
  MkObjectMeta (Some ns) (Some name) None ∅ (list_to_map labels) (Some 0) None.
Definition demo_service : Service :=
  MkService (demo_meta (bstr "default") (bstr "web") [])
    (Some (MkServiceSpec None None (Some [MkServicePort None 80]))).
Definition demo_slice : EndpointSlice :=
  MkEndpointSlice (demo_meta (bstr "default") (bstr "web-1") [(SERVICE_NAME_LABEL, bstr "web")]) (bstr "IPv4")
    (Some [MkEndpointPort (Some []) (Some 8080)])
    (Some [MkSliceEndpoint [bstr "10.0.0.2"; bstr "10.0.0.1"] None;
           MkSliceEndpoint [bstr "10.0.0.9"] (Some (MkEndpointConditions (Some true) (Some true)));
           MkSliceEndpoint [bstr "10.0.0.1"; bstr "nonsense"] (Some (MkEndpointConditions (Some true) None))]).
Definition demo_ref : ServiceRef := MkServiceRef (bstr "default") (bstr "web") (Port_Number 80).

Lemma resolution_exact_witness :
  resolve_service (endpoint_index [demo_service] [demo_slice]) demo_ref =
    Ok (MkResolution [Endpoint_new (SocketV4 [10; 0; 0; 1] 8080); Endpoint_new (SocketV4 [10; 0; 0; 2] 8080)] 2) /\
  exists svc p addrs, resolves_to [demo_service] demo_ref svc /\ ~ is_external svc /\
    service_port svc demo_ref = Some p /\
    [Endpoint_new (SocketV4 [10; 0; 0; 1] 8080); Endpoint_new (SocketV4 [10; 0; 0; 2] 8080)] = map Endpoint_new addrs /\
    addrs <> [] /\ StronglySorted (fun x y => cmp x y = Lt) addrs /\
    forall a, a ∈ addrs <-> backs [demo_slice] demo_ref p a.
Proof.
  assert (E : resolve_service (endpoint_index [demo_service] [demo_slice]) demo_ref =
    Ok (MkResolution [Endpoint_new (SocketV4 [10; 0; 0; 1] 8080); Endpoint_new (SocketV4 [10; 0; 0; 2] 8080)] 2))
    by (vm_compute; reflexivity).
  split; [exact E|].
  pose proof (resolution_exact [demo_service] [demo_slice] demo_ref ltac:(apply NoDup_singleton)) as H.
  rewrite E in H. exact H.
Defined.
