(* ===== verification/Secrets.v ===== *)
(** The content hash and the certificate Secrets:
    [crates/ramjet-controller/src/digest.rs] and [tls.rs].

    A digest is the 64-bit state of FNV-1a; feeding it is a fold over the
    bytes.  Every [Digest] method is one function on the state. *)

From S2P Require Import Prelude Order RouterTypes Annotations Config NetText Canary Paths Stats Backends Table Cluster.

(** ** The digest *)

Definition FNV_OFFSET : u64 := 14695981039346656037.
Definition FNV_PRIME : u64 := 1099511628211.

Definition digest_new : u64 := FNV_OFFSET.
Definition fnv_byte (d : u64) (b : u8) : u64 := wrap64 (Z.lxor d b * FNV_PRIME).
Definition digest_bytes (d : u64) (bs : bytes) : u64 := foldl fnv_byte d bs.
(** [to_le_bytes]. *)
Fixpoint le_bytes (n : nat) (v : Z) : bytes :=
  match n with 0%nat => [] | S n' => v mod 256 :: le_bytes n' (v / 256) end.
Definition digest_u64 (d : u64) (v : u64) : u64 := digest_bytes d (le_bytes 8 v).
(** [s.len() as u64]. *)
Definition length64 (s : bytes) : u64 := wrap64 (Z.of_nat (length s)).
Definition digest_str (d : u64) (s : str) : u64 := digest_bytes (digest_u64 d (length64 s)) s.
Definition digest_u8 (d : u64) (v : u8) : u64 := digest_bytes d [v].
Definition digest_opt_str (d : u64) (s : option str) : u64 :=
  match s with
  | Some s => digest_str (digest_u8 d 1) s
  | None => digest_u8 d 0
  end.

Definition cert_handle_id (namespace name : str) (cert key : bytes) : u64 :=
  let d := digest_str digest_new namespace in
  let d := digest_str d name in
  let d := digest_bytes (digest_u64 d (length64 cert)) cert in
  digest_bytes (digest_u64 d (length64 key)) key.

(** ** Secrets *)

Definition TLS_SECRET_TYPE : str := bstr "kubernetes.io/tls".
Definition TLS_CRT : str := bstr "tls.crt".
Definition TLS_KEY : str := bstr "tls.key".
Definition PEM_MARKER : bytes := bstr "-----BEGIN".

Inductive CertIssue :=
| Missing
| WrongType (found : str)
| IncompleteData (field : str)
| NotPem.

Definition cert_issue_text (e : CertIssue) : str :=
  match e with
  | Missing => bstr "secret does not exist"
  | WrongType found => bstr "secret type is `" ++ found ++ bstr "`, not `" ++ TLS_SECRET_TYPE ++ bstr "`"
  | IncompleteData field => bstr "secret has no usable `" ++ field ++ bstr "`"
  | NotPem => bstr "`tls.crt` is not PEM"
  end.

Abbreviation SecretIndex := (gmap (str * str) Secret) (only parsing).
Definition secret_index (secrets : list Secret) : SecretIndex := foldl (index_named sec_meta) ∅ secrets.

(** [haystack.windows(n).any(|w| w == needle)]; the needle is not empty. *)
Definition contains (haystack needle : bytes) : bool := bool_decide (is_Some (find_sub needle haystack)).

(** The closure [field]. *)
Definition secret_field (s : Secret) (key : str) : result CertIssue bytes :=
  bs ← ok_or (d ← sec_data s; d !! key) (IncompleteData key);
  if bool_decide (bs = []) then Err (IncompleteData key) else Ok bs.

Definition material (index : SecretIndex) (namespace name : str) : result CertIssue CertMaterial :=
  secret ← ok_or (index !! (namespace, name)) Missing;
  if bool_decide (sec_type secret = Some TLS_SECRET_TYPE)
  then
    cert ← secret_field secret TLS_CRT;
    key ← secret_field secret TLS_KEY;
    if contains cert PEM_MARKER
    then Ok (MkCertMaterial (cert_handle_id namespace name cert key) cert key)
    else Err NotPem
  else Err (WrongType (default (bstr "<none>") (sec_type secret))).

(** The reference vectors of the FNV test suite. *)
Example fnv_a : digest_bytes digest_new (bstr "a") = 12638187200555641996.
Proof. reflexivity. Qed.
Example fnv_foobar : digest_bytes digest_new (bstr "foobar") = 9625390261332436968.
Proof. reflexivity. Qed.

(** ** Lemmas *)

(** The prime is odd, so multiplying by it modulo 2^64 loses nothing. *)
Definition FNV_INVERSE : Z := 14886173955864302971.

Lemma fnv_mul_inj x y : fits 64 x -> fits 64 y -> wrap64 (x * FNV_PRIME) = wrap64 (y * FNV_PRIME) -> x = y.
Proof.
  unfold fits, wrap64, wrap. intros Hx Hy Heq.
  assert (Hinv : forall z, 0 <= z < 2 ^ 64 -> ((z * FNV_PRIME) mod 2 ^ 64 * FNV_INVERSE) mod 2 ^ 64 = z).
  { intros z Hz. rewrite Z.mul_mod_idemp_l, <- Z.mul_assoc by done.
    rewrite <- Z.mul_mod_idemp_r by done. replace ((FNV_PRIME * FNV_INVERSE) mod 2 ^ 64) with 1 by reflexivity.
    rewrite Z.mul_1_r. by apply Z.mod_small. }
  rewrite <- (Hinv x), <- (Hinv y) by done. by rewrite Heq.
Qed.

Lemma lxor_fits d b : fits 64 d -> is_byte b -> fits 64 (Z.lxor d b).
Proof.
  unfold fits, is_byte. intros Hd Hb. split; [apply Z.lxor_nonneg; lia|].
  assert (Hlt : forall x, 0 <= x < 2 ^ 64 <-> 0 <= x /\ Z.log2 x < 64).
  { intros x. split; intros [? ?]; (split; [done|]).
    - destruct (decide (x = 0)) as [->|]; [done|]. apply Z.log2_lt_pow2; lia.
    - destruct (decide (x = 0)) as [->|]; [done|]. apply Z.log2_lt_pow2; lia. }
  apply Hlt. split; [apply Z.lxor_nonneg; lia|].
  pose proof (Z.log2_lxor d b ltac:(lia) ltac:(lia)). apply Hlt in Hd as [_ ?].
  assert (Hb' : 0 <= b < 2 ^ 64) by lia. apply Hlt in Hb' as [_ ?]. lia.
Qed.

Lemma fnv_byte_fits d b : fits 64 (fnv_byte d b).
Proof. unfold fits, fnv_byte, wrap64, wrap. apply Z.mod_pos_bound. lia. Qed.

Lemma lxor_cancel_l a b c : Z.lxor a b = Z.lxor a c -> b = c.
Proof.
  intros He. apply (f_equal (Z.lxor a)) in He. by rewrite <- !Z.lxor_assoc, Z.lxor_nilpotent, !Z.lxor_0_l in He.
Qed.

(** One step loses neither the byte nor the state. *)
Lemma fnv_byte_inj_byte d b c : fits 64 d -> is_byte b -> is_byte c -> fnv_byte d b = fnv_byte d c -> b = c.
Proof. intros Hd Hb Hc He. apply fnv_mul_inj in He; [by apply lxor_cancel_l in He|by apply lxor_fits..]. Qed.
Lemma fnv_byte_inj_state d d' b : fits 64 d -> fits 64 d' -> is_byte b -> fnv_byte d b = fnv_byte d' b -> d = d'.
Proof.
  intros Hd Hd' Hb He. apply fnv_mul_inj in He; [|by apply lxor_fits..].
  rewrite (Z.lxor_comm d), (Z.lxor_comm d') in He. by apply lxor_cancel_l in He.
Qed.

Lemma digest_bytes_fits d bs : fits 64 d -> fits 64 (digest_bytes d bs).
Proof. revert d. induction bs as [|b bs IH]; intros d Hd; [done|]. simpl. apply IH, fnv_byte_fits. Qed.

Lemma digest_bytes_inj_state d d' bs :
  fits 64 d -> fits 64 d' -> Forall is_byte bs -> digest_bytes d bs = digest_bytes d' bs -> d = d'.
Proof.
  intros Hd Hd' Hbs. revert d d' Hd Hd'. induction Hbs as [|b bs Hb _ IH]; intros d d' Hd Hd' He; [done|].
  simpl in He. apply IH in He; [|apply fnv_byte_fits..]. by apply fnv_byte_inj_state in He.
Qed.

Lemma digest_bytes_app d a b : digest_bytes d (a ++ b) = digest_bytes (digest_bytes d a) b.
Proof. apply foldl_app. Qed.

(** *** Framing *)

Definition framed (s : bytes) : bytes := le_bytes 8 (length64 s) ++ s.
(** What a certificate's identity is the hash of. *)
Definition cert_stream (namespace name : str) (cert key : bytes) : bytes :=
  framed namespace ++ framed name ++ framed cert ++ framed key.

Lemma digest_str_framed d s : digest_str d s = digest_bytes d (framed s).
Proof. unfold digest_str, digest_u64, framed. by rewrite digest_bytes_app. Qed.

Lemma cert_handle_id_stream namespace name cert key :
  cert_handle_id namespace name cert key = digest_bytes digest_new (cert_stream namespace name cert key).
Proof.
  unfold cert_handle_id, cert_stream. rewrite !digest_bytes_app. by rewrite <- !digest_str_framed.
Qed.

Lemma le_bytes_length n v : length (le_bytes n v) = n.
Proof. revert v. induction n as [|n IH]; intros v; simpl; [done|]. by rewrite IH. Qed.

Lemma le_bytes_byte n v : Forall is_byte (le_bytes n v).
Proof.
  revert v. induction n as [|n IH]; intros v; simpl; constructor; [|apply IH].
  unfold is_byte. apply Z.mod_pos_bound. lia.
Qed.

Lemma le_bytes_inj n v w :
  0 <= v < 256 ^ Z.of_nat n -> 0 <= w < 256 ^ Z.of_nat n -> le_bytes n v = le_bytes n w -> v = w.
Proof.
  revert v w. induction n as [|n IH]; intros v w Hv Hw; [simpl in *; lia|]. simpl. intros [= Hm Hd].
  rewrite Nat2Z.inj_succ, Z.pow_succ_r in * by lia. apply IH in Hd.
  - rewrite (Z.div_mod v 256), (Z.div_mod w 256) by lia. congruence.
  - split; [by apply Z.div_pos; lia|]. apply Z.div_lt_upper_bound; lia.
  - split; [by apply Z.div_pos; lia|]. apply Z.div_lt_upper_bound; lia.
Qed.

(** Field contents fit in memory. *)
Definition fits_memory (s : bytes) : Prop := Z.of_nat (length s) < 2 ^ 64.

Lemma framed_split a b x y :
  fits_memory a -> fits_memory b -> framed a ++ x = framed b ++ y -> a = b /\ x = y.
Proof.
  unfold fits_memory, framed. intros Ha Hb He. rewrite <- !app_assoc in He.
  apply app_inj_1 in He as [Hl He]; [|by rewrite !le_bytes_length].
  apply le_bytes_inj in Hl; [|unfold length64, wrap64, wrap; rewrite Z.mod_small; lia..].
  unfold length64, wrap64, wrap in Hl. rewrite !Z.mod_small in Hl by lia.
  apply app_inj_1 in He as [-> ->]; [done|lia].
Qed.

(** * Properties *)

(** The content hash separates what it was meant to separate.  What is
    hashed for a certificate determines its namespace, its name, its chain and
    its key (the length prefixes leave no ambiguity, so moving bytes between
    fields always changes the hashed stream); and changing a single byte
    anywhere in a hashed stream always changes the hash, whatever surrounds
    it. *)
Theorem digest_separates (ns ns' name name' cert cert' key key' l r : bytes) (a b : u8)
    (Hmem : Forall fits_memory [ns; ns'; name; name'; cert; cert'; key; key'])
    (Ha : is_byte a) (Hb : is_byte b) (Hr : Forall is_byte r) :
  (cert_stream ns name cert key = cert_stream ns' name' cert' key' ->
   ns = ns' /\ name = name' /\ cert = cert' /\ key = key') /\
  cert_handle_id ns name cert key = digest_bytes digest_new (cert_stream ns name cert key) /\
  (a <> b -> digest_bytes digest_new (l ++ a :: r) <> digest_bytes digest_new (l ++ b :: r)).
Proof.
  rewrite !Forall_cons in Hmem. destruct Hmem as (?&?&?&?&?&?&?&?&_). split_and!.
  - unfold cert_stream. intros He. apply framed_split in He as [-> He]; [|done..].
    apply framed_split in He as [-> He]; [|done..]. apply framed_split in He as [-> He]; [|done..].
    rewrite <- (app_nil_r (framed key)), <- (app_nil_r (framed key')) in He.
    by apply framed_split in He as [-> _].
  - apply cert_handle_id_stream.
  - intros Hne He. rewrite !digest_bytes_app in He. simpl in He.
    assert (Hd : fits 64 (digest_bytes digest_new l)) by (by apply digest_bytes_fits).
    apply digest_bytes_inj_state in He; [|apply fnv_byte_fits..|done]. by apply fnv_byte_inj_byte in He.
Qed.

Lemma digest_separates_witness :
  cert_handle_id (bstr "ns") (bstr "tls") (bstr "ab") (bstr "c") <>
  cert_handle_id (bstr "ns") (bstr "tls") (bstr "a") (bstr "bc") /\
  digest_bytes digest_new (bstr "weight=10") <> digest_bytes digest_new (bstr "weight=20").
Proof.
  split; [by vm_compute|].
  exact (proj2 (proj2 (digest_separates [] [] [] [] [] [] [] [] (bstr "weight=") (bstr "0") (chr "1") (chr "2")
    ltac:(repeat constructor) ltac:(done) ltac:(done) ltac:(repeat constructor; done))) ltac:(done)).
Defined.
