(* ===== verification/Plans.v ===== *)
(** What the translator decides before it builds anything:
    [crates/ramjet-controller/src/translate.rs] up to [collect_backends].

    The code threads [warnings: &mut Vec<Warning>] through every function; here
    a function that may warn returns a [Logged] value, the warnings it pushes
    with its result, and [each] runs a loop.  A [HashMap] is a [gmap] iterated
    through [HashOrder]; a [BTreeMap] is one iterated in key order. *)

From S2P Require Import Prelude Order RouterTypes Annotations Config NetText Canary Paths Stats Backends Table Builder Cluster Endpoints.

(** ** Warnings *)

Inductive WarningKind :=
| UnknownClassWarning
| RouteConflict
| UnsupportedBackend
| ServiceUnresolved
| ExternalNameService
| EndpointsSkipped
| InvalidRoute
| InvalidAnnotation
| CanaryOrphan
| CanaryConflict
| CanaryInert
| MirrorRejected
| TlsSecret
| TlsConflict
| TlsHostless
| DefaultBackendConflict
| BackendProtocolConflict.
#[export] Instance WarningKind_eq_dec : EqDecision WarningKind.
Proof. solve_decision. Defined.

Definition warning_kind_as_str (k : WarningKind) : str :=
  match k with
  | UnknownClassWarning => bstr "UnknownClass"
  | RouteConflict => bstr "RouteConflict"
  | UnsupportedBackend => bstr "UnsupportedBackend"
  | ServiceUnresolved => bstr "ServiceUnresolved"
  | ExternalNameService => bstr "ExternalNameService"
  | EndpointsSkipped => bstr "EndpointsSkipped"
  | InvalidRoute => bstr "InvalidRoute"
  | InvalidAnnotation => bstr "InvalidAnnotation"
  | CanaryOrphan => bstr "CanaryOrphan"
  | CanaryConflict => bstr "CanaryConflict"
  | CanaryInert => bstr "CanaryInert"
  | MirrorRejected => bstr "MirrorRejected"
  | TlsSecret => bstr "TlsSecret"
  | TlsConflict => bstr "TlsConflict"
  | TlsHostless => bstr "TlsHostless"
  | DefaultBackendConflict => bstr "DefaultBackendConflict"
  | BackendProtocolConflict => bstr "BackendProtocolConflict"
  end.

Definition is_annotation_refusal (k : WarningKind) : bool :=
  match k with
  | InvalidAnnotation | CanaryOrphan | CanaryConflict | CanaryInert | MirrorRejected
  | BackendProtocolConflict => true
  | _ => false
  end.

Record Warning := MkWarning { w_subject : ObjectKey; w_kind : WarningKind; w_detail : str }.
#[export] Instance Warning_eq_dec : EqDecision Warning.
Proof. solve_decision. Defined.

(** A value with the warnings pushed while it was computed. *)
Record Logged (A : Type) := MkLogged { logged : list Warning; value : A }.
Arguments MkLogged {_} _ _.
Arguments logged {_} _.
Arguments value {_} _.
#[export] Instance Logged_ret : MRet Logged := fun A x => MkLogged [] x.
#[export] Instance Logged_bind : MBind Logged := fun A B f m =>
  let r := f (value m) in MkLogged (logged m ++ logged r) (value r).
Definition warn (subject : ObjectKey) (kind : WarningKind) (detail : str) : Logged unit :=
  MkLogged [MkWarning subject kind detail] tt.
Fixpoint each {S A : Type} (f : S -> A -> Logged S) (s : S) (l : list A) : Logged S :=
  match l with
  | [] => mret s
  | x :: l' => s' ← f s x; each f s' l'
  end.

(** ** Plans *)

Record RouteKey := MkRouteKey { rk_host : option str; rk_path : str; rk_path_type : PathType }.
#[export] Instance RouteKey_eq_dec : EqDecision RouteKey.
Proof. solve_decision. Defined.
#[export] Instance RouteKey_countable : Countable RouteKey.
Proof.
  refine (inj_countable' (fun k => (rk_host k, rk_path k, rk_path_type k))
    (fun p => MkRouteKey p.1.1 p.1.2 p.2) _). by intros [].
Defined.

(** [path_type_rank]. *)
Definition path_type_rank (t : PathType) : u8 :=
  match t with Exact => 0 | Prefix => 1 | ImplementationSpecific => 2 end.
(** [sort_key]; [false] sorts before [true]. *)
Definition sort_key (k : RouteKey) : str * (Z * (str * Z)) :=
  (default [] (rk_host k),
   (if bool_decide (rk_host k = None) then 1 else 0, (rk_path k, path_type_rank (rk_path_type k)))).

Record MirrorPlan := MkMirrorPlan {
  mp_backend : ServiceRef;
  mp_percent : u32;
  mp_host : option str;
  mp_protocol : BackendProtocol;
}.
Record CanaryPlan := MkCanaryPlan {
  cp_backend : ServiceRef;
  cp_owner : ObjectKey;
  cp_rules : CanaryAnnotations;
  cp_protocol : BackendProtocol;
}.
Record RoutePlan := MkRoutePlan {
  rp_key : RouteKey;
  rp_backend : ServiceRef;
  rp_owner : ObjectKey;
  rp_protocol : BackendProtocol;
  rp_canary : option CanaryPlan;
  rp_mirror : option MirrorPlan;
}.
Abbreviation routes_map := (gmap RouteKey RoutePlan) (only parsing).

Definition describe (k : RouteKey) : str :=
  default (bstr "*") (rk_host k) ++ rk_path k ++ bstr " (" ++ path_type_as_str (rk_path_type k) ++ bstr ")".

(** ** Reading one Ingress *)

Definition tick (s : str) : str := chr "`" :: s ++ [chr "`"].

Definition normalize_host (host : option str) : option str :=
  h ← host;
  let h := trim_end_matches (chr ".") (str_trim h) in
  if bool_decide (h = []) then None else Some (lower h).

Definition parse_path_type (raw : str) (owner : ObjectKey) : Logged PathType :=
  if bool_decide (raw = bstr "Exact") then mret Exact
  else if bool_decide (raw = bstr "Prefix") then mret Prefix
  else if bool_decide (raw = bstr "ImplementationSpecific") then mret ImplementationSpecific
  else
    _ ← warn owner InvalidAnnotation
          (bstr "unknown pathType " ++ tick raw ++ bstr ", treating it as ImplementationSpecific");
    mret ImplementationSpecific.

Definition backend_ref (namespace : str) (backend : IngressBackend) (owner : ObjectKey)
    : Logged (option ServiceRef) :=
  match ib_service backend with
  | None =>
      _ ← warn owner UnsupportedBackend
            (bstr "`backend.resource` is not supported; only Service backends are routable");
      mret None
  | Some service =>
      let port :=
        p ← isb_port service;
        match sbp_number p, sbp_name p with
        | Some n, _ => Some (Port_Number n)
        | None, Some s => Some (Port_Name s)
        | None, None => None
        end in
      match port with
      | Some port => mret (Some (MkServiceRef namespace (isb_name service) port))
      | None =>
          _ ← warn owner UnsupportedBackend
                (bstr "backend Service " ++ tick (isb_name service) ++ bstr " names no port");
          mret None
      end
  end.

Definition backend_protocol (a : annotations) (owner : ObjectKey) : Logged BackendProtocol :=
  let parsed := backend_protocol_parse a in
  _ ← match bp_unsupported parsed with
      | Some v =>
          warn owner InvalidAnnotation
            (tick (ANNOTATION_BACKEND_PROTOCOL ++ bstr ": " ++ v) ++
             bstr " is not supported; only `HTTP` and `GRPC` are, and this backend stays on HTTP/1.1")
      | None => mret tt
      end;
  mret (bp_protocol parsed).

(** The warnings about annotation keys that could not be read. *)
Definition warn_invalid (owner : ObjectKey) (keys : list str) (why : str) : Logged unit :=
  each (fun _ key => warn owner InvalidAnnotation (tick key ++ why)) tt keys.

Definition mirror_plan (a : annotations) (namespace : str) (owner : ObjectKey) (protocol : BackendProtocol)
    : Logged (option MirrorPlan) :=
  let parsed := mirror_parse a in
  _ ← warn_invalid owner (ma_invalid parsed) (bstr " is not a percentage in 0-100 and was ignored");
  match ma_backend parsed with
  | None => mret None
  | Some reference =>
      let qualified :=
        if bool_decide (chr "/" ∈ reference) then reference else namespace ++ chr "/" :: reference in
      match service_ref_parse qualified with
      | Ok backend => mret (Some (MkMirrorPlan backend (ma_percent parsed) (ma_host parsed) protocol))
      | Err error =>
          _ ← warn owner MirrorRejected
                (tick (ANNOTATION_MIRROR_BACKEND ++ bstr ": " ++ reference) ++ bstr " is unusable (" ++
                 service_ref_error_text error ++ bstr "); serving without a mirror");
          mret None
      end
  end.

(** ** Production routes *)

Record Plans := MkPlans {
  pl_routes : routes_map;
  pl_fallbacks : list RoutePlan;
  pl_default : option (ServiceRef * ObjectKey);
}.
Definition no_plans : Plans := MkPlans ∅ [] None.

Definition entry_path (e : HTTPIngressPath) : str := default (bstr "/") (hp_path e).
Definition rule_paths (r : IngressRule) : list HTTPIngressPath := default [] (ir_http r).
Definition rule_host (r : IngressRule) : option str := normalize_host (ir_host r).
Definition spec_rules (s : IngressSpec) : list IngressRule := default [] (is_rules s).

(** [hosts], each once, in order of appearance. *)
Definition push_host (hosts : list (option str)) (host : option str) : list (option str) :=
  if bool_decide (host ∈ hosts) then hosts else hosts ++ [host].
Definition rule_hosts (rules : list IngressRule) : list (option str) :=
  foldl (fun hosts r => push_host hosts (rule_host r)) [] rules.

(** What every route of one Ingress shares. *)
Record IngressContext := MkIngressContext {
  cx_owner : ObjectKey;
  cx_protocol : BackendProtocol;
  cx_mirror : option MirrorPlan;
}.
Definition plan_of (cx : IngressContext) (key : RouteKey) (backend : ServiceRef) : RoutePlan :=
  MkRoutePlan key backend (cx_owner cx) (cx_protocol cx) None (cx_mirror cx).

(** One path of one rule. *)
Definition plan_path (cx : IngressContext) (host : option str) (routes : routes_map) (entry : HTTPIngressPath)
    : Logged routes_map :=
  let owner := cx_owner cx in
  backend ← backend_ref (ok_namespace owner) (hp_backend entry) owner;
  match backend with
  | None => mret routes
  | Some backend =>
      path_type ← parse_path_type (hp_path_type entry) owner;
      let key := MkRouteKey host (entry_path entry) path_type in
      match routes !! key with
      | Some plan =>
          _ ← warn owner RouteConflict
                (describe key ++ bstr " is already served by the older Ingress " ++ key_text (rp_owner plan));
          mret routes
      | None => mret (<[key := plan_of cx key backend]> routes)
      end
  end.
Definition plan_rule (cx : IngressContext) (routes : routes_map) (rule : IngressRule) : Logged routes_map :=
  each (plan_path cx (rule_host rule)) routes (rule_paths rule).

Definition fallback_plan (cx : IngressContext) (backend : ServiceRef) (host : option str) : RoutePlan :=
  plan_of cx (MkRouteKey host (bstr "/") Prefix) backend.

Definition plan_default (cx : IngressContext) (hosts : list (option str)) (st : Plans) (default_backend : IngressBackend)
    : Logged Plans :=
  let owner := cx_owner cx in
  backend ← backend_ref (ok_namespace owner) default_backend owner;
  match backend with
  | None => mret st
  | Some backend =>
      if bool_decide (hosts = [])
      then
        match pl_default st with
        | Some (_, holder) =>
            _ ← warn owner DefaultBackendConflict
                  (bstr "the default backend is already set by the older Ingress " ++ key_text holder);
            mret st
        | None => mret (MkPlans (pl_routes st) (pl_fallbacks st) (Some (backend, owner)))
        end
      else
        mret (MkPlans (pl_routes st) (pl_fallbacks st ++ map (fallback_plan cx backend) hosts) (pl_default st))
  end.

Definition plan_ingress (st : Plans) (ingress : Ingress) : Logged Plans :=
  let owner := key_of (ing_meta ingress) in
  let a := m_annotations (ing_meta ingress) in
  match ing_spec ingress with
  | None => mret st
  | Some spec =>
      protocol ← backend_protocol a owner;
      mirror ← mirror_plan a (ok_namespace owner) owner protocol;
      let cx := MkIngressContext owner protocol mirror in
      routes ← each (plan_rule cx) (pl_routes st) (spec_rules spec);
      let st := MkPlans routes (pl_fallbacks st) (pl_default st) in
      match is_default_backend spec with
      | None => mret st
      | Some default_backend => plan_default cx (rule_hosts (spec_rules spec)) st default_backend
      end
  end.

(** [routes.entry(key).or_insert(plan)]. *)
Definition insert_new (routes : routes_map) (plan : RoutePlan) : routes_map :=
  match routes !! rp_key plan with
  | Some _ => routes
  | None => <[rp_key plan := plan]> routes
  end.

(** ** Canaries *)

Definition set_canary (p : RoutePlan) (c : CanaryPlan) : RoutePlan :=
  MkRoutePlan (rp_key p) (rp_backend p) (rp_owner p) (rp_protocol p) (Some c) (rp_mirror p).

Definition attach_path (cp : ServiceRef -> CanaryPlan) (owner : ObjectKey) (host : option str)
    (routes : routes_map) (entry : HTTPIngressPath) : Logged routes_map :=
  backend ← backend_ref (ok_namespace owner) (hp_backend entry) owner;
  match backend with
  | None => mret routes
  | Some backend =>
      path_type ← parse_path_type (hp_path_type entry) owner;
      let key := MkRouteKey host (entry_path entry) path_type in
      match routes !! key with
      | None =>
          _ ← warn owner CanaryOrphan
                (bstr "no production Ingress serves " ++ describe key ++ bstr ", so this canary routes nothing");
          mret routes
      | Some plan =>
          match rp_canary plan with
          | Some c =>
              _ ← warn owner CanaryConflict
                    (describe key ++ bstr " already has a canary from the older Ingress " ++ key_text (cp_owner c));
              mret routes
          | None => mret (<[key := set_canary plan (cp backend)]> routes)
          end
      end
  end.

Definition attach_canary (routes : routes_map) (canary : Ingress * CanaryAnnotations) : Logged routes_map :=
  let '(ingress, rules) := canary in
  let owner := key_of (ing_meta ingress) in
  let a := m_annotations (ing_meta ingress) in
  protocol ← backend_protocol a owner;
  _ ← warn_invalid owner (ca_invalid rules) (bstr " is not a number and was ignored");
  _ ← (if is_inert rules
       then warn owner CanaryInert (bstr "canary has no weight, header, or cookie, so it can never divert a request")
       else mret tt);
  _ ← (if mirror_enabled (mirror_parse a)
       then warn owner InvalidAnnotation
              (tick ANNOTATION_MIRROR_BACKEND ++ bstr " on a canary Ingress does nothing; a mirror " ++
               bstr "belongs to the route, so put it on the production Ingress")
       else mret tt);
  match ing_spec ingress with
  | None => mret routes
  | Some spec =>
      each (fun routes rule =>
              each (attach_path (fun backend => MkCanaryPlan backend owner rules protocol) owner (rule_host rule))
                routes (rule_paths rule))
        routes (spec_rules spec)
  end.

(** ** The Ingresses, oldest first *)

Definition age_key (i : Ingress) : option Z * ObjectKey := (m_creation (ing_meta i), key_of (ing_meta i)).
Definition older (a b : Ingress) : bool := ord_le (age_key a) (age_key b).

Definition select_one (f : ClassFilter) (acc : list Ingress) (i : Ingress) : Logged (list Ingress) :=
  match classify f i with
  | Ours _ => mret (acc ++ [i])
  | UnknownClass =>
      _ ← warn (key_of (ing_meta i)) UnknownClassWarning
            (bstr "ingressClassName " ++ tick (default [] (s ← ing_spec i; is_class_name s)) ++
             bstr " does not name any IngressClass");
      mret acc
  | OtherController | NoClass => mret acc
  end.
Definition select_managed (snapshot : ClusterSnapshot) (opts : ControllerOpts) : Logged (list Ingress) :=
  let f := class_filter (ingress_classes snapshot) (class_name opts) in
  managed ← each (select_one f) [] (ingresses snapshot);
  mret (sort_by older managed).

(** The partition on [canary.enabled]. *)
Definition with_canary (i : Ingress) : Ingress * CanaryAnnotations :=
  (i, canary_parse (m_annotations (ing_meta i))).
Definition is_canary (i : Ingress) : bool := ca_enabled (with_canary i).2.
Definition productions (managed : list Ingress) : list Ingress := List.filter (fun i => negb (is_canary i)) managed.
Definition canaries (managed : list Ingress) : list (Ingress * CanaryAnnotations) :=
  map with_canary (List.filter is_canary managed).

(** The route plans of a pass, and the cluster's own default backend. *)
Definition plan_routes (managed : list Ingress) : Logged (routes_map * option (ServiceRef * ObjectKey)) :=
  st ← each plan_ingress no_plans (productions managed);
  let routes := foldl insert_new (pl_routes st) (pl_fallbacks st) in
  routes ← each attach_canary routes (canaries managed);
  mret (routes, pl_default st).

(** ** Backends *)

Definition claim (m : gmap ServiceRef BackendProtocol) (target : ServiceRef) (protocol : BackendProtocol)
    (owner : ObjectKey) : Logged (gmap ServiceRef BackendProtocol) :=
  match m !! target with
  | None => mret (<[target := protocol]> m)
  | Some held =>
      if bool_decide (held <> protocol)
      then
        _ ← warn owner BackendProtocolConflict
              (bstr "backend " ++ Config.backend_name target ++ bstr " is already registered as " ++
               tick (protocol_as_str held) ++ bstr " by another Ingress; this Ingress asked for " ++
               tick (protocol_as_str protocol) ++ bstr " and was not honoured");
        mret m
      else mret m
  end.
Definition claim_plan (m : gmap ServiceRef BackendProtocol) (plan : RoutePlan)
    : Logged (gmap ServiceRef BackendProtocol) :=
  m ← claim m (rp_backend plan) (rp_protocol plan) (rp_owner plan);
  m ← match rp_canary plan with
      | Some c => claim m (cp_backend c) (cp_protocol c) (cp_owner c)
      | None => mret m
      end;
  match rp_mirror plan with
  | Some x => claim m (mp_backend x) (mp_protocol x) (rp_owner plan)
  | None => mret m
  end.

Section iteration.
Context `{HashOrder}.

(** [routes.values()], sorted by [sort_key]. *)
Definition sorted_plans (routes : routes_map) : list RoutePlan :=
  sort_by (fun a b => ord_le (sort_key (rp_key a)) (sort_key (rp_key b))) (map snd (map_iter routes)).

Definition collect_backends (routes : routes_map) (default_backend : option ServiceRef)
    : Logged (gmap ServiceRef BackendProtocol) :=
  m ← each claim_plan ∅ (sorted_plans routes);
  mret (match default_backend with
        | Some target => match m !! target with Some _ => m | None => <[target := Http1]> m end
        | None => m
        end).
End iteration.

(** * The abstract specification: the first claim wins

    Each Ingress, read by itself, makes claims; a key belongs to whoever claims
    it first. *)

Definition ingress_context (i : Ingress) : IngressContext :=
  let owner := key_of (ing_meta i) in
  let protocol := value (backend_protocol (m_annotations (ing_meta i)) owner) in
  MkIngressContext owner protocol
    (value (mirror_plan (m_annotations (ing_meta i)) (ok_namespace owner) owner protocol)).
Definition ingress_rules (i : Ingress) : list IngressRule :=
  match ing_spec i with Some spec => spec_rules spec | None => [] end.

(** The key and the Service one path names, if it names one. *)
Definition path_target (owner : ObjectKey) (host : option str) (e : HTTPIngressPath) : option (RouteKey * ServiceRef) :=
  backend ← value (backend_ref (ok_namespace owner) (hp_backend e) owner);
  Some (MkRouteKey host (entry_path e) (value (parse_path_type (hp_path_type e) owner)), backend).
Definition ingress_targets (i : Ingress) : list (RouteKey * ServiceRef) :=
  flat_map (fun r => omap (path_target (key_of (ing_meta i)) (rule_host r)) (rule_paths r)) (ingress_rules i).

Definition rule_claims (i : Ingress) : list RoutePlan :=
  map (fun t => plan_of (ingress_context i) t.1 t.2) (ingress_targets i).
Definition default_target (i : Ingress) : option ServiceRef :=
  spec ← ing_spec i;
  b ← is_default_backend spec;
  let owner := key_of (ing_meta i) in value (backend_ref (ok_namespace owner) b owner).
(** A default backend answers every host of the Ingress at the lowest priority,
    or the whole cluster when the Ingress has no rules. *)
Definition fallback_claims (i : Ingress) : list RoutePlan :=
  match default_target i with
  | Some backend => map (fallback_plan (ingress_context i) backend) (rule_hosts (ingress_rules i))
  | None => []
  end.
Definition global_claim (i : Ingress) : option (ServiceRef * ObjectKey) :=
  backend ← default_target i;
  if bool_decide (rule_hosts (ingress_rules i) = []) then Some (backend, key_of (ing_meta i)) else None.
Definition canary_claims (i : Ingress) : list (RouteKey * CanaryPlan) :=
  let owner := key_of (ing_meta i) in
  map (fun t => (t.1, MkCanaryPlan t.2 owner (with_canary i).2
                        (value (backend_protocol (m_annotations (ing_meta i)) owner)))) (ingress_targets i).

Definition route_claims (managed : list Ingress) : list RoutePlan :=
  flat_map rule_claims (productions managed) ++ flat_map fallback_claims (productions managed).
Definition all_canary_claims (managed : list Ingress) : list (RouteKey * CanaryPlan) :=
  flat_map canary_claims (List.filter is_canary managed).

(** Who serves a key, and the canary in front of it. *)
Definition promised_route (managed : list Ingress) (k : RouteKey) : option RoutePlan :=
  plan ← find_first (fun p => bool_decide (rp_key p = k)) (route_claims managed);
  Some (match find_first (fun c => bool_decide (c.1 = k)) (all_canary_claims managed) with
        | Some (_, c) => set_canary plan c
        | None => plan
        end).

(** ** Lemmas *)

Lemma value_bind {A B : Type} (m : Logged A) (f : A -> Logged B) : value (m ≫= f) = value (f (value m)).
Proof. done. Qed.

Lemma logged_bind {A B : Type} (m : Logged A) (f : A -> Logged B) :
  logged (m ≫= f) = logged m ++ logged (f (value m)).
Proof. done. Qed.

#[export] Hint Rewrite @value_bind @logged_bind : ramjet.

Lemma each_value {S A : Type} (f : S -> A -> Logged S) (s : S) l :
  value (each f s l) = foldl (fun s x => value (f s x)) s l.
Proof. revert s. induction l as [|x l IH]; intros s; [done|]. simpl. apply IH. Qed.

Lemma foldl_ext {A B : Type} (f g : A -> B -> A) (a : A) l :
  (forall a x, f a x = g a x) -> foldl f a l = foldl g a l.
Proof. intros Hfg. revert a. induction l as [|x l IH]; intros a; [done|]. simpl. by rewrite Hfg. Qed.

Lemma foldl_flat_map {A B C : Type} (f : A -> B -> A) (g : C -> list B) (a : A) l :
  foldl (fun a c => foldl f a (g c)) a l = foldl f a (flat_map g l).
Proof. revert a. induction l as [|x l IH]; intros a; [done|]. simpl. rewrite foldl_app. apply IH. Qed.

Lemma foldl_omap {A B C : Type} (f : A -> B -> A) (g : C -> option B) (a : A) l :
  foldl (fun a c => match g c with Some b => f a b | None => a end) a l = foldl f a (omap g l).
Proof. revert a. induction l as [|x l IH]; intros a; [done|]. cbn. destruct (g x); apply IH. Qed.

Lemma foldl_map {A B C : Type} (f : A -> B -> A) (g : C -> B) (a : A) l :
  foldl f a (map g l) = foldl (fun a c => f a (g c)) a l.
Proof. revert a. induction l as [|x l IH]; intros a; [done|]. simpl. apply IH. Qed.

Lemma insert_new_lookup m l k :
  foldl insert_new m l !! k =
  match m !! k with Some p => Some p | None => find_first (fun p => bool_decide (rp_key p = k)) l end.
Proof.
  revert m. induction l as [|p l IH]; intros m; simpl; [by destruct (m !! k)|]. rewrite IH. unfold insert_new.
  case_bool_decide as Hk.
  - subst k. destruct (m !! rp_key p) as [q|] eqn:E; [by rewrite E|]. by rewrite lookup_insert_eq.
  - destruct (m !! rp_key p); [done|]. by rewrite lookup_insert_ne.
Qed.

(** A canary claim on the map. *)
Definition attach (routes : routes_map) (c : RouteKey * CanaryPlan) : routes_map :=
  match routes !! c.1 with
  | Some plan => match rp_canary plan with Some _ => routes | None => <[c.1 := set_canary plan c.2]> routes end
  | None => routes
  end.

Lemma attach_lookup m l k :
  foldl attach m l !! k =
  plan ← m !! k;
  Some (match rp_canary plan, find_first (fun c => bool_decide (c.1 = k)) l with
        | None, Some (_, c) => set_canary plan c
        | _, _ => plan
        end).
Proof.
  revert m. induction l as [|[k' c] l IH]; intros m; simpl.
  - destruct (m !! k) as [p|]; simpl; [|done]. by destruct (rp_canary p).
  - rewrite IH. unfold attach. simpl. case_bool_decide as Hk.
    + subst k'. destruct (m !! k) as [p|] eqn:E; simpl; [|by rewrite E].
      destruct (rp_canary p) eqn:Ec; simpl; [rewrite E; simpl; by rewrite Ec|]. by rewrite lookup_insert_eq.
    + destruct (m !! k') as [p|] eqn:E; [|done]. destruct (rp_canary p); [done|]. by rewrite lookup_insert_ne.
Qed.

Lemma plan_path_value cx host routes e :
  value (plan_path cx host routes e) =
  match path_target (cx_owner cx) host e with
  | Some t => insert_new routes (plan_of cx t.1 t.2)
  | None => routes
  end.
Proof.
  unfold plan_path, path_target. rewrite value_bind. destruct (value (backend_ref _ _ _)) as [b|]; [|done].
  rewrite value_bind. cbn. unfold insert_new. cbn. by destruct (routes !! _).
Qed.

Lemma attach_path_value cp owner host routes e :
  value (attach_path cp owner host routes e) =
  match path_target owner host e with
  | Some t => attach routes (t.1, cp t.2)
  | None => routes
  end.
Proof.
  unfold attach_path, path_target. rewrite value_bind. destruct (value (backend_ref _ _ _)) as [b|]; [|done].
  rewrite value_bind. cbn. unfold attach. cbn. destruct (routes !! _) as [p|]; [|done]. by destruct (rp_canary p).
Qed.

(** The two nested loops of an Ingress, as one over its targets. *)
Lemma each_targets (f : option str -> routes_map -> HTTPIngressPath -> Logged routes_map)
    (g : routes_map -> RouteKey * ServiceRef -> routes_map) owner routes rules :
  (forall host routes e, value (f host routes e) =
     match path_target owner host e with Some t => g routes t | None => routes end) ->
  value (each (fun routes r => each (f (rule_host r)) routes (rule_paths r)) routes rules) =
  foldl g routes (flat_map (fun r => omap (path_target owner (rule_host r)) (rule_paths r)) rules).
Proof.
  intros Hf. rewrite each_value, <- foldl_flat_map. apply foldl_ext. intros m r. rewrite each_value, <- foldl_omap.
  apply foldl_ext. intros m' e. apply Hf.
Qed.

Lemma plan_ingress_value st i :
  value (plan_ingress st i) =
  MkPlans (foldl insert_new (pl_routes st) (rule_claims i)) (pl_fallbacks st ++ fallback_claims i)
    (match pl_default st with Some d => Some d | None => global_claim i end).
Proof.
  unfold plan_ingress, rule_claims, fallback_claims, global_claim, default_target, ingress_targets, ingress_rules.
  destruct (ing_spec i) as [spec|] eqn:Hs.
  2: { cbn. rewrite app_nil_r. by destruct st as [? ? []]. }
  autorewrite with ramjet. fold (ingress_context i). cbn [mbind option_bind].
  unfold plan_rule. rewrite (each_targets _ (fun m t => insert_new m (plan_of (ingress_context i) t.1 t.2))
    (key_of (ing_meta i))) by (intros; apply plan_path_value). rewrite foldl_map.
  set (routes := foldl _ _ _). destruct (is_default_backend spec) as [d|]; cbn [mbind option_bind].
  - unfold plan_default. rewrite value_bind. cbn [cx_owner ingress_context].
    destruct (value (backend_ref _ d _)) as [b|]; cbn.
    + case_bool_decide as Hh.
      * rewrite Hh. cbn. rewrite app_nil_r. by destruct (pl_default st) as [[]|].
      * cbn. by destruct (pl_default st).
    + rewrite app_nil_r. by destruct (pl_default st).
  - cbn. rewrite app_nil_r. by destruct (pl_default st).
Qed.

Lemma attach_canary_value routes i :
  value (attach_canary routes (with_canary i)) = foldl attach routes (canary_claims i).
Proof.
  unfold attach_canary, with_canary, canary_claims, ingress_targets, ingress_rules.
  autorewrite with ramjet. destruct (ing_spec i) as [spec|]; [|done].
  erewrite each_targets; [symmetry; apply foldl_map|]. intros. apply attach_path_value.
Qed.

Lemma plan_ingresses_value st l :
  value (each plan_ingress st l) =
  MkPlans (foldl insert_new (pl_routes st) (flat_map rule_claims l)) (pl_fallbacks st ++ flat_map fallback_claims l)
    (match pl_default st with Some d => Some d | None => find_first (fun _ => true) (omap global_claim l) end).
Proof.
  rewrite each_value. revert st. induction l as [|i l IH]; intros st; cbn [foldl flat_map].
  - cbn. rewrite app_nil_r. by destruct st as [? ? []].
  - rewrite plan_ingress_value, IH. cbn [pl_routes pl_fallbacks pl_default]. f_equal.
    + by rewrite foldl_app.
    + by rewrite app_assoc.
    + destruct (pl_default st); [done|]. cbn. by destruct (global_claim i).
Qed.

Lemma plan_routes_value managed :
  value (plan_routes managed) =
  (foldl attach (foldl insert_new ∅ (route_claims managed)) (all_canary_claims managed),
   find_first (fun _ => true) (omap global_claim (productions managed))).
Proof.
  unfold plan_routes. rewrite !value_bind, plan_ingresses_value. cbn. unfold route_claims. rewrite foldl_app. f_equal.
  set (m := foldl insert_new _ _). unfold canaries, all_canary_claims. rewrite each_value, foldl_map, <- foldl_flat_map.
  apply foldl_ext. intros. apply attach_canary_value.
Qed.

Lemma claims_uncanaried managed p : p ∈ route_claims managed -> rp_canary p = None.
Proof.
  unfold route_claims. rewrite elem_of_app, !list_elem_of_In, !in_flat_map. setoid_rewrite <- list_elem_of_In.
  intros [(i&_&Hp)|(i&_&Hp)].
  - unfold rule_claims in Hp. by apply list_elem_of_fmap in Hp as (t&->&_).
  - unfold fallback_claims in Hp. destruct (default_target i); [|by apply elem_of_nil in Hp].
    by apply list_elem_of_fmap in Hp as (t&->&_).
Qed.

Lemma plan_routes_lookup managed k : (value (plan_routes managed)).1 !! k = promised_route managed k.
Proof.
  rewrite plan_routes_value. cbn. rewrite attach_lookup, insert_new_lookup, lookup_empty. unfold promised_route.
  destruct (find_first _ (route_claims managed)) as [p|] eqn:Hf; [|done]. cbn.
  apply find_first_elem in Hf as [Hp _]. by rewrite (claims_uncanaried _ _ Hp).
Qed.

Lemma select_one_value f acc i :
  value (select_one f acc i) = acc ++ (if manages f i then [i] else []).
Proof. unfold select_one, manages. destruct (classify f i); cbn; by rewrite ?app_nil_r. Qed.

Lemma select_managed_value snapshot opts :
  value (select_managed snapshot opts) =
  sort_by older (List.filter (manages (class_filter (ingress_classes snapshot) (class_name opts))) (ingresses snapshot)).
Proof.
  unfold select_managed. rewrite value_bind, each_value. cbn. f_equal. set (f := class_filter _ _).
  assert (Hf : forall acc, foldl (fun s x => value (select_one f s x)) acc (ingresses snapshot) =
    acc ++ List.filter (manages f) (ingresses snapshot)); [|apply Hf].
  induction (ingresses snapshot) as [|i l IH]; intros acc; cbn [foldl List.filter]; [by rewrite app_nil_r|].
  rewrite select_one_value, IH. destruct (manages f i); [by rewrite <- app_assoc|by rewrite app_nil_r].
Qed.

Lemma older_total a b : older a b = false -> older b a = true.
Proof. apply (ord_le_total (age_key a) (age_key b)). Qed.
Lemma older_trans a b c : older a b = true -> older b c = true -> older a c = true.
Proof. apply (ord_le_trans (age_key a) (age_key b) (age_key c)). Qed.

Lemma find_first_app {A : Type} (p : A -> bool) (l k : list A) :
  find_first p (l ++ k) = match find_first p l with Some x => Some x | None => find_first p k end.
Proof. induction l as [|x l IH]; [done|]. simpl. by destruct (p x). Qed.

(** *** Iteration order *)

Definition keyed (routes : routes_map) : Prop := forall k p, routes !! k = Some p -> rp_key p = k.

Lemma promised_keyed managed : keyed (value (plan_routes managed)).1.
Proof.
  intros k p. rewrite plan_routes_lookup. unfold promised_route.
  destruct (find_first _ (route_claims managed)) as [q|] eqn:Hf; [|done]. cbn.
  apply find_first_elem in Hf as [_ Hk%bool_decide_eq_true]. by destruct (find_first _ _) as [[]|]; intros [= <-].
Qed.

#[export] Instance sort_key_inj : Inj (=) (=) sort_key.
Proof.
  intros [h p t] [h' p' t']. unfold sort_key. cbn. intros [= Hh Hn Hp Ht]. f_equal; [|done|by destruct t, t'].
  destruct h, h'; simpl in *; simplify_eq; done.
Qed.

Lemma map_iter_values {K A : Type} `{Countable K, HashOrder} (m : gmap K A) :
  map snd (map_iter m) ≡ₚ map snd (map_to_list m).
Proof. apply Permutation_map, map_iter_perm. Qed.

Lemma elem_of_values {K A : Type} `{Countable K} (m : gmap K A) x :
  x ∈ map snd (map_to_list m) <-> exists k, m !! k = Some x.
Proof.
  rewrite list_elem_of_fmap. split.
  - intros ([k y]&->&Hin%elem_of_map_to_list). by exists k.
  - intros (k&Hk). exists (k, x). by rewrite elem_of_map_to_list.
Qed.

Lemma sorted_plans_listed `{HashOrder} routes :
  keyed routes -> sorted_plans routes = @sorted_plans listed_order routes.
Proof.
  intros Hk. unfold sorted_plans. apply (sort_by_key_perm (fun p => sort_key (rp_key p))).
  - intros x y Hx Hy Heq%sort_key_inj. rewrite map_iter_values, elem_of_values in Hx, Hy.
    destruct Hx as [k Hx], Hy as [k' Hy]. rewrite (Hk _ _ Hx), (Hk _ _ Hy) in Heq. congruence.
  - by rewrite map_iter_values.
Qed.

Lemma elem_of_sorted_plans `{HashOrder} routes p : p ∈ sorted_plans routes <-> exists k, routes !! k = Some p.
Proof. unfold sorted_plans. by rewrite elem_of_sort_by, map_iter_values, elem_of_values. Qed.

(** *** Permuted snapshots *)

Lemma NoDup_map_inj {A B : Type} (f : A -> B) (l : list A) x y :
  NoDup (map f l) -> x ∈ l -> y ∈ l -> f x = f y -> x = y.
Proof.
  induction l as [|z l IH]; [intros _ Hx; by apply elem_of_nil in Hx|]. simpl. rewrite NoDup_cons.
  intros [Hn Hd] [->|Hx]%elem_of_cons [->|Hy]%elem_of_cons Hf; [done|..|by apply IH].
  - exfalso. apply Hn. rewrite Hf. by apply list_elem_of_fmap_2.
  - exfalso. apply Hn. rewrite <- Hf. by apply list_elem_of_fmap_2.
Qed.

Lemma select_managed_perm s s' opts :
  unique_names ing_meta (ingresses s) -> ingresses s ≡ₚ ingresses s' -> ingress_classes s ≡ₚ ingress_classes s' ->
  value (select_managed s opts) = value (select_managed s' opts).
Proof.
  intros Hu Hi Hc. rewrite !select_managed_value.
  rewrite (filter_ext_in _ (manages (class_filter (ingress_classes s') (class_name opts))) (ingresses s)).
  2: { intros i. unfold manages. by rewrite (classify_perm _ _ _ _ Hc). }
  apply (sort_by_key_perm age_key); [|by apply filter_perm].
  intros x y [Hx _]%in_filter [Hy _]%in_filter Hk. apply (f_equal snd) in Hk.
  exact (NoDup_map_inj _ _ _ _ Hu Hx Hy Hk).
Qed.

Definition class_warning (f : ClassFilter) (i : Ingress) : list Warning := logged (select_one f [] i).

Lemma select_managed_logged s opts :
  logged (select_managed s opts) =
  flat_map (class_warning (class_filter (ingress_classes s) (class_name opts))) (ingresses s).
Proof.
  unfold select_managed. rewrite logged_bind. cbn [logged mret Logged_ret]. rewrite app_nil_r.
  set (f := class_filter _ _). generalize (@nil Ingress) as acc.
  induction (ingresses s) as [|i l IH]; intros acc; [done|].
  cbn [each flat_map]. rewrite logged_bind, IH. f_equal. unfold class_warning, select_one. by destruct (classify f i).
Qed.

Lemma select_managed_logged_perm s s' opts :
  ingresses s ≡ₚ ingresses s' -> ingress_classes s ≡ₚ ingress_classes s' ->
  logged (select_managed s opts) ≡ₚ logged (select_managed s' opts).
Proof.
  intros Hi Hc. rewrite !select_managed_logged. rewrite (Permutation_flat_map _ Hi).
  eapply reflexive_eq, flat_map_ext. intros i. unfold class_warning, select_one. by rewrite (classify_perm _ _ _ _ Hc).
Qed.

(** * Properties *)

(** C4: The first claim wins.  The Ingresses planned are exactly the ones this
    controller manages, oldest first.  Whatever the loops do to their shared
    map, the plan they leave is the one the specification promises: each
    host, path and path type belongs to the first claim on it, where the rules
    of all Ingresses come before the default backends of any of them (so a
    fallback never shadows a rule, however old), with the first canary that
    claims it attached; and the cluster's default backend is the first claimed
    by an Ingress without rules. *)
Theorem first_claim_wins snapshot opts :
  let managed := value (select_managed snapshot opts) in
  let f := class_filter (ingress_classes snapshot) (class_name opts) in
  let '(routes, global_default) := value (plan_routes managed) in
  (forall i, i ∈ managed <-> i ∈ ingresses snapshot /\ manages f i = true) /\
  StronglySorted (fun a b => older a b = true) managed /\
  (forall k, routes !! k = promised_route managed k) /\
  (forall k p, routes !! k = Some p -> (exists i q, i ∈ productions managed /\ q ∈ rule_claims i /\ rp_key q = k) ->
     exists i q, i ∈ productions managed /\ q ∈ rule_claims i /\ rp_key q = k /\
       rp_backend p = rp_backend q /\ rp_owner p = key_of (ing_meta i)) /\
  global_default = find_first (fun _ => true) (omap global_claim (productions managed)).
Proof.
  intros managed f. pose proof (plan_routes_value managed) as Hv. pose proof (plan_routes_lookup managed) as Hl.
  destruct (value (plan_routes managed)) as [routes global_default]. cbn in Hl. split_and!.
  - intros i. unfold managed. rewrite select_managed_value, elem_of_sort_by. apply in_filter.
  - unfold managed. rewrite select_managed_value. apply sort_by_sorted; [apply older_total|apply older_trans].
  - exact Hl.
  - intros k p Hk (i&q&Hi&Hq&Hqk). rewrite Hl in Hk. unfold promised_route, route_claims in Hk.
    rewrite find_first_app in Hk. destruct (find_first _ (flat_map rule_claims _)) as [r|] eqn:Hf.
    + apply find_first_elem in Hf as [Hr Hrk]. rewrite list_elem_of_In, in_flat_map in Hr.
      destruct Hr as (j&Hj&Hr). apply bool_decide_eq_true in Hrk. exists j, r. rewrite !list_elem_of_In.
      assert (Howner : rp_owner r = key_of (ing_meta j)).
      { unfold rule_claims in Hr. apply list_elem_of_In, list_elem_of_fmap in Hr as (t&->&_). done. }
      cbn in Hk. destruct (find_first _ (all_canary_claims managed)) as [[? c]|]; injection Hk as <-; done.
    + exfalso. rewrite find_first_None, Forall_forall in Hf. specialize (Hf q).
      rewrite bool_decide_eq_true_2 in Hf by done. discriminate Hf.
      apply list_elem_of_In, in_flat_map. exists i. by rewrite <- !list_elem_of_In.
  - by injection Hv.
Qed.
