(* ===== verification/Translate.v ===== *)
(** From route plans to a compiled configuration:
    [crates/ramjet-controller/src/translate.rs] from [register_backends] on.

    The [Digest] and the [RouteTableBuilder] are threaded through the
    registration loops as the code does; a regular expression's error message
    belongs to the [regex] crate and is a parameter. *)

From S2P Require Import Prelude Order Hosts RouterTypes Annotations Config NetText F64 Canary Paths Stats Backends Table Builder Cluster Endpoints Secrets Plans.

Definition protocol_tag (p : BackendProtocol) : u8 := match p with Http1 => 0 | H2c => 1 end.
Definition lb_policy_tag (p : LbPolicy) : u8 :=
  match p with RoundRobin => 0 | Random => 1 | LeastConn => 2 end.

(** The [Debug] of a [Vec<u32>]. *)
Fixpoint comma_separated (l : list str) : str :=
  match l with
  | [] => []
  | [s] => s
  | s :: l' => s ++ bstr ", " ++ comma_separated l'
  end.
Definition steps_debug (steps : list u32) : str :=
  chr "[" :: comma_separated (map to_string steps) ++ bstr "]".

Section translate.
Context {E : RegexEngine} `{HashOrder}.
Context (regex_error_text : RegexError -> str).

(** [Display] of [BuildError], builder.rs. *)
Definition build_error_text (e : BuildError) : str :=
  match e with
  | HostLength host => bstr "host " ++ tick host ++ bstr " is empty or longer than " ++ to_string (Z.of_nat MAX_HOST_LEN) ++ bstr " bytes"
  | HostSyntax host found =>
      bstr "host " ++ tick host ++ bstr " contains " ++ tick [found] ++ bstr ", which is not valid in an Ingress host"
  | WildcardShape host =>
      bstr "host " ++ tick host ++ bstr " is not a valid wildcard: exactly one leading `*.` label is supported"
  | PathNotAbsolute path => bstr "path " ++ tick path ++ bstr " must begin with `/`"
  | BadPattern path source =>
      bstr "invalid ImplementationSpecific path " ++ tick path ++ bstr ": " ++ regex_error_text source
  | BadCanaryPattern pattern source =>
      bstr "invalid canary header pattern " ++ tick pattern ++ bstr ": " ++ regex_error_text source
  | DuplicatePath host path path_type =>
      bstr "duplicate " ++ path_type_as_str path_type ++ bstr " path " ++ tick path ++ bstr " on host " ++ tick host
  | DuplicateBackend name => bstr "backend " ++ tick name ++ bstr " was registered more than once"
  | UnknownBackend name referrer =>
      tick referrer ++ bstr " references backend " ++ tick name ++ bstr ", which was never registered"
  | CanaryHeaderConflict host path =>
      bstr "canary on " ++ tick (host ++ path) ++ bstr " sets both a header value and a header pattern"
  | CanaryWeight weight total =>
      bstr "canary weight " ++ to_string weight ++ bstr " exceeds total " ++ to_string total
  | MirrorPercent percent => bstr "mirror percent " ++ to_string percent ++ bstr " is above 100"
  | MirrorBackendMissing host path => bstr "mirror on " ++ tick (host ++ path) ++ bstr " names no backend"
  end.

(** What the registration loops thread. *)
Record Draftsman := MkDraftsman { dm_builder : RouteTableBuilder; dm_digest : u64 }.

(** ** Backends *)

Definition resolve_issue_warning (target : ServiceRef) (issue : ResolveIssue) : WarningKind * str :=
  match issue with
  | ServiceMissing =>
      (ServiceUnresolved, bstr "Service " ++ Config.backend_name target ++ bstr " does not exist; serving 503")
  | PortMissing =>
      (ServiceUnresolved, bstr "Service has no port " ++ tick (port_text (sr_port target)) ++ bstr "; serving 503")
  | NoReadyEndpoints skipped =>
      (ServiceUnresolved,
       bstr "no ready endpoints (" ++ to_string (Z.of_nat skipped) ++ bstr " skipped); serving 503")
  | ExternalName name =>
      (ExternalNameService,
       bstr "ExternalName Services are not supported yet (" ++ tick name ++ bstr "); serving 503")
  end.

(** The addresses of one backend: none when it cannot be resolved. *)
Definition backend_endpoints (index : EndpointIndex) (target : ServiceRef) : Logged (list Endpoint) :=
  let subject := MkObjectKey (sr_namespace target) (sr_name target) in
  match resolve_service index target with
  | Ok resolution =>
      _ ← (if (0 <? res_skipped resolution)%nat
           then warn subject EndpointsSkipped
                  (to_string (Z.of_nat (res_skipped resolution)) ++
                   bstr " address(es) skipped as unready or terminating")
           else mret tt);
      mret (res_endpoints resolution)
  | Err issue =>
      let '(kind, detail) := resolve_issue_warning target issue in
      _ ← warn subject kind detail;
      mret []
  end.

Definition digest_backend (d : u64) (name : str) (policy : LbPolicy) (protocol : BackendProtocol)
    (endpoints : list Endpoint) : u64 :=
  let d := digest_u8 (digest_u8 (digest_str d name) (lb_policy_tag policy)) (protocol_tag protocol) in
  let d := digest_u64 d (wrap64 (Z.of_nat (length endpoints))) in
  foldl (fun d e => digest_u64 (digest_str d (socket_to_text (addr e))) (weight e)) d endpoints.

Definition register_one_backend (index : EndpointIndex) (opts : ControllerOpts) (st : Draftsman)
    (target : ServiceRef) (protocol : BackendProtocol) : Logged (result BuildError Draftsman) :=
  endpoints ← backend_endpoints index target;
  let name := Config.backend_name target in
  let d := digest_backend (dm_digest st) name (lb_policy opts) protocol endpoints in
  mret ('(_, b) ← backend_with (dm_builder st) name endpoints (MkBackendOptions (lb_policy opts) protocol);
        Ok (MkDraftsman b d)).

(** The loop; [?] leaves it. *)
Fixpoint register_backend_list (index : EndpointIndex) (opts : ControllerOpts) (st : Draftsman)
    (l : list (ServiceRef * BackendProtocol)) : Logged (result BuildError Draftsman) :=
  match l with
  | [] => mret (Ok st)
  | (target, protocol) :: l' =>
      r ← register_one_backend index opts st target protocol;
      match r with
      | Ok st' => register_backend_list index opts st' l'
      | Err e => mret (Err e)
      end
  end.
Definition register_backends (snapshot : ClusterSnapshot) (opts : ControllerOpts)
    (backends : gmap ServiceRef BackendProtocol) (st : Draftsman) : Logged (result BuildError Draftsman) :=
  register_backend_list (endpoint_index (services snapshot) (endpoint_slices snapshot)) opts st
    (btree_iter backends).

(** ** Routes *)

Definition digest_canary (d : u64) (c : option CanaryPlan) : u64 :=
  match c with
  | Some c =>
      let d := digest_str (digest_u8 d 1) (Config.backend_name (cp_backend c)) in
      let d := digest_u64 (digest_u64 d (ca_weight (cp_rules c))) (ca_weight_total (cp_rules c)) in
      let d := digest_opt_str (digest_opt_str d (ca_header (cp_rules c))) (ca_header_value (cp_rules c)) in
      digest_opt_str (digest_opt_str d (ca_header_pattern (cp_rules c))) (ca_cookie (cp_rules c))
  | None => digest_u8 d 0
  end.
Definition digest_mirror (d : u64) (m : option MirrorPlan) : u64 :=
  match m with
  | Some m =>
      digest_opt_str
        (digest_u64 (digest_str (digest_u8 d 1) (Config.backend_name (mp_backend m))) (mp_percent m)) (mp_host m)
  | None => digest_u8 d 0
  end.
Definition digest_route (d : u64) (plan : RoutePlan) : u64 :=
  let d := digest_str (digest_opt_str d (rk_host (rp_key plan))) (rk_path (rp_key plan)) in
  let d := digest_u8 d (path_type_rank (rk_path_type (rp_key plan))) in
  let d := digest_str d (Config.backend_name (rp_backend plan)) in
  digest_mirror (digest_canary d (rp_canary plan)) (rp_mirror plan).

Definition canary_rules (c : CanaryPlan) : CanaryRules :=
  MkCanaryRules (Config.backend_name (cp_backend c)) (ca_header (cp_rules c)) (ca_header_value (cp_rules c))
    (ca_header_pattern (cp_rules c)) (ca_cookie (cp_rules c)) (ca_weight (cp_rules c)) (ca_weight_total (cp_rules c)).
Definition mirror_rules (m : MirrorPlan) : MirrorRules :=
  MkMirrorRules (Config.backend_name (mp_backend m)) (mp_percent m) (mp_host m).
Definition plan_options (plan : RoutePlan) : RouteOptions :=
  MkRouteOptions (canary_rules <$> rp_canary plan) (mirror_rules <$> rp_mirror plan).

Definition register_route (st : Draftsman) (plan : RoutePlan) : Logged Draftsman :=
  let key := rp_key plan in
  let backend := Config.backend_name (rp_backend plan) in
  let d := digest_route (dm_digest st) plan in
  outcome ←
    match route_with (dm_builder st) (rk_host key) (rk_path key) (rk_path_type key) backend (plan_options plan) with
    | Ok b => mret (Ok b)
    | Err err =>
        _ ← match rp_canary plan with
            | Some canary =>
                warn (cp_owner canary) InvalidRoute
                  (bstr "canary rejected (" ++ build_error_text err ++ bstr "); serving " ++ describe key ++
                   bstr " without it")
            | None => mret tt
            end;
        _ ← match rp_mirror plan with
            | Some _ =>
                warn (rp_owner plan) MirrorRejected
                  (bstr "mirror rejected (" ++ build_error_text err ++ bstr "); serving " ++ describe key ++
                   bstr " without it")
            | None => mret tt
            end;
        mret (add_route (dm_builder st) (rk_host key) (rk_path key) (rk_path_type key) backend)
    end;
  match outcome with
  | Ok b => mret (MkDraftsman b d)
  | Err err =>
      _ ← warn (rp_owner plan) InvalidRoute (describe key ++ bstr " rejected: " ++ build_error_text err);
      mret (MkDraftsman (dm_builder st) d)
  end.
Definition register_routes (routes : routes_map) (st : Draftsman) : Logged Draftsman :=
  each register_route st (sorted_plans routes).

(** ** Certificates *)

Record CertPlan := MkCertPlan {
  by_host : gmap str (u64 * ObjectKey);
  materials : gmap u64 CertMaterial;
}.

Definition claim_host (owner : ObjectKey) (id : u64) (m : gmap str (u64 * ObjectKey)) (host : str)
    : Logged (gmap str (u64 * ObjectKey)) :=
  match m !! host with
  | Some (_, holder) =>
      _ ← warn owner TlsConflict
            (tick host ++ bstr " already has a certificate from the older Ingress " ++ key_text holder);
      mret m
  | None => mret (<[host := (id, owner)]> m)
  end.

Definition tls_hosts (entry : IngressTLS) : list str :=
  omap (fun h => normalize_host (Some h)) (default [] (it_hosts entry)).

Definition plan_tls (secrets : SecretIndex) (owner : ObjectKey) (cp : CertPlan) (entry : IngressTLS)
    : Logged CertPlan :=
  if bool_decide (tls_hosts entry = [])
  then
    _ ← warn owner TlsHostless
          (bstr "spec.tls entry lists no hosts; set ControllerOpts::default_tls_secret " ++
           bstr "instead, since the controller does not parse certificate SANs");
    mret cp
  else
    match it_secret_name entry with
    | None =>
        _ ← warn owner TlsSecret (bstr "spec.tls entry has no secretName");
        mret cp
    | Some secret_name =>
        match material secrets (ok_namespace owner) secret_name with
        | Err issue =>
            _ ← warn owner TlsSecret
                  (ok_namespace owner ++ chr "/" :: secret_name ++ bstr ": " ++ cert_issue_text issue ++
                   bstr "; serving these hosts without it");
            mret cp
        | Ok m =>
            hosts ← each (claim_host owner (handle_id m)) (by_host cp) (tls_hosts entry);
            mret (MkCertPlan hosts (<[handle_id m := m]> (materials cp)))
        end
    end.

Definition ingress_tls (i : Ingress) : list IngressTLS := default [] (s ← ing_spec i; is_tls s).
Definition plan_certificates (secrets : SecretIndex) (managed : list Ingress) : Logged CertPlan :=
  each (fun cp i => each (plan_tls secrets (key_of (ing_meta i))) cp (ingress_tls i))
    (MkCertPlan ∅ ∅) managed.

Definition register_host (st : Draftsman) (entry : str * (u64 * ObjectKey)) : Logged Draftsman :=
  let '(host, (id, owner)) := entry in
  let d := digest_u64 (digest_str (dm_digest st) host) id in
  match certificate (dm_builder st) host (MkCertifiedKeyHandle id) with
  | Ok b => mret (MkDraftsman b d)
  | Err err =>
      _ ← warn owner InvalidRoute (bstr "TLS host " ++ tick host ++ bstr " rejected: " ++ build_error_text err);
      mret (MkDraftsman (dm_builder st) d)
  end.

Definition register_default_certificate (secrets : SecretIndex) (opts : ControllerOpts) (st : Draftsman)
    (ms : gmap u64 CertMaterial) : Logged (Draftsman * gmap u64 CertMaterial) :=
  match default_tls_secret opts with
  | None => mret (st, ms)
  | Some reference =>
      match split_once (chr "/") reference with
      | Some (namespace, name) =>
          match material secrets namespace name with
          | Ok m =>
              mret (MkDraftsman (default_certificate (dm_builder st) (MkCertifiedKeyHandle (handle_id m)))
                      (digest_u64 (dm_digest st) (handle_id m)),
                    <[handle_id m := m]> ms)
          | Err issue =>
              _ ← warn (MkObjectKey namespace name) TlsSecret
                    (bstr "default TLS secret unusable: " ++ cert_issue_text issue);
              mret (st, ms)
          end
      | None =>
          _ ← warn (MkObjectKey [] reference) TlsSecret (bstr "default TLS secret must be `namespace/name`");
          mret (st, ms)
      end
  end.

Definition register_certificates (snapshot : ClusterSnapshot) (opts : ControllerOpts) (managed : list Ingress)
    (st : Draftsman) : Logged (Draftsman * list CertMaterial) :=
  let secrets := secret_index (secrets snapshot) in
  cp ← plan_certificates secrets managed;
  st ← each register_host st (btree_iter (by_host cp));
  '(st, ms) ← register_default_certificate secrets opts st (materials cp);
  mret (st, map snd (btree_iter ms)).

(** ** Promotions *)

Definition promotion_route (k : RouteKey) : PromotionRoute :=
  MkPromotionRoute (default (bstr "*") (rk_host k)) (rk_path k) (rk_path_type k).
Definition promotion_route_key (r : PromotionRoute) : str * (str * Z) :=
  (pr_host r, (pr_path r, path_type_rank (pr_path_type r))).

Definition attached_by (owner : ObjectKey) (plan : RoutePlan) : bool :=
  match rp_canary plan with Some c => bool_decide (cp_owner c = owner) | None => false end.
Definition covered (owner : ObjectKey) (routes : routes_map) : list PromotionRoute :=
  sort_by (fun a b => ord_le (promotion_route_key a) (promotion_route_key b))
    (map (fun p => promotion_route (rp_key p)) (List.filter (attached_by owner) (map snd (map_iter routes)))).

Definition digest_promotion (d : u64) (owner : ObjectKey) (weight : u32) (policy : PromotionAnnotations)
    (routes : list PromotionRoute) : u64 :=
  let d := digest_u64 (digest_str d (key_text owner)) weight in
  let d := digest_u64 (digest_u64 d (pa_interval policy / 1000000000)) (pa_min_requests policy) in
  let d := digest_str d (steps_debug (pa_steps policy)) in
  let d := digest_str (digest_str d (fixed 6 (pa_max_5xx_percent policy))) (fixed 6 (pa_max_latency_factor policy)) in
  let d := digest_opt_str d (pa_status policy) in
  foldl (fun d r => digest_u8 (digest_str (digest_str d (pr_host r)) (pr_path r)) (path_type_rank (pr_path_type r)))
    d routes.

Definition collect_promotion (routes : routes_map) (st : list PromotionTarget * u64)
    (c : Ingress * CanaryAnnotations) : Logged (list PromotionTarget * u64) :=
  let '(targets, d) := st in
  let '(ingress, canary) := c in
  let policy := promotion_parse (m_annotations (ing_meta ingress)) in
  if negb (pa_enabled policy) then mret (targets, d)
  else
    let owner := key_of (ing_meta ingress) in
    _ ← warn_invalid owner (pa_invalid policy) (bstr " could not be read; automatic promotion is using its default");
    let routes := covered owner routes in
    if bool_decide (routes = []) then mret (targets, d)
    else
      mret (targets ++ [MkPromotionTarget owner (m_uid (ing_meta ingress)) routes (ca_weight canary) policy],
            digest_promotion d owner (ca_weight canary) policy routes).
Definition collect_promotions (canaries : list (Ingress * CanaryAnnotations)) (routes : routes_map) (d : u64)
    : Logged (list PromotionTarget * u64) :=
  '(targets, d) ← each (collect_promotion routes) ([], d) canaries;
  mret (sort_by (fun a b => ord_le (pt_ingress a) (pt_ingress b)) targets, d).

(** ** One pass *)

(** Everything [translate] decides, up to [builder.build()]. *)
Record Draft := MkDraft {
  dr_builder : RouteTableBuilder;
  dr_certs : list CertMaterial;
  dr_promotions : list PromotionTarget;
  dr_digest : u64;
  dr_managed : list ObjectKey;
}.

(** Everything after [select_managed]. *)
Definition translate_managed (snapshot : ClusterSnapshot) (opts : ControllerOpts) (previous : option RouteTable)
    (managed : list Ingress) : Logged (result BuildError Draft) :=
  '(routes, global_default) ← plan_routes managed;
  let builder := match previous with Some table => from_previous table | None => builder_new end in
  let default_backend := match global_default with Some (r, _) => Some r | None => opts_default_backend opts end in
  backends ← collect_backends routes default_backend;
  r ← register_backends snapshot opts backends (MkDraftsman builder digest_new);
  match r with
  | Err e => mret (Err e)
  | Ok st =>
      st ← register_routes routes st;
      let b := match default_backend with
               | Some target => set_default_backend (dm_builder st) (Config.backend_name target)
               | None => dm_builder st
               end in
      let d := digest_opt_str (dm_digest st) (Config.backend_name <$> default_backend) in
      '(st, certs) ← register_certificates snapshot opts managed (MkDraftsman b d);
      '(promotions, d) ← collect_promotions (canaries managed) routes (dm_digest st);
      mret (Ok (MkDraft (dm_builder st) certs promotions d (map (fun i => key_of (ing_meta i)) managed)))
  end.
Definition translate_draft (snapshot : ClusterSnapshot) (opts : ControllerOpts) (previous : option RouteTable)
    : Logged (result BuildError Draft) :=
  managed ← select_managed snapshot opts;
  translate_managed snapshot opts previous managed.

Record Translation := MkTranslation {
  tr_config : CompiledConfig;
  tr_digest : u64;
  tr_managed : list ObjectKey;
  tr_warnings : list Warning;
}.

(** Building allocates counters, so it threads the [Heap] and the route store. *)
Definition translate (snapshot : ClusterSnapshot) (opts : ControllerOpts) (previous : option RouteTable)
    (h : Heap) (store : RouteStore) : result BuildError (Translation * Heap * RouteStore) :=
  let pass := translate_draft snapshot opts previous in
  draft ← value pass;
  '(table, h, store) ← build (dr_builder draft) h store;
  Ok (MkTranslation (MkCompiledConfig table (dr_certs draft) (dr_promotions draft) (dr_digest draft))
        (dr_digest draft) (dr_managed draft) (logged pass), h, store).
End translate.

(** ** Determinism *)

Lemma bind_ext {A B : Type} (m : Logged A) (f g : A -> Logged B) :
  f (value m) = g (value m) -> m ≫= f = m ≫= g.
Proof. intros Hf. unfold mbind, Logged_bind. by rewrite Hf. Qed.

Lemma each_ext {S A : Type} (f g : S -> A -> Logged S) s l :
  (forall s x, x ∈ l -> f s x = g s x) -> each f s l = each g s l.
Proof.
  revert s. induction l as [|x l IH]; intros s Hf; [done|]. simpl.
  rewrite (Hf s x) by (auto with ramjet). apply bind_ext, IH. intros s' y Hy. apply Hf, elem_of_cons. auto.
Qed.

#[export] Instance promotion_route_key_inj : Inj (=) (=) promotion_route_key.
Proof. intros [h p t] [h' p' t'] [= -> -> Ht]. f_equal. by destruct t, t'. Qed.

Section determinism.
Context {E : RegexEngine} `{HashOrder} (regex_error_text : RegexError -> str).

Lemma covered_listed owner routes : covered owner routes = @covered listed_order owner routes.
Proof.
  unfold covered. apply (sort_by_key_perm promotion_route_key).
  - intros x y _ _. apply promotion_route_key_inj.
  - apply Permutation_map, filter_perm. by rewrite map_iter_values.
Qed.

Lemma collect_promotions_listed cs routes d :
  collect_promotions cs routes d = @collect_promotions listed_order cs routes d.
Proof.
  unfold collect_promotions. f_equal. apply each_ext. intros [targets d'] [i c] _. unfold collect_promotion.
  destruct (negb _); [done|]. apply bind_ext. by rewrite covered_listed.
Qed.

(** The order in which the hash maps are iterated leaves no trace. *)
Lemma translate_managed_listed snapshot opts previous managed :
  translate_managed regex_error_text snapshot opts previous managed =
  @translate_managed E listed_order regex_error_text snapshot opts previous managed.
Proof.
  pose proof (promised_keyed managed) as Hk. unfold translate_managed. apply bind_ext.
  destruct (value (plan_routes managed)) as [routes gd]. cbn in Hk.
  unfold collect_backends, register_routes. rewrite !sorted_plans_listed by done. apply bind_ext. apply bind_ext.
  destruct (value _) as [st|e]; [|done]. apply bind_ext. apply bind_ext. destruct (value _) as [st' certs].
  by rewrite collect_promotions_listed.
Qed.

(** What [translate_managed] reads of a snapshot is its indexes. *)
Lemma translate_managed_perm s s' opts previous managed :
  unique_names svc_meta (services s) -> unique_names sec_meta (secrets s) ->
  services s ≡ₚ services s' -> endpoint_slices s ≡ₚ endpoint_slices s' -> secrets s ≡ₚ secrets s' ->
  translate_managed regex_error_text s opts previous managed =
  translate_managed regex_error_text s' opts previous managed.
Proof.
  intros Hus Huk Hs Hl Hk.
  assert (Hb : forall l st, register_backend_list (endpoint_index (services s) (endpoint_slices s)) opts st l =
    register_backend_list (endpoint_index (services s') (endpoint_slices s')) opts st l).
  { induction l as [|[t p] l IH]; intros st; [done|]. cbn [register_backend_list].
    assert (register_one_backend (endpoint_index (services s) (endpoint_slices s)) opts st t p =
      register_one_backend (endpoint_index (services s') (endpoint_slices s')) opts st t p) as ->.
    { unfold register_one_backend, backend_endpoints. by rewrite (resolve_perm _ _ _ _ _ Hus Hs Hl). }
    apply bind_ext. destruct (value _); [apply IH|done]. }
  unfold translate_managed. apply bind_ext. destruct (value _) as [routes gd]. apply bind_ext.
  unfold register_backends. rewrite Hb. apply bind_ext. destruct (value _) as [st|]; [|done]. apply bind_ext.
  unfold register_certificates, secret_index. by rewrite (index_named_perm _ _ _ Huk Hk).
Qed.
End determinism.
