(* ===== verification/Totality.v ===== *)
(** Why a translation always succeeds, and what it builds.

    The proofs follow the registration loops of [Translate] with one equation
    per loop: what the builder is after it, in terms of the plans. *)

From S2P Require Import Prelude Order Hosts RouterTypes Annotations Config NetText F64 Canary Paths Stats Backends Table Builder Cluster Endpoints Secrets Plans Translate.

(** ** References whose names tell them apart *)

(** What the API server's validation of an Ingress leaves possible: a port
    number is not negative, a port name has no colon and is not all digits. *)
Definition port_writable (p : BackendPort) : Prop :=
  match p with
  | Port_Number n => 0 <= n <= i32_max
  | Port_Name s => chr ":" ∉ s /\ exists b, b ∈ s /\ is_ascii_digit b = false
  end.
Definition ref_writable (r : ServiceRef) : Prop := chr "/" ∉ sr_namespace r /\ port_writable (sr_port r).

Lemma port_text_no_colon p : port_writable p -> chr ":" ∉ port_text p.
Proof.
  destruct p as [n|s]; [|by intros []]. intros Hn. apply (port_text_ok (Port_Number n)). exact Hn.
Qed.

Lemma number_text_digits n : 0 <= n -> Forall (fun b => is_ascii_digit b = true) (i32_text n).
Proof. intros Hn. unfold i32_text. replace (n <? 0) with false by lia. by apply to_string_digits. Qed.

Lemma port_text_inj p p' : port_writable p -> port_writable p' -> port_text p = port_text p' -> p = p'.
Proof.
  destruct p as [n|s], p' as [n'|s']; simpl; intros Hp Hp' He; [| | |by subst].
  - f_equal. unfold i32_text in He. replace (n <? 0) with false in He by lia.
    replace (n' <? 0) with false in He by lia.
    assert (Hv : forall x, 0 <= x <= i32_max -> digits_value (to_string x) = x)
      by (intros x Hx; apply digits_value_decimal; unfold i32_max in *; lia).
    by rewrite <- (Hv n), <- (Hv n'), He.
  - destruct Hp' as [_ (b&Hb&Hd)]. pose proof (number_text_digits n ltac:(lia)) as Hall. rewrite He in Hall.
    rewrite Forall_forall in Hall. rewrite (Hall _ Hb) in Hd. done.
  - destruct Hp as [_ (b&Hb&Hd)]. pose proof (number_text_digits n' ltac:(lia)) as Hall. rewrite <- He in Hall.
    rewrite Forall_forall in Hall. rewrite (Hall _ Hb) in Hd. done.
Qed.

Lemma writable_name_inj r r' :
  ref_writable r -> ref_writable r' -> Config.backend_name r = Config.backend_name r' -> r = r'.
Proof.
  destruct r as [ns n p], r' as [ns' n' p']. intros [Hs Hp] [Hs' Hp'] He. unfold Config.backend_name in He. simpl in *.
  assert (E1 : split_once (chr "/") (ns ++ chr "/" :: n ++ chr ":" :: port_text p) = Some (ns, n ++ chr ":" :: port_text p))
    by (by apply split_once_Some).
  rewrite He in E1. apply split_once_Some in E1 as [E1 _].
  assert (E2 : split_once (chr "/") (ns' ++ chr "/" :: n' ++ chr ":" :: port_text p') =
    Some (ns', n' ++ chr ":" :: port_text p')) by (by apply split_once_Some).
  rewrite E1, (proj2 (split_once_Some (chr "/") _ ns (n ++ chr ":" :: port_text p))) in E2 by done.
  injection E2 as -> E2.
  assert (E3 : rsplit_once (chr ":") (n ++ chr ":" :: port_text p) = Some (n, port_text p))
    by (apply rsplit_once_Some; split; [done|by apply port_text_no_colon]).
  assert (E4 : rsplit_once (chr ":") (n' ++ chr ":" :: port_text p') = Some (n', port_text p'))
    by (apply rsplit_once_Some; split; [done|by apply port_text_no_colon]).
  rewrite E2, E4 in E3. injection E3 as -> E3. f_equal. by apply port_text_inj.
Qed.

Lemma addressable_writable r : addressable r -> ref_writable r.
Proof.
  intros (_&Hs&_&Hp). split; [done|]. destruct (sr_port r) as [n|s]; [done|].
  destruct Hp as [Hc (b&s'&->&Hb)]. split; [done|]. exists b. split; [auto with ramjet|done].
Qed.

(** ** The Ingresses the API server lets through *)

Definition ingress_backends (i : Ingress) : list IngressBackend :=
  map hp_backend (flat_map rule_paths (ingress_rules i)) ++
  match (s ← ing_spec i; is_default_backend s) with Some b => [b] | None => [] end.
Definition port_valid (p : ServiceBackendPort) : Prop :=
  (forall n, sbp_number p = Some n -> 0 <= n <= i32_max) /\
  (forall s, sbp_name p = Some s -> chr ":" ∉ s /\ exists b, b ∈ s /\ is_ascii_digit b = false).
Record ingress_valid (i : Ingress) : Prop := {
  iv_namespace : chr "/" ∉ ok_namespace (key_of (ing_meta i));
  iv_ports : forall b s p, b ∈ ingress_backends i -> ib_service b = Some s -> isb_port s = Some p -> port_valid p;
}.

Lemma backend_ref_writable ns b owner r :
  chr "/" ∉ ns -> (forall s p, ib_service b = Some s -> isb_port s = Some p -> port_valid p) ->
  value (backend_ref ns b owner) = Some r -> ref_writable r.
Proof.
  intros Hns Hb. unfold backend_ref. destruct (ib_service b) as [s|]; [|done].
  destruct (isb_port s) as [p|] eqn:Hp; [|done]. destruct (Hb s p eq_refl Hp) as [Hn Hs]. cbn.
  destruct (sbp_number p) as [n|]; [|destruct (sbp_name p) as [t|]; [|done]]; cbn; intros [= <-]; split; simpl; auto.
Qed.

Lemma target_writable i k r : ingress_valid i -> (k, r) ∈ ingress_targets i -> ref_writable r.
Proof.
  intros [Hns Hp] Hin. unfold ingress_targets in Hin. apply list_elem_of_In, in_flat_map in Hin as (rule&Hr&Hin).
  apply list_elem_of_In, list_elem_of_omap in Hin as (e&He&Ht). unfold path_target in Ht.
  destruct (value (backend_ref _ _ _)) as [r'|] eqn:Hb; [|done]. cbn in Ht. injection Ht as <- ->.
  eapply backend_ref_writable; [exact Hns| |exact Hb]. intros s p. apply Hp. unfold ingress_backends.
  apply elem_of_app. left. apply list_elem_of_fmap_2, list_elem_of_In, in_flat_map. exists rule.
  split; [done|by apply list_elem_of_In].
Qed.

Lemma default_target_writable i r : ingress_valid i -> default_target i = Some r -> ref_writable r.
Proof.
  intros [Hns Hp] Hd. unfold default_target, ingress_backends in *. destruct (ing_spec i) as [spec|]; [|done].
  cbn in *. destruct (is_default_backend spec) as [b|]; [|done]. cbn in Hd.
  eapply backend_ref_writable; [exact Hns| |exact Hd]. intros s p. apply Hp, elem_of_app. right.
  by apply list_elem_of_singleton.
Qed.

Lemma mirror_plan_writable a ns owner protocol m :
  value (mirror_plan a ns owner protocol) = Some m -> ref_writable (mp_backend m).
Proof.
  unfold mirror_plan. rewrite value_bind. destruct (ma_backend _) as [reference|]; [|done].
  destruct (service_ref_parse _) as [r|e] eqn:Hr; [|done]. cbn. intros [= <-].
  by eapply addressable_writable, service_ref_parse_ok.
Qed.

(** ** What a plan refers to *)

Definition plan_refs (p : RoutePlan) : list ServiceRef :=
  rp_backend p :: match rp_canary p with Some c => [cp_backend c] | None => [] end
  ++ match rp_mirror p with Some m => [mp_backend m] | None => [] end.

Lemma elem_of_plan_refs r p :
  r ∈ plan_refs p <-> r = rp_backend p \/ (exists c, rp_canary p = Some c /\ r = cp_backend c) \/
    (exists m, rp_mirror p = Some m /\ r = mp_backend m).
Proof.
  unfold plan_refs. rewrite elem_of_cons, elem_of_app.
  destruct (rp_canary p) as [c|], (rp_mirror p) as [m|]; rewrite ?list_elem_of_singleton, ?elem_of_nil; naive_solver.
Qed.

Lemma route_claim_writable managed p :
  Forall ingress_valid managed -> p ∈ route_claims managed ->
  ref_writable (rp_backend p) /\ (forall m, rp_mirror p = Some m -> ref_writable (mp_backend m)).
Proof.
  intros Hv. rewrite Forall_forall in Hv. unfold route_claims.
  rewrite elem_of_app, !list_elem_of_In, !in_flat_map. setoid_rewrite <- list_elem_of_In.
  intros [(i&[Hi _]%in_filter&Hp)|(i&[Hi _]%in_filter&Hp)].
  - apply list_elem_of_fmap in Hp as ([k r]&->&Ht). split; [by eapply target_writable; [apply Hv|]|].
    intros m. apply mirror_plan_writable.
  - unfold fallback_claims in Hp. destruct (default_target i) as [r|] eqn:Hd; [|by apply elem_of_nil in Hp].
    apply list_elem_of_fmap in Hp as (h&->&_). split; [by eapply default_target_writable; [apply Hv|]|].
    intros m. apply mirror_plan_writable.
Qed.

Lemma promised_writable managed k p r :
  Forall ingress_valid managed -> promised_route managed k = Some p -> r ∈ plan_refs p -> ref_writable r.
Proof.
  intros Hv. unfold promised_route. destruct (find_first _ (route_claims managed)) as [q|] eqn:Hf; [|done].
  cbn. apply find_first_elem in Hf as [Hq _]. pose proof (claims_uncanaried _ _ Hq) as Hn.
  destruct (route_claim_writable _ _ Hv Hq) as [Hb Hm].
  destruct (find_first _ (all_canary_claims managed)) as [[k' c]|] eqn:Hc; intros [= <-];
    rewrite elem_of_plan_refs; cbn; [|rewrite Hn].
  - apply find_first_elem in Hc as [Hc _]. intros [->|[(c'&[= <-]&->)|(m&Hm'&->)]]; [done| |by apply Hm].
    unfold all_canary_claims in Hc. apply list_elem_of_In, in_flat_map in Hc as (i&Hi&Hc).
    apply list_elem_of_In, in_filter in Hi as [Hi _]. apply list_elem_of_In in Hc.
    apply list_elem_of_fmap in Hc as ([k2 r2]&[= -> ->]&Ht). rewrite Forall_forall in Hv.
    by eapply target_writable; [apply Hv|].
  - intros [->|[(c'&?&->)|(m&Hm'&->)]]; [done|done|by apply Hm].
Qed.

(** ** The registry of backends *)

Lemma claim_dom m t p o r :
  is_Some (value (claim m t p o) !! r) <-> is_Some (m !! r) \/ r = t.
Proof.
  unfold claim. destruct (m !! t) as [held|] eqn:Ht.
  - assert (value (if bool_decide (held <> p) then _ ← _; mret m else mret m) = m) as -> by (by case_bool_decide).
    split; [auto|]. intros [?| ->]; [done|]. by rewrite Ht.
  - cbn. destruct (decide (r = t)) as [->|Hne].
    + rewrite lookup_insert_eq. split; [auto|by intros _; eexists].
    + rewrite lookup_insert_ne by done. naive_solver.
Qed.

Lemma claim_plan_dom m plan r :
  is_Some (value (claim_plan m plan) !! r) <-> is_Some (m !! r) \/ r ∈ plan_refs plan.
Proof.
  unfold claim_plan. rewrite !value_bind, elem_of_plan_refs.
  destruct (rp_canary plan) as [c|], (rp_mirror plan) as [x|]; rewrite ?claim_dom; cbn; rewrite ?claim_dom; naive_solver.
Qed.

Lemma each_claim_dom m plans r :
  is_Some (value (each claim_plan m plans) !! r) <-> is_Some (m !! r) \/ exists p, p ∈ plans /\ r ∈ plan_refs p.
Proof.
  revert m. induction plans as [|p plans IH]; intros m; cbn [each].
  - cbn. split; [auto|]. intros [?|(p&Hp&_)]; [done|by apply elem_of_nil in Hp].
  - rewrite value_bind, IH, claim_plan_dom. split.
    + intros [[?|?]|(q&Hq&Hr)]; [auto|right; exists p|right; exists q]; rewrite elem_of_cons; auto.
    + intros [?|(q&[->|Hq]%elem_of_cons&Hr)]; [auto|auto|right; by exists q].
Qed.

Section registration.
Context {E : RegexEngine} `{HashOrder} (regex_error_text : RegexError -> str).

Lemma collect_backends_dom routes default_backend r :
  is_Some (value (collect_backends routes default_backend) !! r) <->
  default_backend = Some r \/ exists k p, routes !! k = Some p /\ r ∈ plan_refs p.
Proof.
  unfold collect_backends. rewrite value_bind. cbn [value mret Logged_ret]. set (m := value (each _ _ _)).
  assert (Hm : is_Some (m !! r) <-> exists k p, routes !! k = Some p /\ r ∈ plan_refs p).
  { unfold m. rewrite each_claim_dom, lookup_empty. setoid_rewrite elem_of_sorted_plans.
    split; [intros [[? ?]|(p&[k ?]&?)]; [done|by exists k, p]|]. intros (k&p&?&?). right. exists p. eauto. }
  rewrite <- Hm. destruct default_backend as [t|]; [|naive_solver].
  destruct (m !! t) as [held|] eqn:Ht.
  - split; [auto|]. intros [[= ->]|?]; [by rewrite Ht|done].
  - destruct (decide (r = t)) as [->|Hne].
    + rewrite lookup_insert_eq. split; [auto|by intros _; eexists].
    + rewrite lookup_insert_ne by done. naive_solver.
Qed.

(** What registering backends leaves of the rest of the builder. *)
Record same_plan (b b' : RouteTableBuilder) : Prop := {
  sp_routes : b_routes b' = b_routes b;
  sp_default : b_default_backend b' = b_default_backend b;
  sp_exact : b_tls_exact b' = b_tls_exact b;
  sp_wildcard : b_tls_wildcard b' = b_tls_wildcard b;
  sp_tls_default : b_tls_default b' = b_tls_default b;
}.

(** The draft of one backend: a failed resolution leaves it without addresses. *)
Definition backend_draft (index : EndpointIndex) (opts : ControllerOpts) (x : ServiceRef * BackendProtocol) : BackendDraft :=
  MkBackendDraft (Config.backend_name x.1) (MkBackendOptions (lb_policy opts) x.2) (value (backend_endpoints index x.1)).

Lemma register_backend_list_ok index opts st l :
  NoDup (map (fun x => Config.backend_name x.1) l) ->
  (forall x, x ∈ l -> b_backend_ids (dm_builder st) !! Config.backend_name x.1 = None) ->
  exists st', value (register_backend_list index opts st l) = Ok st' /\
    same_plan (dm_builder st) (dm_builder st') /\
    b_backends (dm_builder st') = b_backends (dm_builder st) ++ map (backend_draft index opts) l /\
    forall n, is_Some (b_backend_ids (dm_builder st') !! n) <->
      is_Some (b_backend_ids (dm_builder st) !! n) \/ exists x, x ∈ l /\ Config.backend_name x.1 = n.
Proof.
  revert st. induction l as [|[t p] l IH]; intros st Hnd Hnew; cbn [register_backend_list].
  - exists st. split_and!; [done|done|by rewrite app_nil_r|]. intros n. split; [auto|].
    intros [?|(x&Hx&_)]; [done|by apply elem_of_nil in Hx].
  - simpl in Hnd. apply NoDup_cons in Hnd as [Hn Hnd]. rewrite value_bind.
    unfold register_one_backend. rewrite value_bind. cbn [value mret Logged_ret]. unfold backend_with.
    pose proof (Hnew (t, p) ltac:(auto with ramjet)) as Ht. cbn [fst] in Ht. rewrite Ht.
    cbn [mbind result_bind].
    set (st1 := MkDraftsman _ _). destruct (IH st1 Hnd) as (st'&Hst'&[]&Hbs&Hids).
    { intros x Hx. cbn. rewrite lookup_insert_ne; [apply Hnew, elem_of_cons; auto|].
      intros Heq. apply Hn. rewrite Heq. by apply (list_elem_of_fmap_2 (fun x => Config.backend_name x.1)). }
    exists st'. split; [done|]. split; [by split|]. split; [rewrite Hbs; cbn; by rewrite <- app_assoc|].
    intros n. rewrite Hids. cbn.
    destruct (decide (Config.backend_name t = n)) as [<-|Hne].
    + rewrite lookup_insert_eq. split; [|by left; eexists]. intros _. right. exists (t, p).
      split; [auto with ramjet|done].
    + rewrite lookup_insert_ne by done. split.
      * intros [?|(x&Hx&?)]; [auto|]. right. exists x. split; [auto with ramjet|done].
      * intros [?|(x&[->|Hx]%elem_of_cons&?)]; [auto|done|]. right. by exists x.
Qed.

Lemma register_backend_list_same_plan index opts st l st' :
  value (register_backend_list index opts st l) = Ok st' -> same_plan (dm_builder st) (dm_builder st').
Proof.
  revert st. induction l as [|[t p] l IH]; intros st; cbn [register_backend_list]; [by intros [= ->]|].
  rewrite value_bind. unfold register_one_backend. rewrite value_bind. cbn [value mret Logged_ret]. unfold backend_with.
  destruct (b_backend_ids _ !! _); cbn [mbind result_bind]; [done|]. intros [????]%IH. by split.
Qed.

Lemma register_backends_ok snapshot opts m st :
  (forall r, is_Some (m !! r) -> ref_writable r) -> b_backend_ids (dm_builder st) = ∅ ->
  exists st', value (register_backends snapshot opts m st) = Ok st' /\
    same_plan (dm_builder st) (dm_builder st') /\
    b_backends (dm_builder st') = b_backends (dm_builder st) ++
      map (backend_draft (endpoint_index (services snapshot) (endpoint_slices snapshot)) opts) (btree_iter m) /\
    forall n, is_Some (b_backend_ids (dm_builder st') !! n) <->
      exists r, is_Some (m !! r) /\ Config.backend_name r = n.
Proof.
  intros Hw He. unfold register_backends.
  destruct (register_backend_list_ok (endpoint_index (services snapshot) (endpoint_slices snapshot)) opts st
    (btree_iter m)) as (st'&Hst'&Hsame&Hbs&Hids).
  - rewrite <- map_map. apply NoDup_fmap_2_strong; [|apply btree_iter_keys].
    assert (Hm : forall r, r ∈ map fst (btree_iter m) -> ref_writable r).
    { intros r ([k x]&->&Hin)%list_elem_of_fmap. apply elem_of_btree_iter in Hin. apply Hw. by exists x. }
    intros x y Hx Hy. by apply writable_name_inj; apply Hm.
  - intros x _. by rewrite He, lookup_empty.
  - exists st'. split; [done|]. split; [done|]. split; [done|]. intros n. rewrite Hids, He, lookup_empty. split.
    + intros [[? ?]|([r x]&Hx&?)]; [done|]. apply elem_of_btree_iter in Hx. exists r. split; [by exists x|done].
    + intros (r&[x Hx]&?). right. exists (r, x). by rewrite elem_of_btree_iter.
Qed.

(** ** The drafts of the routes *)

(** What [route_with] pushes: it does not depend on the builder. *)
Definition options_draft (host : option str) (path : str) (path_type : PathType) (backend : str) (o : RouteOptions)
    : result BuildError RouteDraft :=
  d ← draft host path path_type backend;
  canary ← match opt_canary o with
    | Some c => x ← canary_draft c (rd_slot d) path; Ok (Some x)
    | None => Ok None
    end;
  mirror ← match opt_mirror o with
    | Some m => x ← mirror_draft m (rd_slot d) path; Ok (Some x)
    | None => Ok None
    end;
  Ok (MkRouteDraft (rd_slot d) (rd_path d) (rd_path_type d) (rd_regex d) (rd_backend d) canary mirror).

Lemma route_with_draft b host path pt be o :
  route_with b host path pt be o = (d ← options_draft host path pt be o; Ok (push_route b d)).
Proof.
  unfold route_with, options_draft. destruct (draft _ _ _ _) as [d|]; [|done]. cbn.
  destruct (match opt_canary o with Some _ => _ | None => _ end); [|done]. cbn.
  by destruct (match opt_mirror o with Some _ => _ | None => _ end).
Qed.

(** The draft a plan leaves in the builder: with its options, or without them
    when they are refused, or none when the route itself is refused. *)
Definition plan_draft (plan : RoutePlan) : option RouteDraft :=
  let key := rp_key plan in
  let go := options_draft (rk_host key) (rk_path key) (rk_path_type key) (Config.backend_name (rp_backend plan)) in
  match go (plan_options plan) with
  | Ok d => Some d
  | Err _ => match go RouteOptions_default with Ok d => Some d | Err _ => None end
  end.

Definition push_option (b : RouteTableBuilder) (d : option RouteDraft) : RouteTableBuilder :=
  match d with Some d => push_route b d | None => b end.

Lemma register_route_value st plan :
  value (register_route regex_error_text st plan) =
  MkDraftsman (push_option (dm_builder st) (plan_draft plan)) (digest_route (dm_digest st) plan).
Proof.
  unfold register_route, plan_draft, add_route. rewrite value_bind, !route_with_draft.
  destruct (options_draft _ _ _ _ (plan_options plan)) as [d|e]; [done|]. cbn [mbind result_bind].
  autorewrite with ramjet. cbn [value mret Logged_ret].
  by destruct (options_draft _ _ _ _ RouteOptions_default).
Qed.

(** Adding several drafts at once. *)
Definition with_routes (b : RouteTableBuilder) (l : list RouteDraft) : RouteTableBuilder :=
  MkBuilder (b_generation b) (b_previous b) (b_previous_routes b) (b_backends b)
    (b_backend_ids b) (b_routes b ++ l) (b_default_backend b)
    (b_tls_exact b) (b_tls_wildcard b) (b_tls_default b).

Lemma register_routes_builder routes st :
  dm_builder (value (register_routes regex_error_text routes st)) =
  with_routes (dm_builder st) (omap plan_draft (sorted_plans routes)).
Proof.
  unfold register_routes. rewrite each_value. generalize (sorted_plans routes) as l. intros l. revert st.
  induction l as [|p l IH]; intros st.
  - cbn. unfold with_routes. rewrite app_nil_r. by destruct (dm_builder st).
  - cbn [foldl]. rewrite IH, register_route_value. cbn. unfold push_option, with_routes.
    destruct (plan_draft p) as [d|]; cbn; by rewrite <- ?app_assoc.
Qed.

Lemma options_draft_fields host path pt be o d :
  options_draft host path pt be o = Ok d ->
  rd_path d = path /\ rd_path_type d = pt /\ rd_backend d = be /\
  match host with Some h => normalize_config_host h = Ok (rd_slot d) | None => rd_slot d = Slot_CatchAll end /\
  (forall c, rd_canary d = Some c -> exists c', opt_canary o = Some c' /\ cd_backend c = cr_backend c') /\
  (forall m, rd_mirror d = Some m -> exists m', opt_mirror o = Some m' /\ md_backend m = mru_backend m').
Proof.
  unfold options_draft. destruct (draft host path pt be) as [d0|] eqn:Hd; [|done]. cbn.
  apply draft_fields in Hd as (_&Hp&Ht&Hb&Hh&_).
  destruct (match opt_canary o with Some _ => _ | None => _ end) as [c|] eqn:Hc; [|done]. cbn.
  destruct (match opt_mirror o with Some _ => _ | None => _ end) as [m|] eqn:Hm; [|done]. cbn.
  intros [= <-]. cbn. split_and!; try done.
  - intros x ->. destruct (opt_canary o) as [c'|]; [|done]. exists c'. split; [done|].
    unfold canary_draft in Hc. destruct (_ && _); [done|]. cbv zeta in Hc. destruct (_ <? cr_weight c'); [done|].
    destruct (match cr_header c' with Some _ => _ | None => _ end); cbn in Hc; [|done]. by injection Hc as <-.
  - intros x ->. destruct (opt_mirror o) as [m'|]; [|done]. exists m'. split; [done|].
    unfold mirror_draft in Hm. destruct (bool_decide _); [done|]. destruct (_ <? _); [done|]. cbn in Hm.
    by injection Hm as <-.
Qed.

Lemma options_draft_slot host path pt be o d0 d :
  draft host path pt be = Ok d0 -> options_draft host path pt be o = Ok d -> rd_slot d = rd_slot d0.
Proof.
  intros Hd. unfold options_draft. rewrite Hd. cbn.
  destruct (match opt_canary o with Some _ => _ | None => _ end) as [c|] eqn:Hc; [|done]. cbn.
  destruct (match opt_mirror o with Some _ => _ | None => _ end) as [m|] eqn:Hm; [|done]. cbn. by intros [= <-].
Qed.

Lemma plan_draft_fields p d :
  plan_draft p = Some d ->
  rd_path d = rk_path (rp_key p) /\ rd_path_type d = rk_path_type (rp_key p) /\
  rd_backend d = Config.backend_name (rp_backend p) /\
  match rk_host (rp_key p) with
  | Some h => normalize_config_host h = Ok (rd_slot d)
  | None => rd_slot d = Slot_CatchAll
  end /\
  forall n, n ∈ draft_names d -> exists r, r ∈ plan_refs p /\ Config.backend_name r = n.
Proof.
  unfold plan_draft. intros Hd.
  assert (Ho : exists o, options_draft (rk_host (rp_key p)) (rk_path (rp_key p)) (rk_path_type (rp_key p))
      (Config.backend_name (rp_backend p)) o = Ok d /\ (o = plan_options p \/ o = RouteOptions_default)).
  { destruct (options_draft _ _ _ _ (plan_options p)) eqn:E1; [injection Hd as <-; eauto|].
    destruct (options_draft _ _ _ _ RouteOptions_default) eqn:E2; [injection Hd as <-; eauto|done]. }
  destruct Ho as (o&Ho&Hopt). apply options_draft_fields in Ho as (Hp&Ht&Hb&Hh&Hc&Hm). split_and!; try done.
  intros n Hn. setoid_rewrite elem_of_plan_refs. unfold draft_names in Hn.
  apply elem_of_cons in Hn as [->|Hn]; [exists (rp_backend p); by rewrite Hb; auto|].
  apply elem_of_app in Hn as [Hn|Hn].
  - destruct (rd_canary d) as [c|]; [|by apply elem_of_nil in Hn]. apply list_elem_of_singleton in Hn as ->.
    destruct (Hc c eq_refl) as (c'&Hc'&->). destruct Hopt as [->| ->]; [|done]. cbn in Hc'.
    destruct (rp_canary p) as [cp|]; [|done]. injection Hc' as <-. exists (cp_backend cp). eauto 6.
  - destruct (rd_mirror d) as [m|]; [|by apply elem_of_nil in Hn]. apply list_elem_of_singleton in Hn as ->.
    destruct (Hm m eq_refl) as (m'&Hm'&->). destruct Hopt as [->| ->]; [|done]. cbn in Hm'.
    destruct (rp_mirror p) as [mp|]; [|done]. injection Hm' as <-. exists (mp_backend mp). eauto 7.
Qed.
End registration.

(** ** Keys and slots *)

Definition host_normal (h : option str) : Prop :=
  match h with Some h => lower h = h /\ last h <> Some (chr ".") | None => True end.

Lemma normalize_host_normal h : host_normal (normalize_host h).
Proof.
  unfold normalize_host. destruct h as [h|]; [|done]. cbn. case_bool_decide as Hn; [done|]. cbn.
  split; [apply lower_idem|]. rewrite last_lower. destruct (trim_end_split (chr ".") (str_trim h)) as (n&_&Hl).
  destruct (last (trim_end_matches (chr ".") (str_trim h))) as [c|]; [|done]. cbn. intros [= Hc]. apply Hl. f_equal.
  pose proof (to_ascii_lowercase_eqb c (chr ".") eq_refl eq_refl) as He. rewrite Hc in He. cbn in *. lia.
Qed.

Section keys.
Context {E : RegexEngine} `{HashOrder}.

Lemma slot_host h slot :
  host_normal (Some h) -> normalize_config_host h = Ok slot -> slot <> Slot_CatchAll /\ slot_identity_host slot = h.
Proof.
  intros [Hl Hd] (wild&n0&k&Hraw&->&_)%config_host_parts.
  assert (k = 0%nat) as ->.
  { destruct k as [|k]; [done|]. exfalso. apply Hd. rewrite Hraw, replicate_S_end, !app_assoc. by rewrite last_snoc. }
  cbn in Hraw. rewrite app_nil_r in Hraw. rewrite Hraw in Hl |- *. destruct wild; (split; [done|]).
  - rewrite lower_app in Hl. apply app_inj_1 in Hl as [_ Hl]; [|done]. cbn [slot_identity_host]. by rewrite Hl.
  - rewrite app_nil_l in Hl |- *. exact Hl.
Qed.

Lemma rule_hosts_normal rules h : h ∈ rule_hosts rules -> host_normal h.
Proof.
  unfold rule_hosts. assert (H0 : forall hs, (forall x, x ∈ hs -> host_normal x) ->
    forall x, x ∈ foldl (fun hosts r => push_host hosts (rule_host r)) hs rules -> host_normal x).
  { induction rules as [|r rules IH]; intros hs Hhs; [exact Hhs|]. cbn [foldl]. apply IH. intros x.
    unfold push_host. case_bool_decide; [apply Hhs|]. rewrite elem_of_app, list_elem_of_singleton.
    intros [?| ->]; [auto|apply normalize_host_normal]. }
  apply H0. intros x Hx. by apply elem_of_nil in Hx.
Qed.

Lemma promised_host_normal managed k p : promised_route managed k = Some p -> host_normal (rk_host k).
Proof.
  unfold promised_route. destruct (find_first _ (route_claims managed)) as [q|] eqn:Hf; [|done]. intros _.
  apply find_first_elem in Hf as [Hq <-%bool_decide_eq_true]. unfold route_claims in Hq.
  rewrite elem_of_app, !list_elem_of_In, !in_flat_map in Hq. destruct Hq as [(i&_&Hp)|(i&_&Hp)].
  - apply list_elem_of_In, list_elem_of_fmap in Hp as ([k r]&->&Ht). unfold ingress_targets in Ht.
    apply list_elem_of_In, in_flat_map in Ht as (rule&_&Ht). apply list_elem_of_In, list_elem_of_omap in Ht as (e&_&Ht).
    unfold path_target in Ht. destruct (value (backend_ref _ _ _)); [|done]. injection Ht as <- <-.
    apply normalize_host_normal.
  - unfold fallback_claims in Hp. destruct (default_target i); [|done].
    apply list_elem_of_In, list_elem_of_fmap in Hp as (h&->&Hh). by eapply rule_hosts_normal.
Qed.

(** Two planned keys never fall on the same host slot, path and type. *)
Lemma plan_draft_key_inj p q d d' :
  host_normal (rk_host (rp_key p)) -> host_normal (rk_host (rp_key q)) ->
  plan_draft p = Some d -> plan_draft q = Some d' -> draft_key d = draft_key d' -> rp_key p = rp_key q.
Proof.
  intros Hp Hq (P1&P2&_&P3&_)%plan_draft_fields (Q1&Q2&_&Q3&_)%plan_draft_fields [= Hs Hpath Ht].
  rewrite P1, Q1 in Hpath. rewrite P2, Q2 in Ht. rewrite Hs in P3.
  destruct (rp_key p) as [h pa ty], (rp_key q) as [h' pa' ty']. cbn in *. f_equal; [|done..].
  destruct h as [h|], h' as [h'|]; [| | |done].
  - apply slot_host in P3 as [_ <-]; [|done]. by apply slot_host in Q3 as [_ <-].
  - rewrite Q3 in P3. by apply slot_host in P3 as [[] _].
  - rewrite P3 in Q3. by apply slot_host in Q3 as [[] _].
Qed.

Lemma NoDup_omap_key {A B K : Type} (f : A -> option B) (key : B -> K) (l : list A) :
  NoDup l ->
  (forall x y b c, x ∈ l -> y ∈ l -> f x = Some b -> f y = Some c -> key b = key c -> x = y) ->
  NoDup (map key (omap f l)).
Proof.
  induction 1 as [|x l Hx Hl IH]; intros Hinj; [constructor|]. cbn.
  assert (IH' : NoDup (map key (omap f l))).
  { apply IH. intros a b c d Ha Hb. apply Hinj; auto with ramjet. }
  destruct (f x) as [b|] eqn:Hfx; [|done]. cbn. constructor; [|done].
  intros (c&Hkc&Hc)%list_elem_of_fmap. apply list_elem_of_omap in Hc as (y&Hy&Hfy). apply Hx.
  rewrite (Hinj x y b c); [done|auto with ramjet|auto with ramjet|done..].
Qed.

Lemma sorted_plans_NoDup routes : keyed routes -> NoDup (sorted_plans routes).
Proof.
  intros Hk. unfold sorted_plans. rewrite sort_by_perm, map_iter_values. apply NoDup_fmap_2_strong.
  - intros [k p] [k' p'] Hin%elem_of_map_to_list Hin'%elem_of_map_to_list. cbn. intros <-.
    f_equal. by rewrite <- (Hk _ _ Hin), <- (Hk _ _ Hin').
  - apply NoDup_map_to_list.
Qed.

Lemma plan_drafts_NoDup managed routes :
  (forall k, routes !! k = promised_route managed k) -> keyed routes ->
  NoDup (map draft_key (omap plan_draft (sorted_plans routes))).
Proof.
  intros Hr Hk. apply NoDup_omap_key; [by apply sorted_plans_NoDup|].
  intros p q d d' [k Hp]%elem_of_sorted_plans [k' Hq]%elem_of_sorted_plans Hd Hd' Heq.
  assert (Hkey : rp_key p = rp_key q).
  { eapply (plan_draft_key_inj p q); try done.
    - rewrite (Hk _ _ Hp). rewrite Hr in Hp. by eapply promised_host_normal.
    - rewrite (Hk _ _ Hq). rewrite Hr in Hq. by eapply promised_host_normal. }
  pose proof (Hk _ _ Hp) as <-. pose proof (Hk _ _ Hq) as <-. rewrite Hkey in Hp. congruence.
Qed.
End keys.

(** ** Certificates leave the routes alone *)

Section certificates.
Context {E : RegexEngine} `{HashOrder} (regex_error_text : RegexError -> str).

Record same_routes (b b' : RouteTableBuilder) : Prop := {
  sr_routes : b_routes b' = b_routes b;
  sr_ids : b_backend_ids b' = b_backend_ids b;
  sr_default : b_default_backend b' = b_default_backend b;
  sr_backends : b_backends b' = b_backends b;
}.
#[export] Instance same_routes_preorder : PreOrder same_routes.
Proof. split; [by split|]. intros x y z [] []. split; congruence. Qed.

Lemma certificate_same_routes b host key b' : certificate b host key = Ok b' -> same_routes b b'.
Proof.
  unfold certificate. destruct (normalize_config_host host) as [[]|]; [..|done]; intros [= <-]; by split.
Qed.

Lemma register_host_same_routes st x :
  same_routes (dm_builder st) (dm_builder (value (register_host regex_error_text st x))).
Proof.
  destruct x as [host [id owner]]. unfold register_host.
  destruct (certificate _ _ _) as [b|] eqn:Hc; [by eapply certificate_same_routes|done].
Qed.

Lemma register_hosts_same_routes st l :
  same_routes (dm_builder st) (dm_builder (value (each (register_host regex_error_text) st l))).
Proof.
  revert st. induction l as [|x l IH]; intros st; [done|]. cbn [each]. rewrite value_bind.
  etrans; [apply register_host_same_routes|apply IH].
Qed.

Lemma register_default_same_routes secrets opts st ms :
  same_routes (dm_builder st) (dm_builder (value (register_default_certificate secrets opts st ms)).1).
Proof.
  unfold register_default_certificate. destruct (default_tls_secret opts) as [r|]; [|done].
  destruct (split_once _ r) as [[ns name]|]; [|done]. by destruct (material secrets ns name).
Qed.

Lemma register_certificates_same_routes snapshot opts managed st :
  same_routes (dm_builder st) (dm_builder (value (register_certificates regex_error_text snapshot opts managed st)).1).
Proof.
  unfold register_certificates. autorewrite with ramjet. set (cp := value (plan_certificates _ _)).
  set (st' := value (each _ _ _)).
  pose proof (register_default_same_routes (secret_index (secrets snapshot)) opts st' (materials cp)) as Hd.
  destruct (value (register_default_certificate _ _ _ _)) as [st2 ms]. cbn in *.
  etrans; [apply register_hosts_same_routes|exact Hd].
Qed.

(** ** The whole pass *)

Lemma translate_managed_ok snapshot opts previous managed :
  Forall ingress_valid managed -> (forall r, opts_default_backend opts = Some r -> ref_writable r) ->
  let routes := (value (plan_routes managed)).1 in
  exists dr m, value (translate_managed regex_error_text snapshot opts previous managed) = Ok dr /\
    b_routes (dr_builder dr) = omap plan_draft (sorted_plans routes) /\
    config_ok (dr_builder dr) /\
    b_backends (dr_builder dr) =
      map (backend_draft (endpoint_index (services snapshot) (endpoint_slices snapshot)) opts) (btree_iter m) /\
    (forall r, is_Some (m !! r) -> ref_writable r) /\
    (forall k p r, routes !! k = Some p -> r ∈ plan_refs p -> is_Some (m !! r)).
Proof.
  intros Hv Ho. pose proof (plan_routes_lookup managed) as Hr. pose proof (promised_keyed managed) as Hk.
  pose proof (plan_routes_value managed) as Hpv.
  unfold translate_managed. rewrite value_bind. destruct (value (plan_routes managed)) as [routes gd]. cbn in Hr, Hk |- *.
  set (def := match gd with Some (r, _) => Some r | None => opts_default_backend opts end).
  assert (Hdef : forall r, def = Some r -> ref_writable r).
  { unfold def. intros r. injection Hpv as _ ->. destruct (find_first _ _) as [[t o]|] eqn:Hf; [|apply Ho].
    intros [= <-]. apply find_first_elem in Hf as [Hf _]. apply list_elem_of_omap in Hf as (i&[Hi _]%in_filter&Hg).
    unfold global_claim in Hg. destruct (default_target i) as [t'|] eqn:Hd; [|done]. cbn in Hg.
    case_bool_decide; [|done]. injection Hg as <- <-. rewrite Forall_forall in Hv.
    by eapply default_target_writable; [apply Hv|]. }
  set (b0 := match previous with Some table => from_previous table | None => builder_new end).
  assert (Hb0 : b_backend_ids b0 = ∅ /\ b_routes b0 = [] /\ b_default_backend b0 = None /\ b_backends b0 = [])
    by (by destruct previous).
  destruct Hb0 as (Hids0&Hroutes0&Hdef0&Hbs0).
  set (m := value (collect_backends routes def)).
  assert (Hm : forall r, is_Some (m !! r) -> ref_writable r).
  { intros r [Hd|(k&p&Hp&Hin)]%collect_backends_dom; [by apply Hdef|]. rewrite Hr in Hp. by eapply promised_writable. }
  destruct (register_backends_ok snapshot opts m (MkDraftsman b0 digest_new))
    as (st1&Hst1&[Hs1 Hs2 _ _ _]&Hbs&Hids); [done|done|].
  autorewrite with ramjet. fold m. rewrite Hst1, !value_bind. cbn in Hs1, Hs2, Hbs.
  set (st2 := value (register_routes _ routes st1)).
  assert (Hst2 : dm_builder st2 = with_routes (dm_builder st1) (omap plan_draft (sorted_plans routes)))
    by apply register_routes_builder.
  set (b := match def with Some t => _ | None => _ end). set (d := digest_opt_str _ _).
  pose proof (register_certificates_same_routes snapshot opts managed (MkDraftsman b d)) as Hc.
  destruct (value (register_certificates _ _ _ _ _)) as [st3 certs]. cbn in Hc. rewrite value_bind.
  destruct (value (collect_promotions _ _ _)) as [promotions d']. cbn [value mret Logged_ret].
  eexists _, m. split; [done|]. cbn [dr_builder]. destruct Hc as [Hcr Hcids Hcdef Hcb].
  assert (Hb : b_routes b = omap plan_draft (sorted_plans routes) /\ b_backend_ids b = b_backend_ids (dm_builder st1) /\
      b_default_backend b = Config.backend_name <$> def /\ b_backends b = b_backends (dm_builder st1)).
  { unfold b. rewrite Hst2. destruct def; cbn; rewrite Hs1, Hroutes0; split_and!; try done. by rewrite Hs2, Hdef0. }
  destruct Hb as (Hbr&Hbi&Hbd&Hbb). split; [by rewrite Hcr|].
  split; [|split_and!; [by rewrite Hcb, Hbb, Hbs, Hbs0|exact Hm|]].
  2: { intros k p r Hp Hin. apply collect_backends_dom. right. by exists k, p. }
  unfold config_ok. rewrite Hcr, Hcids, Hcdef, Hbi, Hbd, Hbr.
  split_and!.
  - by apply (plan_drafts_NoDup managed).
  - intros x n (p&[k Hp]%elem_of_sorted_plans&Hx)%list_elem_of_omap Hn.
    apply plan_draft_fields in Hx as (_&_&_&_&Hnames). destruct (Hnames n Hn) as (r&Hin&<-). apply Hids. exists r.
    split; [|done]. apply collect_backends_dom. right. by exists k, p.
  - intros n. destruct def as [r|] eqn:Hr'; [|done]. intros [= <-]. apply Hids. exists r. split; [|done].
    apply collect_backends_dom. by left.
Qed.

(** ** Every translation is a run of the builder's methods *)

Lemma canary_number_range a key : 0 <= (canary_number a key).1.
Proof.
  unfold canary_number. destruct (a !! key) as [raw|]; [|done].
  destruct (parse_unsigned _ _) as [v|] eqn:Hv; [|done]. by apply parse_unsigned_range in Hv as [? _].
Qed.

Lemma canary_parse_weights a : 0 <= ca_weight (canary_parse a) /\ 0 <= ca_weight_total (canary_parse a).
Proof.
  unfold canary_parse. pose proof (canary_number_range a ANNOTATION_CANARY_WEIGHT) as H1.
  pose proof (canary_number_range a ANNOTATION_CANARY_WEIGHT_TOTAL) as H2.
  destruct (canary_number a ANNOTATION_CANARY_WEIGHT), (canary_number a ANNOTATION_CANARY_WEIGHT_TOTAL). done.
Qed.

Lemma mirror_plan_percent a ns owner protocol m :
  value (mirror_plan a ns owner protocol) = Some m -> 0 <= mp_percent m.
Proof.
  unfold mirror_plan. rewrite value_bind. destruct (ma_backend _) as [reference|]; [|done].
  destruct (service_ref_parse _) as [r|e]; [|done]. cbn. intros [= <-]. cbn. unfold mirror_parse.
  destruct (get_trimmed a ANNOTATION_MIRROR_PERCENT) as [raw|]; [|done].
  destruct (parse_unsigned u32_max raw) as [v|] eqn:Hv; [|done]. apply parse_unsigned_range in Hv as [? _].
  by destruct (v <=? 100).
Qed.

Lemma promised_typed managed k p : promised_route managed k = Some p -> options_typed (plan_options p).
Proof.
  unfold promised_route. destruct (find_first _ (route_claims managed)) as [q|] eqn:Hf; [|done]. cbn.
  apply find_first_elem in Hf as [Hq _]. pose proof (claims_uncanaried _ _ Hq) as Hn.
  assert (Hm : forall m, rp_mirror q = Some m -> 0 <= mp_percent m).
  { unfold route_claims in Hq. rewrite elem_of_app, !list_elem_of_In, !in_flat_map in Hq.
    destruct Hq as [(i&_&Hp)|(i&_&Hp)].
    - apply list_elem_of_In, list_elem_of_fmap in Hp as (t&->&_). intros m. apply mirror_plan_percent.
    - unfold fallback_claims in Hp. destruct (default_target i); [|done].
      apply list_elem_of_In, list_elem_of_fmap in Hp as (h&->&_). intros m. apply mirror_plan_percent. }
  destruct (find_first _ (all_canary_claims managed)) as [[k' c]|] eqn:Hc; intros [= <-]; split; cbn; rewrite ?Hn.
  - intros c' [= <-]. apply find_first_elem in Hc as [Hc _]. unfold all_canary_claims in Hc.
    apply list_elem_of_In, in_flat_map in Hc as (i&_&Hc). apply list_elem_of_In, list_elem_of_fmap in Hc as (t&[= -> ->]&_).
    apply canary_parse_weights.
  - intros m. destruct (rp_mirror q) as [m'|]; [|done]. intros [= <-]. by apply Hm.
  - done.
  - intros m. destruct (rp_mirror q) as [m'|]; [|done]. intros [= <-]. by apply Hm.
Qed.

Abbreviation steps := (rtc builder_step).

Lemma register_backend_list_steps index opts st l st' :
  value (register_backend_list index opts st l) = Ok st' -> steps (dm_builder st) (dm_builder st').
Proof.
  revert st. induction l as [|[t p] l IH]; intros st; cbn [register_backend_list]; [by intros [= ->]|].
  rewrite value_bind. unfold register_one_backend. rewrite value_bind. cbn [value mret Logged_ret].
  destruct (backend_with _ _ _ _) as [[id b]|e] eqn:Hb; cbn [mbind result_bind]; [|done].
  intros Hr%IH. eapply rtc_l; [by eapply builder_step_backend|exact Hr].
Qed.

Lemma route_step b host path pt be o d :
  options_typed o -> options_draft host path pt be o = Ok d -> builder_step b (push_route b d).
Proof. intros Ho Hd. eapply builder_step_route; [exact Ho|]. rewrite route_with_draft. by erewrite Hd. Qed.

Lemma register_routes_steps st l :
  (forall p, p ∈ l -> options_typed (plan_options p)) ->
  steps (dm_builder st) (dm_builder (value (each (register_route regex_error_text) st l))).
Proof.
  revert st. induction l as [|p l IH]; intros st Ht; [done|]. cbn [each]. rewrite value_bind, register_route_value.
  etrans; [|apply IH; intros q Hq; apply Ht, elem_of_cons; auto]. cbn [dm_builder]. unfold plan_draft.
  specialize (Ht p ltac:(auto with ramjet)).
  destruct (options_draft _ _ _ _ (plan_options p)) as [d|] eqn:E1; [by eapply rtc_once, route_step|].
  destruct (options_draft _ _ _ _ RouteOptions_default) as [d|] eqn:E2; [|done].
  eapply rtc_once, route_step; [|exact E2]. by split.
Qed.

Lemma register_hosts_steps st l :
  steps (dm_builder st) (dm_builder (value (each (register_host regex_error_text) st l))).
Proof.
  revert st. induction l as [|[host [id owner]] l IH]; intros st; [done|]. cbn [each]. rewrite value_bind.
  etrans; [|apply IH]. unfold register_host. destruct (certificate _ _ _) as [b|] eqn:Hc; [|done].
  by eapply rtc_once, builder_step_certificate.
Qed.

Lemma register_certificates_steps snapshot opts managed st :
  steps (dm_builder st) (dm_builder (value (register_certificates regex_error_text snapshot opts managed st)).1).
Proof.
  unfold register_certificates. autorewrite with ramjet. set (cp := value (plan_certificates _ _)).
  set (l := btree_iter (by_host cp)). etrans; [apply (register_hosts_steps st l)|].
  set (st' := value (each _ _ _)). unfold register_default_certificate.
  destruct (default_tls_secret opts) as [r|]; [|done]. destruct (split_once _ r) as [[ns name]|]; [|done].
  destruct (material _ ns name); [|done]. cbn. eapply rtc_once, builder_step_default_certificate.
Qed.

Lemma translate_managed_reachable snapshot opts previous managed dr :
  value (translate_managed regex_error_text snapshot opts previous managed) = Ok dr ->
  builder_reachable (dr_builder dr).
Proof.
  pose proof (plan_routes_lookup managed) as Hr. unfold translate_managed. rewrite value_bind.
  destruct (value (plan_routes managed)) as [routes gd]. cbn in Hr.
  set (b0 := match previous with Some table => from_previous table | None => builder_new end).
  autorewrite with ramjet. destruct (value (register_backends _ _ _ _)) as [st1|] eqn:H1; [|done].
  apply register_backend_list_steps in H1. autorewrite with ramjet.
  set (st2 := value (register_routes _ routes st1)). set (b := match _ with Some t => _ | None => _ end).
  set (d := digest_opt_str _ _).
  pose proof (register_certificates_steps snapshot opts managed (MkDraftsman b d)) as H3.
  destruct (value (register_certificates _ _ _ _ _)) as [st3 certs]. rewrite value_bind.
  destruct (value (collect_promotions _ _ _)) as [promotions d']. cbn. intros [= <-]. cbn.
  assert (Hs : steps b0 (dm_builder st3)).
  { etrans; [exact H1|]. etrans; [apply (register_routes_steps st1 (sorted_plans routes))|].
    - intros p [k Hp]%elem_of_sorted_plans. rewrite Hr in Hp. by eapply promised_typed.
    - etrans; [|exact H3]. fold (register_routes regex_error_text routes st1). fold st2. unfold b.
      destruct gd as [[t o]|]; [eapply rtc_once, builder_step_default_backend|].
      destruct (opts_default_backend opts); [eapply rtc_once, builder_step_default_backend|done]. }
  unfold b0 in Hs. destruct previous as [table|]; [by eapply reachable_from|by apply reachable_new].
Qed.
End certificates.

(** ** Certificates *)

(** A certificate read from a Secret of the snapshot. *)
Record from_secret (secrets : list Secret) (m : CertMaterial) : Prop := from_secret_intro {
  fs_secret : exists s ns name d, s ∈ secrets /\ named (sec_meta s) = Some (ns, name) /\
    sec_type s = Some TLS_SECRET_TYPE /\ sec_data s = Some d /\
    d !! TLS_CRT = Some (cert_chain_pem m) /\ d !! TLS_KEY = Some (key_pem m) /\
    handle_id m = cert_handle_id ns name (cert_chain_pem m) (key_pem m);
  fs_cert : cert_chain_pem m <> [];
  fs_key : key_pem m <> [];
  fs_pem : exists i, find_sub PEM_MARKER (cert_chain_pem m) = Some i;
}.

Lemma secret_field_ok s key v :
  secret_field s key = Ok v -> exists d, sec_data s = Some d /\ d !! key = Some v /\ v <> [].
Proof.
  unfold secret_field. destruct (sec_data s) as [d|]; [|done]. cbn.
  destruct (d !! key) as [bs|] eqn:E; [|done]. cbn. case_bool_decide; [done|]. intros [= <-]. by exists d.
Qed.

Lemma material_ok secrets ns name m :
  unique_names sec_meta secrets -> material (secret_index secrets) ns name = Ok m -> from_secret secrets m.
Proof.
  intros Hu. unfold material, secret_index. destruct (foldl _ ∅ secrets !! (ns, name)) as [s|] eqn:Hs; [|done].
  apply (index_named_Some sec_meta) in Hs as [Hin Hn]; [|done]. cbn. case_bool_decide as Ht; [|done].
  destruct (secret_field s TLS_CRT) as [c|] eqn:Hc; [|done]. apply secret_field_ok in Hc as (d&Hd&Hc&Hcn). cbn.
  destruct (secret_field s TLS_KEY) as [k|] eqn:Hk; [|done]. apply secret_field_ok in Hk as (d'&Hd'&Hk&Hkn). cbn.
  rewrite Hd in Hd'. injection Hd' as <-. destruct (contains c PEM_MARKER) eqn:Hp; [|done]. intros [= <-].
  unfold contains in Hp. apply bool_decide_eq_true in Hp as [i Hi]. split; cbn; [|done|done|by exists i].
  by exists s, ns, name, d.
Qed.

(** Every host has its material on file, under its own id. *)
Record cert_plan_ok (secrets : list Secret) (cp : CertPlan) : Prop := {
  cpo_hosts : forall host id o, by_host cp !! host = Some (id, o) -> is_Some (materials cp !! id);
  cpo_materials : forall id m, materials cp !! id = Some m -> handle_id m = id /\ from_secret secrets m;
}.

Lemma claim_hosts_id owner id m hosts host id' o :
  value (each (claim_host owner id) m hosts) !! host = Some (id', o) -> m !! host = Some (id', o) \/ id' = id.
Proof.
  revert m. induction hosts as [|x hosts IH]; intros m; [by left|]. cbn [each]. rewrite value_bind. intros Hh.
  apply IH in Hh as [Hh|]; [|by right]. unfold claim_host in Hh. destruct (m !! x) as [[i' o']|] eqn:Hx; [by left|].
  cbn in Hh. destruct (decide (x = host)) as [->|Hne].
  - rewrite lookup_insert_eq in Hh. injection Hh as <- _. by right.
  - rewrite lookup_insert_ne in Hh by done. by left.
Qed.

Lemma plan_tls_ok secrets owner cp entry :
  unique_names sec_meta secrets -> cert_plan_ok secrets cp ->
  cert_plan_ok secrets (value (plan_tls (secret_index secrets) owner cp entry)).
Proof.
  intros Hu [Hh Hm]. unfold plan_tls. case_bool_decide; [done|]. destruct (it_secret_name entry) as [name|]; [|done].
  destruct (material _ _ name) as [m|e] eqn:Hmat; [|done]. apply material_ok in Hmat; [|done].
  rewrite value_bind. cbn [value mret Logged_ret]. split; cbn.
  - intros host id o Hid. destruct (decide (id = handle_id m)) as [->|Hne]; [by rewrite lookup_insert_eq|].
    rewrite lookup_insert_ne by done. apply claim_hosts_id in Hid as [Hid|]; [by eapply Hh|done].
  - intros id m'. destruct (decide (id = handle_id m)) as [->|Hne].
    + rewrite lookup_insert_eq. by intros [= <-].
    + rewrite lookup_insert_ne by done. apply Hm.
Qed.

Lemma each_invariant {S A : Type} (P : S -> Prop) (f : S -> A -> Logged S) s l :
  (forall s x, P s -> P (value (f s x))) -> P s -> P (value (each f s l)).
Proof. intros Hf. revert s. induction l as [|x l IH]; intros s Hs; [done|]. cbn [each]. rewrite value_bind. eauto. Qed.

Lemma plan_certificates_ok secrets managed :
  unique_names sec_meta secrets ->
  cert_plan_ok secrets (value (plan_certificates (secret_index secrets) managed)).
Proof.
  intros Hu. unfold plan_certificates. apply each_invariant.
  - intros cp i Hcp. apply each_invariant; [|done]. intros cp' e. by apply plan_tls_ok.
  - split; intros *; cbn; by rewrite lookup_empty.
Qed.

Section handles.
Context {E : RegexEngine} `{HashOrder} (regex_error_text : RegexError -> str).

(** The handles a builder's SNI map hands out. *)
Definition handles (b : RouteTableBuilder) (h : CertifiedKeyHandle) : Prop :=
  (exists host, b_tls_exact b !! host = Some h) \/ (exists host, b_tls_wildcard b !! host = Some h) \/
  b_tls_default b = Some h.

Lemma certificate_handles b host key b' h :
  certificate b host key = Ok b' -> handles b' h -> handles b h \/ h = key.
Proof.
  unfold certificate, handles. destruct (normalize_config_host host) as [slot|]; [|done].
  destruct slot as [n|n|]; intros [= <-]; cbn; intros [[x Hx]|[[x Hx]|Hx]]; eauto;
    try (destruct (decide (x = n)) as [->|Hne];
      [rewrite lookup_insert_eq in Hx; injection Hx as <-; by right|rewrite lookup_insert_ne in Hx by done; eauto 6]).
  injection Hx as <-. by right.
Qed.

Lemma resolve_handles b name key :
  resolve (MkSniMap (b_tls_exact b) (b_tls_wildcard b) (b_tls_default b)) name = Some key -> handles b key.
Proof.
  assert (Hn : forall n, resolve_normalized (MkSniMap (b_tls_exact b) (b_tls_wildcard b) (b_tls_default b)) n = Some key ->
    handles b key).
  { intros n. unfold resolve_normalized, handles. cbn. destruct (b_tls_exact b !! n) as [k|] eqn:Hx.
    - intros [= <-]. left. by exists n.
    - destruct (parent_domain n) as [p|]; cbn; [|auto].
      destruct (b_tls_wildcard b !! p) as [k|] eqn:Hw; [|auto]. intros [= <-]. right. left. by exists p. }
  unfold resolve. destruct (scan name) as [n|n|]; [apply Hn| |unfold handles; auto].
  destruct (fold_lower n); [apply Hn|done].
Qed.

Lemma register_hosts_handles st l h :
  handles (dm_builder (value (each (register_host regex_error_text) st l))) h ->
  handles (dm_builder st) h \/ exists host id o, (host, (id, o)) ∈ l /\ h = MkCertifiedKeyHandle id.
Proof.
  revert st. induction l as [|[host [id o]] l IH]; intros st; [by left|]. cbn [each]. rewrite value_bind.
  intros [Hh|(x&i&o'&Hx&->)]%IH; [|right; exists x, i, o'; rewrite elem_of_cons; auto].
  unfold register_host in Hh. destruct (certificate _ _ _) as [b|] eqn:Hc; [|by left]. cbn in Hh.
  eapply certificate_handles in Hh as [?| ->]; [by left| |exact Hc].
  right. exists host, id, o. rewrite elem_of_cons. auto.
Qed.

Lemma register_certificates_handles snapshot opts managed st :
  unique_names sec_meta (secrets snapshot) -> (forall h, ~ handles (dm_builder st) h) ->
  let '(st', cs) := value (register_certificates regex_error_text snapshot opts managed st) in
  (forall h, handles (dm_builder st') h -> exists m, m ∈ cs /\ handle_id m = cert_id h) /\
  NoDup (map handle_id cs) /\ Forall (from_secret (secrets snapshot)) cs.
Proof.
  intros Hu Hst. unfold register_certificates. autorewrite with ramjet.
  pose proof (plan_certificates_ok (secrets snapshot) managed Hu) as [Hh Hm].
  set (cp := value (plan_certificates _ _)) in *. set (st1 := value (each _ _ _)).
  assert (H1 : forall h, handles (dm_builder st1) h -> is_Some (materials cp !! cert_id h)).
  { intros h [Hx|(host&id&o&Hin&->)]%register_hosts_handles; [by apply Hst in Hx|].
    apply elem_of_btree_iter in Hin. by eapply Hh. }
  assert (H2 : let '(st2, ms) := value (register_default_certificate (secret_index (secrets snapshot)) opts st1 (materials cp)) in
    (forall h, handles (dm_builder st2) h -> is_Some (ms !! cert_id h)) /\
    forall id m, ms !! id = Some m -> handle_id m = id /\ from_secret (secrets snapshot) m).
  { unfold register_default_certificate. destruct (default_tls_secret opts) as [r|]; [|done].
    destruct (split_once _ r) as [[ns name]|]; [|done]. destruct (material _ ns name) as [m|] eqn:Hmat; [|done]. cbn.
    apply material_ok in Hmat; [|done]. split.
    - intros h Hx. destruct (decide (cert_id h = handle_id m)) as [->|Hne]; [by rewrite lookup_insert_eq|].
      rewrite lookup_insert_ne by done. apply H1. unfold handles in *. cbn in Hx.
      destruct Hx as [?|[?|[= <-]]]; [auto|auto|done].
    - intros id m'. destruct (decide (id = handle_id m)) as [->|Hne].
      + rewrite lookup_insert_eq. by intros [= <-].
      + rewrite lookup_insert_ne by done. apply Hm. }
  destruct (value (register_default_certificate _ _ _ _)) as [st2 ms]. cbn. destruct H2 as [H2 H3]. split_and!.
  - intros h [m Hx]%H2. exists m. split; [|by apply H3].
    apply list_elem_of_fmap. exists (cert_id h, m). by rewrite elem_of_btree_iter.
  - rewrite map_map. rewrite (map_ext_in _ fst); [apply btree_iter_keys|].
    intros [id m] Hin%list_elem_of_In. cbn. apply elem_of_btree_iter in Hin. by apply H3.
  - apply Forall_forall. intros m ([id m']&->&Hin)%list_elem_of_fmap. apply elem_of_btree_iter in Hin. by apply (H3 id).
Qed.
End handles.

(** * Properties *)

Section properties.
Context {E : RegexEngine} `{HashOrder} (regex_error_text : RegexError -> str).

(** What the API server's validation guarantees of the objects read, and flag
    parsing of the default backend. *)
Record inputs_valid (snapshot : ClusterSnapshot) (opts : ControllerOpts) : Prop := {
  in_ingresses : Forall ingress_valid (ingresses snapshot);
  in_default : forall r, opts_default_backend opts = Some r -> ref_writable r;
}.

Lemma managed_valid snapshot opts :
  inputs_valid snapshot opts -> Forall ingress_valid (value (select_managed snapshot opts)).
Proof.
  intros [Hv _]. rewrite Forall_forall in Hv. apply Forall_forall. intros i.
  rewrite select_managed_value, elem_of_sort_by, in_filter. intros [Hi _]. by apply Hv.
Qed.

Lemma translate_ok snapshot opts previous h store :
  inputs_valid snapshot opts ->
  let managed := value (select_managed snapshot opts) in
  exists dr m t h' store',
    value (translate_draft regex_error_text snapshot opts previous) = Ok dr /\
    build (dr_builder dr) h store = Ok (t, h', store') /\
    translate regex_error_text snapshot opts previous h store =
      Ok (MkTranslation (MkCompiledConfig t (dr_certs dr) (dr_promotions dr) (dr_digest dr)) (dr_digest dr)
            (dr_managed dr) (logged (translate_draft regex_error_text snapshot opts previous)), h', store') /\
    builder_reachable (dr_builder dr) /\
    b_routes (dr_builder dr) = omap plan_draft (sorted_plans (value (plan_routes managed)).1) /\
    b_backends (dr_builder dr) =
      map (backend_draft (endpoint_index (services snapshot) (endpoint_slices snapshot)) opts) (btree_iter m) /\
    (forall r, is_Some (m !! r) -> ref_writable r) /\
    (forall k p r, promised_route managed k = Some p -> r ∈ plan_refs p -> is_Some (m !! r)).
Proof.
  intros Hv managed.
  destruct (translate_managed_ok regex_error_text snapshot opts previous managed (managed_valid _ _ Hv) (in_default _ _ Hv))
    as (dr&m&Hdr&Hroutes&Hok&Hbs&Hm&Hrefs).
  destruct (build_config_ok (dr_builder dr) h store Hok) as [[[t h'] store'] Hb].
  exists dr, m, t, h', store'. split_and!; try done.
  - unfold translate. change (value (translate_draft regex_error_text snapshot opts previous)) with
      (value (translate_managed regex_error_text snapshot opts previous managed)). rewrite Hdr. cbn. by rewrite Hb.
  - by eapply translate_managed_reachable.
  - intros k p r. rewrite <- plan_routes_lookup. apply Hrefs.
Qed.

(** C7: A rebuild never fails.  Whatever the cluster holds - Ingresses without
    a spec, unknown classes, conflicting claims, missing Services, broken
    annotations, certificates that are not PEM, hosts the router refuses - the
    translator compiles a table; nothing a namespace owner writes in an object
    the API server accepts can stop the rebuild. *)
Theorem translate_total snapshot opts previous h store (Hv : inputs_valid snapshot opts) :
  exists tr h' store', translate regex_error_text snapshot opts previous h store = Ok (tr, h', store').
Proof. destruct (translate_ok snapshot opts previous h store Hv) as (dr&m&t&h'&store'&_&_&Ht&_). eauto. Qed.

(** The addresses a plan's backend should have: none while it is unresolved. *)
Definition resolved_endpoints (snapshot : ClusterSnapshot) (target : ServiceRef) : list Endpoint :=
  match resolve_service (endpoint_index (services snapshot) (endpoint_slices snapshot)) target with
  | Ok r => res_endpoints r
  | Err _ => []
  end.

Lemma backend_endpoints_value index target :
  value (backend_endpoints index target) =
  match resolve_service index target with Ok r => res_endpoints r | Err _ => [] end.
Proof. unfold backend_endpoints. destruct (resolve_service index target) as [r|[]]; done. Qed.

Lemma plan_draft_accepted p d0 :
  draft (rk_host (rp_key p)) (rk_path (rp_key p)) (rk_path_type (rp_key p)) (Config.backend_name (rp_backend p)) = Ok d0 ->
  exists d, plan_draft p = Some d /\ rd_slot d = rd_slot d0.
Proof.
  intros Hd. unfold plan_draft. destruct (options_draft _ _ _ _ (plan_options p)) as [d|] eqn:E1.
  - exists d. split; [done|]. by eapply options_draft_slot.
  - unfold options_draft. rewrite Hd. cbn. by eexists.
Qed.
(** A draft's rule is stored in its slot, with the backend it names. *)
Lemma draft_stored b h store t h' store' d :
  builder_reachable b -> Z.of_nat (length (b_backends b)) < 2 ^ 32 -> build b h store = Ok (t, h', store') ->
  d ∈ b_routes b ->
  exists v r bk, table_vhost t (rd_slot d) = Some v /\ r ∈ vh_routes v /\
    rule_from (b_backend_ids b) d r /\ table_backend t (rule_backend r) = Some bk /\
    Backends.backend_name bk = rd_backend d /\
    exists bd, bd ∈ b_backends b /\ bd_name bd = rd_backend d /\ endpoints bk = bd_endpoints bd.
Proof.
  intros Hr Hlen Hb Hd. apply reachable_wf in Hr as Hwf. apply build_built_from in Hb.
  assert (Hs : is_Some (table_vhost t (rd_slot d))).
  { apply (bf_slots _ _ Hb). by apply (list_elem_of_fmap_2 rd_slot). }
  destruct Hs as [v Hv]. pose proof (bf_rules _ _ Hb) as Hrules. rewrite Forall_forall in Hrules.
  specialize (Hrules d Hd). destruct (build_rule (b_backend_ids b) d) as [r'|] eqn:Hr'; [|done].
  assert (Hin : r' ∈ map erase_index (vh_routes v)).
  { rewrite (bf_vhost _ _ Hb _ _ Hv), elem_of_sort_by. apply list_elem_of_omap. exists d. split; [done|].
    unfold draft_rule. by rewrite bool_decide_eq_true_2, Hr'. }
  apply list_elem_of_fmap in Hin as (r&->&Hin). apply build_rule_from in Hr' as [F1 F2 F3 F4 F5 F6].
  assert (Hfrom : rule_from (b_backend_ids b) d r) by by split.
  destruct (registered_backend _ _ _ _ Hwf Hb Hlen (rf_backend _ _ _ Hfrom)) as (bk&Hbk&Hname).
  exists v, r, bk. split_and!; try done. unfold table_backend in Hbk. rewrite (bf_backends _ _ Hb) in Hbk.
  unfold built_backends in Hbk. rewrite list_lookup_imap in Hbk.
  destruct (b_backends b !! _) as [bd|] eqn:Hbd; [|done]. cbn in Hbk. injection Hbk as <-.
  exists bd. split_and!; [by eapply list_elem_of_lookup_2|done|done].
Qed.

(** C3: A planned route is served by its own Service.  Every key the plan
    promises, whose host and path the router accepts, is a rule of the
    compiled table under that host, path and type, whatever is wrong with the
    canary or the mirror attached to it; and the rule's backend carries the
    promised Service's name and exactly the addresses resolved for it (none
    while it is unresolved, so the proxy answers 503 rather than falling
    through to another route). *)
Theorem planned_route_served snapshot opts previous h store k p d0 (Hv : inputs_valid snapshot opts)
    (Hk : promised_route (value (select_managed snapshot opts)) k = Some p)
    (Hd : draft (rk_host k) (rk_path k) (rk_path_type k) (Config.backend_name (rp_backend p)) = Ok d0) :
  exists tr h' store', translate regex_error_text snapshot opts previous h store = Ok (tr, h', store') /\
    let t := config_table (tr_config tr) in
    (Z.of_nat (length (backends t)) < 2 ^ 32 ->
     exists v r bk, table_vhost t (rd_slot d0) = Some v /\ r ∈ vh_routes v /\
       rule_path r = rk_path k /\ rule_path_type r = rk_path_type k /\
       table_backend t (rule_backend r) = Some bk /\
       Backends.backend_name bk = Config.backend_name (rp_backend p) /\
       endpoints bk = resolved_endpoints snapshot (rp_backend p)).
Proof.
  destruct (translate_ok snapshot opts previous h store Hv) as (dr&m&t&h'&store'&_&Hb&Ht&Hreach&Hroutes&Hbs&Hm&Hrefs).
  eexists _, h', store'. split; [exact Ht|]. cbn [config_table tr_config]. intros Hlen.
  pose proof Hk as Hk'. rewrite <- plan_routes_lookup in Hk'. pose proof (promised_keyed _ _ _ Hk') as Hkey.
  rewrite <- Hkey in Hd. destruct (plan_draft_accepted _ _ Hd) as (d&Hpd&Hslot). rewrite <- Hslot.
  assert (Hin : d ∈ b_routes (dr_builder dr)).
  { rewrite Hroutes. apply list_elem_of_omap. exists p. split; [|done]. apply elem_of_sorted_plans. by exists k. }
  assert (Hlen' : Z.of_nat (length (b_backends (dr_builder dr))) < 2 ^ 32).
  { apply build_built_from in Hb. rewrite (bf_backends _ _ Hb) in Hlen. unfold built_backends in Hlen.
    by rewrite length_imap in Hlen. }
  destruct (draft_stored _ _ _ _ _ _ _ Hreach Hlen' Hb Hin) as (v&r&bk&Hvh&Hr&[F1 F2 F3 _ _ _]&Hbk&Hname&bd&Hbd&Hbdn&Heps).
  apply plan_draft_fields in Hpd as (P1&P2&P3&_). rewrite Hkey in P1, P2.
  exists v, r, bk. split_and!; try done; [congruence..|].
  rewrite Heps. rewrite Hbs in Hbd. apply list_elem_of_fmap in Hbd as ([r' pr]&->&Hx). cbn in *.
  apply elem_of_btree_iter in Hx. rewrite P3 in Hbdn. apply writable_name_inj in Hbdn as ->.
  - unfold resolved_endpoints. apply backend_endpoints_value.
  - apply Hm. by exists pr.
  - apply Hm, (Hrefs k p); [done|]. apply elem_of_plan_refs. auto.
Qed.
Lemma translate_managed_certs snapshot opts previous managed dr :
  unique_names sec_meta (secrets snapshot) ->
  value (translate_managed regex_error_text snapshot opts previous managed) = Ok dr ->
  (forall h, handles (dr_builder dr) h -> exists m, m ∈ dr_certs dr /\ handle_id m = cert_id h) /\
  NoDup (map handle_id (dr_certs dr)) /\ Forall (from_secret (secrets snapshot)) (dr_certs dr).
Proof.
  intros Hu. unfold translate_managed. rewrite value_bind. destruct (value (plan_routes managed)) as [routes gd].
  set (b0 := match previous with Some table => from_previous table | None => builder_new end).
  autorewrite with ramjet. destruct (value (register_backends _ _ _ _)) as [st1|] eqn:H1; [|done].
  apply register_backend_list_same_plan in H1 as [_ _ Hx Hw Hd]. cbn in Hx, Hw, Hd. autorewrite with ramjet.
  set (st2 := value (register_routes _ routes st1)). set (b := match _ with Some t => _ | None => _ end).
  set (d := digest_opt_str _ _).
  assert (Hno : forall h, ~ handles (dm_builder (MkDraftsman b d)) h).
  { intros h. assert (Hst2 : dm_builder st2 = with_routes (dm_builder st1) (omap plan_draft (sorted_plans routes)))
      by apply register_routes_builder.
    assert (Ht : b_tls_exact b = ∅ /\ b_tls_wildcard b = ∅ /\ b_tls_default b = None).
    { assert (Hb : b_tls_exact b = b_tls_exact b0 /\ b_tls_wildcard b = b_tls_wildcard b0 /\
        b_tls_default b = b_tls_default b0).
      { rewrite <- Hx, <- Hw, <- Hd. unfold b. rewrite Hst2. destruct gd as [[]|], (opts_default_backend opts); done. }
      destruct Hb as (->&->&->). by destruct previous. }
    destruct Ht as (T1&T2&T3). unfold handles. cbn [dm_builder]. rewrite T1, T2, T3.
    intros [[x Hl]|[[x Hl]|Hl]]; [by rewrite lookup_empty in Hl..|done]. }
  pose proof (register_certificates_handles regex_error_text snapshot opts managed _ Hu Hno) as Hc.
  destruct (value (register_certificates _ _ _ _ _)) as [st3 certs]. rewrite value_bind.
  destruct (value (collect_promotions _ _ _)) as [promotions d']. cbn [value mret Logged_ret]. by intros [= <-].
Qed.

(** C17: TLS closes over its certificates.  Every handle the compiled SNI map
    can hand out, for any server name or as the default, has its certificate
    in the published configuration; the ids are distinct; and each certificate
    is the non-empty chain and key of a [kubernetes.io/tls] Secret in the
    snapshot whose chain looks like PEM, filed under the id its content
    determines. *)
Theorem certificates_available snapshot opts previous h store tr h' store'
    (Hu : unique_names sec_meta (secrets snapshot))
    (Ht : translate regex_error_text snapshot opts previous h store = Ok (tr, h', store')) :
  let t := config_table (tr_config tr) in
  let cs := certs (tr_config tr) in
  (forall server_name key, resolve (tls t) server_name = Some key -> exists m, m ∈ cs /\ handle_id m = cert_id key) /\
  NoDup (map handle_id cs) /\ Forall (from_secret (secrets snapshot)) cs.
Proof.
  revert Ht. unfold translate. cbv zeta.
  change (value (translate_draft regex_error_text snapshot opts previous)) with
    (value (translate_managed regex_error_text snapshot opts previous (value (select_managed snapshot opts)))).
  destruct (value (translate_managed _ _ _ _ _)) as [dr|] eqn:Hdr; [|done]. cbn.
  destruct (build (dr_builder dr) h store) as [[[t h1] store1]|] eqn:Hb; [|done]. cbn. intros [= <- <- <-]. cbn.
  apply translate_managed_certs in Hdr as (Hh&Hnd&Hf); [|done]. split_and!; [|done|done].
  apply build_built_from in Hb. rewrite (bf_tls _ _ Hb). intros name key Hk. apply Hh. by apply resolve_handles in Hk.
Qed.
End properties.

(** What the API server guarantees about the names in one snapshot. *)
Record names_unique (s : ClusterSnapshot) : Prop := {
  un_ingresses : unique_names ing_meta (ingresses s);
  un_services : unique_names svc_meta (services s);
  un_secrets : unique_names sec_meta (secrets s);
}.
(** The same cluster state, delivered in another order. *)
Record same_cluster (s s' : ClusterSnapshot) : Prop := {
  sc_ingresses : ingresses s ≡ₚ ingresses s';
  sc_classes : ingress_classes s ≡ₚ ingress_classes s';
  sc_services : services s ≡ₚ services s';
  sc_slices : endpoint_slices s ≡ₚ endpoint_slices s';
  sc_secrets : secrets s ≡ₚ secrets s';
}.

Lemma translate_draft_perm (E : RegexEngine) (H1 H2 : HashOrder) (error_text : RegexError -> str)
    s s' opts previous (Hu : names_unique s) (Hs : same_cluster s s') :
  value (@translate_draft E H1 error_text s opts previous) =
  value (@translate_draft E H2 error_text s' opts previous) /\
  logged (@translate_draft E H1 error_text s opts previous) ≡ₚ
  logged (@translate_draft E H2 error_text s' opts previous).
Proof.
  destruct Hu as [Hui Hus Huk], Hs as [Hi Hc Hsv Hl Hk]. unfold translate_draft. rewrite !value_bind, !logged_bind.
  rewrite <- (select_managed_perm s s' opts Hui Hi Hc).
  rewrite (@translate_managed_listed E H1), (@translate_managed_listed E H2).
  rewrite (@translate_managed_perm E listed_order error_text s s' opts previous _ Hus Huk Hsv Hl Hk).
  split; [done|]. by rewrite (select_managed_logged_perm s s' opts Hi Hc).
Qed.

(** C16: One cluster state, one configuration.  Two replicas that hold the same
    objects compile the same builder, certificates, promotion targets, digest
    and managed list, and raise the same warnings up to order, whatever order
    the watches delivered the objects in and however each process happens to
    iterate its hash maps; so equal states never republish. *)
Theorem translate_deterministic (E : RegexEngine) (H1 H2 : HashOrder) (error_text : RegexError -> str)
    s s' opts previous (Hu : names_unique s) (Hs : same_cluster s s') :
  value (@translate_draft E H1 error_text s opts previous) =
  value (@translate_draft E H2 error_text s' opts previous) /\
  logged (@translate_draft E H1 error_text s opts previous) ≡ₚ
  logged (@translate_draft E H2 error_text s' opts previous).
Proof. by apply translate_draft_perm. Qed.

(** * Witnesses: a small cluster, translated *)

#[local] Existing Instance literal_engine.
#[local] Existing Instance listed_order.

Definition demo_object (ns name : str) (a : list (str * str)) (created : Z) : ObjectMeta :=
  MkObjectMeta (Some ns) (Some name) None (list_to_map a) ∅ (Some created) None.
Definition demo_backend (service : str) (port : Z) : IngressBackend :=
  MkIngressBackend (Some (MkIngressServiceBackend service (Some (MkServiceBackendPort None (Some port))))).
Definition demo_rule_at (host path : str) (service : str) : IngressRule :=
  MkIngressRule (Some host) (Some [MkHTTPIngressPath (Some path) (bstr "Prefix") (demo_backend service 80)]).
Definition demo_ingress (name : str) (a : list (str * str)) (created : Z) (rules : list IngressRule) : Ingress :=
  MkIngress (demo_object (bstr "default") name a created)
    (Some (MkIngressSpec (Some (bstr "ramjet")) None (Some rules)
             (Some [MkIngressTLS (Some [bstr "Example.com."]) (Some (bstr "web-tls"))]))).

(** A production Ingress, a younger one that claims its route too, and a canary
    whose weight exceeds its total. *)
Definition demo_cluster : ClusterSnapshot := {|
  ingresses :=
    [demo_ingress (bstr "late") [] 9 [demo_rule_at (bstr "example.com") (bstr "/") (bstr "other")];
     demo_ingress (bstr "web") [] 1 [demo_rule_at (bstr "Example.com.") (bstr "/") (bstr "web")];
     demo_ingress (bstr "canary")
       [(ANNOTATION_CANARY, bstr "true"); (ANNOTATION_CANARY_WEIGHT, bstr "200")] 5
       [demo_rule_at (bstr "example.com") (bstr "/") (bstr "next")]];
  ingress_classes := [MkIngressClass (demo_object [] (bstr "ramjet") [] 0) (Some (Some CONTROLLER_NAME))];
  services := [demo_service];
  endpoint_slices := [demo_slice];
  secrets := [MkSecret (demo_object (bstr "default") (bstr "web-tls") [] 0) (Some TLS_SECRET_TYPE)
    (Some (list_to_map [(TLS_CRT, bstr "-----BEGIN CERTIFICATE-----"); (TLS_KEY, bstr "key")]))];
|}.
Definition demo_text (e : RegexError) : str := bstr "regex".
Definition demo_key : RouteKey := MkRouteKey (Some (bstr "example.com")) (bstr "/") Prefix.
Definition demo_pass : result BuildError (Translation * Heap * RouteStore) :=
  translate demo_text demo_cluster ControllerOpts_default None heap_empty [].

Example demo_warnings :
  match demo_pass with
  | Ok (tr, _, _) => map (fun w => (w_subject w, w_kind w)) (tr_warnings tr)
  | Err _ => []
  end = [(MkObjectKey (bstr "default") (bstr "late"), RouteConflict);
         (MkObjectKey (bstr "default") (bstr "next"), ServiceUnresolved);
         (MkObjectKey (bstr "default") (bstr "web"), EndpointsSkipped);
         (MkObjectKey (bstr "default") (bstr "canary"), InvalidRoute);
         (MkObjectKey (bstr "default") (bstr "canary"), TlsConflict);
         (MkObjectKey (bstr "default") (bstr "late"), TlsConflict)].
Proof. vm_compute. reflexivity. Qed.

Lemma demo_valid : inputs_valid demo_cluster ControllerOpts_default.
Proof.
  split; [|done]. apply Forall_forall. intros i Hi.
  assert (Hb : bool_decide (chr "/" ∉ ok_namespace (key_of (ing_meta i))) = true /\
    forall b s p, b ∈ ingress_backends i -> ib_service b = Some s -> isb_port s = Some p -> p = MkServiceBackendPort None (Some 80)).
  { cbn [demo_cluster ingresses] in Hi. rewrite !elem_of_cons, elem_of_nil in Hi.
    destruct Hi as [->|[->|[->|[]]]]; (split; [by vm_compute|]); intros b s p Hb%list_elem_of_singleton; subst b;
      cbn; intros [= <-]; by intros [= <-]. }
  destruct Hb as [Hns Hp]. split; [by apply bool_decide_eq_true in Hns|].
  intros b s p H1 H2 H3. rewrite (Hp b s p H1 H2 H3). split; [intros n [= <-]; by vm_compute|done].
Qed.

Lemma translate_total_witness :
  exists tr h' store', demo_pass = Ok (tr, h', store').
Proof. exact (translate_total demo_text demo_cluster ControllerOpts_default None heap_empty [] demo_valid). Defined.

Definition demo_plan : RoutePlan :=
  default (MkRoutePlan demo_key demo_ref (MkObjectKey [] []) Http1 None None)
    (promised_route (value (select_managed demo_cluster ControllerOpts_default)) demo_key).
Definition demo_accepted : RouteDraft :=
  MkRouteDraft (Slot_Exact (bstr "example.com")) (bstr "/") Prefix None (bstr "default/web:80") None None.

Lemma planned_route_served_witness :
  rp_backend demo_plan = demo_ref /\
  exists tr h' store', demo_pass = Ok (tr, h', store') /\
    let t := config_table (tr_config tr) in
    (Z.of_nat (length (backends t)) < 2 ^ 32 ->
     exists v r bk, table_vhost t (Slot_Exact (bstr "example.com")) = Some v /\ r ∈ vh_routes v /\
       rule_path r = bstr "/" /\ rule_path_type r = Prefix /\
       table_backend t (rule_backend r) = Some bk /\
       Backends.backend_name bk = bstr "default/web:80" /\
       endpoints bk = resolved_endpoints demo_cluster demo_ref).
Proof.
  split; [by vm_compute|].
  exact (planned_route_served demo_text demo_cluster ControllerOpts_default None heap_empty [] demo_key demo_plan
    demo_accepted demo_valid ltac:(vm_compute; reflexivity) ltac:(vm_compute; reflexivity)).
Defined.

Lemma certificates_available_witness :
  exists tr h' store', demo_pass = Ok (tr, h', store') /\
    (forall server_name key, resolve (tls (config_table (tr_config tr))) server_name = Some key ->
       exists m, m ∈ certs (tr_config tr) /\ handle_id m = cert_id key) /\
    NoDup (map handle_id (certs (tr_config tr))) /\ Forall (from_secret (secrets demo_cluster)) (certs (tr_config tr)).
Proof.
  destruct (translate_ok demo_text demo_cluster ControllerOpts_default None heap_empty [] demo_valid)
    as (dr&m&t&h'&store'&_&_&Ht&_).
  eexists _, h', store'. split; [exact Ht|].
  exact (certificates_available demo_text demo_cluster ControllerOpts_default None heap_empty [] _ h' store'
    ltac:(apply NoDup_singleton) Ht).
Defined.

(** The same cluster, its Ingresses delivered in another order. *)
Definition demo_shuffled : ClusterSnapshot :=
  MkClusterSnapshot (rev (ingresses demo_cluster)) (ingress_classes demo_cluster) (services demo_cluster)
    (endpoint_slices demo_cluster) (secrets demo_cluster).

Lemma translate_deterministic_witness :
  value (translate_draft demo_text demo_cluster ControllerOpts_default None) =
  value (translate_draft demo_text demo_shuffled ControllerOpts_default None) /\
  logged (translate_draft demo_text demo_cluster ControllerOpts_default None) ≡ₚ
  logged (translate_draft demo_text demo_shuffled ControllerOpts_default None).
Proof.
  apply (translate_deterministic literal_engine listed_order listed_order demo_text demo_cluster demo_shuffled).
  - split; [|apply NoDup_singleton..]. apply (bool_decide_unpack _). vm_compute. exact I.
  - split; try done. apply Permutation_rev.
Defined.
