(* ===== verification/Diagnostics.v ===== *)
(** Telling an Ingress's author that a value was refused:
    [crates/ramjet-controller/src/diagnostics.rs].

    [WarningEvents] remembers the hash of the refusals last written for each
    object.  [sync] is the whole pass: what it writes, and what it remembers.
    Writing an Event is the Kubernetes client's; here it is an entry of the
    returned list, with the text the Event carries. *)

From S2P Require Import Prelude Order RouterTypes Annotations Config NetText Canary Paths Stats Backends Table Builder Cluster Endpoints Secrets Plans Translate.

(** [emitted]. *)
Abbreviation WarningEvents := (gmap ObjectKey Z) (only parsing).
Definition events_new : WarningEvents := ∅.
Definition invalidate (w : WarningEvents) : WarningEvents := ∅.

(** The [Ord] key of [sort_by_key]. *)
Definition warning_key (w : Warning) : str * str := (warning_kind_as_str (w_kind w), w_detail w).

Definition group_push (m : gmap ObjectKey (list Warning)) (w : Warning) : gmap ObjectKey (list Warning) :=
  if is_annotation_refusal (w_kind w)
  then <[w_subject w := default [] (m !! w_subject w) ++ [w]]> m
  else m.
Definition group_warnings (warnings : list Warning) : gmap ObjectKey (list Warning) :=
  sort_by (fun a b => ord_le (warning_key a) (warning_key b)) <$> foldl group_push ∅ warnings.

Definition digest_of (group : list Warning) : u64 :=
  foldl (fun d w => digest_str (digest_str d (warning_kind_as_str (w_kind w))) (w_detail w)) digest_new group.

(** A later Ingress of the same key replaces an earlier one. *)
Definition uid_index (snapshot : ClusterSnapshot) : gmap ObjectKey str :=
  foldl (fun m i => match m_uid (ing_meta i) with Some uid => <[key_of (ing_meta i) := uid]> m | None => m end)
    ∅ (ingresses snapshot).

(** One Event: the object, its uid, the reason and the note. *)
Record Event := MkEvent { ev_object : ObjectKey; ev_uid : str; ev_reason : str; ev_note : str }.
Definition event_of (uid : str) (w : Warning) : Event :=
  MkEvent (w_subject w) uid (warning_kind_as_str (w_kind w)) (w_detail w).

(** One object of the loop over the changed ones. *)
Definition emit (uids : gmap ObjectKey str) (st : list Event * WarningEvents) (entry : ObjectKey * list Warning)
    : list Event * WarningEvents :=
  let '(written, emitted) := st in
  let '(key, group) := entry in
  match uids !! key with
  | None => (written, emitted)
  | Some uid => (written ++ map (event_of uid) group, <[key := digest_of group]> emitted)
  end.

Definition sync (emitted : WarningEvents) (warnings : list Warning) (snapshot : ClusterSnapshot)
    : list Event * WarningEvents :=
  let grouped := group_warnings warnings in
  let emitted := filter (fun kv : ObjectKey * Z => is_Some (grouped !! kv.1)) emitted in
  let changed :=
    List.filter (fun '(key, group) => negb (bool_decide (emitted !! key = Some (digest_of group)))) (btree_iter grouped) in
  if bool_decide (changed = []) then ([], emitted)
  else foldl (emit (uid_index snapshot)) ([], emitted) changed.

(** ** Lemmas *)

Definition refusals (warnings : list Warning) (key : ObjectKey) : list Warning :=
  List.filter (fun w => is_annotation_refusal (w_kind w) && bool_decide (w_subject w = key)) warnings.

Lemma group_push_lookup warnings m key :
  foldl group_push m warnings !! key =
  match refusals warnings key with
  | [] => m !! key
  | l => Some (default [] (m !! key) ++ l)
  end.
Proof.
  revert m. induction warnings as [|w warnings IH]; intros m; [done|]. cbn [foldl refusals List.filter].
  rewrite IH. unfold group_push. fold (refusals warnings key). destruct (is_annotation_refusal (w_kind w)); [|done].
  cbn [andb]. case_bool_decide as Hk.
  - subst key. rewrite lookup_insert_eq. cbn. destruct (refusals warnings (w_subject w)); [done|].
    by rewrite <- app_assoc.
  - by rewrite lookup_insert_ne.
Qed.

Lemma group_warnings_lookup warnings key :
  group_warnings warnings !! key =
  match refusals warnings key with
  | [] => None
  | l => Some (sort_by (fun a b => ord_le (warning_key a) (warning_key b)) l)
  end.
Proof.
  unfold group_warnings. rewrite lookup_fmap, group_push_lookup, lookup_empty. by destruct (refusals warnings key).
Qed.

Lemma warning_kind_as_str_inj k k' : warning_kind_as_str k = warning_kind_as_str k' -> k = k'.
Proof. by destruct k, k'. Qed.

(** The order of the warnings does not matter. *)
Lemma group_warnings_perm ws ws' : ws ≡ₚ ws' -> group_warnings ws = group_warnings ws'.
Proof.
  intros Hp. apply map_eq. intros key. rewrite !group_warnings_lookup.
  assert (Hr : refusals ws key ≡ₚ refusals ws' key) by by apply filter_perm.
  destruct (refusals ws key) as [|w l] eqn:E1, (refusals ws' key) as [|w' l'] eqn:E2; [done| | |].
  - by apply Permutation_nil_l in Hr.
  - by apply Permutation_nil_r in Hr.
  - f_equal. rewrite <- E1, <- E2 in *. apply sort_by_key_perm; [|done].
    intros x y [_ Hx]%in_filter [_ Hy]%in_filter [= Hk Hd]. bools. apply warning_kind_as_str_inj in Hk.
    destruct x, y. cbn in *. congruence.
Qed.

Definition entry_events (uids : gmap ObjectKey str) (entry : ObjectKey * list Warning) : list Event :=
  match uids !! entry.1 with Some uid => map (event_of uid) entry.2 | None => [] end.

Lemma emit_written uids l st : (foldl (emit uids) st l).1 = st.1 ++ flat_map (entry_events uids) l.
Proof.
  revert st. induction l as [|[key g] l IH]; intros [written emitted]; cbn [foldl flat_map]; [by rewrite app_nil_r|].
  rewrite IH. unfold emit, entry_events. cbn. destruct (uids !! key); cbn; by rewrite ?app_assoc.
Qed.

Lemma emit_emitted uids l st key :
  NoDup (map fst l) ->
  (foldl (emit uids) st l).2 !! key =
  match find_first (fun x => bool_decide (x.1 = key)) l, uids !! key with
  | Some (_, g), Some _ => Some (digest_of g)
  | _, _ => st.2 !! key
  end.
Proof.
  revert st. induction l as [|[k g] l IH]; intros [written emitted]; cbn [foldl map find_first]; [done|].
  intros [Hk Hnd]%NoDup_cons. rewrite IH by done. cbn [fst]. unfold emit. case_bool_decide as He; cbn.
  - subst k. assert (find_first (fun x => bool_decide (x.1 = key)) l = None) as ->.
    { apply find_first_None, Forall_forall. intros [k' g'] Hin. apply bool_decide_eq_false. intros [= ->].
      apply Hk. by apply (list_elem_of_fmap_2 fst _ (key, g')). }
    destruct (uids !! key); cbn; [by rewrite lookup_insert_eq|done].
  - destruct (uids !! k) as [u|]; cbn; [|done]. rewrite lookup_insert_ne by done. done.
Qed.

Lemma find_first_btree {A : Type} (p : ObjectKey * A -> bool) (m : gmap ObjectKey A) key :
  find_first (fun x => bool_decide (x.1 = key)) (List.filter p (btree_iter m)) =
  x ← m !! key; if p (key, x) then Some (key, x) else None.
Proof.
  destruct (find_first _ _) as [[k x]|] eqn:Hf.
  - apply find_first_elem in Hf as [[Hin Hp]%in_filter Hk%bool_decide_eq_true]. cbn in Hk. subst k.
    apply elem_of_btree_iter in Hin. rewrite Hin. cbn. by rewrite Hp.
  - destruct (m !! key) as [x|] eqn:Hm; [|done]. cbn. destruct (p (key, x)) eqn:Hp; [|done]. exfalso.
    rewrite find_first_None, Forall_forall in Hf. specialize (Hf (key, x)). cbn in Hf.
    rewrite bool_decide_eq_true_2 in Hf by done. discriminate Hf. apply in_filter. by rewrite elem_of_btree_iter.
Qed.

Lemma filtered_keys {A : Type} (p : ObjectKey * A -> bool) (m : gmap ObjectKey A) :
  NoDup (map fst (List.filter p (btree_iter m))).
Proof.
  pose proof (btree_iter_keys m) as Hk. induction (btree_iter m) as [|x l IH]; [done|].
  cbn in Hk |- *. apply NoDup_cons in Hk as [Hx Hk]. destruct (p x); [|auto]. cbn. constructor; [|auto].
  intros (y&Hy&[Hin _]%in_filter)%list_elem_of_fmap. apply Hx. rewrite Hy. by apply list_elem_of_fmap_2.
Qed.

(** What one pass remembers, and what it writes. *)
Lemma sync_spec emitted ws snap :
  let grouped := group_warnings ws in
  let uids := uid_index snap in
  (forall key, (sync emitted ws snap).2 !! key =
     match grouped !! key with
     | Some g => if bool_decide (is_Some (uids !! key)) then Some (digest_of g) else emitted !! key
     | None => None
     end) /\
  (forall e, e ∈ (sync emitted ws snap).1 <->
     exists key g uid w, grouped !! key = Some g /\ uids !! key = Some uid /\
       emitted !! key <> Some (digest_of g) /\ w ∈ g /\ e = event_of uid w).
Proof.
  intros grouped uids. unfold sync. fold grouped uids. set (kept := filter _ emitted).
  set (p := fun '(key, group) => negb (bool_decide (kept !! key = Some (digest_of group)))).
  assert (Hkept : forall key, is_Some (grouped !! key) -> kept !! key = emitted !! key).
  { intros key Hk. apply option_eq. intros d. unfold kept. rewrite map_lookup_filter_Some. cbn. tauto. }
  assert (Hnone : forall key, grouped !! key = None -> kept !! key = None).
  { intros key Hk. unfold kept. rewrite map_lookup_filter_None. right. intros d _. cbn. rewrite Hk. by intros [? ?]. }
  set (changed := List.filter p (btree_iter grouped)).
  assert (Hboth : (if bool_decide (changed = []) then ([], kept) else foldl (emit uids) ([], kept) changed) =
    foldl (emit uids) ([], kept) changed).
  { case_bool_decide as Hc; [by rewrite Hc|done]. }
  rewrite Hboth. split.
  - intros key. rewrite emit_emitted by apply filtered_keys. unfold changed. rewrite find_first_btree.
    destruct (grouped !! key) as [g|] eqn:Hg; cbn; [|by apply Hnone]. rewrite Hkept by by eexists.
    destruct (uids !! key) as [u|].
    + rewrite (bool_decide_eq_true_2 (is_Some (Some u))) by by eexists.
      destruct (decide (emitted !! key = Some (digest_of g))) as [He|He];
        [by rewrite bool_decide_eq_true_2|by rewrite bool_decide_eq_false_2].
    + rewrite (bool_decide_eq_false_2 (is_Some None)) by by intros [? ?]. by destruct (negb _).
  - intros e. rewrite emit_written. cbn [fst app]. rewrite list_elem_of_In, in_flat_map.
    setoid_rewrite <- list_elem_of_In. split.
    + intros ([key g]&[Hin Hp]%in_filter&He). apply elem_of_btree_iter in Hin. unfold entry_events in He. cbn in He.
      destruct (uids !! key) as [uid|] eqn:Hu; [|by apply elem_of_nil in He].
      apply list_elem_of_fmap in He as (w&->&Hw). exists key, g, uid, w. split_and!; try done.
      cbn in Hp. bools. by rewrite <- Hkept by by eexists.
    + intros (key&g&uid&w&Hg&Hu&Hd&Hw&->). exists (key, g). split.
      * apply in_filter. rewrite elem_of_btree_iter. split; [done|]. cbn. apply negb_true_iff, bool_decide_eq_false.
        by rewrite Hkept by by eexists.
      * unfold entry_events. cbn. rewrite Hu. by apply list_elem_of_fmap_2.
Qed.

(** * Properties *)

(** Events follow the state of the cluster, not the stream of rebuilds.
    A pass writes exactly the refusals of the objects whose set of refusals
    differs, by content hash, from the one last written (and that still exist
    to attach to); it forgets the objects that have none left, so a complaint
    that returns is written again; and a further rebuild of the same cluster,
    whatever order its warnings come in, writes nothing and changes nothing. *)
Theorem events_follow_state emitted ws ws' snap (Hp : ws ≡ₚ ws') :
  let grouped := group_warnings ws in
  let uids := uid_index snap in
  let emitted' := (sync emitted ws snap).2 in
  (forall e, e ∈ (sync emitted ws snap).1 <->
     exists key g uid w, grouped !! key = Some g /\ uids !! key = Some uid /\
       emitted !! key <> Some (digest_of g) /\ w ∈ g /\ e = event_of uid w) /\
  (forall key, refusals ws key = [] -> emitted' !! key = None) /\
  sync emitted' ws' snap = ([], emitted').
Proof.
  intros grouped uids emitted'. destruct (sync_spec emitted ws snap) as [Hm Hw]. split_and!.
  - exact Hw.
  - intros key Hr. unfold emitted'. rewrite Hm, group_warnings_lookup, Hr. done.
  - destruct (sync_spec emitted' ws' snap) as [Hm' Hw']. rewrite <- (group_warnings_perm _ _ Hp) in Hm', Hw'.
    fold grouped in Hm, Hm', Hw'. fold uids in Hm, Hm', Hw'. rewrite (surjective_pairing (sync emitted' ws' snap)). f_equal.
    + destruct (sync emitted' ws' snap).1 as [|e l]; [done|]. exfalso.
      destruct (proj1 (Hw' e)) as (key&g&uid&w&Hg&Hu&Hd&_); [auto with ramjet|]. apply Hd. unfold emitted'.
      rewrite Hm, Hg, Hu. by rewrite bool_decide_eq_true_2 by by eexists.
    + apply map_eq. intros key. rewrite Hm'. unfold emitted'. rewrite Hm. destruct (grouped !! key) as [g|]; [|done].
      by case_bool_decide.
Qed.

Definition demo_key : ObjectKey := MkObjectKey (bstr "default") (bstr "web").
Definition demo_refusals : list Warning :=
  [MkWarning demo_key MirrorRejected (bstr "b"); MkWarning demo_key RouteConflict (bstr "c");
   MkWarning demo_key CanaryInert (bstr "a")].
Definition demo_world : ClusterSnapshot :=
  MkClusterSnapshot
    [MkIngress (MkObjectMeta (Some (bstr "default")) (Some (bstr "web")) None ∅ ∅ None (Some (bstr "uid-1"))) None]
    [] [] [] [].

Lemma events_follow_state_witness :
  (sync ∅ demo_refusals demo_world).1 =
    [MkEvent demo_key (bstr "uid-1") (bstr "CanaryInert") (bstr "a");
     MkEvent demo_key (bstr "uid-1") (bstr "MirrorRejected") (bstr "b")] /\
  sync (sync ∅ demo_refusals demo_world).2 (rev demo_refusals) demo_world =
    ([], (sync ∅ demo_refusals demo_world).2).
Proof.
  split; [vm_compute; reflexivity|].
  exact (proj2 (proj2 (events_follow_state ∅ demo_refusals (rev demo_refusals) demo_world (Permutation_rev _)))).
Defined.
