(* ===== verification/Status.v ===== *)
(** What the controller writes back onto its Ingresses:
    [crates/ramjet-controller/src/status.rs] and [annotate.rs], with
    [observed_generations] of watch.rs.

    The Kubernetes client is the class [KubeApi]: a call takes the state of
    the API server and gives its answer and the state after.  [KubeLaws] is
    what the API documents of the two patches the writer sends. *)

From S2P Require Import Prelude Order NetText Json RouterTypes Annotations Config Cluster Endpoints.

Definition FIELD_MANAGER : str := bstr "ramjet-ingress".
Definition ANNOTATION_OBSERVED_GENERATION : str := bstr "ramjet.dev/observed-generation".

(** ** The API server *)

Record PatchParams := MkPatchParams { field_manager : option str; force : bool }.
Definition PatchParams_default : PatchParams := MkPatchParams None false.

(** The status of a Service, as far as it is read. *)
Record LoadBalancerIngress := MkLoadBalancerIngress { lb_ip : option str; lb_hostname : option str }.
Record LoadBalancerStatus := MkLoadBalancerStatus { lbs_ingress : option (list LoadBalancerIngress) }.
Record ServiceStatus := MkServiceStatus { st_load_balancer : option LoadBalancerStatus }.

Class KubeApi (A : Type) := {
  (** [Api<Service>::get]: [None] is an error, [Some None] an object without a status. *)
  get_service : str -> str -> A -> option (option ServiceStatus) * A;
  (** [Api<Ingress>::patch_status] with [Patch::Apply]: whether it was accepted. *)
  patch_status : ObjectKey -> PatchParams -> Value -> A -> bool * A;
  (** [Api<Ingress>::patch] with [Patch::Merge]. *)
  patch_merge : ObjectKey -> PatchParams -> Value -> A -> bool * A;
}.

(** ** Addresses *)

Inductive Address := Ip (ip : str) | Hostname (hostname : str).
#[export] Instance Address_eq_dec : EqDecision Address.
Proof. solve_decision. Defined.

Definition address_parse (raw : str) : option Address :=
  let raw := str_trim raw in
  if bool_decide (raw = []) then None
  else Some (if bool_decide (is_Some (parse_ip raw)) then Ip raw else Hostname raw).
Definition as_json (a : Address) : Value :=
  match a with
  | Ip ip => Object [(bstr "ip", Text ip)]
  | Hostname hostname => Object [(bstr "hostname", Text hostname)]
  end.

(** ** Annotation patches *)

(** The [BTreeMap] the pairs are collected into: a later one replaces an
    earlier one of its name. *)
Definition annotation_patch (annotations : list (str * str)) : Value :=
  let map : gmap str str := foldl (fun m kv => <[kv.1 := kv.2]> m) ∅ annotations in
  Object [(bstr "metadata", Object [(bstr "annotations", Object (prod_map id Text <$> btree_iter map))])].
Definition annotation_params : PatchParams := MkPatchParams (Some FIELD_MANAGER) (force PatchParams_default).

(** ** The writer *)

Record StatusWriter := MkStatusWriter {
  configured : option Address;
  sw_publish_service : option (str * str);
  applied : gmap ObjectKey Address;
  annotated : gmap ObjectKey u64;
}.
Definition StatusWriter_eta (w : StatusWriter) : StatusWriter :=
  MkStatusWriter (configured w) (sw_publish_service w) (applied w) (annotated w).
#[export] Instance set_applied : Setter applied := ltac:(derive_setter StatusWriter_eta).
#[export] Instance set_annotated : Setter annotated := ltac:(derive_setter StatusWriter_eta).

Definition StatusWriter_new (opts : ControllerOpts) : option StatusWriter :=
  if negb (update_status opts) then None
  else
    let publish_service :=
      reference ← publish_service opts;
      match split_once (chr "/") reference with
      | Some (namespace, name) =>
          if negb (bool_decide (namespace = [])) && negb (bool_decide (name = [])) then Some (namespace, name) else None
      | None => None
      end in
    Some (MkStatusWriter (publish_address opts ≫= address_parse) publish_service ∅ ∅).

Definition status_invalidate (w : StatusWriter) : StatusWriter := w <| applied := ∅ |> <| annotated := ∅ |>.

Definition needs_annotation (key : ObjectKey) (generation : u64) (observed annotated : gmap ObjectKey u64) : bool :=
  negb (bool_decide (observed !! key = Some generation)) && negb (bool_decide (annotated !! key = Some generation)).

(** What each Ingress claims; a later one of a key replaces an earlier one. *)
Definition observed_of (i : Ingress) : option (ObjectKey * u64) :=
  value ← m_annotations (ing_meta i) !! ANNOTATION_OBSERVED_GENERATION;
  generation ← parse_unsigned u64_max (str_trim value);
  Some (key_of (ing_meta i), generation).
Definition observed_generations (snapshot : ClusterSnapshot) : gmap ObjectKey u64 :=
  foldl (fun m kv => <[kv.1 := kv.2]> m) ∅ (omap observed_of (ingresses snapshot)).

(** The first entry of the Service's load balancer. *)
Definition service_address (status : option ServiceStatus) : option Address :=
  s ← status;
  lb ← st_load_balancer s;
  entries ← lbs_ingress lb;
  entry ← head entries;
  match lb_ip entry, lb_hostname entry with
  | Some ip, _ => Some (Ip ip)
  | None, Some hostname => Some (Hostname hostname)
  | None, None => None
  end.

Section writer.
Context {A : Type} `{KubeApi A} `{HashOrder}.

Definition patch_ingress_annotations (ingress : ObjectKey) (annotations : list (str * str)) (a : A) : bool * A :=
  patch_merge ingress annotation_params (annotation_patch annotations) a.

Definition annotate (key : ObjectKey) (generation : u64) (a : A) : bool * A :=
  patch_ingress_annotations key [(ANNOTATION_OBSERVED_GENERATION, to_string generation)] a.

Definition status_address (w : StatusWriter) (a : A) : option Address * A :=
  match sw_publish_service w with
  | None => (configured w, a)
  | Some (namespace, name) =>
      match get_service namespace name a with
      | (Some status, a) => (match service_address status with Some x => Some x | None => configured w end, a)
      | (None, a) => (configured w, a)
      end
  end.

(** The server-side apply of [write]. *)
Definition status_entries (address : option Address) : Value :=
  Array (match address with Some x => [as_json x] | None => [] end).
Definition status_patch (key : ObjectKey) (address : option Address) : Value :=
  Object [(bstr "apiVersion", Text (bstr "networking.k8s.io/v1")); (bstr "kind", Text (bstr "Ingress"));
          (bstr "metadata", Object [(bstr "name", Text (ok_name key))]);
          (bstr "status", Object [(bstr "loadBalancer", Object [(bstr "ingress", status_entries address)])])].
Definition apply_params : PatchParams := MkPatchParams (Some FIELD_MANAGER) true.
Definition write (key : ObjectKey) (address : option Address) (a : A) : bool * A :=
  patch_status key apply_params (status_patch key address) a.

Definition clear_stale (st : StatusWriter * A) (key : ObjectKey) : StatusWriter * A :=
  let '(w, a) := st in
  match write key None a with
  | (true, a) => (w <| applied := delete key (applied w) |>, a)
  | (false, a) => (w, a)
  end.

Definition publish_one (address : option Address) (st : StatusWriter * A) (key : ObjectKey) : StatusWriter * A :=
  let '(w, a) := st in
  match address with
  | Some x =>
      if bool_decide (applied w !! key = Some x) then (w, a)
      else match write key (Some x) a with
           | (true, a) => (w <| applied := <[key := x]> (applied w) |>, a)
           | (false, a) => (w, a)
           end
  | None => (w, a)
  end.
Definition annotate_one (generation : u64) (observed : gmap ObjectKey u64) (st : StatusWriter * A) (key : ObjectKey)
    : StatusWriter * A :=
  let '(w, a) := st in
  if needs_annotation key generation observed (annotated w)
  then match annotate key generation a with
       | (true, a) => (w <| annotated := <[key := generation]> (annotated w) |>, a)
       | (false, a) => (w, a)
       end
  else (w, a).
Definition sync_one (address : option Address) (generation : u64) (observed : gmap ObjectKey u64)
    (st : StatusWriter * A) (key : ObjectKey) : StatusWriter * A :=
  annotate_one generation observed (publish_one address st key) key.

Definition stale (w : StatusWriter) (managed : list ObjectKey) : list ObjectKey :=
  List.filter (fun key => negb (bool_decide (key ∈ managed))) (map fst (map_iter (applied w))).

Definition status_sync (w : StatusWriter) (managed : list ObjectKey) (generation : u64)
    (observed : gmap ObjectKey u64) (a : A) : StatusWriter * A :=
  let '(address, a) := status_address w a in
  let '(w, a) := foldl clear_stale (w, a) (stale w managed) in
  let w := w <| annotated := filter (fun kv : ObjectKey * u64 => kv.1 ∈ managed) (annotated w) |> in
  foldl (sync_one address generation observed) (w, a) managed.
End writer.

(** ** What the API documents *)

(** Where a status patch keeps its entries, and a merge patch its annotations. *)
Definition patched_entries (p : Value) : option Value :=
  status ← value_get (bstr "status") p; lb ← value_get (bstr "loadBalancer") status; value_get (bstr "ingress") lb.
Definition patched_annotations (p : Value) : option Value :=
  metadata ← value_get (bstr "metadata") p; value_get (bstr "annotations") metadata.

(** A call that is refused may still have taken effect: the answer can be
    lost.  A merge patch sets the annotations it names and leaves the others;
    a forced apply of the status replaces the entries this manager owns. *)
Class KubeLaws (A : Type) `{KubeApi A} := {
  lb_ingress : A -> ObjectKey -> Value;
  api_annotations : A -> ObjectKey -> annotations;
  get_service_reads : forall namespace name a,
    lb_ingress (get_service namespace name a).2 = lb_ingress a /\
    api_annotations (get_service namespace name a).2 = api_annotations a;
  patch_status_applies : forall key ps p entries a,
    force ps = true -> field_manager ps = Some FIELD_MANAGER -> patched_entries p = Some entries ->
    let r := patch_status key ps p a in
    (lb_ingress r.2 key = entries \/ r.1 = false /\ lb_ingress r.2 key = lb_ingress a key) /\
    (forall k, k <> key -> lb_ingress r.2 k = lb_ingress a k) /\ api_annotations r.2 = api_annotations a;
  patch_merge_applies : forall key ps p fields a,
    force ps = false -> patched_annotations p = Some (Object (prod_map id Text <$> fields)) ->
    let r := patch_merge key ps p a in
    (api_annotations r.2 key = foldl (fun m kv => <[kv.1 := kv.2]> m) (api_annotations a key) fields \/
     r.1 = false /\ api_annotations r.2 key = api_annotations a key) /\
    (forall k, k <> key -> api_annotations r.2 k = api_annotations a k) /\ lb_ingress r.2 = lb_ingress a;
}.

(** States in which, and from which, every call is answered with success. *)
Record stays_up {A : Type} `{KubeApi A} (up : A -> Prop) : Prop := {
  up_get : forall namespace name a, up a -> up (get_service namespace name a).2;
  up_status : forall key ps p a, up a -> (patch_status key ps p a).1 = true /\ up (patch_status key ps p a).2;
  up_merge : forall key ps p a, up a -> (patch_merge key ps p a).1 = true /\ up (patch_merge key ps p a).2;
}.

Section laws.
Context {A : Type} `{KubeLaws A} `{HashOrder}.

(** What the writer remembers of the addresses is so. *)
Definition coherent (w : StatusWriter) (a : A) : Prop :=
  forall key x, applied w !! key = Some x -> lb_ingress a key = status_entries (Some x).

(** The one field [annotate] writes. *)
Lemma annotate_fields generation :
  patched_annotations (annotation_patch [(ANNOTATION_OBSERVED_GENERATION, to_string generation)]) =
  Some (Object (prod_map id Text <$> [(ANNOTATION_OBSERVED_GENERATION, to_string generation)])).
Proof.
  unfold annotation_patch. cbn [foldl fst snd]. unfold btree_iter. rewrite insert_empty, map_to_list_singleton. reflexivity.
Qed.

Context (up : A -> Prop) (Hup : stays_up up).

Lemma write_up key address a :
  up a ->
  exists a', write key address a = (true, a') /\ up a' /\ lb_ingress a' key = status_entries address /\
    (forall k, k <> key -> lb_ingress a' k = lb_ingress a k) /\ api_annotations a' = api_annotations a.
Proof.
  intros Ha. unfold write. destruct (up_status up Hup key apply_params (status_patch key address) a Ha) as [Hok Hu].
  destruct (patch_status_applies key apply_params (status_patch key address) (status_entries address) a eq_refl eq_refl eq_refl)
    as (Hl & Hf & Hn).
  destruct (patch_status _ _ _ _) as [ok a']. cbn in *. subst ok. exists a'. split_and!; auto. by destruct Hl as [?|[? _]].
Qed.

Lemma annotate_up key generation a :
  up a ->
  exists a', annotate key generation a = (true, a') /\ up a' /\ lb_ingress a' = lb_ingress a /\
    api_annotations a' key = <[ANNOTATION_OBSERVED_GENERATION := to_string generation]> (api_annotations a key) /\
    (forall k, k <> key -> api_annotations a' k = api_annotations a k).
Proof.
  intros Ha. unfold annotate, patch_ingress_annotations. set (p := annotation_patch _).
  destruct (up_merge up Hup key annotation_params p a Ha) as [Hok Hu].
  destruct (patch_merge_applies key annotation_params p _ a eq_refl (annotate_fields generation)) as (Hl & Hf & Hn).
  destruct (patch_merge _ _ _ _) as [ok a']. cbn in *. subst ok. exists a'. split_and!; auto. by destruct Hl as [?|[? _]].
Qed.

(** ** The two loops *)

(** A key of the list gets [x], another keeps what it has. *)
Definition hit_or {B : Type} (l : list ObjectKey) (k : ObjectKey) (x y : B) : B := if bool_decide (k ∈ l) then x else y.
Lemma hit_or_cons {B : Type} l j k (x y : B) : hit_or (j :: l) k x y = hit_or l k x (if bool_decide (k = j) then x else y).
Proof. unfold hit_or. repeat case_bool_decide; set_solver. Qed.

Lemma clear_stale_all l w a :
  up a ->
  let st := foldl clear_stale (w, a) l in
  up st.2 /\ st.1 = w <| applied := applied st.1 |> /\ api_annotations st.2 = api_annotations a /\
  forall k, applied st.1 !! k = hit_or l k None (applied w !! k) /\
    lb_ingress st.2 k = hit_or l k (status_entries None) (lb_ingress a k).
Proof.
  revert w a. induction l as [|j l IH]; intros w a Ha; cbn [foldl]; [by destruct w|].
  destruct (write_up j None a Ha) as (a' & Hw & Hu & Hj & Hf & Hn).
  assert (clear_stale (w, a) j = (w <| applied := delete j (applied w) |>, a')) as -> by (unfold clear_stale; by rewrite Hw).
  destruct (IH (w <| applied := delete j (applied w) |>) a' Hu) as (I1 & I2 & I3 & I4).
  split_and!; [done|by rewrite I2|congruence|]. intros k. destruct (I4 k) as [-> ->]. rewrite !hit_or_cons. cbn.
  case_bool_decide as Hk; [subst; by rewrite lookup_delete_eq, Hj|]. by rewrite lookup_delete_ne, Hf.
Qed.

Context (address : option Address) (generation : u64) (observed : gmap ObjectKey u64).

(** The address a managed Ingress ends up with. *)
Definition published_or {B : Type} (f : Address -> B) (y : B) : B := match address with Some x => f x | None => y end.

Lemma publish_one_up key w a :
  up a -> coherent w a ->
  let st := publish_one address (w, a) key in
  up st.2 /\ st.1 = w <| applied := applied st.1 |> /\ api_annotations st.2 = api_annotations a /\
  forall k, applied st.1 !! k = (if bool_decide (k = key) then published_or Some (applied w !! k) else applied w !! k) /\
    lb_ingress st.2 k =
      (if bool_decide (k = key) then published_or (fun x => status_entries (Some x)) (lb_ingress a k) else lb_ingress a k).
Proof.
  intros Ha Hc. unfold publish_one, published_or. destruct address as [x|].
  2: { split_and!; [done|by destruct w|done|]. intros k. by case_bool_decide. }
  case_bool_decide as Hx.
  { split_and!; [done|by destruct w|done|]. intros k. case_bool_decide as Hk; [|done]. subst. split; [done|by apply Hc]. }
  destruct (write_up key (Some x) a Ha) as (a' & -> & Hu & Hj & Hf & Hn). split_and!; [done|done|done|].
  intros k. cbn. case_bool_decide as Hk; [subst; by rewrite lookup_insert_eq|]. by rewrite lookup_insert_ne, Hf.
Qed.

Lemma annotate_one_up key w a :
  up a ->
  let st := annotate_one generation observed (w, a) key in
  up st.2 /\ st.1 = w <| annotated := annotated st.1 |> /\ lb_ingress st.2 = lb_ingress a /\
  forall k,
    annotated st.1 !! k =
      (if bool_decide (k = key) && needs_annotation k generation observed (annotated w) then Some generation
       else annotated w !! k) /\
    api_annotations st.2 k =
      (if bool_decide (k = key) && needs_annotation k generation observed (annotated w)
       then <[ANNOTATION_OBSERVED_GENERATION := to_string generation]> (api_annotations a k) else api_annotations a k).
Proof.
  intros Ha. unfold annotate_one. destruct (needs_annotation key generation observed (annotated w)) eqn:Hn.
  - destruct (annotate_up key generation a Ha) as (a' & -> & Hu & Hl & Hj & Hf). split_and!; [done..|].
    intros k. cbn. case_bool_decide as Hk; [subst; rewrite Hn; cbn; by rewrite lookup_insert_eq|].
    cbn. by rewrite lookup_insert_ne, Hf.
  - split_and!; [done|by destruct w|done|]. intros k. case_bool_decide as Hk; [subst; by rewrite Hn|done].
Qed.

Lemma sync_one_up key w a :
  up a -> coherent w a ->
  let st := sync_one address generation observed (w, a) key in
  let due := fun k => bool_decide (k = key) && needs_annotation k generation observed (annotated w) in
  up st.2 /\ coherent st.1 st.2 /\
  forall k,
    applied st.1 !! k = (if bool_decide (k = key) then published_or Some (applied w !! k) else applied w !! k) /\
    lb_ingress st.2 k =
      (if bool_decide (k = key) then published_or (fun x => status_entries (Some x)) (lb_ingress a k) else lb_ingress a k) /\
    annotated st.1 !! k = (if due k then Some generation else annotated w !! k) /\
    api_annotations st.2 k =
      (if due k then <[ANNOTATION_OBSERVED_GENERATION := to_string generation]> (api_annotations a k) else api_annotations a k).
Proof.
  intros Ha Hc. unfold sync_one.
  destruct (publish_one_up key w a Ha Hc) as (P1 & P2 & P3 & P4).
  destruct (publish_one address (w, a) key) as [w1 a1]. cbn [fst snd] in *.
  destruct (annotate_one_up key w1 a1 P1) as (Q1 & Q2 & Q3 & Q4).
  destruct (annotate_one generation observed (w1, a1) key) as [w2 a2]. cbn [fst snd] in *.
  assert (E1 : applied w2 = applied w1) by by rewrite Q2.
  assert (E2 : annotated w1 = annotated w) by by rewrite P2.
  assert (Hk : forall k, applied w2 !! k = (if bool_decide (k = key) then published_or Some (applied w !! k) else applied w !! k) /\
    lb_ingress a2 k = (if bool_decide (k = key) then published_or (fun x => status_entries (Some x)) (lb_ingress a k) else lb_ingress a k)).
  { intros k. rewrite E1, Q3. apply P4. }
  split_and!; [done| |].
  - intros k x. destruct (Hk k) as [-> ->]. unfold published_or. case_bool_decide; [|apply Hc].
    destruct address; [by intros [= ->]|apply Hc].
  - intros k. destruct (Hk k), (Q4 k) as [-> ->]. rewrite E2, P3. done.
Qed.

Lemma sync_all l w a :
  up a -> coherent w a ->
  let st := foldl (sync_one address generation observed) (w, a) l in
  let due := fun k => needs_annotation k generation observed (annotated w) in
  up st.2 /\ coherent st.1 st.2 /\
  forall k,
    applied st.1 !! k = hit_or l k (published_or Some (applied w !! k)) (applied w !! k) /\
    lb_ingress st.2 k = hit_or l k (published_or (fun x => status_entries (Some x)) (lb_ingress a k)) (lb_ingress a k) /\
    annotated st.1 !! k = hit_or l k (if due k then Some generation else annotated w !! k) (annotated w !! k) /\
    api_annotations st.2 k =
      hit_or l k (if due k then <[ANNOTATION_OBSERVED_GENERATION := to_string generation]> (api_annotations a k)
                  else api_annotations a k) (api_annotations a k).
Proof.
  revert w a. induction l as [|j l IH]; intros w a Ha Hc; cbn [foldl]; [done|].
  destruct (sync_one_up j w a Ha Hc) as (S1 & S2 & S3).
  destruct (sync_one address generation observed (w, a) j) as [w1 a1]. cbn [fst snd] in *.
  destruct (IH w1 a1 S1 S2) as (I1 & I2 & I3). split_and!; [done..|].
  intros k. destruct (I3 k) as (-> & -> & -> & ->), (S3 k) as (E1 & E2 & E3 & E4). rewrite !hit_or_cons.
  unfold needs_annotation. rewrite E1, E2, E3, E4. unfold hit_or, published_or, needs_annotation.
  repeat (case_bool_decide; subst; cbn; try done); destruct address; try done.
Qed.
End laws.

(** ** A whole pass *)

Section pass.
Context {A : Type} `{KubeLaws A} `{HashOrder}.

Lemma elem_of_stale w managed key : key ∈ stale w managed <-> key ∉ managed /\ is_Some (applied w !! key).
Proof.
  unfold stale. rewrite in_filter, negb_true_iff, bool_decide_eq_false, list_elem_of_fmap. split.
  - intros [([k x] & -> & Hx) Hk]. split; [done|]. rewrite map_iter_perm in Hx. apply elem_of_map_to_list in Hx. by eexists.
  - intros [Hk [x Hx]]. split; [|done]. exists (key, x). split; [done|]. rewrite map_iter_perm. by apply elem_of_map_to_list.
Qed.

Lemma status_address_reads w a :
  lb_ingress (status_address w a).2 = lb_ingress a /\ api_annotations (status_address w a).2 = api_annotations a.
Proof.
  unfold status_address. destruct (sw_publish_service w) as [[namespace name]|]; [|done].
  pose proof (get_service_reads namespace name a) as Hr. by destruct (get_service namespace name a) as [[s|] a'].
Qed.
Lemma status_address_up (up : A -> Prop) w a : stays_up up -> up a -> up (status_address w a).2.
Proof.
  intros Hup Ha. unfold status_address. destruct (sw_publish_service w) as [[namespace name]|]; [|done].
  pose proof (up_get up Hup namespace name a Ha) as Hg. by destruct (get_service namespace name a) as [[s|] a'].
Qed.

(** What one pass leaves behind while the API server answers: in the cluster,
    and in what the writer remembers. *)
Lemma status_sync_up (up : A -> Prop) w managed generation observed a :
  stays_up up -> up a -> coherent w a ->
  let address := (status_address w a).1 in
  let st := status_sync w managed generation observed a in
  up st.2 /\ coherent st.1 st.2 /\
  configured st.1 = configured w /\ sw_publish_service st.1 = sw_publish_service w /\
  forall k,
    applied st.1 !! k = hit_or managed k (published_or address Some (applied w !! k)) None /\
    annotated st.1 !! k =
      hit_or managed k (if needs_annotation k generation observed (annotated w) then Some generation else annotated w !! k) None /\
    lb_ingress st.2 k =
      hit_or managed k (published_or address (fun x => status_entries (Some x)) (lb_ingress a k))
        (if bool_decide (is_Some (applied w !! k)) then status_entries None else lb_ingress a k) /\
    api_annotations st.2 k =
      hit_or managed k (if needs_annotation k generation observed (annotated w)
                        then <[ANNOTATION_OBSERVED_GENERATION := to_string generation]> (api_annotations a k)
                        else api_annotations a k) (api_annotations a k).
Proof.
  intros Hup Ha Hc address st. subst address st. unfold status_sync.
  pose proof (status_address_up up w a Hup Ha) as Ha1. destruct (status_address_reads w a) as [Hl Hn].
  destruct (status_address w a) as [address a1]. cbn [fst snd] in *.
  destruct (clear_stale_all up Hup (stale w managed) w a1 Ha1) as (C1 & C2 & C3 & C4).
  destruct (foldl clear_stale _ _) as [w1 a2]. cbn [fst snd] in *.
  set (w2 := w1 <| annotated := _ |>).
  assert (Hc2 : coherent w2 a2).
  { intros k x. change (applied w2) with (applied w1). destruct (C4 k) as [-> ->]. rewrite Hl. unfold hit_or.
    case_bool_decide; [done|]. apply Hc. }
  assert (Hsame : configured w2 = configured w /\ sw_publish_service w2 = sw_publish_service w) by by unfold w2; rewrite C2.
  assert (Hann : forall k, annotated w2 !! k = hit_or managed k (annotated w !! k) None).
  { intros k. unfold w2. rewrite C2. cbn. unfold hit_or. case_bool_decide as Hk.
    - apply option_eq. intros g. rewrite map_lookup_filter_Some. cbn. tauto.
    - apply map_lookup_filter_None. by right. }
  destruct (sync_all up Hup address generation observed managed w2 a2 C1 Hc2) as (S1 & S2 & S3).
  assert (Hcf : forall l st, configured (foldl (sync_one address generation observed) st l).1 = configured st.1 /\
    sw_publish_service (foldl (sync_one address generation observed) st l).1 = sw_publish_service st.1).
  { induction l as [|j l IH]; intros [v b]; cbn [foldl]; [done|]. destruct (IH (sync_one address generation observed (v, b) j)) as [-> ->].
    unfold sync_one, publish_one, annotate_one. destruct address; repeat (case_match; simplify_eq; try done). }
  destruct (Hcf managed (w2, a2)) as [F1 F2]. destruct (foldl (sync_one _ _ _) _ _) as [w3 a3]. cbn [fst snd] in *.
  destruct Hsame as [<- <-]. split_and!; [done..|]. intros k. destruct (S3 k) as (-> & -> & -> & ->).
  change (applied w2) with (applied w1). destruct (C4 k) as [-> ->]. unfold needs_annotation.
  rewrite Hann, Hl, C3, Hn. unfold hit_or.
  pose proof (elem_of_stale w managed k) as Hst. repeat (case_bool_decide; try done); try tauto. split; [by apply eq_None_not_Some|done].
Qed.

(** Nothing is left to write. *)
Record settled (w : StatusWriter) (managed : list ObjectKey) (generation : u64) (observed : gmap ObjectKey u64)
    (address : option Address) : Prop := {
  se_applied : forall k, is_Some (applied w !! k) -> k ∈ managed;
  se_annotated : forall k, is_Some (annotated w !! k) -> k ∈ managed;
  se_written : forall k, k ∈ managed ->
    published_or address (fun x => applied w !! k = Some x) True /\ needs_annotation k generation observed (annotated w) = false;
}.

Lemma settled_quiet w managed generation observed a :
  settled w managed generation observed (status_address w a).1 ->
  status_sync w managed generation observed a = (w, (status_address w a).2).
Proof.
  intros [Happ Hann Hw]. unfold status_sync. destruct (status_address w a) as [address a1]. cbn [fst snd] in *.
  assert (stale w managed = []) as ->.
  { destruct (stale w managed) as [|k l] eqn:E; [done|]. destruct (proj1 (elem_of_stale w managed k)) as [Hk Hs]; [|by apply Happ in Hs].
    rewrite E. by left. }
  cbn [foldl]. rewrite map_filter_id.
  2: { intros k g Hk. cbn. apply Hann. by eexists. }
  replace (w <| annotated := annotated w |>) with w by by destruct w.
  assert (Hm : forall l, (forall k, k ∈ l -> k ∈ managed) -> foldl (sync_one address generation observed) (w, a1) l = (w, a1)).
  { induction l as [|k l IH]; intros Hl; cbn [foldl]; [done|]. destruct (Hw k) as [Hp Hn]; [apply Hl; by left|].
    assert (sync_one address generation observed (w, a1) k = (w, a1)) as ->; [|apply IH; intros j Hj; apply Hl; by right].
    unfold sync_one, publish_one, annotate_one. destruct address as [x|]; cbn in Hp.
    - rewrite (bool_decide_eq_true_2 _ Hp). by rewrite Hn.
    - by rewrite Hn. }
  by apply Hm.
Qed.

(** A pass that could write settles, as long as the objects keep the
    generations they carried. *)
Lemma status_sync_settles (up : A -> Prop) w managed generation observed observed' a :
  stays_up up -> up a -> coherent w a ->
  (forall k, k ∈ managed -> observed !! k = Some generation -> observed' !! k = Some generation) ->
  settled (status_sync w managed generation observed a).1 managed generation observed' (status_address w a).1.
Proof.
  intros Hup Ha Hc Hobs. destruct (status_sync_up up w managed generation observed a Hup Ha Hc) as (_ & _ & _ & _ & Hk).
  destruct (status_sync _ _ _ _ _) as [w1 a1]. cbn [fst snd] in *. split.
  - intros k [x Hx]. destruct (Hk k) as (E & _). rewrite E in Hx. revert Hx. unfold hit_or. by case_bool_decide.
  - intros k [x Hx]. destruct (Hk k) as (_ & E & _). rewrite E in Hx. revert Hx. unfold hit_or. by case_bool_decide.
  - intros k Hin. destruct (Hk k) as (E1 & E2 & _). rewrite E1. unfold needs_annotation in *. rewrite E2. unfold hit_or.
    rewrite !(bool_decide_eq_true_2 (k ∈ managed)) by done. split; [by destruct (status_address w a).1|].
    destruct (decide (observed !! k = Some generation)) as [Ho|Ho].
    + rewrite (bool_decide_eq_true_2 (observed' !! k = _)); [done|auto].
    + rewrite (bool_decide_eq_false_2 (observed !! k = _)) by done. apply andb_false_intro2, negb_false_iff, bool_decide_eq_true.
      clear E1 E2. cbn [negb andb]. case_bool_decide; [done|]. cbn. done.
Qed.

(** C23: The status writer converges and then is silent.  While the API server
    answers, one pass leaves every managed Ingress with the published address,
    takes it away from the ones that stopped being managed, touches no other
    Ingress's address, and writes one annotation, where the object does not
    carry the generation yet: every other annotation, a canary's weight among
    them, stays as it was.  A further pass over the same cluster sends no
    write, so our own patches coming back through the watch cannot loop. *)
Theorem status_settles (up : A -> Prop) w managed generation observed a
    (Hup : stays_up up) (Ha : up a) (Hc : coherent w a) :
  let address := (status_address w a).1 in
  let st := status_sync w managed generation observed a in
  (forall k x, k ∈ managed -> address = Some x -> lb_ingress st.2 k = status_entries (Some x)) /\
  (forall k, k ∉ managed -> is_Some (applied w !! k) -> lb_ingress st.2 k = status_entries None) /\
  (forall k, k ∉ managed -> applied w !! k = None -> lb_ingress st.2 k = lb_ingress a k) /\
  (forall k name, name <> ANNOTATION_OBSERVED_GENERATION \/ k ∉ managed ->
     api_annotations st.2 k !! name = api_annotations a k !! name) /\
  (forall k, k ∈ managed -> needs_annotation k generation observed (annotated w) = true ->
     api_annotations st.2 k !! ANNOTATION_OBSERVED_GENERATION = Some (to_string generation)) /\
  (forall observed', (status_address st.1 st.2).1 = address ->
     (forall k, k ∈ managed -> observed !! k = Some generation -> observed' !! k = Some generation) ->
     status_sync st.1 managed generation observed' st.2 = (st.1, (status_address st.1 st.2).2)).
Proof.
  cbv zeta. destruct (status_sync_up up w managed generation observed a Hup Ha Hc) as (_ & _ & _ & _ & Hk).
  split_and!.
  - intros k x Hin Hx. destruct (Hk k) as (_ & _ & -> & _). rewrite Hx. unfold hit_or. by rewrite bool_decide_eq_true_2.
  - intros k Hin Hx. destruct (Hk k) as (_ & _ & -> & _). unfold hit_or. by rewrite bool_decide_eq_false_2, bool_decide_eq_true_2.
  - intros k Hin Hx. destruct (Hk k) as (_ & _ & -> & _). unfold hit_or. rewrite Hx.
    rewrite bool_decide_eq_false_2, bool_decide_eq_false_2 by (done || by intros [? ?]). done.
  - intros k name Hn. destruct (Hk k) as (_ & _ & _ & ->). unfold hit_or. case_bool_decide; [|done].
    case_match; [|done]. rewrite lookup_insert_ne; [done|]. destruct Hn; congruence.
  - intros k Hin Hn. destruct (Hk k) as (_ & _ & _ & ->). unfold hit_or. rewrite bool_decide_eq_true_2, Hn by done.
    by rewrite lookup_insert_eq.
  - intros observed' Hadd Hobs. apply settled_quiet. rewrite Hadd. by apply (status_sync_settles up).
Qed.
End pass.

(** ** A small API server

    Its answers are scripted: an accepted write, a refused one, and one that
    took effect but whose answer was lost. *)

Inductive Verdict := Accepted | Refused | Lost.
Record ApiServer := MkApiServer {
  as_lb : gmap ObjectKey Value;
  as_annotations : gmap ObjectKey annotations;
  as_service : option (option ServiceStatus);
  as_script : list Verdict;
}.
Definition answer (f : ApiServer -> ApiServer) (a : ApiServer) : bool * ApiServer :=
  let rest := MkApiServer (as_lb a) (as_annotations a) (as_service a) (tail (as_script a)) in
  match as_script a with
  | [] | Accepted :: _ => (true, f rest)
  | Refused :: _ => (false, rest)
  | Lost :: _ => (false, f rest)
  end.
Definition set_entries (key : ObjectKey) (p : Value) (a : ApiServer) : ApiServer :=
  match patched_entries p with
  | Some e => MkApiServer (<[key := e]> (as_lb a)) (as_annotations a) (as_service a) (as_script a)
  | None => a
  end.
Definition merge_field (m : annotations) (field : str * Value) : annotations :=
  match field.2 with Text v => <[field.1 := v]> m | _ => m end.
Definition merge_annotations (key : ObjectKey) (p : Value) (a : ApiServer) : ApiServer :=
  match patched_annotations p with
  | Some (Object fields) =>
      MkApiServer (as_lb a) (<[key := foldl merge_field (default ∅ (as_annotations a !! key)) fields]> (as_annotations a))
        (as_service a) (as_script a)
  | _ => a
  end.
#[export] Instance demo_api : KubeApi ApiServer := {|
  get_service _ _ a := (as_service a, a);
  patch_status key _ p a := answer (set_entries key p) a;
  patch_merge key _ p a := answer (merge_annotations key p) a;
|}.

Lemma merge_fields fields m :
  foldl merge_field m (prod_map id Text <$> fields) = foldl (fun m kv => <[kv.1 := kv.2]> m) m fields.
Proof. revert m. by induction fields as [|[n v] l IH]; intros m; cbn; [|rewrite IH]. Qed.

#[export, program] Instance demo_laws : KubeLaws ApiServer := {|
  lb_ingress a k := default (Array []) (as_lb a !! k);
  api_annotations a k := default ∅ (as_annotations a !! k);
|}.
Next Obligation. done. Qed.
Next Obligation.
  intros key ps p entries a _ _ Hp. cbn. unfold answer, set_entries. rewrite Hp.
  destruct (as_script a) as [|[] l]; cbn; split_and!; try done; try (by right; auto);
    try (by left; rewrite lookup_insert_eq); intros k Hk; by rewrite lookup_insert_ne.
Qed.
Next Obligation.
  intros key ps p fields a _ Hp. cbn. unfold answer, merge_annotations. rewrite Hp. rewrite merge_fields.
  destruct (as_script a) as [|[] l]; cbn; split_and!; try done; try (by right; auto);
    try (by left; rewrite lookup_insert_eq); intros k Hk; by rewrite lookup_insert_ne.
Qed.

Definition script_over (a : ApiServer) : Prop := as_script a = [].
Lemma demo_stays_up : stays_up script_over.
Proof.
  unfold script_over. split; [done|intros key ps p a Ha..]; cbn; unfold answer; rewrite Ha; cbn; (split; [done|]).
  - unfold set_entries. by case_match.
  - unfold merge_annotations. by repeat case_match.
Qed.

(** Two Ingresses, one of them ours no longer; the Service publishes a name. *)
Definition web_key : ObjectKey := MkObjectKey (bstr "prod") (bstr "web").
Definition old_key : ObjectKey := MkObjectKey (bstr "prod") (bstr "old").
Definition demo_service : option (option ServiceStatus) :=
  Some (Some (MkServiceStatus (Some (MkLoadBalancerStatus (Some [MkLoadBalancerIngress None (Some (bstr "lb.example.com"))]))))).
Definition demo_writer : StatusWriter :=
  MkStatusWriter (Some (Ip (bstr "203.0.113.10"))) (Some (bstr "kube-system", bstr "ramjet"))
    {[old_key := Ip (bstr "203.0.113.10")]} ∅.
Definition canary_weight : annotations := {[bstr "nginx.ingress.kubernetes.io/canary-weight" := bstr "60"]}.
Definition demo_server : ApiServer :=
  MkApiServer {[old_key := status_entries (Some (Ip (bstr "203.0.113.10")))]} {[web_key := canary_weight]} demo_service [].
Definition demo_pass : StatusWriter * ApiServer :=
  @status_sync _ _ listed_order demo_writer [web_key] 11 ∅ demo_server.

Lemma status_settles_witness :
  lb_ingress demo_pass.2 web_key = status_entries (Some (Hostname (bstr "lb.example.com"))) /\
  lb_ingress demo_pass.2 old_key = status_entries None /\
  api_annotations demo_pass.2 web_key !! bstr "nginx.ingress.kubernetes.io/canary-weight" = Some (bstr "60") /\
  api_annotations demo_pass.2 web_key !! ANNOTATION_OBSERVED_GENERATION = Some (bstr "11") /\
  @status_sync _ _ listed_order demo_pass.1 [web_key] 11 ∅ demo_pass.2 = demo_pass.
Proof.
  assert (Hc : coherent demo_writer demo_server).
  { intros k x. unfold demo_writer, demo_server. cbn. intros [<- <-]%lookup_singleton_Some. vm_compute. reflexivity. }
  destruct (@status_settles _ _ _ listed_order script_over demo_writer [web_key] 11 ∅ demo_server demo_stays_up eq_refl Hc)
    as (Hp & Hs & _ & Ho & Hg & Hq).
  split_and!.
  - apply Hp; [by left|vm_compute; reflexivity].
  - apply Hs; [by intros [[=]|Hn%elem_of_nil]%elem_of_cons|]. exists (Ip (bstr "203.0.113.10")). vm_compute. reflexivity.
  - unfold demo_pass. rewrite Ho; [vm_compute; reflexivity|left; by intros Hn%(f_equal (@length Z))].
  - apply Hg; [by left|vm_compute; reflexivity].
  - unfold demo_pass at 1 2. rewrite Hq; [vm_compute; reflexivity|vm_compute; reflexivity|done].
Defined.

(** What a lost answer leaves: the write of a new address took effect, but the
    writer still remembers the one before it, and when the configured address
    returns to that it sends nothing. *)
Definition new_address (x : Address) (w : StatusWriter) : StatusWriter := MkStatusWriter (Some x) None (applied w) (annotated w).
Example lost_answer_lingers :
  let a := Ip (bstr "203.0.113.1") in
  let b := Ip (bstr "203.0.113.2") in
  let pass x st := @status_sync _ _ listed_order (new_address x st.1) [web_key] 1 {[web_key := 1]} st.2 in
  let st := (MkStatusWriter None None ∅ ∅, MkApiServer ∅ ∅ None [Accepted; Lost]) in
  lb_ingress (pass a (pass b (pass a st))).2 web_key = status_entries (Some b).
Proof. vm_compute. reflexivity. Qed.
