(* ===== verification/Rebuild.v ===== *)
(** The rebuild loop of the controller:
    [crates/ramjet-controller/src/watch.rs].

    [rebuild] compiles a snapshot, tells the authors of refused values,
    publishes when the digest changed and writes status; [loop_turn] is one
    turn of [rebuild_loop].  The watches, the debounce timer and the channel
    are the runtime's: a turn gives the configuration it sends, if any. *)

From S2P Require Import Prelude Order Hosts RouterTypes Annotations Config NetText F64 Canary Paths Stats Backends Table Builder Cluster Endpoints Secrets Plans Translate Totality Diagnostics Json Status.

(** ** The loop *)

Section loop.
Context `{RegexEngine, HashOrder} (regex_error_text : RegexError -> str).
Context {A : Type} `{KubeApi A}.

(** What [rebuild_loop] keeps between turns, and the counters the tables share. *)
Record Controller := MkController {
  ct_status : option StatusWriter;
  ct_warnings : gmap ObjectKey Z;
  ct_current : option CompiledConfig;
  ct_published_digest : option u64;
  ct_heap : Heap;
  ct_routes : RouteStore;
}.

(** The channel is seeded with an empty table. *)
Definition controller_new (opts : ControllerOpts) (seed : CompiledConfig) (h : Heap) (store : RouteStore) : Controller :=
  MkController (StatusWriter_new opts) events_new (Some seed) None h store.

(** What one turn did to the outside: the configuration sent, the Events
    written, and the API server after it. *)
Record Rebuilt := MkRebuilt {
  rb_controller : Controller;
  rb_sent : option CompiledConfig;
  rb_events : list Event;
  rb_api : A;
}.

Definition compiled_generation (current : option CompiledConfig) : u64 :=
  match current with Some config => generation (config_table config) | None => 0 end.

(** The publication: nothing when the digest is the one published. *)
Definition publish (tr : Translation) (c : Controller) (h : Heap) (store : RouteStore)
    : option CompiledConfig * Controller :=
  if bool_decide (ct_published_digest c = Some (tr_digest tr))
  then (None, MkController (ct_status c) (ct_warnings c) (ct_current c) (ct_published_digest c) h store)
  else (Some (tr_config tr),
        MkController (ct_status c) (ct_warnings c) (Some (tr_config tr)) (Some (tr_digest tr)) h store).

Definition rebuild (opts : ControllerOpts) (snapshot : ClusterSnapshot) (c : Controller) (a : A) : Rebuilt :=
  match translate regex_error_text snapshot opts (config_table <$> ct_current c) (ct_heap c) (ct_routes c) with
  | Err _ => MkRebuilt c None [] a
  | Ok (tr, h, store) =>
      let '(events, warnings) := sync (ct_warnings c) (tr_warnings tr) snapshot in
      let '(sent, c) := publish tr c h store in
      let '(status, a) :=
        match ct_status c with
        | Some w =>
            let '(w, a) := status_sync w (tr_managed tr) (compiled_generation (ct_current c))
                             (observed_generations snapshot) a in
            (Some w, a)
        | None => (None, a)
        end in
      MkRebuilt (MkController status warnings (ct_current c) (ct_published_digest c) (ct_heap c) (ct_routes c))
        sent events a
  end.

(** One turn: [resynced] is the flag a restarted watch set. *)
Definition loop_turn (opts : ControllerOpts) (resynced : bool) (snapshot : ClusterSnapshot) (c : Controller) (a : A)
    : Rebuilt :=
  let c :=
    if resynced
    then MkController (status_invalidate <$> ct_status c) (invalidate (ct_warnings c)) (ct_current c)
           (ct_published_digest c) (ct_heap c) (ct_routes c)
    else c in
  rebuild opts snapshot c a.
End loop.
Arguments MkController {_} _ _ _ _ _ _.
Arguments MkRebuilt {_ A} _ _ _ _.

(** ** What a translation takes from the table before it

    Only the generation it counts from and the counters it carries over. *)

Section relabel.
Context `{RegexEngine, HashOrder} (regex_error_text : RegexError -> str).
Context (g : u64) (ps : option BackendStats) (pr : option RouteStats).

Definition relabel (b : RouteTableBuilder) : RouteTableBuilder :=
  MkBuilder g ps pr (b_backends b) (b_backend_ids b) (b_routes b) (b_default_backend b) (b_tls_exact b)
    (b_tls_wildcard b) (b_tls_default b).
Definition redraw (st : Draftsman) : Draftsman := MkDraftsman (relabel (dm_builder st)) (dm_digest st).
Definition redraft (d : Draft) : Draft :=
  MkDraft (relabel (dr_builder d)) (dr_certs d) (dr_promotions d) (dr_digest d) (dr_managed d).

Lemma redraw_mk b d : redraw (MkDraftsman b d) = MkDraftsman (relabel b) d.
Proof. done. Qed.

(** The maps of the two monads. *)
Definition lmap {X Y : Type} (f : X -> Y) (m : Logged X) : Logged Y := MkLogged (logged m) (f (value m)).
Definition rmap {E X Y : Type} (f : X -> Y) (r : result E X) : result E Y :=
  match r with Ok x => Ok (f x) | Err e => Err e end.

Lemma logged_eq {X : Type} (m m' : Logged X) : logged m = logged m' -> value m = value m' -> m = m'.
Proof. by destruct m, m'; cbn; intros -> ->. Qed.
Lemma lmap_bind {X Y Z : Type} (f : Y -> Z) (m : Logged X) (k : X -> Logged Y) : lmap f (m ≫= k) = m ≫= (fun x => lmap f (k x)).
Proof. done. Qed.
Lemma bind_lmap {X Y Z : Type} (f : X -> Y) (m : Logged X) (k : Y -> Logged Z) : lmap f m ≫= k = m ≫= (fun x => k (f x)).
Proof. done. Qed.
Lemma lmap_mret {X Y : Type} (f : X -> Y) x : lmap f (mret x) = mret (f x).
Proof. done. Qed.
Lemma each_lmap {S S' X : Type} (re : S -> S') (f : S -> X -> Logged S) (f' : S' -> X -> Logged S') s l :
  (forall s x, f' (re s) x = lmap re (f s x)) -> each f' (re s) l = lmap re (each f s l).
Proof.
  intros Hf. revert s. induction l as [|x l IH]; intros s; cbn [each]; [done|]. rewrite Hf, lmap_bind, bind_lmap.
  apply bind_ext. apply IH.
Qed.

Lemma relabel_backend_with b name eps options :
  backend_with (relabel b) name eps options = rmap (prod_map id relabel) (backend_with b name eps options).
Proof. unfold backend_with. cbn. by case_match. Qed.
Lemma relabel_route_with b host path pt backend options :
  route_with (relabel b) host path pt backend options = rmap relabel (route_with b host path pt backend options).
Proof. rewrite !route_with_draft. by destruct (options_draft _ _ _ _ _). Qed.
Lemma relabel_certificate b host key : certificate (relabel b) host key = rmap relabel (certificate b host key).
Proof. unfold certificate. destruct (normalize_config_host host) as [[]|]; done. Qed.

Lemma redraw_backends index opts st l :
  register_backend_list index opts (redraw st) l = lmap (rmap redraw) (register_backend_list index opts st l).
Proof.
  revert st. induction l as [|[target protocol] l IH]; intros st; cbn [register_backend_list]; [done|].
  assert (register_one_backend index opts (redraw st) target protocol =
    lmap (rmap redraw) (register_one_backend index opts st target protocol)) as ->.
  { unfold register_one_backend. rewrite lmap_bind. apply bind_ext. cbn [redraw dm_builder dm_digest].
    rewrite relabel_backend_with. by destruct (backend_with _ _ _ _) as [[]|]. }
  rewrite lmap_bind, bind_lmap. apply bind_ext. destruct (value (register_one_backend _ _ _ _ _)) as [st'|]; cbn; [apply IH|done].
Qed.

Lemma redraw_route st plan :
  register_route regex_error_text (redraw st) plan = lmap redraw (register_route regex_error_text st plan).
Proof.
  unfold register_route, add_route. cbv zeta. cbn [redraw dm_builder dm_digest].
  match goal with |- ?m ≫= ?k = lmap redraw (?m' ≫= ?k') => assert (m = lmap (rmap relabel) m') as -> end.
  - rewrite relabel_route_with. destruct (route_with (dm_builder st) _ _ _ _ (plan_options plan)) as [b|e]; [done|].
    cbn [rmap]. rewrite !lmap_bind. apply bind_ext. cbv beta. apply bind_ext. cbv beta.
    by rewrite relabel_route_with.
  - rewrite lmap_bind, bind_lmap. apply bind_ext. cbv beta. destruct (value _) as [b|e]; cbn [rmap]; [done|]. by rewrite lmap_bind.
Qed.

Lemma redraw_host st entry :
  register_host regex_error_text (redraw st) entry = lmap redraw (register_host regex_error_text st entry).
Proof.
  destruct entry as [host [id owner]]. unfold register_host. cbn [redraw dm_builder dm_digest].
  rewrite relabel_certificate. cbv zeta. destruct (certificate (dm_builder st) host (MkCertifiedKeyHandle id)); cbn [rmap].
  - by rewrite lmap_mret, redraw_mk.
  - rewrite lmap_bind. apply bind_ext. cbv beta. by rewrite lmap_mret, redraw_mk.
Qed.

Lemma redraw_certificates snapshot opts managed st :
  register_certificates regex_error_text snapshot opts managed (redraw st) =
  lmap (prod_map redraw id) (register_certificates regex_error_text snapshot opts managed st).
Proof.
  unfold register_certificates. rewrite lmap_bind. apply bind_ext.
  rewrite (each_lmap redraw (register_host regex_error_text)) by apply redraw_host. rewrite lmap_bind, bind_lmap. apply bind_ext.
  set (st1 := value (each _ _ _)). clearbody st1.
  assert (Hd : forall ms, register_default_certificate (secret_index (secrets snapshot)) opts (redraw st1) ms =
    lmap (prod_map redraw id) (register_default_certificate (secret_index (secrets snapshot)) opts st1 ms)).
  { intros ms. unfold register_default_certificate. destruct (default_tls_secret opts) as [reference|]; [|done].
    destruct (split_once _ _) as [[namespace name]|]; [|done]. destruct (material _ _ _) as [m|issue]; [|done].
    rewrite lmap_mret. unfold prod_map. cbn [fst snd]. by rewrite redraw_mk. }
  rewrite Hd, lmap_bind, bind_lmap. apply bind_ext. by destruct (value (register_default_certificate _ _ _ _)).
Qed.

Lemma redraft_managed snapshot opts previous previous' managed :
  (match previous' with Some table => from_previous table | None => builder_new end =
   relabel (match previous with Some table => from_previous table | None => builder_new end)) ->
  translate_managed regex_error_text snapshot opts previous' managed =
  lmap (rmap redraft) (translate_managed regex_error_text snapshot opts previous managed).
Proof.
  intros Hb. unfold translate_managed. rewrite Hb, lmap_bind. apply bind_ext.
  destruct (value (plan_routes managed)) as [routes gd]. cbv zeta. rewrite lmap_bind. apply bind_ext. cbv beta.
  set (bs := value (collect_backends _ _)). clearbody bs.
  set (b0 := match previous with Some table => _ | None => _ end). clearbody b0.
  unfold register_backends. rewrite <- redraw_mk, redraw_backends, lmap_bind, bind_lmap. apply bind_ext. cbv beta.
  destruct (value (register_backend_list _ _ _ _)) as [st|e]; cbn [rmap]; [|done].
  unfold register_routes. rewrite (each_lmap redraw (register_route regex_error_text)) by apply redraw_route. rewrite lmap_bind, bind_lmap. apply bind_ext.
  cbv beta. set (st1 := value (each _ _ _)). clearbody st1. cbn [redraw dm_builder dm_digest].
  set (d := digest_opt_str _ _). clearbody d.
  set (def := match gd with Some (r, _) => Some r | None => _ end).
  assert ((match def with Some target => set_default_backend (relabel (dm_builder st1)) (Config.backend_name target)
           | None => relabel (dm_builder st1) end) =
          relabel (match def with Some target => set_default_backend (dm_builder st1) (Config.backend_name target)
           | None => dm_builder st1 end)) as -> by by destruct def.
  rewrite <- redraw_mk, redraw_certificates, lmap_bind, bind_lmap. apply bind_ext.
  destruct (value (register_certificates _ _ _ _ _)) as [st2 certs]. cbn [prod_map fst snd id redraw dm_digest].
  unfold prod_map. cbn [fst snd id dm_digest redraw dm_builder].
  rewrite lmap_bind. apply bind_ext. by destruct (value (collect_promotions _ _ _)).
Qed.
End relabel.

(** So the digest, the certificates, the promotions, the managed list and the
    warnings of a translation are the cluster's alone. *)
Lemma translate_managed_previous `{RegexEngine, HashOrder} (regex_error_text : RegexError -> str) snapshot opts previous
    previous' managed :
  exists g ps pr,
    translate_managed regex_error_text snapshot opts previous' managed =
    lmap (rmap (redraft g ps pr)) (translate_managed regex_error_text snapshot opts previous managed).
Proof.
  set (b0 := match previous' with Some table => from_previous table | None => builder_new end).
  exists (b_generation b0), (b_previous b0), (b_previous_routes b0). apply redraft_managed. by destruct previous, previous'.
Qed.

(** ** Our own annotation is invisible

    No parser of a translation reads the generation the status writer stamps,
    so stamping an Ingress changes nothing that is compiled. *)

Definition unstamp (i : Ingress) : Ingress :=
  let m := ing_meta i in
  MkIngress
    (MkObjectMeta (m_namespace m) (m_name m) (m_generate_name m)
       (delete ANNOTATION_OBSERVED_GENERATION (m_annotations m)) (m_labels m) (m_creation m) (m_uid m))
    (ing_spec i).
Definition unstamped (s : ClusterSnapshot) : ClusterSnapshot :=
  MkClusterSnapshot (map unstamp (ingresses s)) (ingress_classes s) (services s) (endpoint_slices s) (secrets s).

Section unstamp.
Context `{RegexEngine, HashOrder} (regex_error_text : RegexError -> str).
Implicit Types (a : annotations).
Local Abbreviation strip a := (delete ANNOTATION_OBSERVED_GENERATION a) (only parsing).

Ltac other_key := rewrite !lookup_delete_ne by (intros [=]).
Lemma strip_get_trimmed a key :
  key <> ANNOTATION_OBSERVED_GENERATION -> get_trimmed (strip a) key = get_trimmed a key.
Proof. intros Hk. unfold get_trimmed. by rewrite lookup_delete_ne. Qed.
Lemma strip_setting {X : Type} a key (parse : str -> option X) d :
  key <> ANNOTATION_OBSERVED_GENERATION -> setting (strip a) key parse d = setting a key parse d.
Proof. intros Hk. unfold setting. by rewrite strip_get_trimmed. Qed.
Lemma strip_canary_parse a : canary_parse (strip a) = canary_parse a.
Proof. unfold canary_parse, canary_number. by other_key. Qed.
Lemma strip_mirror_parse a : mirror_parse (strip a) = mirror_parse a.
Proof. unfold mirror_parse. by rewrite !strip_get_trimmed by (intros [=]). Qed.
Lemma strip_protocol_parse a : backend_protocol_parse (strip a) = backend_protocol_parse a.
Proof. unfold backend_protocol_parse. by rewrite !strip_get_trimmed by (intros [=]). Qed.
Lemma strip_promotion_parse a : promotion_parse (strip a) = promotion_parse a.
Proof.
  unfold promotion_parse. rewrite !strip_setting, !strip_get_trimmed by (intros [=]). done.
Qed.
Lemma unstamp_classify f i : classify f (unstamp i) = classify f i.
Proof. unfold classify. cbn. by other_key. Qed.
Lemma unstamp_key i : key_of (ing_meta (unstamp i)) = key_of (ing_meta i).
Proof. done. Qed.

Lemma each_map {S X Y : Type} (f : S -> Y -> Logged S) (k : X -> Y) s l :
  each f s (map k l) = each (fun s x => f s (k x)) s l.
Proof. revert s. induction l as [|x l IH]; intros s; [done|]. cbn [map each]. apply bind_ext, IH. Qed.
Lemma filter_map_comm {X Y : Type} (p : Y -> bool) (k : X -> Y) l :
  List.filter p (map k l) = map k (List.filter (fun x => p (k x)) l).
Proof. induction l as [|x l IH]; [done|]. cbn. destruct (p (k x)); cbn; by rewrite IH. Qed.
Lemma filter_same {X : Type} (p q : X -> bool) l : (forall x, p x = q x) -> List.filter p l = List.filter q l.
Proof. intros Hp. by apply filter_ext_in. Qed.

Lemma unstamp_select_managed s opts :
  select_managed (unstamped s) opts = lmap (map unstamp) (select_managed s opts).
Proof.
  unfold select_managed. cbv zeta. cbn [unstamped ingresses ingress_classes].
  set (f := class_filter _ _). rewrite each_map.
  change (@nil Ingress) with (map unstamp []) at 1. rewrite (each_lmap (map unstamp) (select_one f)).
  - rewrite lmap_bind, bind_lmap. apply bind_ext. rewrite lmap_mret. by rewrite sort_by_map.
  - intros acc i. unfold select_one. rewrite unstamp_classify, unstamp_key.
    destruct (classify f i); rewrite ?lmap_bind, ?lmap_mret, ?map_app; done.
Qed.

Lemma unstamp_mirror_plan a namespace owner protocol :
  mirror_plan (strip a) namespace owner protocol = mirror_plan a namespace owner protocol.
Proof. unfold mirror_plan. by rewrite strip_mirror_parse. Qed.
Lemma unstamp_backend_protocol a owner : backend_protocol (strip a) owner = backend_protocol a owner.
Proof. unfold backend_protocol. by rewrite strip_protocol_parse. Qed.
Lemma unstamp_plan_ingress st i : plan_ingress st (unstamp i) = plan_ingress st i.
Proof.
  unfold plan_ingress. cbv zeta. cbn [unstamp ing_meta ing_spec m_annotations m_namespace m_name].
  destruct (ing_spec i) as [spec|]; [|done]. rewrite unstamp_backend_protocol. apply bind_ext.
  by rewrite unstamp_mirror_plan.
Qed.
Lemma unstamp_attach_canary routes i c : attach_canary routes (unstamp i, c) = attach_canary routes (i, c).
Proof.
  unfold attach_canary. cbv zeta. cbn [unstamp ing_meta ing_spec m_annotations m_namespace m_name].
  by rewrite unstamp_backend_protocol, strip_mirror_parse.
Qed.
Lemma unstamp_with_canary i : with_canary (unstamp i) = prod_map unstamp id (with_canary i).
Proof. unfold with_canary, prod_map. cbn. by rewrite strip_canary_parse. Qed.
Lemma unstamp_is_canary i : is_canary (unstamp i) = is_canary i.
Proof. unfold is_canary. by rewrite unstamp_with_canary. Qed.

Lemma unstamp_productions l : productions (map unstamp l) = map unstamp (productions l).
Proof. unfold productions. rewrite filter_map_comm. f_equal. apply filter_same. intros i. by rewrite unstamp_is_canary. Qed.
Lemma unstamp_canaries l : canaries (map unstamp l) = map (prod_map unstamp id) (canaries l).
Proof.
  unfold canaries. rewrite filter_map_comm, (filter_same (fun x => is_canary (unstamp x)) is_canary) by apply unstamp_is_canary.
  rewrite !map_map. apply map_ext, unstamp_with_canary.
Qed.

Lemma unstamp_plan_routes l : plan_routes (map unstamp l) = plan_routes l.
Proof.
  unfold plan_routes. rewrite unstamp_productions, unstamp_canaries, each_map.
  rewrite (each_ext _ plan_ingress) by (intros; apply unstamp_plan_ingress). apply bind_ext. cbv beta.
  rewrite each_map. rewrite (each_ext _ attach_canary); [done|]. intros s [i c] _. apply unstamp_attach_canary.
Qed.

Lemma unstamp_register_certificates s opts l st :
  register_certificates regex_error_text (unstamped s) opts (map unstamp l) st =
  register_certificates regex_error_text s opts l st.
Proof. unfold register_certificates, plan_certificates. cbn [unstamped secrets]. by rewrite each_map. Qed.

Lemma unstamp_collect_promotions cs routes d :
  collect_promotions (map (prod_map unstamp id) cs) routes d = collect_promotions cs routes d.
Proof.
  unfold collect_promotions. rewrite each_map. rewrite (each_ext _ (collect_promotion routes)); [done|].
  intros [targets d'] [i c] _. unfold collect_promotion. cbn [prod_map fst snd id unstamp ing_meta m_annotations m_uid].
  by rewrite strip_promotion_parse.
Qed.

Lemma unstamp_translate_managed s opts previous l :
  translate_managed regex_error_text (unstamped s) opts previous (map unstamp l) =
  translate_managed regex_error_text s opts previous l.
Proof.
  unfold translate_managed. rewrite unstamp_plan_routes. apply bind_ext. destruct (value (plan_routes l)) as [routes gd].
  cbv zeta. apply bind_ext. apply bind_ext. cbn [unstamped services endpoint_slices].
  destruct (value (register_backends _ _ _ _)) as [st|]; [|done]. apply bind_ext. rewrite unstamp_register_certificates.
  apply bind_ext. destruct (value (register_certificates _ _ _ _ _)) as [st2 certs].
  rewrite unstamp_canaries, unstamp_collect_promotions. apply bind_ext.
  destruct (value (collect_promotions _ _ _)) as [promotions d]. by rewrite map_map.
Qed.

Lemma unstamp_translate_draft s opts previous :
  translate_draft regex_error_text (unstamped s) opts previous = translate_draft regex_error_text s opts previous.
Proof.
  unfold translate_draft. rewrite unstamp_select_managed, bind_lmap. apply bind_ext. apply unstamp_translate_managed.
Qed.
End unstamp.

(** ** Two deliveries of one cluster *)

(** One cluster, delivered in another order and stamped by us differently. *)
Definition same_but_ours (s s' : ClusterSnapshot) : Prop := same_cluster (unstamped s) (unstamped s').

Lemma unstamped_keys l : map (fun i => key_of (ing_meta i)) (map unstamp l) = map (fun i => key_of (ing_meta i)) l.
Proof. rewrite map_map. by apply map_ext. Qed.
Lemma names_unique_unstamped s : names_unique s -> names_unique (unstamped s).
Proof. intros [Hi Hs Hk]. split; [|done..]. unfold unique_names. cbn [unstamped ingresses]. by rewrite unstamped_keys. Qed.

Lemma inputs_valid_same s s' opts : same_but_ours s s' -> inputs_valid s opts -> inputs_valid s' opts.
Proof.
  intros [Hi _ _ _ _] [Hv Hd]. split; [|done]. cbn [unstamped ingresses] in Hi.
  assert (Hu : forall l, Forall ingress_valid (map unstamp l) <-> Forall ingress_valid l).
  { intros l. rewrite Forall_map. apply Forall_iff. intros i. split; intros [Hn Hp]; by split. }
  rewrite <- Hu, <- Hi, Hu. exact Hv.
Qed.

Section same.
Context {E : RegexEngine} (H1 H2 : HashOrder) (regex_error_text : RegexError -> str).

(** The same draft, but for where its builder counts from. *)
Lemma translate_draft_same s s' opts previous previous' :
  names_unique s -> same_but_ours s s' ->
  exists g ps pr,
    value (@translate_draft E H2 regex_error_text s' opts previous') =
      rmap (redraft g ps pr) (value (@translate_draft E H1 regex_error_text s opts previous)) /\
    logged (@translate_draft E H2 regex_error_text s' opts previous') ≡ₚ
      logged (@translate_draft E H1 regex_error_text s opts previous).
Proof.
  intros Hn Hs.
  destruct (translate_draft_perm E H1 H2 regex_error_text (unstamped s) (unstamped s') opts previous'
    (names_unique_unstamped s Hn) Hs) as [Hv Hl].
  rewrite !unstamp_translate_draft in Hv, Hl.
  destruct (@translate_managed_previous E H1 regex_error_text s opts previous previous' (value (select_managed s opts)))
    as (g & ps & pr & Hp).
  exists g, ps, pr. rewrite <- Hv, <- Hl. unfold translate_draft. rewrite !value_bind, !logged_bind, Hp. done.
Qed.
End same.

Lemma uid_index_same s s' : names_unique s -> same_but_ours s s' -> uid_index s = uid_index s'.
Proof.
  intros Hn [Hi _ _ _ _]. apply names_unique_unstamped in Hn as [Hu _ _]. unfold uid_index.
  set (f := fun (m : gmap ObjectKey str) i =>
    match m_uid (ing_meta i) with Some uid => <[key_of (ing_meta i) := uid]> m | None => m end).
  assert (Hst : forall l m, foldl f m (map unstamp l) = foldl f m l).
  { intros l m. rewrite foldl_map. by apply foldl_ext. }
  rewrite <- (Hst (ingresses s)), <- (Hst (ingresses s')). cbn [unstamped ingresses] in *.
  generalize (∅ : gmap ObjectKey str) as m. unfold unique_names in Hu. revert Hu.
  induction Hi as [|i l l' Hp IH|i j l|l l' l'' Hp IH Hp' IH']; intros Hu m; cbn [map foldl] in *; [done| | |].
  - apply NoDup_cons in Hu as [_ Hu]. by apply IH.
  - apply NoDup_cons in Hu as [Hij _]. f_equal. unfold f.
    destruct (m_uid (ing_meta i)) as [u|], (m_uid (ing_meta j)) as [v|]; try done.
    apply insert_insert_ne. intros He. apply Hij. rewrite He. by left.
  - rewrite IH by done. apply IH'. by rewrite <- Hp.
Qed.

(** ** What one turn does *)

Section turn.
Context {E : RegexEngine} (Hmap : HashOrder) (regex_error_text : RegexError -> str) {A : Type} `{KubeApi A}.

(** The translation a turn publishes, from its draft. *)
Definition translation_of (dr : Draft) (t : RouteTable) (warnings : list Warning) : Translation :=
  MkTranslation (MkCompiledConfig t (dr_certs dr) (dr_promotions dr) (dr_digest dr)) (dr_digest dr) (dr_managed dr) warnings.

Lemma draft_generation snapshot opts previous dr :
  value (translate_draft regex_error_text snapshot opts previous) = Ok dr ->
  b_generation (dr_builder dr) = match previous with Some t => sat_add u64_max (generation t) 1 | None => 0 end.
Proof.
  unfold translate_draft. rewrite value_bind. set (managed := value (select_managed snapshot opts)).
  set (b0 := match previous with Some table => from_previous table | None => builder_new end).
  rewrite (redraft_managed regex_error_text (b_generation b0) (b_previous b0) (b_previous_routes b0) snapshot opts previous
    previous managed) by by destruct previous.
  cbn [lmap value]. destruct (value (translate_managed _ _ _ _ _)) as [d|]; [|done]. cbn [rmap]. intros [= <-]. by destruct previous.
Qed.

Lemma rebuild_turn opts snapshot (c : Controller) (a : A) :
  inputs_valid snapshot opts ->
  exists dr t h store,
    let pass := translate_draft regex_error_text snapshot opts (config_table <$> ct_current c) in
    let tr := translation_of dr t (logged pass) in
    let c' := (publish tr c h store).2 in
    value pass = Ok dr /\ generation t = b_generation (dr_builder dr) /\
    translate regex_error_text snapshot opts (config_table <$> ct_current c) (ct_heap c) (ct_routes c) = Ok (tr, h, store) /\
    rebuild regex_error_text opts snapshot c a =
      (let '(status, a) :=
         match ct_status c with
         | Some w =>
             let '(w, a) := status_sync w (dr_managed dr) (compiled_generation (ct_current c')) (observed_generations snapshot) a in
             (Some w, a)
         | None => (None, a)
         end in
       MkRebuilt (MkController status (sync (ct_warnings c) (logged pass) snapshot).2 (ct_current c')
                    (ct_published_digest c') h store)
         (publish tr c h store).1 (sync (ct_warnings c) (logged pass) snapshot).1 a).
Proof.
  intros Hv.
  destruct (translate_ok regex_error_text snapshot opts (config_table <$> ct_current c) (ct_heap c) (ct_routes c) Hv)
    as (dr & _ & t & h & store & Hd & Hb & Ht & _).
  exists dr, t, h, store. split; [exact Hd|]. apply build_built_from in Hb. split; [apply (bf_generation _ _ Hb)|].
  split; [exact Ht|].
  unfold rebuild. rewrite Ht. fold (translation_of dr t (logged (translate_draft regex_error_text snapshot opts (config_table <$> ct_current c)))).
  set (tr := translation_of dr t _). change (tr_warnings tr) with (logged (translate_draft regex_error_text snapshot opts (config_table <$> ct_current c))).
  destruct (sync _ _ _) as [events warnings]. cbn [fst snd]. unfold publish. change (tr_digest tr) with (dr_digest dr).
  change (tr_managed tr) with (dr_managed dr).
  case_bool_decide; cbn [ct_status ct_current ct_published_digest ct_heap ct_routes fst snd]; done.
Qed.
End turn.

Lemma status_address_same {A : Type} `{KubeApi A} w w' (a : A) :
  configured w = configured w' -> sw_publish_service w = sw_publish_service w' -> status_address w a = status_address w' a.
Proof. unfold status_address. by intros -> ->. Qed.
Lemma status_address_configured {A : Type} `{KubeApi A} w (a : A) :
  sw_publish_service w = None -> (status_address w a).1 = configured w.
Proof. unfold status_address. by intros ->. Qed.
Lemma sync_uids emitted ws s s' : uid_index s = uid_index s' -> sync emitted ws s = sync emitted ws s'.
Proof. unfold sync. by intros ->. Qed.

Lemma sync_same emitted ws ws' s s' :
  ws ≡ₚ ws' -> uid_index s = uid_index s' -> sync emitted ws s = sync emitted ws' s'.
Proof. intros Hp Hu. unfold sync. by rewrite Hu, (group_warnings_perm _ _ Hp). Qed.

Section promises.
Context {E : RegexEngine}.

(** What a turn publishes: nothing when the digest is the one published. *)
Definition publishes (c c1 : Controller) (tr : Translation) (sent : option CompiledConfig) : Prop :=
  if decide (ct_published_digest c = Some (tr_digest tr))
  then sent = None /\ ct_current c1 = ct_current c
  else sent = Some (tr_config tr) /\ ct_current c1 = Some (tr_config tr) /\
       (is_Some (ct_current c) ->
          compiled_generation (ct_current c1) = sat_add u64_max (compiled_generation (ct_current c)) 1).

(** What a turn does for the refusals and the status of a translation. *)
Definition reports {A : Type} `{KubeApi A} (Hmap : HashOrder) (tr : Translation) (s : ClusterSnapshot) (c : Controller) (a : A)
    (r : @Rebuilt E A) : Prop :=
  (rb_events r, ct_warnings (rb_controller r)) = sync (ct_warnings c) (tr_warnings tr) s /\
  match ct_status c with
  | Some w =>
      let st := status_sync w (tr_managed tr) (compiled_generation (ct_current (rb_controller r)))
                  (observed_generations s) a in
      ct_status (rb_controller r) = Some st.1 /\ rb_api r = st.2
  | None => ct_status (rb_controller r) = None /\ rb_api r = a
  end.
End promises.

Section again.
Context {E : RegexEngine} (H1 H2 : HashOrder) (error_text : RegexError -> str) {A : Type} `{KubeApi A}.

Lemma rebuild_publishes opts s (c : Controller) (a : A) :
  inputs_valid s opts ->
  let r := @rebuild E H1 error_text A _ opts s c a in
  exists dr t h store,
    let pass := @translate_draft E H1 error_text s opts (config_table <$> ct_current c) in
    let tr := translation_of dr t (logged pass) in
    value pass = Ok dr /\
    @translate E H1 error_text s opts (config_table <$> ct_current c) (ct_heap c) (ct_routes c) = Ok (tr, h, store) /\
    ct_published_digest (rb_controller r) = Some (tr_digest tr) /\
    publishes c (rb_controller r) tr (rb_sent r) /\ reports H1 tr s c a r.
Proof.
  intros Hv r. destruct (rebuild_turn H1 error_text opts s c a Hv) as (dr & t & h & store & Hd & Ht & Htr & Hr).
  exists dr, t, h, store. cbv zeta. split; [done|]. split; [done|]. fold r in Hr. rewrite Hr. clear Hr r Htr.
  unfold reports, publishes, publish. cbn [tr_digest tr_managed tr_warnings tr_config translation_of].
  rewrite (surjective_pairing (sync _ _ _)).
  case_bool_decide as Hc; destruct (decide _) as [|]; try done;
    (destruct (ct_status c) as [w|]; [rewrite (surjective_pairing (status_sync _ _ _ _ _))|]); cbn; split_and!; try done;
    intros [old Hold]; rewrite Ht, (draft_generation _ _ _ _ _ _ Hd), Hold; done.
Qed.

(** The same cluster again, to a controller that has published it: nothing is
    published, and the rest is as for the translation already published. *)
Lemma rebuild_again opts s s' (c c2 : Controller) (a a2 : A) :
  inputs_valid s opts -> names_unique s -> same_but_ours s s' ->
  let r := @rebuild E H1 error_text A _ opts s c a in
  let r' := @rebuild E H2 error_text A _ opts s' c2 a2 in
  ct_published_digest c2 = ct_published_digest (rb_controller r) ->
  forall tr h store,
  @translate E H1 error_text s opts (config_table <$> ct_current c) (ct_heap c) (ct_routes c) = Ok (tr, h, store) ->
  rb_sent r' = None /\ ct_current (rb_controller r') = ct_current c2 /\
  ct_published_digest (rb_controller r') = ct_published_digest c2 /\
  (rb_events r', ct_warnings (rb_controller r')) = sync (ct_warnings c2) (tr_warnings tr) s /\
  match ct_status c2 with
  | Some w =>
      let st := @status_sync A _ H2 w (tr_managed tr) (compiled_generation (ct_current c2)) (observed_generations s') a2 in
      ct_status (rb_controller r') = Some st.1 /\ rb_api r' = st.2
  | None => ct_status (rb_controller r') = None /\ rb_api r' = a2
  end.
Proof.
  intros Hv Hn Hs r r' Hdig tr h store Htr.
  destruct (rebuild_publishes opts s c a Hv) as (dr & t & h1 & store1 & Hd & Htr1 & Hpub & _). fold r in Hpub.
  rewrite Htr in Htr1. injection Htr1 as -> _ _.
  destruct (rebuild_turn H2 error_text opts s' c2 a2 (inputs_valid_same _ _ _ Hs Hv))
    as (dr' & t' & h' & store' & Hd' & _ & _ & Hr'). fold r' in Hr'.
  destruct (translate_draft_same H1 H2 error_text s s' opts (config_table <$> ct_current c)
    (config_table <$> ct_current c2) Hn Hs) as (g0 & ps & pr & Hval & Hlog).
  rewrite Hd in Hval. cbn [rmap] in Hval. rewrite Hval in Hd'. injection Hd' as <-.
  rewrite Hr'. clear Hr' r'. unfold publish. rewrite bool_decide_eq_true_2 by (by rewrite Hdig).
  cbn [fst snd ct_current ct_published_digest redraft dr_managed tr_warnings tr_managed translation_of].
  rewrite (sync_same _ _ _ s' s Hlog) by (symmetry; by apply uid_index_same).
  set (synced := sync _ _ _).
  destruct (ct_status c2) as [w|]; [set (st := status_sync _ _ _ _ _); rewrite (surjective_pairing st)|];
    (split_and!; try reflexivity; by rewrite (surjective_pairing synced)).
Qed.
End again.


(** * A witness: the small cluster of [Totality], delivered twice *)

#[local] Existing Instance literal_engine.
#[local] Existing Instance listed_order.

Definition stamp (generation : u64) (i : Ingress) : Ingress :=
  let m := ing_meta i in
  MkIngress
    (MkObjectMeta (m_namespace m) (m_name m) (m_generate_name m)
       (<[ANNOTATION_OBSERVED_GENERATION := to_string generation]> (m_annotations m)) (m_labels m) (m_creation m) (m_uid m))
    (ing_spec i).
Definition demo_stamped : ClusterSnapshot :=
  MkClusterSnapshot (map (stamp 1) (ingresses demo_shuffled)) (ingress_classes demo_shuffled) (services demo_shuffled)
    (endpoint_slices demo_shuffled) (secrets demo_shuffled).
Definition demo_opts : ControllerOpts :=
  MkControllerOpts None (bstr "ramjet") None None (Some (bstr "203.0.113.10")) None true 200000000 RoundRobin.

(** The controller as it starts, over the empty table. *)
Definition demo_start : Controller :=
  match build builder_new heap_empty [] with
  | Ok (t, h, store) => controller_new demo_opts (MkCompiledConfig t [] [] 0) h store
  | Err _ => MkController None ∅ None None heap_empty []
  end.
#[local] Abbreviation demo_turn := (loop_turn demo_text demo_opts false demo_cluster demo_start (MkApiServer ∅ ∅ None [])) (only parsing).
#[local] Abbreviation demo_again := (loop_turn demo_text demo_opts false demo_stamped (rb_controller demo_turn) (rb_api demo_turn)) (only parsing).

Lemma demo_same : same_but_ours demo_cluster demo_stamped.
Proof.
  split; try done. cbn [unstamped ingresses demo_stamped].
  replace (map unstamp (map (stamp 1) (ingresses demo_shuffled))) with (rev (map unstamp (ingresses demo_cluster)))
    by (vm_compute; reflexivity).
  apply Permutation_rev.
Qed.
Lemma demo_names : names_unique demo_cluster.
Proof. split; [|apply NoDup_singleton..]. apply (bool_decide_unpack _). vm_compute. exact I. Qed.

Lemma demo_started w :
  ct_status demo_start = Some w -> w = MkStatusWriter (Some (Ip (bstr "203.0.113.10"))) None ∅ ∅.
Proof.
  assert (ct_status demo_start = Some (MkStatusWriter (Some (Ip (bstr "203.0.113.10"))) None ∅ ∅)) as ->
    by (vm_compute; reflexivity). by intros [= <-].
Qed.

