(* ===== verification/Diff.v ===== *)
(** What changed between two generations: [crates/ramjet-controller/src/diff.rs].

    [compute] compares two compiled tables, each read into the maps the source
    collects ([routes_of], [hosts_of], [certs_of]).  A [BTreeMap] collected from
    an iterator keeps the last value of a key; a [BTreeSet] of names is a map to
    [unit].  Counts are rendered in decimal. *)

From S2P Require Import Prelude Order NetText RouterTypes Canary Paths Stats Backends Table Builder.

Section diff.
Context {E : RegexEngine} `{HashOrder}.

(** The tuple the [BTreeMap] is keyed by. *)
Abbreviation RouteKey := (str * (str * str))%type (only parsing).

Record RouteTarget := MkRouteTarget {
  rt_backend : str;
  rt_endpoints : usize;
  rt_protocol : BackendProtocol;
  rt_mirror : option str;
}.

Record ConfigDiff := MkConfigDiff {
  diff_from : option u64;
  diff_to : u64;
  routes_added : list str;
  routes_removed : list str;
  backends_changed : list str;
  certs_rotated : list str;
  hosts_added : list str;
  hosts_removed : list str;
  mirrors_added : list str;
  mirrors_removed : list str;
  default_backend_changed : bool;
  diff_default_backend : option str;
  certs_added : usize;
  certs_removed : usize;
}.

(** ** Reading a table *)

(** [collect] into a map. *)
Definition collect {K A : Type} `{Countable K} (l : list (K * A)) : gmap K A :=
  foldl (fun m kv => <[kv.1 := kv.2]> m) ∅ l.

Definition mirror_text (t : RouteTable) (m : MirrorSpec) : str :=
  let target := match table_backend t (mirror_backend m) with Some b => backend_name b | None => [] end in
  match mirror_host m with
  | Some host => target ++ bstr " (" ++ to_string (mirror_percent m) ++ bstr "%, host " ++ host ++ bstr ")"
  | None => target ++ bstr " (" ++ to_string (mirror_percent m) ++ bstr "%)"
  end.
Definition route_target (t : RouteTable) (r : PathRule) : RouteTarget :=
  let backend := table_backend t (rule_backend r) in
  MkRouteTarget
    (match backend with Some b => backend_name b | None => [] end)
    (match backend with Some b => length (endpoints b) | None => 0%nat end)
    (match backend with Some b => protocol b | None => Http1 end)
    (mirror_text t <$> rule_mirror r).
Definition route_entry (t : RouteTable) (x : RouteHost * PathRule) : RouteKey * RouteTarget :=
  ((route_host_display x.1, (rule_path x.2, path_type_as_str (rule_path_type x.2))), route_target t x.2).

Definition routes_of (table : option RouteTable) : gmap RouteKey RouteTarget :=
  match table with Some t => collect (map (route_entry t) (table_routes t)) | None => ∅ end.
Definition hosts_of (table : option RouteTable) : gmap str unit :=
  match table with Some t => collect (map (fun x => (route_host_display x.1, tt)) (virtual_hosts t)) | None => ∅ end.
Definition certs_of (table : option RouteTable) : gmap str u64 :=
  match table with Some t => collect (map (fun x => (route_host_display x.1, x.2)) (sni_entries (tls t))) | None => ∅ end.
Definition default_name (t : RouteTable) : option str :=
  id ← default_backend t; b ← table_backend t id; Some (backend_name b).

(** ** Comparing *)

Definition arrow : str := bstr " -> ".
Definition describe (key : RouteKey) (target : RouteTarget) : str :=
  key.1 ++ chr " " :: key.2.1 ++ arrow ++ rt_backend target.
Definition count_text (n : usize) : str := to_string (Z.of_nat n).

(** What the first loop says of one route of the new table. *)
Definition route_change (key : RouteKey) (was : option RouteTarget) (target : RouteTarget) : option str * option str :=
  let where_ := key.1 ++ chr " " :: key.2.1 ++ bstr ": " in
  match was with
  | None => (Some (describe key target), None)
  | Some was =>
      (None,
       if negb (bool_decide (rt_backend was = rt_backend target))
       then Some (where_ ++ rt_backend was ++ arrow ++ rt_backend target)
       else if negb (bool_decide (rt_protocol was = rt_protocol target))
       then Some (where_ ++ protocol_as_str (rt_protocol was) ++ arrow ++ protocol_as_str (rt_protocol target) ++ bstr " upstream")
       else if negb (bool_decide (rt_endpoints was = rt_endpoints target))
       then Some (where_ ++ count_text (rt_endpoints was) ++ arrow ++ count_text (rt_endpoints target) ++ bstr " endpoints")
       else None)
  end.
Definition mirror_line (key : RouteKey) (m : str) : str := key.1 ++ chr " " :: key.2.1 ++ arrow ++ m.

Definition opt_list {A : Type} (o : option A) : list A := match o with Some x => [x] | None => [] end.

(** The iterator over a map in key order. *)
Definition entries {K A : Type} `{Countable K, Ord K} (m : gmap K A) : list (K * A) := btree_iter m.

Definition sorted (l : list str) : list str := sort_by ord_le l.

Definition compute_diff (previous : option RouteTable) (next : RouteTable) : ConfigDiff :=
  let before := routes_of previous in
  let after := routes_of (Some next) in
  let changes := map (fun '(k, t) => route_change k (before !! k) t) (entries after) in
  let moved := List.filter (fun '(k, t) => negb (bool_decide ((w ← before !! k; rt_mirror w) = rt_mirror t))) (entries after) in
  let gone := List.filter (fun '(k, _) => bool_decide (after !! k = None)) (entries before) in
  let hosts_before := hosts_of previous in
  let hosts_after := hosts_of (Some next) in
  let certs_before := certs_of previous in
  let certs_after := certs_of (Some next) in
  let new_certs := List.filter (fun '(h, _) => bool_decide (certs_before !! h = None)) (entries certs_after) in
  let other_certs :=
    List.filter (fun '(h, id) => match certs_before !! h with Some was => negb (was =? id) | None => false end)
      (entries certs_after) in
  let lost_certs := List.filter (fun '(h, _) => bool_decide (certs_after !! h = None)) (entries certs_before) in
  MkConfigDiff (generation <$> previous) (generation next)
    (sorted (omap fst changes))
    (sorted (map (fun '(k, t) => describe k t) gone))
    (sorted (omap snd changes))
    (sorted (map fst new_certs ++ map fst other_certs ++ map fst lost_certs))
    (sorted (map fst (List.filter (fun '(h, _) => bool_decide (hosts_before !! h = None)) (entries hosts_after))))
    (sorted (map fst (List.filter (fun '(h, _) => bool_decide (hosts_after !! h = None)) (entries hosts_before))))
    (sorted (omap (fun '(k, t) => mirror_line k <$> rt_mirror t) moved))
    (sorted (omap (fun '(k, _) => mirror_line k <$> (w ← before !! k; rt_mirror w)) moved
             ++ omap (fun '(k, t) => mirror_line k <$> rt_mirror t) gone))
    (negb (bool_decide ((t ← previous; default_name t) = default_name next)))
    (default_name next)
    (length new_certs) (length lost_certs).

Definition diff_is_empty (d : ConfigDiff) : bool :=
  bool_decide (routes_added d = []) && bool_decide (routes_removed d = []) && bool_decide (backends_changed d = [])
  && bool_decide (certs_rotated d = []) && bool_decide (hosts_added d = []) && bool_decide (hosts_removed d = [])
  && bool_decide (mirrors_added d = []) && bool_decide (mirrors_removed d = []) && negb (default_backend_changed d).

(** ** The summary line *)

Definition counted (x : usize * (str * str)) : option str :=
  let '(count, (singular, plural)) := x in
  if (0 <? count)%nat then Some (count_text count ++ chr " " :: (if (count =? 1)%nat then singular else plural)) else None.

Fixpoint join (sep : str) (l : list str) : str :=
  match l with
  | [] => []
  | [s] => s
  | s :: l' => s ++ sep ++ join sep l'
  end.

(** U+2192 in UTF-8. *)
Definition right_arrow : str := [226; 134; 146].

Definition certs_replaced (d : ConfigDiff) : usize := (length (certs_rotated d) - (certs_added d + certs_removed d))%nat.

Definition summary (d : ConfigDiff) : str :=
  let parts :=
    omap counted
      [(length (routes_added d), (bstr "route added", bstr "routes added"));
       (length (routes_removed d), (bstr "route removed", bstr "routes removed"));
       (length (backends_changed d), (bstr "backend changed", bstr "backends changed"));
       (length (hosts_added d), (bstr "host added", bstr "hosts added"));
       (length (hosts_removed d), (bstr "host removed", bstr "hosts removed"));
       (length (mirrors_added d), (bstr "mirror added", bstr "mirrors added"));
       (length (mirrors_removed d), (bstr "mirror removed", bstr "mirrors removed"));
       (certs_added d, (bstr "cert added", bstr "certs added"));
       (certs_removed d, (bstr "cert removed", bstr "certs removed"));
       (certs_replaced d, (bstr "cert rotated", bstr "certs rotated"))]
    ++ (if default_backend_changed d
        then [match diff_default_backend d with
              | Some backend => bstr "default backend now " ++ backend
              | None => bstr "default backend cleared"
              end]
        else []) in
  (if bool_decide (parts = []) then bstr "no visible change" else join (bstr ", ") parts) ++
  bstr " (gen " ++ to_string (default 0 (diff_from d)) ++ right_arrow ++ to_string (diff_to d) ++ bstr ")".
End diff.

(** ** Lemmas *)

Lemma sorted_nil l : sorted l = [] <-> l = [].
Proof.
  split; [|by intros ->]. intros Hs. unfold sorted in Hs. pose proof (sort_by_perm ord_le l) as Hp.
  rewrite Hs in Hp. by apply Permutation_nil_l in Hp.
Qed.

Lemma filter_nil {A : Type} (p : A -> bool) l : List.filter p l = [] <-> forall x, x ∈ l -> p x = false.
Proof.
  induction l as [|x l IH]; [split; [by intros _ y Hy%elem_of_nil|done]|]. cbn. destruct (p x) eqn:Hp.
  - split; [done|]. intros Hx. rewrite (Hx x) in Hp by auto with ramjet. done.
  - rewrite IH. split; [|by auto with ramjet]. by intros Hl y [->|Hy]%elem_of_cons; [|apply Hl].
Qed.

Lemma omap_nil {A B : Type} (f : A -> option B) l : omap f l = [] <-> forall x, x ∈ l -> f x = None.
Proof.
  induction l as [|x l IH]; [split; [by intros _ y Hy%elem_of_nil|done]|]. cbn. destruct (f x) eqn:Hf.
  - split; [done|]. intros Hx. rewrite (Hx x) in Hf by auto with ramjet. done.
  - rewrite IH. split; [|by auto with ramjet]. by intros Hl y [->|Hy]%elem_of_cons; [|apply Hl].
Qed.

Lemma map_nil {A B : Type} (f : A -> B) l : map f l = [] <-> l = [].
Proof. by destruct l. Qed.

(** The keys of [m] that [m'] lacks. *)
Section maps.
Context {K A : Type} `{Countable K, Ord K}.
Implicit Types (m : gmap K A).

Lemma missing_nil {B : Type} m (m' : gmap K B) :
  List.filter (fun '(k, _) => bool_decide (m' !! k = None)) (entries m) = [] <->
  forall k, is_Some (m !! k) -> is_Some (m' !! k).
Proof.
  rewrite filter_nil. unfold entries. split.
  - intros Hf k [x Hx]. apply elem_of_btree_iter in Hx. specialize (Hf _ Hx). cbn in Hf.
    apply bool_decide_eq_false in Hf. destruct (m' !! k); [by eexists|done].
  - intros Hs [k x] Hx. apply elem_of_btree_iter in Hx. cbn. apply bool_decide_eq_false.
    destruct (Hs k) as [y ->]; [by eexists|done].
Qed.

Lemma entries_forall m (P : K -> A -> Prop) :
  (forall x, x ∈ entries m -> P x.1 x.2) <-> forall k x, m !! k = Some x -> P k x.
Proof.
  unfold entries. split.
  - intros Hx k x Hk. apply (Hx (k, x)). by apply elem_of_btree_iter.
  - intros Hm [k x] Hk. apply elem_of_btree_iter in Hk. by apply Hm.
Qed.
End maps.

Lemma app_nil_iff {A : Type} (l k : list A) : l ++ k = [] <-> l = [] /\ k = [].
Proof. split; [apply app_eq_nil|by intros [-> ->]]. Qed.

(** The two maps agree exactly when no entry of either tells them apart. *)
Lemma maps_agree {K A : Type} `{Countable K} (m m' : gmap K A) :
  m = m' <-> (forall k, is_Some (m !! k) -> is_Some (m' !! k)) /\
             (forall k x y, m !! k = Some x -> m' !! k = Some y -> x = y) /\
             (forall k, is_Some (m' !! k) -> is_Some (m !! k)).
Proof.
  split.
  - intros ->. split_and!; [done|congruence|done].
  - intros (H1'&H2'&H3'). apply map_eq. intros k. destruct (m !! k) as [x|] eqn:Hx.
    + destruct (H1' k) as [y Hy]; [by eexists|]. rewrite Hy. f_equal. by eapply H2'.
    + destruct (m' !! k) as [y|] eqn:Hy; [|done]. destruct (H3' k) as [z Hz]; [by eexists|congruence].
Qed.

Section exactness.
Context {E : RegexEngine} `{HashOrder}.

Lemma route_change_quiet k was t :
  route_change k was t = (None, None) <->
  exists w, was = Some w /\ rt_backend w = rt_backend t /\ rt_protocol w = rt_protocol t /\ rt_endpoints w = rt_endpoints t.
Proof.
  unfold route_change. destruct was as [w|]; [|naive_solver].
  destruct (decide (rt_backend w = rt_backend t)); [rewrite bool_decide_eq_true_2 by done|rewrite bool_decide_eq_false_2 by done; naive_solver].
  destruct (decide (rt_protocol w = rt_protocol t)); [rewrite bool_decide_eq_true_2 by done|rewrite bool_decide_eq_false_2 by done; naive_solver].
  destruct (decide (rt_endpoints w = rt_endpoints t)); [rewrite bool_decide_eq_true_2 by done|rewrite bool_decide_eq_false_2 by done; naive_solver].
  naive_solver.
Qed.

(** What the three route lists and the two mirror lists say together. *)
Lemma routes_quiet (before after : gmap (str * (str * str)) RouteTarget) :
  let changes := map (fun '(k, t) => route_change k (before !! k) t) (entries after) in
  let moved := List.filter (fun '(k, t) => negb (bool_decide ((w ← before !! k; rt_mirror w) = rt_mirror t))) (entries after) in
  let gone := List.filter (fun '(k, _) => bool_decide (after !! k = None)) (entries before) in
  omap fst changes = [] /\ omap snd changes = [] /\ map (fun '(k, t) => describe k t) gone = [] /\
  omap (fun '(k, t) => mirror_line k <$> rt_mirror t) moved = [] /\
  omap (fun '(k, _) => mirror_line k <$> (w ← before !! k; rt_mirror w)) moved ++
    omap (fun '(k, t) => mirror_line k <$> rt_mirror t) gone = [] <->
  before = after.
Proof.
  intros changes moved gone. rewrite maps_agree. split.
  - intros (Ha&Hc&Hg&Hma&Hmr). rewrite omap_nil in Ha, Hc. rewrite map_nil in Hg. unfold gone in Hg.
    rewrite missing_nil in Hg. rewrite app_nil_iff in Hmr. destruct Hmr as [Hmr _]. rewrite omap_nil in Hma, Hmr.
    assert (Hq : forall k t, after !! k = Some t -> exists w, before !! k = Some w /\ w = t).
    { intros k t Ht. apply elem_of_btree_iter in Ht as Hin.
      assert (Hr : route_change k (before !! k) t = (None, None)).
      { rewrite (surjective_pairing (route_change _ _ _)). f_equal.
        - apply Ha, list_elem_of_fmap. by exists (k, t).
        - apply Hc, list_elem_of_fmap. by exists (k, t). }
      apply route_change_quiet in Hr as (w&Hw&Hb&Hp&He). exists w. split; [done|].
      destruct (decide (rt_mirror w = rt_mirror t)) as [Hm|Hm]; [destruct w, t; cbn in *; by subst|]. exfalso.
      assert (Hmv : (k, t) ∈ moved).
      { unfold moved. apply in_filter. split; [done|]. cbn. rewrite Hw. cbn. by rewrite bool_decide_eq_false_2. }
      pose proof (Hma _ Hmv) as H1'. pose proof (Hmr _ Hmv) as H2'. cbn in H1', H2'. rewrite Hw in H2'. cbn in H2'.
      apply fmap_None in H1', H2'. congruence. }
    split_and!; [exact Hg| |].
    + intros k x y Hx Hy. destruct (Hq k y Hy) as (w&Hw&->). congruence.
    + intros k [t Ht]. destruct (Hq k t Ht) as (w&->&_). by eexists.
  - intros (Hba&Hsame&Hab).
    assert (Hq : forall k t, after !! k = Some t -> before !! k = Some t).
    { intros k t Ht. destruct (Hab k) as [w Hw]; [by eexists|]. rewrite Hw. f_equal. by eapply Hsame. }
    assert (Hg : gone = []) by (unfold gone; by rewrite missing_nil).
    assert (Hm : moved = []).
    { unfold moved. apply filter_nil. intros [k t] Hin. apply elem_of_btree_iter in Hin. cbn. rewrite (Hq _ _ Hin). cbn.
      by rewrite bool_decide_eq_true_2. }
    rewrite Hg, Hm. cbn. split_and!; [..|done|done|done].
    all: apply omap_nil; intros x ([k t]&->&Hin)%list_elem_of_fmap; apply elem_of_btree_iter in Hin.
    all: assert (Hr : route_change k (before !! k) t = (None, None)) by (apply route_change_quiet; exists t; by rewrite (Hq _ _ Hin)).
    all: by rewrite Hr.
Qed.

Lemma hosts_quiet (before after : gmap str unit) :
  map fst (List.filter (fun '(h, _) => bool_decide (before !! h = None)) (entries after)) = [] /\
  map fst (List.filter (fun '(h, _) => bool_decide (after !! h = None)) (entries before)) = [] <-> before = after.
Proof.
  rewrite !map_nil, !missing_nil, maps_agree. split; [|naive_solver].
  intros [H1' H2']. split_and!; [done|by intros ? [] []|done].
Qed.

Lemma certs_quiet (before after : gmap str u64) :
  map fst (List.filter (fun '(h, _) => bool_decide (before !! h = None)) (entries after)) ++
  map fst (List.filter (fun '(h, id) => match before !! h with Some was => negb (was =? id) | None => false end) (entries after)) ++
  map fst (List.filter (fun '(h, _) => bool_decide (after !! h = None)) (entries before)) = [] <-> before = after.
Proof.
  rewrite !app_nil_iff, !map_nil, !missing_nil, maps_agree, filter_nil. split.
  - intros (H1'&H2'&H3'). split_and!; [done| |done]. intros h x y Hx Hy. apply elem_of_btree_iter in Hy.
    specialize (H2' _ Hy). cbn in H2'. rewrite Hx in H2'. lia.
  - intros (H1'&H2'&H3'). split_and!; [done| |done]. intros [h id] Hin. apply elem_of_btree_iter in Hin. cbn.
    destruct (before !! h) as [was|] eqn:Hw; [|done]. rewrite (H2' _ _ _ Hw Hin). lia.
Qed.
End exactness.

(** * Properties *)

Section properties.
Context {E : RegexEngine} `{HashOrder}.

(** An empty diff means the data plane does the same thing.  The diff of
    two tables is empty exactly when they serve the same hosts, the same
    routes with the same backend, protocol, number of endpoints and mirror,
    the same certificates and the same default backend: no such change goes
    unreported, and nothing is reported without one. *)
Theorem diff_empty_iff (previous : option RouteTable) (next : RouteTable) :
  diff_is_empty (compute_diff previous next) = true <->
  routes_of previous = routes_of (Some next) /\ hosts_of previous = hosts_of (Some next) /\
  certs_of previous = certs_of (Some next) /\ (t ← previous; default_name t) = default_name next.
Proof.
  unfold diff_is_empty, compute_diff. cbn [routes_added routes_removed backends_changed certs_rotated hosts_added
    hosts_removed mirrors_added mirrors_removed default_backend_changed].
  rewrite !andb_true_iff, !bool_decide_eq_true, !negb_true_iff, negb_false_iff, bool_decide_eq_true, !sorted_nil.
  rewrite <- routes_quiet, <- hosts_quiet, <- certs_quiet. tauto.
Qed.

(** The three certificate counts of the summary add up: what is neither new nor
    lost is a host served by both tables with another certificate. *)
Lemma certs_replaced_counts previous next :
  let before := certs_of previous in
  certs_replaced (compute_diff previous next) =
  length (List.filter (fun '(h, id) => match before !! h with Some was => negb (was =? id) | None => false end)
    (entries (certs_of (Some next)))).
Proof.
  unfold certs_replaced, compute_diff. cbn [certs_rotated certs_added certs_removed]. unfold sorted.
  rewrite (Permutation_length (sort_by_perm ord_le _)), !length_app, !length_map. lia.
Qed.
End properties.
