(* ===== verification/Dates.v ===== *)
(** Timestamps: [rfc3339] and [civil_from_days] of
    [crates/ramjet-proxy/src/history.rs], which stamp every generation, and
    [crates/ramjet-top/src/rfc3339.rs], which reads the stamps back.

    An [i64] is a [Z] here and [/] truncates ([Z.quot]).  Every intermediate
    value stays within an [i64] for any instant a [SystemTime] can hold, since
    days are seconds divided by 86400. *)

From S2P Require Import Prelude NetText.

#[local] Ltac Zify.zify_post_hook ::= Z.to_euclidean_division_equations.

Definition i64_max : Z := 9223372036854775807.
Definition i64_min : Z := -9223372036854775808.

(** ** The writer *)

(** Year, month and day. *)
Definition civil_from_days (days : Z) : Z * Z * Z :=
  let z := days + 719468 in
  let era := Z.quot (if 0 <=? z then z else z - 146096) 146097 in
  let day_of_era := z - era * 146097 in
  let year_of_era :=
    Z.quot (day_of_era - Z.quot day_of_era 1460 + Z.quot day_of_era 36524
            - Z.quot day_of_era 146096) 365 in
  let year := year_of_era + era * 400 in
  let day_of_year :=
    day_of_era - (365 * year_of_era + Z.quot year_of_era 4 - Z.quot year_of_era 100) in
  let month_prime := Z.quot (5 * day_of_year + 2) 153 in
  let day := wrap32 (day_of_year - Z.quot (153 * month_prime + 2) 5 + 1) in
  let month := wrap32 (if month_prime <? 10 then month_prime + 3 else month_prime - 9) in
  (year + (if month <=? 2 then 1 else 0), month, day).

(** [format!("{:0w}")] of an integer: zeros up to the width, after the sign. *)
Definition padded (w : nat) (n : Z) : str :=
  let digits := decimal_fuel 20 (Z.abs n) in
  if n <? 0 then chr "-" :: replicate (w - 1 - length digits) (chr "0") ++ digits
  else replicate (w - length digits) (chr "0") ++ digits.

(** A [SystemTime] as nanoseconds from the epoch; whole seconds, towards it. *)
Definition unix_seconds (time : Z) : Z :=
  if 0 <=? time then Z.min (Z.quot time 1000000000) i64_max
  else - Z.min (Z.quot (- time) 1000000000) i64_max.

(** [div_euclid] and [rem_euclid] by a positive divisor are [Z.div] and
    [Z.modulo]. *)
Definition rfc3339 (time : Z) : str :=
  let seconds := unix_seconds time in
  let days := seconds / 86400 in
  let time_of_day := seconds mod 86400 in
  let '(year, month, day) := civil_from_days days in
  padded 4 year ++ chr "-" :: padded 2 month ++ chr "-" :: padded 2 day ++ chr "T" ::
  padded 2 (Z.quot time_of_day 3600) ++ chr ":" ::
  padded 2 (Z.rem (Z.quot time_of_day 60) 60) ++ chr ":" ::
  padded 2 (Z.rem time_of_day 60) ++ [chr "Z"].

(** ** The reader *)

Inductive BadTimestamp_ := BadTimestamp.

Definition days_from_civil (year month day : Z) : Z :=
  let y := year - (if month <=? 2 then 1 else 0) in
  let era := Z.quot (if 0 <=? y then y else y - 399) 400 in
  let yoe := y - era * 400 in
  let doy := Z.quot (153 * (month + (if 2 <? month then -3 else 9)) + 2) 5 + day - 1 in
  let doe := yoe * 365 + Z.quot yoe 4 - Z.quot yoe 100 + doy in
  era * 146097 + doe - 719468.

(** [str::get(a..b)]: both ends must be character boundaries. *)
Definition str_get_range (s : str) (a b : nat) : option str :=
  if (a <=? b)%nat && is_char_boundary s a && is_char_boundary s b
  then Some (take (b - a) (drop a s)) else None.
Definition str_get_from (s : str) (a : nat) : option str := str_get_range s a (length s).

(** [str::parse::<i64>]. *)
Definition parse_i64 : str -> option Z := parse_signed i64_min i64_max.

Definition num (text : str) (a b : nat) : result BadTimestamp_ Z :=
  ok_or (field ← str_get_range text a b; parse_i64 field) BadTimestamp.
Definition sep (text : str) (at_ : nat) (want : bytes) : result BadTimestamp_ unit :=
  match text !! at_ with
  | Some c => if existsb (fun w => w =? c) want then Ok tt else Err BadTimestamp
  | None => Err BadTimestamp
  end.

(** Skips a fraction of a second. *)
Definition skip_fraction (rest : str) : result BadTimestamp_ str :=
  match strip_prefix [chr "."] rest with
  | Some after_dot =>
      let digits := (length after_dot - length (drop_while is_ascii_digit after_dot))%nat in
      if (digits =? 0)%nat then Err BadTimestamp
      else ok_or (str_get_from after_dot digits) BadTimestamp
  | None => Ok rest
  end.

Definition offset_seconds (rest : str) : result BadTimestamp_ Z :=
  match rest with
  | sign :: _ =>
      if ((sign =? chr "Z") || (sign =? chr "z")) && (length rest =? 1)%nat then Ok 0
      else if (sign =? chr "+") || (sign =? chr "-") then
        if negb (length rest =? 6)%nat || negb (bool_decide (rest !! 3%nat = Some (chr ":")))
        then Err BadTimestamp
        else
          hours ← num rest 1 3;
          minutes ← num rest 4 6;
          if (23 <? hours) || (59 <? minutes) then Err BadTimestamp
          else
            let magnitude := hours * 3600 + minutes * 60 in
            Ok (if sign =? chr "-" then - magnitude else magnitude)
      else Err BadTimestamp
  | [] => Err BadTimestamp
  end.

Definition to_unix_seconds (text : str) : result BadTimestamp_ Z :=
  if (length text <? 19)%nat then Err BadTimestamp
  else
    _ ← sep text 4 (bstr "-");
    _ ← sep text 7 (bstr "-");
    _ ← sep text 10 (bstr "Tt ");
    _ ← sep text 13 (bstr ":");
    _ ← sep text 16 (bstr ":");
    year ← num text 0 4;
    month ← num text 5 7;
    day ← num text 8 10;
    hour ← num text 11 13;
    minute ← num text 14 16;
    second ← num text 17 19;
    if negb ((1 <=? month) && (month <=? 12)) || negb ((1 <=? day) && (day <=? 31))
    then Err BadTimestamp
    else if (23 <? hour) || (59 <? minute) || (61 <? second) then Err BadTimestamp
    else
      rest ← ok_or (str_get_from text 19) BadTimestamp;
      rest ← skip_fraction rest;
      offset ← offset_seconds rest;
      Ok (days_from_civil year (wrap32 month) (wrap32 day) * 86400
          + hour * 3600 + minute * 60 + second - offset).

Definition humanize_nonneg (seconds : Z) : str :=
  let d := Z.quot seconds 86400 in
  let h := Z.quot (Z.rem seconds 86400) 3600 in
  let m := Z.quot (Z.rem seconds 3600) 60 in
  let s := Z.rem seconds 60 in
  if (d =? 0) && (h =? 0) && (m =? 0) then to_string s ++ bstr "s"
  else if (d =? 0) && (h =? 0) then to_string m ++ bstr "m" ++ to_string s ++ bstr "s"
  else if d =? 0 then to_string h ++ bstr "h" ++ to_string m ++ bstr "m"
  else to_string d ++ bstr "d" ++ to_string h ++ bstr "h".
Definition humanize_age (seconds : Z) : str :=
  if seconds <? 0 then bstr "-" ++ humanize_nonneg (- seconds) else humanize_nonneg seconds.

Definition age_of (timestamp : str) (now : Z) : str :=
  match to_unix_seconds timestamp with
  | Ok then_ => humanize_age (now - then_)
  | Err _ => bstr "?"
  end.

(** The instants the tests of both files name. *)
Example stamps :
  map rfc3339 [0; 1000000000 * 1000000000; 1709164800 * 1000000000; 1767225599 * 1000000000]
  = [bstr "1970-01-01T00:00:00Z"; bstr "2001-09-09T01:46:40Z"; bstr "2024-02-29T00:00:00Z";
     bstr "2025-12-31T23:59:59Z"].
Proof. reflexivity. Qed.
Example read_back :
  map to_unix_seconds [bstr "2025-01-01T00:00:00Z"; bstr "2025-06-01t12:00:00.5+01:00";
    bstr "2025-06-01T12:00:00"; bstr "2025-13-01T00:00:00Z"; bstr "2025-06-01T12:00:00.Z";
    bstr "2025-06-01T12:00:00+1:00"]
  = [Ok 1735689600; Ok 1748775600; Err BadTimestamp; Err BadTimestamp; Err BadTimestamp;
     Err BadTimestamp].
Proof. reflexivity. Qed.
Example ages : map humanize_age [0; 134; 3600; 93600; -30] =
  [bstr "0s"; bstr "2m14s"; bstr "1h0m"; bstr "1d2h"; bstr "-30s"].
Proof. reflexivity. Qed.

(** ** The calendar *)

Definition leap (y : Z) : bool :=
  (y mod 4 =? 0) && (negb (y mod 100 =? 0) || (y mod 400 =? 0)).
Definition month_days (y m : Z) : Z :=
  if m =? 2 then (if leap y then 29 else 28)
  else if (m =? 4) || (m =? 6) || (m =? 9) || (m =? 11) then 30 else 31.
Definition date_ok (dt : Z * Z * Z) : Prop :=
  let '(y, m, d) := dt in 1 <= m <= 12 /\ 1 <= d <= month_days y m.
Definition next_day (dt : Z * Z * Z) : Z * Z * Z :=
  let '(y, m, d) := dt in
  if d <? month_days y m then (y, m, d + 1)
  else if m <? 12 then (y, m + 1, 1) else (y + 1, 1, 1).

(** Both functions through the March-based year: the year [y], the month
    counted from March and the day. *)
Definition march_days (y mp d : Z) : Z :=
  365 * y + y / 4 - y / 100 + y / 400 + (153 * mp + 2) / 5 + d - 1 - 719468.

Lemma era_floor y b c : 0 < b -> c = b - 1 -> Z.quot (if 0 <=? y then y else y - c) b = y / b.
Proof.
  intros Hb ->. destruct (0 <=? y) eqn:E; [apply Z.quot_div_nonneg; lia|].
  replace (y - (b - 1)) with (- (b - 1 - y)) by lia. rewrite Z.quot_opp_l by lia.
  rewrite Z.quot_div_nonneg by lia. nia.
Qed.

Lemma days_from_civil_march y m d :
  1 <= m <= 12 ->
  days_from_civil y m d =
  march_days (y - (if m <=? 2 then 1 else 0)) (if m <=? 2 then m + 9 else m - 3) d.
Proof.
  intros Hm. unfold days_from_civil, march_days. cbv zeta.
  set (y' := y - _). rewrite (era_floor y' 400) by done.
  assert (Hmp : Z.quot (153 * (m + (if 2 <? m then -3 else 9)) + 2) 5
                = (153 * (if m <=? 2 then m + 9 else m - 3) + 2) / 5).
  { destruct (m <=? 2) eqn:E.
    - replace (2 <? m) with false by lia. rewrite Z.quot_div_nonneg by lia. do 2 f_equal; lia.
    - replace (2 <? m) with true by lia. rewrite Z.quot_div_nonneg by lia. do 2 f_equal; lia. }
  rewrite Hmp. set (e := (153 * _ + 2) / 5).
  assert (Hq : 0 <= y' - y' / 400 * 400 < 400) by lia.
  rewrite !Z.quot_div_nonneg by lia. clearbody y' e. clear Hmp. lia.
Qed.

(** Days before March of the year [y]. *)
Definition march_start (y : Z) : Z := 365 * y + y / 4 - y / 100 + y / 400.

Lemma march_start_le x y : x <= y -> march_start x <= march_start y.
Proof. unfold march_start. lia. Qed.

Lemma march_start_next y :
  march_start (y + 1) = march_start y + 365 + (if leap (y + 1) then 1 else 0).
Proof. unfold march_start, leap. destruct (_ && _) eqn:E; lia. Qed.

Lemma year_of_era_bounds doe yoe :
  0 <= doe < 146097 -> yoe = (doe - doe / 1460 + doe / 36524 - doe / 146096) / 365 ->
  0 <= yoe < 400 /\ march_start yoe <= doe < march_start (yoe + 1).
Proof. intros H ->. unfold march_start. split; [lia|]. split; lia. Qed.

Lemma march_start_era y e : march_start (y + e * 400) = march_start y + e * 146097.
Proof. unfold march_start. lia. Qed.

(** The civil date of a March-based one. *)
Definition of_march (y mp d : Z) : Z * Z * Z :=
  (y + (if mp <? 10 then 0 else 1), if mp <? 10 then mp + 3 else mp - 9, d).

Lemma month_prime_bounds doy mp :
  0 <= doy <= 365 -> mp = (5 * doy + 2) / 153 ->
  0 <= mp <= 11 /\ (153 * mp + 2) / 5 <= doy < (153 * (mp + 1) + 2) / 5.
Proof. intros H ->. split; [lia|]. split; lia. Qed.

Lemma month_days_march y mp :
  0 <= mp <= 11 ->
  let '(year, month, _) := of_march y mp 1 in
  month_days year month =
  if mp =? 11 then (if leap (y + 1) then 29 else 28)
  else (153 * (mp + 1) + 2) / 5 - (153 * mp + 2) / 5.
Proof.
  intros H.
  assert (Hc : mp = 0 \/ mp = 1 \/ mp = 2 \/ mp = 3 \/ mp = 4 \/ mp = 5 \/ mp = 6 \/ mp = 7 \/ mp = 8
    \/ mp = 9 \/ mp = 10 \/ mp = 11) by lia.
  by destruct Hc as [->|[->|[->|[->|[->|[->|[->|[->|[->|[->|[->| ->]]]]]]]]]]].
Qed.

Lemma civil_from_days_march n :
  exists y mp d, civil_from_days n = of_march y mp d /\ 0 <= mp <= 11 /\
    date_ok (of_march y mp d) /\ march_days y mp d = n.
Proof.
  unfold civil_from_days. cbv zeta. set (z := n + 719468).
  rewrite (era_floor z 146097) by done. set (era := z / 146097). set (doe := z - era * 146097).
  assert (Hdoe : 0 <= doe < 146097) by lia.
  rewrite !(Z.quot_div_nonneg doe) by lia.
  rewrite (Z.quot_div_nonneg _ 365) by lia. set (yoe := _ / 365).
  destruct (year_of_era_bounds doe yoe Hdoe eq_refl) as [Hyoe Hstart]. clearbody yoe.
  rewrite !(Z.quot_div_nonneg yoe) by lia. set (doy := doe - _).
  assert (Hdoy : doy = doe - march_start yoe) by (unfold doy, march_start; lia).
  clearbody doy. pose proof (march_start_next yoe) as Hnext.
  assert (Hdoy' : 0 <= doy <= 365) by (destruct (leap (yoe + 1)); lia).
  rewrite (Z.quot_div_nonneg (5 * doy + 2)) by lia. set (mp := _ / 153).
  destruct (month_prime_bounds doy mp Hdoy' eq_refl) as [Hmp Hmonth]. clearbody mp.
  rewrite Z.quot_div_nonneg by lia.
  exists (yoe + era * 400), mp, (doy - (153 * mp + 2) / 5 + 1).
  assert (Hleap : leap (yoe + era * 400 + 1) = leap (yoe + 1)).
  { unfold leap. f_equal; [lia|]. f_equal; [|lia]. f_equal. lia. }
  pose proof (month_days_march (yoe + era * 400) mp Hmp) as Hd. rewrite Hleap in Hd.
  split_and!; [|lia|lia| |].
  - unfold of_march, wrap32. rewrite !wrap_small by (destruct (mp <? 10) eqn:?; lia).
    destruct (mp <? 10) eqn:E; [replace (mp + 3 <=? 2) with false by lia
                               |replace (mp - 9 <=? 2) with true by lia]; do 2 f_equal; lia.
  - unfold of_march in *. unfold date_ok. split; [destruct (mp <? 10) eqn:?; lia|].
    rewrite Hd. destruct (mp =? 11) eqn:E; [|lia]. assert (mp = 11) as -> by lia.
    destruct (leap (yoe + 1)); lia.
  - unfold march_days. fold (march_start (yoe + era * 400)).
    pose proof (march_start_era yoe era). unfold march_start in *. lia.
Qed.

(** The days-from-civil count of a date, by its March-based form. *)
Definition day_number (dt : Z * Z * Z) : Z := let '(y, m, d) := dt in days_from_civil y m d.

Lemma day_number_march y mp d : 0 <= mp <= 11 -> day_number (of_march y mp d) = march_days y mp d.
Proof.
  intros H. unfold day_number, of_march. rewrite days_from_civil_march by (destruct (mp <? 10) eqn:?; lia).
  destruct (mp <? 10) eqn:E.
  - replace (mp + 3 <=? 2) with false by lia. f_equal; lia.
  - replace (mp - 9 <=? 2) with true by lia. f_equal; lia.
Qed.

Lemma of_march_onto dt : date_ok dt -> exists y mp d, dt = of_march y mp d /\ 0 <= mp <= 11.
Proof.
  destruct dt as [[y m] d]. intros [Hm _]. destruct (decide (m <= 2)).
  - exists (y - 1), (m + 9), d. unfold of_march. replace (m + 9 <? 10) with false by lia.
    split; [do 2 f_equal; lia|lia].
  - exists y, (m - 3), d. unfold of_march. replace (m - 3 <? 10) with true by lia.
    split; [do 2 f_equal; lia|lia].
Qed.

Lemma date_ok_march y mp d :
  0 <= mp <= 11 -> date_ok (of_march y mp d) ->
  1 <= d /\ (153 * mp + 2) / 5 + d - 1 <
    (if mp =? 11 then 365 + (if leap (y + 1) then 1 else 0) else (153 * (mp + 1) + 2) / 5).
Proof.
  intros Hmp. pose proof (month_days_march y mp Hmp) as Hd. unfold of_march in *. unfold date_ok.
  rewrite Hd. intros (_&H1&H2). split; [done|]. destruct (mp =? 11) eqn:E; [|lia].
  assert (mp = 11) as -> by lia. destruct (leap (y + 1)); lia.
Qed.

(** Two civil dates with the same number are the same. *)
Lemma day_number_inj dt dt' :
  date_ok dt -> date_ok dt' -> day_number dt = day_number dt' -> dt = dt'.
Proof.
  intros H H' Heq. destruct (of_march_onto _ H) as (y&mp&d&->&Hmp).
  destruct (of_march_onto _ H') as (y'&mp'&d'&->&Hmp').
  rewrite !day_number_march in Heq by done.
  apply date_ok_march in H as [Hd H]; [|done]. apply date_ok_march in H' as [Hd' H']; [|done].
  unfold march_days in Heq. fold (march_start y) (march_start y') in Heq.
  assert (Hlast : forall m x, 0 <= m <= 11 ->
    (if m =? 11 then 365 + (if leap x then 1 else 0) else (153 * (m + 1) + 2) / 5)
    <= 365 + (if leap x then 1 else 0)) by (intros m x ?; destruct (m =? 11) eqn:?, (leap x); lia).
  pose proof (march_start_next y) as Hn. pose proof (march_start_next y') as Hn'.
  pose proof (Hlast mp (y + 1) Hmp) as Hl. pose proof (Hlast mp' (y' + 1) Hmp') as Hl'.
  assert (y = y') as <-.
  { destruct (Z.lt_trichotomy y y') as [Hlt|[|Hlt]]; [|done|].
    - pose proof (march_start_le (y + 1) y' ltac:(lia)). lia.
    - pose proof (march_start_le (y' + 1) y ltac:(lia)). lia. }
  assert (mp = mp') as <-.
  { clear Hl Hl' Hn Hn' Hlast. destruct (Z.lt_trichotomy mp mp') as [Hlt|[|Hlt]]; [|done|].
    - replace (mp =? 11) with false in H by lia. lia.
    - replace (mp' =? 11) with false in H' by lia. lia. }
  f_equal. lia.
Qed.

Lemma next_day_ok dt : date_ok dt -> date_ok (next_day dt) /\ day_number (next_day dt) = day_number dt + 1.
Proof.
  destruct dt as [[y m] d]. intros [Hm Hd]. unfold next_day.
  assert (Hlen : forall y m, 28 <= month_days y m).
  { intros y' m'. unfold month_days. cases_goal. }
  destruct (d <? month_days y m) eqn:E.
  - split; [split; [done|lia]|]. simpl. rewrite !days_from_civil_march by lia. unfold march_days. lia.
  - assert (d = month_days y m) as -> by lia. clear E Hd.
    assert (Hc : m = 1 \/ m = 2 \/ m = 3 \/ m = 4 \/ m = 5 \/ m = 6 \/ m = 7 \/ m = 8
      \/ m = 9 \/ m = 10 \/ m = 11 \/ m = 12) by lia.
    pose proof (march_start_next (y - 1)) as Hn. unfold march_start in Hn.
    replace (y - 1 + 1) with y in Hn by lia.
    split.
    { pose proof (Hlen y (m + 1)). pose proof (Hlen (y + 1) 1).
      destruct (m <? 12) eqn:E; unfold date_ok; lia. }
    destruct Hc as [->|[->|[->|[->|[->|[->|[->|[->|[->|[->|[->| ->]]]]]]]]]]];
      simpl; rewrite !days_from_civil_march by lia; unfold march_days, month_days; simpl;
      try lia; destruct (leap y); lia.
Qed.

(** ** The text *)

(** A field of the stamp: as wide as asked, digits only, and worth its value. *)
Lemma padded_field w n :
  (0 < w <= 18)%nat -> 0 <= n < 10 ^ Z.of_nat w ->
  length (padded w n) = w /\ all_digits (padded w n) /\ digits_value (padded w n) = n.
Proof.
  intros Hw Hn. unfold padded. replace (n <? 0) with false by lia. rewrite Z.abs_eq by lia.
  assert (Hlen : (length (decimal_fuel 20 n) <= w)%nat) by (apply decimal_fuel_length; lia).
  split_and!.
  - rewrite length_app, length_replicate. lia.
  - apply Forall_app. split; [by apply Forall_replicate|]. apply decimal_fuel_digits. lia.
  - rewrite digits_value_zeros. apply digits_value_decimal.
    assert (10 ^ Z.of_nat w <= 10 ^ Z.of_nat 20) by (apply Z.pow_le_mono_r; lia). lia.
Qed.

Lemma ascii_boundary s n : ascii s -> (n <= length s)%nat -> is_char_boundary s n = true.
Proof.
  intros Hs Hn. unfold is_char_boundary. destruct n as [|n]; [done|].
  destruct (s !! S n) as [b|] eqn:Hb.
  - unfold ascii in Hs. rewrite Forall_lookup in Hs. specialize (Hs _ _ Hb). unfold is_cont. simpl in Hs. lia.
  - apply lookup_ge_None in Hb. lia.
Qed.

Lemma str_get_range_ascii l m k :
  ascii (l ++ m ++ k) -> str_get_range (l ++ m ++ k) (length l) (length l + length m) = Some m.
Proof.
  intros H. unfold str_get_range.
  rewrite !ascii_boundary by (done || (rewrite !length_app; lia)).
  replace (length l <=? length l + length m)%nat with true by lia. simpl.
  rewrite drop_app_length. replace (length l + length m - length l)%nat with (length m) by lia.
  by rewrite take_app_length.
Qed.

Lemma parse_i64_digits s :
  s <> [] -> all_digits s -> 0 <= digits_value s <= i64_max -> parse_i64 s = Some (digits_value s).
Proof. intros. unfold parse_i64, i64_min. by apply parse_signed_digits; [done..|lia]. Qed.

Lemma num_field l m k a b :
  ascii (l ++ m ++ k) -> a = length l -> b = (length l + length m)%nat ->
  m <> [] -> all_digits m -> 0 <= digits_value m <= i64_max ->
  num (l ++ m ++ k) a b = Ok (digits_value m).
Proof.
  intros Ha -> -> ???. unfold num. rewrite str_get_range_ascii by done. simpl.
  by rewrite parse_i64_digits.
Qed.

Definition stamp (Y M D h m s : str) : str :=
  Y ++ chr "-" :: M ++ chr "-" :: D ++ chr "T" :: h ++ chr ":" :: m ++ chr ":" :: s ++ [chr "Z"].

Lemma stamp_ascii Y M D h m s :
  all_digits Y -> all_digits M -> all_digits D -> all_digits h -> all_digits m -> all_digits s ->
  ascii (stamp Y M D h m s).
Proof.
  intros HY HM HD Hh Hm Hs. unfold stamp, ascii.
  repeat first [apply Forall_app; split | apply Forall_cons; split];
    first [by apply all_digits_ascii | by constructor | lia].
Qed.

Lemma stamp_read Y M D h m s :
  all_digits Y -> all_digits M -> all_digits D -> all_digits h -> all_digits m -> all_digits s ->
  length Y = 4%nat -> length M = 2%nat -> length D = 2%nat ->
  length h = 2%nat -> length m = 2%nat -> length s = 2%nat ->
  0 <= digits_value Y <= 9999 -> 1 <= digits_value M <= 12 -> 1 <= digits_value D <= 31 ->
  0 <= digits_value h <= 23 -> 0 <= digits_value m <= 59 -> 0 <= digits_value s <= 59 ->
  to_unix_seconds (stamp Y M D h m s) =
  Ok (days_from_civil (digits_value Y) (digits_value M) (digits_value D) * 86400
      + digits_value h * 3600 + digits_value m * 60 + digits_value s).
Proof.
  intros HY HM HD Hh Hm Hs lY lM lD lh lm ls vY vM vD vh vm vs.
  pose proof (stamp_ascii Y M D h m s HY HM HD Hh Hm Hs) as Ha.
  do 5 (destruct Y as [|? Y]; try done). do 3 (destruct M as [|? M]; try done).
  do 3 (destruct D as [|? D]; try done). do 3 (destruct h as [|? h]; try done).
  do 3 (destruct m as [|? m]; try done). do 3 (destruct s as [|? s]; try done).
  set (t := stamp _ _ _ _ _ _) in *.
  assert (Hnum : forall l f k a b v, t = l ++ f ++ k -> a = length l -> b = (length l + length f)%nat ->
    f <> [] -> all_digits f -> v = digits_value f -> 0 <= v <= 9999 -> num t a b = Ok v).
  { intros l f k a b v E -> -> ?? -> ?. rewrite E in *. apply num_field; unfold i64_max; (done || lia). }
  unfold to_unix_seconds. change (length t <? 19)%nat with false.
  rewrite (Hnum [] [z; z0; z1; z2] (drop 4 t) 0%nat 4%nat _ eq_refl eq_refl eq_refl ltac:(done) HY eq_refl) by lia.
  rewrite (Hnum (take 5 t) [z3; z4] (drop 7 t) 5%nat 7%nat _ eq_refl eq_refl eq_refl ltac:(done) HM eq_refl) by lia.
  rewrite (Hnum (take 8 t) [z5; z6] (drop 10 t) 8%nat 10%nat _ eq_refl eq_refl eq_refl ltac:(done) HD eq_refl) by lia.
  rewrite (Hnum (take 11 t) [z7; z8] (drop 13 t) 11%nat 13%nat _ eq_refl eq_refl eq_refl ltac:(done) Hh eq_refl) by lia.
  rewrite (Hnum (take 14 t) [z9; z10] (drop 16 t) 14%nat 16%nat _ eq_refl eq_refl eq_refl ltac:(done) Hm eq_refl) by lia.
  rewrite (Hnum (take 17 t) [z11; z12] (drop 19 t) 17%nat 19%nat _ eq_refl eq_refl eq_refl ltac:(done) Hs eq_refl) by lia.
  assert (str_get_from t 19 = Some [chr "Z"]) as ->.
  { apply (str_get_range_ascii (take 19 t) [chr "Z"] []). exact Ha. }
  set (vY' := digits_value [z; z0; z1; z2]) in *. set (vM' := digits_value [z3; z4]) in *.
  set (vD' := digits_value [z5; z6]) in *. set (vh' := digits_value [z7; z8]) in *.
  set (vm' := digits_value [z9; z10]) in *. set (vs' := digits_value [z11; z12]) in *.
  clearbody vY' vM' vD' vh' vm' vs'. cbn.
  replace (1 <=? vM') with true by lia. replace (vM' <=? 12) with true by lia.
  replace (1 <=? vD') with true by lia. replace (vD' <=? 31) with true by lia.
  replace (23 <? vh') with false by lia. replace (59 <? vm') with false by lia.
  replace (61 <? vs') with false by lia. cbn. f_equal.
  unfold wrap32. rewrite !wrap_small by lia. lia.
Qed.

(** What the reader lets through although it is no date or time of day: a
    signed field, the 31st of February, and a leap second, which is counted
    into the next minute rather than clamped. *)
Lemma signed_fields_accepted :
  to_unix_seconds (bstr "2025-06-01T-5:00:00Z") = Ok (1748736000 - 5 * 3600) /\
  to_unix_seconds (bstr "2025-02-31T00:00:00Z") = to_unix_seconds (bstr "2025-03-03T00:00:00Z").
Proof. split; reflexivity. Qed.

Lemma leap_second_not_clamped :
  to_unix_seconds (bstr "2016-12-31T23:59:60Z") = to_unix_seconds (bstr "2017-01-01T00:00:00Z") /\
  to_unix_seconds (bstr "2016-12-31T23:59:60Z") <> to_unix_seconds (bstr "2016-12-31T23:59:59Z").
Proof. by split. Qed.

(** * Properties *)

(** The hand-rolled calendar is the proleptic Gregorian one, for every day
    before and after the epoch: day 0 is 1970-01-01, each following day is the
    calendar's next day (month lengths and the 4/100/400 leap rule included),
    and [days_from_civil] of the dashboard is its exact inverse. *)
Theorem calendar_exact :
  civil_from_days 0 = (1970, 1, 1) /\
  (forall n, civil_from_days (n + 1) = next_day (civil_from_days n)) /\
  (forall n, day_number (civil_from_days n) = n) /\
  (forall dt, date_ok dt -> civil_from_days (day_number dt) = dt).
Proof.
  assert (Hok : forall n, date_ok (civil_from_days n) /\ day_number (civil_from_days n) = n).
  { intros n. destruct (civil_from_days_march n) as (y&mp&d&->&Hmp&?&?). by rewrite day_number_march. }
  split_and!; [done| |apply Hok|].
  - intros n. destruct (Hok n) as [H1 H2], (Hok (n + 1)) as [H3 H4].
    destruct (next_day_ok _ H1). apply day_number_inj; [done..|]. lia.
  - intros dt Hdt. apply day_number_inj; [apply Hok|done|apply Hok].
Qed.

(** A generation's stamp survives the trip: what [rfc3339] writes for any
    instant of the years 0 to 9999, the dashboard's [to_unix_seconds] reads
    back as that instant to the second. *)
Theorem stamp_roundtrip (time : Z)
    (Hyear : 0 <= (civil_from_days (unix_seconds time / 86400)).1.1 <= 9999) :
  to_unix_seconds (rfc3339 time) = Ok (unix_seconds time).
Proof.
  unfold rfc3339. set (seconds := unix_seconds time) in *. clearbody seconds.
  destruct (civil_from_days_march (seconds / 86400)) as (y&mp&d&Hc&Hmp&Hok&Hn).
  rewrite <- (day_number_march y mp d), <- Hc in Hn by done. rewrite <- Hc in Hok. clear Hc.
  destruct (civil_from_days (seconds / 86400)) as [[Y M] D]. destruct Hok as [HM HD].
  assert (HD' : D <= 31) by (revert HD; unfold month_days; repeat case_match; lia).
  simpl in Hyear, Hn. set (tod := seconds mod 86400).
  assert (Htod : 0 <= tod < 86400) by lia.
  rewrite !(Z.quot_div_nonneg tod), !Z.rem_mod_nonneg by lia.
  change (to_unix_seconds (stamp (padded 4 Y) (padded 2 M) (padded 2 D) (padded 2 (tod / 3600))
    (padded 2 ((tod / 60) mod 60)) (padded 2 (tod mod 60))) = Ok seconds).
  pose proof (padded_field 4 Y ltac:(lia) ltac:(simpl; lia)) as (lY&dY&vY).
  pose proof (padded_field 2 M ltac:(lia) ltac:(simpl; lia)) as (lM&dM&vM).
  pose proof (padded_field 2 D ltac:(lia) ltac:(simpl; lia)) as (lD&dD&vD).
  pose proof (padded_field 2 (tod / 3600) ltac:(lia) ltac:(simpl; lia)) as (lh&dh&vh).
  pose proof (padded_field 2 ((tod / 60) mod 60) ltac:(lia) ltac:(simpl; lia)) as (lm&dm&vm).
  pose proof (padded_field 2 (tod mod 60) ltac:(lia) ltac:(simpl; lia)) as (ls&ds&vs).
  rewrite stamp_read; rewrite ?vY, ?vM, ?vD, ?vh, ?vm, ?vs; try (done || lia).
  f_equal. rewrite Hn. unfold tod. lia.
Qed.

Lemma stamp_roundtrip_witness :
  to_unix_seconds (rfc3339 1709164800999999999) = Ok 1709164800.
Proof. apply (stamp_roundtrip 1709164800999999999). vm_compute. split; discriminate. Defined.

Lemma calendar_exact_witness : civil_from_days (day_number (2024, 2, 29)) = (2024, 2, 29).
Proof. destruct calendar_exact as (_&_&_&H). apply H. split; [lia|vm_compute; split; discriminate]. Defined.
