(* ===== verification/ProxyProtocol.v ===== *)
(** The PROXY protocol: [crates/ramjet-proxy/src/proxy_protocol.rs].

    [parse] is the pure incremental parser with its v1 (text) and v2 (binary)
    branches; [read_header] is the loop that feeds it from a socket, here a
    list of what each read brings; [Prefixed] replays the surplus. *)

From S2P Require Import Prelude NetText.

Definition V1_SIGNATURE : bytes := bstr "PROXY ".
Definition V1_MAX_LEN : usize := 107.
Definition V2_SIGNATURE : bytes := [13; 10; 13; 10; 0; 13; 10; 81; 85; 73; 84; 10].
Definition V2_PREAMBLE_LEN : usize := 16.
Definition V2_INET_LEN : usize := 12.
Definition V2_INET6_LEN : usize := 36.
(** [V2_PREAMBLE_LEN + u16::MAX]. *)
Definition MAX_HEADER_LEN : Z := Z.of_nat V2_PREAMBLE_LEN + u16_max.

Inductive Parsed :=
| Incomplete
| Done (consumed : usize) (client : option SocketAddr).

Inductive HeaderError :=
| Signature
| Malformed (why : str).

(** The [io::Error] of a failed or closed socket is one value here. *)
Inductive AcceptError :=
| Io
| Timeout
| Header (e : HeaderError).

Fixpoint signature_matches (input signature : bytes) {struct signature} : result HeaderError bool :=
  match signature with
  | [] => Ok true
  | expected :: signature' =>
      match input with
      | [] => Ok false
      | byte :: input' => if byte =? expected then signature_matches input' signature' else Err Signature
      end
  end.

Definition port (field : str) : result HeaderError u16 :=
  if bool_decide (field = []) || negb (forallb is_ascii_digit field)
  then Err (Malformed (bstr "a v1 port is not a decimal number"))
  else ok_or (parse_u16_digits field) (Malformed (bstr "a v1 port is outside 0-65535")).

(** The fields of a complete v1 line, signature and CRLF removed. *)
Definition v1_client (fields : str) : result HeaderError (option SocketAddr) :=
  if bool_decide (fields = bstr "UNKNOWN") || starts_with (bstr "UNKNOWN ") fields then Ok None
  else match split_on SP fields with
  | [family; source; destination; source_port; destination_port] =>
      sport ← port source_port;
      _ ← port destination_port;
      if bool_decide (family = bstr "TCP4") then
        match parse_ipv4 source, parse_ipv4 destination with
        | Some ip, Some _ => Ok (Some (SocketV4 ip sport))
        | _, _ => Err (Malformed (bstr "a TCP4 line names a non-IPv4 address"))
        end
      else if bool_decide (family = bstr "TCP6") then
        match parse_ipv6 source, parse_ipv6 destination with
        | Some ip, Some _ => Ok (Some (SocketV6 ip sport 0 0))
        | _, _ => Err (Malformed (bstr "a TCP6 line names a non-IPv6 address"))
        end
      else Err (Malformed (bstr "a v1 line names a protocol other than TCP4, TCP6 or UNKNOWN"))
  | _ :: _ :: _ :: _ :: _ :: _ :: _ => Err (Malformed (bstr "a v1 line has trailing fields"))
  | _ => Err (Malformed (bstr "a v1 line is missing fields"))
  end.

Definition parse_v1 (input : bytes) : result HeaderError Parsed :=
  matched ← signature_matches input V1_SIGNATURE;
  if negb matched then Ok Incomplete
  else
    let searchable := Nat.min (length input) (V1_MAX_LEN - 1) in
    match position (fun b => b =? CR) (take searchable input) with
    | None =>
        if (searchable =? V1_MAX_LEN - 1)%nat
        then Err (Malformed (bstr "a v1 line reached its 107-byte limit without a CRLF"))
        else Ok Incomplete
    | Some cr =>
        match input !! (cr + 1)%nat with
        | None => Ok Incomplete
        | Some byte =>
            if negb (byte =? LF) then Err (Malformed (bstr "a v1 line contains a bare CR"))
            else
              let consumed := (cr + 2)%nat in
              match get_range input (length V1_SIGNATURE) cr with
              | None => Ok Incomplete
              | Some raw =>
                  match from_utf8 raw with
                  | None => Err (Malformed (bstr "a v1 line is not ASCII"))
                  | Some fields => client ← v1_client fields; Ok (Done consumed client)
                  end
              end
        end
    end.

(** [u16::from_be_bytes]. *)
Definition from_be_bytes (high low : u8) : u16 := high * 256 + low.

Definition proxied_address (family_protocol : u8) (body : bytes)
    : result HeaderError (option SocketAddr) :=
  let family := Z.shiftr family_protocol 4 in
  if family =? 0 then Ok None
  else if family =? 1 then
    match get_to body 4, get_range body 8 10, get_range body 10 V2_INET_LEN with
    | Some [a; b; c; d], Some [high; low], Some _ =>
        Ok (Some (SocketV4 [a; b; c; d] (from_be_bytes high low)))
    | _, _, _ => Err (Malformed (bstr "a v2 INET header is shorter than its 12-byte address block"))
    end
  else if family =? 2 then
    match get_to body 16, get_range body 32 34, get_range body 34 V2_INET6_LEN with
    | Some address, Some [high; low], Some _ =>
        Ok (Some (SocketV6 address (from_be_bytes high low) 0 0))
    | _, _, _ => Err (Malformed (bstr "a v2 INET6 header is shorter than its 36-byte address block"))
    end
  else if family =? 3 then Ok None
  else Err (Malformed (bstr "a v2 header declares an unknown address family")).

Definition parse_v2 (input : bytes) : result HeaderError Parsed :=
  matched ← signature_matches input V2_SIGNATURE;
  if negb matched then Ok Incomplete
  else match input !! 12%nat with
  | None => Ok Incomplete
  | Some version_command =>
      if negb (Z.shiftr version_command 4 =? 2)
      then Err (Malformed (bstr "a v2 header declares a version other than 2"))
      else
        let command := Z.land version_command 15 in
        if 1 <? command
        then Err (Malformed (bstr "a v2 header declares a command other than LOCAL or PROXY"))
        else match input !! 13%nat, get_range input 14 16 with
        | Some family_protocol, Some [high; low] =>
            let consumed := (V2_PREAMBLE_LEN + Z.to_nat (from_be_bytes high low))%nat in
            match get_range input V2_PREAMBLE_LEN consumed with
            | None => Ok Incomplete
            | Some body =>
                client ← if command =? 1 then proxied_address family_protocol body else Ok None;
                Ok (Done consumed client)
            end
        | _, _ => Ok Incomplete
        end
  end.

Definition parse (input : bytes) : result HeaderError Parsed :=
  match input with
  | [] => Ok Incomplete
  | b :: _ =>
      if b =? 13 then parse_v2 input
      else if b =? chr "P" then parse_v1 input
      else Err Signature
  end.

(** ** Reading from a socket *)

(** What one [read_buf] brings: bytes (none of them at end of stream), an I/O
    error, or the deadline of [timeout] passing first. *)
Inductive ReadEvent :=
| Arrived (chunk : bytes)
| Failed
| Deadline.

(** The loop of [read_header]; the last component is what the socket still
    holds.  A stream that never says more is at its end. *)
Fixpoint read_header (buffer : bytes) (stream : list ReadEvent)
    : result AcceptError (option SocketAddr * bytes * list ReadEvent) :=
  match parse buffer with
  | Err e => Err (Header e)
  | Ok (Done consumed client) => Ok (client, drop consumed buffer, stream)
  | Ok Incomplete =>
      match stream with
      | [] | Arrived [] :: _ => Err Io
      | Failed :: _ => Err Io
      | Deadline :: _ => Err Timeout
      | Arrived chunk :: rest => read_header (buffer ++ chunk) rest
      end
  end.

(** [Prefixed]: the surplus in front of the socket's own bytes. *)
Record Prefixed := MkPrefixed { prefix : bytes; inner : list ReadEvent }.
Definition buffered (p : Prefixed) : usize := length (prefix p).

Definition accept (stream : list ReadEvent) : result AcceptError (Prefixed * option SocketAddr) :=
  '(client, leftover, rest) ← read_header [] stream;
  Ok (MkPrefixed leftover rest, client).

(** A read of the socket into [remaining] bytes of room. *)
Definition inner_read (stream : list ReadEvent) (remaining : usize) : ReadEvent * list ReadEvent :=
  match stream with
  | [] => (Arrived [], [])
  | Arrived chunk :: rest =>
      if (length chunk <=? remaining)%nat then (Arrived chunk, rest)
      else (Arrived (take remaining chunk), Arrived (drop remaining chunk) :: rest)
  | e :: rest => (e, rest)
  end.

(** [poll_read]. *)
Definition poll_read (p : Prefixed) (remaining : usize) : ReadEvent * Prefixed :=
  match prefix p with
  | [] => let '(e, rest) := inner_read (inner p) remaining in (e, MkPrefixed [] rest)
  | _ =>
      let n := Nat.min (length (prefix p)) remaining in
      (Arrived (take n (prefix p)), MkPrefixed (drop n (prefix p)) (inner p))
  end.

(** * The parser only looks at the header *)

Lemma signature_matches_spec input signature :
  match signature_matches input signature with
  | Ok true => exists rest, input = signature ++ rest
  | Ok false => exists missing, signature = input ++ missing /\ missing <> []
  | Err e => e = Signature
  end.
Proof.
  revert input. induction signature as [|x signature IH]; intros input; simpl; [by exists input|].
  destruct input as [|b input]; [by exists (x :: signature)|].
  destruct (b =? x) eqn:E; [|done]. assert (b = x) as -> by lia.
  specialize (IH input). cases_goal.
  - destruct IH as [rest ->]. by exists rest.
  - destruct IH as (missing&->&?). by exists missing.
Qed.

Lemma signature_matches_prefix signature rest : signature_matches (signature ++ rest) signature = Ok true.
Proof. induction signature as [|x s IH]; [done|]. simpl. by rewrite Z.eqb_refl. Qed.

Lemma signature_matches_app input k signature :
  signature_matches input signature <> Ok false ->
  signature_matches (input ++ k) signature = signature_matches input signature.
Proof.
  revert input. induction signature as [|x signature IH]; intros input; simpl; [done|].
  destruct input as [|b input]; [done|]. simpl. case_match; [|done]. apply IH.
Qed.

(** What [parse] decides, it decides whatever follows. *)
Definition decided (r : result HeaderError Parsed) : Prop := r <> Ok Incomplete.

Lemma parse_v1_app input k : decided (parse_v1 input) -> parse_v1 (input ++ k) = parse_v1 input.
Proof.
  unfold decided, parse_v1, mbind, result_bind. intros H.
  rewrite signature_matches_app by (intros E; by rewrite E in H).
  destruct (signature_matches _ _) as [[]|e]; [|done..]. cbn [negb] in *. revert H.
  set (n := Nat.min (length input) (V1_MAX_LEN - 1)).
  set (n' := Nat.min (length (input ++ k)) (V1_MAX_LEN - 1)).
  assert (n <= length input /\ n <= n')%nat as [Hn Hnn'] by (unfold n, n'; rewrite length_app; lia).
  assert (Hpre : take n' (input ++ k) = take n input ++ drop n (take n' (input ++ k))).
  { rewrite <- (take_drop n (take n' (input ++ k))) at 1.
    by rewrite take_take, Nat.min_l, take_app_le by lia. }
  destruct (position _ (take n input)) as [cr|] eqn:Hcr.
  - rewrite Hpre, position_app, Hcr. destruct (input !! (cr + 1)%nat) as [b|] eqn:Hb; [|done].
    rewrite (lookup_app_l_Some _ _ _ _ Hb). case_match; [done|].
    destruct (get_range input _ cr) as [raw|] eqn:Hr; [|done].
    by rewrite (get_range_app _ _ _ _ _ Hr).
  - case_match; [|done]. intros _.
    assert (n' = n) as -> by (unfold n, n' in *; rewrite length_app; lia).
    rewrite take_app_le, Hcr by lia. by rewrite H.
Qed.

Lemma parse_v2_app input k : decided (parse_v2 input) -> parse_v2 (input ++ k) = parse_v2 input.
Proof.
  unfold decided, parse_v2, mbind, result_bind. intros H.
  rewrite signature_matches_app by (intros E; by rewrite E in H).
  destruct (signature_matches _ _) as [[]|e]; [|done..]. cbn [negb] in *. revert H.
  destruct (input !! 12%nat) as [vc|] eqn:H12; [|done].
  rewrite (lookup_app_l_Some _ _ _ _ H12). case_match; [done|]. case_match; [done|].
  destruct (input !! 13%nat) as [fp|] eqn:H13; [|done].
  rewrite (lookup_app_l_Some _ _ _ _ H13).
  destruct (get_range input 14 16) as [len|] eqn:Hlen; [|done].
  rewrite (get_range_app _ _ _ _ _ Hlen). do 3 (destruct len as [|? len]; try done).
  destruct (get_range input V2_PREAMBLE_LEN _) as [body|] eqn:Hbody; [|done].
  by rewrite (get_range_app _ _ _ _ _ Hbody).
Qed.

Lemma parse_app input k : decided (parse input) -> parse (input ++ k) = parse input.
Proof.
  unfold decided. destruct input as [|b input]; [done|]. simpl.
  case_match; [apply (parse_v2_app (b :: input))|].
  case_match; [apply (parse_v1_app (b :: input))|done].
Qed.

(** ** How much a header can take *)

Lemma v1_extent input :
  match parse_v1 input with
  | Ok Incomplete => (length input < V1_MAX_LEN)%nat
  | Ok (Done consumed _) => (8 <= consumed <= length input)%nat /\ (consumed <= V1_MAX_LEN)%nat
  | Err _ => True
  end.
Proof.
  unfold parse_v1, mbind, result_bind.
  pose proof (signature_matches_spec input V1_SIGNATURE) as Hs.
  destruct (signature_matches _ _) as [[]|e]; [| |done]; cbn [negb].
  2: { destruct Hs as (missing&Hs&_). apply (f_equal length) in Hs. rewrite length_app in Hs.
       change (length V1_SIGNATURE) with 6%nat in Hs. unfold V1_MAX_LEN. lia. }
  destruct Hs as [rest ->]. set (n := Nat.min _ _).
  assert (Hn : (n <= 106)%nat) by (unfold n, V1_MAX_LEN; lia).
  destruct (position _ (take n _)) as [cr|] eqn:Hcr.
  - pose proof (position_lt _ _ _ Hcr) as Hlt. rewrite length_take in Hlt.
    assert (6 <= cr)%nat.
    { apply position_Some in Hcr as (x&Hx&Hp&_). rewrite lookup_take in Hx.
      case_decide; [|done]. do 6 (destruct cr as [|cr]; [simplify_eq/=|]); lia. }
    destruct (_ !! (cr + 1)%nat) as [b|] eqn:Hb.
    + apply lookup_lt_Some in Hb. destruct (negb (b =? LF)); [done|].
      destruct (get_range _ _ cr) as [raw|] eqn:Hr.
      * destruct (from_utf8 raw); [|done]. destruct (v1_client _); [|done]. unfold V1_MAX_LEN. lia.
      * apply get_range_None in Hr. change (length V1_SIGNATURE) with 6%nat in Hr. lia.
    + apply lookup_ge_None in Hb. unfold V1_MAX_LEN. lia.
  - destruct (n =? _)%nat eqn:E; [done|]. unfold n, V1_MAX_LEN in *. lia.
Qed.

Lemma lookup_is_byte (l : bytes) i b : Forall is_byte l -> l !! i = Some b -> is_byte b.
Proof. intros H. by apply Forall_lookup_1. Qed.

Lemma get_range_bytes l a b x : Forall is_byte l -> get_range l a b = Some x -> Forall is_byte x.
Proof.
  unfold get_range. intros H. case_match; [|done]. intros [= <-].
  by apply Forall_take, Forall_drop.
Qed.

Lemma from_be_bytes_range h l : is_byte h -> is_byte l -> 0 <= from_be_bytes h l <= u16_max.
Proof. unfold is_byte, from_be_bytes, u16_max. lia. Qed.

Lemma v2_extent input :
  match parse_v2 input with
  | Ok Incomplete => Forall is_byte input -> Z.of_nat (length input) < MAX_HEADER_LEN
  | Ok (Done consumed _) => (16 <= consumed <= length input)%nat /\
      (Forall is_byte input -> Z.of_nat consumed <= MAX_HEADER_LEN)
  | Err _ => True
  end.
Proof.
  unfold parse_v2, mbind, result_bind, MAX_HEADER_LEN, V2_PREAMBLE_LEN, u16_max.
  pose proof (signature_matches_spec input V2_SIGNATURE) as Hs.
  destruct (signature_matches _ _) as [[]|e]; [| |done]; cbn [negb].
  2: { destruct Hs as (missing&Hs&_). apply (f_equal length) in Hs. rewrite length_app in Hs.
       change (length V2_SIGNATURE) with 12%nat in Hs. lia. }
  clear Hs. destruct (input !! 12%nat) as [vc|] eqn:H12; [|apply lookup_ge_None in H12; lia].
  destruct (negb _); [done|]. destruct (1 <? _); [done|].
  destruct (input !! 13%nat) as [fp|] eqn:H13; [|apply lookup_ge_None in H13; lia].
  destruct (get_range input 14 16) as [len|] eqn:Hlen; [|apply get_range_None in Hlen; lia].
  assert (Hb : Forall is_byte input -> Forall is_byte len) by (intros; by eapply get_range_bytes).
  apply get_range_Some in Hlen as [_ Hlen]. do 3 (destruct len as [|? len]; try done).
  assert (Hr : Forall is_byte input -> 0 <= from_be_bytes z z0 <= 65535).
  { intros H. specialize (Hb H). rewrite !Forall_cons in Hb. destruct Hb as (Hh&Hl&_).
    apply (from_be_bytes_range _ _ Hh Hl). }
  destruct (get_range input 16 _) as [body|] eqn:Hbody.
  - apply get_range_Some in Hbody as [? _]. destruct (if _ =? 1 then _ else _); [|done].
    split; [lia|]. intros HB. specialize (Hr HB). lia.
  - apply get_range_None in Hbody. intros HB. specialize (Hr HB). lia.
Qed.

Lemma parse_extent input :
  match parse input with
  | Ok Incomplete => Forall is_byte input -> Z.of_nat (length input) < MAX_HEADER_LEN
  | Ok (Done consumed _) => (8 <= consumed <= length input)%nat /\
      (Forall is_byte input -> Z.of_nat consumed <= MAX_HEADER_LEN)
  | Err _ => True
  end.
Proof.
  assert (HM : Z.of_nat V1_MAX_LEN < MAX_HEADER_LEN) by done.
  destruct input as [|b input]; [done|]. unfold parse. destruct (b =? 13).
  - pose proof (v2_extent (b :: input)) as H. destruct (parse_v2 _) as [[|n c]|]; [exact H| |done].
    split; [lia|apply H].
  - destruct (b =? chr "P"); [|done]. pose proof (v1_extent (b :: input)) as Hv.
    destruct (parse_v1 _) as [[|n c]|]; [lia| |done]. lia.
Qed.

(** ** The stream *)

Definition pending (stream : list ReadEvent) : bytes :=
  flat_map (fun e => match e with Arrived chunk => chunk | _ => [] end) stream.
(** What the connection still has to say. *)
Definition content (p : Prefixed) : bytes := prefix p ++ pending (inner p).
(** Every read brings something, none fails. *)
Definition lively (e : ReadEvent) : Prop := exists chunk, e = Arrived chunk /\ chunk <> [].

Lemma read_header_stream buffer stream :
  Forall lively stream ->
  match parse (buffer ++ pending stream) with
  | Ok (Done consumed client) => exists leftover rest,
      read_header buffer stream = Ok (client, leftover, rest) /\ Forall lively rest /\
      leftover ++ pending rest = drop consumed (buffer ++ pending stream)
  | Ok Incomplete => read_header buffer stream = Err Io
  | Err e => read_header buffer stream = Err (Header e)
  end.
Proof.
  intros Hl. revert buffer. induction Hl as [|e stream (chunk&->&Hc) Hl IH]; intros buffer; simpl.
  - rewrite !app_nil_r. destruct (parse buffer) as [[|n c]|e]; [done| |done].
    exists (drop n buffer), []. split_and!; [done|constructor|by rewrite app_nil_r].
  - pose proof (parse_extent buffer) as Hx.
    destruct (parse buffer) as [[|n c]|e] eqn:Hp.
    + rewrite app_assoc. destruct chunk as [|x chunk]; [done|]. apply IH.
    + rewrite parse_app, Hp by (unfold decided; by rewrite Hp).
      exists (drop n buffer), (Arrived chunk :: stream). split_and!; [done| |].
      * constructor; [by exists chunk|done].
      * simpl. by rewrite drop_app_le by lia.
    + by rewrite parse_app, Hp by (unfold decided; by rewrite Hp).
Qed.

(** The reads of a connection, each with its room. *)
Fixpoint reads (p : Prefixed) (rooms : list usize) : bytes * Prefixed :=
  match rooms with
  | [] => ([], p)
  | room :: rooms' =>
      match poll_read p room with
      | (Arrived chunk, p') => let '(more, p'') := reads p' rooms' in (chunk ++ more, p'')
      | (_, p') => reads p' rooms'
      end
  end.

Lemma poll_read_step p room :
  Forall lively (inner p) -> (0 < room)%nat ->
  exists chunk p', poll_read p room = (Arrived chunk, p') /\ Forall lively (inner p') /\
    content p = chunk ++ content p' /\ (content p = [] \/ chunk <> []).
Proof.
  destruct p as [pre inn]. unfold poll_read, content. simpl. intros Hl Hroom.
  destruct pre as [|x pre].
  - destruct Hl as [|e inn (chunk&->&Hc) Hl]; simpl.
    + exists [], (MkPrefixed [] []). split_and!; auto.
    + destruct (length chunk <=? room)%nat eqn:E.
      * exists chunk, (MkPrefixed [] inn). simpl. split_and!; auto.
      * exists (take room chunk), (MkPrefixed [] (Arrived (drop room chunk) :: inn)). simpl.
        rewrite app_assoc, take_drop. split_and!; [done| |done|right].
        -- constructor; [|done]. exists (drop room chunk). split; [done|].
           intros Hd%(f_equal length). rewrite length_drop in Hd. simpl in Hd. lia.
        -- destruct chunk, room; simpl in *; (done || lia).
  - set (n := Nat.min _ room).
    assert (Hn : (0 < n)%nat) by (unfold n; cbn [length]; lia). clearbody n. exists (take n (x :: pre)), (MkPrefixed (drop n (x :: pre)) inn).
    split_and!; [done|done| |right].
    + simpl inner. simpl prefix. by rewrite app_assoc, take_drop.
    + by destruct n; [lia|].
Qed.

Lemma reads_replay p rooms :
  Forall lively (inner p) -> Forall (fun room => (0 < room)%nat) rooms ->
  exists delivered p', reads p rooms = (delivered, p') /\ content p = delivered ++ content p' /\
    ((length (content p) <= length rooms)%nat -> delivered = content p).
Proof.
  intros Hl Hr. revert p Hl. induction Hr as [|room rooms Hroom Hr IH]; intros p Hl; simpl.
  - exists [], p. split_and!; [done..|]. intros. destruct (content p); simpl in *; [done|lia].
  - destruct (poll_read_step p room Hl Hroom) as (chunk&p'&->&Hl'&Hc&Hlive).
    destruct (IH p' Hl') as (more&p''&->&Hc'&Hall).
    exists (chunk ++ more), p''. split_and!; [done|by rewrite Hc, Hc', app_assoc|].
    intros Hlen. rewrite Hc. f_equal. apply Hall. rewrite Hc, length_app in Hlen.
    destruct Hlive as [Hn|Hn].
    + rewrite Hn in Hc. symmetry in Hc. apply app_nil in Hc as [-> ->]. simpl. lia.
    + destruct chunk; [done|]. simpl in Hlen. lia.
Qed.

(** ** Senders *)

(** [u16::to_be_bytes]. *)
Definition to_be_bytes (n : Z) : bytes := [n / 256; n mod 256].

Lemma be_bytes_roundtrip n : from_be_bytes (n / 256) (n mod 256) = n.
Proof. unfold from_be_bytes. pose proof (Z.div_mod n 256). lia. Qed.

(** A v2 sender: the client's address and port, the destination's, and any
    TLVs after them; nobody is announced with a LOCAL header. *)
Definition v2_body (client : option SocketAddr) (dst : bytes) (dport : Z) (tlvs : bytes) : bytes :=
  match client with
  | None => tlvs
  | Some (SocketV4 ip p) | Some (SocketV6 ip p _ _) =>
      ip ++ dst ++ to_be_bytes p ++ to_be_bytes dport ++ tlvs
  end.
Definition v2_header (client : option SocketAddr) (dst : bytes) (dport : Z) (tlvs : bytes) : bytes :=
  let body := v2_body client dst dport tlvs in
  V2_SIGNATURE ++
  match client with
  | None => [32; 0]
  | Some (SocketV4 _ _) => [33; 17]
  | Some (SocketV6 _ _ _ _) => [33; 33]
  end ++ to_be_bytes (Z.of_nat (length body)) ++ body.
(** Addresses of the family's size; a PROXY header has no flow label or scope. *)
Definition announceable (client : option SocketAddr) (dst : bytes) : Prop :=
  match client with
  | None => True
  | Some (SocketV4 ip _) => length ip = 4%nat /\ length dst = 4%nat
  | Some (SocketV6 ip _ flow scope) => length ip = 16%nat /\ length dst = 16%nat /\ flow = 0 /\ scope = 0
  end.

(** A v1 sender of an IPv4 connection. *)
Definition v1_line (ip : list u8) (p : Z) (dst : list u8) (dport : Z) : str :=
  V1_SIGNATURE ++ bstr "TCP4 " ++ ipv4_to_text ip ++ SP :: ipv4_to_text dst ++ SP ::
  decimal p ++ SP :: decimal dport ++ [CR; LF].

Lemma parse_v2_frame vc fp body payload :
  Z.shiftr vc 4 = 2 ->
  parse (V2_SIGNATURE ++ [vc; fp] ++ to_be_bytes (Z.of_nat (length body)) ++ body ++ payload) =
  if 1 <? Z.land vc 15
  then Err (Malformed (bstr "a v2 header declares a command other than LOCAL or PROXY"))
  else client ← if Z.land vc 15 =? 1 then proxied_address fp body else Ok None;
       Ok (Done (16 + length body) client).
Proof.
  intros Hv. transitivity (parse_v2 (V2_SIGNATURE ++ [vc; fp] ++
    to_be_bytes (Z.of_nat (length body)) ++ body ++ payload)); [done|].
  unfold parse_v2. rewrite signature_matches_prefix. unfold mbind at 1, result_bind at 1. cbn [negb].
  set (high := Z.of_nat (length body) / 256). set (low := Z.of_nat (length body) mod 256).
  change (to_be_bytes (Z.of_nat (length body))) with [high; low].
  cbn [app V2_SIGNATURE lookup list_lookup]. rewrite Hv. cbn [Z.eqb negb Pos.eqb].
  case_match; [done|].
  change (get_range _ 14 16) with (Some [high; low]).
  unfold high, low. rewrite be_bytes_roundtrip, Nat2Z.id. unfold V2_PREAMBLE_LEN.
  match goal with |- context [get_range ?l _ _] =>
    change l with ((V2_SIGNATURE ++ [vc; fp; high; low]) ++ body ++ payload) end.
  by rewrite get_range_middle.
Qed.

Lemma proxied_v4 ip dst p dport tlvs :
  length ip = 4%nat -> length dst = 4%nat ->
  proxied_address 17 (v2_body (Some (SocketV4 ip p)) dst dport tlvs) = Ok (Some (SocketV4 ip p)).
Proof.
  intros Hi Hd. do 5 (destruct ip as [|? ip]; try done). do 5 (destruct dst as [|? dst]; try done).
  unfold proxied_address. change (Z.shiftr 17 4 =? 0) with false. change (Z.shiftr 17 4 =? 1) with true.
  cbv iota beta. cbn [v2_body app to_be_bytes]. unfold get_to, get_range, V2_INET_LEN.
  cbn [length Nat.leb andb]. cbn [take drop Nat.sub]. by rewrite be_bytes_roundtrip.
Qed.

Lemma proxied_v6 ip dst p dport tlvs :
  length ip = 16%nat -> length dst = 16%nat ->
  proxied_address 33 (v2_body (Some (SocketV6 ip p 0 0)) dst dport tlvs) = Ok (Some (SocketV6 ip p 0 0)).
Proof.
  intros Hi Hd. do 17 (destruct ip as [|? ip]; try done). do 17 (destruct dst as [|? dst]; try done).
  unfold proxied_address. change (Z.shiftr 33 4 =? 0) with false. change (Z.shiftr 33 4 =? 1) with false.
  change (Z.shiftr 33 4 =? 2) with true.
  cbv iota beta. cbn [v2_body app to_be_bytes]. unfold get_to, get_range, V2_INET6_LEN.
  cbn [length Nat.leb andb]. cbn [take drop Nat.sub]. by rewrite be_bytes_roundtrip.
Qed.

Lemma port_decimal n : 0 <= n <= u16_max -> port (decimal n) = Ok n.
Proof.
  intros Hn. unfold port. rewrite parse_u16_decimal by done.
  rewrite bool_decide_eq_false_2 by apply decimal_fuel_ne.
  assert (forallb is_ascii_digit (decimal n) = true) as ->; [|done].
  pose proof (decimal_fuel_digits 5 n ltac:(lia)) as Hd. unfold decimal.
  induction Hd as [|b l Hb Hd IH]; simpl; [done|]. by rewrite Hb.
Qed.

Lemma v1_client_tcp4 ip dst p dport :
  length ip = 4%nat -> Forall is_byte ip -> length dst = 4%nat -> Forall is_byte dst ->
  0 <= p <= u16_max -> 0 <= dport <= u16_max ->
  v1_client (bstr "TCP4 " ++ ipv4_to_text ip ++ SP :: ipv4_to_text dst ++ SP ::
             decimal p ++ SP :: decimal dport)
  = Ok (Some (SocketV4 ip p)).
Proof.
  intros Hi Hib Hd Hdb Hp Hdp. unfold v1_client.
  rewrite bool_decide_eq_false_2 by done. cbn [orb starts_with app Z.eqb Pos.eqb andb].
  assert (Hsp : ~ plain SP) by (unfold plain, SP; lia).
  change (84 :: 67 :: 80 :: 52 :: 32 :: ?l) with (bstr "TCP4" ++ SP :: l).
  assert (Hpl : forall l, Forall plain l -> SP ∉ l) by (intros l Hl; by apply (plain_not_in SP)).
  rewrite (split_on_first SP (bstr "TCP4")) by (apply Hpl; repeat constructor; lia).
  rewrite (split_on_first SP (ipv4_to_text ip)) by (by apply Hpl, ipv4_text_plain).
  rewrite (split_on_first SP (ipv4_to_text dst)) by (by apply Hpl, ipv4_text_plain).
  rewrite (split_on_first SP (decimal p)) by (apply Hpl, decimal_plain; lia).
  rewrite split_on_none by (apply Hpl, decimal_plain; lia).
  rewrite !port_decimal by done. unfold mbind, result_bind.
  rewrite bool_decide_eq_true_2 by done. by rewrite !parse_ipv4_text.
Qed.

Lemma parse_v1_frame fields payload client :
  CR ∉ fields -> (length fields <= 99)%nat -> utf8_valid fields = true ->
  v1_client fields = Ok client ->
  parse (V1_SIGNATURE ++ fields ++ [CR; LF] ++ payload) = Ok (Done (6 + length fields + 2) client).
Proof.
  intros Hcr Hl Hu Hc.
  transitivity (parse_v1 (V1_SIGNATURE ++ fields ++ [CR; LF] ++ payload)); [done|].
  unfold parse_v1. rewrite signature_matches_prefix. unfold mbind at 1, result_bind at 1. cbn [negb].
  set (input := V1_SIGNATURE ++ _).
  assert (Hlen : length input = (6 + length fields + 2 + length payload)%nat).
  { unfold input. rewrite !length_app. simpl. lia. }
  assert (Hpos : position (fun b => b =? CR) input = Some (6 + length fields)%nat).
  { unfold input. rewrite app_assoc. cbn [app]. rewrite position_split; [by rewrite length_app| |done].
    apply Forall_app. split; [by repeat constructor|]. apply Forall_forall. intros b Hb.
    apply Z.eqb_neq. by intros ->. }
  set (n := Nat.min _ _). assert (6 + length fields < n)%nat by (unfold n, V1_MAX_LEN; lia).
  rewrite <- (take_drop n input), position_app in Hpos.
  destruct (position _ (take n input)) as [cr|] eqn:Hcr'.
  - assert (cr = 6 + length fields)%nat as -> by congruence.
    assert (input !! (6 + length fields + 1)%nat = Some LF) as ->.
    { unfold input. rewrite lookup_app_r by (simpl; lia). rewrite lookup_app_r by (simpl; lia).
      by replace (_ - _ - _)%nat with 1%nat by (simpl; lia). }
    cbn [Z.eqb Pos.eqb negb LF]. unfold input.
    rewrite get_range_middle by (simpl; lia). unfold from_utf8. rewrite Hu, Hc.
    done.
  - exfalso. apply fmap_Some in Hpos as (j&_&Hj). rewrite length_take in Hj. lia.
Qed.

(** * Properties *)

(** What [parse] decides depends on the header alone.  Once it has an
    answer, bytes that arrive later change nothing; a complete header lies
    within the bytes given and within [MAX_HEADER_LEN], and a prefix it still
    waits on is shorter than that, so the read buffer is bounded although
    nothing in [read_header] caps it. *)
Theorem header_decided_once (input : bytes) (Hbytes : Forall is_byte input) :
  (forall k, parse input <> Ok Incomplete -> parse (input ++ k) = parse input) /\
  (forall consumed client, parse input = Ok (Done consumed client) ->
     (8 <= consumed <= length input)%nat /\ Z.of_nat consumed <= MAX_HEADER_LEN) /\
  (parse input = Ok Incomplete -> Z.of_nat (length input) < MAX_HEADER_LEN).
Proof.
  pose proof (parse_extent input) as Hx. split_and!.
  - intros k H. by apply parse_app.
  - intros n c H. rewrite H in Hx. naive_solver.
  - intros H. rewrite H in Hx. auto.
Qed.

(** C18: [accept] gives the same outcome however the network cuts the bytes into
    reads, and loses none of them.  The client is the one the whole stream's
    header names; reading the accepted connection through [Prefixed], with any
    rooms, yields first what [read_header] read too far and then the socket's
    own bytes, that is, exactly the bytes behind the header; a stream that is
    not a header or ends inside one is refused. *)
Theorem accept_transparent (stream : list ReadEvent) (Hlive : Forall lively stream)
    (rooms : list usize) (Hrooms : Forall (fun room => (0 < room)%nat) rooms) :
  match parse (pending stream) with
  | Ok (Done consumed client) => exists p delivered p',
      accept stream = Ok (p, client) /\ reads p rooms = (delivered, p') /\
      delivered ++ content p' = drop consumed (pending stream) /\
      ((length (pending stream) <= length rooms)%nat -> delivered = drop consumed (pending stream))
  | Ok Incomplete => accept stream = Err Io
  | Err e => accept stream = Err (Header e)
  end.
Proof.
  pose proof (read_header_stream [] stream Hlive) as H. simpl in H. unfold accept.
  destruct (parse (pending stream)) as [[|n c]|e]; [by rewrite H| |by rewrite H].
  destruct H as (leftover&rest&->&Hrest&Hc).
  destruct (reads_replay (MkPrefixed leftover rest) rooms Hrest Hrooms) as (d&p'&Hr&Hd&Hall).
  unfold content in Hd at 1, Hall. simpl in Hd, Hall. rewrite Hc in Hd, Hall.
  exists (MkPrefixed leftover rest), d, p'. split_and!; [done..|].
  intros Hlen. apply Hall. rewrite length_drop. lia.
Qed.

(** Every v2 header a sender writes is read back exactly, for both address
    families and for LOCAL, with any TLVs behind the addresses and any bytes
    behind the header: the client is the source address and port, and the
    header ends where its declared length says. *)
Theorem v2_roundtrip (client : option SocketAddr) (dst : bytes) (dport : Z) (tlvs payload : bytes)
    (Hann : announceable client dst) :
  parse (v2_header client dst dport tlvs ++ payload)
  = Ok (Done (length (v2_header client dst dport tlvs)) client).
Proof.
  assert (Hlen : forall vc fp : Z, length (V2_SIGNATURE ++ [vc; fp] ++
    to_be_bytes (Z.of_nat (length (v2_body client dst dport tlvs))) ++ v2_body client dst dport tlvs)
    = (16 + length (v2_body client dst dport tlvs))%nat) by (intros; rewrite !length_app; simpl; lia).
  unfold v2_header. destruct client as [[ip p|ip p flow scope]|]; rewrite Hlen, <- !app_assoc;
    rewrite parse_v2_frame by done; simpl in Hann.
  - cbn [Z.land Z.ltb Z.eqb]. destruct Hann. simpl Z.ltb. simpl Z.eqb. cbv iota.
    by rewrite proxied_v4.
  - destruct Hann as (?&?&->&->). simpl Z.ltb. simpl Z.eqb. cbv iota. by rewrite proxied_v6.
  - done.
Qed.

(** A v1 TCP4 line, its addresses and ports written in decimal, is read
    back exactly: the client is the source address and port, and everything
    behind the CRLF is left for the connection. *)
Theorem v1_roundtrip (ip dst : list u8) (p dport : Z) (payload : bytes)
    (Hip : length ip = 4%nat /\ Forall is_byte ip) (Hdst : length dst = 4%nat /\ Forall is_byte dst)
    (Hports : 0 <= p <= u16_max /\ 0 <= dport <= u16_max) :
  parse (v1_line ip p dst dport ++ payload)
  = Ok (Done (length (v1_line ip p dst dport)) (Some (SocketV4 ip p))).
Proof.
  destruct Hip, Hdst, Hports.
  set (fields := bstr "TCP4 " ++ ipv4_to_text ip ++ SP :: ipv4_to_text dst ++ SP ::
             decimal p ++ SP :: decimal dport).
  assert (Hline : v1_line ip p dst dport = V1_SIGNATURE ++ fields ++ [CR; LF]).
  { unfold v1_line, fields. repeat (rewrite <- app_assoc; cbn [app]). done. }
  assert (Hplain : Forall (fun b => plain b \/ b = SP) fields).
  { assert (Hor : forall l, Forall plain l -> Forall (fun b => plain b \/ b = SP) l).
    { intros l Hl. eapply Forall_impl; [exact Hl|]. auto. }
    unfold fields. repeat first [apply Forall_app; split | apply Forall_cons; split]; auto;
      first [by constructor | by apply Hor, ipv4_text_plain | by apply Hor, decimal_plain; lia
            | unfold plain; lia]. }
  rewrite Hline, <- !app_assoc.
  rewrite parse_v1_frame with (client := Some (SocketV4 ip p)).
  - do 2 f_equal. rewrite !length_app. simpl. lia.
  - intros Hin. rewrite Forall_forall in Hplain. apply Hplain in Hin. unfold plain, CR, SP in Hin. lia.
  - assert (Hl : forall n, 0 <= n <= u16_max -> (length (decimal n) <= 5)%nat).
    { unfold u16_max. intros. apply decimal_fuel_length; simpl; lia. }
    unfold fields. repeat (rewrite length_app || cbn [length]).
    pose proof (ipv4_text_length ip ltac:(done)). pose proof (ipv4_text_length dst ltac:(done)).
    pose proof (Hl p ltac:(done)). pose proof (Hl dport ltac:(done)). lia.
  - apply utf8_valid_ascii. eapply Forall_impl; [exact Hplain|]. unfold plain, SP. simpl. lia.
  - by apply v1_client_tcp4.
Qed.

(** ** Witnesses *)

Definition demo_line : bytes := bstr "PROXY TCP4 192.0.2.10 10.0.0.1 54321 80".
Definition demo_ip : list u8 := [192; 0; 2; 10].
Definition demo_dst : list u8 := [10; 0; 0; 1].
Definition demo_request : bytes := bstr "GET /".
(** The header in two reads, the second with the start of the request. *)
Definition demo_stream : list ReadEvent :=
  [Arrived demo_line; Arrived ([CR; LF] ++ demo_request); Arrived (bstr " HTTP")].

Lemma demo_lively : Forall lively demo_stream.
Proof. repeat constructor; eexists; by split. Qed.

Lemma header_decided_once_witness :
  parse (demo_line ++ [CR; LF] ++ demo_request) = Ok (Done 41 (Some (SocketV4 demo_ip 54321))).
Proof.
  change (demo_line ++ [CR; LF] ++ demo_request) with ((demo_line ++ [CR; LF]) ++ demo_request).
  assert (Hb : Forall is_byte (demo_line ++ [CR; LF])) by (repeat constructor; discriminate).
  destruct (header_decided_once _ Hb) as (Hpre&_). by rewrite Hpre.
Defined.

Lemma accept_transparent_witness :
  exists p delivered p', accept demo_stream = Ok (p, Some (SocketV4 demo_ip 54321)) /\
    reads p [3; 100; 100]%nat = (delivered, p') /\
    delivered ++ content p' = bstr "GET / HTTP".
Proof.
  assert (Hr : Forall (fun room => (0 < room)%nat) [3; 100; 100]%nat) by (repeat constructor).
  destruct (accept_transparent demo_stream demo_lively [3; 100; 100]%nat Hr) as (p&d&p'&Ha&Hd&Hc&_).
  by exists p, d, p'.
Defined.

Lemma v2_roundtrip_witness :
  parse (v2_header (Some (SocketV4 demo_ip 54321)) demo_dst 443 (bstr "tlv") ++ demo_request)
  = Ok (Done 31 (Some (SocketV4 demo_ip 54321))).
Proof. apply (v2_roundtrip (Some (SocketV4 demo_ip 54321))). by split. Defined.

Lemma v1_roundtrip_witness :
  v1_line demo_ip 54321 demo_dst 80 = demo_line ++ [CR; LF] /\
  parse (v1_line demo_ip 54321 demo_dst 80 ++ demo_request)
  = Ok (Done 41 (Some (SocketV4 demo_ip 54321))).
Proof.
  split; [reflexivity|].
  apply v1_roundtrip; (split; [done|]) || split; try (split; discriminate);
    repeat constructor; discriminate.
Defined.
