(* ===== verification/Forwarding.v ===== *)
(** What one hop does to a message and where it sends it:
    [crates/ramjet-engine/src/headers.rs] and [route.rs].

    The writers build the head byte by byte, as the code does; [None] stands
    for the missing start line and for a span outside the buffer.  The reason
    phrase of a status comes from the [ramjet_http] crate and is a parameter.
    The random source is explicit state of [Rng]. *)

From S2P Require Import Prelude NetText Rng Codec Head RouterTypes Canary Paths Stats Backends Table.

Definition HOP_BY_HOP : list bytes :=
  [bstr "keep-alive"; bstr "proxy-connection"; bstr "proxy-authenticate"; bstr "proxy-authorization";
   bstr "te"; bstr "trailer"; bstr "transfer-encoding"; bstr "upgrade"].
Definition SELF_WRITTEN : list bytes :=
  [bstr "x-forwarded-for"; bstr "x-real-ip"; bstr "x-forwarded-proto"; bstr "x-forwarded-host";
   bstr "x-request-id"].

Record Hop := MkHop { client : IpAddr; scheme : str }.

Definition is_hop_by_hop (name : bytes) : bool := existsb (eq_ignore_ascii_case name) HOP_BY_HOP.
Definition is_self_written (name : bytes) : bool := existsb (eq_ignore_ascii_case name) SELF_WRITTEN.

Definition connection_lists (h : Head) (buf name : bytes) : bool :=
  existsb (fun '(_, value) => has_token value name) (headers_named h buf (bstr "connection")).

Definition wants_upgrade (h : Head) (buf : bytes) : bool :=
  connection_lists h buf (bstr "upgrade") && bool_decide (is_Some (head_header h buf (bstr "upgrade"))).
Definition upgrade_protocol (h : Head) (buf : bytes) : option bytes :=
  if negb (connection_lists h buf (bstr "upgrade")) then None
  else
    value ← trim_ows <$> head_header h buf (bstr "upgrade");
    if bool_decide (value = []) then None else Some value.
Definition is_switching_protocols (h : Head) : bool :=
  match head_start h with Status code _ _ => code =? 101 | Request _ _ _ => false end.

Definition is_forwardable (h : Head) (buf name : bytes) : bool :=
  negb (eq_ignore_ascii_case name (bstr "connection")) && negb (is_hop_by_hop name)
  && negb (is_self_written name) && negb (connection_lists h buf name).

(** [name: value CRLF]. *)
Definition field (name value : bytes) : bytes := name ++ chr ":" :: SP :: value ++ CRLF.

(** The inbound trail, each value followed by [", "]. *)
Definition trail (values : list bytes) : bytes :=
  flat_map (fun value => let value := trim_ows value in
    if bool_decide (value = []) then [] else value ++ bstr ", ") values.
Definition forwarded_for (h : Head) (buf : bytes) (client : IpAddr) : bytes :=
  bstr "X-Forwarded-For: " ++ trail (map snd (headers_named h buf (bstr "x-forwarded-for")))
  ++ ip_to_text client ++ CRLF.

(** [request_id]: the 32-byte buffer and the length returned; [fresh] is what
    [hex_id] would fill in. *)
Definition request_id (h : Head) (buf : bytes) (fresh : bytes) : bytes * usize :=
  match head_header h buf (bstr "x-request-id") with
  | Some existing =>
      let existing := trim_ows existing in
      if bool_decide (existing = []) then (fresh, 32%nat)
      else
        let n := Nat.min (length existing) 32 in
        (take n existing ++ replicate (32 - n) 0, length existing)
  | None => (fresh, 32%nat)
  end.

Definition restate (framing : Framing) (close : bool) (upgrade : option bytes) : bytes :=
  (if bool_decide (framing = Chunked) then field (bstr "Transfer-Encoding") (bstr "chunked") else [])
  ++ match upgrade with
     | Some protocol => field (bstr "Connection") (bstr "upgrade") ++ field (bstr "Upgrade") protocol
     | None => if close then field (bstr "Connection") (bstr "close") else []
     end
  ++ CRLF.

(** The copy loop: the forwardable fields, and whether a [Host] was seen. *)
Fixpoint copy_loop (keep : bytes -> bool) (fields : list (bytes * bytes)) (host_seen : bool)
    : bytes * bool :=
  match fields with
  | [] => ([], host_seen)
  | (name, value) :: rest =>
      let seen := host_seen || eq_ignore_ascii_case name (bstr "host") in
      let '(out, seen') := copy_loop keep rest seen in
      ((if keep name then field name value else []) ++ out, seen')
  end.

Definition request_id_field (h : Head) (buf fresh : bytes) : bytes :=
  let '(id, len) := request_id h buf fresh in
  if (32 <? len)%nat
  then field (bstr "X-Request-Id") (trim_ows (default [] (head_header h buf (bstr "x-request-id"))))
  else field (bstr "X-Request-Id") (take len id).

(** What [write_upstream_request] appends. *)
Definition write_upstream_request (h : Head) (buf : bytes) (hop : Hop) (endpoint : SocketAddr)
    (framing : Framing) (close : bool) (upgrade : option bytes) (fresh : bytes) : option bytes :=
  method ← head_method h buf;
  target ← head_target h buf;
  let '(copied, host_seen) := copy_loop (is_forwardable h buf) (head_iter h buf) false in
  Some (method ++ SP :: target ++ bstr " HTTP/1.1" ++ CRLF
    ++ copied
    ++ (if host_seen then [] else field (bstr "Host") (socket_to_text endpoint))
    ++ forwarded_for h buf (client hop)
    ++ field (bstr "X-Real-IP") (ip_to_text (client hop))
    ++ field (bstr "X-Forwarded-Proto") (scheme hop)
    ++ match head_header h buf (bstr "host") with
       | Some host => field (bstr "X-Forwarded-Host") host
       | None => []
       end
    ++ request_id_field h buf fresh
    ++ restate framing close upgrade).

Section response.
(** [ramjet_http::encode::reason]. *)
Context (reason_phrase : u16 -> str).

Definition relayed (h : Head) (buf name : bytes) : bool :=
  negb (eq_ignore_ascii_case name (bstr "connection")) && negb (is_hop_by_hop name)
  && negb (connection_lists h buf name).

Definition write_downstream_response (h : Head) (buf : bytes) (framing : Framing) (close : bool)
    (upgrade : option bytes) : option bytes :=
  match head_start h with
  | Request _ _ _ => None
  | Status code reason _ =>
      phrase ← if span_is_empty reason then Some (reason_phrase code) else span_bytes reason buf;
      Some (bstr "HTTP/1.1 " ++ to_string code ++ SP :: phrase ++ CRLF
        ++ (copy_loop (relayed h buf) (head_iter h buf) false).1
        ++ restate framing close upgrade)
  end.
End response.

(** [cookie_value]: the pairs of one [Cookie] value, then the values in order;
    a value that is not UTF-8 ends the search. *)
Definition cookie_pair (name : str) (pair : str) : option str :=
  '(key, val) ← split_once (chr "=") pair;
  if bool_decide (str_trim key = name) then Some (str_trim val) else None.
Fixpoint cookie_values (name : str) (values : list bytes) : option str :=
  match values with
  | [] => None
  | value :: rest =>
      match from_utf8 value with
      | None => None
      | Some text =>
          match omap (cookie_pair name) (split_on (chr ";") text) with
          | found :: _ => Some found
          | [] => cookie_values name rest
          end
      end
  end.
Definition cookie_value (h : Head) (buf : bytes) (name : str) : option str :=
  cookie_values name (map snd (headers_named h buf (bstr "cookie"))).

Definition is_grpc (h : Head) (buf : bytes) : bool :=
  match head_header h buf (bstr "content-type") with
  | Some v => starts_with (bstr "application/grpc") v
  | None => false
  end.
Definition routing_host (h : Head) (buf : bytes) : option str :=
  v ← head_header h buf (bstr "host"); from_utf8 v.
Definition routing_path (target : Span) (buf : bytes) : option str :=
  b ← span_bytes target buf;
  from_utf8 (take (default (length b) (position (fun c => c =? chr "?") b)) b).

(** ** Routing one request *)

Section route.
Context {E : RegexEngine}.

Record Matched := MkMatched {
  m_backend : Backend;
  m_route : option u32;
  m_canaried : bool;
  m_mirror : option MirrorSpec;
}.
Record Route := MkRoute { r_backend : Backend; r_index : usize; r_endpoint : Endpoint }.

(** [filter(|spec| spec.sample(below(MIRROR_PERCENT_TOTAL)))]: a roll is drawn
    only when there is a mirror. *)
Definition sampled_mirror (mirror : option MirrorSpec) (rng : u64) : option MirrorSpec * u64 :=
  match mirror with
  | None => (None, rng)
  | Some spec =>
      let '(roll, rng) := below MIRROR_PERCENT_TOTAL rng in
      (if sample spec roll then Some spec else None, rng)
  end.

Definition route_request (table : RouteTable) (host path : str) (h : Head) (buf : bytes) (rng : u64)
    : option Matched * u64 :=
  match match_request table host path with
  | None => (None, rng)
  | Some matched =>
      let route := rule_stats_index <$> mr_rule matched in
      let '(mirror, rng) := sampled_mirror (mr_mirror matched) rng in
      match mr_canary matched with
      | None => (Some (MkMatched (mr_backend matched) route false mirror), rng)
      | Some canary =>
          let header_value :=
            name ← header_name canary; value ← head_header h buf name; from_utf8 value in
          let cookie_val := name ← cookie_name canary; cookie_value h buf name in
          let '(roll, rng) := below (canary_weight_total canary) rng in
          let diverted := decide_canary canary header_value cookie_val roll in
          let canary_backend := if diverted then table_backend table (canary_backend canary) else None in
          (Some (MkMatched (default (mr_backend matched) canary_backend) route
                   (bool_decide (is_Some canary_backend)) mirror), rng)
      end
  end.

Definition first_endpoint (table : RouteTable) (b : Backend) (rng : u64) (heap : Heap)
    : option Route * u64 * Heap :=
  let word := next_u64 rng in
  let '(chosen, heap) := select_endpoint b (stats table) word heap in
  ((fun '(index, endpoint) => MkRoute b index endpoint) <$> chosen, word, heap).

Definition endpoint_at (b : Backend) (first attempt : usize) : option Endpoint :=
  match endpoints b with
  | [] => None
  | _ => endpoints b !! ((first + attempt) mod length (endpoints b))%nat
  end.

Definition attempts (framing : Framing) (endpoints max_attempts : usize) : usize :=
  if bool_decide (framing = Empty) then Nat.max (Nat.min endpoints max_attempts) 1 else 1%nat.

(** The addresses [forward] in [worker.rs] will dial, in order. *)
Definition targets (b : Backend) (first allowed : usize) : list SocketAddr :=
  omap (fun attempt => addr <$> endpoint_at b first attempt) (seq 0 allowed).
End route.

(** ** The rewritten head as fields *)

(** What [write_upstream_request] writes after the request line. *)
Definition upstream_fields (h : Head) (buf : bytes) (hop : Hop) (endpoint : SocketAddr)
    (framing : Framing) (close : bool) (upgrade : option bytes) (fresh : bytes) : list (bytes * bytes) :=
  List.filter (fun f => is_forwardable h buf f.1) (head_iter h buf)
  ++ (if existsb (fun f => eq_ignore_ascii_case f.1 (bstr "host")) (head_iter h buf) then []
      else [(bstr "Host", socket_to_text endpoint)])
  ++ [(bstr "X-Forwarded-For",
       trail (map snd (headers_named h buf (bstr "x-forwarded-for"))) ++ ip_to_text (client hop));
      (bstr "X-Real-IP", ip_to_text (client hop)); (bstr "X-Forwarded-Proto", scheme hop)]
  ++ match head_header h buf (bstr "host") with
     | Some host => [(bstr "X-Forwarded-Host", host)]
     | None => []
     end
  ++ [(bstr "X-Request-Id",
       let existing := trim_ows (default [] (head_header h buf (bstr "x-request-id"))) in
       if bool_decide (existing = []) then fresh else existing)]
  ++ (if bool_decide (framing = Chunked) then [(bstr "Transfer-Encoding", bstr "chunked")] else [])
  ++ match upgrade with
     | Some protocol => [(bstr "Connection", bstr "upgrade"); (bstr "Upgrade", protocol)]
     | None => if close then [(bstr "Connection", bstr "close")] else []
     end.

Definition lines (fields : list (bytes * bytes)) : bytes := flat_map (fun f => field f.1 f.2) fields.

Lemma lines_app a b : lines (a ++ b) = lines a ++ lines b.
Proof. apply List.flat_map_app. Qed.

Lemma lines_render l fields : l ++ CRLF ++ lines fields ++ CRLF = render_head l fields.
Proof.
  unfold render_head. f_equal. change CRLFCRLF with (CRLF ++ CRLF).
  induction fields as [|[n v] fields IH]; [done|].
  cbn [lines flat_map render_fields fst snd] in *. unfold field, render_field. cbn [fst snd].
  fold (lines fields). rewrite <- !app_assoc. f_equal. f_equal. cbn [app]. f_equal. f_equal.
  rewrite <- !app_assoc. f_equal. exact IH.
Qed.

Lemma copy_loop_spec keep fields seen :
  copy_loop keep fields seen =
  (lines (List.filter (fun f => keep f.1) fields),
   seen || existsb (fun f => eq_ignore_ascii_case f.1 (bstr "host")) fields).
Proof.
  revert seen. induction fields as [|[n v] fields IH]; intros seen; simpl; [by rewrite orb_false_r|].
  rewrite IH, orb_assoc. f_equal. by destruct (keep n).
Qed.

Lemma request_id_field_spec h buf fresh :
  length fresh = 32%nat ->
  request_id_field h buf fresh = field (bstr "X-Request-Id")
    (let existing := trim_ows (default [] (head_header h buf (bstr "x-request-id"))) in
     if bool_decide (existing = []) then fresh else existing).
Proof.
  intros Hf. unfold request_id_field, request_id.
  assert (Hfresh : take 32 fresh = fresh) by (apply take_ge; lia).
  destruct (head_header h buf _) as [v|]; cbn [default]; [|change (field (bstr "X-Request-Id") (take 32 fresh)
    = field (bstr "X-Request-Id") fresh); by rewrite Hfresh].
  change (id v) with v. set (x := trim_ows v). cbv zeta. destruct (bool_decide (x = [])).
  { change (field (bstr "X-Request-Id") (take 32 fresh) = field (bstr "X-Request-Id") fresh).
    by rewrite Hfresh. }
  destruct (32 <? length x)%nat eqn:Hl; [done|]. f_equal.
  rewrite Nat.min_l by lia. rewrite take_app_le by (rewrite length_take; lia).
  rewrite take_take, Nat.min_id. apply take_ge. lia.
Qed.

Lemma forwarded_for_field h buf ip :
  forwarded_for h buf ip = field (bstr "X-Forwarded-For")
    (trail (map snd (headers_named h buf (bstr "x-forwarded-for"))) ++ ip_to_text ip).
Proof. unfold forwarded_for, field. by rewrite <- app_assoc. Qed.

Lemma lines_cons f fields : lines (f :: fields) = field f.1 f.2 ++ lines fields.
Proof. done. Qed.

Lemma lines_one f : lines [f] = field f.1 f.2.
Proof. apply app_nil_r. Qed.

Lemma write_upstream_fields h buf hop endpoint framing close upgrade fresh m t :
  head_method h buf = Some m -> head_target h buf = Some t -> length fresh = 32%nat ->
  write_upstream_request h buf hop endpoint framing close upgrade fresh =
  Some (render_head (request_line m t Http11) (upstream_fields h buf hop endpoint framing close upgrade fresh)).
Proof.
  intros Hm Ht Hf. unfold write_upstream_request. rewrite Hm, Ht. cbn [mbind option_bind].
  rewrite copy_loop_spec, forwarded_for_field, request_id_field_spec by done. f_equal.
  rewrite orb_false_l, <- lines_render. unfold request_line.
  change (version_as_bytes Http11) with (bstr "HTTP/1.1").
  rewrite <- !app_assoc. f_equal. cbn [app]. f_equal. rewrite <- !app_assoc. f_equal. cbn [app].
  do 9 f_equal. f_equal. unfold upstream_fields, restate. rewrite !lines_app, <- !app_assoc.
  f_equal. f_equal; [destruct (existsb _ _); [done|by rewrite lines_one]|]. rewrite !lines_cons. cbn [fst snd lines flat_map].
  rewrite <- !app_assoc. f_equal. f_equal. f_equal. cbn [app]. f_equal; [destruct (head_header h buf _); [by rewrite lines_one|done]|].
  f_equal. f_equal; [destruct (bool_decide _); [by rewrite lines_one|done]|].
  destruct upgrade as [p|]; [by rewrite lines_cons, lines_one, <- app_assoc|].
  destruct close; [by rewrite lines_one|done].
Qed.

(** ** Fields by name *)

Definition is_named (n : bytes) (f : bytes * bytes) : bool := eq_ignore_ascii_case f.1 n.
(** The values of the fields called [n]. *)
Definition named (n : bytes) (fields : list (bytes * bytes)) : list bytes :=
  map snd (List.filter (is_named n) fields).

Lemma named_app n a b : named n (a ++ b) = named n a ++ named n b.
Proof. unfold named. by rewrite List.filter_app, List.map_app. Qed.

Lemma named_headers h buf n : map snd (headers_named h buf n) = named n (head_iter h buf).
Proof. unfold headers_named, named. f_equal. apply List.filter_ext. by intros []. Qed.

Lemma header_named h buf n : head_header h buf n = head (named n (head_iter h buf)).
Proof.
  unfold head_header, named. induction (head_iter h buf) as [|[x v] l IH]; [done|]. simpl.
  unfold is_named at 1. simpl. by destruct (eq_ignore_ascii_case x n).
Qed.

Lemma eq_ignore_sym a b : eq_ignore_ascii_case a b = eq_ignore_ascii_case b a.
Proof. unfold eq_ignore_ascii_case. by apply bool_decide_ext. Qed.

Lemma eq_ignore_trans a b c : eq_ignore_ascii_case a b = true ->
  eq_ignore_ascii_case a c = eq_ignore_ascii_case b c.
Proof. unfold eq_ignore_ascii_case. intros H%bool_decide_eq_true. by rewrite H. Qed.

Lemma existsb_named a b l : eq_ignore_ascii_case a b = true ->
  existsb (eq_ignore_ascii_case a) l = existsb (eq_ignore_ascii_case b) l.
Proof. intros H. induction l as [|c l IH]; [done|]. simpl. by rewrite (eq_ignore_trans a b c H), IH. Qed.

Lemma has_token_named value a b : eq_ignore_ascii_case a b = true -> has_token value a = has_token value b.
Proof.
  intros H. unfold has_token. induction (split_on _ value) as [|p l IH]; [done|]. simpl.
  by rewrite (eq_ignore_sym _ a), (eq_ignore_sym _ b), (eq_ignore_trans a b _ H), IH.
Qed.

Lemma connection_lists_named h buf a b :
  eq_ignore_ascii_case a b = true -> connection_lists h buf a = connection_lists h buf b.
Proof.
  intros H. unfold connection_lists. induction (headers_named h buf _) as [|[x v] l IH]; [done|]. simpl.
  by rewrite (has_token_named v a b H), IH.
Qed.

(** Names that differ in case only are forwarded alike. *)
Lemma is_forwardable_named h buf a b :
  eq_ignore_ascii_case a b = true -> is_forwardable h buf a = is_forwardable h buf b.
Proof.
  intros H. unfold is_forwardable, is_hop_by_hop, is_self_written.
  by rewrite (eq_ignore_trans a b _ H), !(existsb_named a b _ H), (connection_lists_named h buf a b H).
Qed.

Lemma named_forwarded h buf n l :
  named n (List.filter (fun f => is_forwardable h buf f.1) l) =
  if is_forwardable h buf n then named n l else [].
Proof.
  unfold named. induction l as [|[x v] l IH]; [by destruct (is_forwardable h buf n)|]. simpl.
  destruct (is_named n (x, v)) eqn:Hn.
  - unfold is_named in Hn. simpl in Hn. rewrite (is_forwardable_named h buf x n Hn).
    destruct (is_forwardable h buf n); simpl; [|done]. unfold is_named at 1. simpl. rewrite Hn. simpl. by rewrite IH.
  - destruct (is_forwardable h buf x); simpl; rewrite ?Hn; exact IH.
Qed.

(** What this hop adds. *)
Definition added (h : Head) (buf : bytes) (hop : Hop) (endpoint : SocketAddr) (framing : Framing)
    (close : bool) (upgrade : option bytes) (fresh : bytes) : list (bytes * bytes) :=
  drop (length (List.filter (fun f => is_forwardable h buf f.1) (head_iter h buf)))
    (upstream_fields h buf hop endpoint framing close upgrade fresh).

Lemma named_upstream h buf hop endpoint framing close upgrade fresh n :
  named n (upstream_fields h buf hop endpoint framing close upgrade fresh) =
  (if is_forwardable h buf n then named n (head_iter h buf) else [])
  ++ named n (added h buf hop endpoint framing close upgrade fresh).
Proof.
  unfold added, upstream_fields. by rewrite drop_app_length, named_app, named_forwarded.
Qed.

(** The parts of [added], each by one name. *)
Lemma named_added h buf hop endpoint framing close upgrade fresh n :
  named n (added h buf hop endpoint framing close upgrade fresh) =
  (if existsb (is_named (bstr "host")) (head_iter h buf) then []
   else if is_named n (bstr "Host", []) then [socket_to_text endpoint] else [])
  ++ (if is_named n (bstr "X-Forwarded-For", [])
      then [trail (named (bstr "x-forwarded-for") (head_iter h buf)) ++ ip_to_text (client hop)] else [])
  ++ (if is_named n (bstr "X-Real-IP", []) then [ip_to_text (client hop)] else [])
  ++ (if is_named n (bstr "X-Forwarded-Proto", []) then [scheme hop] else [])
  ++ (if is_named n (bstr "X-Forwarded-Host", []) then take 1 (named (bstr "host") (head_iter h buf)) else [])
  ++ (if is_named n (bstr "X-Request-Id", [])
      then [let existing := trim_ows (default [] (head (named (bstr "x-request-id") (head_iter h buf)))) in
            if bool_decide (existing = []) then fresh else existing] else [])
  ++ (if bool_decide (framing = Chunked) && is_named n (bstr "Transfer-Encoding", []) then [bstr "chunked"] else [])
  ++ match upgrade with
     | Some p => (if is_named n (bstr "Connection", []) then [bstr "upgrade"] else [])
                 ++ (if is_named n (bstr "Upgrade", []) then [p] else [])
     | None => if close && is_named n (bstr "Connection", []) then [bstr "close"] else []
     end.
Proof.
  unfold added, upstream_fields. rewrite drop_app_length, !named_app, named_headers, !header_named.
  assert (H1 : forall x v, named n [(x, v)] = if is_named n (x, []) then [v] else []).
  { intros x v. unfold named, is_named. simpl. by destruct (eq_ignore_ascii_case x n). }
  assert (H2 : forall f g l, named n (f :: g :: l) = named n [f] ++ named n [g] ++ named n l).
  { intros f g l. by rewrite <- !named_app. }
  f_equal; [by destruct (existsb _ _); rewrite ?H1|].
  change (fun f : bytes * bytes => eq_ignore_ascii_case f.1 (bstr "host")) with (is_named (bstr "host")).
  rewrite H2, !H1, <- !app_assoc. do 4 f_equal.
  { destruct (named (bstr "host") (head_iter h buf)); simpl; rewrite ?H1; by destruct (is_named n _). }
  f_equal. f_equal; [by destruct (bool_decide _); rewrite ?H1; destruct (is_named n _)|].
  destruct upgrade as [p|]; [by rewrite H2, !H1, app_nil_r|]. destruct close; [by rewrite H1|done].
Qed.

(** Nothing is added under another name. *)
Lemma added_others h buf hop endpoint framing close upgrade fresh n :
  is_hop_by_hop n = false -> is_self_written n = false ->
  eq_ignore_ascii_case n (bstr "connection") = false -> eq_ignore_ascii_case n (bstr "host") = false ->
  named n (added h buf hop endpoint framing close upgrade fresh) = [].
Proof.
  intros Hhop Hself Hconn Hhost. rewrite named_added. unfold is_named. cbn [fst].
  assert (Hl : forall l L, eq_ignore_ascii_case L l = true -> eq_ignore_ascii_case n l = false ->
    eq_ignore_ascii_case L n = false).
  { intros l L HL Hn. by rewrite (eq_ignore_trans L l n HL), eq_ignore_sym. }
  unfold is_hop_by_hop, is_self_written, HOP_BY_HOP, SELF_WRITTEN in *. cbn [existsb] in *. bools.
  rewrite (Hl (bstr "host") (bstr "Host")), (Hl (bstr "x-forwarded-for") (bstr "X-Forwarded-For")),
    (Hl (bstr "x-real-ip") (bstr "X-Real-IP")), (Hl (bstr "x-forwarded-proto") (bstr "X-Forwarded-Proto")),
    (Hl (bstr "x-forwarded-host") (bstr "X-Forwarded-Host")), (Hl (bstr "x-request-id") (bstr "X-Request-Id")),
    (Hl (bstr "transfer-encoding") (bstr "Transfer-Encoding")), (Hl (bstr "connection") (bstr "Connection")),
    (Hl (bstr "upgrade") (bstr "Upgrade")) by done.
  rewrite !andb_false_r. destruct (existsb _ _), upgrade; done.
Qed.

(** ** The rewritten head is well formed *)

Lemma plain_value v : Forall plain v -> clean v /\ trimmed v.
Proof.
  intros H. split.
  - eapply Forall_impl; [exact H|]. unfold plain, HTAB. simpl. lia.
  - rewrite Forall_forall in H. split; intros b Hb.
    + apply head_Some_elem_of, H in Hb. unfold plain, is_ows, SP, HTAB in *. lia.
    + apply last_Some_elem_of, H in Hb. unfold plain, is_ows, SP, HTAB in *. lia.
Qed.

Lemma trail_ok values ip :
  Forall clean values -> Forall plain ip -> ip <> [] -> clean (trail values ++ ip) /\ trimmed (trail values ++ ip).
Proof.
  intros Hv Hip Hne. destruct (plain_value ip Hip) as [Hc [Hh Hl]]. induction Hv as [|v vs Hv Hvs IH]; [by split|].
  cbn [trail flat_map]. fold (trail vs). cbv zeta. case_bool_decide as Hn; [exact IH|].
  destruct IH as [IHc [IHh IHl]]. rewrite <- !app_assoc. split; [|split].
  - unfold clean in *. rewrite Forall_app. split; [by apply clean_trim|]. repeat (constructor; [unfold HTAB; lia|]). done.
  - intros b Hb. apply (proj1 (trim_ows_ends v)). by destruct (trim_ows v).
  - intros b Hb. apply IHl. rewrite app_assoc in Hb.
    assert (Hne' : trail vs ++ ip <> []) by (by destruct (trail vs)).
    rewrite last_app in Hb. destruct (last (trail vs ++ ip)) eqn:E; [done|]. by apply last_None in E.
Qed.

Record rewrite_ok (h : Head) (buf : bytes) (hop : Hop) (endpoint : SocketAddr) (upgrade : option bytes)
    (fresh : bytes) : Prop := {
  ok_inbound : Forall field_ok (head_iter h buf);
  ok_client : ip_ok (client hop);
  ok_scheme : Forall plain (scheme hop);
  ok_endpoint : socket_ok endpoint;
  ok_upgrade : match upgrade with Some p => clean p /\ trimmed p | None => True end;
  ok_fresh : length fresh = 32%nat /\ Forall plain fresh;
}.

Lemma named_ok n l : Forall field_ok l -> Forall (fun v => clean v /\ trimmed v) (named n l).
Proof.
  intros H. unfold named. apply Forall_map. rewrite Forall_forall in *. intros f Hf.
  apply list_elem_of_In, List.filter_In in Hf as [Hf _]. apply H. by apply list_elem_of_In.
Qed.

(** Literal names and values. *)
Lemma literal_ok n v :
  bool_decide (n <> []) && forallb is_tchar n = true ->
  forallb (fun b => (33 <=? b) && (b <? 127)) v = true -> field_ok (n, v).
Proof.
  intros Hn Hv. bools. split; [by split|]. apply plain_value. unfold plain.
  induction v as [|b v IH]; simpl in *; [constructor|]. bools. constructor; [lia|by apply IH].
Qed.

Ltac literal_token := split; [discriminate|reflexivity].

Lemma upstream_fields_ok h buf hop endpoint framing close upgrade fresh :
  rewrite_ok h buf hop endpoint upgrade fresh ->
  Forall field_ok (upstream_fields h buf hop endpoint framing close upgrade fresh).
Proof.
  intros [Hin Hc Hs He Hu [Hfl Hf]]. unfold upstream_fields. repeat rewrite Forall_app. split_and!.
  - apply Forall_forall. intros f Hf'. apply list_elem_of_In, List.filter_In in Hf' as [Hf' _].
    rewrite Forall_forall in Hin. apply Hin. by apply list_elem_of_In.
  - destruct (existsb _ _); [constructor|]. constructor; [|constructor].
    split; [literal_token|apply (plain_value _ (socket_text_plain _ He))].
  - pose proof (ip_text_plain _ Hc) as Hp. pose proof (plain_value _ Hp) as [? ?].
    pose proof (plain_value _ Hs) as [? ?]. rewrite named_headers.
    assert (Hx : Forall clean (named (bstr "x-forwarded-for") (head_iter h buf))).
    { eapply Forall_impl; [by apply named_ok|]. by intros ? []. }
    destruct (trail_ok _ _ Hx Hp (ip_text_ne _ Hc)) as [? ?].
    repeat (constructor; [split_and!; [literal_token|done|done]|]). constructor.
  - rewrite header_named. pose proof (named_ok (bstr "host") _ Hin) as Hn.
    destruct (named (bstr "host") (head_iter h buf)) as [|v l]; [constructor|].
    apply Forall_cons in Hn as [[? ?] _]. constructor; [|constructor]. split_and!; [literal_token|done|done].
  - constructor; [|constructor]. split; [literal_token|]. cbn [snd]. cbv zeta.
    case_bool_decide; [by apply plain_value|]. rewrite header_named.
    pose proof (named_ok (bstr "x-request-id") _ Hin) as Hn.
    destruct (named _ _) as [|v l]; [apply (plain_value []); constructor|].
    apply Forall_cons in Hn as [[? ?] _]. split; [by apply clean_trim|apply trim_ows_ends].
  - destruct (bool_decide _); [|constructor]. constructor; [by apply literal_ok|constructor].
  - destruct upgrade as [p|]; [destruct Hu|destruct close; [|constructor]];
      repeat (constructor; [first [by apply literal_ok|split_and!; [literal_token|done|done]]|]); constructor.
Qed.

(** ** What stays of the framing *)

Definition fields_te (fields : list (bytes * bytes)) := named (bstr "transfer-encoding") fields.
Definition fields_cl (fields : list (bytes * bytes)) := named (bstr "content-length") fields.

Lemma upstream_te h buf hop endpoint framing close upgrade fresh :
  fields_te (upstream_fields h buf hop endpoint framing close upgrade fresh)
  = if bool_decide (framing = Chunked) then [bstr "chunked"] else [].
Proof.
  unfold fields_te. rewrite named_upstream, named_added.
  assert (is_forwardable h buf (bstr "transfer-encoding") = false) as ->.
  { unfold is_forwardable. by destruct (connection_lists _ _ _). }
  destruct (existsb _ _), (bool_decide _), upgrade, close; done.
Qed.

Lemma upstream_cl h buf hop endpoint framing close upgrade fresh :
  fields_cl (upstream_fields h buf hop endpoint framing close upgrade fresh)
  = if connection_lists h buf (bstr "content-length") then [] else fields_cl (head_iter h buf).
Proof.
  unfold fields_cl. rewrite named_upstream, named_added.
  assert (is_forwardable h buf (bstr "content-length") = negb (connection_lists h buf (bstr "content-length"))) as ->.
  { done. }
  replace (connection_lists h buf (bstr "content-length")) with
    (negb (negb (connection_lists h buf (bstr "content-length")))) by apply negb_involutive.
  destruct (negb (connection_lists _ _ _)), (existsb _ _), (bool_decide _), upgrade, close;
    rewrite ?app_nil_r; done.
Qed.

(** The framing a list of fields declares. *)
Lemma te_values_named h buf : te_values h buf = fields_te (head_iter h buf).
Proof. apply named_headers. Qed.
Lemma cl_values_named h buf : cl_values h buf = fields_cl (head_iter h buf).
Proof. apply named_headers. Qed.

Definition left_framing (listed : bool) (f : Framing) : Framing :=
  if listed then match f with Length _ => Empty | _ => f end else f.

(** The framing that fields declare to who reads them by name. *)
Definition fields_framing (fields : list (bytes * bytes)) (f : Framing) : Prop :=
  let declares n := fields_cl fields <> [] /\ Forall (fun p => is_decimal p n) (cl_elements (fields_cl fields)) in
  match f with
  | Chunked => fields_te fields <> [] /\ Forall te_value_ok (fields_te fields) /\ fields_cl fields = []
  | Length n => n <> 0 /\ fields_te fields = [] /\ declares n
  | Empty => fields_te fields = [] /\ (fields_cl fields = [] \/ declares 0)
  | UntilClose => False
  end.
Lemma fields_framing_spec h buf f : request_framing h buf = Ok f <-> fields_framing (head_iter h buf) f.
Proof.
  rewrite request_framing_spec. unfold framing_means, declared_length, fields_framing. cbv zeta.
  by rewrite !te_values_named, !cl_values_named.
Qed.

Lemma upstream_framing h buf hop endpoint close upgrade fresh f :
  request_framing h buf = Ok f ->
  fields_framing (upstream_fields h buf hop endpoint f close upgrade fresh)
    (left_framing (connection_lists h buf (bstr "content-length")) f).
Proof.
  intros Hf%fields_framing_spec. unfold fields_framing, left_framing in *. cbv zeta in *. rewrite upstream_te, upstream_cl.
  assert (Hchunked : te_value_ok (bstr "chunked")) by (exists (bstr "chunked"); by split).
  destruct (connection_lists h buf (bstr "content-length")) eqn:Hl; destruct f as [|n| |]; simpl in *; try done.
  all: try (destruct Hf as (?&?&?)); split_and!; try done; try (by left); try (by repeat constructor); naive_solver.
Qed.

(** The environment of the hop: its addresses, its scheme and the fresh id. *)
Record hop_ok (hop : Hop) (endpoint : SocketAddr) (fresh : bytes) : Prop := {
  hop_client : ip_ok (client hop);
  hop_scheme : Forall plain (scheme hop);
  hop_endpoint : socket_ok endpoint;
  hop_fresh : length fresh = 32%nat /\ Forall plain fresh;
}.

Lemma iter_ok buf l : Forall (field_good buf) l -> Forall field_ok (omap (header_pair buf) l).
Proof.
  induction 1 as [|s l (n&v&Hp&?&?&?) Hl IH]; simpl; [constructor|]. rewrite Hp. constructor; [|done].
  by split_and!.
Qed.

Lemma upgrade_value h buf p :
  Forall field_ok (head_iter h buf) -> upgrade_protocol h buf = Some p -> clean p /\ trimmed p.
Proof.
  intros Hin. unfold upgrade_protocol. destruct (negb _); [done|]. rewrite header_named.
  pose proof (named_ok (bstr "upgrade") _ Hin) as Hn. destruct (named _ _) as [|v l]; [done|]. simpl.
  apply Forall_cons in Hn as [[? ?] _]. case_bool_decide; [done|]. intros [= <-].
  split; [by apply clean_trim|apply trim_ows_ends].
Qed.

Lemma parsed_rewrite_ok buf h hop endpoint upgrade fresh :
  parse_request_head buf Head_default = (h, Ok true) -> hop_ok hop endpoint fresh ->
  (upgrade = None \/ upgrade = upgrade_protocol h buf) ->
  rewrite_ok h buf hop endpoint upgrade fresh /\
  exists m t, head_method h buf = Some m /\ head_target h buf = Some t /\ token m /\ target_ok t.
Proof.
  intros Hp [] Hu. apply parse_request_sound in Hp as (_&_&_&Hmt&_&Hg&_); [|by apply resumable_fresh].
  pose proof (iter_ok _ _ Hg) as Hin. split; [|done]. split; try done.
  destruct Hu as [->|Hu]; [done|]. destruct upgrade as [p|]; [|done]. by apply (upgrade_value h buf).
Qed.

Lemma filter_length_le {A} (f : A -> bool) l : (length (List.filter f l) <= length l)%nat.
Proof. apply List.filter_length_le. Qed.

Lemma upstream_count h buf hop endpoint framing close upgrade fresh :
  (length (upstream_fields h buf hop endpoint framing close upgrade fresh) <= length (head_headers h) + 9)%nat.
Proof.
  assert (Hi : (length (head_iter h buf) <= length (head_headers h))%nat).
  { unfold head_iter. induction (head_headers h) as [|s l IH]; [done|].
    cbn [omap list_omap]. destruct (header_pair buf s); cbn [length]; lia. }
  pose proof (filter_length_le (fun f => is_forwardable h buf f.1) (head_iter h buf)) as Hf.
  unfold upstream_fields. rewrite !length_app.
  destruct (existsb _ _), (head_header h buf (bstr "host")), (bool_decide (framing = Chunked)), upgrade, close;
    simpl length; lia.
Qed.

Lemma named_none n l : existsb (is_named n) l = false -> named n l = [].
Proof.
  unfold named. induction l as [|f l IH]; [done|]. simpl. intros H. bools. rewrite H. by apply IH.
Qed.

Lemma upstream_host h buf hop endpoint framing close upgrade fresh :
  named (bstr "host") (upstream_fields h buf hop endpoint framing close upgrade fresh)
  = if existsb (is_named (bstr "host")) (head_iter h buf)
    then (if connection_lists h buf (bstr "host") then [] else named (bstr "host") (head_iter h buf))
    else [socket_to_text endpoint].
Proof.
  rewrite named_upstream, named_added.
  assert (is_forwardable h buf (bstr "host") = negb (connection_lists h buf (bstr "host"))) as -> by done.
  destruct (existsb (is_named (bstr "host")) _) eqn:He.
  - replace (connection_lists h buf (bstr "host")) with
      (negb (negb (connection_lists h buf (bstr "host")))) by apply negb_involutive.
    destruct (negb (connection_lists _ _ _)), (bool_decide _), upgrade, close; rewrite ?app_nil_r; done.
  - rewrite (named_none _ _ He).
    destruct (negb (connection_lists _ _ _)), (bool_decide _), upgrade, close; done.
Qed.

(** ** Retries *)

Section route_lemmas.
Context {E : RegexEngine}.

Lemma below_live bound x : live x -> live (below bound x).2.
Proof. intros Hx. unfold below. destruct (bound =? 0); [done|]. by apply next_u64_live. Qed.

Lemma sampled_mirror_live mirror rng :
  live rng -> exists m rng', sampled_mirror mirror rng = (m, rng') /\ live rng' /\ (m = None \/ m = mirror).
Proof.
  intros Hl. unfold sampled_mirror. destruct mirror as [spec|]; [|by exists None, rng; auto].
  pose proof (below_live MIRROR_PERCENT_TOTAL rng Hl) as Hb. destruct (below _ rng) as [roll rng'].
  eexists _, _. split; [done|]. split; [done|]. destruct (sample spec roll); auto.
Qed.

Lemma endpoint_at_ring b first attempt :
  endpoints b <> [] -> exists e, endpoint_at b first attempt = Some e /\
    endpoints b !! ((first + attempt) mod length (endpoints b))%nat = Some e.
Proof.
  intros Hne. unfold endpoint_at. destruct (endpoints b) as [|x l] eqn:He; [done|].
  destruct (lookup_lt_is_Some_2 (x :: l) ((first + attempt) mod length (x :: l))) as [e He'].
  { apply Nat.mod_upper_bound. simpl. lia. }
  by exists e.
Qed.

Lemma targets_ring b first allowed :
  endpoints b <> [] ->
  length (targets b first allowed) = allowed /\
  forall i, (i < allowed)%nat ->
    targets b first allowed !! i = addr <$> endpoints b !! ((first + i) mod length (endpoints b))%nat.
Proof.
  intros Hne. unfold targets. induction allowed as [|n [IHl IHi]]; [split; [done|lia]|].
  rewrite seq_S, omap_app. simpl.
  destruct (endpoint_at_ring b first n Hne) as (e&->&He). simpl. split; [rewrite length_app; simpl; lia|].
  intros i Hi. destruct (decide (i < n)%nat).
  - rewrite lookup_app_l by lia. by apply IHi.
  - assert (i = n) as -> by lia. rewrite lookup_app_r by lia. rewrite IHl, Nat.sub_diag, He. done.
Qed.

Lemma targets_order b first n :
  endpoints b <> [] ->
  targets b first n =
  omap (fun i => addr <$> endpoints b !! i)
    (map (fun i => (first + i) mod length (endpoints b))%nat (seq 0 n)).
Proof.
  intros Hne. unfold targets. induction (seq 0 n) as [|i l IH]; [done|]. cbn [map omap list_omap].
  destruct (endpoint_at_ring b first i Hne) as (e&->&->). simpl. f_equal. exact IH.
Qed.

(** Walking forward from one endpoint meets no other one twice. *)
Lemma mod_window n first i j :
  (i < n)%nat -> (j < n)%nat -> ((first + i) mod n = (first + j) mod n)%nat -> i = j.
Proof.
  intros Hi Hj Heq. pose proof (Nat.div_mod_eq (first + i) n) as H1.
  pose proof (Nat.div_mod_eq (first + j) n) as H2. rewrite Heq in H1.
  set (q1 := ((first + i) / n)%nat) in *. set (q2 := ((first + j) / n)%nat) in *.
  destruct (Nat.lt_trichotomy q1 q2) as [Hq|[Hq|Hq]]; [|rewrite Hq in H1; lia|].
  - assert (n * S q1 <= n * q2)%nat by (apply Nat.mul_le_mono_l; lia). lia.
  - assert (n * S q2 <= n * q1)%nat by (apply Nat.mul_le_mono_l; lia). lia.
Qed.
End route_lemmas.

(** * Properties *)



Section route_properties.
Context {E : RegexEngine}.

(** The retry plan.  A request is tried first where the policy chose, then
    at the following endpoints, each at most once and never past the limit; a
    request with a body, which cannot be replayed, is tried once. *)
Theorem retry_plan (b : Backend) (first : usize) (f : Framing) (max_attempts : usize)
    (Hfirst : (first < length (endpoints b))%nat) :
  let n := attempts f (length (endpoints b)) max_attempts in
  let plan := targets b first n in
  length plan = n /\ (1 <= n <= length (endpoints b))%nat /\ (f <> Empty -> n = 1%nat) /\
  (n <= Nat.max 1 max_attempts)%nat /\
  plan !! 0%nat = addr <$> endpoints b !! first /\
  exists order, NoDup order /\ plan = omap (fun i => addr <$> endpoints b !! i) order /\
    length order = n /\ Forall (fun i => (i < length (endpoints b))%nat) order.
Proof.
  intros n plan. assert (Hne : endpoints b <> []) by (by destruct (endpoints b); [simpl in Hfirst; lia|]).
  destruct (targets_ring b first n Hne) as [Hlen Hat].
  assert (Hn : (1 <= n <= length (endpoints b))%nat /\ (f <> Empty -> n = 1%nat) /\ (n <= Nat.max 1 max_attempts)%nat).
  { unfold n, attempts. case_bool_decide as Hf; split_and!; try lia; done. }
  destruct Hn as (Hn1&Hn2&Hn3). split_and!; [done|lia|lia|done|done| |].
  - rewrite Hat, Nat.add_0_r, Nat.mod_small by lia. done.
  - exists (map (fun i => (first + i) mod length (endpoints b))%nat (seq 0 n)). split_and!.
    + apply NoDup_fmap_2_strong; [|apply NoDup_seq]. intros x y Hx%elem_of_seq Hy%elem_of_seq.
      apply mod_window; lia.
    + apply targets_order. exact Hne.
    + by rewrite List.length_map, length_seq.
    + apply Forall_forall. intros i Hi. apply list_elem_of_In, List.in_map_iff in Hi as (j&<-&_).
      apply Nat.mod_upper_bound. lia.
Qed.

(** Routing one request through the engine's glue.  The table decides
    whether and what the request matches; the route it counts against is the
    matched rule's whatever the canary says; a mirror is the rule's own or
    none; and the canary serves the request exactly when the decision on a roll
    inside its weight range diverts it and the table holds its backend. *)
Theorem attribution_stable (table : RouteTable) (host path : str) (h : Head) (buf : bytes) (rng : u64)
    (Hlive : live rng) :
  match match_request table host path with
  | None => route_request table host path h buf rng = (None, rng)
  | Some mr => exists m rng', route_request table host path h buf rng = (Some m, rng') /\ live rng' /\
      m_route m = rule_stats_index <$> mr_rule mr /\
      (m_mirror m = None \/ m_mirror m = mr_mirror mr) /\
      match mr_canary mr with
      | None => m_canaried m = false /\ m_backend m = mr_backend mr
      | Some c => fits 32 (canary_weight_total c) -> exists hv cv roll,
          (canary_weight_total c <> 0 -> 0 <= roll < canary_weight_total c) /\
          (m_canaried m = true <-> decide_canary c hv cv roll = true /\
             is_Some (table_backend table (canary_backend c))) /\
          (if m_canaried m then table_backend table (canary_backend c) = Some (m_backend m)
           else m_backend m = mr_backend mr)
      end
  end.
Proof.
  unfold route_request. destruct (match_request table host path) as [mr|]; [|done].
  destruct (sampled_mirror_live (mr_mirror mr) rng Hlive) as (mirror&rng1&->&Hlive1&Hmirror).
  destruct (mr_canary mr) as [c|].
  - pose proof (below_live (canary_weight_total c) rng1 Hlive1) as Hlive2.
    pose proof (below_bound (canary_weight_total c) rng1) as Hbound.
    destruct (below (canary_weight_total c) rng1) as [roll rng2]. simpl in *.
    eexists _, _. split; [reflexivity|]. split_and!; [done|done|done|].
    intros Hfit.
    exists (name ← header_name c; value ← head_header h buf name; from_utf8 value),
      (name ← cookie_name c; cookie_value h buf name), roll. split; [|split].
    + intros Hne. destruct (Hbound Hfit Hlive1) as [? Hlt]. auto.
    + simpl. rewrite bool_decide_eq_true.
      match goal with |- context [decide_canary ?a ?b ?v ?d] => destruct (decide_canary a b v d) end.
      * split; [by split|by intros [_ ?]].
      * split; [by intros [? ?]|by intros [? _]].
    + simpl.
      match goal with |- context [decide_canary ?a ?b ?v ?d] => destruct (decide_canary a b v d) end; [|done].
      by destruct (table_backend table (canary_backend c)).
  - eexists _, _. by split_and!.
Qed.
End route_properties.

(** ** Witnesses and the two stripped headers *)

Definition demo_hop : Hop := MkHop (IpV4 [198; 51; 100; 4]) (bstr "http").
Definition demo_endpoint : SocketAddr := SocketV4 [10; 0; 0; 1] 8080.
Definition demo_id : bytes := replicate 32 (chr "a").
Definition demo_message (connection : bytes) : bytes :=
  render_head (request_line (bstr "POST") (bstr "/x") Http11)
    [(bstr "Host", bstr "a"); (bstr "Content-Length", bstr "5"); (bstr "Connection", connection)].
Definition demo_parsed (connection : bytes) : Head :=
  (parse_request_head (demo_message connection) Head_default).1.
Definition demo_rewritten (connection : bytes) : bytes :=
  default [] (write_upstream_request (demo_parsed connection) (demo_message connection)
    demo_hop demo_endpoint (Length 5) false None demo_id).

Lemma demo_hop_ok : hop_ok demo_hop demo_endpoint demo_id.
Proof.
  split; simpl; unfold ip_ok, u16_max, is_byte, plain, demo_id;
    repeat (split || constructor); lia.
Qed.


(** Listing [host] strips the only [Host]: none is added in its place. *)
Lemma host_stripped :
  named (bstr "host") (upstream_fields (demo_parsed (bstr "host")) (demo_message (bstr "host"))
    demo_hop demo_endpoint (Length 5) false None demo_id) = [].
Proof. vm_compute. reflexivity. Qed.


Definition demo_backend : Backend :=
  Backend_new (bstr "app") [Endpoint_new demo_endpoint; Endpoint_new (SocketV4 [10; 0; 0; 2] 8080);
    Endpoint_new (SocketV4 [10; 0; 0; 3] 8080)] RoundRobin Http1 0.

Lemma retry_plan_witness :
  length (targets demo_backend 2 (attempts Empty 3 2)) = 2%nat /\
  targets demo_backend 2 (attempts Empty 3 2) !! 0%nat = Some (SocketV4 [10; 0; 0; 3] 8080).
Proof.
  destruct (retry_plan demo_backend 2 Empty 2 ltac:(simpl; lia)) as (Hl&_&_&_&H0&_).
  split; [exact Hl|]. exact H0.
Defined.

Lemma attribution_stable_witness :
  route_request (E := literal_engine) (demo_table 0) (bstr "example.com") (bstr "/") Head_default [] 7 = (None, 7).
Proof. exact (attribution_stable (E := literal_engine) (demo_table 0) (bstr "example.com") (bstr "/") Head_default [] 7
  ltac:(split; [split; done|done])). Defined.
