(* ===== verification/Mirror.v ===== *)
(** Sampled copies: [crates/ramjet-engine/src/mirror.rs].

    The types of the http crate are the class [HttpTypes]: what it accepts as
    a method, a path and query, a header name or value. *)

From S2P Require Import Prelude RouterTypes Codec Head NetText.

Class HttpTypes := {
  Method : Type;
  Uri : Type;
  method_from_bytes : bytes -> option Method;
  (** [PathAndQuery::from_str] and its [as_str]. *)
  path_and_query : str -> option str;
  uri_parse : str -> option Uri;
  (** A name is kept in lower case. *)
  header_name_ok : bytes -> bool;
  header_value_ok : bytes -> bool;
}.

Definition MIRRORED_BY : bytes := bstr "x-mirrored-by".
Definition MIRRORED_BY_VALUE : bytes := bstr "ramjet-ingress".

Section mirror.
Context `{HttpTypes}.

(** [ramjet_proxy::upstream::endpoint_uri]. *)
Definition endpoint_uri (endpoint : SocketAddr) (path : option str) : option Uri :=
  uri_parse (bstr "http://" ++ socket_to_text endpoint ++ default (bstr "/") path).

Record Parts := MkParts { p_method : Method; p_uri : Uri; p_headers : list (bytes * bytes) }.

Definition copy_header (host_override : option str) (f : bytes * bytes) : option (bytes * bytes) :=
  let name := lower f.1 in
  if negb (header_name_ok f.1) || negb (header_value_ok f.2) then None
  else if bool_decide (name = bstr "host") && bool_decide (is_Some host_override) then None
  else Some (name, f.2).

Definition parts_for (head_bytes : bytes) (endpoint : SocketAddr) (host_override : option str)
    : option Parts :=
  match parse_request_head head_bytes Head_default with
  | (head, Ok true) =>
      match head_start head with
      | Request method target _ =>
          m ← span_bytes method head_bytes;
          method ← method_from_bytes m;
          t ← span_bytes target head_bytes;
          text ← from_utf8 t;
          path ← path_and_query text;
          uri ← endpoint_uri endpoint (Some path);
          let headers := omap (copy_header host_override) (head_iter head head_bytes) in
          let headers := headers ++
            match host_override with
            | Some h => if header_value_ok h then [(bstr "host", h)] else []
            | None => []
            end in
          Some (MkParts method uri (headers ++ [(MIRRORED_BY, MIRRORED_BY_VALUE)]))
      | Status _ _ _ => None
      end
  | _ => None
  end.
End mirror.
