(* ===== verification/ProxyHeaders.v ===== *)
(** Header rewriting of the hyper proxy:
    [crates/ramjet-proxy/src/headers.rs], its use in [forward.rs], and the
    random words of [rng.rs].

    The header map of the [http] crate is the class [HeaderMapOps] with what
    its documentation promises, [HeaderMapLaws]; names are kept in lower case.
    The engine's rewriting of the same fields is [Forwarding]. *)

From S2P Require Import Prelude NetText Rng Codec Head RouterTypes Canary Paths Stats Backends Table Forwarding Mirror.

(** ** Random words *)

(** [mix]: SplitMix64's finalizer. *)
Definition mix (z : u64) : u64 :=
  let z := wrapping_mul64 (Z.lxor z (Z.shiftr z 30)) 13787848793156543929 in
  let z := wrapping_mul64 (Z.lxor z (Z.shiftr z 27)) 10723151780598845931 in
  Z.lxor z (Z.shiftr z 31).
(** [seed]: the clock before the epoch reads as a constant; [thread] is what
    the shared counter held. *)
Definition proxy_seed (nanos : option u64) (thread : u64) : u64 :=
  Z.lor (mix (Z.lxor (default 11400714819323198485 nanos) (wrapping_mul64 thread 11400714819323198485))) 1.
Definition proxy_next_u64 (state : u64) : u64 :=
  let x := Z.lxor state (shl64 state 13) in
  let x := Z.lxor x (Z.shiftr x 7) in
  Z.lxor x (shl64 x 17).
Definition proxy_below (bound : u32) (state : u64) : u32 * u64 :=
  if bound =? 0 then (0, state)
  else let word := proxy_next_u64 state in (wrap32 (Z.shiftr (word * bound) 64), word).
Definition proxy_hex_id (state : u64) : bytes * u64 :=
  let hi := proxy_next_u64 state in
  let lo := proxy_next_u64 hi in
  (flat_map (fun word => map (fun nibble => nth (Z.to_nat (Z.land (Z.shiftr word (60 - Z.of_nat nibble * 4)) 15)) HEX 0) (seq 0 16))
     [hi; lo], lo).

(** ** The header map *)

Class HeaderMapOps (M : Type) := {
  get_all : M -> str -> list bytes;
  (** The first value of the name, if any; all of them go. *)
  hm_remove : M -> str -> option bytes * M;
  hm_insert : M -> str -> bytes -> M;
  (** [HeaderValue::to_str]. *)
  to_str : bytes -> option str;
}.
Class HeaderMapLaws (M : Type) `{HeaderMapOps M} := {
  remove_first : forall m n, (hm_remove m n).1 = head (get_all m n);
  remove_gone : forall m n n', get_all (hm_remove m n).2 n' = if bool_decide (n' = n) then [] else get_all m n';
  insert_sets : forall m n v n', get_all (hm_insert m n v) n' = if bool_decide (n' = n) then [v] else get_all m n';
  to_str_same : forall v s, to_str v = Some s -> s = v;
}.

Definition X_FORWARDED_FOR : str := bstr "x-forwarded-for".
Definition X_FORWARDED_PROTO : str := bstr "x-forwarded-proto".
Definition X_FORWARDED_HOST : str := bstr "x-forwarded-host".
Definition X_REAL_IP : str := bstr "x-real-ip".
Definition X_REQUEST_ID : str := bstr "x-request-id".
Definition CONNECTION : str := bstr "connection".
Definition UPGRADE : str := bstr "upgrade".
Definition PROXY_HOP_BY_HOP : list str :=
  [bstr "keep-alive"; bstr "proxy-connection"; bstr "proxy-authenticate"; bstr "proxy-authorization";
   bstr "te"; bstr "trailer"; bstr "transfer-encoding"; UPGRADE].

Definition is_ascii_space (b : u8) : bool := (b =? 32) || (b =? 9) || (b =? 10) || (b =? 12) || (b =? 13).
(** [<[u8]>::trim_ascii]. *)
Definition trim_ascii (s : bytes) : bytes := rev (drop_while is_ascii_space (rev (drop_while is_ascii_space s))).

(** [StackStr<N>::write_str]: what does not fit is an error, and is not written. *)
Definition stack_write (n : usize) (buffer s : bytes) : result unit bytes :=
  if (length buffer + length s <=? n)%nat then Ok (buffer ++ s) else Err tt.
(** The 48 bytes hold any address; the error is ignored. *)
Definition stack_text (s : str) : bytes := match stack_write 48 [] s with Ok b => b | Err _ => [] end.

Section headers.
Context {M : Type} `{HeaderMapOps M, HttpTypes}.

(** [HeaderName::from_bytes] and [HeaderValue::from_bytes]. *)
Definition header_name (b : bytes) : option str := if header_name_ok b then Some (lower b) else None.
Definition header_value (b : bytes) : option bytes := if header_value_ok b then Some b else None.

Definition remove_token (headers : M) (token : bytes) : M :=
  let token := trim_ascii token in
  if bool_decide (token = []) then headers
  else match header_name token with Some name => (hm_remove headers name).2 | None => headers end.

Definition strip_hop_by_hop (headers : M) : M :=
  let '(connection, headers) := hm_remove headers CONNECTION in
  let headers :=
    match connection with
    | Some value => foldl remove_token headers (split_on (chr ",") value)
    | None => headers
    end in
  foldl (fun headers name => (hm_remove headers name).2) headers PROXY_HOP_BY_HOP.

Definition proxy_upgrade_protocol (headers : M) : option bytes :=
  let requested :=
    existsb (fun value => existsb (fun token => eq_ignore_ascii_case (trim_ascii token) UPGRADE) (split_on (chr ",") value))
      (get_all headers CONNECTION) in
  if negb requested then None else head (get_all headers UPGRADE).

Definition restore_upgrade (headers : M) (protocol : bytes) : M :=
  hm_insert (hm_insert headers CONNECTION UPGRADE) UPGRADE protocol.

(** One existing value joins the trail. *)
Definition trail_push (trail : option bytes) (existing : bytes) : option bytes :=
  let buffer := default [] trail in
  Some ((if bool_decide (buffer = []) then buffer else buffer ++ bstr ", ") ++ existing).
Definition apply_forwarded (headers : M) (client : IpAddr) (scheme : str) (authority : option bytes) : M :=
  let ip := stack_text (ip_to_text client) in
  let trail := foldl trail_push None (get_all headers X_FORWARDED_FOR) in
  let headers :=
    match header_value (match trail with Some buffer => buffer ++ bstr ", " ++ ip | None => ip end) with
    | Some value => hm_insert headers X_FORWARDED_FOR value
    | None => headers
    end in
  let headers := match header_value ip with Some value => hm_insert headers X_REAL_IP value | None => headers end in
  let headers := hm_insert headers X_FORWARDED_PROTO scheme in
  match authority with Some a => hm_insert headers X_FORWARDED_HOST a | None => headers end.

(** The value, the headers, and the random state it leaves. *)
Definition ensure_request_id (headers : M) (state : u64) : bytes * M * u64 :=
  let fresh :=
    let '(hex, state) := proxy_hex_id state in
    let value := default (bstr "0") (header_value hex) in
    (value, hm_insert headers X_REQUEST_ID value, state) in
  match head (get_all headers X_REQUEST_ID) with
  | Some existing => if bool_decide (existing = []) then fresh else (existing, headers, state)
  | None => fresh
  end.

(** The first pair of that name in one value, then the values in order; a
    value that is not text is passed over. *)
Definition proxy_cookie_pair (name : str) (pair : str) : option str :=
  '(key, val) ← split_once (chr "=") pair;
  if bool_decide (str_trim key = name) then Some (str_trim val) else None.
Fixpoint cookie_scan (name : str) (values : list bytes) : option str :=
  match values with
  | [] => None
  | value :: rest =>
      match to_str value with
      | None => cookie_scan name rest
      | Some raw =>
          match omap (proxy_cookie_pair name) (split_on (chr ";") raw) with
          | found :: _ => Some found
          | [] => cookie_scan name rest
          end
      end
  end.
Definition proxy_cookie_value (headers : M) (name : str) : option str := cookie_scan name (get_all headers (bstr "cookie")).

(** [client_host]: the authority of the request line, else the [Host]. *)
Definition client_host (authority : option str) (headers : M) : option bytes :=
  match authority with Some a => header_value a | None => head (get_all headers (bstr "host")) end.

(** The rewriting of [forward], for either protocol of the backend. *)
Definition forward_headers (protocol : BackendProtocol) (headers : M) (client : IpAddr) (scheme : str)
    (authority : option str) (state : u64) : M * u64 :=
  let forwarded_host := client_host authority headers in
  let upgrade := proxy_upgrade_protocol headers in
  let headers := apply_forwarded (strip_hop_by_hop headers) client scheme forwarded_host in
  let '(_, headers, state) := ensure_request_id headers state in
  let headers :=
    match protocol with
    | Http1 =>
        let headers := match upgrade with Some upgraded => restore_upgrade headers upgraded | None => headers end in
        match get_all headers (bstr "host"), forwarded_host with
        | [], Some host => hm_insert headers (bstr "host") host
        | _, _ => headers
        end
    | H2c => (hm_remove headers (bstr "host")).2
    end in
  (headers, state).
End headers.

(** ** What the rewriting does to one name *)

Section lemmas.
Context {M : Type} `{HeaderMapLaws M, HttpTypes}.

(** The names one [Connection] value lists. *)
Definition lists (value : bytes) (n : str) : bool :=
  existsb (fun token => negb (bool_decide (trim_ascii token = [])) && bool_decide (header_name (trim_ascii token) = Some n))
    (split_on (chr ",") value).

Lemma remove_tokens (m : M) tokens n :
  get_all (foldl remove_token m tokens) n =
  if existsb (fun token => negb (bool_decide (trim_ascii token = [])) && bool_decide (header_name (trim_ascii token) = Some n)) tokens
  then [] else get_all m n.
Proof.
  revert m. induction tokens as [|t l IH]; intros m; [done|]. cbn [foldl existsb]. rewrite IH. unfold remove_token.
  destruct (bool_decide (trim_ascii t = [])); cbn [negb andb orb]; [done|].
  destruct (header_name (trim_ascii t)) as [name|]; [|done]. rewrite remove_gone.
  destruct (existsb _ l); [by rewrite orb_true_r|]. rewrite orb_false_r.
  destruct (decide (n = name)) as [->|Hn]; [by rewrite !bool_decide_eq_true_2|].
  rewrite !bool_decide_eq_false_2; congruence.
Qed.
Lemma remove_names (m : M) names n :
  get_all (foldl (fun headers name => (hm_remove headers name).2) m names) n =
  if bool_decide (n ∈ names) then [] else get_all m n.
Proof.
  revert m. induction names as [|j l IH]; intros m; [done|]. cbn [foldl]. rewrite IH, remove_gone.
  repeat case_bool_decide; set_solver.
Qed.

(** [strip_hop_by_hop] empties the fixed names and what the first [Connection]
    lists, and nothing else. *)
Lemma strip_exact (m : M) n :
  get_all (strip_hop_by_hop m) n =
  if bool_decide (n = CONNECTION) || bool_decide (n ∈ PROXY_HOP_BY_HOP) || from_option (fun v => lists v n) false (head (get_all m CONNECTION))
  then [] else get_all m n.
Proof.
  unfold strip_hop_by_hop. pose proof (remove_first m CONNECTION) as Hf. pose proof (remove_gone m CONNECTION n) as Hg.
  destruct (hm_remove m CONNECTION) as [connection m1]. cbn [fst snd] in *. subst connection. rewrite remove_names.
  destruct (bool_decide (n ∈ PROXY_HOP_BY_HOP)); [by rewrite orb_true_r|]. rewrite orb_false_r.
  destruct (head (get_all m CONNECTION)) as [v|]; cbn [from_option].
  - rewrite remove_tokens, Hg. fold (lists v n). by destruct (lists v n), (bool_decide (n = CONNECTION)).
  - rewrite Hg. by destruct (bool_decide _).
Qed.

Lemma insert_other (m : M) n v n' : n' <> n -> get_all (hm_insert m n v) n' = get_all m n'.
Proof. intros Hn. rewrite insert_sets. by rewrite bool_decide_eq_false_2. Qed.

Lemma apply_forwarded_other (m : M) client scheme authority n :
  n ∉ SELF_WRITTEN -> get_all (apply_forwarded m client scheme authority) n = get_all m n.
Proof.
  intros Hn. assert (n <> X_FORWARDED_FOR /\ n <> X_REAL_IP /\ n <> X_FORWARDED_PROTO /\ n <> X_FORWARDED_HOST)
    as (? & ? & ? & ?) by (split_and!; intros ->; apply Hn; unfold SELF_WRITTEN; set_solver).
  unfold apply_forwarded. repeat case_match; rewrite ?insert_other; done.
Qed.
Lemma ensure_request_id_other (m : M) state n :
  n <> X_REQUEST_ID -> get_all (ensure_request_id m state).1.2 n = get_all m n.
Proof.
  intros Hn. unfold ensure_request_id. destruct (proxy_hex_id state) as [hex s]. repeat case_match; cbn; by rewrite ?insert_other.
Qed.

(** After the forwarding headers only four names change. *)
Lemma forward_headers_tail protocol (m : M) client scheme authority state n :
  n <> X_REQUEST_ID -> n <> UPGRADE -> n <> bstr "host" ->
  get_all (forward_headers protocol m client scheme authority state).1 n =
  match protocol, proxy_upgrade_protocol m, bool_decide (n = CONNECTION) with
  | Http1, Some _, true => [UPGRADE]
  | _, _, _ => get_all (apply_forwarded (strip_hop_by_hop m) client scheme (client_host authority m)) n
  end.
Proof.
  intros Hr Hu Hh. unfold forward_headers.
  set (m1 := apply_forwarded _ _ _ _). pose proof (ensure_request_id_other m1 state n Hr) as He.
  destruct (ensure_request_id m1 state) as [[id m2] s]. cbn [fst snd] in *. rewrite <- He.
  destruct protocol; cbn [fst].
  - assert (Hm : get_all (match proxy_upgrade_protocol m with Some u => restore_upgrade m2 u | None => m2 end) n =
      match proxy_upgrade_protocol m, bool_decide (n = CONNECTION) with Some _, true => [UPGRADE] | _, _ => get_all m2 n end).
    { unfold restore_upgrade. destruct (proxy_upgrade_protocol m); [|done]. by rewrite insert_other, insert_sets. }
    rewrite <- Hm. repeat case_match; by rewrite ?insert_other.
  - rewrite remove_gone. rewrite bool_decide_eq_false_2 by done. by repeat case_match.
Qed.
(** What the last steps make of the two names left. *)
Lemma forward_headers_upgrade protocol (m : M) client scheme authority state :
  get_all (forward_headers protocol m client scheme authority state).1 UPGRADE =
  match protocol, proxy_upgrade_protocol m with
  | Http1, Some u => [u]
  | _, _ => get_all (strip_hop_by_hop m) UPGRADE
  end.
Proof.
  unfold forward_headers. set (m1 := apply_forwarded _ _ _ _).
  assert (Hm1 : get_all m1 UPGRADE = get_all (strip_hop_by_hop m) UPGRADE)
    by (apply apply_forwarded_other, (bool_decide_unpack _); vm_compute; exact I).
  pose proof (ensure_request_id_other m1 state UPGRADE ltac:(discriminate)) as He.
  destruct (ensure_request_id m1 state) as [[id m2] s]. cbn [fst snd] in *. rewrite <- Hm1, <- He.
  destruct protocol; cbn [fst].
  - assert (Hm : get_all (match proxy_upgrade_protocol m with Some u => restore_upgrade m2 u | None => m2 end) UPGRADE =
      match proxy_upgrade_protocol m with Some u => [u] | None => get_all m2 UPGRADE end).
    { unfold restore_upgrade. destruct (proxy_upgrade_protocol m); [|done]. rewrite insert_sets.
      by rewrite bool_decide_eq_true_2. }
    rewrite <- Hm. repeat case_match; by rewrite ?insert_other.
  - rewrite remove_gone. rewrite bool_decide_eq_false_2 by done. by repeat case_match.
Qed.
Lemma forward_headers_host protocol (m : M) client scheme authority state :
  get_all (forward_headers protocol m client scheme authority state).1 (bstr "host") =
  match protocol, get_all (strip_hop_by_hop m) (bstr "host") with
  | Http1, [] => option_list (client_host authority m)
  | Http1, l => l
  | H2c, _ => []
  end.
Proof.
  unfold forward_headers. set (m1 := apply_forwarded _ _ _ _).
  assert (Hm1 : get_all m1 (bstr "host") = get_all (strip_hop_by_hop m) (bstr "host"))
    by (apply apply_forwarded_other, (bool_decide_unpack _); vm_compute; exact I).
  pose proof (ensure_request_id_other m1 state (bstr "host") ltac:(discriminate)) as He.
  destruct (ensure_request_id m1 state) as [[id m2] s]. cbn [fst snd] in *. rewrite <- Hm1, <- He.
  destruct protocol; cbn [fst]; [|rewrite remove_gone; by rewrite bool_decide_eq_true_2].
  set (m3 := match proxy_upgrade_protocol m with Some u => restore_upgrade m2 u | None => m2 end).
  assert (Hm : get_all m3 (bstr "host") = get_all m2 (bstr "host")).
  { unfold m3, restore_upgrade. destruct (proxy_upgrade_protocol m); [|done]. by rewrite !insert_other. }
  rewrite <- Hm. destruct (get_all m3 (bstr "host")) as [|v l] eqn:Hg; [|done].
  destruct (client_host authority m); cbn [option_list]; [rewrite insert_sets; by rewrite bool_decide_eq_true_2|exact Hg].
Qed.
Lemma forwarded_trail (m : M) client scheme authority :
  let ip := stack_text (ip_to_text client) in
  let value := match foldl trail_push None (get_all m X_FORWARDED_FOR) with Some b => b ++ bstr ", " ++ ip | None => ip end in
  header_value_ok value = true -> get_all (apply_forwarded m client scheme authority) X_FORWARDED_FOR = [value].
Proof.
  intros ip value Hok. unfold apply_forwarded. fold ip. cbv zeta. fold value.
  assert (header_value value = Some value) as -> by (unfold header_value; by rewrite Hok).
  set (m1 := hm_insert m X_FORWARDED_FOR value).
  assert (E : get_all m1 X_FORWARDED_FOR = [value]) by (unfold m1; rewrite insert_sets; by rewrite bool_decide_eq_true_2).
  rewrite <- E. repeat case_match; by rewrite ?insert_other.
Qed.
End lemmas.

(** ** Against the engine's rewriting *)

Section engines.
Context {M : Type} `{HeaderMapLaws M, HttpTypes}.
(** Names compare without case, so validity does not depend on it. *)
Context (name_ok_lower : forall b, header_name_ok (lower b) = header_name_ok b).
(** A parsed head, and the map hyper makes of the same fields. *)
Context (h : Head) (buf : bytes) (m : M).
Context (same_fields : forall n, get_all m n = map snd (List.filter (fun f => bool_decide (lower f.1 = n)) (head_iter h buf))).
Context (names_ok : Forall (fun f : bytes * bytes => header_name_ok f.1 = true /\ f.1 <> []) (head_iter h buf)).
(** A value holds no line end and no form feed. *)
Definition value_clean (v : bytes) : Prop := Forall (fun b => is_ascii_space b = is_ows b) v.
Context (values_ok : Forall (fun f : bytes * bytes => value_clean f.2) (head_iter h buf)).
Context (one_connection : (length (headers_named h buf CONNECTION) <= 1)%nat).

Lemma eq_ignore_lower a b : eq_ignore_ascii_case a b = bool_decide (lower a = lower b).
Proof. unfold eq_ignore_ascii_case. done. Qed.

Lemma named_values n : lower n = n -> get_all m n = map snd (headers_named h buf n).
Proof.
  intros Hn. rewrite same_fields. f_equal. apply filter_ext_in. intros [a v]. cbn. by rewrite eq_ignore_lower, Hn.
Qed.

Lemma drop_while_clean v : value_clean v -> drop_while is_ascii_space v = drop_while is_ows v.
Proof. induction 1 as [|b v Hb Hv IH]; [done|]. cbn [drop_while]. rewrite Hb. by destruct (is_ows b). Qed.
Lemma value_clean_drop v : value_clean v -> value_clean (drop_while is_ows v).
Proof. induction 1 as [|b v Hb Hv IH]; [constructor|]. cbn [drop_while]. destruct (is_ows b) eqn:E; [exact IH|]. constructor; [congruence|done]. Qed.
Lemma trim_clean v : value_clean v -> trim_ascii v = trim_ows v.
Proof.
  intros Hv. unfold trim_ascii, trim_ows. rewrite (drop_while_clean v Hv). f_equal. apply drop_while_clean.
  unfold value_clean. by apply Forall_rev, value_clean_drop.
Qed.
Lemma split_clean c v : value_clean v -> Forall value_clean (split_on c v).
Proof.
  induction 1 as [|b v Hb Hv IH]; cbn [split_on]; [repeat constructor|].
  destruct (b =? c); [constructor; [constructor|done]|].
  destruct (split_on c v) as [|x l].
  - repeat constructor. exact Hb.
  - apply Forall_cons in IH as [Hx Hl]. constructor; [|done]. constructor; [exact Hb|exact Hx].
Qed.

(** One [Connection] value lists the same names for both. *)
Lemma lists_token v n :
  value_clean v -> n <> [] -> lower n = n -> header_name_ok n = true -> lists v n = has_token v n.
Proof.
  intros Hv Hne Hlow Hok. unfold lists, has_token. pose proof (split_clean (chr ",") v Hv) as Hs.
  induction Hs as [|t l Ht Hl IH]; [done|]. cbn [existsb]. rewrite IH. f_equal. rewrite trim_clean by done.
  rewrite eq_ignore_lower, Hlow. unfold header_name. apply eq_true_iff_eq.
  rewrite andb_true_iff, negb_true_iff, bool_decide_eq_false, !bool_decide_eq_true. split.
  - intros [_ Hn]. destruct (header_name_ok (trim_ows t)); [by injection Hn|done].
  - intros Ht'. split; [intros E; rewrite E in Ht'; cbn in Ht'; congruence|].
    rewrite <- name_ok_lower, Ht', Hok. done.
Qed.

Lemma listed_by_connection n :
  n <> [] -> lower n = n -> header_name_ok n = true ->
  from_option (fun v => lists v n) false (head (get_all m CONNECTION)) = connection_lists h buf n.
Proof.
  intros Hne Hlow Hok. rewrite named_values by done. unfold connection_lists.
  assert (Hv : Forall (fun f : bytes * bytes => value_clean f.2) (headers_named h buf CONNECTION)).
  { unfold headers_named. apply Forall_forall. intros f [Hf _]%in_filter. rewrite Forall_forall in values_ok. by apply values_ok. }
  change (bstr "connection") with CONNECTION.
  destruct (headers_named h buf CONNECTION) as [|[a v] [|]]; [done| |cbn in one_connection; lia].
  cbn. apply Forall_cons in Hv as [Hv _]. rewrite orb_false_r. by apply lists_token.
Qed.

Lemma existsb_lower name l :
  Forall (fun x => lower x = x) l -> existsb (eq_ignore_ascii_case name) l = bool_decide (lower name ∈ l).
Proof.
  induction 1 as [|x l Hx Hl IH]; [done|]. cbn [existsb]. rewrite IH, eq_ignore_lower, Hx.
  apply eq_true_iff_eq. rewrite orb_true_iff, !bool_decide_eq_true, elem_of_cons. done.
Qed.
Lemma existsb_same {X : Type} (p q : X -> bool) l : (forall x, p x = q x) -> existsb p l = existsb q l.
Proof. intros Hp. induction l as [|x l IH]; [done|]. cbn [existsb]. by rewrite Hp, IH. Qed.
Lemma connection_lists_lower name : connection_lists h buf (lower name) = connection_lists h buf name.
Proof.
  apply existsb_same. intros [a v]. apply existsb_same. intros t. by rewrite !eq_ignore_lower, lower_idem.
Qed.
Lemma hop_by_hop_lower name : is_hop_by_hop name = bool_decide (lower name ∈ PROXY_HOP_BY_HOP).
Proof. unfold is_hop_by_hop. apply existsb_lower. repeat constructor. Qed.
Lemma self_written_lower name : is_self_written name = bool_decide (lower name ∈ SELF_WRITTEN).
Proof. unfold is_self_written. apply existsb_lower. repeat constructor. Qed.
Lemma forwardable_lower name : is_forwardable h buf (lower name) = is_forwardable h buf name.
Proof.
  unfold is_forwardable. by rewrite !eq_ignore_lower, !hop_by_hop_lower, !self_written_lower, connection_lists_lower, lower_idem.
Qed.

Lemma strip_agrees n :
  lower n = n -> n ∉ SELF_WRITTEN ->
  get_all (strip_hop_by_hop m) n = if is_forwardable h buf n then get_all m n else [].
Proof.
  intros Hn Hs. rewrite strip_exact. destruct (get_all m n) as [|v l] eqn:Hg.
  { by destruct (_ || _ || _), (is_forwardable h buf n). }
  assert (Hok : header_name_ok n = true /\ n <> []).
  { rewrite same_fields in Hg. assert (Hin : v ∈ map snd (List.filter (fun f => bool_decide (lower f.1 = n)) (head_iter h buf))).
    { rewrite Hg. by left. }
    apply list_elem_of_fmap in Hin as ([a v'] & _ & [Hin Ha%bool_decide_eq_true]%in_filter). cbn in Ha. subst n.
    rewrite Forall_forall in names_ok. destruct (names_ok _ Hin) as [Ho Hne]. cbn in *. rewrite name_ok_lower.
    split; [done|]. by destruct a. }
  destruct Hok as [Ho Hne]. rewrite listed_by_connection by done. unfold is_forwardable.
  rewrite eq_ignore_lower, hop_by_hop_lower, self_written_lower, Hn. change (lower (bstr "connection")) with CONNECTION.
  rewrite (bool_decide_eq_false_2 (n ∈ SELF_WRITTEN)) by done. cbn [negb].
  by destruct (bool_decide (n = CONNECTION)), (bool_decide (n ∈ PROXY_HOP_BY_HOP)), (connection_lists h buf n).
Qed.

Lemma forwarded_values n :
  (if is_forwardable h buf n then get_all m n else []) =
  map snd (List.filter (fun f => is_forwardable h buf f.1 && bool_decide (lower f.1 = n)) (head_iter h buf)).
Proof.
  rewrite same_fields.
  rewrite (filter_ext_in (fun f => is_forwardable h buf f.1 && bool_decide (lower f.1 = n))
    (fun f => is_forwardable h buf n && bool_decide (lower f.1 = n))).
  - destruct (is_forwardable h buf n); [done|]. cbn [andb]. generalize (head_iter h buf). intros l. by induction l.
  - intros [a v]. cbn. case_bool_decide as Ha; [|by rewrite !andb_false_r]. by rewrite <- Ha, forwardable_lower.
Qed.

(** The trail the proxy joins is the engine's, once nothing needs trimming. *)
Lemma trail_pushes b l :
  b <> [] -> foldl trail_push (Some b) l = Some (b ++ flat_map (fun v => bstr ", " ++ v) l).
Proof.
  revert b. induction l as [|v l IH]; intros b Hb; cbn [foldl flat_map]; [by rewrite app_nil_r|].
  unfold trail_push at 2. cbn [default from_option id]. rewrite bool_decide_eq_false_2 by done. rewrite IH; [by rewrite <- !app_assoc|].
  by destruct b.
Qed.
Lemma trail_agrees l ip :
  Forall (fun v => trim_ows v = v /\ v <> []) l ->
  match foldl trail_push None l with Some buffer => buffer ++ bstr ", " ++ ip | None => ip end = trail l ++ ip.
Proof.
  intros Hl. destruct Hl as [|v l [Hv Hne] Hl]; [done|]. cbn [foldl]. unfold trail_push at 2. cbn [default from_option id].
  rewrite bool_decide_eq_true_2 by done. cbn [app]. rewrite trail_pushes by done. unfold trail. cbn [flat_map].
  rewrite Hv, bool_decide_eq_false_2 by done. rewrite <- !app_assoc. f_equal.
  induction Hl as [|w l [Hw Hwn] Hl IH]; [done|]. cbn [flat_map]. rewrite Hw, bool_decide_eq_false_2 by done.
  rewrite <- !app_assoc. f_equal. f_equal. by rewrite IH.
Qed.

(** The values a name keeps across the hop in the engine's writer. *)
Definition kept (n : str) : list bytes :=
  map snd (List.filter (fun f => is_forwardable h buf f.1 && bool_decide (lower f.1 = n)) (head_iter h buf)).

End engines.

(** ** A header map, and what two [Connection] fields do *)

(** The fields in order; an insertion replaces them all. *)
#[export] Instance list_map : HeaderMapOps (list (str * bytes)) := {|
  get_all m n := map snd (List.filter (fun f => bool_decide (f.1 = n)) m);
  hm_remove m n :=
    (snd <$> find_first (fun f => bool_decide (f.1 = n)) m, List.filter (fun f => negb (bool_decide (f.1 = n))) m);
  hm_insert m n v := List.filter (fun f => negb (bool_decide (f.1 = n))) m ++ [(n, v)];
  to_str v := if forallb (fun b => (32 <=? b) && (b <? 127)) v then Some v else None;
|}.
Lemma filter_gone (m : list (str * bytes)) n n' :
  map snd (List.filter (fun f => bool_decide (f.1 = n')) (List.filter (fun f => negb (bool_decide (f.1 = n))) m)) =
  if bool_decide (n' = n) then [] else map snd (List.filter (fun f => bool_decide (f.1 = n')) m).
Proof.
  induction m as [|[a v] m IH]; cbn; [by case_bool_decide|].
  destruct (decide (a = n)) as [->|Ha].
  - rewrite (bool_decide_eq_true_2 (n = n)) by done. cbn. rewrite IH. case_bool_decide as Hn; [done|].
    by rewrite bool_decide_eq_false_2 by congruence.
  - rewrite (bool_decide_eq_false_2 (a = n)) by done. cbn. destruct (decide (a = n')) as [->|Hb].
    + rewrite (bool_decide_eq_true_2 (n' = n')), (bool_decide_eq_false_2 (n' = n)) in * by done. cbn. by rewrite IH.
    + by rewrite (bool_decide_eq_false_2 (a = n')).
Qed.
#[export] Instance list_map_laws : HeaderMapLaws (list (str * bytes)).
Proof.
  split; cbn.
  - intros m n. induction m as [|[a v] m IH]; [done|]. cbn. by case_bool_decide.
  - apply filter_gone.
  - intros m n v n'. rewrite List.filter_app, map_app, filter_gone. cbn. case_bool_decide as Hn.
    + subst. by rewrite bool_decide_eq_true_2.
    + rewrite bool_decide_eq_false_2 by congruence. apply app_nil_r.
  - intros v s. case_match; [by intros [= ->]|done].
Qed.
#[export] Instance demo_types : HttpTypes := {|
  Method := bytes; Uri := str;
  method_from_bytes := Some; path_and_query := Some; uri_parse := Some;
  header_name_ok n := forallb is_tchar n;
  header_value_ok v := forallb (fun b => (b =? 9) || ((32 <=? b) && negb (b =? 127))) v;
|}.
Lemma tchar_lower b : is_tchar (to_ascii_lowercase b) = is_tchar b.
Proof.
  unfold to_ascii_lowercase. destruct (is_ascii_uppercase b) eqn:Hb; [|done]. unfold is_tchar, is_ascii_alphanumeric.
  assert (is_ascii_lowercase (b + 32) = true) as -> by (unfold is_ascii_uppercase, is_ascii_lowercase in *; lia).
  by rewrite Hb, !orb_true_r.
Qed.
Lemma demo_names_lower b : header_name_ok (lower b) = header_name_ok b.
Proof. cbn. unfold lower. induction b as [|x b IH]; [done|]. cbn. by rewrite tchar_lower, IH. Qed.

Definition demo_request (fields : list (str * str)) : bytes := render_head (request_line (bstr "GET") (bstr "/") Http11) fields.
Definition demo_head (fields : list (str * str)) : Head := (parse_request_head (demo_request fields) Head_default).1.
(** The map hyper makes of a head. *)
Definition map_of (h : Head) (buf : bytes) : list (str * bytes) := map (fun f => (lower f.1, f.2)) (head_iter h buf).
Lemma map_of_fields h buf n :
  get_all (map_of h buf) n = map snd (List.filter (fun f => bool_decide (lower f.1 = n)) (head_iter h buf)).
Proof. cbn. unfold map_of. induction (head_iter h buf) as [|[a v] l IH]; [done|]. cbn. case_bool_decide; cbn; by rewrite IH. Qed.

Definition demo_fields : list (str * str) :=
  [(bstr "Host", bstr "a"); (bstr "Connection", bstr "upgrade, X-Secret"); (bstr "Upgrade", bstr "websocket"); (bstr "X-Secret", bstr "s");
   (bstr "X-Forwarded-For", bstr "10.0.0.1"); (bstr "Accept", bstr "*/*")].
Definition demo_out (fields : list (str * str)) : list (str * bytes) :=
  (forward_headers Http1 (map_of (demo_head fields) (demo_request fields)) (IpV4 [127; 0; 0; 1]) (bstr "http") None 1).1.


(** A second [Connection] field is never read by the proxy, so what it lists
    crosses the hop; the engine reads them all. *)
Definition two_connections : list (str * str) :=
  [(bstr "Connection", bstr "close"); (bstr "Connection", bstr "X-Secret"); (bstr "X-Secret", bstr "s")].
Example second_connection_unread :
  get_all (demo_out two_connections) (bstr "x-secret") = [bstr "s"] /\
  is_forwardable (demo_head two_connections) (demo_request two_connections) (bstr "X-Secret") = false.
Proof. split; vm_compute; reflexivity. Qed.

(** A client that names [X-Forwarded-For] in [Connection] erases the trail
    before this hop in the proxy; the engine keeps it. *)
Definition listed_trail : list (str * str) :=
  [(bstr "Connection", bstr "X-Forwarded-For"); (bstr "X-Forwarded-For", bstr "10.0.0.1")].
Example listed_trail_erased :
  get_all (demo_out listed_trail) X_FORWARDED_FOR = [bstr "127.0.0.1"] /\
  forwarded_for (demo_head listed_trail) (demo_request listed_trail) (IpV4 [127; 0; 0; 1]) =
    bstr "X-Forwarded-For: 10.0.0.1, 127.0.0.1" ++ CRLF.
Proof. split; vm_compute; reflexivity. Qed.

(** The proxy draws the words the engine draws. *)
Lemma proxy_words state bound : proxy_next_u64 state = next_u64 state /\ proxy_below bound state = below bound state /\
  proxy_hex_id state = hex_id state.
Proof.
  split; [done|split; [done|]]. unfold proxy_hex_id, hex_id. cbv zeta. f_equal.
Qed.
