(* ===== verification/ProxyBody.v ===== *)
(** The body type of the hyper proxy and the reading of a body for a mirror:
    [crates/ramjet-proxy/src/body.rs], the HTTP/3 request body of [http3.rs],
    and [buffer] of [mirror.rs] with its use in [forward.rs].

    Hyper's [Incoming] is the class [BodyStream], the receiving half of an h3
    request stream the class [RecvStream].  A poll that is not ready is waited
    for, so a poll here is the frame it ends with. *)

From S2P Require Import Prelude NetText ProxyHeaders.

(** ** Frames and streams *)

(** [T] is a trailer block. *)
Inductive Frame {T : Type} := Frame_data (data : bytes) | Frame_trailers (trailers : T).
Arguments Frame : clear implicits.

(** [upper] is absent when nothing is known. *)
Record SizeHint := MkSizeHint { hint_lower : u64; hint_upper : option u64 }.
Definition with_exact (n : u64) : SizeHint := MkSizeHint n (Some n).
Definition hint_exact (s : SizeHint) : option u64 := if bool_decide (hint_upper s = Some (hint_lower s)) then hint_upper s else None.

Class BodyStream (S T E : Type) := {
  poll_stream : S -> option (result E (Frame T)) * S;
  stream_end : S -> bool;
  stream_hint : S -> SizeHint;
}.

(** [recv_data] is [poll_recv_data] once it is ready, [recv_now] the one poll
    that is not waited for: [None] when it is pending. *)
Class RecvStream (Q E : Type) := {
  recv_data : Q -> result E (option bytes) * Q;
  recv_now : Q -> option (result E (option bytes)) * Q;
}.

(** ** The request body of HTTP/3 *)

Section request_body.
Context {Q T E : Type} `{RecvStream Q E}.

Record RequestBody := MkRequestBody {
  rb_stream : Q;
  rb_queued : option (result E bytes);
  rb_remaining : option u64;
  rb_ended : bool;
}.
Definition RequestBody_new (stream : Q) (declared : option u64) : RequestBody := MkRequestBody stream None declared false.

Definition already_ended (b : RequestBody) : bool * RequestBody :=
  let '(polled, stream) := recv_now (rb_stream b) in
  match polled with
  | Some (Ok None) => (true, MkRequestBody stream (rb_queued b) (rb_remaining b) true)
  | Some (Ok (Some chunk)) => (false, MkRequestBody stream (Some (Ok chunk)) (rb_remaining b) (rb_ended b))
  | Some (Err error) => (false, MkRequestBody stream (Some (Err error)) (rb_remaining b) (rb_ended b))
  | None => (false, MkRequestBody stream (rb_queued b) (rb_remaining b) (rb_ended b))
  end.
Definition rb_known_empty (b : RequestBody) : bool :=
  negb (bool_decide (is_Some (rb_queued b))) && (rb_ended b || bool_decide (rb_remaining b = Some 0)).
Definition rb_end_stream (b : RequestBody) : bool := rb_ended b && negb (bool_decide (is_Some (rb_queued b))).
Definition rb_size_hint (b : RequestBody) : SizeHint :=
  match rb_remaining b with
  | Some remaining => with_exact remaining
  | None => if rb_end_stream b then with_exact 0 else MkSizeHint 0 None
  end.

(** A failure ends the body. *)
Definition deliver (b : RequestBody) (chunk : result E bytes) : result E (Frame T) * RequestBody :=
  match chunk with
  | Ok data =>
      (Ok (Frame_data data),
       MkRequestBody (rb_stream b) (rb_queued b)
         ((fun remaining => Z.max 0 (remaining - Z.of_nat (length data))) <$> rb_remaining b) (rb_ended b))
  | Err error => (Err error, MkRequestBody (rb_stream b) (rb_queued b) (rb_remaining b) true)
  end.
Definition rb_poll_frame (b : RequestBody) : option (result E (Frame T)) * RequestBody :=
  match rb_queued b with
  | Some queued =>
      let '(x, b) := deliver (MkRequestBody (rb_stream b) None (rb_remaining b) (rb_ended b)) queued in (Some x, b)
  | None =>
      if rb_ended b then (None, b)
      else
        let '(polled, stream) := recv_data (rb_stream b) in
        let b := MkRequestBody stream None (rb_remaining b) (rb_ended b) in
        match polled with
        | Ok None => (None, MkRequestBody stream None (rb_remaining b) true)
        | Ok (Some chunk) => let '(x, b) := deliver b (Ok chunk) in (Some x, b)
        | Err error => let '(x, b) := deliver b (Err error) in (Some x, b)
        end
  end.
End request_body.
Arguments RequestBody : clear implicits.

Section body.
Context {S Q T E E3 : Type} `{BodyStream S T E, RecvStream Q E3}.
Abbreviation S3 := (RequestBody Q E3) (only parsing).

Inductive BodyError := Http (error : E) | Http3 (error : E3).
Abbreviation Item := (result BodyError (Frame T)) (only parsing).

Inductive ProxyBody :=
| Inner_Empty
| Inner_Once (data : option bytes)
| Inner_Stream (body : S)
| Inner_Prefixed (data : option bytes) (body : S)
| Inner_Http3 (data : option bytes) (body : S3).

Definition body_empty : ProxyBody := Inner_Empty.
Definition body_once (data : bytes) : ProxyBody := if bool_decide (data = []) then body_empty else Inner_Once (Some data).
Definition body_stream (body : S) : ProxyBody := Inner_Stream body.
Definition body_http3 (body : S3) : ProxyBody := Inner_Http3 None body.

Definition join (prefix : bytes) (held : option bytes) : bytes :=
  match held with Some held => prefix ++ held | None => prefix end.
Definition prefixed (prefix : bytes) (rest : ProxyBody) : ProxyBody :=
  if bool_decide (prefix = []) then rest
  else
    match rest with
    | Inner_Empty => body_once prefix
    | Inner_Once None => body_once prefix
    | Inner_Once (Some tail) => body_once (prefix ++ tail)
    | Inner_Stream body | Inner_Prefixed None body => Inner_Prefixed (Some prefix) body
    | Inner_Prefixed (Some held) body => Inner_Prefixed (Some (prefix ++ held)) body
    | Inner_Http3 data body => Inner_Http3 (Some (join prefix data)) body
    end.

Definition is_known_empty (b : ProxyBody) : bool :=
  match b with
  | Inner_Empty => true
  | Inner_Once data => match data with Some d => bool_decide (d = []) | None => true end
  | Inner_Stream body => bool_decide (hint_exact (stream_hint body) = Some 0)
  | Inner_Prefixed _ _ => false
  | Inner_Http3 (Some _) _ => false
  | Inner_Http3 None body => rb_known_empty body
  end.

(** Either error under its own name. *)
Definition hyper_frame (x : option (result E (Frame T))) : option Item := (fun r => map_err Http r) <$> x.
Definition http3_frame (x : option (result E3 (Frame T))) : option Item := (fun r => map_err Http3 r) <$> x.

Definition poll_frame (b : ProxyBody) : option Item * ProxyBody :=
  match b with
  | Inner_Empty => (None, b)
  | Inner_Once data => ((fun d => Ok (Frame_data d)) <$> data, Inner_Once None)
  | Inner_Stream body => let '(x, body) := poll_stream body in (hyper_frame x, Inner_Stream body)
  | Inner_Prefixed (Some prefix) body => (Some (Ok (Frame_data prefix)), Inner_Prefixed None body)
  | Inner_Prefixed None body => let '(x, body) := poll_stream body in (hyper_frame x, Inner_Prefixed None body)
  | Inner_Http3 (Some prefix) body => (Some (Ok (Frame_data prefix)), Inner_Http3 None body)
  | Inner_Http3 None body => let '(x, body) := rb_poll_frame body in (http3_frame x, Inner_Http3 None body)
  end.

Definition is_end_stream (b : ProxyBody) : bool :=
  match b with
  | Inner_Empty => true
  | Inner_Once data => bool_decide (data = None)
  | Inner_Stream body => stream_end body
  | Inner_Prefixed data body => bool_decide (data = None) && stream_end body
  | Inner_Http3 data body => bool_decide (data = None) && rb_end_stream body
  end.

(** The prefix is added back to both ends of the hint. *)
Definition data_len (data : option bytes) : u64 := match data with Some d => Z.of_nat (length d) | None => 0 end.
Definition add_held (held : u64) (rest : SizeHint) : SizeHint :=
  MkSizeHint (sat_add u64_max (hint_lower rest) held) ((fun upper => sat_add u64_max upper held) <$> hint_upper rest).
Definition size_hint (b : ProxyBody) : SizeHint :=
  match b with
  | Inner_Empty => with_exact 0
  | Inner_Once data => with_exact (data_len data)
  | Inner_Stream body => stream_hint body
  | Inner_Prefixed data body => add_held (data_len data) (stream_hint body)
  | Inner_Http3 data body => add_held (data_len data) (rb_size_hint body)
  end.

(** [request_body] of http3.rs. *)
Definition declared_length {M : Type} `{HeaderMapOps M} (headers : M) : option u64 :=
  value ← head (get_all headers (bstr "content-length"));
  text ← to_str value;
  parse_unsigned u64_max text.
Definition request_body {M : Type} `{HeaderMapOps M} (recv : Q) (headers : M) : ProxyBody :=
  let declared := declared_length headers in
  if bool_decide (declared = Some 0) then body_empty
  else
    let body := RequestBody_new recv declared in
    if bool_decide (declared = None)
    then let '(ended, body) := already_ended body in if (ended : bool) then body_empty else body_http3 body
    else body_http3 body.

(** ** Reading a body for a mirror *)

Inductive Buffered := Complete (data : bytes) | TooLarge (prefix : bytes) (rest : ProxyBody).

(** [buffer]: one turn of the loop per unit of fuel. *)
Fixpoint buffer_loop (fuel : nat) (body : ProxyBody) (cap : usize) (buffered : bytes) : option Buffered :=
  match fuel with
  | 0%nat => None
  | Datatypes.S fuel =>
      match poll_frame body with
      | (None, _) => Some (Complete buffered)
      | (Some (Err _), body) => Some (TooLarge buffered body)
      | (Some (Ok (Frame_trailers _)), body) => Some (TooLarge buffered body)
      | (Some (Ok (Frame_data data)), body) =>
          let buffered := buffered ++ data in
          if (cap <? length buffered)%nat then Some (TooLarge buffered body) else buffer_loop fuel body cap buffered
      end
  end.
Definition buffer (fuel : nat) (body : ProxyBody) (cap : usize) : option Buffered := buffer_loop fuel body cap [].

(** [mirror_request], up to the copy: the body the primary sends, and the bytes
    the copy carries, if one is made. *)
Definition mirror_body (fuel : nat) (body : ProxyBody) (cap : usize) : option (ProxyBody * option bytes) :=
  if is_known_empty body then Some (body, Some [])
  else
    r ← buffer fuel body cap;
    Some match r with
         | Complete data => (body_once data, Some data)
         | TooLarge prefix rest => (prefixed prefix rest, None)
         end.

(** ** What a body carries *)

(** The items a body gives until it ends. *)
Inductive yields : ProxyBody -> list Item -> Prop :=
| yields_end b b' : poll_frame b = (None, b') -> yields b []
| yields_item b x b' l : poll_frame b = (Some x, b') -> yields b' l -> yields b (x :: l).

(** The bytes in order, with the trailers and errors where they are. *)
Definition carried (l : list Item) : list (u8 + (T + BodyError)) :=
  flat_map (fun x => match x with
                     | Ok (Frame_data d) => map inl d
                     | Ok (Frame_trailers t) => [inr (inl t)]
                     | Err e => [inr (inr e)]
                     end) l.
Definition data_item (d : bytes) : Item := Ok (Frame_data d).

Lemma carried_app a b : carried (a ++ b) = carried a ++ carried b.
Proof. apply List.flat_map_app. Qed.
Lemma carried_data ds : carried (map data_item ds) = map inl (concat ds).
Proof.
  induction ds as [|d ds IH]; [done|].
  change (carried (map data_item (d :: ds))) with (map (@inl _ (T + BodyError)) d ++ carried (map data_item ds)).
  by rewrite IH, <- map_app.
Qed.

Lemma once_yields data : exists l, yields (body_once data) l /\ carried l = map inl data.
Proof.
  unfold body_once. case_bool_decide as Hd.
  - subst. exists []. split; [by eapply yields_end|done].
  - exists [data_item data]. split; [|cbn; by rewrite app_nil_r]. eapply yields_item; [done|]. by eapply yields_end.
Qed.

Lemma stream_prefixed body l : yields (Inner_Stream body) l -> yields (Inner_Prefixed None body) l.
Proof.
  remember (Inner_Stream body) as b eqn:Hb. intros Hy. revert body Hb.
  induction Hy as [b b' Hq|b x b' l Hq Hy IH]; intros body ->; cbn in Hq; destruct (poll_stream body) as [y body'] eqn:Hp;
    injection Hq as Hx <-.
  - eapply yields_end. cbn. by rewrite Hp, Hx.
  - eapply yields_item; [cbn; by rewrite Hp, Hx|]. by apply IH.
Qed.

(** A prefix goes in front, whatever it is put in front of. *)
Lemma prefixed_yields prefix rest l :
  yields rest l -> exists l', yields (prefixed prefix rest) l' /\ carried l' = map inl prefix ++ carried l.
Proof.
  intros Hy. unfold prefixed. case_bool_decide as Hp; [subst; by exists l|].
  assert (Hother : forall body b d, poll_frame b = (Some (data_item d), body) -> yields body l ->
    exists l', yields b l' /\ carried l' = map inl d ++ carried l).
  { intros body b d Hb Hl. exists (data_item d :: l). split; [by eapply yields_item|done]. }
  destruct rest as [|[tail|]|body|[held|] body|[held|] body].
  - inversion Hy as [? ? Hq|? ? ? ? Hq Hy']; subst; [|done]. destruct (once_yields prefix) as (l' & ? & Hl'). exists l'. rewrite Hl'. by rewrite app_nil_r.
  - inversion Hy as [? ? Hq|? x ? l1 Hq Hy']; subst; [done|]. injection Hq as <- <-.
    inversion Hy' as [? ? Hq|? ? ? ? Hq Hy'']; subst; [|done].
    destruct (once_yields (prefix ++ tail)) as (l' & ? & Hl'). exists l'. rewrite Hl'. cbn. by rewrite app_nil_r, map_app.
  - inversion Hy as [? ? Hq|? ? ? ? Hq Hy']; subst; [|done]. destruct (once_yields prefix) as (l' & ? & Hl'). exists l'. rewrite Hl'. by rewrite app_nil_r.
  - apply (Hother (Inner_Prefixed None body)); [done|]. by apply stream_prefixed.
  - inversion Hy as [? ? Hq|? x ? l1 Hq Hy']; subst; [done|]. injection Hq as <- <-. exists (data_item (prefix ++ held) :: l1).
    split; [by eapply yields_item|]. cbn. by rewrite map_app, <- app_assoc.
  - by apply (Hother (Inner_Prefixed None body)).
  - inversion Hy as [? ? Hq|? x ? l1 Hq Hy']; subst; [done|]. injection Hq as <- <-. exists (data_item (prefix ++ held) :: l1).
    split; [by eapply yields_item|]. cbn. by rewrite map_app, <- app_assoc.
  - by apply (Hother (Inner_Http3 None body)).
Qed.

(** The loop, over what the body gives: all of it, or the data up to the item
    that stopped the read. *)
Lemma buffer_loop_reads fuel b l cap buffered :
  yields b l -> (length l < fuel)%nat ->
  (exists ds, l = map data_item ds /\ buffer_loop fuel b cap buffered = Some (Complete (buffered ++ concat ds)) /\
     (ds = [] \/ (length (buffered ++ concat ds) <= cap)%nat)) \/
  (exists ds d rest after, l = map data_item ds ++ data_item d :: after /\ yields rest after /\
     buffer_loop fuel b cap buffered = Some (TooLarge (buffered ++ concat ds ++ d) rest) /\
     (ds = [] \/ (length (buffered ++ concat ds) <= cap)%nat) /\ (cap < length (buffered ++ concat ds ++ d))%nat) \/
  (exists ds x rest after, l = map data_item ds ++ x :: after /\ (forall d, x <> data_item d) /\ yields rest after /\
     buffer_loop fuel b cap buffered = Some (TooLarge (buffered ++ concat ds) rest) /\
     (ds = [] \/ (length (buffered ++ concat ds) <= cap)%nat)).
Proof.
  intros Hy. revert fuel buffered. induction Hy as [b b' Hq|b x b' l Hq Hy IH]; intros [|fuel] buffered Hf; cbn [length] in Hf; try lia.
  - left. exists []. cbn. rewrite Hq, app_nil_r. auto.
  - cbn [buffer_loop]. rewrite Hq. destruct x as [[d|t]|e].
    + destruct (cap <? length (buffered ++ d))%nat eqn:Hc.
      * right; left. exists [], d, b', l. cbn. apply Nat.ltb_lt in Hc. auto 10.
      * apply Nat.ltb_ge in Hc.
        destruct (IH fuel (buffered ++ d) ltac:(lia)) as [(ds & -> & -> & Hd)|[(ds & e & rest & after & -> & Ha & -> & Hd & Hl)|
          (ds & x & rest & after & -> & Hx & Ha & -> & Hd)]].
        -- left. exists (d :: ds). cbn [map concat]. rewrite app_assoc. split_and!; auto. right. destruct Hd as [->|]; [|done].
           cbn. by rewrite app_nil_r.
        -- right; left. exists (d :: ds), e, rest, after. cbn [map concat]. rewrite <- !app_assoc in *. split_and!; auto.
           right. destruct Hd as [->|]; [|done]. cbn. by rewrite app_nil_r.
        -- right; right. exists (d :: ds), x, rest, after. cbn [map concat]. rewrite <- !app_assoc in *. split_and!; auto.
           right. destruct Hd as [->|]; [|done]. cbn. by rewrite app_nil_r.
    + right; right. exists [], (Ok (Frame_trailers t)), b', l. cbn. rewrite app_nil_r. split_and!; auto; done.
    + right; right. exists [], (Err e), b', l. cbn. rewrite app_nil_r. split_and!; auto; done.
Qed.

(** An HTTP/3 body ends at its first failure. *)
Lemma http3_failed_ends (body : RequestBody Q E3) l :
  rb_ended body = true -> rb_queued body = None -> yields (Inner_Http3 None body) l -> l = [].
Proof.
  intros He Hq Hy. inversion Hy as [|b x b' l' Hp Hy']; subst; [done|]. cbn in Hp. unfold rb_poll_frame in Hp.
  rewrite Hq, He in Hp. done.
Qed.
Lemma http3_error_last (data : option bytes) (body : RequestBody Q E3) before e after :
  yields (Inner_Http3 data body) (before ++ Err e :: after) -> after = [].
Proof.
  remember (Inner_Http3 data body) as b eqn:Hb. remember (before ++ Err e :: after) as l eqn:Hl.
  intros Hy. revert data body before Hb Hl. induction Hy as [b b' Hq|b x b' l Hq Hy IH]; intros data body before -> Hl.
  { by destruct before. }
  destruct data as [held|]; cbn in Hq.
  { injection Hq as <- <-. destruct before as [|y before]; [done|]. injection Hl as <- ->. by eapply IH. }
  destruct (rb_poll_frame body) as [[y|] body'] eqn:Hp; [|done]. injection Hq as <- <-.
  destruct before as [|z before]; injection Hl as Hx Hl; [|by eapply IH].
  destruct y as [f|e']; [done|]. subst l. eapply (http3_failed_ends body'); [| |exact Hy].
  - unfold rb_poll_frame, deliver in Hp. repeat case_match; simplify_eq; done.
  - unfold rb_poll_frame, deliver in Hp. repeat case_match; simplify_eq; done.
Qed.

(** Only an HTTP/3 body fails with an HTTP/3 error. *)
Lemma http3_error_only b l e :
  yields b l -> Err (Http3 e) ∈ l -> exists data body, b = Inner_Http3 data body.
Proof.
  intros Hy. assert (Hnot : forall b x b', poll_frame b = (x, b') -> (forall data body, b <> Inner_Http3 data body) ->
    x <> Some (Err (Http3 e)) /\ forall data body, b' <> Inner_Http3 data body).
  { intros [|[d|]|body|[d|] body|data body] x b' Hp Hn; cbn in Hp; try (injection Hp as <- <-; by split);
      [destruct (poll_stream body) as [[[f|e0]|] body']; injection Hp as <- <-; by split..|by destruct (Hn data body)]. }
  assert (Hall : (forall data body, b <> Inner_Http3 data body) -> Err (Http3 e) ∉ l).
  { induction Hy as [b b' Hq|b x b' l Hq Hy IH]; intros Hn; [apply not_elem_of_nil|].
    destruct (Hnot b (Some x) b' Hq Hn) as [Hx Hb']. apply not_elem_of_cons. split; [congruence|auto]. }
  intros Hin. destruct b as [| | | |data body]; try (exfalso; by apply Hall). by exists data, body.
Qed.

(** What a body gives for a while, and what it is then. *)
Inductive gives : ProxyBody -> list Item -> ProxyBody -> Prop :=
| gives_none b : gives b [] b
| gives_item b x b' l b'' : poll_frame b = (Some x, b') -> gives b' l b'' -> gives b (x :: l) b''.

Lemma buffer_cut fuel b ds d b' cap buffered :
  gives b (map data_item (ds ++ [d])) b' -> (length ds < fuel)%nat ->
  (length (buffered ++ concat ds) <= cap)%nat -> (cap < length (buffered ++ concat ds ++ d))%nat ->
  buffer_loop fuel b cap buffered = Some (TooLarge (buffered ++ concat ds ++ d) b').
Proof.
  revert fuel b buffered. induction ds as [|e ds IH]; intros [|fuel] b buffered Hg Hf Hle Hlt; cbn [length] in Hf; try lia;
    inversion Hg as [|? x b1 ? ? Hp Hg']; subst; cbn [buffer_loop]; rewrite Hp; cbn [data_item].
  - inversion Hg'; subst. cbn [concat app] in *. by rewrite (proj2 (Nat.ltb_lt _ _)).
  - cbn [concat] in *. rewrite <- !(assoc_L (++)) in *. rewrite (proj2 (Nat.ltb_ge _ _)).
    + rewrite (IH fuel b1 (buffered ++ e)); [by rewrite <- (assoc_L (++))|done|lia|by rewrite <- (assoc_L (++))..].
    + rewrite !length_app in *. lia.
Qed.

End body.

(** ** A stream, and what mirroring loses *)

#[export] Instance list_stream {T E} : BodyStream (list (result E (Frame T))) T E := {|
  poll_stream l := match l with [] => (None, []) | x :: l => (Some x, l) end;
  stream_end l := bool_decide (l = []);
  stream_hint _ := MkSizeHint 0 None;
|}.
#[export] Instance list_recv {E} : RecvStream (list (result E bytes)) E := {|
  recv_data q := match q with [] => (Ok None, []) | Ok c :: q => (Ok (Some c), q) | Err e :: q => (Err e, q) end;
  recv_now q := match q with [] => (Some (Ok None), []) | Ok c :: q => (Some (Ok (Some c)), q) | Err e :: q => (Some (Err e), q) end;
|}.
#[local] Abbreviation DemoStream := (list (result unit (Frame str))) (only parsing).
#[local] Abbreviation DemoBody := (@ProxyBody DemoStream (list (result unit bytes)) unit) (only parsing).
#[local] Abbreviation DemoItem := (result (@BodyError unit unit) (Frame str)) (only parsing).
Definition demo_upload (last : result unit (Frame str)) : DemoBody :=
  body_stream [Ok (Frame_data (bstr "ab")); Ok (Frame_data (bstr "cd")); last].
Definition demo_items (last : DemoItem) : list DemoItem :=
  [Ok (Frame_data (bstr "ab")); Ok (Frame_data (bstr "cd")); last].
Lemma demo_yields last : yields (demo_upload last) (demo_items (map_err Http last)).
Proof. do 3 (eapply yields_item; [reflexivity|]). by eapply yields_end. Qed.


(** The trailers of a small upload do not reach the primary, and an upload that
    breaks off reaches it as a complete one. *)
Example mirror_drops_trailers :
  mirror_body 4 (demo_upload (Ok (Frame_trailers (bstr "grpc-status: 0")))) 100 =
  Some (Inner_Prefixed (Some (bstr "abcd")) [], None).
Proof. vm_compute. reflexivity. Qed.
Definition demo_quic : DemoBody := Inner_Http3 None (RequestBody_new [Ok (bstr "ab"); Ok (bstr "cd"); Err tt] None).
Example mirror_hides_errors :
  exists primary, mirror_body 4 demo_quic 100 = Some (primary, None) /\
    (poll_frame primary).1 = Some (Ok (Frame_data (T := str) (bstr "abcd"))) /\ (poll_frame (poll_frame primary).2).1 = None.
Proof. eexists. vm_compute. split; [reflexivity|]. split; reflexivity. Qed.
