(* ===== verification/Conn.v ===== *)
(** One client connection of the reactor: the data of
    [crates/ramjet-engine/src/engine/worker.rs].

    Completion tags, the body cursor [Body], and [Conn], the connection with
    the upstream exchange it is running.  Clock readings are integers. *)

From S2P Require Import Prelude Helper RouterTypes Backends Table Codec Chunked Head Tls Mirror.

Definition MAX_PENDING : usize := Z.to_nat 262144.
(** Durations are in milliseconds. *)
Definition CLIENT_IDLE : Z := 300000.

(** ** Completion tags *)

Module kind.
Definition ACCEPT : u8 := 1.
Definition ADMIN_ACCEPT : u8 := 2.
Definition INTAKE : u8 := 3.
Definition NOTIFY : u8 := 4.
Definition DOWN_READ : u8 := 5.
Definition DOWN_WRITE : u8 := 6.
Definition UP_READ : u8 := 7.
Definition UP_WRITE : u8 := 8.
Definition ADMIN_READ : u8 := 9.
Definition ADMIN_WRITE : u8 := 10.
Definition CLOSE : u8 := 11.
Definition ACCEPT_TLS : u8 := 12.
Definition INTAKE_TLS : u8 := 13.
End kind.

Inductive Role := Client (tls : bool) | Admin.

Definition accept_kind (r : Role) : u8 :=
  match r with
  | Admin => kind.ADMIN_ACCEPT
  | Client false => kind.ACCEPT
  | Client true => kind.ACCEPT_TLS
  end.

Definition GENERATION_MASK : Z := 16777215.

(** A descriptor is an [i32]: [fd as u32] wraps and [as RawFd] unwraps it. *)
Definition tag (kind : u8) (generation : u32) (fd : Z) : u64 :=
  Z.lor (Z.lor (Z.shiftl kind 56) (Z.shiftl (Z.land generation GENERATION_MASK) 32)) (wrap32 fd).
Definition tag_kind (user : u64) : u8 := wrap8 (Z.shiftr user 56).
Definition tag_generation (user : u64) : u32 := wrap32 (Z.land (Z.shiftr user 32) GENERATION_MASK).
Definition tag_fd (user : u64) : Z :=
  as_i32 (wrap32 (Z.land user u32_max)).

(** ** How much of a body is still to come *)

Inductive Body :=
| Body_Done
| Body_Length (left_ : u64)
| Body_Chunked (scan : ChunkScan)
| Body_UntilClose.

Definition Body_new (f : Framing) : Body :=
  match f with
  | Empty => Body_Done
  | Length n => Body_Length n
  | Chunked => Body_Chunked ChunkScan_new
  | UntilClose => Body_UntilClose
  end.

(** [None] is the scanner's [unreachable!]. *)
Definition body_take (b : Body) (input : bytes) : option (Body * result CodecError (usize * bool)) :=
  match b with
  | Body_Done => Some (b, Ok (0%nat, true))
  | Body_Length left_ =>
      let take_ := Z.min left_ (Z.of_nat (length input)) in
      let left_ := left_ - take_ in
      Some (Body_Length left_, Ok (Z.to_nat take_, left_ =? 0))
  | Body_Chunked scan =>
      match Chunked.scan scan input with
      | None => None
      | Some (scan, r) => Some (Body_Chunked scan, r)
      end
  | Body_UntilClose => Some (b, Ok (length input, false))
  end.

Definition body_is_done (b : Body) : bool := match b with Body_Done => true | _ => false end.

(** One direction of [pump_bodies]: the bytes moved on, and the new buffer.
    Both directions have this shape. *)
Definition move_body (b : Body) (inbox : bytes) : option (Body * result CodecError (bytes * bytes)) :=
  if negb (body_is_done b) && negb (bool_decide (inbox = [])) then
    match body_take b inbox with
    | None => None
    | Some (b, Err e) => Some (b, Err e)
    | Some (b, Ok (n, done_)) =>
        Some (if done_ then Body_Done else b, Ok (take n inbox, drop n inbox))
    end
  else Some (b, Ok ([], inbox)).

(** ** The connection *)

Inductive Phase :=
| Phase_Head
| Phase_Connecting
| Phase_Exchanging
| Phase_Relaying
| Phase_Tunnel
| Phase_Closing.
#[export] Instance Phase_eq_dec : EqDecision Phase.
Proof. solve_decision. Defined.

Section conn.
Context {E : RegexEngine} {TS : TlsStack} {HT : HttpTypes}.

Record MirrorCopy := MkMirrorCopy {
  mc_parts : Parts;
  mc_body : bytes;
  mc_protocol : BackendProtocol;
  mc_too_large : bool;
}.

Record Conn := MkConn {
  c_peer : IpAddr;
  c_phase : Phase;
  c_tls : option Session;
  c_scheme : str;
  c_hand_off : bool;
  c_preface : option bytes;
  c_inbox : bytes;
  c_outbox : bytes;
  c_reading : bool;
  c_writing : bool;
  c_client_eof : bool;
  c_head : Head;
  c_head_consumed : bool;
  c_request_head : bytes;
  c_request_body : Body;
  c_method_was_head : bool;
  c_client_keep_alive : bool;
  c_upstream : option Z;
  c_up_inbox : bytes;
  c_up_outbox : bytes;
  c_up_reading : bool;
  c_up_writing : bool;
  c_up_ready : bool;
  c_up_borrowed : bool;
  c_up_head : Head;
  c_response_body : Body;
  c_response_head_seen : bool;
  c_upstream_keep_alive : bool;
  c_upstream_eof : bool;
  c_upgrade : option bytes;
  c_snapshot : option RouteTable;
  c_route_stats : option u32;
  c_canaried : bool;
  c_mirror : option MirrorCopy;
  c_stats_index : u32;
  c_endpoint_index : usize;
  c_endpoint_count : usize;
  c_inflight_held : bool;
  c_targets : list SocketAddr;
  c_attempt : usize;
  c_replayable : bool;
  c_from_pool : bool;
  c_pool_retry_used : bool;
  c_committed : bool;
  c_dispatched_at : option Z;
  c_deadline : option Z;
  c_counted : bool;
  c_drain_counted : bool;
}.

Definition Conn_eta (c : Conn) : Conn :=
  MkConn (c_peer c) (c_phase c) (c_tls c) (c_scheme c) (c_hand_off c) (c_preface c) (c_inbox c)
    (c_outbox c) (c_reading c) (c_writing c) (c_client_eof c) (c_head c) (c_head_consumed c)
    (c_request_head c) (c_request_body c) (c_method_was_head c) (c_client_keep_alive c)
    (c_upstream c) (c_up_inbox c) (c_up_outbox c) (c_up_reading c) (c_up_writing c) (c_up_ready c)
    (c_up_borrowed c) (c_up_head c) (c_response_body c) (c_response_head_seen c)
    (c_upstream_keep_alive c) (c_upstream_eof c) (c_upgrade c) (c_snapshot c) (c_route_stats c)
    (c_canaried c) (c_mirror c) (c_stats_index c) (c_endpoint_index c) (c_endpoint_count c)
    (c_inflight_held c) (c_targets c) (c_attempt c) (c_replayable c) (c_from_pool c)
    (c_pool_retry_used c) (c_committed c) (c_dispatched_at c) (c_deadline c) (c_counted c)
    (c_drain_counted c).
#[export] Instance set_c_peer : Setter c_peer := ltac:(derive_setter Conn_eta).
#[export] Instance set_c_phase : Setter c_phase := ltac:(derive_setter Conn_eta).
#[export] Instance set_c_tls : Setter c_tls := ltac:(derive_setter Conn_eta).
#[export] Instance set_c_hand_off : Setter c_hand_off := ltac:(derive_setter Conn_eta).
#[export] Instance set_c_preface : Setter c_preface := ltac:(derive_setter Conn_eta).
#[export] Instance set_c_inbox : Setter c_inbox := ltac:(derive_setter Conn_eta).
#[export] Instance set_c_outbox : Setter c_outbox := ltac:(derive_setter Conn_eta).
#[export] Instance set_c_reading : Setter c_reading := ltac:(derive_setter Conn_eta).
#[export] Instance set_c_writing : Setter c_writing := ltac:(derive_setter Conn_eta).
#[export] Instance set_c_client_eof : Setter c_client_eof := ltac:(derive_setter Conn_eta).
#[export] Instance set_c_head : Setter c_head := ltac:(derive_setter Conn_eta).
#[export] Instance set_c_head_consumed : Setter c_head_consumed := ltac:(derive_setter Conn_eta).
#[export] Instance set_c_request_head : Setter c_request_head := ltac:(derive_setter Conn_eta).
#[export] Instance set_c_request_body : Setter c_request_body := ltac:(derive_setter Conn_eta).
#[export] Instance set_c_method_was_head : Setter c_method_was_head := ltac:(derive_setter Conn_eta).
#[export] Instance set_c_client_keep_alive : Setter c_client_keep_alive := ltac:(derive_setter Conn_eta).
#[export] Instance set_c_upstream : Setter c_upstream := ltac:(derive_setter Conn_eta).
#[export] Instance set_c_up_inbox : Setter c_up_inbox := ltac:(derive_setter Conn_eta).
#[export] Instance set_c_up_outbox : Setter c_up_outbox := ltac:(derive_setter Conn_eta).
#[export] Instance set_c_up_reading : Setter c_up_reading := ltac:(derive_setter Conn_eta).
#[export] Instance set_c_up_writing : Setter c_up_writing := ltac:(derive_setter Conn_eta).
#[export] Instance set_c_up_ready : Setter c_up_ready := ltac:(derive_setter Conn_eta).
#[export] Instance set_c_up_borrowed : Setter c_up_borrowed := ltac:(derive_setter Conn_eta).
#[export] Instance set_c_up_head : Setter c_up_head := ltac:(derive_setter Conn_eta).
#[export] Instance set_c_response_body : Setter c_response_body := ltac:(derive_setter Conn_eta).
#[export] Instance set_c_response_head_seen : Setter c_response_head_seen := ltac:(derive_setter Conn_eta).
#[export] Instance set_c_upstream_keep_alive : Setter c_upstream_keep_alive := ltac:(derive_setter Conn_eta).
#[export] Instance set_c_upstream_eof : Setter c_upstream_eof := ltac:(derive_setter Conn_eta).
#[export] Instance set_c_upgrade : Setter c_upgrade := ltac:(derive_setter Conn_eta).
#[export] Instance set_c_snapshot : Setter c_snapshot := ltac:(derive_setter Conn_eta).
#[export] Instance set_c_route_stats : Setter c_route_stats := ltac:(derive_setter Conn_eta).
#[export] Instance set_c_canaried : Setter c_canaried := ltac:(derive_setter Conn_eta).
#[export] Instance set_c_mirror : Setter c_mirror := ltac:(derive_setter Conn_eta).
#[export] Instance set_c_stats_index : Setter c_stats_index := ltac:(derive_setter Conn_eta).
#[export] Instance set_c_endpoint_index : Setter c_endpoint_index := ltac:(derive_setter Conn_eta).
#[export] Instance set_c_endpoint_count : Setter c_endpoint_count := ltac:(derive_setter Conn_eta).
#[export] Instance set_c_inflight_held : Setter c_inflight_held := ltac:(derive_setter Conn_eta).
#[export] Instance set_c_targets : Setter c_targets := ltac:(derive_setter Conn_eta).
#[export] Instance set_c_attempt : Setter c_attempt := ltac:(derive_setter Conn_eta).
#[export] Instance set_c_replayable : Setter c_replayable := ltac:(derive_setter Conn_eta).
#[export] Instance set_c_from_pool : Setter c_from_pool := ltac:(derive_setter Conn_eta).
#[export] Instance set_c_pool_retry_used : Setter c_pool_retry_used := ltac:(derive_setter Conn_eta).
#[export] Instance set_c_committed : Setter c_committed := ltac:(derive_setter Conn_eta).
#[export] Instance set_c_dispatched_at : Setter c_dispatched_at := ltac:(derive_setter Conn_eta).
#[export] Instance set_c_deadline : Setter c_deadline := ltac:(derive_setter Conn_eta).
#[export] Instance set_c_counted : Setter c_counted := ltac:(derive_setter Conn_eta).
#[export] Instance set_c_drain_counted : Setter c_drain_counted := ltac:(derive_setter Conn_eta).

Definition Conn_new (peer : IpAddr) (tls : option Session) : Conn := {|
  c_peer := peer;
  c_phase := Phase_Head;
  c_scheme := match tls with Some _ => bstr "https" | None => bstr "http" end;
  c_tls := tls;
  c_hand_off := false;
  c_preface := None;
  c_inbox := [];
  c_outbox := [];
  c_reading := false;
  c_writing := false;
  c_client_eof := false;
  c_head := Head_default;
  c_head_consumed := false;
  c_request_head := [];
  c_request_body := Body_Done;
  c_method_was_head := false;
  c_client_keep_alive := true;
  c_upstream := None;
  c_up_inbox := [];
  c_up_outbox := [];
  c_up_reading := false;
  c_up_writing := false;
  c_up_ready := false;
  c_up_borrowed := false;
  c_up_head := Head_default;
  c_response_body := Body_Done;
  c_response_head_seen := false;
  c_upstream_keep_alive := true;
  c_upstream_eof := false;
  c_upgrade := None;
  c_snapshot := None;
  c_route_stats := None;
  c_canaried := false;
  c_mirror := None;
  c_stats_index := 0;
  c_endpoint_index := 0;
  c_endpoint_count := 0;
  c_inflight_held := false;
  c_targets := [];
  c_attempt := 0;
  c_replayable := false;
  c_from_pool := false;
  c_pool_retry_used := false;
  c_committed := false;
  c_dispatched_at := None;
  c_deadline := None;
  c_counted := false;
  c_drain_counted := false;
|}.

Definition conn_reset (c : Conn) : Conn :=
  c <| c_phase := Phase_Head |>
    <| c_head := head_reset (c_head c) |>
    <| c_head_consumed := false |>
    <| c_up_head := head_reset (c_up_head c) |>
    <| c_request_head := [] |>
    <| c_request_body := Body_Done |>
    <| c_response_body := Body_Done |>
    <| c_response_head_seen := false |>
    <| c_upstream_keep_alive := true |>
    <| c_upstream_eof := false |>
    <| c_upgrade := None |>
    <| c_method_was_head := false |>
    <| c_snapshot := None |>
    <| c_route_stats := None |>
    <| c_canaried := false |>
    <| c_mirror := None |>
    <| c_targets := [] |>
    <| c_attempt := 0%nat |>
    <| c_replayable := false |>
    <| c_from_pool := false |>
    <| c_pool_retry_used := false |>
    <| c_committed := false |>
    <| c_dispatched_at := None |>
    <| c_deadline := None |>
    <| c_counted := false |>
    <| c_up_inbox := [] |>
    <| c_up_outbox := [] |>.

(** Whether anything is waiting to go to the client, and how much. *)
Definition has_pending_out (c : Conn) : bool :=
  match c_tls c with
  | Some session => has_wire session
  | None => negb (bool_decide (c_outbox c = []))
  end.
Definition pending_out_len (c : Conn) : usize :=
  match c_tls c with
  | Some session => (length (c_outbox c) + wire_len session)%nat
  | None => length (c_outbox c)
  end.

Definition wants_client_bytes (c : Conn) : bool :=
  if c_client_eof c || bool_decide (c_phase c = Phase_Closing) then false
  else
    match c_phase c with
    | Phase_Head => true
    | Phase_Connecting | Phase_Exchanging =>
        negb (body_is_done (c_request_body c)) && (length (c_up_outbox c) <? MAX_PENDING)%nat
    | Phase_Tunnel => (length (c_up_outbox c) <? MAX_PENDING)%nat
    | Phase_Relaying | Phase_Closing => false
    end.

Definition wants_upstream_bytes (c : Conn) : bool :=
  bool_decide (is_Some (c_upstream c))
  && c_up_ready c
  && negb (bool_decide (c_phase c = Phase_Head) || bool_decide (c_phase c = Phase_Closing))
  && negb (c_upstream_eof c)
  && (pending_out_len c <? MAX_PENDING)%nat.

(** The free function [seal]. *)
Definition conn_seal (c : Conn) : Conn :=
  match c_tls c with
  | None => c
  | Some session =>
      if bool_decide (c_outbox c = []) then c
      else
        let '(session, sent) := seal session (c_outbox c) in
        c <| c_tls := Some session |> <| c_outbox := drop sent (c_outbox c) |>
  end.
End conn.

Definition PREFACE : bytes :=
  bstr "PRI * HTTP/2.0" ++ [CR; LF; CR; LF] ++ bstr "SM" ++ [CR; LF; CR; LF].
Definition is_h2_preface (b : bytes) : bool :=
  let seen := Nat.min (length b) (length PREFACE) in
  (0 <? seen)%nat && bool_decide (take seen b = take seen PREFACE).

(** ** Lemmas: tags *)

Lemma shiftl_lor a b n : 0 <= n -> 0 <= b < 2 ^ n -> Z.lor (Z.shiftl a n) b = a * 2 ^ n + b.
Proof.
  intros Hn Hb. rewrite Z.shiftl_mul_pow2 by lia. symmetry. apply Z.add_nocarry_lor.
  apply Z.bits_inj'. intros i Hi. rewrite Z.land_spec, Z.bits_0.
  destruct (decide (i < n)).
  - by rewrite Z.mul_pow2_bits_low by lia.
  - rewrite <- (Z.mod_small b (2 ^ n)) by lia. rewrite Z.mod_pow2_bits_high by lia. apply andb_false_r.
Qed.

Lemma mask_mod x : Z.land x GENERATION_MASK = x mod 2 ^ 24.
Proof. exact (Z.land_ones x 24 ltac:(lia)). Qed.
Lemma mask32_mod x : Z.land x u32_max = x mod 2 ^ 32.
Proof. exact (Z.land_ones x 32 ltac:(lia)). Qed.

Lemma tag_packs k g fd :
  tag k g fd = (k * 2 ^ 24 + g mod 2 ^ 24) * 2 ^ 32 + wrap32 fd.
Proof.
  unfold tag. rewrite mask_mod. pose proof (wrap_range 32 fd ltac:(lia)) as Hf. unfold wrap32 in *.
  assert (Hg : 0 <= g mod 2 ^ 24 < 2 ^ 24) by (apply Z.mod_pos_bound; lia).
  replace (Z.shiftl k 56) with (Z.shiftl (Z.shiftl k 24) 32) by (rewrite Z.shiftl_shiftl by lia; done).
  rewrite <- Z.shiftl_lor, shiftl_lor by lia. by rewrite shiftl_lor by lia.
Qed.

(** ** Lemmas: a body as it is relayed *)

(** The bytes moved on by one direction of the pump, read after read. *)
Fixpoint relay (b : Body) (inbox : bytes) (reads : list bytes)
    : option (Body * result CodecError (bytes * bytes)) :=
  match reads with
  | [] => Some (b, Ok ([], inbox))
  | r :: rest =>
      match move_body b (inbox ++ r) with
      | Some (b, Ok (moved, inbox)) =>
          match relay b inbox rest with
          | Some (b, Ok (more, inbox)) => Some (b, Ok (moved ++ more, inbox))
          | other => other
          end
      | other => other
      end
  end.

(** What a framing says the body is. *)
Definition delimits (f : Framing) (body : bytes) : Prop :=
  match f with
  | Empty => body = []
  | Length n => 0 < n /\ n = Z.of_nat (length body)
  | Chunked => exists payload, chunked_body body payload
  | UntilClose => False
  end.

Lemma relay_done inbox reads :
  relay Body_Done inbox reads = Some (Body_Done, Ok ([], inbox ++ concat reads)).
Proof.
  revert inbox. induction reads as [|r reads IH]; intros inbox; simpl; [by rewrite app_nil_r|].
  rewrite IH. by rewrite (assoc_L (++)).
Qed.

Lemma relay_until_close reads :
  relay Body_UntilClose [] reads = Some (Body_UntilClose, Ok (concat reads, [])).
Proof.
  induction reads as [|r reads IH]; simpl; [done|].
  unfold move_body. cbn [body_is_done negb andb body_take].
  destruct (bool_decide_reflect (r = [])) as [->|Hr]; simpl; [by rewrite IH|].
  by rewrite firstn_all, drop_all, IH.
Qed.

(** The cursor [b] still wants exactly the bytes [body]. *)
Definition wants (b : Body) (body : bytes) : Prop :=
  match b with
  | Body_Done => False
  | Body_Length n => 0 < n /\ n = Z.of_nat (length body)
  | Body_Chunked c => scan_wf c /\ exists c', Chunked.reads c body c' /\ Chunked.is_done c' = true /\ Chunked.is_done c = false
  | Body_UntilClose => False
  end.

Lemma reads_split a b c c' :
  Chunked.reads c (a ++ b) c' -> exists c1, Chunked.reads c a c1 /\ Chunked.reads c1 b c'.
Proof.
  revert c. induction a as [|x a IH]; intros c Hr; simpl in Hr; [exists c; by split; [constructor|]|].
  inversion Hr as [|? ? ? c1 ? Hd Hs Hr']; subst. apply IH in Hr' as (c2&?&?).
  exists c2. split; [by econstructor|done].
Qed.

Lemma run_partial c a c1 i :
  Chunked.reads c a c1 -> run c i a = Some (c1, Ok ((i + length a)%nat, Chunked.is_done c1)).
Proof.
  intros Hr. revert i. induction Hr as [c|c b l c1 c' Hd Hs Hr IH]; intros i; cbn [run length].
  - by rewrite Nat.add_0_r.
  - rewrite Hd, Hs, IH. by rewrite Nat.add_succ_comm.
Qed.

(** One read of a body that is still wanted: it either stays within the body or
    reaches its end. *)
Lemma move_within b r body :
  wants b (r ++ body) -> body <> [] -> exists b', move_body b r = Some (b', Ok (r, [])) /\ wants b' body.
Proof.
  intros Hw Hb. unfold move_body. destruct (bool_decide_reflect (r = [])) as [->|Hr].
  { exists b. by rewrite andb_false_r. }
  assert (Hl : (0 < length body)%nat) by (destruct body; simpl; [done|lia]).
  destruct b as [|n|c|]; simpl in Hw; try done; simpl.
  - destruct Hw as [Hn ->]. rewrite length_app, Z.min_r by lia.
    rewrite (proj2 (Z.eqb_neq _ _)) by lia. rewrite Nat2Z.id, firstn_all, drop_all.
    eexists. split; [done|]. simpl. lia.
  - destruct Hw as [Hwf (c'&Hrd&Hd'&_)]. apply reads_split in Hrd as (c1&H1&H2).
    assert (Hd1 : Chunked.is_done c1 = false) by (inversion H2; subst; [done|done]).
    rewrite scan_run, (run_partial _ _ _ _ H1) by done. rewrite Hd1. cbn [Nat.add].
    rewrite firstn_all, drop_all. eexists. split; [done|]. simpl. split; [|eauto]. by eapply run_wf; [|by apply (run_partial _ _ _ 0)].
Qed.

Lemma move_to_end b body rest :
  wants b body -> move_body b (body ++ rest) = Some (Body_Done, Ok (body, rest)).
Proof.
  intros Hw. unfold move_body.
  assert (Hne : body <> []).
  { destruct b as [|n|c|]; simpl in Hw; try done.
    - intros ->. simpl in Hw. lia.
    - destruct Hw as [_ (c'&Hr&?&?)]. intros ->. inversion Hr. congruence. }
  rewrite bool_decide_eq_false_2 by (by destruct body).
  destruct b as [|n|c|]; simpl in Hw; try done; simpl.
  - destruct Hw as [Hn ->]. rewrite length_app, Z.min_l by lia.
    rewrite Z.sub_diag, Nat2Z.id, take_app_length, drop_app_length. done.
  - destruct Hw as [Hwf (c'&Hr&Hd&_)]. rewrite scan_run, (reads_run _ _ _ _ _ Hr Hd) by done.
    simpl. by rewrite take_app_length, drop_app_length.
Qed.

Lemma relay_wanted reads b body rest :
  wants b body -> concat reads = body ++ rest ->
  relay b [] reads = Some (Body_Done, Ok (body, rest)).
Proof.
  revert b body. induction reads as [|r reads IH]; intros b body Hw Hc; simpl in *.
  { apply eq_sym, app_eq_nil in Hc as [-> ->]. destruct b as [|n|c|]; simpl in Hw; try done; [lia|].
    destruct Hw as [_ (c'&Hr&?&?)]. inversion Hr. congruence. }
  destruct (decide (length r < length body)%nat) as [Hl|Hl].
  - assert (Hb : body = r ++ drop (length r) body).
    { apply (f_equal (take (length r))) in Hc. rewrite take_app_length, take_app_le in Hc by lia.
      rewrite Hc at 1. by rewrite take_drop. }
    set (more := drop (length r) body) in *.
    assert (Hm : more <> []) by (intros Hm; apply (f_equal length) in Hb; rewrite Hm, length_app in Hb; simpl in Hb; lia).
    rewrite Hb in Hw. destruct (move_within _ _ _ Hw Hm) as (b'&->&Hw').
    rewrite Hb, <- (assoc_L (++)) in Hc. apply app_inv_head in Hc. rewrite (IH _ _ Hw' Hc). by rewrite Hb.
  - assert (Hr : r = body ++ drop (length body) r).
    { apply (f_equal (take (length body))) in Hc. rewrite take_app_length, take_app_le in Hc by lia.
      rewrite <- Hc at 1. by rewrite take_drop. }
    rewrite Hr in *. rewrite move_to_end, relay_done by done.
    rewrite <- (assoc_L (++)) in Hc. apply app_inv_head in Hc as <-. by rewrite app_nil_r.
Qed.

Lemma wants_new f body : delimits f body -> f <> Empty -> wants (Body_new f) body.
Proof.
  destruct f as [|n| |]; simpl; try done. intros [payload Hp] _. split; [done|].
  destruct (reads_body _ _ Hp) as (c'&Hr&Hd). by exists c'.
Qed.

(** The fields of a tag. *)
Lemma tag_fields k g fd :
  is_byte k -> - 2 ^ 31 <= fd < 2 ^ 31 ->
  tag_kind (tag k g fd) = k /\ tag_generation (tag k g fd) = g mod 2 ^ 24 /\ tag_fd (tag k g fd) = fd.
Proof.
  unfold is_byte, tag_kind, tag_generation, tag_fd. intros Hk Hfd. rewrite tag_packs.
  pose proof (wrap_range 32 fd ltac:(lia)) as Hf. fold (wrap32 fd) in Hf.
  assert (Hg : 0 <= g mod 2 ^ 24 < 2 ^ 24) by (apply Z.mod_pos_bound; lia).
  rewrite !Z.shiftr_div_pow2, mask_mod, mask32_mod by lia.
  remember (g mod 2 ^ 24) as G. remember (wrap32 fd) as F.
  rewrite <- (Z.div_unique ((k * 2 ^ 24 + G) * 2 ^ 32 + F) (2 ^ 56) k (G * 2 ^ 32 + F)) by lia.
  rewrite <- (Z.div_unique ((k * 2 ^ 24 + G) * 2 ^ 32 + F) (2 ^ 32) (k * 2 ^ 24 + G) F) by lia.
  rewrite <- (Z.mod_unique ((k * 2 ^ 24 + G) * 2 ^ 32 + F) (2 ^ 32) (k * 2 ^ 24 + G) F) by lia.
  rewrite <- (Z.mod_unique (k * 2 ^ 24 + G) (2 ^ 24) k G) by lia.
  unfold wrap8, wrap32. rewrite !wrap_small by lia. subst F. by rewrite as_i32_wrap.
Qed.

(** ** The properties *)

(** Completion tags.  A tag fits in 64 bits and carries its three fields:
    the kind, the descriptor (any [i32], negative ones included) and the low 24
    bits of the generation; so two tags are equal exactly when these are. *)
Theorem tag_roundtrip k g fd k' g' fd' :
  is_byte k -> - 2 ^ 31 <= fd < 2 ^ 31 -> is_byte k' -> - 2 ^ 31 <= fd' < 2 ^ 31 ->
  fits 64 (tag k g fd)
  /\ tag_kind (tag k g fd) = k /\ tag_generation (tag k g fd) = g mod 2 ^ 24 /\ tag_fd (tag k g fd) = fd
  /\ (tag k g fd = tag k' g' fd' <-> k = k' /\ g mod 2 ^ 24 = g' mod 2 ^ 24 /\ fd = fd').
Proof.
  intros Hk Hfd Hk' Hfd'. destruct (tag_fields k g fd Hk Hfd) as (H1&H2&H3).
  destruct (tag_fields k' g' fd' Hk' Hfd') as (H1'&H2'&H3'). split_and!; try done.
  - rewrite tag_packs. unfold fits, is_byte in *. pose proof (wrap_range 32 fd ltac:(lia)).
    unfold wrap32 in *. assert (0 <= g mod 2 ^ 24 < 2 ^ 24) by (apply Z.mod_pos_bound; lia). lia.
  - split; [|by intros (->&Hg&->); rewrite !tag_packs, Hg].
    intros Heq. split_and!; congruence.
Qed.

(** The last three fields of a tag on the last descriptor of the range. *)
Lemma tag_roundtrip_witness :
  tag_fd (tag kind.UP_READ 16777217 (-1)) = - 1 /\ tag_generation (tag kind.UP_READ 16777217 (-1)) = 1.
Proof.
  destruct (tag_roundtrip kind.UP_READ 16777217 (-1) kind.UP_READ 1 0) as (_&_&Hg&Hf&_).
  - unfold is_byte, kind.UP_READ. lia.
  - lia.
  - unfold is_byte, kind.UP_READ. lia.
  - lia.
  - split; [exact Hf|rewrite Hg; reflexivity].
Defined.

(** C11: A body is relayed exactly.  However the reads cut the bytes, a body
    delimited by a length or by chunks is moved on byte for byte and ends where
    its framing says, and what follows it stays in the buffer; a body ended by
    the close of the connection is moved on whole and never ends by itself. *)
Theorem body_relay_exact f body rest reads :
  concat reads = body ++ rest ->
  (delimits f body -> relay (Body_new f) [] reads = Some (Body_Done, Ok (body, rest)))
  /\ relay Body_UntilClose [] reads = Some (Body_UntilClose, Ok (body ++ rest, [])).
Proof.
  intros Hc. split.
  - intros Hd. destruct (decide (f = Empty)) as [->|Hf].
    + simpl in Hd. subst body. simpl in *. by rewrite relay_done, Hc.
    + apply relay_wanted; [by apply wants_new|done].
  - rewrite <- Hc. apply relay_until_close.
Qed.

Lemma body_relay_exact_witness :
  relay (Body_new (Length 5)) [] [bstr "he"; bstr "llo"; bstr "GET"] = Some (Body_Done, Ok (bstr "hello", bstr "GET")).
Proof.
  apply (body_relay_exact (Length 5) (bstr "hello") (bstr "GET")); [reflexivity|].
  split; [lia|reflexivity].
Defined.
