(* ===== verification/Reactor.v ===== *)
(** One serving core, its state and its conversation with the world:
    [crates/ramjet-engine/src/engine/worker.rs], first part.

    The kernel, the reactor, the clock and the other threads are the class
    [World]: each answers a call by the log of everything that happened before
    it, so an answer may differ at every call.  The handlers run in a state
    monad [M] over [Worker] that keeps that log and stops at a [Panic], each
    with what the code was doing: an [Instant] past the last one, a negative
    descriptor as an index, a slice or a drain past the end of its buffer, a
    span outside it.  Read and write buffers are recycled by the code and carry
    no state: what matters of them, their contents, is in the operations. *)

From S2P Require Import Prelude RouterTypes Canary Stats Backends Table Rng Helper Limits Pool Codec Chunked Head Forwarding Tls Mirror Conn.

Inductive Op :=
| Op_Accept (fd : Z)
| Op_Read (fd : Z)
| Op_Write (fd : Z) (buf : bytes)
| Op_Close (fd : Z).

(** The per-core counters of metrics.rs that the handlers bump. *)
Inductive Counter :=
| ConnectionOpened | ConnectionClosed | TlsHandshake | TlsHandshakeFailure
| DispatchedHere | DispatchedAway | RouteMiss | UnsupportedH2c | UnsupportedGrpc
| ConnectFailure | Retry | Timeout.

Section reactor.
Context {E : RegexEngine} {TS : TlsStack} {HT : HttpTypes}.

Inductive Effect :=
| Submitted (op : Op) (user : u64) (queued : bool)
| SysClose (fd : Z)
| ShutdownWrite (fd : Z)
| Dialed (addr : SocketAddr) (answer : option (Z * bool))
| Watching (fd deadline : Z) (sent : bool)
| HandedOff (fd : Z) (prefix : bytes) (remote : IpAddr) (https : bool) (sent : bool)
| MirrorQueued (parts : Parts) (body : bytes) (protocol : BackendProtocol)
| MirrorSkipped
| MirrorFailed
| Clock (now : Z)
| Counted (c : Counter)
| Answered (status : u16)
| LatencySeen (elapsed : Z).

(** What one call answers, given all that went before. *)
Class World := {
  submit_ok : list Effect -> Op -> bool;
  dial : list Effect -> SocketAddr -> option (Z * bool);
  watch_ok : list Effect -> Z -> bool;
  handoff_ok : list Effect -> bool;
  clock_at : list Effect -> Z;
  nonblocking_ok : list Effect -> Z -> bool;
  peer_of : list Effect -> Z -> option IpAddr;
  published : list Effect -> RouteTable;
  metrics_text : list Effect -> bytes;
  ready : list Effect -> bool;
}.

Record Config := MkConfig {
  cfg_tls : option ServerConfig;
  cfg_proxy_protocol : option Z;
  cfg_connect_timeout : Z;
  cfg_response_timeout : Z;
  cfg_max_connect_attempts : usize;
  cfg_mirror_max_body : usize;
  cfg_dispatch : bool;
  cfg_mirror : bool;
  cfg_shutdown_grace : Z;
  cfg_pool_max_idle_per_host : usize;
  cfg_pool_idle_timeout : Z;
}.

Record AdminConn := MkAdminConn {
  a_inbox : bytes;
  a_outbox : bytes;
  a_head : Head;
  a_reading : bool;
  a_writing : bool;
  a_drain_counted : bool;
}.
Definition AdminConn_eta (a : AdminConn) : AdminConn :=
  MkAdminConn (a_inbox a) (a_outbox a) (a_head a) (a_reading a) (a_writing a) (a_drain_counted a).
#[export] Instance set_a_inbox : Setter a_inbox := ltac:(derive_setter AdminConn_eta).
#[export] Instance set_a_outbox : Setter a_outbox := ltac:(derive_setter AdminConn_eta).
#[export] Instance set_a_head : Setter a_head := ltac:(derive_setter AdminConn_eta).
#[export] Instance set_a_reading : Setter a_reading := ltac:(derive_setter AdminConn_eta).
#[export] Instance set_a_writing : Setter a_writing := ltac:(derive_setter AdminConn_eta).
#[export] Instance set_a_drain_counted : Setter a_drain_counted := ltac:(derive_setter AdminConn_eta).

(** A listener, or the acceptor thread's channel where the kernel does not
    distribute connections. *)
Record Intake := MkIntake { i_fd : Z; i_tls : bool; i_channel : bool }.

Inductive Slot :=
| Slot_Empty
| Slot_Taken
| Slot_Client (c : Conn)
| Slot_Upstream (down : Z)
| Slot_Idle (addr : SocketAddr)
| Slot_Abandoned
| Slot_Admin (a : AdminConn).

(** The vectors indexed by descriptor, [slots] and [generations], are maps
    whose absent entries are what [resize] fills in. *)
Record Worker := MkWorker {
  w_core : usize;
  w_config : Config;
  w_shutdown : bool;
  w_intakes : list Intake;
  w_admin : option Z;
  w_notify : Z;
  w_notes : bytes;
  w_intake_partial : list (Z * bytes);
  w_slots : gmap Z Slot;
  w_generations : gmap Z u32;
  w_high_water : usize;
  w_pool : Pool;
  w_drain_deadline : option Z;
  w_drain_inflight : usize;
  w_drain_expired : bool;
  (** What the core shares or keeps per thread: the in-flight counters, the
      route counters, the generator state; and the log. *)
  w_heap : Heap;
  w_store : list RouteSlot;
  w_rng : u64;
  w_log : list Effect;
}.
Definition Worker_eta (w : Worker) : Worker :=
  MkWorker (w_core w) (w_config w) (w_shutdown w) (w_intakes w) (w_admin w) (w_notify w) (w_notes w)
    (w_intake_partial w) (w_slots w) (w_generations w) (w_high_water w) (w_pool w)
    (w_drain_deadline w) (w_drain_inflight w) (w_drain_expired w) (w_heap w) (w_store w) (w_rng w)
    (w_log w).
#[export] Instance set_w_shutdown : Setter w_shutdown := ltac:(derive_setter Worker_eta).
#[export] Instance set_w_intakes : Setter w_intakes := ltac:(derive_setter Worker_eta).
#[export] Instance set_w_admin : Setter w_admin := ltac:(derive_setter Worker_eta).
#[export] Instance set_w_notes : Setter w_notes := ltac:(derive_setter Worker_eta).
#[export] Instance set_w_intake_partial : Setter w_intake_partial := ltac:(derive_setter Worker_eta).
#[export] Instance set_w_slots : Setter w_slots := ltac:(derive_setter Worker_eta).
#[export] Instance set_w_generations : Setter w_generations := ltac:(derive_setter Worker_eta).
#[export] Instance set_w_high_water : Setter w_high_water := ltac:(derive_setter Worker_eta).
#[export] Instance set_w_pool : Setter w_pool := ltac:(derive_setter Worker_eta).
#[export] Instance set_w_drain_deadline : Setter w_drain_deadline := ltac:(derive_setter Worker_eta).
#[export] Instance set_w_drain_inflight : Setter w_drain_inflight := ltac:(derive_setter Worker_eta).
#[export] Instance set_w_drain_expired : Setter w_drain_expired := ltac:(derive_setter Worker_eta).
#[export] Instance set_w_heap : Setter w_heap := ltac:(derive_setter Worker_eta).
#[export] Instance set_w_store : Setter w_store := ltac:(derive_setter Worker_eta).
#[export] Instance set_w_rng : Setter w_rng := ltac:(derive_setter Worker_eta).
#[export] Instance set_w_log : Setter w_log := ltac:(derive_setter Worker_eta).

(** A core before it runs; the counters, the routes' statistics and the
    generator belong to the process and the thread. *)
Definition Worker_new (core : usize) (config : Config) (shutdown : bool) (intakes : list Intake)
    (admin : option Z) (notify : Z) (heap : Heap) (store : list RouteSlot) (rng : u64) : Worker := {|
  w_core := core;
  w_config := config;
  w_shutdown := shutdown;
  w_intakes := intakes;
  w_admin := admin;
  w_notify := notify;
  w_notes := [];
  w_intake_partial := [];
  w_slots := ∅;
  w_generations := ∅;
  w_high_water := 0;
  w_pool := Pool_new (cfg_pool_max_idle_per_host config) (cfg_pool_idle_timeout config);
  w_drain_deadline := None;
  w_drain_inflight := 0;
  w_drain_expired := false;
  w_heap := heap;
  w_store := store;
  w_rng := rng;
  w_log := [];
|}.

(** ** The monad *)

(** The last [Instant] of the clock, in milliseconds: its seconds are an
    [i64]. *)
Definition INSTANT_MAX : Z := 9223372036854775807 * 1000 + 999.

Inductive Panic :=
(** [Instant + Duration]: "overflow when adding duration to instant". *)
| InstantOverflow (now timeout : Z)
(** [fd as usize] of a negative descriptor is no index. *)
| BadIndex (fd : Z)
(** [&buf[..end]]. *)
| SliceEnd (end_ : Z) (len : usize)
(** [buf.drain(..end)]. *)
| DrainEnd (end_ len : usize)
(** [Span::bytes] outside the buffer. *)
| SpanRange
(** [unreachable!]. *)
| Unreachable.

(** [OutOfFuel] is a model that has been given too little fuel. *)
Inductive Outcome (A : Type) :=
| Done (a : A) (w : Worker)
| Panicked (p : Panic)
| OutOfFuel.
#[global] Arguments Done {A}.
#[global] Arguments Panicked {A}.
#[global] Arguments OutOfFuel {A}.

Definition M (A : Type) : Type := Worker -> Outcome A.
#[export] Instance M_ret : MRet M := fun A a w => Done a w.
#[export] Instance M_bind : MBind M := fun A B f m w =>
  match m w with Done a w' => f a w' | Panicked p => Panicked p | OutOfFuel => OutOfFuel end.

Definition gets {A} (f : Worker -> A) : M A := fun w => Done (f w) w.
Definition modify (f : Worker -> Worker) : M unit := fun w => Done tt (f w).
Definition panic {A} (p : Panic) : M A := fun _ => Panicked p.
Definition out_of_fuel {A} : M A := fun _ => OutOfFuel.
Definition assert (b : bool) (p : Panic) : M unit := if b then mret tt else panic p.
Definition when (b : bool) (m : M unit) : M unit := if b then m else mret tt.
Definition log (e : Effect) : M unit := modify (fun w => w <| w_log := w_log w ++ [e] |>).
Definition count (c : Counter) : M unit := log (Counted c).

(** A [for] loop. *)
Fixpoint for_each {A} (f : A -> M unit) (l : list A) : M unit :=
  match l with [] => mret tt | x :: l => f x ;; for_each f l end.

(** [&buf[..end_]], and [buf.drain(..end_)]: what is left. *)
Definition slice_to (buf : bytes) (end_ : Z) : M bytes :=
  assert (end_ <=? Z.of_nat (length buf)) (SliceEnd end_ (length buf)) ;; mret (take (Z.to_nat end_) buf).
Definition drain_to (buf : bytes) (end_ : usize) : M bytes :=
  assert (end_ <=? length buf)%nat (DrainEnd end_ (length buf)) ;; mret (drop end_ buf).
(** [now + timeout]. *)
Definition add_instant (now timeout : Z) : M Z :=
  assert (now + timeout <=? INSTANT_MAX) (InstantOverflow now timeout) ;; mret (now + timeout).

(** ** Slots and generations *)

Definition slot_at (w : Worker) (fd : Z) : Slot := default Slot_Empty (w_slots w !! fd).
Definition generation_at (w : Worker) (fd : Z) : u32 := default 0 (w_generations w !! fd).

(** [let i = fd as usize], which must index a vector grown to hold it. *)
Definition index (fd : Z) : M unit := assert (0 <=? fd) (BadIndex fd).

(** [self.slot(fd)]: a mutable borrow, read or written through. *)
Definition touch (fd : Z) : M unit :=
  index fd ;; modify (fun w => w <| w_high_water := Nat.max (w_high_water w) (Z.to_nat fd + 1) |>).
Definition slot (fd : Z) : M Slot := touch fd ;; gets (fun w => slot_at w fd).
Definition put_slot (fd : Z) (s : Slot) : M unit :=
  touch fd ;; modify (fun w => w <| w_slots := <[fd := s]> (w_slots w) |>).

Definition generation (fd : Z) : M u32 := index fd ;; gets (fun w => generation_at w fd).
Definition bump_generation (fd : Z) : M unit :=
  index fd ;; modify (fun w => w <| w_generations :=
    <[fd := Z.land (wrap32 (generation_at w fd + 1)) GENERATION_MASK]> (w_generations w) |>).

(** [let Slot::Client(mut conn) = std::mem::replace(self.slot(fd), Slot::Taken)
    else { *self.slot(fd) = Slot::Empty; other }]. *)
Definition take_client {A} (fd : Z) (other : M A) (k : Conn -> M A) : M A :=
  s ← slot fd;
  put_slot fd Slot_Taken ;;
  match s with
  | Slot_Client c => k c
  | _ => put_slot fd Slot_Empty ;; other
  end.
Definition with_client {A} (fd : Z) (other : A) (k : Conn -> M A) : M A :=
  take_client fd (mret other) k.
Definition with_admin {A} (fd : Z) (other : A) (k : AdminConn -> M A) : M A :=
  s ← slot fd;
  put_slot fd Slot_Taken ;;
  match s with
  | Slot_Admin a => k a
  | _ => put_slot fd Slot_Empty ;; mret other
  end.
Definition put_client (fd : Z) (c : Conn) : M unit := put_slot fd (Slot_Client c).
Definition put_admin (fd : Z) (a : AdminConn) : M unit := put_slot fd (Slot_Admin a).

(** ** Calls to the world *)

Context {Wd : World}.

Definition clock : M Z :=
  now ← gets (fun w => clock_at (w_log w)); log (Clock now) ;; mret now.

(** [submit_with(op, tag(kind, generation, fd))]: whether it was queued. *)
Definition submit (op : Op) (kind : u8) (fd : Z) : M bool :=
  g ← generation fd;
  queued ← gets (fun w => submit_ok (w_log w) op);
  log (Submitted op (tag kind g fd) queued) ;;
  mret queued.

Definition tcp_connect (a : SocketAddr) : M (option (Z * bool)) :=
  answer ← gets (fun w => dial (w_log w) a); log (Dialed a answer) ;; mret answer.
Definition watch_connect (fd deadline : Z) : M bool :=
  sent ← gets (fun w => watch_ok (w_log w) fd); log (Watching fd deadline sent) ;; mret sent.
Definition sys_close (fd : Z) : M unit := log (SysClose fd).
Definition shutdown_write (fd : Z) : M unit := log (ShutdownWrite fd).

(** ** Submission helpers *)

Definition or_err (queued : bool) : result unit unit := if queued then Ok tt else Err tt.

Definition arm_notify : M (result unit unit) :=
  fd ← gets w_notify; queued ← submit (Op_Read fd) kind.NOTIFY fd; mret (or_err queued).
Definition arm_accept (fd : Z) (k : u8) : M (result unit unit) :=
  queued ← submit (Op_Accept fd) k fd; mret (or_err queued).
Definition arm_intake (fd : Z) (tls : bool) : M (result unit unit) :=
  queued ← submit (Op_Read fd) (if tls then kind.INTAKE_TLS else kind.INTAKE) fd; mret (or_err queued).

(** [Worker::close]: the one way a descriptor leaves the core. *)
Definition close (fd : Z) : M unit :=
  s ← slot fd;
  let counted :=
    match s with
    | Slot_Client c => c_drain_counted c
    | Slot_Admin a => a_drain_counted a
    | _ => false
    end in
  when counted (modify (fun w => w <| w_drain_inflight := (w_drain_inflight w - 1)%nat |>)) ;;
  bump_generation fd ;;
  put_slot fd Slot_Empty ;;
  _ ← submit (Op_Close fd) kind.CLOSE fd;
  mret tt.

(** ** In-flight accounting *)

Definition inflight_index (c : Conn) : usize :=
  ((c_endpoint_index c + c_attempt c) mod Nat.max (c_endpoint_count c) 1)%nat.

(** The counter of the endpoint the current attempt goes to. *)
Definition inflight_counter (c : Conn) : option nat :=
  table ← c_snapshot c;
  s ← stats_slot (stats table) (c_stats_index c);
  slot_inflight s !! inflight_index c.

Definition hold_inflight (c : Conn) : M Conn :=
  if c_inflight_held c then mret c
  else
    match inflight_counter c with
    | None => mret c
    | Some l =>
        modify (fun w => w <| w_heap := fetch_add_counter (w_heap w) l 1 |>) ;;
        mret (c <| c_inflight_held := true |>)
    end.

Definition release_inflight (c : Conn) : M Conn :=
  if negb (c_inflight_held c) then mret c
  else
    match inflight_counter c with
    | None => mret tt
    | Some l => modify (fun w => w <| w_heap := fetch_add_counter (w_heap w) l (-1) |>)
    end ;;
    mret (c <| c_inflight_held := false |>).

(** ** Per-route accounting *)

(** The index of the route's counter block, when the request has a route. *)
Definition route_block (c : Conn) : option nat :=
  index ← c_route_stats c; table ← c_snapshot c; route_slot (routes table) index.

Definition on_route (c : Conn) (f : RouteCounters -> RouteCounters) : M unit :=
  core ← gets w_core;
  match route_block c with
  | None => mret tt
  | Some block =>
      modify (fun w => w <| w_store := alter (on_shard f core) block (w_store w) |>) ;;
      when (c_canaried c)
        (modify (fun w => w <| w_store := alter (on_canary_shard f core) block (w_store w) |>))
  end.

(** The handlers' [record_response] and [record_upstream_latency]. *)
Definition count_response (c : Conn) (status : u16) : M Conn :=
  if c_counted c then mret c
  else
    let c := c <| c_counted := true |> in
    log (Answered status) ;;
    on_route c (record_response status) ;;
    mret c.

Definition count_latency (c : Conn) (elapsed : Z) : M unit :=
  log (LatencySeen elapsed) ;; on_route c (record_upstream_latency elapsed).

(** [if let Some(started) = conn.dispatched_at.take()]. *)
Definition take_latency (c : Conn) : M Conn :=
  match c_dispatched_at c with
  | None => mret c
  | Some started =>
      now ← clock;
      let c := c <| c_dispatched_at := None |> in
      count_latency c (sat_sub now started) ;; mret c
  end.

(** ** Mirroring *)

Definition plan_mirror (c : Conn) (table : RouteTable) (spec : option MirrorSpec) (framing : Framing)
    : M Conn :=
  let c := c <| c_mirror := None |> in
  lane ← gets (fun w => cfg_mirror (w_config w));
  match spec with
  | None => mret c
  | Some spec =>
      if negb lane then mret c
      else if negb match framing with Empty | Length _ => true | _ => false end then
        log MirrorSkipped ;; mret c
      else
        match table_backend table (mirror_backend spec) with
        | None => mret c
        | Some backend =>
            if bool_decide (endpoints backend = []) then log MirrorFailed ;; mret c
            else
              rng ← gets w_rng;
              heap ← gets w_heap;
              let word := next_u64 rng in
              let '(chosen, heap) := select_endpoint backend (stats table) word heap in
              modify (fun w => w <| w_rng := word |> <| w_heap := heap |>) ;;
              match (fun '(_, endpoint) => endpoint) <$> chosen with
              | None => log MirrorFailed ;; mret c
              | Some endpoint =>
                  match parts_for (c_request_head c) (addr endpoint) (mirror_host spec) with
                  | None => log MirrorFailed ;; mret c
                  | Some parts =>
                      mret (c <| c_mirror := Some (MkMirrorCopy parts [] (protocol backend) false) |>)
                  end
              end
        end
  end.

Definition mirror_body (max_body : usize) (c : Conn) (taken : bytes) : Conn :=
  match c_mirror c with
  | None => c
  | Some copy =>
      if mc_too_large copy then c
      else if (max_body <? length (mc_body copy) + length taken)%nat then
        c <| c_mirror := Some (MkMirrorCopy (mc_parts copy) [] (mc_protocol copy) true) |>
      else
        c <| c_mirror := Some (MkMirrorCopy (mc_parts copy) (mc_body copy ++ taken) (mc_protocol copy) false) |>
  end.

Definition send_mirror (c : Conn) : M Conn :=
  match c_mirror c with
  | None => mret c
  | Some copy =>
      let c := c <| c_mirror := None |> in
      lane ← gets (fun w => cfg_mirror (w_config w));
      (if negb lane then mret tt
       else if mc_too_large copy then log MirrorSkipped
       else log (MirrorQueued (mc_parts copy) (mc_body copy) (mc_protocol copy))) ;;
      mret c
  end.
End reactor.
