(* ===== verification/Worker.v ===== *)
(** The connection handlers of one serving core:
    [crates/ramjet-engine/src/engine/worker.rs], second part.

    One Definition per handler, in the state monad of Reactor.v.  [advance],
    [open_upstream] and [drive] call each other; the recursion is cut by fuel,
    one number bounding the depth and every loop, and a model without fuel is
    [OutOfFuel], never a result. *)

From S2P Require Import Prelude RouterTypes Canary Stats Backends Table Rng Helper Limits Pool NetText ProxyProtocol Codec Chunked Head Forwarding Tls Mirror Conn Reactor.

Section worker.
Context {E : RegexEngine} {TS : TlsStack} {HT : HttpTypes} {Wd : World} {Enc : Encoder}.

(** [Some(Instant::now() + timeout)]. *)
Definition deadline_in (timeout : Z) : M (option Z) :=
  now ← clock; deadline ← add_instant now timeout; mret (Some deadline).

(** The spans of a head, read off the buffer it was parsed from. *)
Definition read_spans (h : Head) (buf : bytes) : M unit := assert (spans_readable h buf) SpanRange.

(** ** Bytes off the client's socket *)

Inductive Preface :=
| Preface_Done (surplus : bytes)
| Preface_NeedMore
| Preface_Rejected.

Definition socket_ip (a : SocketAddr) : IpAddr :=
  match a with SocketV4 ip _ => IpV4 ip | SocketV6 ip _ _ _ => IpV6 ip end.

Definition consume_preface (c : Conn) (input : bytes) : M (Preface * Conn) :=
  match c_preface c with
  | None => mret (Preface_Done [], c)
  | Some preface =>
      let preface := preface ++ input in
      let c := c <| c_preface := Some preface |> in
      match ProxyProtocol.parse preface with
      | Ok ProxyProtocol.Incomplete => mret (Preface_NeedMore, c)
      | Ok (ProxyProtocol.Done consumed client) =>
          let c := match client with Some a => c <| c_peer := socket_ip a |> | None => c end in
          deadline ← deadline_in CLIENT_IDLE;
          mret (Preface_Done (drop consumed preface),
                c <| c_preface := None |> <| c_deadline := deadline |>)
      | Err _ =>
          mret (Preface_Rejected,
                c <| c_outbox := [] |> <| c_phase := Phase_Closing |> <| c_client_eof := true |>)
      end
  end.

Definition ingest (c : Conn) (input : bytes) : M Conn :=
  '(rest, c) ←
    (if bool_decide (is_Some (c_preface c)) then
       '(preface, c) ← consume_preface c input;
       mret (match preface with Preface_Done surplus => Some surplus | _ => None end, c)
     else mret (Some input, c));
  match rest with
  | None => mret c
  | Some rest =>
      match c_tls c with
      | None => mret (c <| c_inbox := c_inbox c ++ rest |>)
      | Some session =>
          config ← gets w_config;
          let '(session, plain, outcome) := Tls.feed session rest (c_inbox c) in
          let c := c <| c_inbox := plain |> in
          match outcome with
          | Err _ =>
              count TlsHandshakeFailure ;;
              mret (c <| c_tls := Some (kill session) |> <| c_phase := Phase_Closing |>)
          | Ok (Hello offer) =>
              if bool_decide (offer = Http2) && cfg_dispatch config then
                mret (c <| c_tls := Some session |> <| c_hand_off := true |>)
              else
                match cfg_tls config with
                | None =>
                    count TlsHandshakeFailure ;;
                    mret (c <| c_tls := Some (kill session) |> <| c_phase := Phase_Closing |>)
                | Some tls_config =>
                    let '(session, plain, accepted) := Tls.accept session tls_config (c_inbox c) in
                    let c := c <| c_inbox := plain |> in
                    match accepted with
                    | Err _ =>
                        count TlsHandshakeFailure ;;
                        mret (c <| c_tls := Some session |> <| c_phase := Phase_Closing |>)
                    | Ok _ =>
                        count DispatchedHere ;;
                        let '(first, session) := take_established session in
                        when first (count TlsHandshake) ;;
                        mret (c <| c_tls := Some session |>)
                    end
                end
          | Ok _ =>
              let '(first, session) := take_established session in
              when first (count TlsHandshake) ;;
              mret (c <| c_tls := Some session |>)
          end
      end
  end.

(** ** Submission *)

Definition submit_client_write (fd : Z) (c : Conn) : M Conn :=
  if negb (c_writing c) && has_pending_out c then
    let '(buf, c) :=
      match c_tls c with
      | Some session => (wire_out session, c <| c_tls := Some (session <| wire_out := [] |>) |>)
      | None => (c_outbox c, c <| c_outbox := [] |>)
      end in
    queued ← submit (Op_Write fd buf) kind.DOWN_WRITE fd;
    mret (if (queued : bool) then c <| c_writing := true |> else c <| c_phase := Phase_Closing |>)
  else mret c.

Definition submit_upstream (c : Conn) : M Conn :=
  match c_upstream c with
  | None => mret c
  | Some up =>
      c ← (if c_up_ready c && negb (c_up_writing c) && negb (bool_decide (c_up_outbox c = [])) then
             let buf := c_up_outbox c in
             let c := c <| c_up_outbox := [] |> in
             queued ← submit (Op_Write up buf) kind.UP_WRITE up;
             mret (if (queued : bool) then c <| c_up_writing := true |> else c <| c_phase := Phase_Closing |>)
           else mret c);
      if negb (c_up_reading c) && wants_upstream_bytes c then
        queued ← submit (Op_Read up) kind.UP_READ up;
        mret (if (queued : bool) then c <| c_up_reading := true |> else c)
      else mret c
  end.

Definition submit_client_read (fd : Z) (c : Conn) : M Conn :=
  if negb (c_reading c) && wants_client_bytes c then
    queued ← submit (Op_Read fd) kind.DOWN_READ fd;
    mret (if (queued : bool) then c <| c_reading := true |> else c)
  else mret c.

(** [drive] after the handover test. *)
Definition drive_connection (fd : Z) (c : Conn) : M unit :=
  c ← submit_client_write fd (conn_seal c);
  c ← submit_upstream c;
  c ← submit_client_read fd c;
  put_client fd c ;;
  when (bool_decide (c_phase c = Phase_Closing) && negb (c_writing c) && negb (has_pending_out c))
    (match c_upstream c with
     | None => mret tt
     | Some up => if c_up_borrowed c then put_slot up Slot_Abandoned else close up
     end ;;
     count ConnectionClosed ;;
     close fd).

(** [hand_off]; [drive] is the call of its first branch. *)
Definition hand_off (drive : Z -> M unit) (fd : Z) : M unit :=
  with_client fd tt (fun c =>
    config ← gets w_config;
    if negb (cfg_dispatch config) then
      put_client fd (c <| c_phase := Phase_Closing |>) ;; drive fd
    else
      let prefix := match c_tls c with Some session => into_replay session | None => c_inbox c end in
      let https := bool_decide (c_scheme c = bstr "https") in
      bump_generation fd ;;
      put_slot fd Slot_Empty ;;
      sent ← gets (fun w => handoff_ok (w_log w));
      log (HandedOff fd prefix (c_peer c) https sent) ;;
      when sent (count DispatchedAway) ;;
      count ConnectionClosed).

Fixpoint drive (n : nat) (fd : Z) : M unit :=
  match n with
  | O => out_of_fuel
  | S n' =>
      with_client fd tt (fun c =>
        if c_hand_off c then put_client fd c ;; hand_off (drive n') fd
        else drive_connection fd c)
  end.

(** ** Failure paths *)

Definition fail_unsupported (fd : Z) (status : u16) (body : bytes) (close_ : bool)
    (unsupported : option str) : M unit :=
  with_client fd tt (fun c =>
    c ← release_inflight c;
    match c_upstream c with
    | None => mret tt
    | Some up => if c_up_borrowed c then put_slot up Slot_Abandoned else close up
    end ;;
    let c := c <| c_upstream := None |> <| c_up_reading := false |> <| c_up_writing := false |>
               <| c_up_ready := false |> in
    let close_ := close_ || negb (c_client_keep_alive c) || negb (body_is_done (c_request_body c)) in
    c ← (if negb close_ && negb (c_head_consumed c) then
           rest ← drain_to (c_inbox c) (head_len (c_head c));
           mret (c <| c_inbox := rest |> <| c_head_consumed := true |>)
         else mret c);
    c ← count_response c status;
    let out :=
      if c_method_was_head c
      then write_static_head_only_unsupported (c_outbox c) status (length body) close_ unsupported
      else write_static_unsupported (c_outbox c) status body close_ unsupported in
    let c := c <| c_outbox := out |> in
    put_client fd
      (if close_ then c <| c_phase := Phase_Closing |>
       else (conn_reset c) <| c_inbox := c_inbox c |>)).

Definition fail (fd : Z) (status : u16) (body : bytes) (close_ : bool) : M unit :=
  fail_unsupported fd status body close_ None.

(** [fail] with the status and body of a [CodecError]. *)
Definition fail_codec (fd : Z) (e : CodecError) : M unit :=
  fail fd (error_status e) (bad_request_body (error_status e) (error_detail e)) true.

Definition exhausted (n : nat) (fd : Z) : M unit :=
  fail fd 502 CONNECT_FAILED false ;; drive n fd.

Definition retry_or_fail (n : nat) (open_upstream : Z -> M unit) (fd : Z) : M unit :=
  with_client fd tt (fun c =>
    c ← release_inflight c;
    let resend (c : Conn) : M unit :=
      let c := c <| c_up_outbox := c_request_head c |> <| c_up_inbox := [] |>
                 <| c_up_reading := false |> <| c_up_writing := false |> <| c_up_ready := false |>
                 <| c_response_head_seen := false |> <| c_up_head := head_reset (c_up_head c) |>
                 <| c_phase := Phase_Exchanging |> in
      put_client fd c ;; open_upstream fd in
    if c_from_pool c && negb (c_pool_retry_used c) && negb (c_committed c) && c_replayable c then
      resend (c <| c_from_pool := false |> <| c_pool_retry_used := true |>)
    else
      let next := S (c_attempt c) in
      if c_committed c || (length (c_targets c) <=? next)%nat then
        put_client fd c ;; exhausted n fd
      else
        count Retry ;; resend (c <| c_attempt := next |>)).

(** [advance] is the call that carries on with a connection. *)
Fixpoint open_upstream (advance : Z -> M unit) (n : nat) (fd : Z) : M unit :=
  match n with
  | O => out_of_fuel
  | S n' =>
      with_client fd tt (fun c =>
        match c_targets c !! c_attempt c with
        | None => put_client fd c ;; exhausted n' fd
        | Some addr =>
            config ← gets w_config;
            now ← clock;
            deadline ← deadline_in (cfg_response_timeout config);
            c ← hold_inflight (c <| c_dispatched_at := Some now |> <| c_deadline := deadline |>);
            pool ← gets w_pool;
            let '(taken, pool) := pool_take addr pool in
            modify (fun w => w <| w_pool := pool |>) ;;
            match taken with
            | Some up =>
                put_slot up (Slot_Upstream fd) ;;
                put_client fd (c <| c_upstream := Some up |> <| c_up_reading := true |> <| c_up_ready := true |>
                                 <| c_from_pool := true |> <| c_phase := Phase_Exchanging |>) ;;
                advance fd
            | None =>
                answer ← tcp_connect addr;
                match answer with
                | None =>
                    count ConnectFailure ;; put_client fd c ;;
                    retry_or_fail n' (open_upstream advance n') fd
                | Some (up, connected) =>
                    let c := c <| c_upstream := Some up |> <| c_up_reading := false |>
                               <| c_up_ready := connected |> <| c_from_pool := false |> in
                    put_slot up (Slot_Upstream fd) ;;
                    if (connected : bool) then
                      put_client fd (c <| c_phase := Phase_Exchanging |>) ;; advance fd
                    else
                      deadline ← deadline_in (cfg_connect_timeout config);
                      sent ← watch_connect up (default 0 deadline);
                      if (sent : bool) then
                        put_client fd (c <| c_up_borrowed := true |> <| c_phase := Phase_Connecting |>)
                      else
                        put_slot up Slot_Empty ;; sys_close up ;; count ConnectFailure ;;
                        put_client fd (c <| c_upstream := None |>) ;;
                        retry_or_fail n' (open_upstream advance n') fd
                end
            end
        end)
  end.

(** ** Completing an exchange *)

Definition park_idle (up : Z) (a : SocketAddr) (reading : bool) : M unit :=
  put_slot up (Slot_Idle a) ;;
  pool ← gets w_pool;
  now ← clock;
  let '(refused, pool) := pool_put a up now pool in
  modify (fun w => w <| w_pool := pool |>) ;;
  match refused with
  | Some refused => close refused
  | None =>
      if (reading : bool) then mret tt
      else
        queued ← submit (Op_Read up) kind.UP_READ up;
        if (queued : bool) then mret tt
        else
          modify (fun w => w <| w_pool := (pool_remove a up (w_pool w)).2 |>) ;; close up
  end.

Definition finish_response (fd : Z) : M unit :=
  with_client fd tt (fun c =>
    c ← release_inflight c;
    match c_upstream c with
    | None => mret tt
    | Some up =>
        let clean := bool_decide (c_up_inbox c = []) && negb (c_up_writing c) in
        match c_upstream_keep_alive c && clean, c_targets c !! c_attempt c with
        | true, Some a => park_idle up a (c_up_reading c)
        | _, _ => close up
        end
    end ;;
    let keep := c_client_keep_alive c in
    let c := conn_reset (c <| c_upstream := None |> <| c_up_reading := false |> <| c_up_writing := false |>
                           <| c_up_ready := false |>) in
    put_client fd (if keep then c else c <| c_phase := Phase_Closing |>)).

Section exchange.
(** [advance], and the fuel of the calls that may come back to it. *)
Context (advance : Z -> M unit) (n : nat).

Definition upstream_failed (fd : Z) : M unit :=
  with_client fd tt (fun c =>
    if c_response_head_seen c then
      let c := c <| c_phase := Phase_Closing |> in
      put_client fd (c <| c_upstream := None |>) ;;
      match c_upstream c with Some up => close up | None => mret tt end ;;
      drive n fd
    else
      put_client fd (c <| c_upstream := None |>) ;;
      match c_upstream c with Some up => close up | None => mret tt end ;;
      retry_or_fail n (open_upstream advance n) fd).

Definition upstream_garbage (fd : Z) : M unit :=
  s ← slot fd;
  match s with
  | Slot_Client c =>
      if c_response_head_seen c then upstream_failed fd
      else
        with_client fd tt (fun c =>
          put_client fd (c <| c_committed := true |> <| c_upstream := None |>) ;;
          match c_upstream c with Some up => close up | None => mret tt end ;;
          fail fd 502 UPSTREAM_FAILED true ;;
          drive n fd)
  | _ => mret tt
  end.

Definition begin_tunnel (fd : Z) : M unit :=
  with_client fd tt (fun c =>
    match c_upgrade c with
    | None =>
        put_client fd c ;; fail fd 502 UPGRADE_FAILED true ;; drive n fd
    | Some protocol =>
        read_spans (c_up_head c) (c_up_inbox c) ;;
        let protocol := default protocol (upgrade_protocol (c_up_head c) (c_up_inbox c)) in
        let out := default []
          (write_downstream_response reason (c_up_head c) (c_up_inbox c) Empty false (Some protocol)) in
        carried ← drain_to (c_up_inbox c) (head_len (c_up_head c));
        let c := c <| c_outbox := c_outbox c ++ out ++ carried |> <| c_up_inbox := [] |>
                   <| c_up_outbox := c_up_outbox c ++ c_inbox c |> <| c_inbox := [] |>
                   <| c_response_head_seen := true |> <| c_committed := true |>
                   <| c_phase := Phase_Tunnel |> <| c_deadline := None |>
                   <| c_upstream_keep_alive := false |> in
        c ← take_latency c;
        c ← count_response c 101;
        put_client fd c
    end).

(** [parse_response] up to the relay: the head, once it is complete.
    [None] is an early return, with its value. *)
Definition response_head (fd : Z) (c : Conn) : M (bool + Conn) :=
  if c_response_head_seen c then mret (inr c)
  else
    match parse_response_head (c_up_inbox c) (c_up_head c) with
    | (head, Ok false) => put_client fd (c <| c_up_head := head |>) ;; mret (inl false)
    | (head, Err _) => put_client fd (c <| c_up_head := head |>) ;; upstream_garbage fd ;; mret (inl false)
    | (head, Ok true) =>
        let c := c <| c_up_head := head |> in
        read_spans head (c_up_inbox c) ;;
        if is_switching_protocols head then
          put_client fd c ;; begin_tunnel fd ;; mret (inl true)
        else
          match response_framing head (c_up_inbox c) (c_method_was_head c) with
          | Err _ => put_client fd c ;; upstream_garbage fd ;; mret (inl false)
          | Ok framing =>
              c ← take_latency c;
              config ← gets w_config;
              let c := c <| c_upstream_keep_alive :=
                         keep_alive head (c_up_inbox c) (head_version head) && allows_reuse framing |> in
              let status := default 502 (head_status head) in
              let c := if bool_decide (framing = UntilClose) then c <| c_client_keep_alive := false |> else c in
              let close_client := negb (c_client_keep_alive c) in
              let out := default [] (write_downstream_response reason head (c_up_inbox c) framing close_client None) in
              rest ← drain_to (c_up_inbox c) (head_len head);
              deadline ← deadline_in (cfg_response_timeout config);
              let c := c <| c_outbox := c_outbox c ++ out |> <| c_up_inbox := rest |>
                         <| c_response_body := Body_new framing |> <| c_response_head_seen := true |>
                         <| c_phase := Phase_Relaying |> <| c_committed := true |>
                         <| c_deadline := deadline |> in
              c ← count_response c status;
              mret (inr c)
          end
    end.

Definition parse_response (fd : Z) : M bool :=
  with_client fd false (fun c =>
    if bool_decide (c_up_inbox c = []) then put_client fd c ;; mret false
    else
      head ← response_head fd c;
      match head with
      | inl early => mret early
      | inr c =>
          match move_body (c_response_body c) (c_up_inbox c) with
          | None => panic Unreachable
          | Some (body, Err _) =>
              put_client fd (c <| c_response_body := body |>) ;; upstream_garbage fd ;; mret false
          | Some (body, Ok (moved, rest)) =>
              let c := c <| c_response_body := body |> <| c_outbox := c_outbox c ++ moved |>
                         <| c_up_inbox := rest |> in
              put_client fd c ;;
              if c_response_head_seen c && body_is_done body then finish_response fd ;; mret true
              else mret (negb (bool_decide (moved = [])))
          end
      end).

Definition pump_bodies (fd : Z) : M bool :=
  progressed ← with_client fd (inl false) (fun c =>
    config ← gets w_config;
    match move_body (c_request_body c) (c_inbox c) with
    | None => panic Unreachable
    | Some (body, Err e) =>
        put_client fd (c <| c_request_body := body |>) ;; fail_codec fd e ;; mret (inl false)
    | Some (body, Ok (moved, rest)) =>
        let ended := body_is_done body && negb (body_is_done (c_request_body c)) in
        let c := c <| c_up_outbox := c_up_outbox c ++ moved |> in
        let c := mirror_body (cfg_mirror_max_body config) c moved in
        let c := c <| c_inbox := rest |> <| c_request_body := body |> in
        c ← (if ended then send_mirror c else mret c);
        if negb (body_is_done (c_request_body c)) && c_client_eof c && bool_decide (c_inbox c = []) then
          put_client fd c ;;
          fail fd 400 (line (bstr "400 Bad Request: the request body ended early")) true ;;
          mret (inl false)
        else
          put_client fd c ;; mret (inr (negb (bool_decide (moved = []))))
    end);
  match progressed with
  | inl early => mret early
  | inr progressed =>
      moved ← parse_response fd;
      mret (moved || progressed)
  end.
End exchange.

Definition pump_tunnel (fd : Z) : M bool :=
  with_client fd false (fun c =>
    let moved := negb (bool_decide (c_inbox c = [])) || negb (bool_decide (c_up_inbox c = [])) in
    let c := c <| c_up_outbox := c_up_outbox c ++ c_inbox c |> <| c_inbox := [] |>
               <| c_outbox := c_outbox c ++ c_up_inbox c |> <| c_up_inbox := [] |> in
    (if c_client_eof c && bool_decide (c_up_outbox c = []) && negb (c_up_writing c) then
       match c_upstream c with Some up => shutdown_write up | None => mret tt end
     else mret tt) ;;
    c ← (if c_upstream_eof c && bool_decide (c_outbox c = []) && negb (c_writing c) then
           match c_tls c with
           | Some session =>
               mret (c <| c_tls := Some (send_close_notify session) |> <| c_phase := Phase_Closing |>)
           | None =>
               if c_client_eof c then mret (c <| c_phase := Phase_Closing |>)
               else shutdown_write fd ;; mret c
           end
         else mret c);
    put_client fd c ;; mret moved).

(** ** Routing a request *)

(** [request_id] draws an id only when the request carries none. *)
Definition draws_id (h : Head) (buf : bytes) : bool :=
  match head_header h buf (bstr "x-request-id") with
  | Some existing => bool_decide (trim_ows existing = [])
  | None => true
  end.

(** What is refused before anything is dialled: the arguments of [fail], and
    whether a capability is missing. *)
Definition refuse (fd : Z) (c : Conn) (counter : option Counter) (status : u16) (body : bytes)
    (close_ : bool) (unsupported : option str) : M unit :=
  match counter with Some k => count k | None => mret tt end ;;
  put_client fd c ;;
  fail_unsupported fd status body close_ unsupported.

(** [route_request] from the point where a backend and its targets are known. *)
Definition send_upstream (open_upstream : Z -> M unit) (fd : Z) (c : Conn) (table : RouteTable)
    (mirror : option MirrorSpec) (framing : Framing) (target0 : SocketAddr) : M unit :=
  rng ← gets w_rng;
  let '(fresh, after) := hex_id rng in
  modify (fun w => w <| w_rng := if draws_id (c_head c) (c_inbox c) then after else rng |>) ;;
  let head := default []
    (write_upstream_request (c_head c) (c_inbox c) (MkHop (c_peer c) (c_scheme c)) target0
       framing false (c_upgrade c) fresh) in
  c ← plan_mirror (c <| c_request_head := head |>) table mirror framing;
  c ← (if body_is_done (c_request_body c) then send_mirror c else mret c);
  rest ← drain_to (c_inbox c) (head_len (c_head c));
  put_client fd (c <| c_inbox := rest |> <| c_head_consumed := true |>
                   <| c_snapshot := Some table |> <| c_phase := Phase_Exchanging |>
                   <| c_up_outbox := c_request_head c |>) ;;
  open_upstream fd.

Definition route_request (open_upstream : Z -> M unit) (fd : Z) : M unit :=
  with_client fd tt (fun c =>
    read_spans (c_head c) (c_inbox c) ;;
    match request_framing (c_head c) (c_inbox c) with
    | Err e => put_client fd c ;; fail_codec fd e
    | Ok framing =>
        let c := c <| c_request_body := Body_new framing |>
                   <| c_client_keep_alive :=
                        keep_alive (c_head c) (c_inbox c) (head_version (c_head c)) && negb (c_client_eof c) |>
                   <| c_method_was_head :=
                        match head_method (c_head c) (c_inbox c) with
                        | Some m => eq_ignore_ascii_case m (bstr "HEAD")
                        | None => false
                        end |>
                   <| c_upgrade := upgrade_protocol (c_head c) (c_inbox c) |> in
        table ← gets (fun w => published (w_log w));
        config ← gets w_config;
        let host := default [] (routing_host (c_head c) (c_inbox c)) in
        match head_start (c_head c) with
        | Status _ _ _ => put_client fd c ;; fail fd 400 NO_ROUTE true
        | Request _ target _ =>
            let path := default (bstr "/") (routing_path target (c_inbox c)) in
            rng ← gets w_rng;
            let '(matched, rng) := Forwarding.route_request table host path (c_head c) (c_inbox c) rng in
            modify (fun w => w <| w_rng := rng |>) ;;
            match matched with
            | None => refuse fd c (Some RouteMiss) 404 NO_ROUTE false None
            | Some matched =>
                let backend := m_backend matched in
                let c := c <| c_route_stats := m_route matched |> <| c_canaried := m_canaried matched |> in
                if bool_decide (protocol backend = H2c) then
                  refuse fd c (Some UnsupportedH2c) 502 NO_H2C_UPSTREAM false (Some UNSUPPORTED_H2C_UPSTREAM)
                else if is_grpc (c_head c) (c_inbox c) then
                  refuse fd c (Some UnsupportedGrpc) 502 GRPC false (Some UNSUPPORTED_GRPC)
                else
                  rng ← gets w_rng;
                  heap ← gets w_heap;
                  let '(first, rng, heap) := first_endpoint table backend rng heap in
                  modify (fun w => w <| w_rng := rng |> <| w_heap := heap |>) ;;
                  match first with
                  | None => refuse fd c None 503 NO_ENDPOINT false None
                  | Some first =>
                      let allowed :=
                        attempts framing (length (endpoints backend)) (cfg_max_connect_attempts config) in
                      let c := c <| c_targets := targets backend (r_index first) allowed |> in
                      match c_targets c with
                      | [] => refuse fd c None 503 NO_ENDPOINT false None
                      | target0 :: _ =>
                          let c := c <| c_stats_index := stats_index backend |>
                                     <| c_endpoint_index := r_index first |>
                                     <| c_endpoint_count := length (endpoints backend) |>
                                     <| c_replayable := bool_decide (framing = Empty) |>
                                     <| c_attempt := 0%nat |> in
                          send_upstream open_upstream fd c table (m_mirror matched) framing target0
                      end
                  end
            end
        end
    end).

(** [parse_request] always returns [false]: the loop of [advance] stops. *)
Definition parse_request (advance : Z -> M unit) (n : nat) (fd : Z) : M bool :=
  with_client fd false (fun c =>
    config ← gets w_config;
    if is_h2_preface (c_inbox c) then
      if cfg_dispatch config then
        put_client fd (c <| c_hand_off := true |>) ;; hand_off (drive n) fd ;; mret false
      else put_client fd c ;; fail fd 502 NO_HTTP2 true ;; mret false
    else
      match parse_request_head (c_inbox c) (c_head c) with
      | (head, Ok false) =>
          let c := c <| c_head := head |> in
          put_client fd (if c_client_eof c then c <| c_phase := Phase_Closing |> else c) ;; mret false
      | (head, Err e) => put_client fd (c <| c_head := head |>) ;; fail_codec fd e ;; mret false
      | (head, Ok true) =>
          put_client fd (c <| c_head := head |>) ;; route_request (open_upstream advance n) fd ;; mret false
      end).

(** The loop of [advance] and the [drive] that ends it. *)
Fixpoint advance (n : nat) (fd : Z) : M unit :=
  match n with
  | O => out_of_fuel
  | S n' =>
      s ← slot fd;
      match s with
      | Slot_Client c =>
          progressed ←
            match c_phase c with
            | Phase_Head => parse_request (advance n') n' fd
            | Phase_Exchanging | Phase_Relaying => pump_bodies (advance n') n' fd
            | Phase_Tunnel => pump_tunnel fd
            | Phase_Connecting | Phase_Closing => mret false
            end;
          if (progressed : bool) then advance n' fd else drive n' fd
      | _ => mret tt
      end
  end.

(** ** Completions *)

Record Completion := MkCompletion {
  user : u64;
  (** The count, or the raw OS error. *)
  answer : result (option Z) Z;
  buf : option bytes;
}.

Definition on_client_read (n : nat) (fd : Z) (cp : Completion) : M unit :=
  match buf cp with
  | None => mret tt
  | Some buf =>
      live ← with_client fd false (fun c =>
        let c := c <| c_reading := false |> in
        c ← match answer cp with
            | Ok k =>
                if 0 <? k then
                  input ← slice_to buf k;
                  c ← ingest c input;
                  if bool_decide (c_preface c = None) then
                    deadline ← deadline_in CLIENT_IDLE; mret (c <| c_deadline := deadline |>)
                  else mret c
                else
                  let c := c <| c_client_eof := true |> in
                  match c_tls c with
                  | Some session =>
                      if established session then mret c
                      else count TlsHandshakeFailure ;; mret (c <| c_tls := Some (kill session) |>)
                  | None => mret c
                  end
            | Err _ =>
                mret (c <| c_client_eof := true |> <| c_outbox := [] |>
                        <| c_tls := (fun s => kill (s <| wire_out := [] |>)) <$> c_tls c |>
                        <| c_phase := Phase_Closing |>)
            end;
        put_client fd c ;; mret true);
      if (live : bool) then advance n fd else mret tt
  end.

Definition on_client_write (n : nat) (fd : Z) (cp : Completion) : M unit :=
  live ← with_client fd false (fun c =>
    let c := c <| c_writing := false |> in
    put_client fd
      (if is_ok (answer cp) then c else c <| c_outbox := [] |> <| c_phase := Phase_Closing |>) ;;
    mret true);
  if (live : bool) then advance n fd else mret tt.

Definition on_upstream_eof (n : nat) (down : Z) : M unit :=
  with_client down tt (fun c =>
    if bool_decide (c_phase c = Phase_Tunnel) then
      put_client down (c <| c_upstream_eof := true |> <| c_up_reading := false |>) ;; advance n down
    else if c_response_head_seen c && match c_response_body c with Body_UntilClose => true | _ => false end then
      put_client down (c <| c_outbox := c_outbox c ++ c_up_inbox c |> <| c_up_inbox := [] |>
                         <| c_response_body := Body_Done |> <| c_upstream_keep_alive := false |>) ;;
      finish_response down ;;
      advance n down
    else
      put_client down c ;; upstream_failed (advance n) n down).

Definition on_upstream_read (n : nat) (up : Z) (cp : Completion) : M unit :=
  match buf cp with
  | None => mret tt
  | Some buf =>
      s ← slot up;
      match s with
      | Slot_Idle a =>
          modify (fun w => w <| w_pool := (pool_remove a up (w_pool w)).2 |>) ;; close up
      | Slot_Upstream down =>
          live ← with_client down false (fun c =>
            let c := c <| c_up_reading := false |> in
            c ← match answer cp with
                | Ok k =>
                    if 0 <? k then
                      input ← slice_to buf k; mret (c <| c_up_inbox := c_up_inbox c ++ input |>)
                    else mret c
                | Err _ => mret c
                end;
            put_client down c ;;
            mret true);
          if (live : bool) then
            match answer cp with
            | Ok k => if 0 <? k then advance n down else on_upstream_eof n down
            | Err _ => upstream_failed (advance n) n down
            end
          else mret tt
      | _ => mret tt
      end
  end.

Definition on_upstream_write (n : nat) (up : Z) (cp : Completion) : M unit :=
  s ← slot up;
  match s with
  | Slot_Upstream down =>
      let failed := negb (is_ok (answer cp)) in
      live ← with_client down false (fun c =>
        let c := c <| c_up_writing := false |> in
        put_client down (if failed then c else c <| c_up_ready := true |>) ;; mret true);
      if (live : bool) then
        if failed then upstream_failed (advance n) n down else advance n down
      else mret tt
  | _ => mret tt
  end.

(** The helper's note about a connect. *)
Definition on_connected (n : nat) (up err : Z) : M unit :=
  s ← slot up;
  match s with
  | Slot_Upstream down =>
      take_client down (put_slot up Slot_Empty ;; sys_close up) (fun c =>
        let c := c <| c_up_borrowed := false |> in
        if err =? 0 then
          put_client down (c <| c_up_ready := true |> <| c_phase := Phase_Exchanging |>) ;; advance n down
        else
          put_slot up Slot_Empty ;; sys_close up ;; count ConnectFailure ;;
          put_client down (c <| c_upstream := None |>) ;;
          retry_or_fail n (open_upstream (advance n) n) down)
  | _ => put_slot up Slot_Empty ;; sys_close up
  end.

Definition start_client (n : nat) (fd : Z) (tls : bool) : M unit :=
  nonblocking ← gets (fun w => nonblocking_ok (w_log w) fd);
  if negb nonblocking then sys_close fd
  else
    peer ← gets (fun w => default (IpV4 [0; 0; 0; 0]) (peer_of (w_log w) fd));
    bump_generation fd ;;
    deadline ← deadline_in CLIENT_IDLE;
    config ← gets w_config;
    let c := (Conn_new peer (if tls then Some Session_new else None)) <| c_deadline := deadline |> in
    c ← match cfg_proxy_protocol config with
        | None => mret c
        | Some timeout =>
            deadline ← deadline_in timeout;
            mret (c <| c_preface := Some [] |> <| c_deadline := deadline |>)
        end;
    put_client fd c ;;
    count ConnectionOpened ;;
    drive n fd.

(** ** Listeners *)

Definition EINTR : Z := 4.
Definition EINVAL : Z := 22.
Definition ECONNABORTED : Z := 103.

(** An accept error that says nothing about the listener. *)
Definition accept_raced (e : option Z) : bool :=
  match e with
  | Some code => existsb (Z.eqb code) [ECONNABORTED; ECONNRESET; EINVAL; EINTR]
  | None => false
  end.

Definition drive_admin (fd : Z) : M unit :=
  with_admin fd tt (fun a =>
    a ← (if negb (a_writing a) && negb (bool_decide (a_outbox a = [])) then
           let buf := a_outbox a in
           let a := a <| a_outbox := [] |> in
           queued ← submit (Op_Write fd buf) kind.ADMIN_WRITE fd;
           mret (if (queued : bool) then a <| a_writing := true |> else a)
         else if negb (a_reading a) && negb (a_writing a) && bool_decide (a_outbox a = []) then
           queued ← submit (Op_Read fd) kind.ADMIN_READ fd;
           mret (if (queued : bool) then a <| a_reading := true |> else a)
         else mret a);
    put_admin fd a).

Definition start_admin (fd : Z) : M unit :=
  nonblocking ← gets (fun w => nonblocking_ok (w_log w) fd);
  if negb nonblocking then sys_close fd
  else
    bump_generation fd ;;
    put_admin fd (MkAdminConn [] [] Head_default false false false) ;;
    drive_admin fd.

Definition on_accept (n : nat) (listener : Z) (cp : Completion) (role : Role) : M (result unit unit) :=
  match (match answer cp with
         | Ok fd => Some (Some fd)
         | Err e => if accept_raced e then Some None else None
         end) with
  | None => mret (Ok tt)
  | Some accepted =>
      draining ← gets (fun w => bool_decide (is_Some (w_drain_deadline w)));
      if (draining : bool) then
        match accepted with Some fd => sys_close fd | None => mret tt end ;; mret (Ok tt)
      else
        armed ← arm_accept listener (accept_kind role);
        match armed, accepted with
        | Err e, _ => mret (Err e)
        | Ok _, None => mret (Ok tt)
        | Ok _, Some fd =>
            match role with Admin => start_admin fd | Client tls => start_client n fd tls end ;; mret (Ok tt)
        end
  end.

(** [while partial.len() >= 4]: the descriptor numbers, and what is left. *)
Fixpoint split_numbers (fuel : nat) (partial : bytes) : list Z * bytes :=
  match fuel, partial with
  | S fuel', b0 :: b1 :: b2 :: b3 :: rest =>
      let '(numbers, rest) := split_numbers fuel' rest in
      (as_i32 (from_le_bytes [b0; b1; b2; b3]) :: numbers, rest)
  | _, _ => ([], partial)
  end.

(** The channel's own buffer, the first that is filed under the descriptor. *)
Fixpoint feed_channel (fd : Z) (input : bytes) (channels : list (Z * bytes))
    : list Z * list (Z * bytes) :=
  match channels with
  | [] => ([], [])
  | (channel, partial) :: rest =>
      if channel =? fd then
        let partial := partial ++ input in
        let '(numbers, partial) := split_numbers (length partial) partial in
        (numbers, (channel, partial) :: rest)
      else
        let '(numbers, rest) := feed_channel fd input rest in (numbers, (channel, partial) :: rest)
  end.

Definition on_intake (n : nat) (fd : Z) (cp : Completion) (tls : bool) : M (result unit unit) :=
  match buf cp with
  | None => mret (Ok tt)
  | Some buf =>
      match answer cp with
      | Ok k =>
          if 0 <? k then
            channels ← gets w_intake_partial;
            input ← slice_to buf k;
            let '(ready, channels) := feed_channel fd input channels in
            modify (fun w => w <| w_intake_partial := channels |>) ;;
            draining ← gets (fun w => bool_decide (is_Some (w_drain_deadline w)));
            if (draining : bool) then for_each sys_close ready ;; mret (Ok tt)
            else for_each (fun accepted => start_client n accepted tls) ready ;; arm_intake fd tls
          else modify (fun w => w <| w_shutdown := true |>) ;; mret (Ok tt)
      | Err _ => modify (fun w => w <| w_shutdown := true |>) ;; mret (Ok tt)
      end
  end.

(** ** The clock *)

(** One descriptor of the sweep of [on_tick]. *)
Definition sweep_slot (n : nat) (now : Z) (fd : Z) : M unit :=
  s ← gets (fun w => slot_at w fd);
  match s with
  | Slot_Client c =>
      if match c_deadline c with Some d => d <=? now | None => false end then
        touch fd ;;
        match c_phase c with
        | Phase_Exchanging | Phase_Connecting => count Timeout ;; fail fd 504 TIMEOUT true ;; drive n fd
        | Phase_Head => count ConnectionClosed ;; close fd
        | Phase_Relaying | Phase_Closing | Phase_Tunnel =>
            config ← gets w_config;
            extended ← add_instant now (cfg_response_timeout config);
            put_client fd (c <| c_deadline := Some extended |>)
        end
      else mret tt
  | _ => mret tt
  end.

Definition all_slots : M (list Z) := gets (fun w => map Z.of_nat (seq 0 (w_high_water w))).

Definition on_tick `{HashOrder} (n : nat) : M unit :=
  now ← clock;
  late ← gets (fun w => match w_drain_deadline w with
                        | Some d => (0 <? w_drain_inflight w)%nat && (d <=? now)
                        | None => false
                        end);
  if (late : bool) then modify (fun w => w <| w_drain_expired := true |>)
  else
    pool ← gets w_pool;
    let '(expired, pool) := pool_expire now [] pool in
    modify (fun w => w <| w_pool := pool |>) ;;
    for_each close expired ;;
    fds ← all_slots;
    for_each (sweep_slot n now) fds.

Definition on_note `{HashOrder} (n : nat) (note : Note) : M unit :=
  match note with Tick => on_tick n | Connected fd err => on_connected n fd err end.

Definition on_notify `{HashOrder} (n : nat) (cp : Completion) : M (result unit unit) :=
  match buf cp, answer cp with
  | Some buf, Ok k =>
      if 0 <? k then
        partial ← gets w_notes;
        input ← slice_to buf k;
        let '(notes, partial) := Helper.feed partial input in
        modify (fun w => w <| w_notes := partial |>) ;;
        for_each (on_note n) notes ;;
        arm_notify
      else mret (Ok tt)
  | _, _ => mret (Ok tt)
  end.

(** ** Admin connections *)

Definition write_admin (status : u16) (body : bytes) (content_type : option str) (head : bool) : bytes :=
  let headers := [(bstr "Content-Type", default (bstr "text/plain; charset=utf-8") content_type);
                  (bstr "Connection", bstr "close")] in
  let '(written, ok) :=
    if head then response_head_only status headers (length body) else response status headers body in
  written ++ (if (ok : bool) then [] else BARE_500).

Definition admin_response (a : AdminConn) : M bytes :=
  read_spans (a_head a) (a_inbox a) ;;
  let method := default [] (head_method (a_head a) (a_inbox a)) in
  let target := default [] (head_target (a_head a) (a_inbox a)) in
  let path := default [] (head (split_on (chr "?") target)) in
  let head_only := eq_ignore_ascii_case method (bstr "HEAD") in
  metrics ← gets (fun w => metrics_text (w_log w));
  is_ready ← gets (fun w => ready (w_log w));
  mret
    (if negb (eq_ignore_ascii_case method (bstr "GET")) && negb head_only then
       write_admin 405 (line (bstr "method not allowed")) None head_only
     else if bool_decide (path = bstr "/metrics") then
       write_admin 200 metrics (Some (bstr "text/plain; version=0.0.4; charset=utf-8")) head_only
     else if bool_decide (path = bstr "/healthz") then write_admin 200 (line (bstr "ok")) None head_only
     else if bool_decide (path = bstr "/readyz") then
       if (is_ready : bool) then write_admin 200 (line (bstr "ready")) None head_only
       else write_admin 503 (line (bstr "not ready")) None head_only
     else write_admin 404 (line (bstr "not found")) None head_only).

Definition on_admin_read (fd : Z) (cp : Completion) : M unit :=
  match buf cp with
  | None => mret tt
  | Some buf =>
      with_admin fd tt (fun a =>
        let a := a <| a_reading := false |> in
        match answer cp with
        | Err _ => close fd
        | Ok k =>
            if negb (0 <? k) then close fd
            else
              input ← slice_to buf k;
              let a := a <| a_inbox := a_inbox a ++ input |> in
              let '(head, parsed) := parse_request_head (a_inbox a) (a_head a) in
              let a := a <| a_head := head |> in
              a ← match parsed with
                  | Ok false => mret a
                  | Err _ =>
                      mret (a <| a_outbox := write_static (a_outbox a) 400 (line (bstr "bad request")) true |>)
                  | Ok true =>
                      response ← admin_response a;
                      mret (a <| a_outbox := a_outbox a ++ response |>)
                  end;
              put_admin fd a ;; drive_admin fd
        end)
  end.

Definition on_admin_write (fd : Z) (cp : Completion) : M unit :=
  with_admin fd tt (fun a =>
    let a := a <| a_writing := false |> in
    let done_ := bool_decide (a_outbox a = []) || negb (is_ok (answer cp)) in
    put_admin fd a ;;
    if done_ then close fd else drive_admin fd).

(** ** Dispatch *)

Definition dispatch `{HashOrder} (n : nat) (cp : Completion) : M (result unit unit) :=
  let k := tag_kind (user cp) in
  let fd := tag_fd (user cp) in
  current ← generation fd;
  if negb (k =? kind.CLOSE) && negb (tag_generation (user cp) =? current) then
    (if existsb (Z.eqb k) [kind.ACCEPT; kind.ACCEPT_TLS; kind.ADMIN_ACCEPT] then
       match answer cp with Ok accepted => sys_close accepted | Err _ => mret tt end
     else mret tt) ;;
    mret (Ok tt)
  else if k =? kind.ACCEPT then on_accept n fd cp (Client false)
  else if k =? kind.ACCEPT_TLS then on_accept n fd cp (Client true)
  else if k =? kind.ADMIN_ACCEPT then on_accept n fd cp Admin
  else if k =? kind.INTAKE then on_intake n fd cp false
  else if k =? kind.INTAKE_TLS then on_intake n fd cp true
  else if k =? kind.NOTIFY then on_notify n cp
  else if k =? kind.DOWN_READ then on_client_read n fd cp ;; mret (Ok tt)
  else if k =? kind.DOWN_WRITE then on_client_write n fd cp ;; mret (Ok tt)
  else if k =? kind.UP_READ then on_upstream_read n fd cp ;; mret (Ok tt)
  else if k =? kind.UP_WRITE then on_upstream_write n fd cp ;; mret (Ok tt)
  else if k =? kind.ADMIN_READ then on_admin_read fd cp ;; mret (Ok tt)
  else if k =? kind.ADMIN_WRITE then on_admin_write fd cp ;; mret (Ok tt)
  else mret (Ok tt).

(** ** Shutdown *)

Definition drain_client (fd : Z) : M unit :=
  s ← slot fd;
  match s with
  | Slot_Client c =>
      let serving :=
        bool_decide (c_phase c = Phase_Connecting) || bool_decide (c_phase c = Phase_Exchanging)
        || bool_decide (c_phase c = Phase_Relaying) || c_writing c || has_pending_out c in
      let keep := serving && negb (bool_decide (c_phase c = Phase_Tunnel)) in
      if negb keep then count ConnectionClosed ;; close fd
      else
        let c := c <| c_client_keep_alive := false |> in
        let c := if bool_decide (c_phase c = Phase_Head) then c <| c_phase := Phase_Closing |> else c in
        put_client fd (c <| c_drain_counted := true |>) ;;
        modify (fun w => w <| w_drain_inflight := S (w_drain_inflight w) |>)
  | _ => mret tt
  end.

Definition drain_admin (fd : Z) : M unit :=
  s ← slot fd;
  match s with
  | Slot_Admin a =>
      if a_writing a || negb (bool_decide (a_outbox a = [])) then
        put_admin fd (a <| a_drain_counted := true |>) ;;
        modify (fun w => w <| w_drain_inflight := S (w_drain_inflight w) |>)
      else close fd
  | _ => mret tt
  end.

Definition drain_slot (fd : Z) : M unit :=
  s ← gets (fun w => slot_at w fd);
  match s with Slot_Client _ => drain_client fd | Slot_Admin _ => drain_admin fd | _ => mret tt end.

(** [if !self.pool.is_empty()]: close every idle upstream. *)
Definition close_idle `{HashOrder} : M unit :=
  pool ← gets w_pool;
  if pool_is_empty pool then mret tt
  else
    let '(idle, pool) := pool_drain [] pool in
    modify (fun w => w <| w_pool := pool |>) ;; for_each close idle.

Definition close_listeners : M unit :=
  intakes ← gets w_intakes;
  modify (fun w => w <| w_intakes := [] |>) ;;
  for_each close (map i_fd intakes).
Definition close_admin : M unit :=
  admin ← gets w_admin;
  modify (fun w => w <| w_admin := None |>) ;;
  match admin with Some fd => close fd | None => mret tt end.

Definition begin_drain `{HashOrder} : M unit :=
  config ← gets w_config;
  deadline ← deadline_in (cfg_shutdown_grace config);
  modify (fun w => w <| w_drain_deadline := deadline |>) ;;
  close_listeners ;;
  modify (fun w => w <| w_intake_partial := [] |>) ;;
  close_admin ;;
  close_idle ;;
  fds ← all_slots;
  for_each drain_slot fds.

(** [teardown] up to the wait that discards the cancelled operations. *)
Definition teardown_slot (fd : Z) : M unit :=
  s ← gets (fun w => slot_at w fd);
  match s with
  | Slot_Client _ | Slot_Admin _ | Slot_Upstream _ | Slot_Idle _ => close fd
  | _ => mret tt
  end.
Definition teardown `{HashOrder} : M unit :=
  close_idle ;;
  fds ← all_slots;
  for_each teardown_slot fds ;;
  intakes ← gets w_intakes;
  for_each close (map i_fd intakes) ;;
  close_admin ;;
  notify ← gets w_notify;
  close notify.

Inductive Turn := Turn_Continue | Turn_Break | Turn_Failed.

(** The [for completion in done.drain(..)] loop, left by the first error. *)
Fixpoint dispatch_all `{HashOrder} (n : nat) (completions : list Completion) : M Turn :=
  match completions with
  | [] => mret Turn_Continue
  | cp :: rest =>
      r ← dispatch n cp;
      match r with Ok _ => dispatch_all n rest | Err _ => mret Turn_Failed end
  end.

(** What [run] arms before its loop. *)
Fixpoint arm_intakes (intakes : list Intake) : M (result unit unit) :=
  match intakes with
  | [] => mret (Ok tt)
  | i :: rest =>
      armed ← (if i_channel i then
                 modify (fun w => w <| w_intake_partial := w_intake_partial w ++ [(i_fd i, [])] |>) ;;
                 arm_intake (i_fd i) (i_tls i)
               else arm_accept (i_fd i) (if i_tls i then kind.ACCEPT_TLS else kind.ACCEPT));
      match armed with Ok _ => arm_intakes rest | Err e => mret (Err e) end
  end.
Definition arm_all : M (result unit unit) :=
  armed ← arm_notify;
  match armed with
  | Err e => mret (Err e)
  | Ok _ =>
      intakes ← gets w_intakes;
      armed ← arm_intakes intakes;
      match armed with
      | Err e => mret (Err e)
      | Ok _ =>
          admin ← gets w_admin;
          match admin with Some fd => arm_accept fd kind.ADMIN_ACCEPT | None => mret (Ok tt) end
      end
  end.

(** One turn of [run]'s loop: [stop] is the shared flag, [completions] what
    [wait] delivers ([None]: its error). *)
Definition turn `{HashOrder} (n : nat) (stop : bool) (completions : option (list Completion)) : M Turn :=
  begin ← gets (fun w => negb (bool_decide (is_Some (w_drain_deadline w))) && (stop || w_shutdown w));
  when begin begin_drain ;;
  over ← gets (fun w => bool_decide (is_Some (w_drain_deadline w))
                        && ((w_drain_inflight w =? 0)%nat || w_drain_expired w));
  if (over : bool) then mret Turn_Break
  else
    match completions with
    | None => mret Turn_Failed
    | Some [] => mret Turn_Break
    | Some completions => dispatch_all n completions
    end.

(** How [run] ends, or that it waits for the next completions. *)
Inductive RunEnd := Run_Ok | Run_TimedOut | Run_Failed | Run_Waiting.

(** [run]'s loop and what follows it, over what each turn finds: the flag, and
    what [wait] delivers. *)
Fixpoint run_turns `{HashOrder} (n : nat) (script : list (bool * option (list Completion))) : M RunEnd :=
  match script with
  | [] => mret Run_Waiting
  | (stop, completions) :: rest =>
      r ← turn n stop completions;
      match r with
      | Turn_Continue => run_turns n rest
      | Turn_Failed => mret Run_Failed
      | Turn_Break =>
          teardown ;;
          expired ← gets w_drain_expired;
          mret (if (expired : bool) then Run_TimedOut else Run_Ok)
      end
  end.

Definition run `{HashOrder} (n : nat) (script : list (bool * option (list Completion))) : M RunEnd :=
  armed ← arm_all;
  match armed with Err _ => mret Run_Failed | Ok _ => run_turns n script end.
End worker.
