(* ===== verification/Serving.v ===== *)
(** Reasoning about the handlers of a serving core.

    [returns]: a family of computations, indexed by fuel, that settles on one
    outcome from some fuel on, a result or a panic that the environment has
    [caused]; its rules follow the monad, so no proof counts fuel.  [Inv]: what
    a core keeps true of its slots between any two steps. *)

From S2P Require Import Prelude RouterTypes Canary Stats Backends Table Rng Helper Limits Pool NetText Codec Chunked Head Forwarding Tls Mirror Conn Reactor Worker.

Create HintDb serving.

Section serving.
Context {E : RegexEngine} {TS : TlsStack} {HT : HttpTypes} {Wd : World} {Enc : Encoder}.

(** ** Computations that return *)

(** The timeouts of a configuration, and the idle time of a client. *)
Definition timeouts (config : Config) : list Z :=
  [CLIENT_IDLE; cfg_connect_timeout config; cfg_response_timeout config; cfg_shutdown_grace config]
  ++ option_list (cfg_proxy_protocol config).

Lemma bind_done {A B} (m : M A) (k : A -> M B) w b w' :
  (m ≫= k) w = Done b w' -> exists a w1, m w = Done a w1 /\ k a w1 = Done b w'.
Proof. unfold mbind, M_bind. destruct (m w) as [a w1| |]; [|done..]. by exists a, w1. Qed.

(** What a panic is due to: a clock reading and a timeout with no sum, a
    descriptor that is none, a completion that claims more bytes than its
    buffer has, a head longer than what is left of its buffer.  The other
    panics have no cause. *)
Definition caused (config : Config) (p : Panic) : Prop :=
  match p with
  | InstantOverflow now timeout =>
      (exists l, now = clock_at l) /\ timeout ∈ timeouts config /\ INSTANT_MAX < now + timeout
  | BadIndex fd => fd < 0
  | SliceEnd end_ len => Z.of_nat len < end_
  | DrainEnd end_ len => (len < end_)%nat
  | SpanRange | Unreachable => False
  end.

(** A result with [Q], the configuration unchanged, or a panic with its
    cause. *)
Definition settles {A} (w : Worker) (Q : A -> Worker -> Prop) (o : Outcome A) : Prop :=
  match o with
  | Done a w' => w_config w' = w_config w /\ Q a w'
  | Panicked p => caused (w_config w) p
  | OutOfFuel => False
  end.

Definition returns {A} (h : nat -> M A) (w : Worker) (Q : A -> Worker -> Prop) : Prop :=
  exists n o, (forall m, (n <= m)%nat -> h m w = o) /\ settles w Q o.

Lemma settles_bind {A B} (m : M A) (k : A -> M B) w P Q :
  settles w P (m w) -> (forall a w', w_config w' = w_config w -> P a w' -> settles w' Q (k a w')) ->
  settles w Q ((m ≫= k) w).
Proof.
  unfold settles, mbind, M_bind. destruct (m w) as [a w1|p|]; [|done..]. intros [Hc HP] Hk.
  specialize (Hk a w1 Hc HP). rewrite Hc in Hk. by destruct (k a w1).
Qed.
Lemma settles_mono {A} w (P Q : A -> Worker -> Prop) o :
  settles w P o -> (forall a w', P a w' -> Q a w') -> settles w Q o.
Proof. destruct o; simpl; naive_solver. Qed.

Lemma returns_settled {A} (m : M A) w Q : settles w Q (m w) -> returns (fun _ => m) w Q.
Proof. intros Hm. by exists 0%nat, (m w). Qed.

Lemma returns_ret {A} (a : A) w (Q : A -> Worker -> Prop) : Q a w -> returns (fun _ => mret a) w Q.
Proof. intros HQ. by apply returns_settled. Qed.

Lemma returns_bind {A B} (h : nat -> M A) (k : nat -> A -> M B) w P Q :
  returns h w P -> (forall a w', P a w' -> returns (fun n => k n a) w' Q) ->
  returns (fun n => h n ≫= k n) w Q.
Proof.
  intros (n1&o&H1&Hs) Hk. destruct o as [a w1|p|]; [|exists n1, (Panicked p)|done].
  - destruct Hs as [Hc HP]. destruct (Hk _ _ HP) as (n2&o&H2&HQ).
    exists (Nat.max n1 n2), o. split.
    + intros m Hm. unfold mbind, M_bind. rewrite H1 by lia. apply H2. lia.
    + unfold settles in *. rewrite Hc in HQ. by destruct o.
  - split; [|done]. intros m Hm. unfold mbind, M_bind. by rewrite H1.
Qed.

Lemma returns_mono {A} (h : nat -> M A) w (P Q : A -> Worker -> Prop) :
  returns h w P -> (forall a w', P a w' -> Q a w') -> returns h w Q.
Proof. intros (n&o&H&HP) HPQ. exists n, o. split; [done|by eapply settles_mono]. Qed.

Lemma returns_now {A} (m : M A) w a w' (Q : A -> Worker -> Prop) :
  m w = Done a w' -> w_config w' = w_config w -> Q a w' -> returns (fun _ => m) w Q.
Proof. intros Hm Hc HQ. apply returns_settled. by rewrite Hm. Qed.

(** A check whose failure is a panic. *)
Lemma returns_assert {B} b p (k : nat -> unit -> M B) w Q :
  (b = false -> caused (w_config w) p) -> (b = true -> returns (fun n => k n tt) w Q) ->
  returns (fun n => assert b p ≫= k n) w Q.
Proof.
  intros Hp Hk. destruct b; [by apply Hk|]. exists 0%nat, (Panicked p). split; [done|by apply Hp].
Qed.

Lemma returns_gets {A B} (f : Worker -> A) (k : nat -> A -> M B) w Q :
  returns (fun n => k n (f w)) w Q -> returns (fun n => gets f ≫= k n) w Q.
Proof. done. Qed.

(** One unit of fuel spent, and fuel renamed. *)
Lemma returns_fuel {A} (h : nat -> M A) w Q : returns (fun n => h (S n)) w Q -> returns h w Q.
Proof.
  intros (n&o&H&HQ). exists (S n), o. split; [|done]. intros m Hm.
  destruct m as [|m]; [lia|]. apply H. lia.
Qed.
Lemma returns_more {A} (h : nat -> M A) w Q : returns h w Q -> returns (fun n => h (S n)) w Q.
Proof. intros (n&o&H&HQ). exists n, o. split; [|done]. intros m Hm. apply H. lia. Qed.

Lemma returns_for_each {A} (f : nat -> A -> M unit) (I : Worker -> Prop) l w :
  (forall x w, I w -> returns (fun n => f n x) w (fun _ => I)) -> I w ->
  returns (fun n => for_each (f n) l) w (fun _ => I).
Proof.
  intros Hf. revert w. induction l as [|x l IH]; intros w Hw; simpl; [by apply returns_ret|].
  eapply returns_bind; [by apply Hf|]. intros [] w' Hw'. by apply IH.
Qed.

(** ** The invariant of a connection *)

Definition body_ok (b : Body) : Prop :=
  match b with Body_Chunked scan => scan_wf scan | _ => True end.

(** What no handler of a completion changes: the configuration, and that the
    core is draining.  [s_draining] may be left [false] for a core that drains:
    less is promised of it then. *)
Record Setting := MkSetting { s_config : Config; s_draining : bool }.
Definition draining (w : Worker) : bool := bool_decide (is_Some (w_drain_deadline w)).
(** The clock has been read at the drain's deadline or after it. *)
Definition grace_over (w : Worker) : Prop :=
  exists deadline now, w_drain_deadline w = Some deadline /\ Clock now ∈ w_log w /\ deadline <= now.
Definition setting_ok (cfg : Setting) (w : Worker) : Prop :=
  w_config w = s_config cfg /\ (s_draining cfg = true -> draining w = true)
  /\ (w_drain_expired w = true -> grace_over w).
(** What the handlers leave of the drain's clock. *)
Definition drain_clock (w : Worker) : option Z * bool := (w_drain_deadline w, w_drain_expired w).
Lemma drain_clock_draining w w' : drain_clock w' = drain_clock w -> draining w' = draining w.
Proof. unfold draining. by intros [= -> _]. Qed.
Lemma drain_clock_setting cfg w w' :
  w_config w' = w_config w -> drain_clock w' = drain_clock w -> w_log w ⊆ w_log w' ->
  setting_ok cfg w -> setting_ok cfg w'.
Proof.
  intros Hc Hd Hl (H1&H2&H3). pose proof (drain_clock_draining _ _ Hd) as Hd'. injection Hd as Hd1 Hd2.
  unfold setting_ok, grace_over in *. rewrite Hc, Hd', Hd1, Hd2. split_and!; [done|done|].
  intros He. destruct (H3 He) as (d&now&?&?&?). exists d, now. auto.
Qed.

(** The bodies' cursors are sound; a handover is only asked for where it is
    configured; a request that cannot be sent again has one target at most; a
    response under way is committed; and a draining core counts it. *)
Definition conn_ok (cfg : Setting) (c : Conn) : Prop :=
  body_ok (c_request_body c) /\ body_ok (c_response_body c)
  /\ (c_hand_off c = true -> cfg_dispatch (s_config cfg) = true)
  /\ (c_replayable c = false -> (length (c_targets c) <= 1)%nat)
  /\ (c_response_head_seen c = true -> c_committed c = true)
  /\ (s_draining cfg = true -> c_drain_counted c = true).

(** What the drain counts of a slot. *)
Definition tally (counted : bool) : nat := if counted then 1%nat else 0%nat.
Definition slot_tally (s : Slot) : nat :=
  match s with
  | Slot_Client c => tally (c_drain_counted c)
  | Slot_Admin a => tally (a_drain_counted a)
  | _ => 0%nat
  end.
Definition counted (m : gmap Z Slot) : nat := map_fold (fun _ s n => (slot_tally s + n)%nat) 0%nat m.

(** What a slot may hold. *)
Definition fits_slot (cfg : Setting) (s : Slot) : Prop :=
  match s with
  | Slot_Client c => conn_ok cfg c
  | Slot_Admin a => s_draining cfg = true -> a_drain_counted a = true
  | _ => True
  end.

(** A core at rest has [d = 0]; while a handler holds a connection outside its
    slot, [d] is what that connection counts for. *)
Record Inv (cfg : Setting) (d : nat) (w : Worker) : Prop := {
  inv_setting : setting_ok cfg w;
  inv_slots : forall fd, fits_slot cfg (slot_at w fd);
  inv_high : forall fd, slot_at w fd <> Slot_Empty -> 0 <= fd < Z.of_nat (w_high_water w);
  inv_drain : (counted (w_slots w) + d <= w_drain_inflight w)%nat;
}.

(** What is left to read of a connection: what the loop of [advance] eats. *)
Definition weight (c : Conn) : nat := (2 * length (c_inbox c) + length (c_up_inbox c))%nat.
Definition rank (p : Phase) : nat :=
  match p with Phase_Exchanging | Phase_Relaying => 1%nat | _ => 0%nat end.
Definition slot_weight (w : Worker) (fd : Z) : nat :=
  match slot_at w fd with Slot_Client c => S (weight c) | _ => 0%nat end.
Definition slot_measure (w : Worker) (fd : Z) : nat :=
  match slot_at w fd with Slot_Client c => S (weight c + rank (c_phase c)) | _ => 0%nat end.

(** [Inv], and how much the connection of [fd] holds at most. *)
Definition At (cfg : Setting) (d : nat) (fd : Z) (k : nat) (w : Worker) : Prop :=
  Inv cfg d w /\ (slot_weight w fd <= k)%nat.

(** ** Lemmas: the count *)

Lemma counted_insert m fd s :
  (counted (<[fd := s]> m) + slot_tally (default Slot_Empty (m !! fd)) = counted m + slot_tally s)%nat.
Proof.
  assert (Hfresh : forall (m : gmap Z Slot) x, m !! fd = None -> counted (<[fd := x]> m) = (slot_tally x + counted m)%nat).
  { intros m' x Hm. unfold counted. rewrite map_fold_insert_L; [done| |done]. intros. lia. }
  destruct (m !! fd) as [old|] eqn:Hm; simpl.
  - rewrite <- (insert_id _ _ _ Hm) at 2. rewrite <- (insert_delete_eq m fd old), <- (insert_delete_eq m fd s).
    rewrite !Hfresh by apply lookup_delete_eq. lia.
  - rewrite Hfresh by done. lia.
Qed.

Lemma slot_at_insert w w' fd s fd' :
  w_slots w' = <[fd := s]> (w_slots w) -> slot_at w' fd' = if decide (fd' = fd) then s else slot_at w fd'.
Proof.
  unfold slot_at. intros ->. case_decide; [subst; by rewrite lookup_insert_eq|by rewrite lookup_insert_ne].
Qed.

(** ** Steps that leave the slots alone *)

Definition quiet (w w' : Worker) : Prop :=
  w_slots w' = w_slots w /\ w_config w' = w_config w /\ w_drain_inflight w' = w_drain_inflight w
  /\ drain_clock w' = drain_clock w /\ (w_high_water w <= w_high_water w')%nat
  /\ w_log w ⊆ w_log w'.

Lemma quiet_slot w w' fd : quiet w w' -> slot_at w' fd = slot_at w fd.
Proof. unfold slot_at. by intros (->&_). Qed.
Lemma quiet_inv cfg d w w' : quiet w w' -> Inv cfg d w -> Inv cfg d w'.
Proof.
  intros Hq [Hc Hs Hh Hd]. pose proof Hq as (Hq1&Hq2&Hq3&Hq4&Hq5&Hq6). split; [| | |by rewrite Hq1, Hq3].
  - by eapply drain_clock_setting.
  - intros fd. rewrite (quiet_slot _ _ _ Hq). apply Hs.
  - intros fd. rewrite (quiet_slot _ _ _ Hq). intros Hne. specialize (Hh fd Hne). lia.
Qed.
Lemma quiet_at cfg d fd k w w' : quiet w w' -> At cfg d fd k w -> At cfg d fd k w'.
Proof.
  intros Hq [Hi Hk]. split; [by eapply quiet_inv|]. unfold slot_weight in *. by rewrite (quiet_slot _ _ _ Hq).
Qed.
Lemma quiet_refl w : quiet w w.
Proof. done. Qed.
Lemma quiet_trans w1 w2 w3 : quiet w1 w2 -> quiet w2 w3 -> quiet w1 w3.
Proof.
  intros (?&?&?&?&?&Hl) (?&?&?&?&?&Hl'). unfold quiet. split_and!; try congruence; [lia|by transitivity (w_log w2)].
Qed.

(** A computation that returns and is quiet, whatever it answers. *)
Definition hushed {A} (m : M A) (P : A -> Prop) : Prop :=
  forall w, settles w (fun a w' => quiet w w' /\ P a) (m w).

Lemma hushed_ret {A} (a : A) (P : A -> Prop) : P a -> hushed (mret a) P.
Proof. by intros HP w. Qed.
Lemma hushed_bind {A B} (m : M A) (k : A -> M B) P Q :
  hushed m P -> (forall a, P a -> hushed (k a) Q) -> hushed (m ≫= k) Q.
Proof.
  intros Hm Hk w. eapply settles_bind; [apply Hm|]. intros a w1 _ [Hq1 HP].
  eapply settles_mono; [by apply Hk|]. intros b w2 [Hq2 HQ]. split; [by eapply quiet_trans|done].
Qed.
Lemma hushed_gets {A} (f : Worker -> A) : hushed (gets f) (fun _ => True).
Proof. by intros w. Qed.
Lemma hushed_modify f : (forall w, quiet w (f w)) -> hushed (modify f) (fun _ => True).
Proof. intros Hf w. pose proof (Hf w) as Hq. split; [apply Hq|by split]. Qed.
(** One that leaves the log alone, or appends to it. *)
Lemma quiet_unlogged w w' :
  w_slots w' = w_slots w -> w_config w' = w_config w -> w_drain_inflight w' = w_drain_inflight w ->
  drain_clock w' = drain_clock w -> (w_high_water w <= w_high_water w')%nat -> w_log w' = w_log w -> quiet w w'.
Proof. intros H1 H2 H3 H4 H5 H6. unfold quiet. by rewrite H6. Qed.
Lemma hushed_unlogged f :
  (forall w, (w_slots (f w), w_config (f w), w_drain_inflight (f w), drain_clock (f w), w_high_water (f w), w_log (f w))
             = (w_slots w, w_config w, w_drain_inflight w, drain_clock w, w_high_water w, w_log w)) ->
  hushed (modify f) (fun _ => True).
Proof.
  intros Hf. apply hushed_modify. intros w. specialize (Hf w). injection Hf as H1 H2 H3 H4 H5 H6 H7.
  apply quiet_unlogged; try done; [by unfold drain_clock; rewrite H4, H5|lia].
Qed.
Lemma hushed_assert b p : (b = false -> forall config, caused config p) -> hushed (assert b p) (fun _ => True).
Proof. intros Hp w. destruct b; [done|by apply Hp]. Qed.

Lemma returns_hushed {A B} (m : M A) P (k : nat -> A -> M B) w Q :
  hushed m P ->
  (forall a w', quiet w w' -> P a -> returns (fun n => k n a) w' Q) ->
  returns (fun n => m ≫= k n) w Q.
Proof.
  intros Hm Hk. apply (returns_bind (fun _ => m) k w (fun a w' => quiet w w' /\ P a)).
  - apply returns_settled, Hm.
  - intros a w' []. by apply Hk.
Qed.
Lemma returns_hushed_last {A} (m : M A) P w (Q : A -> Worker -> Prop) :
  hushed m P -> (forall a w', quiet w w' -> P a -> Q a w') -> returns (fun _ => m) w Q.
Proof.
  intros Hm HQ. apply returns_settled. eapply settles_mono; [apply Hm|]. intros a w' []. by apply HQ.
Qed.

(** ** Quiet handlers *)

(** The fields of a connection that the accounting and the mirror leave
    alone. *)
Definition core (c : Conn) :=
  (c_phase c, c_inbox c, c_up_inbox c, (c_head c, c_head_consumed c), (c_request_body c, c_response_body c),
   c_hand_off c, (c_replayable c, c_targets c, c_attempt c, c_pool_retry_used c),
   c_response_head_seen c, c_committed c, c_drain_counted c).

Lemma hushed_when b m : (b = true -> hushed m (fun _ => True)) -> hushed (when b m) (fun _ => True).
Proof. intros Hm. destruct b; [by apply Hm|by apply hushed_ret]. Qed.
Lemma hushed_log e : hushed (log e) (fun _ => True).
Proof.
  apply hushed_modify. intros w. unfold quiet. split_and!; try done. simpl. intros x. rewrite elem_of_app. auto.
Qed.
Lemma hushed_count k : hushed (count k) (fun _ => True).
Proof. apply hushed_log. Qed.
Lemma hushed_index fd : hushed (index fd) (fun _ => True).
Proof. apply hushed_assert. intros Hb config. simpl. lia. Qed.
Lemma hushed_touch fd : hushed (touch fd) (fun _ => True).
Proof.
  eapply hushed_bind; [apply hushed_index|]. intros _ _. apply hushed_modify.
  intros w. apply quiet_unlogged; try done. simpl. lia.
Qed.
Lemma hushed_bump fd : hushed (bump_generation fd) (fun _ => True).
Proof. eapply hushed_bind; [apply hushed_index|]. intros _ _. by apply hushed_unlogged. Qed.
Lemma hushed_generation fd : hushed (generation fd) (fun _ => True).
Proof. eapply hushed_bind; [apply hushed_index|]. intros _ _. apply hushed_gets. Qed.
Lemma hushed_spans h b : spans_readable h b = true -> hushed (read_spans h b) (fun _ => True).
Proof. intros Hr. apply hushed_assert. congruence. Qed.
Lemma hushed_slice b k : hushed (slice_to b k) (fun _ => True).
Proof.
  eapply hushed_bind; [apply hushed_assert; intros Hb config; simpl; lia|]. intros _ _. by apply hushed_ret.
Qed.
Lemma hushed_drain b n : hushed (drain_to b n) (fun rest => rest = drop n b).
Proof.
  eapply hushed_bind; [apply hushed_assert; intros Hb config; simpl; lia|]. intros _ _. by apply hushed_ret.
Qed.
End serving.

#[export] Hint Resolve hushed_gets hushed_log hushed_count hushed_touch hushed_bump hushed_generation
  hushed_slice hushed_drain : serving.
#[export] Hint Extern 1 (hushed (modify _) _) => (by apply hushed_unlogged) : serving.

(** A quiet computation, step by step. *)
Ltac hush_step :=
  match goal with
  | |- hushed (mret _) _ => apply hushed_ret
  | |- hushed (when _ _) _ => apply hushed_when; intros _
  | |- hushed (_ ≫= _) _ =>
      first [eapply hushed_bind; [solve [eauto 2 with serving]|intros ? ?]
            |apply (hushed_bind _ _ (fun _ => True)); [|intros ? _]]
  | |- hushed (match ?x with _ => _ end) _ => destruct x eqn:?
  | |- hushed (let '_ := ?x in _) _ => destruct x eqn:?
  | |- hushed _ (fun _ => True) => solve [eauto 2 with serving]
  end.
Ltac hush := repeat hush_step; try done.

Section quiet_handlers.
Context {E : RegexEngine} {TS : TlsStack} {HT : HttpTypes} {Wd : World} {Enc : Encoder}.

Lemma clock_settles w :
  settles w (fun now w' => quiet w w' /\ (exists l, now = clock_at l) /\ Clock now ∈ w_log w') (clock w).
Proof.
  destruct (hushed_log (Clock (clock_at (w_log w))) w) as [Hc [Hq _]].
  split; [exact Hc|]. split; [exact Hq|]. split; [by eexists|]. simpl. set_solver.
Qed.
Lemma hushed_clock : hushed clock (fun now => exists l, now = clock_at l).
Proof. intros w. eapply settles_mono; [apply clock_settles|]. by intros now w' (?&?&_). Qed.
Lemma hushed_submit op k fd : hushed (submit op k fd) (fun _ => True).
Proof. unfold submit. hush. Qed.
Lemma hushed_connect a : hushed (tcp_connect a) (fun _ => True).
Proof. unfold tcp_connect. hush. Qed.
Lemma hushed_watch fd d : hushed (watch_connect fd d) (fun _ => True).
Proof. unfold watch_connect. hush. Qed.
Lemma hushed_sys_close fd : hushed (sys_close fd) (fun _ => True).
Proof. apply hushed_log. Qed.
Lemma hushed_shutdown_write fd : hushed (shutdown_write fd) (fun _ => True).
Proof. apply hushed_log. Qed.
Hint Resolve hushed_clock hushed_submit hushed_connect hushed_watch hushed_sys_close hushed_shutdown_write : serving.

(** A deadline is an instant, or there is none so late. *)
Lemma add_instant_settles now t w :
  (exists l, now = clock_at l) -> t ∈ timeouts (w_config w) ->
  settles w (fun _ w' => w' = w) (add_instant now t w).
Proof.
  intros Hnow Ht. unfold add_instant, assert. destruct (now + t <=? INSTANT_MAX) eqn:Hb; [done|].
  simpl. split_and!; [done|done|lia].
Qed.
Lemma deadline_settles t w :
  t ∈ timeouts (w_config w) -> settles w (fun d w' => quiet w w' /\ is_Some d) (deadline_in t w).
Proof.
  intros Ht. unfold deadline_in.
  apply (settles_bind _ _ _ (fun now w' => quiet w w' /\ exists l, now = clock_at l)).
  { apply hushed_clock. }
  intros now w1 Hc [Hq Hnow]. eapply settles_bind; [apply add_instant_settles; [done|by rewrite Hc]|].
  intros d w2 _ ->. simpl. by eauto.
Qed.
Lemma hushed_idle_deadline : hushed (deadline_in CLIENT_IDLE) is_Some.
Proof. intros w. apply deadline_settles, list_elem_of_In. simpl. auto. Qed.
Lemma returns_deadline {B} t (k : nat -> option Z -> M B) w Q :
  t ∈ timeouts (w_config w) ->
  (forall d w', quiet w w' -> is_Some d -> returns (fun n => k n d) w' Q) ->
  returns (fun n => deadline_in t ≫= k n) w Q.
Proof.
  intros Ht Hk. eapply (returns_bind (fun _ => deadline_in t) k).
  - apply returns_settled. by apply deadline_settles.
  - cbv beta. intros d w' []. by apply Hk.
Qed.
Lemma response_timeout_in config : cfg_response_timeout config ∈ timeouts config.
Proof. apply list_elem_of_In. simpl. auto. Qed.
Lemma connect_timeout_in config : cfg_connect_timeout config ∈ timeouts config.
Proof. apply list_elem_of_In. simpl. auto. Qed.
Lemma grace_in config : cfg_shutdown_grace config ∈ timeouts config.
Proof. apply list_elem_of_In. simpl. auto. Qed.
Lemma preface_timeout_in config t : cfg_proxy_protocol config = Some t -> t ∈ timeouts config.
Proof. intros Ht. apply list_elem_of_In. unfold timeouts. rewrite Ht. simpl. auto 6. Qed.
Lemma hushed_arm_notify : hushed arm_notify (fun _ => True).
Proof. unfold arm_notify. hush. Qed.
Lemma hushed_arm_accept fd k : hushed (arm_accept fd k) (fun _ => True).
Proof. unfold arm_accept. hush. Qed.
Lemma hushed_arm_intake fd t : hushed (arm_intake fd t) (fun _ => True).
Proof. unfold arm_intake. hush. Qed.
Lemma hushed_on_route c f : hushed (on_route c f) (fun _ => True).
Proof. unfold on_route. hush. Qed.
Hint Resolve hushed_on_route : serving.

Definition same (c c' : Conn) : Prop := core c' = core c.

Lemma hushed_hold c : hushed (hold_inflight c) (same c).
Proof. unfold hold_inflight. hush. Qed.
Lemma hushed_release c : hushed (release_inflight c) (same c).
Proof. unfold release_inflight. hush. Qed.
Lemma hushed_count_response c s : hushed (count_response c s) (same c).
Proof. unfold count_response. hush. Qed.
Lemma hushed_count_latency c e : hushed (count_latency c e) (fun _ => True).
Proof. unfold count_latency. hush. Qed.
Hint Resolve hushed_count_latency : serving.
Lemma hushed_take_latency c : hushed (take_latency c) (same c).
Proof. unfold take_latency. hush. Qed.
Lemma hushed_plan_mirror c table spec f : hushed (plan_mirror c table spec f) (same c).
Proof. unfold plan_mirror. hush. Qed.
Lemma hushed_send_mirror c : hushed (send_mirror c) (same c).
Proof. unfold send_mirror. hush. Qed.
Lemma mirror_body_same n c b : same c (mirror_body n c b).
Proof. unfold mirror_body. by repeat case_match. Qed.
End quiet_handlers.

#[export] Hint Resolve hushed_clock hushed_submit hushed_connect hushed_watch hushed_sys_close
  hushed_shutdown_write hushed_idle_deadline hushed_arm_notify hushed_arm_accept hushed_arm_intake
  hushed_on_route hushed_count_latency : serving.
#[export] Hint Resolve hushed_when hushed_hold hushed_release hushed_count_response hushed_take_latency
  hushed_plan_mirror hushed_send_mirror : serving.

(** ** Steps that change a slot *)

Section slots.
Context {E : RegexEngine} {TS : TlsStack} {HT : HttpTypes} {Wd : World} {Enc : Encoder}.
Implicit Types (cfg : Setting) (w : Worker).

Lemma slot_settles fd w : settles w (fun s w' => quiet w w' /\ s = slot_at w fd /\ 0 <= fd) (slot fd w).
Proof.
  unfold slot, touch, index, assert. destruct (0 <=? fd) eqn:Hfd; [|simpl; lia].
  split; [done|]. split; [|by split; [|lia]]. apply quiet_unlogged; try done. simpl. lia.
Qed.
Lemma returns_slot {B} fd (k : nat -> Slot -> M B) w Q :
  (forall w', quiet w w' -> 0 <= fd -> returns (fun n => k n (slot_at w fd)) w' Q) ->
  returns (fun n => slot fd ≫= k n) w Q.
Proof.
  intros Hk. eapply (returns_bind (fun _ => slot fd) k); [apply returns_settled, slot_settles|].
  cbv beta. intros s w' (Hq&->&Hfd). by apply Hk.
Qed.

Lemma put_slot_settles fd s w :
  settles w (fun _ w' => 0 <= fd /\ w' = w <| w_high_water := Nat.max (w_high_water w) (Z.to_nat fd + 1) |>
                                       <| w_slots := <[fd := s]> (w_slots w) |>) (put_slot fd s w).
Proof.
  unfold put_slot, touch, index, assert. destruct (0 <=? fd) eqn:Hfd; [|simpl; lia]. simpl. split; [done|]. by split; [lia|].
Qed.
Lemma put_slot_runs cfg d fd s w :
  Inv cfg (slot_tally s + d) w -> fits_slot cfg s ->
  returns (fun _ => put_slot fd s) w (fun _ w' =>
    Inv cfg (slot_tally (slot_at w fd) + d) w'
    /\ forall fd', slot_at w' fd' = if decide (fd' = fd) then s else slot_at w fd').
Proof.
  intros [Hc Hs Hh Hd] Hfit. eapply returns_settled, settles_mono; [apply put_slot_settles|].
  intros _ w' [Hfd ->]. split; [split|]; [done| | | |].
  - intros fd'. rewrite (slot_at_insert w _ fd s) by done. case_decide; [done|apply Hs].
  - intros fd'. rewrite (slot_at_insert w _ fd s) by done. simpl. case_decide; [subst; lia|].
    intros Hne. specialize (Hh _ Hne). lia.
  - simpl. pose proof (counted_insert (w_slots w) fd s). unfold slot_at. lia.
  - intros fd'. by apply slot_at_insert.
Qed.

Lemma inv_less cfg d d' w : Inv cfg d w -> (d' <= d)%nat -> Inv cfg d' w.
Proof. intros [] Hle. split; [done|done|done|lia]. Qed.

(** A slot emptied or given to something that is not a connection. *)
Definition plain (s : Slot) : Prop :=
  match s with Slot_Client _ | Slot_Admin _ => False | _ => True end.

Lemma put_other_runs cfg d fd k up s w :
  At cfg d fd k w -> plain s ->
  returns (fun _ => put_slot up s) w (fun _ w' =>
    At cfg d fd k w' /\ forall fd', slot_at w' fd' = if decide (fd' = up) then s else slot_at w fd').
Proof.
  intros [Hi Hk] Hs. assert (Ht : slot_tally s = 0%nat) by (by destruct s). eapply returns_mono.
  - apply (put_slot_runs cfg d up s w); [by rewrite Ht|by destruct s].
  - intros _ w' [[Hc Hs' Hh Hd] Hslots]. split; [split|done].
    + split; [done|done|done|lia].
    + unfold slot_weight in *. rewrite Hslots. case_decide; [|done]. destruct s; try lia. done.
Qed.

Lemma put_client_runs cfg d fd k c w :
  At cfg d fd k w -> d = tally (c_drain_counted c) -> conn_ok cfg c ->
  returns (fun _ => put_client fd c) w (fun _ w' =>
    At cfg 0 fd (S (weight c)) w' /\ slot_at w' fd = Slot_Client c).
Proof.
  intros [Hi Hk] -> Hok. eapply returns_mono.
  - apply (put_slot_runs cfg 0 fd (Slot_Client c) w); [by rewrite Nat.add_0_r|done].
  - intros _ w' [[Hc Hs' Hh Hd] Hslots]. specialize (Hslots fd). rewrite decide_True in Hslots by done.
    split; [split|done]; [split; [done|done|done|lia]|]. unfold slot_weight. by rewrite Hslots.
Qed.

Lemma close_settles up w :
  settles w (fun _ w' => 0 <= up /\ w_slots w' = <[up := Slot_Empty]> (w_slots w)
    /\ drain_clock w' = drain_clock w /\ (w_high_water w <= w_high_water w')%nat /\ w_log w ⊆ w_log w'
    /\ w_drain_inflight w' = (w_drain_inflight w - slot_tally (slot_at w up))%nat) (close up w).
Proof.
  unfold close, bump_generation, submit, slot, put_slot, touch, generation, index, assert, when.
  destruct (0 <=? up) eqn:Hup; [|simpl; lia]. unfold mbind, M_bind, gets, modify, log. simpl.
  change (slot_at _ up) with (slot_at w up).
  assert (Hb : slot_tally (slot_at w up) = tally (match slot_at w up with Slot_Client c => c_drain_counted c
                                     | Slot_Admin a => a_drain_counted a | _ => false end)) by (by destruct (slot_at w up)).
  rewrite Hb. destruct (match slot_at w up with Slot_Client _ => _ | _ => _ end); simpl;
    (split; [reflexivity|]; split_and!; try reflexivity; simpl; first [lia|intros x; rewrite elem_of_app; auto]).
Qed.

Lemma close_runs_draining cfg d fd k up w :
  At cfg d fd k w ->
  returns (fun _ => close up) w (fun _ w' =>
    (At cfg d fd k w' /\ forall fd', slot_at w' fd' = if decide (fd' = up) then Slot_Empty else slot_at w fd')
    /\ drain_clock w' = drain_clock w).
Proof.
  intros [[Hc Hs Hh Hd] Hk]. apply returns_settled. pose proof (close_settles up w) as Hcs.
  destruct (close up w) as [[] w'|p|]; [|done..]. destruct Hcs as (Hw2&Hup&Hw1&Hw4&Hw5&Hw6&Hw3). split; [done|].
  assert (Hslots : forall fd', slot_at w' fd' = if decide (fd' = up) then Slot_Empty else slot_at w fd').
  { intros fd'. by apply slot_at_insert. }
  split; [split; [split; [split|]|done]|done].
  - by eapply drain_clock_setting.
  - intros fd'. rewrite Hslots. case_decide; [done|apply Hs].
  - intros fd'. rewrite Hslots. case_decide; [done|]. intros Hne. specialize (Hh _ Hne). lia.
  - rewrite Hw1, Hw3. pose proof (counted_insert (w_slots w) up Slot_Empty). unfold slot_at. simpl in *. lia.
  - unfold slot_weight in *. rewrite Hslots. case_decide; [lia|done].
Qed.

Lemma close_runs cfg d fd k up w :
  At cfg d fd k w ->
  returns (fun _ => close up) w (fun _ w' =>
    At cfg d fd k w' /\ forall fd', slot_at w' fd' = if decide (fd' = up) then Slot_Empty else slot_at w fd').
Proof. intros Hat. eapply returns_mono; [by apply close_runs_draining|]. by intros [] w' []. Qed.

Lemma take_client_runs {A} cfg fd k (other : nat -> M A) (K : nat -> Conn -> M A) w Q :
  At cfg 0 fd k w ->
  (forall c w', slot_at w fd = Slot_Client c -> (S (weight c) <= k)%nat -> conn_ok cfg c ->
     At cfg (tally (c_drain_counted c)) fd 0 w' -> returns (fun n => K n c) w' Q) ->
  (forall w', At cfg 0 fd 0 w' -> returns other w' Q) ->
  returns (fun n => take_client fd (other n) (K n)) w Q.
Proof.
  intros [Hi Hk] Hclient Hother. unfold take_client. apply (returns_slot fd (fun n s => _)). intros w1 Hq _.
  eapply (returns_bind _ (fun n _ => _)).
  { apply (put_slot_runs cfg 0 fd Slot_Taken); [by eapply quiet_inv|done]. }
  intros [] w2 [Hi2 Hs2]. rewrite (quiet_slot _ _ _ Hq), Nat.add_0_r in Hi2.
  assert (Hw2 : slot_weight w2 fd = 0%nat) by (unfold slot_weight; rewrite Hs2; by rewrite decide_True).
  destruct (slot_at w fd) as [| |c| | | |a] eqn:Hs; simpl in Hi2.
  3: { apply Hclient; [done| | |by split; [|rewrite Hw2]].
       - unfold slot_weight in Hk. by rewrite Hs in Hk.
       - pose proof (inv_slots _ _ _ Hi fd) as Hfit. by rewrite Hs in Hfit. }
  all: (apply (returns_bind _ (fun n _ => _) _ (fun _ => At cfg 0 fd 0)); [|intros [] w3 H3; exact (Hother _ H3)]).
  all: (eapply returns_mono; [apply (put_slot_runs cfg 0 fd Slot_Empty); [eapply inv_less; [exact Hi2|simpl; lia]|done]|]).
  all: intros [] w3 [Hi3 Hs3]; rewrite Hs2, decide_True in Hi3 by done; split; [done|].
  all: unfold slot_weight; rewrite Hs3; by rewrite decide_True.
Qed.

Lemma with_client_runs {A} cfg fd k (other : A) (K : nat -> Conn -> M A) w Q :
  At cfg 0 fd k w ->
  (forall c w', slot_at w fd = Slot_Client c -> (S (weight c) <= k)%nat -> conn_ok cfg c ->
     At cfg (tally (c_drain_counted c)) fd 0 w' -> returns (fun n => K n c) w' Q) ->
  (forall w', At cfg 0 fd 0 w' -> Q other w') ->
  returns (fun n => with_client fd other (K n)) w Q.
Proof.
  intros Hat Hc Ho. apply (take_client_runs cfg fd k (fun _ => mret other)); [done..|].
  intros w' Hw'. apply returns_ret. by apply Ho.
Qed.

Lemma with_admin_runs {A} cfg fd fd' k (other : A) (K : nat -> AdminConn -> M A) w Q :
  At cfg 0 fd' k w ->
  (forall a w', At cfg (tally (a_drain_counted a)) fd' k w' -> fits_slot cfg (Slot_Admin a) ->
     returns (fun n => K n a) w' Q) ->
  (forall w', At cfg 0 fd' k w' -> Q other w') ->
  returns (fun n => with_admin fd other (K n)) w Q.
Proof.
  intros [Hi Hk] Hadmin Hother. unfold with_admin. apply (returns_slot fd (fun n s => _)). intros w1 Hq _.
  eapply (returns_bind _ (fun n _ => _)).
  { apply (put_slot_runs cfg 0 fd Slot_Taken); [by eapply quiet_inv|done]. }
  intros [] w2 [Hi2 Hs2]. rewrite (quiet_slot _ _ _ Hq), Nat.add_0_r in Hi2.
  assert (Hw2 : (slot_weight w2 fd' <= k)%nat).
  { unfold slot_weight in *. rewrite Hs2, (quiet_slot _ _ _ Hq). case_decide; [lia|done]. }
  destruct (slot_at w fd) as [| |c| | | |a] eqn:Hs; simpl in Hi2.
  7: { apply Hadmin; [done|]. pose proof (inv_slots _ _ _ Hi fd) as Hfit. by rewrite Hs in Hfit. }
  all: (apply (returns_bind _ (fun n _ => _) _ (fun _ => At cfg 0 fd' k)); [|intros [] w3 H3; apply returns_ret; exact (Hother _ H3)]).
  all: (eapply returns_mono; [apply (put_slot_runs cfg 0 fd Slot_Empty); [eapply inv_less; [exact Hi2|simpl; lia]|done]|]).
  all: intros [] w3 [Hi3 Hs3]; rewrite Hs2, decide_True in Hi3 by done; split; [done|].
  all: unfold slot_weight in *; rewrite Hs3; case_decide; [lia|done].
Qed.

Lemma put_admin_runs cfg d fd fd' k a w :
  At cfg d fd' k w -> d = tally (a_drain_counted a) -> fits_slot cfg (Slot_Admin a) ->
  returns (fun _ => put_admin fd a) w (fun _ w' => At cfg 0 fd' k w').
Proof.
  intros [Hi Hk] -> Hfit. eapply returns_mono.
  - apply (put_slot_runs cfg 0 fd (Slot_Admin a) w); [by rewrite Nat.add_0_r|done].
  - intros _ w' [[Hc Hs' Hh Hd] Hslots]. split; [split; [done|done|done|lia]|].
    unfold slot_weight in *. rewrite Hslots. case_decide; [lia|done].
Qed.

Lemma body_new_ok f : body_ok (Body_new f).
Proof. by destruct f. Qed.

(** A parsed head is not empty. *)
Lemma parse_head_length start_line check input h h' :
  parse_head start_line check input h = (h', Ok true) -> (1 <= head_len h')%nat /\ input <> [].
Proof.
  unfold parse_head, find_head_end. intros Hp.
  destruct (find_sub CRLFCRLF _) as [i|] eqn:Hf; [|by repeat case_match].
  split; [|intros ->; by destruct (head_scanned h - 3)%nat].
  repeat (case_match; simplify_eq/=); lia.
Qed.

(** ** Handling [At] *)

Lemma at_inv cfg d fd k w : At cfg d fd k w -> Inv cfg d w.
Proof. by intros []. Qed.
Lemma inv_at cfg d fd w : Inv cfg d w -> At cfg d fd (slot_weight w fd) w.
Proof. by split. Qed.
Lemma at_le cfg d fd k k' w : At cfg d fd k w -> (k <= k')%nat -> At cfg d fd k' w.
Proof. intros [Hi Hk] Hle. split; [done|lia]. Qed.
Lemma at_less cfg d d' fd k w : At cfg d fd k w -> (d' <= d)%nat -> At cfg d' fd k w.
Proof. intros [Hi Hk] Hle. split; [by eapply inv_less|done]. Qed.
Lemma at_config cfg d fd k w : At cfg d fd k w -> w_config w = s_config cfg.
Proof. by intros [[[]] _]. Qed.
Lemma measure_weight w fd : (slot_measure w fd <= S (slot_weight w fd))%nat.
Proof.
  unfold slot_measure, slot_weight. destruct (slot_at w fd); try lia. destruct (c_phase c); simpl; lia.
Qed.
End slots.

#[export] Hint Resolve at_inv : serving.

(** Carry what is known of a core over a quiet step. *)
Ltac carry Hq :=
  match type of Hq with
  | quiet ?w ?w' =>
      repeat match goal with
      | H : At _ _ _ _ w |- _ => apply (quiet_at _ _ _ _ _ _ Hq) in H
      | H : Inv _ _ w |- _ => apply (quiet_inv _ _ _ _ Hq) in H
      | H : context [slot_at w ?fd] |- _ => rewrite <- (quiet_slot _ _ fd Hq) in H
      end; clear Hq
  end.

(** The equations of [same c c']. *)
Ltac unsame :=
  repeat match goal with H : same _ _ |- _ => unfold same, core in H; injection H as ? ? ? ? ? ? ? ? ? ? ? ? ? ? ? end.

(** [c'] is no worse than [c]: sound if [c] is, counted the same, and with no
    more left to read. *)
Definition eases {E : RegexEngine} {TS : TlsStack} {HT : HttpTypes} (cfg : Setting) (c c' : Conn) : Prop :=
  (conn_ok cfg c -> conn_ok cfg c') /\ (weight c' <= weight c)%nat /\ c_drain_counted c' = c_drain_counted c.

Ltac eases_tac :=
  unfold eases; repeat case_match;
  (split_and!;
   [ unfold conn_ok; cbn; intros; destruct_and?;
     split_and!; first [assumption | apply body_new_ok | done | intros; simpl in *; first [discriminate | clear; lia]]
   | unfold weight; cbn; rewrite ?length_drop; clear; lia
   | done ]).
Ltac rewrite_same :=
  unsame; cbn in *; repeat match goal with H : ?f ?c' = _ |- context [?f ?c'] => rewrite H end.

(** The configuration of a core is that of its setting. *)
Ltac know_config :=
  repeat match goal with
  | H : At _ _ _ _ ?w |- context [w_config ?w] => rewrite (at_config _ _ _ _ _ H)
  | H : Inv _ _ ?w |- context [w_config ?w] => rewrite (proj1 (inv_setting _ _ _ H))
  end.
Ltac deadline_step :=
  apply (returns_deadline _ (fun n d => _));
  [ know_config; first [apply response_timeout_in|apply connect_timeout_in|apply grace_in|by apply preface_timeout_in]
  | let d := fresh "d" in let w := fresh "u" in let Hq := fresh "Hq" in intros d w Hq _; carry Hq ].

Ltac spans_step :=
  eapply (returns_hushed _ _ (fun n _ => _)); [by apply hushed_spans|];
  let w := fresh "u" in let Hq := fresh "Hq" in intros [] w Hq _; carry Hq.

Ltac serve_step :=
  lazymatch goal with
  | |- returns (fun _ => gets _ ≫= _) _ _ => apply (returns_gets _ (fun n _ => _)); cbv beta
  | |- returns (fun _ => mret _) _ _ => apply returns_ret
  | |- returns (fun _ => slot ?fd ≫= _) _ _ =>
      apply (returns_slot fd (fun n s => _)); let w := fresh "u" in let Hq := fresh "Hq" in intros w Hq _; rewrite <- (quiet_slot _ _ fd Hq); carry Hq
  | |- returns (fun _ => match ?x with _ => _ end) _ _ => destruct x eqn:?
  | |- returns (fun _ => _ ≫= _) _ _ =>
      first
        [ eapply (returns_hushed _ _ (fun n _ => _)); [solve [eauto 4 with serving]|];
          let a := fresh "a" in let w := fresh "u" in let Hq := fresh "Hq" in let HP := fresh "HP" in
          intros a w Hq HP; carry Hq; cbv beta in HP; try (match type of HP with True => clear HP end)
        | eapply (returns_bind _ (fun n _ => _)); [solve [eauto 4 with serving]|] ]
  end.

(** ** A core to try things on *)

Definition demo_http : HttpTypes := {|
  Method := bytes;
  Uri := str;
  method_from_bytes m := Some m;
  path_and_query s := Some s;
  uri_parse s := Some s;
  header_name_ok _ := true;
  header_value_ok _ := true;
|}.
Definition demo_encoder : Encoder := {|
  reason _ := bstr "OK";
  response status _ body := (to_string status ++ body, true);
  response_head_only status _ _ := (to_string status, true);
|}.
#[local] Existing Instance literal_engine.
#[local] Existing Instance demo_stack.
#[local] Existing Instance demo_http.
#[local] Existing Instance demo_encoder.
#[local] Existing Instance listed_order.

(** A kernel that always says yes, and hands out the descriptor 40; its clock
    stops after an hour. *)
Definition demo_world : World := {|
  submit_ok _ _ := true;
  dial _ _ := Some (40, true);
  watch_ok _ _ := true;
  handoff_ok _ := true;
  clock_at l := Z.min (Z.of_nat (length l)) 3600000;
  nonblocking_ok _ _ := true;
  peer_of _ _ := None;
  published _ := demo_table 0;
  metrics_text _ := [];
  ready _ := true;
|}.
#[local] Existing Instance demo_world.

Definition demo_config : Config := {|
  cfg_tls := None;
  cfg_proxy_protocol := None;
  cfg_connect_timeout := 5000;
  cfg_response_timeout := 60000;
  cfg_max_connect_attempts := 3;
  cfg_mirror_max_body := 1024;
  cfg_dispatch := false;
  cfg_mirror := false;
  cfg_shutdown_grace := 30000;
  cfg_pool_max_idle_per_host := 4;
  cfg_pool_idle_timeout := 90000;
|}.

(** One core with one client, on descriptor 5. *)
Definition demo_core (c : Conn) : Worker :=
  (Worker_new 0 demo_config false [] None 3 heap_empty [] 1)
    <| w_slots := {[5 := Slot_Client c]} |> <| w_high_water := 6%nat |>.
