(* ===== verification/Loop.v ===== *)
(** The event loop of a serving core always comes back, and keeps its
    invariant: [crates/ramjet-engine/src/engine/worker.rs].

    Every handler of Worker.v returns, whatever the kernel, the clock and the
    completions are, and leaves the core sound. *)

From S2P Require Import Prelude RouterTypes Canary Stats Backends Table Rng Helper Limits Pool NetText ProxyProtocol Codec Chunked Head Forwarding Tls Mirror Conn Reactor Worker Serving.

Section handlers.
Context {E : RegexEngine} {TS : TlsStack} {HT : HttpTypes} {Wd : World} {Enc : Encoder}.
Context (cfg : Setting).
Implicit Types (w : Worker).

(** ** Submission *)

(** Unchanged, or closing. *)
Definition same_or_closing (c c' : Conn) : Prop :=
  same c c' \/ same (c <| c_phase := Phase_Closing |>) c'.

Lemma same_or_closing_trans c1 c2 c3 :
  same_or_closing c1 c2 -> same_or_closing c2 c3 -> same_or_closing c1 c3.
Proof.
  unfold same_or_closing, same. intros [H1|H1] [H2|H2].
  - left. congruence.
  - right. rewrite H2. unfold core in *. simpl in *. congruence.
  - right. congruence.
  - right. rewrite H2. unfold core in *. simpl in *. congruence.
Qed.

Ltac same_side := first [by left|by right].

Lemma hushed_submit_client_write fd c : hushed (submit_client_write fd c) (same_or_closing c).
Proof.
  unfold submit_client_write. destruct (negb (c_writing c) && has_pending_out c); [|apply hushed_ret; same_side].
  destruct (c_tls c) as [session|]; (eapply hushed_bind; [apply hushed_submit|]); intros [] _;
    apply hushed_ret; same_side.
Qed.

Lemma hushed_submit_upstream c : hushed (submit_upstream c) (same_or_closing c).
Proof.
  unfold submit_upstream. destruct (c_upstream c); [|apply hushed_ret; same_side].
  apply (hushed_bind _ _ (same_or_closing c)).
  - hush_step; [|apply hushed_ret; same_side]. eapply hushed_bind; [apply hushed_submit|].
    intros [] _; apply hushed_ret; same_side.
  - intros c1 H1. hush_step; [|by apply hushed_ret]. eapply hushed_bind; [apply hushed_submit|].
    intros [] _; apply hushed_ret; [|done]. eapply same_or_closing_trans; [exact H1|same_side].
Qed.

Lemma hushed_submit_client_read fd c : hushed (submit_client_read fd c) (same c).
Proof.
  unfold submit_client_read. hush_step; [|by apply hushed_ret]. eapply hushed_bind; [apply hushed_submit|].
  by intros [] _; apply hushed_ret.
Qed.
Hint Resolve hushed_submit_client_write hushed_submit_upstream hushed_submit_client_read : serving.

Lemma seal_same c : same c (conn_seal c).
Proof. unfold conn_seal. by repeat case_match. Qed.

Lemma same_eases c c' : same c c' -> eases cfg c c'.
Proof. intros Hs. unfold eases, conn_ok, weight. by rewrite_same. Qed.
Lemma eases_refl c : eases cfg c c.
Proof. by apply same_eases. Qed.
Lemma eases_trans c1 c2 c3 : eases cfg c1 c2 -> eases cfg c2 c3 -> eases cfg c1 c3.
Proof. intros (?&?&?) (?&?&?). split_and!; [auto|lia|congruence]. Qed.

Lemma same_or_closing_eases c c' : same_or_closing c c' -> eases cfg c c'.
Proof. intros [Hs|Hs]; unfold eases, conn_ok, weight; by rewrite_same. Qed.

Lemma same_or_closing_phase c c' :
  same_or_closing c c' -> c_phase c' = c_phase c \/ c_phase c' = Phase_Closing.
Proof. intros [Hs|Hs]; unsame; auto. Qed.

(** A connection is put back eased. *)
Lemma put_eased fd k c c' w :
  At cfg (tally (c_drain_counted c)) fd 0 w -> conn_ok cfg c -> (S (weight c) <= k)%nat -> eases cfg c c' ->
  returns (fun _ => put_client fd c') w (fun _ w' => At cfg 0 fd k w' /\ slot_at w' fd = Slot_Client c').
Proof.
  intros Hat Hok Hk (Hc&Hw&Ht). eapply returns_mono; [eapply put_client_runs; [exact Hat|by rewrite Ht|by apply Hc]|].
  intros [] w' [H Hs]. split; [|done]. eapply at_le; [exact H|lia].
Qed.

(** Put a connection back that is the eased [c] of [He], changed. *)
Ltac put_back He :=
  eapply (returns_bind _ (fun n _ => _));
  [ eapply put_eased; [eassumption..|eapply eases_trans; [exact He|eases_tac]]
  | let v := fresh "v" in let Hv := fresh "Hv" in let Hs := fresh "Hs" in intros [] v [Hv Hs] ].

Ltac put_last He :=
  eapply returns_mono;
  [ eapply put_eased; [eassumption..|eapply eases_trans; [exact He|eases_tac]]
  | let v := fresh "v" in let Hv := fresh "Hv" in let Hs := fresh "Hs" in intros [] v [Hv Hs] ].

(** ** Driving a connection *)

(** No connection appears. *)
Definition sheds w w' : Prop := forall fd c, slot_at w' fd = Slot_Client c -> slot_at w fd = Slot_Client c.
Lemma quiet_sheds w w' : quiet w w' -> sheds w w'.
Proof. intros Hq fd c. by rewrite (quiet_slot _ _ _ Hq). Qed.

(** The connection of [fd] has no exchange under way. *)
Definition calm (fd : Z) w : Prop := forall c, slot_at w fd = Slot_Client c -> rank (c_phase c) = 0%nat.
Lemma calm_sheds fd w w' : sheds w w' -> calm fd w -> calm fd w'.
Proof. intros Hs Hc c H. by apply Hc, Hs. Qed.
Lemma calm_at fd w c : slot_at w fd = Slot_Client c -> rank (c_phase c) = 0%nat -> calm fd w.
Proof. intros Hs Hr c'. rewrite Hs. by intros [= <-]. Qed.
Lemma at_zero_calm d fd w : At cfg d fd 0 w -> calm fd w.
Proof. intros [_ Hw] c Hs. unfold slot_weight in Hw. rewrite Hs in Hw. lia. Qed.
Lemma calm_measure d fd k w : At cfg d fd k w -> calm fd w -> (slot_measure w fd <= k)%nat.
Proof.
  intros [_ Hw] Hc. unfold slot_measure, slot_weight in *. destruct (slot_at w fd) eqn:Hs; try lia.
  rewrite (Hc _ Hs). lia.
Qed.

(** What becomes of an upstream the connection gives up. *)
Lemma give_up_runs d fd k up (borrowed : bool) w :
  At cfg d fd k w ->
  returns (fun _ => match up with
                    | None => mret tt
                    | Some up => if borrowed then put_slot up Slot_Abandoned else close up
                    end) w (fun _ w' => At cfg d fd k w' /\ sheds w w').
Proof.
  intros Hat. destruct up as [up|]; [|by apply returns_ret; split; [|by apply quiet_sheds]]. destruct borrowed.
  - eapply returns_mono; [by eapply put_other_runs|]. intros [] w' [Hw' Hs]. split; [done|].
    intros fd' c. rewrite Hs. by case_decide.
  - eapply returns_mono; [by eapply close_runs|]. intros [] w' [Hw' Hs]. split; [done|].
    intros fd' c. rewrite Hs. by case_decide.
Qed.
Lemma close_upstream_runs d fd k up w :
  At cfg d fd k w ->
  returns (fun _ => match up with Some up => close up | None => mret tt end) w
    (fun _ w' => At cfg d fd k w' /\ sheds w w').
Proof. intros Hat. by apply (returns_mono _ _ _ _ (give_up_runs d fd k up false w Hat)). Qed.

Lemma drive_connection_runs fd k c w :
  At cfg (tally (c_drain_counted c)) fd 0 w -> conn_ok cfg c -> (S (weight c) <= k)%nat ->
  returns (fun _ => drive_connection fd c) w
    (fun _ w' => At cfg 0 fd k w' /\ (rank (c_phase c) = 0%nat -> calm fd w')).
Proof.
  intros Hat Hok Hk. unfold drive_connection.
  eapply (returns_hushed _ _ (fun n _ => _)); [apply hushed_submit_client_write|]. intros c1 w1 Hq H1. carry Hq.
  eapply (returns_hushed _ _ (fun n _ => _)); [apply hushed_submit_upstream|]. intros c2 w2 Hq H2. carry Hq.
  eapply (returns_hushed _ _ (fun n _ => _)); [apply hushed_submit_client_read|]. intros c3 w3 Hq H3. carry Hq.
  assert (Hs : same_or_closing c c3).
  { eapply same_or_closing_trans; [left; apply seal_same|]. eapply same_or_closing_trans; [exact H1|].
    eapply same_or_closing_trans; [exact H2|by left]. }
  eapply (returns_bind _ (fun n _ => _)); [by eapply put_eased, same_or_closing_eases|]. intros [] v [Hv Hsv].
  assert (Hcalm : rank (c_phase c) = 0%nat -> calm fd v).
  { intros Hr. apply (calm_at _ _ _ Hsv). by destruct (same_or_closing_phase _ _ Hs) as [->| ->]. }
  unfold when. serve_step; [|by apply returns_ret].
  eapply (returns_bind _ (fun n _ => _)); [by apply give_up_runs|]. intros [] v1 [Hv1 _].
  eapply (returns_hushed _ _ (fun n _ => _)); [apply hushed_count|]. intros [] v2 Hq _.
  eapply returns_mono; [eapply close_runs, quiet_at; [exact Hq|done]|].
  intros [] w' [Hw' Hs']. split; [done|].
  intros Hr c'. rewrite Hs'. by rewrite decide_True.
Qed.

(** [hand_off] where a handover is configured: the slot is emptied. *)
Lemma hand_off_runs drv fd k w :
  At cfg 0 fd k w -> cfg_dispatch (s_config cfg) = true ->
  returns (fun n => hand_off (drv n) fd) w (fun _ w' => At cfg 0 fd 0 w').
Proof.
  intros Hat Hd. unfold hand_off. eapply with_client_runs; [exact Hat| |].
  - intros c w1 _ _ Hok H1. serve_step. rewrite (at_config _ _ _ _ _ H1), Hd. simpl.
    serve_step. eapply (returns_bind _ (fun n _ => _)); [by eapply put_other_runs|]. intros [] w2 [H2 _].
    repeat serve_step. eapply returns_hushed_last; [apply hushed_count|]. intros [] w' Hq _. carry Hq.
    eapply at_less; [done|lia].
  - done.
Qed.

Lemma drive_runs fd k w :
  At cfg 0 fd k w ->
  returns (fun n => drive n fd) w (fun _ w' => At cfg 0 fd k w' /\ (calm fd w -> calm fd w')).
Proof.
  intros Hat. apply returns_fuel. simpl. eapply with_client_runs; [exact Hat| |].
  - intros c w1 Hc Hk Hok H1. destruct (c_hand_off c) eqn:Hh.
    2: { eapply returns_mono; [by apply drive_connection_runs|]. intros [] w' [Hw' Hr]. split; [done|].
         intros Hcalm. by apply Hr, Hcalm. }
    eapply (returns_bind _ (fun n _ => _)); [by eapply put_client_runs|]. intros [] w2 [H2 _].
    eapply returns_mono; [eapply hand_off_runs; [exact H2|]|].
    + by apply Hok.
    + intros [] w' Hw'. split; [apply (at_le _ _ _ 0); [done|lia]|]. intros _. by eapply at_zero_calm.
  - intros w' H1. split; [apply (at_le _ _ _ 0); [done|lia]|]. intros _. by eapply at_zero_calm.
Qed.

(** ** Failure paths *)

Lemma fail_unsupported_runs fd k status body close_ un w :
  At cfg 0 fd k w ->
  returns (fun _ => fail_unsupported fd status body close_ un) w (fun _ w' => At cfg 0 fd k w' /\ calm fd w').
Proof.
  intros Hat. unfold fail_unsupported. eapply (with_client_runs _ _ _ _ (fun _ _ => _)); [exact Hat| |].
  - intros c w1 _ Hk Hok H1.
    serve_step. eapply (returns_bind _ (fun n _ => _)); [by apply give_up_runs|]. intros [] w2 [H2 _].
    cbv zeta. set (closing := close_ || _ || _). apply same_eases in HP.
    apply (returns_bind _ (fun n _ => _) _ (fun c1 w' => At cfg (tally (c_drain_counted c)) fd 0 w' /\ eases cfg c c1)).
    { serve_step; [serve_step; subst|]; apply returns_ret; (split; [done|]); (eapply eases_trans; [exact HP|eases_tac]). }
    intros c1 w3 [H3 H12].
    serve_step. eapply returns_mono; [eapply put_eased; [done..|]|].
    + eapply eases_trans; [exact H12|]. eapply eases_trans; [by apply same_eases|]. eases_tac.
    + intros [] w' [Hw' Hs]. split; [done|]. apply (calm_at _ _ _ Hs). by destruct closing.
  - intros w' H1. split; [apply (at_le _ _ _ 0); [done|lia]|]. by eapply at_zero_calm.
Qed.

Lemma fail_runs fd k status body close_ w :
  At cfg 0 fd k w -> returns (fun _ => fail fd status body close_) w (fun _ w' => At cfg 0 fd k w' /\ calm fd w').
Proof. apply fail_unsupported_runs. Qed.
Lemma fail_codec_runs fd k e w :
  At cfg 0 fd k w -> returns (fun _ => fail_codec fd e) w (fun _ w' => At cfg 0 fd k w' /\ calm fd w').
Proof. apply fail_unsupported_runs. Qed.
(** An answer of the proxy's own, and then [drive]. *)
Lemma fail_drive_runs fd k status body close_ w :
  At cfg 0 fd k w ->
  returns (fun n => fail fd status body close_ ;; drive n fd) w (fun _ w' => At cfg 0 fd k w' /\ calm fd w').
Proof.
  intros Hat. eapply (returns_bind _ (fun n _ => _)); [by apply fail_runs|]. intros [] v [Hv Hc].
  eapply returns_mono; [by apply drive_runs|]. intros [] w' [Hw' Hcc]. auto.
Qed.

(** ** Dialling *)

(** What is left to try of a request. *)
Definition tries (c : Conn) : nat :=
  (2 * (length (c_targets c) - c_attempt c) + (if c_pool_retry_used c then 0 else 1))%nat.
Definition tries_at_most (t : nat) (fd : Z) (w : Worker) : Prop :=
  forall c, slot_at w fd = Slot_Client c -> (tries c <= t)%nat.

Lemma same_tries c c' : same c c' -> tries c' = tries c.
Proof. intros Hs. unfold tries. by rewrite_same. Qed.
Lemma slot_tries fd w c t :
  slot_at w fd = Slot_Client c -> (tries c < t)%nat -> exists t', (t' < t)%nat /\ tries_at_most t' fd w.
Proof. intros Hs Hlt. exists (tries c). split; [done|]. intros c'. rewrite Hs. by intros [= <-]. Qed.

Lemma some_tries fd w : exists t, tries_at_most t fd w.
Proof.
  unfold tries_at_most. destruct (slot_at w fd) as [| |c| | | |]; try by exists 0%nat.
  exists (tries c). by intros ? [= <-].
Qed.

Lemma retry_runs fd k t (g : nat -> Z -> M unit) w :
  At cfg 0 fd k w -> tries_at_most t fd w ->
  (forall w, At cfg 0 fd k w -> (exists t', (t' < t)%nat /\ tries_at_most t' fd w) ->
    returns (fun n => g n fd) w (fun _ => Inv cfg 0)) ->
  returns (fun n => retry_or_fail n (g n) fd) w (fun _ => Inv cfg 0).
Proof.
  intros Hat Ht Hg. unfold retry_or_fail. eapply (with_client_runs _ _ _ _ (fun n c => _)); [exact Hat| |].
  2: { intros w' H1. by apply at_inv in H1. }
  intros c w1 Hc Hk Hok H1. specialize (Ht _ Hc). serve_step.
  serve_step; [|serve_step].
  - eapply (returns_bind _ (fun n _ => _)).
    { eapply put_eased; [done..|]. eapply eases_trans; [by apply same_eases|]. eases_tac. }
    intros [] w2 [H2 Hs2]. apply Hg; [done|]. apply (slot_tries _ _ _ _ Hs2).
    eapply Nat.lt_le_trans; [|exact Ht]. rewrite <- (same_tries _ _ HP). unfold tries. cbn. bools.
    destruct (c_pool_retry_used a); [done|clear; lia].
  - eapply (returns_bind _ (fun n _ => _)); [by eapply put_eased, same_eases|]. intros [] w2 [H2 _].
    eapply returns_mono; [by apply fail_drive_runs|]. intros [] w' [H _]. by apply at_inv in H.
  - serve_step. eapply (returns_bind _ (fun n _ => _)).
    { eapply put_eased; [done..|]. eapply eases_trans; [by apply same_eases|]. eases_tac. }
    intros [] w2 [H2 Hs2]. apply Hg; [done|]. apply (slot_tries _ _ _ _ Hs2).
    eapply Nat.lt_le_trans; [|exact Ht]. rewrite <- (same_tries _ _ HP). unfold tries. cbn. bools.
    match goal with H : (_ <=? _)%nat = false |- _ => apply Nat.leb_gt in H; revert H; clear; lia end.
Qed.

Lemma open_upstream_runs fd k t : forall (f : nat -> Z -> M unit) w,
  (forall w, At cfg 0 fd k w -> returns (fun n => f n fd) w (fun _ => Inv cfg 0)) ->
  At cfg 0 fd k w -> tries_at_most t fd w ->
  returns (fun n => open_upstream (f n) n fd) w (fun _ => Inv cfg 0).
Proof.
  induction (lt_wf t) as [t _ IH]. intros f w Hf Hat Ht. apply returns_fuel. simpl.
  assert (Hf1 : forall w, At cfg 0 fd k w -> returns (fun n => f (S n) fd) w (fun _ => Inv cfg 0)).
  { intros w' H. apply (returns_more (fun n => f n fd)). by apply Hf. }
  assert (Hretry : forall w, At cfg 0 fd k w -> tries_at_most t fd w ->
    returns (fun n => retry_or_fail n (open_upstream (f (S n)) n) fd) w (fun _ => Inv cfg 0)).
  { intros w' H1 H2. apply (retry_runs fd k t (fun n => open_upstream (f (S n)) n)); [done..|].
    intros w2 H3 (t'&Hlt&H4). by apply (IH t' Hlt (fun n => f (S n))). }
  eapply (with_client_runs _ _ _ _ (fun n c => _)); [exact Hat| |].
  2: { intros w' H1. by apply at_inv in H1. }
  intros c w1 Hc Hk Hok H1. specialize (Ht _ Hc).
  destruct (c_targets c !! c_attempt c) as [a|].
  2: { eapply (returns_bind _ (fun n _ => _)); [by eapply put_eased, eases_refl|]. intros [] w2 [H2 _].
       eapply returns_mono; [by apply fail_drive_runs|]. intros [] w' [H _]. by apply at_inv in H. }
  serve_step. know_config. serve_step. deadline_step. serve_step. match goal with H : same _ ?x |- _ => rename H into Hsame; rename x into c' end.
  assert (He : eases cfg c c') by (eapply eases_trans; [|by apply same_eases]; eases_tac).
  assert (Ht' : (tries c' <= t)%nat) by (by rewrite (same_tries _ _ Hsame)). clear Hsame. serve_step. destruct (pool_take _ _) as [[up|] pool]; serve_step.
  - eapply (returns_bind _ (fun n _ => _)); [by eapply put_other_runs|]. intros [] v1 [Hv1 _].
    put_back He. by apply Hf1.
  - serve_step. serve_step; [serve_step|].
    + eapply (returns_bind _ (fun n _ => _)); [by eapply put_other_runs|]. intros [] v1 [Hv1 _].
      serve_step; [put_back He; by apply Hf1|]. deadline_step. serve_step. serve_step.
      * put_last He. by apply at_inv in Hv.
      * eapply (returns_bind _ (fun n _ => _)); [by eapply put_other_runs|]. intros [] v2 [Hv2 _].
        do 2 serve_step. put_back He. apply Hretry; [done|]. intros x. rewrite Hs. by intros [= <-].
    + serve_step. put_back He. apply Hretry; [done|]. intros x. rewrite Hs. by intros [= <-].
Qed.

(** ** Completing an exchange *)

Lemma park_idle_runs d fd k up a reading w :
  At cfg d fd k w -> returns (fun _ => park_idle up a reading) w (fun _ w' => At cfg d fd k w').
Proof.
  intros Hat. unfold park_idle.
  eapply (returns_bind _ (fun n _ => _)); [by eapply put_other_runs|]. intros [] v [Hv _].
  do 2 serve_step. destruct (pool_put _ _ _ _) as [[refused|] pool]; serve_step.
  - eapply returns_mono; [by eapply close_runs|]. by intros [] w' [].
  - serve_step; [by apply returns_ret|]. serve_step. serve_step; [by apply returns_ret|]. serve_step.
    eapply returns_mono; [by eapply close_runs|]. by intros [] w' [].
Qed.

Lemma finish_runs fd k w :
  At cfg 0 fd k w -> returns (fun _ => finish_response fd) w (fun _ w' => At cfg 0 fd k w' /\ calm fd w').
Proof.
  intros Hat. unfold finish_response. eapply (with_client_runs _ _ _ _ (fun _ _ => _)); [exact Hat| |].
  - intros c w1 _ Hk Hok H1. serve_step.
    apply (returns_bind _ (fun n _ => _) _ (fun _ => At cfg (tally (c_drain_counted c)) fd 0)).
    { destruct (c_upstream a) as [up|]; [|by apply returns_ret].
      destruct (c_upstream_keep_alive a && _), (c_targets a !! c_attempt a); try by apply park_idle_runs.
      all: eapply returns_mono; [by eapply close_runs|]; by intros [] w' []. }
    intros [] v Hv. apply same_eases in HP. put_last HP.
    split; [done|]. apply (calm_at _ _ _ Hs). by destruct (c_client_keep_alive a).
  - intros w' H1. split; [apply (at_le _ _ _ 0); [done|lia]|]. by eapply at_zero_calm.
Qed.

Lemma upstream_failed_runs (f : nat -> Z -> M unit) fd k w :
  At cfg 0 fd k w ->
  (forall w, At cfg 0 fd k w -> returns (fun n => f n fd) w (fun _ => Inv cfg 0)) ->
  returns (fun n => upstream_failed (f n) n fd) w (fun _ => Inv cfg 0).
Proof.
  intros Hat Hf. unfold upstream_failed. eapply (with_client_runs _ _ _ _ (fun n c => _)); [exact Hat| |].
  2: { intros w' H1. by apply at_inv in H1. }
  intros c w1 _ Hk Hok H1. pose proof (eases_refl c) as He. serve_step.
  - put_back He. eapply (returns_bind _ (fun n _ => _)); [by apply close_upstream_runs|]. intros [] v1 [Hv1 _].
    eapply returns_mono; [by apply drive_runs|]. intros [] w' [Hw' _]. by apply at_inv in Hw'.
  - put_back He. eapply (returns_bind _ (fun n _ => _)); [by apply close_upstream_runs|]. intros [] v1 [Hv1 Hs1].
    apply (retry_runs fd k (tries c) (fun n => open_upstream (f n) n)); [done| |].
    + intros c' Hc'. apply Hs1 in Hc'. rewrite Hs in Hc'. by injection Hc' as <-.
    + intros w2 H2 (t'&_&Ht'). by eapply open_upstream_runs.
Qed.

(** After a response has begun, a failed upstream only closes. *)
Lemma upstream_failed_seen_runs (g : nat -> Z -> M unit) fd k w c :
  At cfg 0 fd k w -> slot_at w fd = Slot_Client c -> c_response_head_seen c = true ->
  returns (fun n => upstream_failed (g n) n fd) w (fun _ w' => At cfg 0 fd k w' /\ calm fd w').
Proof.
  intros Hat Hs Hseen. unfold upstream_failed. eapply (with_client_runs _ _ _ _ (fun n c => _)); [exact Hat| |].
  2: { intros w' H1. split; [apply (at_le _ _ _ 0); [done|lia]|]. by eapply at_zero_calm. }
  intros c' w1 Hc' Hk Hok H1. rewrite Hs in Hc'. injection Hc' as <-. rewrite Hseen.
  pose proof (eases_refl c) as He. put_back He.
  eapply (returns_bind _ (fun n _ => _)); [by apply close_upstream_runs|]. intros [] v1 [Hv1 Hs1].
  eapply returns_mono; [by apply drive_runs|]. intros [] w' [Hw' Hcalm]. split; [done|]. apply Hcalm.
  eapply calm_sheds; [exact Hs1|]. by apply (calm_at _ _ _ Hs0).
Qed.

Lemma upstream_garbage_runs (g : nat -> Z -> M unit) fd k w :
  At cfg 0 fd k w ->
  returns (fun n => upstream_garbage (g n) n fd) w (fun _ w' => At cfg 0 fd k w').
Proof.
  intros Hat. unfold upstream_garbage. serve_step.
  destruct (slot_at u fd) as [| |c| | | |] eqn:Hs; try by apply returns_ret.
  serve_step; [eapply returns_mono; [by eapply upstream_failed_seen_runs|by intros [] w' []]|].
  eapply (with_client_runs _ _ _ _ (fun n c => _)); [exact Hat| |].
  2: { intros w' H1. apply (at_le _ _ _ 0); [done|lia]. }
  intros c' w1 _ Hk Hok H1. pose proof (eases_refl c') as He. put_back He.
  eapply (returns_bind _ (fun n _ => _)); [by apply close_upstream_runs|]. intros [] v1 [Hv1 _].
  eapply returns_mono; [by apply fail_drive_runs|by intros [] w' []].
Qed.

Lemma begin_tunnel_runs fd k w :
  At cfg 0 fd k w ->
  (forall c, slot_at w fd = Slot_Client c -> spans_readable (c_up_head c) (c_up_inbox c) = true) ->
  returns (fun n => begin_tunnel n fd) w (fun _ w' => At cfg 0 fd k w' /\ calm fd w').
Proof.
  intros Hat Hread. unfold begin_tunnel. eapply (with_client_runs _ _ _ _ (fun n c => _)); [exact Hat| |].
  2: { intros w' H1. split; [apply (at_le _ _ _ 0); [done|lia]|]. by eapply at_zero_calm. }
  intros c w1 Hc Hk Hok H1. pose proof (eases_refl c) as He. specialize (Hread _ Hc).
  destruct (c_upgrade c) as [protocol|].
  - spans_step. serve_step. subst a. serve_step. serve_step. rename a0 into a1, a into a0.
    assert (He' : eases cfg c a1) by (eapply eases_trans; [|by apply same_eases]; eapply eases_trans; [|by apply same_eases]; eases_tac).
    eapply returns_mono; [by eapply put_eased|]. intros [] v [Hv Hs]. split; [done|]. apply (calm_at _ _ _ Hs).
    assert (Hp : c_phase a1 = Phase_Tunnel) by (unsame; simpl in *; congruence). by rewrite Hp.
  - put_back He. by apply fail_drive_runs.
Qed.

(** ** Relaying *)

(** A body is moved on without failing: what is left is no longer. *)
Lemma move_body_runs b inbox :
  body_ok b -> exists b' r, move_body b inbox = Some (b', r) /\ body_ok b'
    /\ forall moved rest, r = Ok (moved, rest) -> inbox = moved ++ rest.
Proof.
  intros Hb. unfold move_body. destruct (negb _ && negb _).
  2: { exists b, (Ok ([], inbox)). split_and!; [done|done|]. by intros ? ? [= <- <-]. }
  destruct b as [|left_|scan|]; simpl.
  - eexists _, _. split_and!; [done|done|]. by intros ? ? [= <- <-].
  - eexists _, _. split_and!; [done|by case_match|]. intros ? ? [= <- <-]. by rewrite take_drop.
  - destruct (run_total scan 0 inbox) as (scan'&r&Hr). simpl in Hb. rewrite scan_run, Hr by done.
    pose proof (run_wf _ _ _ _ _ Hb Hr) as Hwf. destruct r as [[n d]|e].
    + eexists _, _. split_and!; [done|by destruct d|]. intros ? ? [= <- <-]. by rewrite take_drop.
    + by eexists _, _.
  - eexists _, _. split_and!; [done|done|]. intros ? ? [= <- <-]. by rewrite take_drop.
Qed.

Lemma response_head_runs (g : nat -> Z -> M unit) fd k c w :
  At cfg (tally (c_drain_counted c)) fd 0 w -> conn_ok cfg c -> (S (weight c) <= k)%nat ->
  returns (fun n => response_head (g n) n fd c) w (fun r w' =>
    match r with
    | inl early => At cfg 0 fd k w' /\ (early = true -> calm fd w')
    | inr c' => At cfg (tally (c_drain_counted c')) fd 0 w' /\ conn_ok cfg c' /\ (S (weight c') <= k)%nat
    end).
Proof.
  intros Hat Hok Hk. unfold response_head. pose proof (eases_refl c) as He. serve_step; [by apply returns_ret|].
  destruct (parse_response_head _ _) as [h [[]|]] eqn:Hp.
  - apply response_head_readable in Hp as [Hread _]. spans_step. serve_step.
    + put_back He. eapply (returns_bind _ (fun n _ => _)).
      { apply begin_tunnel_runs; [done|]. intros c'. rewrite Hs. by intros [= <-]. }
      intros [] v1 [Hv1 Hc1]. by apply returns_ret.
    + destruct (response_framing _ _ _) as [framing|e].
      * serve_step. serve_step. know_config. serve_step. subst a0. deadline_step. serve_step. rename a0 into a1.
        apply returns_ret.
        assert (He' : eases cfg c a1).
        { eapply eases_trans; [|eapply same_eases; exact HP0].
          eapply eases_trans; [|eapply eases_trans; [eapply same_eases; exact HP|]]; eases_tac. }
        destruct He' as (H1&H2&->). split_and!; [done|by apply H1|]. revert H2 Hk. clear. lia.
      * put_back He. eapply (returns_bind _ (fun n _ => _)); [by apply upstream_garbage_runs|].
        intros [] v1 Hv1. by apply returns_ret.
  - put_back He. by apply returns_ret.
  - put_back He. eapply (returns_bind _ (fun n _ => _)); [by apply upstream_garbage_runs|].
    intros [] v1 Hv1. by apply returns_ret.
Qed.

Lemma parse_response_runs (g : nat -> Z -> M unit) fd k w :
  At cfg 0 fd k w ->
  returns (fun n => parse_response (g n) n fd) w (fun progressed w' =>
    At cfg 0 fd k w' /\ (progressed = true -> (slot_measure w' fd <= k)%nat)).
Proof.
  intros Hat. unfold parse_response. eapply (with_client_runs _ _ _ _ (fun n c => _)); [exact Hat| |].
  2: { intros w' H1. split; [apply (at_le _ _ _ 0); [done|lia]|done]. }
  intros c w1 _ Hk Hok H1. pose proof (eases_refl c) as He. serve_step.
  { put_back He. by apply returns_ret. }
  eapply (returns_bind _ (fun n _ => _)); [by apply response_head_runs|].
  intros [early|c'] v Hv.
  { destruct Hv as [Hv Hc]. apply returns_ret. split; [done|]. intros ->. by eapply calm_measure; [|apply Hc]. }
  destruct Hv as (Hv&Hok'&Hk').
  destruct (move_body_runs (c_response_body c') (c_up_inbox c')) as (body&r&->&Hb&Hr); [by apply Hok'|].
  clear He. pose proof (eases_refl c') as He.
  destruct r as [[moved rest]|e].
  - specialize (Hr _ _ eq_refl).
    match goal with |- returns (fun _ => put_client fd ?x ≫= _) _ _ => assert (Hx : eases cfg c' x) end.
    { unfold eases, conn_ok, weight. cbn. rewrite Hr, length_app. split_and!; [tauto|clear; lia|done]. }
    eapply (returns_bind _ (fun n _ => _)); [by eapply put_eased|]. intros [] v1 [Hv1 Hs1].
    serve_step.
    + eapply (returns_bind _ (fun n _ => _)); [by apply finish_runs|]. intros [] v2 [Hv2 Hc2].
      apply returns_ret. split; [done|]. intros _. by eapply calm_measure.
    + apply returns_ret. split; [done|]. intros Hm. unfold slot_measure. rewrite Hs1.
      unfold weight in *. cbn. rewrite Hr, length_app in Hk'.
      assert (0 < length moved)%nat by (destruct moved; [done|simpl; clear; lia]).
      destruct (c_phase c'); simpl rank; clear - Hk' H; lia.
  - match goal with |- returns (fun _ => put_client fd ?x ≫= _) _ _ => assert (Hx : eases cfg c' x) end.
    { unfold eases, conn_ok, weight. cbn. split_and!; [tauto|clear; lia|done]. }
    eapply (returns_bind _ (fun n _ => _)); [by eapply put_eased|]. intros [] v1 [Hv1 _].
    eapply (returns_bind _ (fun n _ => _)); [by apply upstream_garbage_runs|]. intros [] v2 Hv2.
    by apply returns_ret.
Qed.

Lemma pump_bodies_runs (g : nat -> Z -> M unit) fd k w :
  At cfg 0 fd k w ->
  returns (fun n => pump_bodies (g n) n fd) w (fun progressed w' =>
    At cfg 0 fd k w' /\ (progressed = true -> (slot_measure w' fd <= k)%nat)).
Proof.
  intros Hat. unfold pump_bodies.
  apply (returns_bind _ (fun n _ => _) _ (fun r w' => At cfg 0 fd k w' /\
    match r with inl early => early = false | inr p => p = true -> At cfg 0 fd (k - 1) w' end)).
  - eapply (with_client_runs _ _ _ _ (fun _ _ => _)); [exact Hat| |].
    2: { intros w' H1. split; [apply (at_le _ _ _ 0); [done|lia]|done]. }
    intros c w1 _ Hk Hok H1. serve_step.
    destruct (move_body_runs (c_request_body c) (c_inbox c)) as (body&r&->&Hb&Hr); [by apply Hok|].
    destruct r as [[moved rest]|e].
    + specialize (Hr _ _ eq_refl).
      match goal with |- returns (fun _ => (if _ then send_mirror ?x else _) ≫= _) _ _ =>
        assert (Hx : eases cfg c x /\ (weight x + 2 * length moved)%nat = weight c); [|generalize dependent x] end.
      { unfold eases, conn_ok, weight. pose proof (mirror_body_same (cfg_mirror_max_body (w_config w1))
          (c <| c_up_outbox := c_up_outbox c ++ moved |>) moved) as Hm. rewrite_same.
        rewrite length_app. split_and!; [tauto|clear; lia|done|clear; lia]. }
      intros c1 [He Hw].
      apply (returns_bind _ (fun n _ => _) _ (fun c2 w' => At cfg (tally (c_drain_counted c)) fd 0 w' /\ same c1 c2)).
      { serve_step; [|by apply returns_ret]. eapply returns_hushed_last; [apply hushed_send_mirror|].
        intros c2 v Hq Hs. by carry Hq. }
      intros c2 v [Hv Hs]. pose proof (same_eases _ _ Hs) as Hs'.
      assert (Hc2 : eases cfg c c2) by (by eapply eases_trans). serve_step.
      * put_back Hc2. eapply (returns_bind _ (fun n _ => _)); [by apply fail_runs|]. intros [] v1 [Hv1 _].
        by apply returns_ret.
      * eapply (returns_bind _ (fun n _ => _)); [by eapply put_eased|]. intros [] v1 [Hv1 Hs1].
        apply returns_ret. split; [done|]. intros Hm. destruct Hv1 as [Hi _]. split; [done|].
        unfold slot_weight. rewrite Hs1.
        assert (0 < length moved)%nat by (destruct moved; [done|simpl; clear; lia]).
        destruct Hs' as (_&Hs'&_). clear - Hs' H Hw Hk. lia.
    + match goal with |- returns (fun _ => put_client fd ?x ≫= _) _ _ => assert (Hx : eases cfg c x) end.
      { unfold eases, conn_ok, weight. cbn. split_and!; [tauto|clear; lia|done]. }
      eapply (returns_bind _ (fun n _ => _)); [by eapply put_eased|]. intros [] v1 [Hv1 _].
      eapply (returns_bind _ (fun n _ => _)); [by apply fail_codec_runs|]. intros [] v2 [Hv2 _].
      by apply returns_ret.
  - intros [early|p] v [Hv Hp].
    + subst early. by apply returns_ret.
    + destruct p.
      * specialize (Hp eq_refl). eapply (returns_bind _ (fun n _ => _)); [by apply parse_response_runs|].
        intros moved v1 [Hv1 _]. apply returns_ret. split; [apply (at_le _ _ _ (k - 1)); [done|lia]|].
        intros _. pose proof (measure_weight v1 fd) as Hmw. destruct Hv1 as [_ Hv1].
        unfold slot_weight, slot_measure in *. destruct (slot_at v1 fd); lia.
      * eapply (returns_bind _ (fun n _ => _)); [by apply parse_response_runs|].
        intros moved v1 [Hv1 Hm]. apply returns_ret. split; [done|]. rewrite orb_false_r. auto.
Qed.

Lemma pump_tunnel_runs fd k w :
  At cfg 0 fd k w -> calm fd w ->
  returns (fun _ => pump_tunnel fd) w (fun progressed w' =>
    At cfg 0 fd k w' /\ calm fd w' /\ (progressed = true -> At cfg 0 fd (k - 1) w')).
Proof.
  intros Hat Hcalm. unfold pump_tunnel. eapply (with_client_runs _ _ _ _ (fun _ _ => _)); [exact Hat| |].
  2: { intros w' H1. split_and!; [apply (at_le _ _ _ 0); [done|lia]|by eapply at_zero_calm|done]. }
  intros c w1 Hc Hk Hok H1. 
  apply (returns_bind _ (fun n _ => _) _ (fun _ => At cfg (tally (c_drain_counted c)) fd 0)).
  { serve_step; [|by apply returns_ret]. destruct (c_upstream _); [|by apply returns_ret].
    eapply returns_hushed_last; [apply hushed_shutdown_write|]. intros [] v Hq _. by carry Hq. }
  intros [] v Hv. specialize (Hcalm _ Hc).
  apply (returns_bind _ (fun n _ => _) _ (fun c2 w' => At cfg (tally (c_drain_counted c)) fd 0 w'
    /\ eases cfg c c2 /\ weight c2 = 0%nat /\ rank (c_phase c2) = 0%nat)).
  { serve_step; [destruct (c_tls _); [|serve_step; [|serve_step]]|].
    all: apply returns_ret; split; [done|]; split; [eases_tac|by split]. }
  intros c2 v1 (Hv1&He&Hw0&Hr0).
  eapply (returns_bind _ (fun n _ => _)); [by eapply put_eased|]. intros [] v2 [Hv2 Hs2].
  apply returns_ret. split_and!; [done|by apply (calm_at _ _ _ Hs2)|]. intros Hm. destruct Hv2 as [Hi _].
  split; [done|]. unfold slot_weight. rewrite Hs2, Hw0. unfold weight in Hk.
  apply orb_true_iff in Hm as [Hm|Hm]; bools;
    [destruct (c_inbox c); [done|]|destruct (c_up_inbox c); [done|]]; simpl in Hk; clear - Hk; lia.
Qed.

(** ** Routing a request *)

Lemma refuse_runs fd k c c' counter status body close_ un w :
  At cfg (tally (c_drain_counted c)) fd 0 w -> conn_ok cfg c -> (S (weight c) <= k)%nat -> eases cfg c c' ->
  returns (fun _ => refuse fd c' counter status body close_ un) w (fun _ => Inv cfg 0).
Proof.
  intros Hat Hok Hk He. unfold refuse.
  apply (returns_bind _ (fun n _ => _) _ (fun _ => At cfg (tally (c_drain_counted c)) fd 0)).
  { destruct counter; [|by apply returns_ret]. eapply returns_hushed_last; [apply hushed_count|].
    intros [] v Hq _. by carry Hq. }
  intros [] v Hv. eapply (returns_bind _ (fun n _ => _)); [by eapply put_eased|]. intros [] v1 [Hv1 _].
  eapply returns_mono; [by apply fail_unsupported_runs|]. intros [] w' [Hw' _]. by apply at_inv in Hw'.
Qed.

Lemma send_upstream_runs (g : nat -> Z -> M unit) fd k c c' table mirror framing target0 w :
  At cfg (tally (c_drain_counted c)) fd 0 w -> conn_ok cfg c -> (S (weight c) <= k)%nat -> eases cfg c c' ->
  (1 <= head_len (c_head c'))%nat -> c_inbox c' <> [] ->
  (forall w, At cfg 0 fd (k - 2) w -> returns (fun n => g n fd) w (fun _ => Inv cfg 0)) ->
  returns (fun n => send_upstream (g n) fd c' table mirror framing target0) w (fun _ => Inv cfg 0).
Proof.
  intros Hat Hok Hk He Hlen Hin Hg. unfold send_upstream. serve_step. destruct (hex_id _) as [fresh after].
  do 2 serve_step.
  apply (returns_bind _ (fun n _ => _) _ (fun c2 w' => At cfg (tally (c_drain_counted c)) fd 0 w' /\ same c' c2)).
  { serve_step; [|by apply returns_ret]. eapply returns_hushed_last; [apply hushed_send_mirror|].
    intros c2 v Hq Hs. carry Hq. split; [done|]. unfold same in *. by rewrite Hs, HP. }
  clear HP. intros c2 v0 [Hv Hs].
  eapply (returns_hushed _ _ (fun n _ => _)); [apply hushed_drain|]. intros rest v Hq ->. carry Hq.
  match goal with |- returns (fun _ => put_client fd ?x ≫= _) _ _ =>
    assert (Hx : eases cfg c x /\ (weight x + 2 <= weight c)%nat); [|generalize dependent x] end.
  { split; [eapply eases_trans; [exact He|]; eapply eases_trans; [by apply same_eases|]; eases_tac|].
    destruct He as (_&He&_). unfold weight in *. rewrite_same. rewrite length_drop.
    assert (Hne : (0 < length (c_inbox c'))%nat) by (destruct (c_inbox c'); [done|simpl; clear; lia]).
    clear - He Hne Hlen. lia. }
  intros x [Hx Hw]. eapply (returns_bind _ (fun n _ => _)); [by eapply put_eased|]. intros [] v1 [[Hi _] Hs1].
  apply Hg. split; [done|]. unfold slot_weight. rewrite Hs1. clear - Hw Hk. lia.
Qed.

Lemma attempts_single f n m : f <> Empty -> attempts f n m = 1%nat.
Proof. intros Hf. unfold attempts. by rewrite bool_decide_eq_false_2. Qed.
Lemma targets_length b i n : (length (targets b i n) <= n)%nat.
Proof.
  unfold targets. pose proof (length_seq n 0) as Hn. revert Hn. generalize (seq 0 n). intros l <-.
  induction l as [|x l IH]; [done|]. cbn. destruct (endpoint_at b i x); simpl; lia.
Qed.

Lemma route_request_runs (g : nat -> Z -> M unit) fd k w :
  At cfg 0 fd k w ->
  (forall c, slot_at w fd = Slot_Client c ->
     (1 <= head_len (c_head c))%nat /\ c_inbox c <> [] /\ spans_readable (c_head c) (c_inbox c) = true) ->
  (forall w, At cfg 0 fd (k - 2) w -> returns (fun n => g n fd) w (fun _ => Inv cfg 0)) ->
  returns (fun n => route_request (g n) fd) w (fun _ => Inv cfg 0).
Proof.
  intros Hat Hhead Hg. unfold route_request. eapply (with_client_runs _ _ _ _ (fun _ _ => _)); [exact Hat| |].
  2: { intros w' H1. by apply at_inv in H1. }
  intros c w1 Hc Hk Hok H1. destruct (Hhead _ Hc) as (Hlen&Hin&Hread). pose proof (eases_refl c) as He. spans_step.
  destruct (request_framing _ _) as [framing|e].
  2: { put_back He. eapply returns_mono; [by apply fail_codec_runs|]. intros [] w' [Hw' _]. by apply at_inv in Hw'. }
  cbv zeta. match goal with |- context [head_start (c_head ?x)] => set (c1 := x) end.
  assert (He1 : eases cfg c c1) by eases_tac.
  assert (Hc1 : c_head c1 = c_head c /\ c_inbox c1 = c_inbox c) by done. clearbody c1. destruct Hc1 as [Hh1 Hi1].
  do 2 serve_step. destruct (head_start (c_head c1)) as [m target ver|].
  2: { eapply (returns_bind _ (fun n _ => _)); [by eapply put_eased|]. intros [] v [Hv _].
       eapply returns_mono; [by apply fail_runs|]. intros [] w' [Hw' _]. by apply at_inv in Hw'. }
  serve_step. destruct (Forwarding.route_request _ _ _ _ _ _) as [[matched|] rng]; serve_step.
  2: { by eapply refuse_runs. }
  match goal with |- context [is_grpc (c_head ?x)] => set (c2 := x) end.
  assert (He2 : eases cfg c c2) by (eapply eases_trans; [exact He1|eases_tac]).
  assert (Hc2 : c_head c2 = c_head c1 /\ c_inbox c2 = c_inbox c1) by done. clearbody c2. destruct Hc2 as [Hh2 Hi2].
  serve_step; [by eapply refuse_runs|]. serve_step; [by eapply refuse_runs|].
  do 2 serve_step. destruct (first_endpoint _ _ _ _) as [[[first|] rng'] heap]; serve_step.
  2: { by eapply refuse_runs. }
  set (allowed := attempts _ _ _). set (ts := targets _ _ _).
  assert (Hts : framing <> Empty -> (length ts <= 1)%nat).
  { intros Hf. unfold ts. rewrite targets_length. unfold allowed. by rewrite attempts_single. }
  change (c_targets (c2 <| c_targets := ts |>)) with ts. destruct ts as [|target0 rest] eqn:Hrest.
  - eapply refuse_runs; [done..|]. eapply eases_trans; [exact He2|eases_tac].
  - eapply send_upstream_runs; [eassumption..| | | |exact Hg].
    + eapply eases_trans; [exact He2|]. unfold eases, conn_ok, weight. cbn.
      split_and!; [|clear; lia|done]. intros (?&?&?&_&?&?). split_and!; try done.
      intros Hf. apply bool_decide_eq_false in Hf. by apply Hts.
    + cbn. congruence.
    + cbn. congruence.
Qed.

Lemma parse_request_runs (f : nat -> Z -> M unit) fd k w :
  At cfg 0 fd k w ->
  (forall w, At cfg 0 fd (k - 2) w -> returns (fun n => f n fd) w (fun _ => Inv cfg 0)) ->
  returns (fun n => parse_request (f n) n fd) w (fun progressed w' => progressed = false /\ Inv cfg 0 w').
Proof.
  intros Hat Hf. unfold parse_request. eapply (with_client_runs _ _ _ _ (fun _ _ => _)); [exact Hat| |].
  2: { intros w' H1. by apply at_inv in H1. }
  intros c w1 Hc Hk Hok H1. pose proof (eases_refl c) as He. serve_step. rewrite (at_config _ _ _ _ _ H1).
  serve_step; [serve_step|].
  - eapply (returns_bind _ (fun n _ => _)).
    { eapply put_eased; [done..|]. unfold eases, conn_ok, weight. cbn. split_and!; [tauto|clear; lia|done]. }
    intros [] v [Hv _]. eapply (returns_bind _ (fun n _ => _)); [by eapply hand_off_runs|].
    intros [] v1 Hv1. apply returns_ret. split; [done|]. by apply at_inv in Hv1.
  - put_back He. eapply (returns_bind _ (fun n _ => _)); [by apply fail_runs|].
    intros [] v1 [Hv1 _]. apply returns_ret. split; [done|]. by apply at_inv in Hv1.
  - destruct (parse_request_head _ _) as [h [[]|e]] eqn:Hp.
    + destruct (request_head_readable _ _ _ Hp) as [Hread _]. apply parse_head_length in Hp as [Hlen Hin]. put_back He.
      eapply (returns_bind _ (fun n _ => _)).
      { apply (route_request_runs (fun n => open_upstream (f n) n) fd k); [done| |].
        - intros c'. rewrite Hs. by intros [= <-].
        - intros v1 Hv1. destruct (some_tries fd v1) as [t Ht]. by eapply open_upstream_runs. }
      intros [] v1 Hv1. by apply returns_ret.
    + put_back He. apply returns_ret. split; [done|]. by apply at_inv in Hv.
    + put_back He. eapply (returns_bind _ (fun n _ => _)); [by apply fail_codec_runs|].
      intros [] v1 [Hv1 _]. apply returns_ret. split; [done|]. by apply at_inv in Hv1.
Qed.

(** ** The loop *)

Lemma advance_measured fd k : forall w, Inv cfg 0 w -> (slot_measure w fd <= k)%nat ->
  returns (fun n => advance n fd) w (fun _ => Inv cfg 0).
Proof.
  induction (lt_wf k) as [k _ IH]. intros w Hi Hk. apply returns_fuel. simpl.
  pose proof (inv_at _ _ fd _ Hi) as Hat. apply (returns_slot fd (fun n s => _)). intros u Hq _.
  assert (Hku : (slot_measure u fd <= k)%nat) by (unfold slot_measure in *; by rewrite (quiet_slot _ _ _ Hq)).
  rewrite <- (quiet_slot _ _ fd Hq). carry Hq.
  destruct (slot_at u fd) as [| |c| | | |] eqn:Hs; try (apply returns_ret; by apply at_inv in Hat).
  unfold slot_measure in Hku. rewrite Hs in Hku.
  assert (Hweight : At cfg 0 fd (S (weight c)) u).
  { destruct Hat as [Hi' _]. split; [done|]. unfold slot_weight. by rewrite Hs. }
  apply (returns_bind _ (fun n _ => _) _ (fun progressed w' => Inv cfg 0 w' /\
    (progressed = true -> (slot_measure w' fd < k)%nat))).
  - assert (Hloop : forall v, At cfg 0 fd (S (weight c) - 2) v -> returns (fun n => advance n fd) v (fun _ => Inv cfg 0)).
    { intros v [Hv1 Hv2]. apply (IH (k - 1)%nat); [clear - Hku; lia|done|].
      unfold slot_measure, slot_weight in *. destruct (slot_at v fd) as [| |c'| | | |]; try (clear; lia).
      assert (rank (c_phase c') <= 1)%nat by (by destruct (c_phase c'); simpl; clear; lia). lia. }
    destruct (c_phase c) eqn:Hp.
    + eapply returns_mono; [by eapply parse_request_runs|]. intros p v [-> Hv]. by split.
    + by apply returns_ret; split; [apply at_inv in Hat|].
    + eapply returns_mono; [by apply (pump_bodies_runs (fun n => advance n))|].
      intros p v [Hv Hm]. split; [by apply at_inv in Hv|]. intros Hpt. specialize (Hm Hpt).
      simpl in Hku. clear - Hm Hku. lia.
    + eapply returns_mono; [by apply (pump_bodies_runs (fun n => advance n))|].
      intros p v [Hv Hm]. split; [by apply at_inv in Hv|]. intros Hpt. specialize (Hm Hpt).
      simpl in Hku. clear - Hm Hku. lia.
    + assert (Hcalm : calm fd u) by (apply (calm_at _ _ _ Hs); by rewrite Hp).
      eapply returns_mono; [by apply pump_tunnel_runs|].
      intros p v (Hv&Hc&Hm). split; [by apply at_inv in Hv|]. intros Hpt. specialize (Hm Hpt).
      pose proof (calm_measure _ _ _ _ Hm Hc). simpl in Hku. clear - H Hku. lia.
    + by apply returns_ret; split; [apply at_inv in Hat|].
  - intros progressed v [Hv Hm]. destruct progressed.
    + apply (IH (k - 1)%nat); [specialize (Hm eq_refl); clear - Hm; lia|done|specialize (Hm eq_refl); clear - Hm; lia].
    + eapply returns_mono; [eapply drive_runs, inv_at, Hv|]. intros [] w' [Hw' _]. by apply at_inv in Hw'.
Qed.

Lemma advance_runs fd w : Inv cfg 0 w -> returns (fun n => advance n fd) w (fun _ => Inv cfg 0).
Proof. intros Hi. by apply (advance_measured fd (slot_measure w fd)). Qed.

(** ** Completions *)

(** Sound if [c] is, and counted the same. *)
Definition keeps (c c' : Conn) : Prop :=
  (conn_ok cfg c -> conn_ok cfg c') /\ c_drain_counted c' = c_drain_counted c.
Lemma keeps_refl c : keeps c c.
Proof. done. Qed.
Lemma keeps_trans c1 c2 c3 : keeps c1 c2 -> keeps c2 c3 -> keeps c1 c3.
Proof. intros (?&?) (?&?). split; [auto|congruence]. Qed.

Ltac keeps_tac :=
  unfold keeps, conn_ok; repeat case_match; (split; [cbn; intros; destruct_and?; split_and!; first [assumption|done|solve [auto]]|done]).

Lemma put_kept fd c c' w :
  At cfg (tally (c_drain_counted c)) fd 0 w -> conn_ok cfg c -> keeps c c' ->
  returns (fun _ => put_client fd c') w (fun _ w' => Inv cfg 0 w' /\ slot_at w' fd = Slot_Client c').
Proof.
  intros Hat Hok (Hc&Ht). eapply returns_mono; [eapply put_client_runs; [exact Hat|by rewrite Ht|by apply Hc]|].
  intros [] w' [H Hs]. split; [by apply at_inv in H|done].
Qed.

Lemma hushed_consume_preface c input : hushed (consume_preface c input) (fun r => keeps c r.2).
Proof.
  unfold consume_preface. destruct (c_preface c) as [preface|]; [|by apply hushed_ret].
  destruct (ProxyProtocol.parse _) as [[|consumed client]|].
  - apply hushed_ret. keeps_tac.
  - eapply hushed_bind; [apply hushed_idle_deadline|]. intros deadline _. apply hushed_ret. keeps_tac.
  - apply hushed_ret. keeps_tac.
Qed.

Lemma ingest_runs fd d c input w :
  At cfg d fd 0 w ->
  returns (fun _ => ingest c input) w (fun c' w' => At cfg d fd 0 w' /\ keeps c c').
Proof.
  intros Hat. unfold ingest.
  apply (returns_bind _ (fun n _ => _) _ (fun r w' => At cfg d fd 0 w' /\ keeps c r.2)).
  { serve_step; [|by apply returns_ret].
    eapply (returns_hushed _ _ (fun n _ => _)); [apply hushed_consume_preface|]. intros [pre c1] v Hq Hc1. carry Hq.
    by apply returns_ret. }
  intros [rest c1] v [Hv Hc1]. simpl in Hc1. destruct rest as [rest|]; [|by apply returns_ret].
  destruct (c_tls c1) as [session|]; [|apply returns_ret; split; [done|eapply keeps_trans; [exact Hc1|keeps_tac]]].
  serve_step. rewrite (at_config _ _ _ _ _ Hv). destruct (Tls.feed _ _ _) as [[session' plain] outcome].
  repeat serve_step; (split; [done|]; eapply keeps_trans; [exact Hc1|]); try keeps_tac.
  split; [|done]. unfold conn_ok. cbn. bools. tauto.
Qed.

Lemma on_client_read_runs fd cp w :
  Inv cfg 0 w -> returns (fun n => on_client_read n fd cp) w (fun _ => Inv cfg 0).
Proof.
  intros Hi. unfold on_client_read. destruct (buf cp) as [b|]; [|by apply returns_ret].
  apply (returns_bind _ (fun n _ => _) _ (fun _ => Inv cfg 0)).
  2: { intros [] v Hv; [by apply advance_runs|by apply returns_ret]. }
  eapply (with_client_runs _ _ _ _ (fun _ _ => _)); [by apply (inv_at _ _ fd)| |].
  2: { intros w' H1. by apply at_inv in H1. }
  intros c w1 _ _ Hok H1.
  apply (returns_bind _ (fun n _ => _) _ (fun c' w' => At cfg (tally (c_drain_counted c)) fd 0 w' /\ keeps c c')).
  - destruct (answer cp) as [k|e]; [|apply returns_ret; split; [done|keeps_tac]].
    serve_step.
    + serve_step. eapply (returns_bind _ (fun n _ => _)); [by apply ingest_runs|]. intros c' v [Hv Hc'].
      serve_step; [|by apply returns_ret]. serve_step. apply returns_ret. split; [done|].
      eapply keeps_trans; [exact Hc'|keeps_tac].
    + repeat serve_step; (split; [done|]); keeps_tac.
  - intros c' v [Hv Hc']. eapply (returns_bind _ (fun n _ => _)); [by eapply put_kept|]. intros [] v1 [Hv1 _].
    by apply returns_ret.
Qed.

(** A connection changed in place, and then its loop or the failure path. *)
Lemma changed_runs {A} fd (other : A) (change : Conn -> Conn) (k : nat -> Conn -> M A) (Q : A -> Worker -> Prop) w :
  Inv cfg 0 w -> (forall c, keeps c (change c)) ->
  (forall c w', Inv cfg 0 w' -> slot_at w' fd = Slot_Client (change c) -> returns (fun n => k n c) w' Q) ->
  (forall w', Inv cfg 0 w' -> Q other w') ->
  returns (fun n => with_client fd other (fun c => put_client fd (change c) ;; k n c)) w Q.
Proof.
  intros Hi Hch Hk Hother.
  eapply (with_client_runs _ _ _ _ (fun n c => _)); [by apply (inv_at _ _ fd)| |].
  2: { intros w' H1. apply at_inv in H1. auto. }
  intros c w1 _ _ Hok H1. eapply (returns_bind _ (fun n _ => _)); [by eapply put_kept|].
  intros [] v [Hv Hs]. by apply Hk.
Qed.

Lemma on_client_write_runs fd cp w :
  Inv cfg 0 w -> returns (fun n => on_client_write n fd cp) w (fun _ => Inv cfg 0).
Proof.
  intros Hi. unfold on_client_write. eapply (returns_bind _ (fun n _ => _) _ (fun _ => Inv cfg 0)).
  - apply (changed_runs fd false _ (fun n c => mret true)); [done| | |done].
    + intros c. keeps_tac.
    + intros c v Hv _. by apply returns_ret.
  - intros [] v Hv; [by apply advance_runs|by apply returns_ret].
Qed.

Lemma upstream_failed_inv fd w :
  Inv cfg 0 w -> returns (fun n => upstream_failed (advance n) n fd) w (fun _ => Inv cfg 0).
Proof.
  intros Hi. eapply (upstream_failed_runs (fun n => advance n)); [by apply inv_at|].
  intros v Hv. apply advance_runs. by apply at_inv in Hv.
Qed.

Lemma finish_inv fd w : Inv cfg 0 w -> returns (fun _ => finish_response fd) w (fun _ => Inv cfg 0).
Proof.
  intros Hi. eapply returns_mono; [by eapply finish_runs, inv_at|]. intros [] v [Hv _]. by apply at_inv in Hv.
Qed.

Lemma on_upstream_eof_runs fd w :
  Inv cfg 0 w -> returns (fun n => on_upstream_eof n fd) w (fun _ => Inv cfg 0).
Proof.
  intros Hi. unfold on_upstream_eof. eapply (with_client_runs _ _ _ _ (fun n c => _)); [by apply (inv_at _ _ fd)| |].
  2: { intros w' H1. by apply at_inv in H1. }
  intros c w1 _ _ Hok H1. serve_step; [|serve_step].
  - eapply (returns_bind _ (fun n _ => _)); [eapply put_kept; [done..|keeps_tac]|]. intros [] v [Hv _].
    by apply advance_runs.
  - eapply (returns_bind _ (fun n _ => _)); [eapply put_kept; [done..|keeps_tac]|]. intros [] v [Hv _].
    eapply (returns_bind _ (fun n _ => _)); [by apply finish_inv|]. intros [] v1 Hv1. by apply advance_runs.
  - eapply (returns_bind _ (fun n _ => _)); [eapply put_kept; [done..|keeps_tac]|]. intros [] v [Hv _].
    by apply upstream_failed_inv.
Qed.

Lemma close_inv d fd w : Inv cfg d w -> returns (fun _ => close fd) w (fun _ => Inv cfg d).
Proof.
  intros Hi. eapply returns_mono; [by eapply close_runs, (inv_at _ _ fd)|]. intros [] v [Hv _]. by apply at_inv in Hv.
Qed.

Lemma on_upstream_read_runs up cp w :
  Inv cfg 0 w -> returns (fun n => on_upstream_read n up cp) w (fun _ => Inv cfg 0).
Proof.
  intros Hi. unfold on_upstream_read. destruct (buf cp) as [b|]; [|by apply returns_ret].
  serve_step. destruct (slot_at u up) as [| | |down|a| |] eqn:Hs; try by apply returns_ret.
  - apply (returns_bind _ (fun n _ => _) _ (fun _ => Inv cfg 0)).
    + eapply (with_client_runs _ _ _ _ (fun n c => _)); [by apply (inv_at _ _ down)| |].
      2: { intros v H1. by apply at_inv in H1. }
      intros c v _ _ Hok H1.
      apply (returns_bind _ (fun n _ => _) _ (fun c' w' => At cfg (tally (c_drain_counted c)) down 0 w' /\ keeps c c')).
      { destruct (answer cp); [serve_step; [serve_step|]|]; apply returns_ret; (split; [done|keeps_tac]). }
      intros c' v1 [Hv1 Hc']. eapply (returns_bind _ (fun n _ => _)); [by eapply put_kept|].
      intros [] v2 [Hv2 _]. by apply returns_ret.
    + intros [] v Hv; [|by apply returns_ret]. destruct (answer cp) as [k|e]; [|by apply upstream_failed_inv].
      serve_step; [by apply advance_runs|by apply on_upstream_eof_runs].
  - serve_step. by apply close_inv.
Qed.

Lemma on_upstream_write_runs up cp w :
  Inv cfg 0 w -> returns (fun n => on_upstream_write n up cp) w (fun _ => Inv cfg 0).
Proof.
  intros Hi. unfold on_upstream_write. serve_step.
  destruct (slot_at u up) as [| | |down|a| |] eqn:Hs; try by apply returns_ret.
  apply (returns_bind _ (fun n _ => _) _ (fun _ => Inv cfg 0)).
  - apply (changed_runs down false _ (fun n c => mret true)); [done| | |done].
    + intros c. keeps_tac.
    + intros c v Hv _. by apply returns_ret.
  - intros [] v Hv; [|by apply returns_ret]. serve_step; [by apply upstream_failed_inv|by apply advance_runs].
Qed.

Lemma retry_inv fd w :
  Inv cfg 0 w -> returns (fun n => retry_or_fail n (open_upstream (advance n) n) fd) w (fun _ => Inv cfg 0).
Proof.
  intros Hi. destruct (some_tries fd w) as [t Ht].
  eapply (retry_runs fd _ t (fun n => open_upstream (advance n) n)); [by apply inv_at|done|].
  intros v Hv (t'&_&Ht'). eapply (open_upstream_runs fd _ t' (fun n => advance n)); [|exact Hv|done].
  intros v1 Hv1. apply advance_runs. by apply at_inv in Hv1.
Qed.

Lemma put_other_inv d up s w :
  Inv cfg d w -> plain s ->
  returns (fun _ => put_slot up s) w (fun _ => Inv cfg d).
Proof.
  intros Hi Hs. eapply returns_mono; [eapply put_other_runs, Hs; by apply (inv_at _ _ up)|].
  intros [] v [Hv _]. by apply at_inv in Hv.
Qed.

Lemma on_connected_runs up err w :
  Inv cfg 0 w -> returns (fun n => on_connected n up err) w (fun _ => Inv cfg 0).
Proof.
  intros Hi. unfold on_connected. serve_step.
  assert (Hlost : forall v, Inv cfg 0 v -> returns (fun _ => put_slot up Slot_Empty ;; sys_close up) v (fun _ => Inv cfg 0)).
  { intros v Hv. eapply (returns_bind _ (fun n _ => _)); [by apply put_other_inv|]. intros [] v1 Hv1.
    eapply returns_hushed_last; [apply hushed_sys_close|]. intros [] v2 Hq _. by carry Hq. }
  destruct (slot_at u up) as [| | |down| | |] eqn:Hs; try by apply Hlost.
  eapply (take_client_runs _ _ _ (fun _ => _) (fun n c => _)); [by apply (inv_at _ _ down)| |].
  2: { intros v Hv. apply at_inv in Hv. by apply Hlost. }
  intros c w1 _ _ Hok H1. serve_step.
  - eapply (returns_bind _ (fun n _ => _)); [eapply put_kept; [done..|keeps_tac]|]. intros [] v [Hv _].
    by apply advance_runs.
  - eapply (returns_bind _ (fun n _ => _)); [by eapply put_other_runs|]. intros [] v [Hv _]. do 2 serve_step.
    eapply (returns_bind _ (fun n _ => _)); [eapply put_kept; [done..|keeps_tac]|]. intros [] v1 [Hv1 _].
    by apply retry_inv.
Qed.

Lemma drive_inv fd w : Inv cfg 0 w -> returns (fun n => drive n fd) w (fun _ => Inv cfg 0).
Proof.
  intros Hi. eapply returns_mono; [by eapply drive_runs, inv_at|]. intros [] v [Hv _]. by apply at_inv in Hv.
Qed.

(** A slot filled with what was not there before. *)
Lemma put_new_inv fd c w :
  Inv cfg 0 w -> conn_ok cfg c -> c_drain_counted c = false ->
  returns (fun _ => put_client fd c) w (fun _ => Inv cfg 0).
Proof.
  intros Hi Hok Hc. eapply returns_mono; [eapply put_client_runs; [by apply (inv_at _ _ fd)|by rewrite Hc|done]|].
  intros [] v [Hv _]. by apply at_inv in Hv.
Qed.

Lemma Conn_new_ok peer tls : s_draining cfg = false -> conn_ok cfg (Conn_new peer tls).
Proof. intros Hd. split_and!; simpl; try done; [lia|congruence]. Qed.

Lemma start_client_runs fd tls w :
  Inv cfg 0 w -> s_draining cfg = false -> returns (fun n => start_client n fd tls) w (fun _ => Inv cfg 0).
Proof.
  intros Hi Hd. unfold start_client. serve_step. serve_step.
  { eapply returns_hushed_last; [apply hushed_sys_close|]. intros [] v Hq _. by carry Hq. }
  do 4 serve_step. set (new := Conn_new _ _).
  assert (Hnew : conn_ok cfg new) by (by apply Conn_new_ok).
  apply (returns_bind _ (fun n _ => _) _ (fun c w' => Inv cfg 0 w' /\ keeps new c)).
  { know_config. destruct (cfg_proxy_protocol _) eqn:Hpp; [deadline_step|]; apply returns_ret; (split; [done|keeps_tac]). }
  intros c v [Hv [Hc1 Hc2]].
  eapply (returns_bind _ (fun n _ => _)); [by apply put_new_inv; [done|apply Hc1|]|]. intros [] v1 Hv1.
  serve_step. by apply drive_inv.
Qed.

(** ** Admin connections *)

Lemma drive_admin_runs fd w : Inv cfg 0 w -> returns (fun _ => drive_admin fd) w (fun _ => Inv cfg 0).
Proof.
  intros Hi. unfold drive_admin. eapply (with_admin_runs _ _ fd _ _ (fun _ _ => _)); [by apply (inv_at _ _ fd)| |].
  2: { intros v Hv. by apply at_inv in Hv. }
  intros a v Hv Hfit.
  apply (returns_bind _ (fun n _ => _) _ (fun a' w' =>
    At cfg (tally (a_drain_counted a)) fd (slot_weight w fd) w' /\ a_drain_counted a' = a_drain_counted a)).
  { repeat serve_step; (split; [done|by repeat case_match]). }
  intros a' v1 [Hv1 Ha]. simpl in Hfit. rewrite <- Ha in Hfit.
  eapply returns_mono; [eapply put_admin_runs; [exact Hv1|by rewrite Ha|exact Hfit]|].
  intros [] v2 Hv2. by apply at_inv in Hv2.
Qed.

Lemma start_admin_runs fd w :
  Inv cfg 0 w -> s_draining cfg = false -> returns (fun _ => start_admin fd) w (fun _ => Inv cfg 0).
Proof.
  intros Hi Hd. unfold start_admin. serve_step. serve_step.
  { eapply returns_hushed_last; [apply hushed_sys_close|]. intros [] v Hq _. by carry Hq. }
  serve_step. eapply (returns_bind _ (fun n _ => _)).
  { eapply put_admin_runs; [by apply (inv_at _ _ fd)|done|simpl; congruence]. }
  intros [] v Hv. apply at_inv in Hv. by apply drive_admin_runs.
Qed.

Lemma on_admin_read_runs fd cp w : Inv cfg 0 w -> returns (fun _ => on_admin_read fd cp) w (fun _ => Inv cfg 0).
Proof.
  intros Hi. unfold on_admin_read. destruct (buf cp) as [b|]; [|by apply returns_ret].
  eapply (with_admin_runs _ _ fd _ _ (fun _ _ => _)); [by apply (inv_at _ _ fd)| |].
  2: { intros v Hv. by apply at_inv in Hv. }
  intros a v Hv Hfit.
  assert (Hclose : returns (fun _ => close fd) v (fun _ => Inv cfg 0)).
  { eapply returns_mono; [by eapply close_runs|]. intros [] v1 [[Hv1 _] _]. eapply inv_less; [done|lia]. }
  destruct (answer cp) as [k|e]; [|done]. serve_step; [done|].
  serve_step. destruct (parse_request_head _ _) as [h parsed] eqn:Hp.
  apply (returns_bind _ (fun n _ => _) _ (fun a' w' =>
    At cfg (tally (a_drain_counted a)) fd (slot_weight w fd) w' /\ a_drain_counted a' = a_drain_counted a)).
  { destruct parsed as [[]|e]; [|by apply returns_ret..]. apply request_head_readable in Hp as [Hread _].
    unfold admin_response. eapply (returns_bind _ (fun n _ => _) _ (fun _ w' => quiet u w')).
    - eapply (returns_hushed _ _ (fun n _ => _)); [by apply hushed_spans|]. intros [] v1 Hq _.
      by repeat serve_step.
    - intros response v1 Hq. carry Hq. by apply returns_ret. }
  intros a' v1 [Hv1 Ha]. simpl in Hfit. rewrite <- Ha in Hfit. eapply (returns_bind _ (fun n _ => _)).
  { eapply put_admin_runs; [exact Hv1|by rewrite Ha|exact Hfit]. }
  intros [] v2 Hv2. apply at_inv in Hv2. by apply drive_admin_runs.
Qed.

Lemma on_admin_write_runs fd cp w : Inv cfg 0 w -> returns (fun _ => on_admin_write fd cp) w (fun _ => Inv cfg 0).
Proof.
  intros Hi. unfold on_admin_write. eapply (with_admin_runs _ _ fd _ _ (fun _ _ => _)); [by apply (inv_at _ _ fd)| |].
  2: { intros v Hv. by apply at_inv in Hv. }
  intros a v Hv Hfit. eapply (returns_bind _ (fun n _ => _)); [by eapply put_admin_runs|].
  intros [] v1 Hv1. apply at_inv in Hv1. serve_step; [by apply close_inv|by apply drive_admin_runs].
Qed.

(** A slot replaced, and what it counts for with it. *)
Lemma replaced_inv d fd old s w w' :
  Inv cfg d w -> slot_at w fd = old -> fits_slot cfg s -> 0 <= fd ->
  w_slots w' = <[fd := s]> (w_slots w) /\ setting_ok cfg w'
  /\ (Nat.max (w_high_water w) (Z.to_nat fd + 1) <= w_high_water w')%nat ->
  (w_drain_inflight w + slot_tally s <= w_drain_inflight w' + slot_tally old)%nat ->
  Inv cfg d w'.
Proof.
  intros [Hc Hs Hh Hd] Hold Hfit Hfd (Hw1&Hw2&Hw3) Hle.
  assert (Hslot : forall fd', slot_at w' fd' = if decide (fd' = fd) then s else slot_at w fd').
  { intros fd'. by apply slot_at_insert. }
  split; [done| | |].
  - intros fd'. rewrite Hslot. case_decide; [done|apply Hs].
  - intros fd'. rewrite Hslot. case_decide; [subst; lia|]. intros Hne. specialize (Hh _ Hne). lia.
  - rewrite Hw1. pose proof (counted_insert (w_slots w) fd s) as H. unfold slot_at in Hold.
    rewrite Hold in H. lia.
Qed.

(** ** Listeners *)

Lemma for_each_hushed {A} (f : A -> M unit) l :
  (forall x, hushed (f x) (fun _ => True)) -> hushed (for_each f l) (fun _ => True).
Proof.
  intros Hf. induction l as [|x l IH]; simpl; [by apply hushed_ret|].
  eapply hushed_bind; [apply Hf|]. by intros [] _.
Qed.

Lemma not_draining d w :
  Inv cfg d w -> bool_decide (is_Some (w_drain_deadline w)) = false -> s_draining cfg = false.
Proof.
  intros [(_&Hc&_)] Hd. unfold draining in Hc. destruct (s_draining cfg); [|done]. by rewrite Hc in Hd.
Qed.

Lemma on_accept_runs listener cp role w :
  Inv cfg 0 w -> returns (fun n => on_accept n listener cp role) w (fun _ => Inv cfg 0).
Proof.
  intros Hi. unfold on_accept. destruct (match answer cp with Ok _ => _ | Err _ => _ end) as [accepted|];
    [|by apply returns_ret].
  pose proof (not_draining _ _ Hi) as Hd. serve_step. serve_step.
  - apply (returns_bind _ (fun n _ => _) _ (fun _ => Inv cfg 0)); [|intros [] v Hv; by apply returns_ret].
    destruct accepted; [|by apply returns_ret]. eapply returns_hushed_last; [apply hushed_sys_close|].
    intros [] v Hq _. by carry Hq.
  - serve_step. destruct a as [[]|[]], accepted as [fd|]; try by apply returns_ret.
    apply (returns_bind _ (fun n _ => _) _ (fun _ => Inv cfg 0)); [|intros [] v Hv; by apply returns_ret].
    destruct role; [apply start_client_runs|apply start_admin_runs]; auto.
Qed.

Lemma on_intake_runs fd cp tls w :
  Inv cfg 0 w -> returns (fun n => on_intake n fd cp tls) w (fun _ => Inv cfg 0).
Proof.
  intros Hi. unfold on_intake. destruct (buf cp) as [b|]; [|by apply returns_ret].
  destruct (answer cp) as [k|e]; [serve_step|]; [| |by serve_step; apply returns_ret].
  - do 2 serve_step. destruct (feed_channel _ _ _) as [ready channels]. serve_step.
    pose proof (not_draining _ _ Hi) as Hd. serve_step. serve_step.
    + eapply (returns_hushed _ _ (fun n _ => _)); [apply for_each_hushed, hushed_sys_close|].
      intros [] v Hq _. carry Hq. by apply returns_ret.
    + eapply (returns_bind _ (fun n _ => _)).
      { apply (returns_for_each (fun n accepted => start_client n accepted tls)); [|done].
        intros x v Hv. apply start_client_runs; auto. }
      intros [] v Hv. eapply returns_hushed_last; [apply hushed_arm_intake|]. intros r v1 Hq _. by carry Hq.
  - serve_step. by apply returns_ret.
Qed.

(** ** The clock *)

Lemma sweep_runs now fd w :
  (exists l, now = clock_at l) -> Inv cfg 0 w -> returns (fun n => sweep_slot n now fd) w (fun _ => Inv cfg 0).
Proof.
  intros Hnow Hi. unfold sweep_slot. serve_step.
  destruct (slot_at w fd) as [| |c| | | |] eqn:Hs; try by apply returns_ret.
  serve_step; [|by apply returns_ret]. apply (returns_hushed _ _ (fun n _ => _) _ _ (hushed_touch fd)).
  intros [] v Hq _. carry Hq.
  assert (Htimeout : returns (fun n => count Timeout ;; fail fd 504 TIMEOUT true ;; drive n fd) v (fun _ => Inv cfg 0)).
  { serve_step. eapply returns_mono; [by eapply fail_drive_runs, (inv_at _ _ fd)|].
    intros [] v1 [Hv1 _]. by apply at_inv in Hv1. }
  destruct (c_phase c); try done.
  { serve_step. by apply close_inv. }
  all: serve_step; know_config.
  all: eapply (returns_bind _ (fun n _ => _)); [apply returns_settled, add_instant_settles; [done|know_config; apply response_timeout_in]|].
  all: intros extended ? ->; eapply returns_settled, settles_mono; [apply put_slot_settles|]; intros [] w' [Hfd ->].
  all: eapply (replaced_inv 0 fd (Slot_Client c) (Slot_Client (c <| c_deadline := Some _ |>)) v);
    [exact Hi|exact Hs| |exact Hfd|split_and!; [reflexivity|apply Hi|simpl; lia]|simpl; lia].
  all: pose proof (inv_slots _ _ _ Hi fd) as Hfit; by rewrite Hs in Hfit.
Qed.

Lemma all_inv (f : nat -> Z -> M unit) l w :
  (forall x w, Inv cfg 0 w -> returns (fun n => f n x) w (fun _ => Inv cfg 0)) -> Inv cfg 0 w ->
  returns (fun n => for_each (f n) l) w (fun _ => Inv cfg 0).
Proof. intros Hf Hi. apply (returns_for_each _ (Inv cfg 0) l w Hf Hi). Qed.

Lemma close_all_inv l w : Inv cfg 0 w -> returns (fun _ => for_each close l) w (fun _ => Inv cfg 0).
Proof. apply (all_inv (fun _ => close)). intros fd v. apply close_inv. Qed.

Lemma on_tick_runs `{HashOrder} w : Inv cfg 0 w -> returns (fun n => on_tick n) w (fun _ => Inv cfg 0).
Proof.
  intros Hi. unfold on_tick, all_slots.
  eapply (returns_bind _ (fun n _ => _)); [apply returns_settled, clock_settles|].
  intros now u (Hq&Hnow&Hread). carry Hq. serve_step. serve_step; [eapply returns_now; [reflexivity..|]|].
  { bools. match goal with H : (match w_drain_deadline ?x with _ => _ end) = true |- _ => rename H into Hlate; rename x into v end.
    destruct Hi as [Hset ? ? ?]. split; [|done..]. destruct Hset as (?&?&_). split_and!; [done..|].
    destruct (w_drain_deadline v) as [d|] eqn:Hd; [|done]. bools.
    exists d, now. simpl. split_and!; [done|done|lia]. }
  serve_step. destruct (pool_expire _ _ _) as [expired pool]. serve_step.
  eapply (returns_bind _ (fun n _ => _)); [by apply close_all_inv|]. intros [] v Hv.
  serve_step. apply (all_inv (fun n fd => sweep_slot n _ fd)); [|done]. intros fd v1. by apply sweep_runs.
Qed.

Lemma on_notify_runs `{HashOrder} cp w :
  Inv cfg 0 w -> returns (fun n => on_notify n cp) w (fun _ => Inv cfg 0).
Proof.
  intros Hi. unfold on_notify. destruct (buf cp) as [b|]; [|by apply returns_ret].
  destruct (answer cp) as [k|e]; [|by apply returns_ret]. serve_step; [|by apply returns_ret].
  do 2 serve_step. destruct (Helper.feed _ _) as [notes partial]. serve_step.
  eapply (returns_bind _ (fun n _ => _)).
  { apply (returns_for_each (fun n note => on_note n note)); [|done].
    intros [|fd err] v Hv; simpl; [by apply on_tick_runs|by apply on_connected_runs]. }
  intros [] v Hv. eapply returns_hushed_last; [apply hushed_arm_notify|]. intros r v1 Hq _. by carry Hq.
Qed.

(** ** Dispatch *)

Lemma done_runs (h : nat -> M unit) w :
  returns h w (fun _ => Inv cfg 0) ->
  returns (fun n => h n ;; mret (Ok tt)) w (fun (_ : result unit unit) => Inv cfg 0).
Proof.
  intros Hh. eapply (returns_bind _ (fun n _ => _)); [exact Hh|]. intros [] v Hv. by apply returns_ret.
Qed.

Hint Resolve done_runs on_accept_runs on_intake_runs on_notify_runs on_client_read_runs on_client_write_runs
  on_upstream_read_runs on_upstream_write_runs on_admin_read_runs on_admin_write_runs returns_ret : serving.

Lemma dispatch_runs `{HashOrder} cp w :
  Inv cfg 0 w -> returns (fun n => dispatch n cp) w (fun _ => Inv cfg 0).
Proof.
  intros Hi. unfold dispatch.
  eapply (returns_hushed _ _ (fun n _ => _)); [apply hushed_generation|]. intros current v Hq _. carry Hq.
  serve_step.
  { apply (done_runs (fun _ => _)). serve_step; [|by apply returns_ret]. destruct (answer cp) as [fd|e]; [|by apply returns_ret].
    eapply returns_hushed_last; [apply hushed_sys_close|]. intros [] v1 Hq _. by carry Hq. }
  repeat match goal with |- returns (fun _ => if ?b then _ else _) _ _ => destruct b end;
    eauto 4 with serving.
Qed.

Lemma dispatch_all_runs `{HashOrder} cps w :
  Inv cfg 0 w -> returns (fun n => dispatch_all n cps) w (fun _ => Inv cfg 0).
Proof.
  revert w. induction cps as [|cp cps IH]; intros w Hi; simpl; [by apply returns_ret|].
  eapply (returns_bind _ (fun n _ => _)); [by apply dispatch_runs|]. intros [[]|[]] v Hv; [by apply IH|by apply returns_ret].
Qed.

(** ** Shutdown *)

Lemma close_idle_runs `{HashOrder} w : Inv cfg 0 w -> returns (fun _ => close_idle) w (fun _ => Inv cfg 0).
Proof.
  intros Hi. unfold close_idle. do 2 serve_step; [by apply returns_ret|].
  destruct (pool_drain _ _) as [idle pool]. serve_step. by apply close_all_inv.
Qed.
Lemma close_admin_runs w : Inv cfg 0 w -> returns (fun _ => close_admin) w (fun _ => Inv cfg 0).
Proof.
  intros Hi. unfold close_admin. do 2 serve_step. destruct (w_admin w); [by apply close_inv|by apply returns_ret].
Qed.
Lemma close_listeners_runs w : Inv cfg 0 w -> returns (fun _ => close_listeners) w (fun _ => Inv cfg 0).
Proof. intros Hi. unfold close_listeners. do 2 serve_step. by apply close_all_inv. Qed.

Lemma teardown_runs `{HashOrder} w : Inv cfg 0 w -> returns (fun _ => teardown) w (fun _ => Inv cfg 0).
Proof.
  intros Hi. unfold teardown, all_slots.
  eapply (returns_bind _ (fun n _ => _)); [by apply close_idle_runs|]. intros [] v Hv. serve_step.
  eapply (returns_bind _ (fun n _ => _)).
  { apply (all_inv (fun _ => teardown_slot)); [|done]. intros fd v1 Hv1. unfold teardown_slot. serve_step.
    destruct (slot_at v1 fd); by first [apply close_inv|apply returns_ret]. }
  intros [] v1 Hv1. serve_step.
  eapply (returns_bind _ (fun n _ => _)); [by apply close_all_inv|]. intros [] v2 Hv2.
  eapply (returns_bind _ (fun n _ => _)); [by apply close_admin_runs|]. intros [] v3 Hv3.
  serve_step. by apply close_inv.
Qed.

(** *** The beginning of the drain *)

Definition slot_counted (s : Slot) : Prop :=
  match s with
  | Slot_Client c => c_drain_counted c = true
  | Slot_Admin a => a_drain_counted a = true
  | _ => True
  end.
Definition is_conn (s : Slot) : bool := match s with Slot_Client _ | Slot_Admin _ => true | _ => false end.

(** [fd] has been looked at; the other slots are as they were. *)
Definition drained (fd : Z) w w' : Prop :=
  slot_counted (slot_at w' fd) /\ (is_conn (slot_at w' fd) = true -> is_conn (slot_at w fd) = true)
  /\ (forall fd', fd' <> fd -> slot_at w' fd' = slot_at w fd') /\ drain_clock w' = drain_clock w.

Lemma quiet_drained fd v w w' : quiet w v -> drained fd v w' -> drained fd w w'.
Proof.
  intros Hq (H1&H2&H3&H4). pose proof Hq as (_&_&_&Hd&_). unfold drained. rewrite <- !(quiet_slot _ _ _ Hq).
  split_and!; [done|done| |congruence]. intros fd' Hne. by rewrite H3, (quiet_slot _ _ _ Hq).
Qed.

Lemma close_drained d fd w :
  Inv cfg d w -> returns (fun _ => close fd) w (fun _ w' => Inv cfg d w' /\ drained fd w w').
Proof.
  intros Hi. eapply returns_mono; [eapply close_runs_draining, (inv_at _ _ fd), Hi|].
  intros [] w' [[Hw Hs] Hd]. apply at_inv in Hw. split; [done|].
  split_and!; [by rewrite Hs, decide_True|by rewrite Hs, decide_True| |done].
  intros fd' Hne. by rewrite Hs, decide_False.
Qed.

(** A connection counted in place, and one more to wait for. *)
Lemma count_in_place fd s w :
  Inv cfg 0 w -> is_conn (slot_at w fd) = true -> fits_slot cfg s -> slot_tally s = 1%nat ->
  returns (fun _ => put_slot fd s ;; modify (fun w => w <| w_drain_inflight := S (w_drain_inflight w) |>)) w
    (fun _ w' => Inv cfg 0 w' /\ drained fd w w').
Proof.
  intros Hi Hconn Hfit Ht. apply returns_settled. eapply settles_bind; [apply put_slot_settles|].
  intros [] w1 _ [Hfd ->]. split; [done|].
  match goal with |- _ /\ drained fd w ?x => set (w' := x) end.
  assert (Hslot : forall fd', slot_at w' fd' = if decide (fd' = fd) then s else slot_at w fd').
  { intros fd'. by apply slot_at_insert. }
  split.
  - apply (replaced_inv 0 fd _ s w w' Hi eq_refl Hfit Hfd); [|simpl; rewrite Ht; lia].
    split_and!; [done|apply Hi|done].
  - split_and!; [|by rewrite Hconn| |done].
    + rewrite Hslot, decide_True by done. by destruct s; simpl in *; try done;
        match goal with |- ?b = true => destruct b end.
    + intros fd' Hne. by rewrite Hslot, decide_False.
Qed.

Lemma drain_slot_runs fd w :
  Inv cfg 0 w -> s_draining cfg = false ->
  returns (fun _ => drain_slot fd) w (fun _ w' => Inv cfg 0 w' /\ drained fd w w').
Proof.
  intros Hi Hweak. unfold drain_slot. serve_step.
  destruct (slot_at w fd) as [| |c| | | |a] eqn:Hs; try (apply returns_ret; split; [done|];
    split_and!; try done; by rewrite Hs).
  - unfold drain_client. apply (returns_slot fd (fun n s => _)). intros v Hq _. rewrite Hs.
    pose proof (quiet_inv _ _ _ _ Hq Hi) as Hv. pose proof (quiet_slot _ _ fd Hq) as Hsv. rewrite Hs in Hsv.
    apply (returns_mono _ _ (fun _ w' => Inv cfg 0 w' /\ drained fd v w'));
      [|intros [] w' [Hw' Hd]; split; [done|by eapply quiet_drained]].
    serve_step.
    + eapply (returns_hushed _ _ (fun n _ => _)); [apply hushed_count|]. intros [] v1 Hq1 _.
      eapply returns_mono; [eapply close_drained, quiet_inv; [exact Hq1|exact Hv]|].
      intros [] w' [Hw' Hd]. split; [done|by eapply quiet_drained].
    + pose proof (inv_slots _ _ _ Hv fd) as Hok. rewrite Hsv in Hok. simpl in Hok.
      apply (count_in_place fd (Slot_Client _) v); [done|by rewrite Hsv| |done].
      unfold fits_slot, conn_ok in *. rewrite Hweak in *. repeat case_match; cbn; tauto.
  - unfold drain_admin. apply (returns_slot fd (fun n s => _)). intros v Hq _. rewrite Hs.
    pose proof (quiet_inv _ _ _ _ Hq Hi) as Hv. pose proof (quiet_slot _ _ fd Hq) as Hsv. rewrite Hs in Hsv.
    apply (returns_mono _ _ (fun _ w' => Inv cfg 0 w' /\ drained fd v w'));
      [|intros [] w' [Hw' Hd]; split; [done|by eapply quiet_drained]].
    serve_step; [|by apply close_drained].
    by apply (count_in_place fd (Slot_Admin _) v); [done|by rewrite Hsv|..].
Qed.

Lemma drain_slots_runs l w :
  Inv cfg 0 w -> s_draining cfg = false ->
  returns (fun _ => for_each drain_slot l) w (fun _ w' => Inv cfg 0 w' /\ drain_clock w' = drain_clock w
    /\ forall fd, (fd ∈ l -> slot_counted (slot_at w' fd)) /\ (fd ∉ l -> slot_at w' fd = slot_at w fd)
                  /\ (is_conn (slot_at w' fd) = true -> is_conn (slot_at w fd) = true)).
Proof.
  intros Hi Hweak. revert w Hi. induction l as [|x l IH]; intros w Hi; simpl.
  { apply returns_ret. split_and!; [done..|]. intros fd. split_and!; [set_solver|done|done]. }
  eapply (returns_bind _ (fun n _ => _)); [by apply drain_slot_runs|].
  intros [] v (Hv&Hx&Hconn&Hother&Hd). eapply returns_mono; [by apply IH|].
  intros [] w' (Hw'&Hd'&Hall). split_and!; [done|congruence|]. intros fd. destruct (Hall fd) as (H1&H2&H3).
  split_and!.
  - intros [->|Hin]%elem_of_cons; [|by apply H1]. destruct (decide (x ∈ l)); [by apply H1|]. by rewrite H2.
  - intros Hni%not_elem_of_cons. destruct Hni. by rewrite H2, Hother.
  - intros Hc. apply H3 in Hc. destruct (decide (fd = x)) as [->|Hne]; [by apply Hconn|]. by rewrite <- Hother.
Qed.
End handlers.

Section run.
Context {E : RegexEngine} {TS : TlsStack} {HT : HttpTypes} {Wd : World} {Enc : Encoder} {HO : HashOrder}.
Implicit Types (w : Worker).

(** While the drain begins: no connection appears. *)
Definition fewer config w w' : Prop :=
  Inv (MkSetting config false) 0 w' /\ draining w' = true
  /\ forall fd, is_conn (slot_at w' fd) = true -> is_conn (slot_at w fd) = true.

Lemma quiet_fewer config w v v' : quiet v v' -> fewer config w v -> fewer config w v'.
Proof.
  intros Hq (Hi&Hd&Hc). pose proof Hq as (_&_&_&Hd'%drain_clock_draining&_).
  split_and!; [by eapply quiet_inv|congruence|]. intros fd. rewrite (quiet_slot _ _ _ Hq). apply Hc.
Qed.
Lemma close_fewer config w fd v : fewer config w v -> returns (fun _ => close fd) v (fun _ => fewer config w).
Proof.
  intros (Hi&Hd&Hc). eapply returns_mono; [by apply close_drained|].
  intros [] v' (Hv'&_&Hconn&Hother&Hd'%drain_clock_draining). split_and!; [done|congruence|]. intros fd' Hf. apply Hc.
  destruct (decide (fd' = fd)) as [->|Hne]; [by apply Hconn|]. by rewrite <- Hother.
Qed.
Lemma close_all_fewer config w l v :
  fewer config w v -> returns (fun _ => for_each close l) v (fun _ => fewer config w).
Proof. apply (returns_for_each (fun _ => close)). intros fd v'. apply close_fewer. Qed.

Lemma close_idle_fewer config w v : fewer config w v -> returns (fun _ => close_idle) v (fun _ => fewer config w).
Proof.
  intros Hf. unfold close_idle. do 2 serve_step; [by apply returns_ret|].
  destruct (pool_drain _ _) as [idle pool].
  eapply (returns_hushed _ _ (fun n _ => _)); [by apply hushed_unlogged|]. intros [] v' Hq _.
  apply close_all_fewer. by eapply quiet_fewer.
Qed.
Lemma close_admin_fewer config w v : fewer config w v -> returns (fun _ => close_admin) v (fun _ => fewer config w).
Proof.
  intros Hf. unfold close_admin. serve_step.
  eapply (returns_hushed _ _ (fun n _ => _)); [by apply hushed_unlogged|]. intros [] v' Hq _.
  apply (quiet_fewer _ _ _ _ Hq) in Hf. destruct (w_admin v); [by apply close_fewer|by apply returns_ret].
Qed.
Lemma close_listeners_fewer config w v :
  fewer config w v -> returns (fun _ => close_listeners) v (fun _ => fewer config w).
Proof.
  intros Hf. unfold close_listeners. serve_step.
  eapply (returns_hushed _ _ (fun n _ => _)); [by apply hushed_unlogged|]. intros [] v' Hq _.
  apply close_all_fewer. by eapply quiet_fewer.
Qed.

(** Every connection counted: the core drains. *)
Lemma inv_draining config w :
  Inv (MkSetting config false) 0 w -> draining w = true -> (forall fd, slot_counted (slot_at w fd)) ->
  Inv (MkSetting config true) 0 w.
Proof.
  intros [(Hc&_&He) Hs Hh Hn] Hd Hall. split; [by split_and!| |done|done].
  intros fd. specialize (Hs fd). specialize (Hall fd). unfold fits_slot, conn_ok in *. simpl in *.
  destruct (slot_at w fd); simpl in *; tauto.
Qed.
Lemma inv_weaken config b w : Inv (MkSetting config b) 0 w -> Inv (MkSetting config false) 0 w.
Proof.
  intros [(Hc&_&He) Hs Hh Hn]. split; [by split_and!| |done|done].
  intros fd. specialize (Hs fd). unfold fits_slot, conn_ok in *. simpl in *.
  destruct (slot_at w fd); simpl in *; try done. destruct_and?. by split_and!.
Qed.

Lemma begin_drain_runs config w :
  Inv (MkSetting config false) 0 w -> draining w = false ->
  returns (fun _ => begin_drain) w (fun _ w' => Inv (MkSetting config true) 0 w').
Proof.
  intros Hi Hnot. unfold begin_drain. serve_step. know_config. cbn [s_config].
  apply (returns_deadline _ (fun n d => _)); [know_config; apply grace_in|].
  intros d v Hq [t ->].
  apply (returns_bind _ (fun n _ => _) _ (fun _ => fewer config w)).
  { eapply returns_now; [reflexivity..|]. pose proof Hq as (_&_&_&Hclock&_). injection Hclock as Hd He.
    pose proof (quiet_inv _ _ _ _ Hq Hi) as [(Hc&_&_) Hs Hh Hn].
    destruct Hi as [(_&_&Hover) _ _ _]. split_and!; [split; [|done..]|done|].
    - split_and!; [done|done|]. simpl. rewrite He. intros Hexp. exfalso.
      destruct (Hover Hexp) as (d&l&Hdl&_). unfold draining in Hnot. by rewrite Hdl in Hnot.
    - intros fd. pose proof (quiet_slot _ _ fd Hq) as Hsl. unfold slot_at in *. simpl. by rewrite Hsl. }
  intros [] v1 H1. eapply (returns_bind _ (fun n _ => _)); [by apply close_listeners_fewer|]. intros [] v2 H2.
  eapply (returns_hushed _ _ (fun n _ => _)); [by apply hushed_unlogged|]. intros [] v3 Hq3 _.
  apply (quiet_fewer _ _ _ _ Hq3) in H2.
  eapply (returns_bind _ (fun n _ => _)); [by apply close_admin_fewer|]. intros [] v4 H4.
  eapply (returns_bind _ (fun n _ => _)); [by apply close_idle_fewer|]. intros [] v5 (H5&Hd5&Hc5).
  unfold all_slots. apply (returns_gets _ (fun n _ => _)). cbv beta.
  eapply returns_mono; [by apply drain_slots_runs|]. intros [] w' (Hw'&Hd'%drain_clock_draining&Hall).
  apply inv_draining; [done|congruence|]. intros fd.
  destruct (Hall fd) as (Hin&Hout&Hconn). destruct (is_conn (slot_at w' fd)) eqn:Hcw; [|by destruct (slot_at w' fd)].
  apply Hin. apply list_elem_of_In, List.in_map_iff. exists (Z.to_nat fd).
  assert (Hne : slot_at v5 fd <> Slot_Empty) by (intros He; specialize (Hconn eq_refl); by rewrite He in Hconn).
  pose proof (inv_high _ _ _ H5 fd Hne). split; [lia|]. apply List.in_seq. lia.
Qed.

Lemma turn_runs config b stop cps w :
  Inv (MkSetting config b) 0 w ->
  returns (fun n => turn n stop cps) w (fun _ => Inv (MkSetting config false) 0).
Proof.
  intros Hi. apply inv_weaken in Hi. unfold turn. serve_step.
  apply (returns_bind _ (fun n _ => _) _ (fun _ => Inv (MkSetting config false) 0)).
  { unfold when. fold (draining w). destruct (draining w) eqn:Hd; [by apply returns_ret|].
    destruct (_ || _); [|by apply returns_ret].
    eapply returns_mono; [by eapply begin_drain_runs|]. intros [] v. apply inv_weaken. }
  intros [] v Hv. serve_step. serve_step; [by apply returns_ret|].
  destruct cps as [[|cp cps]|]; [by apply returns_ret| |by apply returns_ret]. by apply dispatch_all_runs.
Qed.

Lemma run_turns_runs config script w :
  Inv (MkSetting config false) 0 w ->
  returns (fun n => run_turns n script) w (fun _ => Inv (MkSetting config false) 0).
Proof.
  revert w. induction script as [|[stop cps] script IH]; intros w Hi; simpl; [by apply returns_ret|].
  eapply (returns_bind _ (fun n _ => _)); [by eapply turn_runs|]. intros [] v Hv.
  - by apply IH.
  - eapply (returns_bind _ (fun n _ => _)); [by apply teardown_runs|]. intros [] v1 Hv1. serve_step. by apply returns_ret.
  - by apply returns_ret.
Qed.

Lemma arm_intakes_hushed intakes : hushed (arm_intakes intakes) (fun _ => True).
Proof.
  induction intakes as [|i intakes IH]; simpl; [by apply hushed_ret|].
  apply (hushed_bind _ _ (fun _ => True)); [|intros [] _; [done|by apply hushed_ret]].
  destruct (i_channel i); [|apply hushed_arm_accept].
  eapply hushed_bind; [by apply hushed_unlogged|]. intros _ _. apply hushed_arm_intake.
Qed.
Lemma arm_all_hushed : hushed arm_all (fun _ => True).
Proof.
  unfold arm_all. eapply hushed_bind; [apply hushed_arm_notify|]. intros [] _; [|by apply hushed_ret].
  eapply hushed_bind; [apply hushed_gets|]. intros intakes _. eapply hushed_bind; [apply arm_intakes_hushed|].
  intros [] _; [|by apply hushed_ret]. eapply hushed_bind; [apply hushed_gets|]. intros [fd|] _; [|by apply hushed_ret].
  apply hushed_arm_accept.
Qed.

Lemma Worker_new_inv core config shutdown intakes admin notify heap store rng :
  Inv (MkSetting config false) 0 (Worker_new core config shutdown intakes admin notify heap store rng).
Proof. split; [by split|done|done|]. simpl. unfold counted. by rewrite map_fold_empty. Qed.

Lemma counted_slot w fd : (slot_tally (slot_at w fd) <= counted (w_slots w))%nat.
Proof. pose proof (counted_insert (w_slots w) fd Slot_Empty) as H. unfold slot_at. simpl in H. lia. Qed.

Lemma none_left config w :
  Inv (MkSetting config true) 0 w -> w_drain_inflight w = 0%nat -> forall fd, is_conn (slot_at w fd) = false.
Proof.
  intros Hi Hn fd. pose proof (counted_slot w fd) as Hc. pose proof (inv_drain _ _ _ Hi) as Hd.
  pose proof (inv_slots _ _ _ Hi fd) as Hs. destruct (slot_at w fd); simpl in *; try done.
  - destruct Hs as (_&_&_&_&_&Hs). rewrite Hs in Hc by done. simpl in Hc. lia.
  - rewrite Hs in Hc by done. simpl in Hc. lia.
Qed.

(** ** How a turn fails *)

(** The reactor has refused an operation. *)
Definition refused w : Prop := exists op user, Submitted op user false ∈ w_log w.

(** A computation that fails only when an operation is refused. *)
Definition fails_refused (m : M (result unit unit)) : Prop :=
  forall w e w', m w = Done (Err e) w' -> refused w'.
Lemma fails_ok : fails_refused (mret (Ok tt)).
Proof. by intros w e w' [=]. Qed.
Lemma fails_bind {A} (m : M A) k : (forall a, fails_refused (k a)) -> fails_refused (m ≫= k).
Proof. intros Hk w e w' (a&w1&_&H)%bind_done. by eapply Hk. Qed.
Lemma fails_arm op k fd : fails_refused (queued ← submit op k fd; mret (or_err queued)).
Proof.
  intros w e w' (queued&w1&Hs&[= Hq <-])%bind_done. destruct queued; [done|]. clear Hq.
  apply bind_done in Hs as (g&w2&_&[= Hs <-]). exists op, (tag k g fd). simpl. rewrite Hs. set_solver.
Qed.
Lemma fails_notify : fails_refused arm_notify.
Proof. apply fails_bind. intros fd. apply fails_arm. Qed.
Hint Resolve fails_ok fails_notify fails_arm : serving.
Ltac fails :=
  repeat match goal with
  | |- fails_refused (_ ;; mret (Ok tt)) => apply fails_bind; intros _
  | |- fails_refused (_ ≫= _) => first [by apply fails_arm|apply fails_bind; intros]
  | |- fails_refused (match ?x with _ => _ end) => destruct x
  | |- fails_refused (let '_ := ?x in _) => destruct x
  end; eauto with serving.

Lemma on_accept_fails n listener cp role : fails_refused (on_accept n listener cp role).
Proof.
  unfold on_accept. destruct (match answer cp with Ok _ => _ | Err _ => _ end) as [accepted|]; [|apply fails_ok].
  apply fails_bind. intros draining. destruct draining; [fails|].
  intros w e w' (armed&w1&Ha&Hr)%bind_done. destruct armed as [[]|e'].
  - destruct accepted as [fd|]; [|done]. by apply bind_done in Hr as (?&?&_&?).
  - injection Hr as <- <-. by eapply fails_arm.
Qed.
Lemma on_intake_fails n fd cp tls : fails_refused (on_intake n fd cp tls).
Proof. unfold on_intake, arm_intake. fails. Qed.
Lemma on_notify_fails n cp : fails_refused (on_notify n cp).
Proof. unfold on_notify. fails. Qed.
Hint Resolve on_accept_fails on_intake_fails on_notify_fails : serving.

Lemma dispatch_fails n cp : fails_refused (dispatch n cp).
Proof. unfold dispatch. fails. Qed.

Lemma dispatch_all_answers cps n w r w' :
  dispatch_all n cps w = Done r w' -> r = Turn_Continue \/ r = Turn_Failed /\ refused w'.
Proof.
  revert w. induction cps as [|cp cps IH]; intros w; simpl; [intros [= <- <-]; auto|].
  intros (r0&w1&Hd&Hr)%bind_done. destruct r0 as [[]|e]; [by eapply IH|]. injection Hr as <- <-.
  right. split; [done|]. by eapply dispatch_fails.
Qed.

(** ** The properties *)


End run.

#[local] Existing Instance literal_engine.
#[local] Existing Instance demo_stack.
#[local] Existing Instance demo_http.
#[local] Existing Instance demo_encoder.
#[local] Existing Instance listed_order.
#[local] Existing Instance demo_world.

Lemma demo_core_inv c :
  conn_ok (MkSetting demo_config false) c -> c_drain_counted c = false ->
  Inv (MkSetting demo_config false) 0 (demo_core c).
Proof.
  intros Hok Hc. split; [by split| | |].
  - intros fd. unfold slot_at. simpl. destruct (decide (fd = 5)) as [->|Hne].
    + by rewrite lookup_singleton_eq.
    + by rewrite lookup_singleton_ne.
  - intros fd. unfold slot_at. simpl. destruct (decide (fd = 5)) as [->|Hne]; [lia|].
    by rewrite lookup_singleton_ne.
  - simpl. unfold counted. rewrite map_fold_singleton. simpl. by rewrite Hc.
Qed.

