(* ===== verification/Exchange.v ===== *)
(** What the handlers of a serving core do to one exchange:
    [crates/ramjet-engine/src/engine/worker.rs].

    Stale completions, sending again, the end of a response, the choice the
    drain makes. *)

From S2P Require Import Prelude RouterTypes Canary Stats Backends Table Rng Helper Limits Pool NetText Codec Chunked Head Forwarding Tls Mirror Conn Reactor Worker Serving.

Section exchange.
Context {E : RegexEngine} {TS : TlsStack} {HT : HttpTypes} {Wd : World} {Enc : Encoder}.
Implicit Types (w : Worker).

(** ** Lemmas: one step, computed *)

Lemma bind_eq {A B} (m : M A) (k : A -> M B) w a w' : m w = Done a w' -> (m ≫= k) w = k a w'.
Proof. intros H. unfold mbind, M_bind. by rewrite H. Qed.

Lemma index_eq fd w : 0 <= fd -> index fd w = Done tt w.
Proof. intros Hfd. unfold index, assert. by rewrite (proj2 (Z.leb_le 0 fd)). Qed.
Lemma assert_eq b p w : b = true -> assert b p w = Done tt w.
Proof. by intros ->. Qed.

Lemma drain_eq b n w : (n <= length b)%nat -> drain_to b n w = Done (drop n b) w.
Proof. intros Hn. unfold drain_to. rewrite (bind_eq (assert _ _) _ w tt w); [done|]. apply assert_eq. by apply Nat.leb_le. Qed.

Definition touched (fd : Z) w : Worker :=
  w <| w_high_water := Nat.max (w_high_water w) (Z.to_nat fd + 1) |>.
Definition filled (fd : Z) (s : Slot) w : Worker :=
  touched fd w <| w_slots := <[fd := s]> (w_slots w) |>.
Definition renewed (fd : Z) w : Worker :=
  w <| w_generations := <[fd := Z.land (wrap32 (generation_at w fd + 1)) GENERATION_MASK]> (w_generations w) |>.

Lemma touch_eq fd w : 0 <= fd -> touch fd w = Done tt (touched fd w).
Proof. intros Hfd. unfold touch. by rewrite (bind_eq _ _ _ _ _ (index_eq fd w Hfd)). Qed.
Lemma slot_eq fd w : 0 <= fd -> slot fd w = Done (slot_at w fd) (touched fd w).
Proof. intros Hfd. unfold slot. by rewrite (bind_eq _ _ _ _ _ (touch_eq fd w Hfd)). Qed.
Lemma put_slot_eq fd s w : 0 <= fd -> put_slot fd s w = Done tt (filled fd s w).
Proof. intros Hfd. unfold put_slot. by rewrite (bind_eq _ _ _ _ _ (touch_eq fd w Hfd)). Qed.
Lemma bump_eq fd w : 0 <= fd -> bump_generation fd w = Done tt (renewed fd w).
Proof. intros Hfd. unfold bump_generation. by rewrite (bind_eq _ _ _ _ _ (index_eq fd w Hfd)). Qed.
Lemma generation_eq fd w : 0 <= fd -> generation fd w = Done (generation_at w fd) w.
Proof. intros Hfd. unfold generation. by rewrite (bind_eq _ _ _ _ _ (index_eq fd w Hfd)). Qed.
Lemma submit_eq op k fd w : 0 <= fd ->
  submit op k fd w = Done (submit_ok (w_log w) op)
    (w <| w_log := w_log w ++ [Submitted op (tag k (generation_at w fd) fd) (submit_ok (w_log w) op)] |>).
Proof. intros Hfd. unfold submit. by rewrite (bind_eq _ _ _ _ _ (generation_eq fd w Hfd)). Qed.

Lemma filled_slot fd s w fd' : slot_at (filled fd s w) fd' = if decide (fd' = fd) then s else slot_at w fd'.
Proof. by apply slot_at_insert. Qed.
Lemma with_client_eq {A} fd (other : A) k c w :
  0 <= fd -> slot_at w fd = Slot_Client c -> with_client fd other k w = k c (filled fd Slot_Taken (touched fd w)).
Proof.
  intros Hfd Hs. unfold with_client, take_client. rewrite (bind_eq _ _ _ _ _ (slot_eq fd w Hfd)).
  rewrite (bind_eq _ _ _ _ _ (put_slot_eq fd Slot_Taken (touched fd w) Hfd)). by rewrite Hs.
Qed.

(** ** Completions that come too late *)

(** What [dispatch] does with the result of an accept nobody waits for. *)
Definition stale_effects (cp : Completion) : list Effect :=
  match answer cp with
  | Ok accepted =>
      if existsb (Z.eqb (tag_kind (user cp))) [kind.ACCEPT; kind.ACCEPT_TLS; kind.ADMIN_ACCEPT]
      then [SysClose accepted] else []
  | Err _ => []
  end.

Lemma stale_dispatch `{HashOrder} n cp w :
  0 <= tag_fd (user cp) -> tag_kind (user cp) <> kind.CLOSE ->
  tag_generation (user cp) <> generation_at w (tag_fd (user cp)) ->
  dispatch n cp w = Done (Ok tt) (w <| w_log := w_log w ++ stale_effects cp |>).
Proof.
  intros Hfd Hk Hg. unfold dispatch. rewrite (bind_eq _ _ _ _ _ (generation_eq _ w Hfd)).
  rewrite (proj2 (Z.eqb_neq _ _) Hk), (proj2 (Z.eqb_neq _ _) Hg). unfold stale_effects. cbn [negb andb].
  destruct (answer cp) as [fd|e], (existsb _ _); simpl; try done; unfold mbind, M_bind; simpl; f_equal;
    rewrite app_nil_r; by destruct w.
Qed.

Lemma close_eq fd w : 0 <= fd -> exists w', close fd w = Done tt w'
  /\ w_slots w' = <[fd := Slot_Empty]> (w_slots w) /\ w_pool w' = w_pool w /\ w_heap w' = w_heap w
  /\ w_generations w' = w_generations (renewed fd w).
Proof.
  intros Hfd. unfold close. rewrite (bind_eq _ _ _ _ _ (slot_eq fd w Hfd)). cbv zeta.
  set (counted := match slot_at w fd with Slot_Client _ => _ | _ => _ end).
  assert (Hw : exists w1, when counted (modify (fun w => w <| w_drain_inflight := (w_drain_inflight w - 1)%nat |>))
      (touched fd w) = Done tt w1 /\ w_slots w1 = w_slots w /\ w_pool w1 = w_pool w /\ w_heap w1 = w_heap w
      /\ w_generations w1 = w_generations w).
  { destruct counted; by eexists. }
  destruct Hw as (w1&H1&Hs1&Hp1&Hh1&Hg1). rewrite (bind_eq _ _ _ _ _ H1).
  rewrite (bind_eq _ _ _ _ _ (bump_eq fd w1 Hfd)), (bind_eq _ _ _ _ _ (put_slot_eq fd Slot_Empty _ Hfd)),
    (bind_eq _ _ _ _ _ (submit_eq _ _ fd _ Hfd)).
  eexists. split; [reflexivity|]. cbn. unfold generation_at. rewrite Hs1, Hp1, Hh1, Hg1. by split_and!.
Qed.

Lemma renewed_generation fd w w' :
  w_generations w' = w_generations (renewed fd w) ->
  generation_at w' fd = (generation_at w fd + 1) mod 2 ^ 24.
Proof.
  intros Hg. unfold generation_at at 1. rewrite Hg. simpl. rewrite lookup_insert_eq. simpl.
  rewrite mask_mod. unfold wrap32, wrap. apply Z.mod_mod_divide. by exists (2 ^ 8).
Qed.

(** A connection that is accepted: the number's generation moves on, and its
    slot is the new connection's. *)
Lemma drive_idle_eq n fd w c :
  0 <= fd -> slot_at w fd = Slot_Client c -> c_hand_off c = false -> c_phase c = Phase_Head ->
  has_pending_out (conn_seal c) = false -> c_upstream c = None ->
  exists w' c', drive (S n) fd w = Done tt w' /\ slot_at w' fd = Slot_Client c'
    /\ w_generations w' = w_generations w.
Proof.
  intros Hfd Hs Hh Hp Hout Hup. simpl. rewrite (with_client_eq _ _ _ _ _ Hfd Hs), Hh. unfold drive_connection.
  assert (Hsame : c_phase (conn_seal c) = Phase_Head /\ c_upstream (conn_seal c) = None).
  { unfold conn_seal. repeat case_match; by rewrite ?Hp, ?Hup. }
  destruct Hsame as [Hp' Hup']. unfold submit_client_write. rewrite Hout, andb_false_r.
  set (w1 := filled fd Slot_Taken (touched fd w)).
  rewrite (bind_eq (mret _) _ w1 (conn_seal c) w1 eq_refl). unfold submit_upstream. rewrite Hup'.
  rewrite (bind_eq (mret _) _ w1 (conn_seal c) w1 eq_refl).
  assert (Hread : exists c' w2, submit_client_read fd (conn_seal c) w1 = Done c' w2 /\ c_phase c' = Phase_Head
    /\ w_generations w2 = w_generations w).
  { unfold submit_client_read. destruct (_ && _); [|by eexists _, _].
    rewrite (bind_eq _ _ _ _ _ (submit_eq _ _ fd w1 Hfd)). eexists _, _. split; [reflexivity|].
    by destruct (submit_ok _ _). }
  destruct Hread as (c'&w2&H2&Hp2&Hg2). rewrite (bind_eq _ _ _ _ _ H2).
  unfold put_client. rewrite (bind_eq _ _ _ _ _ (put_slot_eq fd _ w2 Hfd)).
  rewrite Hp2. cbn [bool_decide decide_rel Phase_eq_dec andb]. rewrite bool_decide_eq_false_2 by done. simpl.
  eexists _, c'. split; [reflexivity|]. rewrite filled_slot, decide_True by done. by split.
Qed.

Lemma deadline_generations t w d w' : deadline_in t w = Done d w' -> w_generations w' = w_generations w.
Proof.
  unfold deadline_in. intros (now&w1&[= _ <-]&H)%bind_done. apply bind_done in H as (x&w2&H&[= _ <-]).
  apply bind_done in H as (y&w3&H&[= _ <-]). unfold assert in H. destruct (_ <=? _); [|done]. by injection H as _ <-.
Qed.

Lemma start_client_renews n fd tls w w' :
  nonblocking_ok (w_log w) fd = true -> start_client n fd tls w = Done tt w' ->
  (exists c, slot_at w' fd = Slot_Client c) /\ generation_at w' fd = (generation_at w fd + 1) mod 2 ^ 24.
Proof.
  intros Hnb. unfold start_client. intros (nb&w1&[= <- <-]&H)%bind_done. rewrite Hnb in H. cbn [negb] in H.
  apply bind_done in H as (peer&w1&[= <- <-]&H). apply bind_done in H as ([]&w1&Hb&H).
  assert (Hfd : 0 <= fd).
  { apply bind_done in Hb as ([]&w2&Hb&_). unfold index, assert in Hb. destruct (0 <=? fd) eqn:Hfd; [lia|done]. }
  rewrite bump_eq in Hb by done. injection Hb as <-. apply bind_done in H as (d&w1&Hd&H).
  apply deadline_generations in Hd. apply bind_done in H as (config&w2&[= <- <-]&H).
  set (new := Conn_new _ _) in H. apply bind_done in H as (c&w2&Hc&H).
  assert (Hnew : exists p d', c = new <| c_preface := p |> <| c_deadline := d' |> /\ w_generations w2 = w_generations w1).
  { destruct (cfg_proxy_protocol _).
    - apply bind_done in Hc as (d'&w3&Hd'&[= <- <-]). apply deadline_generations in Hd'. by eexists _, _.
    - injection Hc as <- <-. by exists None, d. }
  destruct Hnew as (p&d'&->&Hg2). apply bind_done in H as ([]&w3&Hput&H).
  unfold put_client in Hput. rewrite put_slot_eq in Hput by done. injection Hput as <-.
  apply bind_done in H as ([]&w3&[= <-]&H). destruct n as [|n]; [done|].
  match type of H with drive _ _ ?x = _ => set (w3 := x) in H end.
  match goal with H : drive _ _ _ = _ |- _ =>
    destruct (drive_idle_eq n fd w3 (new <| c_preface := p |> <| c_deadline := d' |>)) as (w4&c'&H4&Hs4&Hg4);
      [done|unfold w3, slot_at; simpl; by rewrite lookup_insert_eq|done|done|by destruct tls|done|] end.
  rewrite H4 in H. injection H as <-. split; [by exists c'|]. apply renewed_generation.
  rewrite Hg4. simpl. by rewrite Hg2, Hd.
Qed.

Lemma start_admin_renews fd w w' :
  nonblocking_ok (w_log w) fd = true -> start_admin fd w = Done tt w' ->
  generation_at w' fd = (generation_at w fd + 1) mod 2 ^ 24.
Proof.
  intros Hnb. unfold start_admin. intros (nb&w1&[= <- <-]&H)%bind_done. rewrite Hnb in H. cbn [negb] in H.
  apply bind_done in H as ([]&w1&Hb&H).
  assert (Hfd : 0 <= fd).
  { apply bind_done in Hb as ([]&w2&Hb&_). unfold index, assert in Hb. destruct (0 <=? fd) eqn:Hfd; [lia|done]. }
  rewrite bump_eq in Hb by done. injection Hb as <-. apply bind_done in H as ([]&w1&Hput&H).
  unfold put_admin in Hput. rewrite put_slot_eq in Hput by done. injection Hput as <-.
  unfold drive_admin, with_admin in H. apply bind_done in H as (s&w1&Hs&H).
  rewrite slot_eq in Hs by done. injection Hs as <- <-. rewrite filled_slot, decide_True in H by done.
  apply bind_done in H as ([]&w1&Hput&H). rewrite put_slot_eq in Hput by done. injection Hput as <-.
  simpl in H. apply bind_done in H as (a&w1&Ha&H). unfold put_admin in H.
  rewrite put_slot_eq in H by done. injection H as <-. apply bind_done in Ha as (q&w2&Hq&[= _ <-]).
  rewrite submit_eq in Hq by done. injection Hq as _ <-. by apply renewed_generation.
Qed.

(** A connection that is given away to the other engine: its slot is empty. *)
Lemma hand_off_renews drive fd w c w' :
  0 <= fd -> slot_at w fd = Slot_Client c -> cfg_dispatch (w_config w) = true ->
  hand_off drive fd w = Done tt w' -> generation_at w' fd = (generation_at w fd + 1) mod 2 ^ 24.
Proof.
  intros Hfd Hs Hd. unfold hand_off. rewrite (with_client_eq _ _ _ _ _ Hfd Hs).
  rewrite (bind_eq (gets _) _ _ _ _ eq_refl). change (cfg_dispatch _) with (cfg_dispatch (w_config w)).
  rewrite Hd. cbn [negb]. cbv zeta. rewrite (bind_eq _ _ _ _ _ (bump_eq fd _ Hfd)).
  rewrite (bind_eq _ _ _ _ _ (put_slot_eq fd _ _ Hfd)), (bind_eq (gets _) _ _ _ _ eq_refl).
  rewrite (bind_eq (log _) _ _ tt _ eq_refl). intros H. apply renewed_generation.
  unfold when in H. destruct (handoff_ok _); by injection H as <-.
Qed.

(** What has become of a descriptor number since [w], and how often its
    generation has moved on: it is closed, its connection is given away to the
    other engine, a connection is accepted on it, or something else happens that leaves its generation alone. *)
Inductive since (fd : Z) (w : Worker) : nat -> Worker -> Prop :=
| since_now : since fd w 0 w
| since_closed i w1 w2 : since fd w i w1 -> close fd w1 = Done tt w2 -> since fd w (S i) w2
| since_handed i w1 w2 drive c : since fd w i w1 -> slot_at w1 fd = Slot_Client c ->
    cfg_dispatch (w_config w1) = true -> hand_off drive fd w1 = Done tt w2 -> since fd w (S i) w2
| since_client i w1 w2 n tls : since fd w i w1 -> nonblocking_ok (w_log w1) fd = true ->
    start_client n fd tls w1 = Done tt w2 -> since fd w (S i) w2
| since_admin i w1 w2 : since fd w i w1 -> nonblocking_ok (w_log w1) fd = true ->
    start_admin fd w1 = Done tt w2 -> since fd w (S i) w2
| since_other i w1 w2 : since fd w i w1 -> generation_at w2 fd = generation_at w1 fd -> since fd w i w2.

Lemma since_generation fd w i w' :
  0 <= fd -> 0 <= generation_at w fd < 2 ^ 24 -> since fd w i w' ->
  generation_at w' fd = (generation_at w fd + Z.of_nat i) mod 2 ^ 24.
Proof.
  intros Hfd Hg. induction 1 as [|i w1 w2 _ IH Hc|i w1 w2 drive c _ IH Hs Hd Hc|i w1 w2 n tls _ IH Hnb Hc|i w1 w2 _ IH Hnb Hc|i w1 w2 _ IH Hc].
  - by rewrite Z.add_0_r, Z.mod_small.
  - destruct (close_eq fd w1 Hfd) as (w3&Hc3&_&_&_&Hg3). rewrite Hc in Hc3. injection Hc3 as <-.
    rewrite (renewed_generation _ _ _ Hg3), IH, Zplus_mod_idemp_l. f_equal. lia.
  - rewrite (hand_off_renews _ _ _ _ _ Hfd Hs Hd Hc), IH, Zplus_mod_idemp_l. f_equal. lia.
  - destruct (start_client_renews _ _ _ _ _ Hnb Hc) as [_ ->]. rewrite IH, Zplus_mod_idemp_l. f_equal. lia.
  - rewrite (start_admin_renews _ _ _ Hnb Hc), IH, Zplus_mod_idemp_l. f_equal. lia.
  - by rewrite Hc, IH.
Qed.

(** C14: A closed descriptor is deaf, whoever has inherited its number.  Take
    the completion of an operation submitted on a descriptor, and let the
    descriptor be closed or given away, and the number be handed to new clients
    or admin connections and closed again, any number of times: delivered after that,
    the completion changes nothing of the core (only a connection accepted
    meanwhile is closed, so that it does not leak), exactly as long as the
    number of closes, hand-offs and accepts is no multiple of 2^24, where the 24-bit
    generation comes round and the completion is taken for a current one. *)
Theorem closed_descriptor_deaf `{HashOrder} n k fd w i w' cp :
  is_byte k -> k <> kind.CLOSE -> 0 <= fd < 2 ^ 31 -> 0 <= generation_at w fd < 2 ^ 24 ->
  user cp = tag k (generation_at w fd) fd -> since fd w i w' ->
  if decide (Z.of_nat i mod 2 ^ 24 = 0) then tag_generation (user cp) = generation_at w' fd
  else dispatch n cp w' = Done (Ok tt) (w' <| w_log := w_log w' ++ stale_effects cp |>).
Proof.
  intros Hk Hc Hfd Hg Hu Hsince. destruct (tag_fields k (generation_at w fd) fd Hk ltac:(lia)) as (H1&H2&H3).
  pose proof (since_generation _ _ _ _ (proj1 Hfd) Hg Hsince) as Hgen. rewrite Z.mod_small in H2 by done.
  case_decide as Hi.
  - rewrite Hu, H2, Hgen, <- Zplus_mod_idemp_r, Hi, Z.add_0_r. by rewrite Z.mod_small.
  - apply stale_dispatch; rewrite Hu; [lia|by rewrite H1|]. rewrite H2, H3, Hgen. intros Heq. apply Hi.
    rewrite <- (Z.mod_small _ _ Hg) in Heq at 1. symmetry in Heq.
    apply (f_equal (fun x => (x - generation_at w fd) mod 2 ^ 24)) in Heq.
    rewrite !Zminus_mod_idemp_l in Heq. rewrite Z.sub_diag, Z.mod_0_l in Heq by lia.
    etransitivity; [|exact Heq]. f_equal. lia.
Qed.

(** ** Sending a request again *)

(** The copy of the head goes out again, on a connection yet to be made. *)
Definition resent (c : Conn) : Conn :=
  c <| c_inflight_held := false |> <| c_up_outbox := c_request_head c |> <| c_up_inbox := [] |>
    <| c_up_reading := false |> <| c_up_writing := false |> <| c_up_ready := false |>
    <| c_response_head_seen := false |> <| c_up_head := head_reset (c_up_head c) |>
    <| c_phase := Phase_Exchanging |>.

(** The in-flight counters once [c] has let go of its own. *)
Definition released (c : Conn) (h : Heap) : Heap :=
  if c_inflight_held c then
    match inflight_counter c with Some l => fetch_add_counter h l (-1) | None => h end
  else h.

Lemma release_eq c w :
  release_inflight c w = Done (c <| c_inflight_held := false |>) (w <| w_heap := released c (w_heap w) |>).
Proof.
  unfold release_inflight, released. destruct (c_inflight_held c) eqn:Hh; cbn [negb].
  - destruct (inflight_counter c); [done|unfold mbind, M_bind, mret, M_ret; f_equal; by destruct w].
  - assert (c <| c_inflight_held := false |> = c) as -> by (destruct c; simpl in *; by subst).
    unfold mret, M_ret. f_equal. by destruct w.
Qed.

Lemma retry_eq n open fd w c :
  0 <= fd -> slot_at w fd = Slot_Client c ->
  retry_or_fail n open fd w =
  (if c_from_pool c && negb (c_pool_retry_used c) && negb (c_committed c) && c_replayable c then
     put_client fd (resent c <| c_from_pool := false |> <| c_pool_retry_used := true |>) ;; open fd
   else if c_committed c || (length (c_targets c) <=? S (c_attempt c))%nat then
     put_client fd (c <| c_inflight_held := false |>) ;; exhausted n fd
   else count Retry ;; put_client fd (resent c <| c_attempt := S (c_attempt c) |>) ;; open fd)
    ((filled fd Slot_Taken (touched fd w)) <| w_heap := released c (w_heap w) |>).
Proof.
  intros Hfd Hs. unfold retry_or_fail. rewrite (with_client_eq _ _ _ _ _ Hfd Hs).
  by rewrite (bind_eq _ _ _ _ _ (release_eq c _)).
Qed.


(** ** The end of a response *)

(** Room for one more idle connection to [a]. *)
Definition pool_room (a : SocketAddr) (p : Pool) : Prop :=
  (length (default [] (by_endpoint p !! a)) < max_idle_per_host p)%nat.

Lemma pool_put_room a f now p : pool_room a p ->
  exists p', pool_put a f now p = (None, p') /\ (pool_take a p').1 = Some f.
Proof.
  intros Hroom. unfold pool_put. unfold pool_room in Hroom.
  rewrite (proj2 (Nat.leb_gt _ _)) by done. eexists. split; [reflexivity|].
  unfold pool_take. simpl. by rewrite lookup_insert_eq, last_snoc.
Qed.

(** A read on the upstream is parked, or can be. *)
Definition can_park (reading : bool) : Prop := reading = true \/ forall l op, submit_ok l op = true.

Lemma park_idle_eq a up reading w : 0 <= up -> pool_room a (w_pool w) -> can_park reading ->
  exists w', park_idle up a reading w = Done tt w'
  /\ w_slots w' = <[up := Slot_Idle a]> (w_slots w) /\ (pool_take a (w_pool w')).1 = Some up
  /\ w_heap w' = w_heap w.
Proof.
  intros Hup Hroom Hpark. unfold park_idle. rewrite (bind_eq _ _ _ _ _ (put_slot_eq up _ w Hup)).
  set (w1 := filled up (Slot_Idle a) w). rewrite (bind_eq (gets _) _ w1 _ _ eq_refl), (bind_eq clock _ w1 _ _ eq_refl).
  destruct (pool_put_room a up (clock_at (w_log w1)) (w_pool w1) Hroom) as (p'&Hp&Ht). rewrite Hp.
  rewrite (bind_eq (modify _) _ _ _ _ eq_refl). destruct reading; [by eexists; split_and!; try reflexivity|].
  destruct Hpark as [|Hpark]; [done|]. rewrite (bind_eq _ _ _ _ _ (submit_eq _ _ up _ Hup)), Hpark.
  by eexists; split_and!; try reflexivity.
Qed.

(** Whether a finished upstream may be used again. *)
Definition reusable (c : Conn) : bool :=
  c_upstream_keep_alive c && (bool_decide (c_up_inbox c = []) && negb (c_up_writing c)).

(** What [finish_response] makes of the connection. *)
Definition finished (c : Conn) : Conn :=
  let keep := c_client_keep_alive c in
  let c := conn_reset (c <| c_inflight_held := false |> <| c_upstream := None |> <| c_up_reading := false |>
                         <| c_up_writing := false |> <| c_up_ready := false |>) in
  if keep then c else c <| c_phase := Phase_Closing |>.

Lemma finish_eq fd w c up a :
  0 <= fd -> 0 <= up -> slot_at w fd = Slot_Client c -> c_upstream c = Some up -> up <> fd -> c_targets c !! c_attempt c = Some a ->
  can_park (c_up_reading c) -> pool_room a (w_pool w) ->
  exists w', finish_response fd w = Done tt w'
    /\ slot_at w' fd = Slot_Client (finished c)
    /\ w_heap w' = released c (w_heap w)
    /\ (if reusable c then slot_at w' up = Slot_Idle a /\ (pool_take a (w_pool w')).1 = Some up
        else slot_at w' up = Slot_Empty /\ w_pool w' = w_pool w).
Proof.
  intros Hfd Hupfd Hs Hup Hne Ha Hread Hroom. unfold finish_response. rewrite (with_client_eq _ _ _ _ _ Hfd Hs).
  set (w1 := filled fd Slot_Taken (touched fd w)). rewrite (bind_eq _ _ _ _ _ (release_eq c w1)).
  set (w2 := w1 <| w_heap := released c (w_heap w1) |>).
  assert (Hmid : exists w3,
    (match c_upstream c with
     | None => mret tt
     | Some up => match reusable c, c_targets c !! c_attempt c with
                  | true, Some a => park_idle up a (c_up_reading c)
                  | _, _ => close up
                  end
     end) w2 = Done tt w3
    /\ w_slots w3 = <[up := if reusable c then Slot_Idle a else Slot_Empty]> (w_slots w2)
    /\ w_heap w3 = w_heap w2
    /\ (if reusable c then (pool_take a (w_pool w3)).1 = Some up else w_pool w3 = w_pool w)).
  { rewrite Hup, Ha. destruct (reusable c).
    - destruct (park_idle_eq a up (c_up_reading c) w2) as (w3&H1&H2&H3&H4); [done..|]. by exists w3.
    - destruct (close_eq up w2 Hupfd) as (w3&H1&H2&H3&H4&_). by exists w3. }
  destruct Hmid as (w3&H3&Hsl&Hh&Hp). unfold reusable in H3.
  cbn [c_upstream c_up_inbox c_up_writing c_upstream_keep_alive c_targets c_attempt c_up_reading set_field] in *.
  rewrite (bind_eq _ _ _ _ _ H3). unfold put_client. rewrite put_slot_eq by done. eexists. split; [reflexivity|].
  rewrite !filled_slot, decide_True, decide_False by done.
  assert (Hup3 : slot_at w3 up = if reusable c then Slot_Idle a else Slot_Empty).
  { unfold slot_at. by rewrite Hsl, lookup_insert_eq. }
  split; [done|]. split; [exact Hh|]. rewrite Hup3. by destruct (reusable c).
Qed.

(** What a step leaves alone while it counts and logs. *)
Definition still w w' : Prop :=
  w_slots w' = w_slots w /\ w_pool w' = w_pool w /\ w_heap w' = w_heap w /\ w_config w' = w_config w.

Lemma still_trans w1 w2 w3 : still w1 w2 -> still w2 w3 -> still w1 w3.
Proof. intros (?&?&?&?) (?&?&?&?). unfold still. split_and!; congruence. Qed.
(** The clock never comes so near to its last instant. *)
Definition in_time (timeout : Z) : Prop := forall l, clock_at l + timeout <= INSTANT_MAX.
Lemma deadline_in_eq t w : in_time t -> exists w' d, deadline_in t w = Done d w' /\ still w w'.
Proof.
  intros Ht. unfold deadline_in, add_instant. rewrite (bind_eq clock _ w _ _ eq_refl).
  unfold mbind at 1. unfold M_bind. rewrite (bind_eq _ _ _ _ _ (assert_eq _ _ _ (proj2 (Z.leb_le _ _) (Ht _)))).
  by eexists _, _.
Qed.

Lemma on_route_eq c f w : exists w', on_route c f w = Done tt w' /\ still w w'.
Proof.
  unfold on_route, when, modify, gets, mbind, M_bind. destruct (route_block c); [|by eexists].
  by destruct (c_canaried c); eexists.
Qed.
Lemma count_response_eq c status w :
  exists w', count_response c status w = Done (c <| c_counted := true |>) w' /\ still w w'.
Proof.
  unfold count_response. destruct (c_counted c) eqn:Hc.
  - assert (c <| c_counted := true |> = c) as -> by (destruct c; simpl in *; by subst). by eexists.
  - destruct (on_route_eq (c <| c_counted := true |>) (record_response status)
      (w <| w_log := w_log w ++ [Answered status] |>)) as (w'&Hw&Hs).
    exists w'. split; [|exact Hs]. rewrite (bind_eq (log _) _ w tt _ eq_refl). by rewrite (bind_eq _ _ _ _ _ Hw).
Qed.
Lemma take_latency_eq c w :
  exists w', take_latency c w = Done (c <| c_dispatched_at := None |>) w' /\ still w w'.
Proof.
  unfold take_latency. destruct (c_dispatched_at c) as [started|] eqn:Hc.
  - unfold clock, count_latency. set (now := clock_at (w_log w)).
    set (w1 := w <| w_log := (w_log w ++ [Clock now]) |>).
    destruct (on_route_eq (c <| c_dispatched_at := None |>) (record_upstream_latency (sat_sub now started))
      (w1 <| w_log := w_log w1 ++ [LatencySeen (sat_sub now started)] |>)) as (w'&Hw&Hs).
    exists w'. split; [|exact Hs]. rewrite (bind_eq (clock) _ w now w1 eq_refl).
    unfold mbind, M_bind in *. unfold log, modify in *. rewrite Hw. reflexivity.
  - assert (c <| c_dispatched_at := None |> = c) as -> by (destruct c; simpl in *; by subst). by eexists.
Qed.

(** The connection once a response head has been read, rewritten and sent on. *)
Definition with_head (c : Conn) (h : Head) (framing : Framing) (deadline : option Z) : Conn :=
  let keep := c_client_keep_alive c && negb (bool_decide (framing = UntilClose)) in
  c <| c_up_head := h |> <| c_dispatched_at := None |>
    <| c_upstream_keep_alive := keep_alive h (c_up_inbox c) (head_version h) && allows_reuse framing |>
    <| c_client_keep_alive := keep |>
    <| c_outbox := c_outbox c
         ++ default [] (write_downstream_response reason h (c_up_inbox c) framing (negb keep) None) |>
    <| c_up_inbox := drop (head_len h) (c_up_inbox c) |>
    <| c_response_body := Body_new framing |> <| c_response_head_seen := true |>
    <| c_phase := Phase_Relaying |> <| c_committed := true |> <| c_deadline := deadline |>
    <| c_counted := true |>.

Lemma response_head_eq adv n fd w c h framing :
  c_response_head_seen c = false -> parse_response_head (c_up_inbox c) (c_up_head c) = (h, Ok true) ->
  is_switching_protocols h = false -> response_framing h (c_up_inbox c) (c_method_was_head c) = Ok framing ->
  in_time (cfg_response_timeout (w_config w)) ->
  exists w' d, response_head adv n fd c w = Done (inr (with_head c h framing d)) w' /\ still w w'.
Proof.
  intros Hseen Hp Hsw Hf Htime. unfold response_head. rewrite Hseen, Hp. cbv zeta.
  destruct (response_head_readable _ _ _ Hp) as [Hread Hlen].
  rewrite (bind_eq (read_spans h _) _ w tt w) by (by apply assert_eq). rewrite Hsw. change (response_framing h _ _) with (response_framing h (c_up_inbox c) (c_method_was_head c)).
  rewrite Hf. destruct (take_latency_eq (c <| c_up_head := h |>) w) as (w1&H1&Hs1).
  rewrite (bind_eq _ _ _ _ _ H1), (bind_eq (gets _) _ w1 _ _ eq_refl).
  rewrite (bind_eq (drain_to _ _) _ w1 (drop (head_len h) (c_up_inbox c)) w1)
    by (destruct (bool_decide (framing = UntilClose)); exact (drain_eq (c_up_inbox c) _ w1 Hlen)).
  assert (Hconfig : w_config w1 = w_config w) by apply Hs1. rewrite Hconfig.
  destruct (deadline_in_eq _ w1 Htime) as (w2&d&H2&Hs2).
  rewrite (bind_eq _ _ _ _ _ H2).
  match goal with |- context [count_response ?x ?s] => destruct (count_response_eq x s w2) as (w3&H3&Hs3) end.
  rewrite (bind_eq _ _ _ _ _ H3). exists w3, d. split; [|by eapply still_trans, still_trans].
  unfold with_head. do 3 f_equal. destruct (bool_decide _); cbn [negb]; by rewrite ?andb_false_r, ?andb_true_r.
Qed.

(** A body that has arrived whole is moved on in one go. *)
Lemma move_whole f body : delimits f body -> move_body (Body_new f) body = Some (Body_Done, Ok (body, [])).
Proof.
  intros Hd. destruct (decide (f = Empty)) as [->|Hf]; [by simpl in Hd; subst|].
  pose proof (move_to_end _ _ [] (wants_new _ _ Hd Hf)) as Hm. by rewrite app_nil_r in Hm.
Qed.

(** ** The properties *)

(** The end of a response.  Whatever has become of the request's own body,
    the connection is reset for the next request on what its buffer holds, or
    closes where it is not kept alive; its in-flight count is given back; and
    the upstream goes to the pool, as the first the next request to the same
    endpoint gets, exactly when it may be kept alive, has nothing unread and is
    not being written to: otherwise it is closed and the pool is untouched. *)
Theorem finish_response_exact fd w c up a :
  0 <= fd -> 0 <= up -> slot_at w fd = Slot_Client c -> c_upstream c = Some up -> up <> fd -> c_targets c !! c_attempt c = Some a ->
  can_park (c_up_reading c) -> pool_room a (w_pool w) ->
  exists w' c', finish_response fd w = Done tt w' /\ slot_at w' fd = Slot_Client c'
    /\ c_phase c' = (if c_client_keep_alive c then Phase_Head else Phase_Closing)
    /\ (c_inbox c', c_outbox c', c_request_body c', c_upstream c') = (c_inbox c, c_outbox c, Body_Done, None)
    /\ (c_inflight_held c', w_heap w') = (false, released c (w_heap w))
    /\ (if reusable c then slot_at w' up = Slot_Idle a /\ (pool_take a (w_pool w')).1 = Some up
        else slot_at w' up = Slot_Empty /\ w_pool w' = w_pool w).
Proof.
  intros Hfd Hupfd Hs Hup Hne Ha Hread Hroom.
  destruct (finish_eq fd w c up a Hfd Hupfd Hs Hup Hne Ha Hread Hroom) as (w'&Hw&Hf&Hh&Hr).
  exists w', (finished c). rewrite Hh. split_and!; try done; unfold finished; by destruct (c_client_keep_alive c).
Qed.

(** C6: An answer is relayed.  When an upstream's whole response has arrived,
    one step sends the client its rewritten head and then its body byte for
    byte, after what was waiting already, and ends the exchange: the client's
    connection is ready for its next request or closes, and the upstream is
    pooled if the response allows it.  The descriptors are descriptors, and
    the clock with the timeout of the configuration stays within its last
    instant. *)
Theorem response_relayed adv n fd w c up a h framing body :
  0 <= fd -> 0 <= up -> slot_at w fd = Slot_Client c -> c_upstream c = Some up -> up <> fd -> c_targets c !! c_attempt c = Some a ->
  can_park (c_up_reading c) -> pool_room a (w_pool w) ->
  c_response_head_seen c = false -> parse_response_head (c_up_inbox c) (c_up_head c) = (h, Ok true) ->
  is_switching_protocols h = false -> response_framing h (c_up_inbox c) (c_method_was_head c) = Ok framing ->
  drop (head_len h) (c_up_inbox c) = body -> delimits framing body ->
  in_time (cfg_response_timeout (w_config w)) ->
  let keep := c_client_keep_alive c in
  exists w' c', parse_response adv n fd w = Done true w' /\ slot_at w' fd = Slot_Client c'
    /\ c_outbox c' = c_outbox c
         ++ default [] (write_downstream_response reason h (c_up_inbox c) framing (negb keep) None) ++ body
    /\ c_phase c' = (if keep then Phase_Head else Phase_Closing) /\ c_inbox c' = c_inbox c
    /\ (slot_at w' up = Slot_Idle a <->
        keep_alive h (c_up_inbox c) (head_version h) = true /\ c_up_writing c = false).
Proof.
  intros Hfd Hupfd Hs Hup Hne Ha Hread Hroom Hseen Hp Hsw Hf Hbody Hd Htime keep.
  assert (Hfr : framing <> UntilClose) by (by intros ->).
  pose proof (proj2 (parse_head_length _ _ _ _ _ Hp)) as Hin.
  unfold parse_response. rewrite (with_client_eq _ _ _ _ _ Hfd Hs), bool_decide_eq_false_2 by done.
  set (w1 := filled fd Slot_Taken (touched fd w)).
  destruct (response_head_eq adv n fd w1 c h framing Hseen Hp Hsw Hf Htime) as (w2&d&H2&Hs2).
  rewrite (bind_eq _ _ _ _ _ H2). set (c1 := with_head c h framing d).
  change (c_response_body c1) with (Body_new framing). change (c_up_inbox c1) with (drop (head_len h) (c_up_inbox c)).
  rewrite Hbody, (move_whole _ _ Hd). cbv beta iota zeta.
  match goal with |- context [put_client fd ?x] => set (c2 := x) end.
  rewrite (bind_eq (put_client fd c2) _ w2 tt (filled fd (Slot_Client c2) w2) (put_slot_eq _ _ _ Hfd)).
  change (c_response_head_seen c2 && body_is_done Body_Done) with true. cbv iota.
  set (w3 := filled fd (Slot_Client c2) w2).
  assert (Hroom3 : pool_room a (w_pool w3)) by (destruct Hs2 as (_&Hpool&_); simpl; by rewrite Hpool).
  assert (Hs3 : slot_at w3 fd = Slot_Client c2) by (unfold w3; by rewrite filled_slot, decide_True).
  destruct (finish_eq fd w3 c2 up a Hfd Hupfd Hs3 Hup Hne Ha Hread Hroom3) as (w'&Hw&Hf'&_&Hr).
  exists w', (finished c2). rewrite (bind_eq _ _ _ _ _ Hw).
  assert (Hkeep : c_client_keep_alive c2 = keep).
  { change (c_client_keep_alive c2) with (keep && negb (bool_decide (framing = UntilClose))).
    by rewrite bool_decide_eq_false_2, andb_true_r. }
  assert (Hout : c_outbox c2 = c_outbox c
    ++ default [] (write_downstream_response reason h (c_up_inbox c) framing (negb keep) None) ++ body).
  { rewrite <- Hkeep. change (c_outbox c2) with ((c_outbox c
      ++ default [] (write_downstream_response reason h (c_up_inbox c) framing
           (negb (keep && negb (bool_decide (framing = UntilClose)))) None)) ++ body).
    by rewrite <- (assoc_L (++)). }
  split_and!; [done|exact Hf'| | | |].
  - rewrite <- Hout. unfold finished. by destruct (c_client_keep_alive c2).
  - unfold finished. rewrite Hkeep. by destruct keep.
  - unfold finished. by destruct (c_client_keep_alive c2).
  - assert (Hreuse : reusable c2 = keep_alive h (c_up_inbox c) (head_version h) && negb (c_up_writing c)).
    { unfold reusable. change (c_upstream_keep_alive c2) with
        (keep_alive h (c_up_inbox c) (head_version h) && allows_reuse framing).
      assert (allows_reuse framing = true) as -> by (by destruct framing). by rewrite andb_true_r. }
    rewrite Hreuse in Hr. destruct (keep_alive h _ _), (c_up_writing c); simpl in Hr; destruct Hr as [Hr _];
      rewrite Hr; naive_solver.
Qed.

(** Whom a graceful stop waits for.  A connection is kept exactly when a
    client waits for an answer on it (an exchange is under way, or bytes are
    still to be written) and it is no tunnel; it is counted, will not be kept
    alive, and reads no further request; every other connection is closed on
    the spot, its descriptor's generation moved on. *)
Theorem drain_client_exact fd w c :
  0 <= fd -> slot_at w fd = Slot_Client c ->
  let serving := match c_phase c with Phase_Connecting | Phase_Exchanging | Phase_Relaying => true | _ => false end
                 || c_writing c || has_pending_out c in
  exists w', drain_client fd w = Done tt w' /\
    (if serving && negb (bool_decide (c_phase c = Phase_Tunnel)) then
       exists c', slot_at w' fd = Slot_Client c' /\ w_drain_inflight w' = S (w_drain_inflight w)
         /\ c_drain_counted c' = true /\ c_client_keep_alive c' = false
         /\ c_phase c' = (if decide (c_phase c = Phase_Head) then Phase_Closing else c_phase c)
         /\ (wants_client_bytes c' = true -> c_request_body c' <> Body_Done)
     else slot_at w' fd = Slot_Empty
       /\ generation_at w' fd = Z.land (wrap32 (generation_at w fd + 1)) GENERATION_MASK).
Proof.
  intros Hfd Hs serving. unfold drain_client.
  rewrite (bind_eq (slot fd) _ w (Slot_Client c) (touched fd w)) by (by rewrite slot_eq, Hs by done).
  assert (Hwants : forall c0, c_phase c0 <> Phase_Tunnel -> c_phase c0 <> Phase_Head -> wants_client_bytes c0 = true ->
    c_request_body c0 <> Body_Done).
  { intros c0 H1 H2. unfold wants_client_bytes. destruct (c_client_eof c0 || _); [done|].
    by destruct (c_phase c0); try done; destruct (c_request_body c0). }
  assert (Hserving : bool_decide (c_phase c = Phase_Connecting) || bool_decide (c_phase c = Phase_Exchanging)
        || bool_decide (c_phase c = Phase_Relaying) || c_writing c || has_pending_out c = serving)
    by (unfold serving; by destruct (c_phase c)).
  cbv zeta. rewrite Hserving. destruct (serving && _) eqn:Hk; cbn [negb].
  - apply andb_true_iff in Hk as [_ Ht%negb_true_iff%bool_decide_eq_false].
    rewrite (bind_eq (put_client fd _) _ _ _ _ (put_slot_eq _ _ _ Hfd)). eexists; split; [reflexivity|].
    eexists. split; [unfold slot_at; simpl; by rewrite lookup_insert_eq|].
    change (c_phase (c <| c_client_keep_alive := false |>)) with (c_phase c).
    destruct (decide (c_phase c = Phase_Head)) as [Hp|Hp];
      [rewrite bool_decide_eq_true_2 by done|rewrite bool_decide_eq_false_2 by done];
      (split_and!; try done; by apply Hwants).
  - rewrite (bind_eq (count _) _ _ tt _ eq_refl). set (w1 := _ <| w_log := _ |>).
    destruct (close_eq fd w1 Hfd) as (w'&Hw'&Hsl&_&_&Hg). exists w'. split; [exact Hw'|].
    split; [unfold slot_at; by rewrite Hsl, lookup_insert_eq|].
    unfold generation_at at 1. rewrite Hg. simpl. by rewrite lookup_insert_eq.
Qed.
End exchange.

(** ** Witnesses *)

#[local] Existing Instance literal_engine.
#[local] Existing Instance demo_stack.
#[local] Existing Instance demo_http.
#[local] Existing Instance demo_encoder.
#[local] Existing Instance listed_order.
#[local] Existing Instance demo_world.

Definition demo_client : Conn := Conn_new (IpV4 [127; 0; 0; 1]) None.
Definition demo_upstream : SocketAddr := SocketV4 [10; 0; 0; 1] 8080.

Lemma demo_room c a : pool_room a (w_pool (demo_core c)).
Proof. unfold pool_room. simpl. rewrite lookup_empty. simpl. lia. Qed.

(** A read completes after its client has been closed and the number has gone
    to a new one. *)
Definition demo_closed : Outcome unit := close 5 (demo_core demo_client).
Definition demo_reused : Outcome unit := (close 5 ;; start_client 1 5 false) (demo_core demo_client).
Lemma closed_descriptor_deaf_witness :
  let cp := MkCompletion (tag kind.DOWN_READ 0 5) (Ok 3) (Some (bstr "GET")) in
  exists w', demo_reused = Done tt w' /\ (exists c, slot_at w' 5 = Slot_Client c)
    /\ dispatch 1 cp w' = Done (Ok tt) (w' <| w_log := w_log w' ++ [] |>).
Proof.
  intros cp. set (w := demo_core demo_client).
  destruct demo_closed as [[] w1| |] eqn:H1; [|discriminate H1|discriminate H1].
  assert (Hnb : nonblocking_ok (w_log w1) 5 = true) by (injection H1 as <-; reflexivity).
  destruct (start_client 1 5 false w1) as [[] w2| |] eqn:H2; [|injection H1 as <-; discriminate H2..].
  exists w2. split; [|split].
  - unfold demo_reused. change (close 5 (demo_core demo_client)) with demo_closed. rewrite (bind_eq _ _ _ _ _ H1). exact H2.
  - exact (proj1 (start_client_renews _ _ _ _ _ Hnb H2)).
  - assert (Hsince : since 5 w 2 w2).
    { eapply since_client; [|exact Hnb|exact H2]. eapply since_closed; [apply since_now|exact H1]. }
    pose proof (closed_descriptor_deaf 1 kind.DOWN_READ 5 w 2 w2 cp) as Hdeaf.
    rewrite decide_False in Hdeaf by discriminate. apply Hdeaf.
    + unfold is_byte, kind.DOWN_READ. lia.
    + discriminate.
    + lia.
    + unfold generation_at, w. simpl. rewrite lookup_empty. simpl. lia.
    + reflexivity.
    + exact Hsince.
Defined.


Definition demo_exchange : Conn :=
  demo_client <| c_phase := Phase_Exchanging |> <| c_upstream := Some 7 |> <| c_targets := [demo_upstream] |>
    <| c_up_inbox := bstr "HTTP/1.1 200 OK" ++ CRLF ++ bstr "Content-Length: 5" ++ CRLFCRLF ++ bstr "hello" |>.

(** An early answer: the request's body is still to come, and is taken for the
    next request. *)
Lemma finish_response_exact_witness :
  let c := demo_exchange <| c_up_inbox := [] |> <| c_request_body := Body_Length 3 |> <| c_inbox := bstr "abc" |> in
  exists w' c', finish_response 5 (demo_core c) = Done tt w' /\ slot_at w' 5 = Slot_Client c'
    /\ c_phase c' = Phase_Head /\ c_request_body c' = Body_Done /\ c_inbox c' = bstr "abc"
    /\ slot_at w' 7 = Slot_Idle demo_upstream.
Proof.
  intros c.
  destruct (finish_response_exact 5 (demo_core c) c 7 demo_upstream) as (w'&c'&H1&H2&H3&H4&_&H5&_);
    [lia|lia|reflexivity|reflexivity|discriminate|reflexivity|by right|apply demo_room|].
  injection H4 as H41 H42 H43 H44. exists w', c'. by split_and!.
Defined.

Lemma response_relayed_witness :
  exists w' c', parse_response (fun _ => out_of_fuel) 1 5 (demo_core demo_exchange) = Done true w'
    /\ slot_at w' 5 = Slot_Client c' /\ c_phase c' = Phase_Head.
Proof.
  destruct (response_relayed (fun _ => out_of_fuel) 1 5 (demo_core demo_exchange) demo_exchange 7 demo_upstream
    (parse_response_head (c_up_inbox demo_exchange) Head_default).1 (Length 5) (bstr "hello"))
    as (w'&c'&H1&H2&_&H3&_).
  - lia.
  - lia.
  - reflexivity.
  - reflexivity.
  - discriminate.
  - reflexivity.
  - by right.
  - apply demo_room.
  - reflexivity.
  - reflexivity.
  - reflexivity.
  - reflexivity.
  - reflexivity.
  - split; [lia|reflexivity].
  - intros l. unfold clock_at. simpl. unfold INSTANT_MAX. lia.
  - exists w', c'. split; [exact H1|]. split; [exact H2|exact H3].
Defined.

Lemma drain_client_exact_witness :
  exists w', drain_client 5 (demo_core demo_exchange) = Done tt w'
    /\ exists c', slot_at w' 5 = Slot_Client c' /\ c_drain_counted c' = true.
Proof.
  destruct (drain_client_exact 5 (demo_core demo_exchange) demo_exchange ltac:(lia) eq_refl)
    as (w'&H1&c'&H2&_&H3&_).
  exists w'. split; [exact H1|]. by exists c'.
Defined.
