(* ===== verification/History.v ===== *)
(** The certificate store and the rollback gate:
    [crates/ramjet-proxy/src/tls.rs] and [history.rs].

    [Plane] is what the data plane reads, two independent published cells.
    [apply_steps] lists the planes a concurrent handshake can observe while one
    generation is put on the wire.  [record], [pin] and [unpin] are the
    operations of [GenerationHistory]; the mutex makes each of them one step of
    [history_step], and no operation panics while it holds the lock, so the
    poisoned branches are not modelled.  The key type of rustls and the JSON
    value of a diff are parameters. *)

From S2P Require Import Prelude Hosts RouterTypes Canary Paths Stats Backends Table NetText Dates.

Definition DEFAULT_HISTORY_SIZE : usize := 10.

Inductive PinError :=
| Unknown (generation : u64)
| AlreadyPinned (generation : u64).

Definition pin_error_display (e : PinError) : str :=
  match e with
  | Unknown g => bstr "generation " ++ to_string g ++ bstr " is not in the history"
  | AlreadyPinned g => bstr "already pinned to generation " ++ to_string g
  end.

Inductive PinChange :=
| Pinned (generation replaced : u64)
| Resumed (generation : u64).

Section history.
Context {E : RegexEngine} `{HashOrder} {SR : SwapCell RouteTable}.
Context {CertifiedKey Json : Type} {SC : SwapCell (gmap Z CertifiedKey)}.

(** The parsed keys of one generation, by handle id. *)
Definition CertKeys : Type := gmap Z CertifiedKey.

(** ** The two stores *)

Record Plane := MkPlane {
  route_cell : @Cell RouteTable SR;
  cert_cell : @Cell (gmap Z CertifiedKey) SC;
}.

Definition published_keys (p : Plane) : CertKeys := cell_load (cert_cell p).
Definition published_table (p : Plane) : RouteTable := shared_load (route_cell p).

(** [CertStore::publish], [get], [len], [is_empty]. *)
Definition publish_certs (certs : CertKeys) (p : Plane) : Plane :=
  MkPlane (route_cell p) (cell_swap certs (cert_cell p)).2.
Definition cert_get (p : Plane) (id : u64) : option CertifiedKey := published_keys p !! id.
Definition cert_len (p : Plane) : nat := size (published_keys p).
Definition cert_is_empty (p : Plane) : bool := bool_decide (published_keys p = ∅).

Definition store_table (table : RouteTable) (p : Plane) : Plane :=
  MkPlane (shared_store_shared (route_cell p) table).2 (cert_cell p).

(** [SniResolver::resolve_name]: the table is loaded first, the certificate
    looked up afterwards, possibly in a later plane. *)
Definition resolve_name (routes_at certs_at : Plane) (server_name : str) : option CertifiedKey :=
  handle ← resolve (tls (published_table routes_at)) server_name;
  cert_get certs_at (cert_id handle).

(** [SniResolver::resolve]: no SNI is the empty name. *)
Definition resolve_hello (routes_at certs_at : Plane) (server_name : option str) : option CertifiedKey :=
  resolve_name routes_at certs_at (default [] server_name).

(** ** The ring *)

Record GenerationRecord := MkGenerationRecord {
  rec_generation : u64;
  applied_at : Z;
  published : bool;
  digest : u64;
  diff : Json;
  rec_table : RouteTable;
  rec_keys : CertKeys;
}.

Definition rec_routes (r : GenerationRecord) : u64 := Z.of_nat (route_count (rec_table r)).
Definition rec_hosts (r : GenerationRecord) : u64 :=
  Z.of_nat (host_count (rec_table r) + wildcard_host_count (rec_table r)).
Definition rec_certs (r : GenerationRecord) : u64 := Z.of_nat (size (rec_keys r)).

(** [changes] is what the registered sender was given, oldest first. *)
Record GenerationHistory := MkGenerationHistory {
  plane : Plane;
  capacity : usize;
  ring : list GenerationRecord;
  pinned : option u64;
  changes : option (list PinChange);
}.

Definition history_new (p : Plane) (capacity : usize) : GenerationHistory :=
  MkGenerationHistory p (Nat.max capacity 1) [] None None.

Definition notify (h : GenerationHistory) : GenerationHistory :=
  MkGenerationHistory (plane h) (capacity h) (ring h) (pinned h) (Some (default [] (changes h))).

Definition serving (h : GenerationHistory) : u64 := shared_generation (route_cell (plane h)).

(** [apply]: certificates first, then the table that names them; the planes
    this goes through. *)
Definition apply_steps (keys : CertKeys) (table : RouteTable) (p : Plane) : list Plane :=
  let p1 := publish_certs keys p in
  [p1; store_table table p1].
Definition apply (keys : CertKeys) (table : RouteTable) (p : Plane) : Plane :=
  List.last (apply_steps keys table p) p.

Definition set_published (r : GenerationRecord) : GenerationRecord :=
  MkGenerationRecord (rec_generation r) (applied_at r) true (digest r) (diff r) (rec_table r) (rec_keys r).
Definition mark_published (generation : u64) (ring : list GenerationRecord) : list GenerationRecord :=
  map (fun r => if rec_generation r =? generation then set_published r else r) ring.

(** [while ring.len() > capacity { pop_front }]. *)
Fixpoint evict (capacity : usize) (ring : list GenerationRecord) : list GenerationRecord :=
  match ring with
  | [] => []
  | _ :: ring' => if (capacity <? length ring)%nat then evict capacity ring' else ring
  end.
Definition push (r : GenerationRecord) (capacity : usize) (ring : list GenerationRecord)
    : list GenerationRecord :=
  evict capacity (List.filter (fun held => negb (rec_generation held =? rec_generation r)) ring ++ [r]).

Definition announce (change : PinChange) (h : GenerationHistory) : GenerationHistory :=
  MkGenerationHistory (plane h) (capacity h) (ring h) (pinned h)
    ((fun sent => sent ++ [change]) <$> changes h).

Definition record (generation digest : u64) (diff : Json) (table : RouteTable) (keys : CertKeys)
    (now : Z) (h : GenerationHistory) : bool * GenerationHistory :=
  let publish := bool_decide (pinned h = None) in
  let plane' := if publish then apply keys table (plane h) else plane h in
  let r := MkGenerationRecord generation now publish digest diff table keys in
  (publish, MkGenerationHistory plane' (capacity h) (push r (capacity h) (ring h)) (pinned h) (changes h)).

Definition pin (generation : u64) (h : GenerationHistory) : result PinError unit * GenerationHistory :=
  match pinned h with
  | Some current => (Err (AlreadyPinned current), h)
  | None =>
      match find_first (fun r => rec_generation r =? generation) (ring h) with
      | None => (Err (Unknown generation), h)
      | Some r =>
          let replaced := serving h in
          let h' := MkGenerationHistory (apply (rec_keys r) (rec_table r) (plane h)) (capacity h)
                      (mark_published generation (ring h)) (Some generation) (changes h) in
          (Ok tt, announce (Pinned generation replaced) h')
      end
  end.

Definition unpin (h : GenerationHistory) : option u64 * GenerationHistory :=
  match pinned h with
  | None => (None, h)
  | Some _ =>
      match last (ring h) with
      | None => (None, MkGenerationHistory (plane h) (capacity h) (ring h) None (changes h))
      | Some r =>
          let g := rec_generation r in
          let h' := MkGenerationHistory (apply (rec_keys r) (rec_table r) (plane h)) (capacity h)
                      (mark_published g (ring h)) None (changes h) in
          (Some g, announce (Resumed g) h')
      end
  end.

(** What an operator and the applier can do; the applier hands the table's own
    generation number over. *)
Inductive history_step : GenerationHistory -> GenerationHistory -> Prop :=
| step_record h digest diff table keys now :
    history_step h (record (generation table) digest diff table keys now h).2
| step_pin h g : history_step h (pin g h).2
| step_unpin h : history_step h (unpin h).2
| step_notify h : history_step h (notify h).
End history.
Arguments Plane {E SR} CertifiedKey {SC}.
Arguments GenerationRecord {E} CertifiedKey Json.
Arguments GenerationHistory {E SR} CertifiedKey Json {SC}.

(** ** Lemmas *)

Section history_lemmas.
Context {E : RegexEngine} `{LR : SwapCellLaws RouteTable}.
Context {CertifiedKey Json : Type} `{LC : SwapCellLaws (gmap Z CertifiedKey)}.
Implicit Types (h : GenerationHistory CertifiedKey Json) (r : GenerationRecord CertifiedKey Json)
  (p : Plane CertifiedKey).

(** What is on the wire. *)
Definition wire h : gmap Z CertifiedKey * RouteTable :=
  (published_keys (plane h), published_table (plane h)).

Lemma publish_certs_effect keys p :
  published_keys (publish_certs keys p) = keys /\
  published_table (publish_certs keys p) = published_table p.
Proof. unfold published_keys, published_table, publish_certs. simpl. by rewrite load_swap. Qed.

Lemma store_table_effect table p :
  published_keys (store_table table p) = published_keys p /\
  published_table (store_table table p) = table.
Proof.
  unfold published_keys, published_table, store_table, shared_store_shared, shared_load. simpl.
  by rewrite load_swap.
Qed.

Lemma apply_effect keys table p :
  published_keys (apply keys table p) = keys /\ published_table (apply keys table p) = table.
Proof.
  unfold apply, apply_steps. simpl.
  destruct (store_table_effect table (publish_certs keys p)) as [-> ->].
  by destruct (publish_certs_effect keys p) as [-> _].
Qed.

Lemma evict_drop n (l : list (GenerationRecord CertifiedKey Json)) : evict n l = drop (length l - n) l.
Proof.
  induction l as [|r l IH]; [done|]. cbn [evict]. destruct (n <? length (r :: l))%nat eqn:E1.
  - rewrite IH. cbn [length] in *. by replace (S (length l) - n)%nat with (S (length l - n)) by lia.
  - by replace (length (r :: l) - n)%nat with 0%nat by lia.
Qed.

Definition generations (l : list (GenerationRecord CertifiedKey Json)) : list Z := map rec_generation l.

Lemma generations_mark g l : generations (mark_published g l) = generations l.
Proof.
  unfold generations, mark_published. rewrite List.map_map. apply List.map_ext.
  intros r. by destruct (_ =? g).
Qed.

Lemma last_mark g l r :
  last l = Some r ->
  last (mark_published g l) = Some (if rec_generation r =? g then set_published r else r).
Proof. unfold mark_published. intros Hl. change map with (@fmap list _). rewrite fmap_last, Hl. done. Qed.

Lemma push_last r n l : (0 < n)%nat -> last (push r n l) = Some r.
Proof.
  intros Hn. unfold push. rewrite evict_drop, length_app. simpl.
  rewrite drop_app_le by lia. apply last_snoc.
Qed.

Lemma push_length r n l : (0 < n)%nat -> (length (push r n l) <= n)%nat.
Proof. intros Hn. unfold push. rewrite evict_drop, length_drop. lia. Qed.

Lemma push_incl r n l x : x ∈ push r n l -> x = r \/ x ∈ l.
Proof.
  unfold push. rewrite evict_drop. intros Hx.
  apply elem_of_drop in Hx as Hx'.
  apply elem_of_app in Hx' as [Hx'|Hx']; [|left; by apply list_elem_of_singleton].
  right. apply list_elem_of_In in Hx'. apply List.filter_In in Hx' as [? _]. by apply list_elem_of_In.
Qed.

Lemma generations_filter g l :
  generations (List.filter (fun held => negb (rec_generation held =? g)) l)
  = List.filter (fun x => negb (x =? g)) (generations l).
Proof. induction l as [|r l IH]; [done|]. simpl. destruct (_ =? g); simpl; by rewrite IH. Qed.

Lemma NoDup_filter_bool (f : Z -> bool) l : NoDup l -> NoDup (List.filter f l).
Proof. rewrite !NoDup_ListNoDup. apply List.NoDup_filter. Qed.

Lemma push_nodup r n l : NoDup (generations l) -> NoDup (generations (push r n l)).
Proof.
  intros Hd. unfold push. rewrite evict_drop. unfold generations. rewrite <- List.skipn_map.
  apply NoDup_drop. rewrite List.map_app. fold (generations l).
  fold (generations (List.filter (fun held => negb (rec_generation held =? rec_generation r)) l)).
  rewrite generations_filter. apply NoDup_app. split_and!.
  - by apply NoDup_filter_bool.
  - intros x Hx. rewrite list_elem_of_In in Hx. apply List.filter_In in Hx as [_ Hx].
    simpl. rewrite list_elem_of_singleton. lia.
  - apply NoDup_singleton.
Qed.

(** ** The gate *)

Record gate_ok h : Prop := {
  gate_capacity : (1 <= capacity h)%nat /\ (length (ring h) <= capacity h)%nat;
  gate_nodup : NoDup (generations (ring h));
  gate_numbers : Forall (fun r => generation (rec_table r) = rec_generation r) (ring h);
  gate_wire : match pinned h with
    | None => forall r, last (ring h) = Some r ->
        wire h = (rec_keys r, rec_table r) /\ published r = true
    | Some g => serving h = g /\ ring h <> []
    end;
}.

Lemma gate_record h digest diff table keys now :
  gate_ok h -> gate_ok (record (generation table) digest diff table keys now h).2.
Proof.
  intros [[Hc Hl] Hd Hn Hw]. unfold record. cbn [snd].
  set (r := MkGenerationRecord _ _ _ _ _ _ _). split; simpl.
  - split; [done|by apply push_length].
  - by apply push_nodup.
  - apply Forall_forall. intros x Hx. apply push_incl in Hx as [->|Hx]; [done|].
    by apply (proj1 (Forall_forall _ _) Hn).
  - unfold wire, serving in *. simpl. destruct (pinned h) as [g|] eqn:Hp.
    + rewrite bool_decide_eq_false_2 by done. split; [apply Hw|].
      intros Hnil. pose proof (push_last r (capacity h) (ring h) Hc) as Hlast. by rewrite Hnil in Hlast.
    + rewrite bool_decide_eq_true_2 by done. intros x. rewrite push_last by done. intros [= <-].
      destruct (apply_effect keys table (plane h)) as [-> ->]. by unfold r.
Qed.

Lemma mark_numbers g l :
  Forall (fun r => generation (rec_table r) = rec_generation r) l ->
  Forall (fun r => generation (rec_table r) = rec_generation r) (mark_published g l).
Proof.
  intros Hf. unfold mark_published. apply Forall_fmap. eapply Forall_impl; [exact Hf|].
  intros r Hr. simpl. by case_match.
Qed.

Lemma gate_pin h g : gate_ok h -> gate_ok (pin g h).2.
Proof.
  intros Hok. pose proof Hok as [[Hc Hl] Hd Hn Hw]. unfold pin.
  destruct (pinned h) as [c|] eqn:Hp; [done|].
  destruct (find_first _ (ring h)) as [r|] eqn:Hf; [|done].
  apply find_first_elem in Hf as [Hr Hg]. split; simpl.
  - split; [done|]. unfold mark_published. by rewrite List.length_map.
  - by rewrite generations_mark.
  - by apply mark_numbers.
  - change (generation (published_table (apply (rec_keys r) (rec_table r) (plane h))) = g /\
      mark_published g (ring h) <> []).
    destruct (apply_effect (rec_keys r) (rec_table r) (plane h)) as [_ ->]. split.
    + pose proof (proj1 (Forall_forall _ _) Hn r Hr) as Hg'. simpl in Hg'. lia.
    + destruct (ring h); [by apply elem_of_nil in Hr|done].
Qed.

Lemma gate_unpin h : gate_ok h -> gate_ok (unpin h).2.
Proof.
  intros Hok. pose proof Hok as [[Hc Hl] Hd Hn Hw]. unfold unpin.
  destruct (pinned h) as [c|] eqn:Hp; [|done].
  destruct (last (ring h)) as [r|] eqn:Hr.
  - split; simpl.
    + split; [done|]. unfold mark_published. by rewrite List.length_map.
    + by rewrite generations_mark.
    + by apply mark_numbers.
    + intros x. rewrite (last_mark _ _ _ Hr), Z.eqb_refl. intros [= <-]. unfold wire. simpl.
      by destruct (apply_effect (rec_keys r) (rec_table r) (plane h)) as [-> ->].
  - exfalso. apply last_None in Hr. naive_solver.
Qed.

Lemma gate_init p n : gate_ok (history_new (Json := Json) p n).
Proof. split; simpl; [lia|constructor|constructor|done]. Qed.

Lemma gate_step h h' : gate_ok h -> history_step h h' -> gate_ok h'.
Proof.
  intros Hok Hs. destruct Hs; [by apply gate_record|by apply gate_pin|by apply gate_unpin|].
  by destruct Hok; split.
Qed.

(** ** A run of the applier *)

Record Compiled := MkCompiled {
  c_digest : Z; c_diff : Json; c_table : RouteTable; c_keys : gmap Z CertifiedKey; c_now : Z;
}.
Definition record_compiled h (c : Compiled) : GenerationHistory CertifiedKey Json :=
  (record (generation (c_table c)) (c_digest c) (c_diff c) (c_table c) (c_keys c) (c_now c) h).2.
Definition record_all h (cs : list Compiled) : GenerationHistory CertifiedKey Json :=
  foldl record_compiled h cs.
Definition numbers (cs : list Compiled) : list Z := map (fun c => generation (c_table c)) cs.

Lemma record_capacity h c : capacity (record_compiled h c) = capacity h.
Proof. done. Qed.

Lemma record_generations h c :
  generation (c_table c) ∉ generations (ring h) ->
  generations (ring (record_compiled h c))
  = newest (capacity h) (generations (ring h) ++ [generation (c_table c)]).
Proof.
  intros Hn. unfold record_compiled, record. simpl. unfold push. rewrite evict_drop.
  unfold generations, newest. rewrite <- List.skipn_map, List.map_app.
  assert (Hf : forall l, generation (c_table c) ∉ generations l ->
    List.filter (fun held => negb (rec_generation held =? generation (c_table c))) l = l).
  { induction l as [|r l IH]; [done|]. simpl. rewrite not_elem_of_cons. intros [? ?].
    replace (rec_generation r =? _) with false by lia. simpl. by rewrite IH. }
  rewrite !Hf by done. rewrite !length_app, List.length_map. done.
Qed.

Lemma record_all_generations h cs :
  newest (capacity h) (generations (ring h)) = generations (ring h) ->
  NoDup (generations (ring h) ++ numbers cs) ->
  generations (ring (record_all h cs)) = newest (capacity h) (generations (ring h) ++ numbers cs).
Proof.
  revert h. induction cs as [|c cs IH]; intros h Hnew Hd; simpl.
  { by rewrite app_nil_r. }
  rewrite NoDup_app in Hd. destruct Hd as (Hd1&Hd2&Hd3). simpl in Hd2, Hd3.
  apply NoDup_cons in Hd3 as [Hd3 Hd4].
  assert (Hc : generation (c_table c) ∉ generations (ring h)).
  { intros Hin. apply (Hd2 _ Hin). left. }
  pose proof (record_generations h c Hc) as Hr.
  change (record_all (record_compiled h c) cs) with (record_all (record_compiled h c) cs) in *.
  unfold record_all in IH |- *. rewrite IH; rewrite ?record_capacity, ?Hr.
  - rewrite newest_app. by rewrite <- app_assoc.
  - unfold newest at 1. rewrite length_newest. by match goal with |- drop ?k _ = _ => replace k with 0%nat by lia end.
  - apply NoDup_app. split_and!; [|  |done].
    + apply NoDup_drop, NoDup_app. split_and!; [done| |apply NoDup_singleton].
      intros x Hx ->%list_elem_of_singleton. done.
    + intros x Hx%elem_of_drop Hx'. apply elem_of_app in Hx as [Hx|Hx].
      * apply (Hd2 _ Hx). by right.
      * by apply list_elem_of_singleton in Hx as ->.
Qed.
End history_lemmas.

(** The audit trail as an automaton: pins and resumes alternate, and the state
    is the pin they leave behind. *)
Fixpoint trail_state (pinned : option u64) (trail : list PinChange) : option (option u64) :=
  match trail with
  | [] => Some pinned
  | Pinned g _ :: trail' =>
      match pinned with None => trail_state (Some g) trail' | Some _ => None end
  | Resumed _ :: trail' =>
      match pinned with Some _ => trail_state None trail' | None => None end
  end.

Lemma trail_state_app s l k :
  trail_state s (l ++ k) = (s' ← trail_state s l; trail_state s' k).
Proof.
  revert s. induction l as [|[g r|g] l IH]; intros s; simpl; [done| |]; by destruct s.
Qed.

(** * Properties *)

Section history_properties.
Context {E : RegexEngine} `{LR : SwapCellLaws RouteTable}.
Context {CertifiedKey Json : Type} `{LC : SwapCellLaws (gmap Z CertifiedKey)}.
Implicit Types (h : GenerationHistory CertifiedKey Json) (p : Plane CertifiedKey).

(** The publication gate.  Whatever the applier and the operators do, in
    any order: the ring holds at most [capacity] generations and none twice;
    while nothing is pinned the data plane serves exactly the newest recorded
    generation, keys and table, and that record says it was published; while
    [g] is pinned the data plane serves generation [g]. *)
Theorem gate_invariant p n h (Hreach : rtc history_step (history_new p n) h) :
  (1 <= capacity h)%nat /\ (length (ring h) <= capacity h)%nat /\ NoDup (map rec_generation (ring h)) /\
  match pinned h with
  | None => forall r, last (ring h) = Some r -> wire h = (rec_keys r, rec_table r) /\ published r = true
  | Some g => serving h = g
  end.
Proof.
  assert (Hok : gate_ok h).
  { eapply rtc_invariant; [apply gate_init| |exact Hreach]. intros. by eapply gate_step. }
  destruct Hok as [[? ?] ? ? Hw]. split_and!; [done..|]. destruct (pinned h); [apply Hw|exact Hw].
Qed.

(** C21: A pin holds the wire and resuming jumps to the latest.  After a
    successful [pin g] the data plane serves the keys and the table recorded
    for [g]; any number of generations compiled afterwards are recorded without
    reaching it; [unpin] then publishes the last of them. *)
Theorem pin_holds_wire p n h g h1 (cs : list Compiled)
    (Hreach : rtc history_step (history_new p n) h) (Hpin : pin g h = (Ok tt, h1)) :
  let h2 := record_all h1 cs in
  (exists r, r ∈ ring h /\ rec_generation r = g /\ wire h1 = (rec_keys r, rec_table r)) /\
  pinned h2 = Some g /\ wire h2 = wire h1 /\
  exists r, last (ring h2) = Some r /\
    (forall c, last cs = Some c -> rec_table r = c_table c /\ rec_keys r = c_keys c) /\
    (unpin h2).1 = Some (rec_generation r) /\ pinned (unpin h2).2 = None /\
    wire (unpin h2).2 = (rec_keys r, rec_table r).
Proof.
  assert (Hok : gate_ok h).
  { eapply rtc_invariant; [apply gate_init| |exact Hreach]. intros. by eapply gate_step. }
  assert (Hok1 : gate_ok h1) by (change h1 with ((Ok (E := PinError) tt, h1)).2; rewrite <- Hpin; by apply gate_pin).
  assert (H1 : (exists r, r ∈ ring h /\ rec_generation r = g /\ wire h1 = (rec_keys r, rec_table r))
    /\ pinned h1 = Some g).
  { unfold pin in Hpin. destruct (pinned h); [done|].
    destruct (find_first _ (ring h)) as [r|] eqn:Hf; [|done]. injection Hpin as <-.
    apply find_first_elem in Hf as [Hr Hg]. split; [|done]. exists r. split_and!; [done|lia|].
    unfold wire. simpl. by destruct (apply_effect (rec_keys r) (rec_table r) (plane h)) as [-> ->]. }
  destruct H1 as [H1 Hp1]. simpl. split; [done|].
  assert (Hrun : forall cs, gate_ok (record_all h1 cs) /\ pinned (record_all h1 cs) = Some g /\
    wire (record_all h1 cs) = wire h1 /\
    forall c, last cs = Some c -> exists r, last (ring (record_all h1 cs)) = Some r /\
      rec_table r = c_table c /\ rec_keys r = c_keys c).
  { intros cs'. induction cs' as [|c cs' IH] using rev_ind; [done|].
    unfold record_all. rewrite foldl_app. fold (record_all h1 cs'). simpl.
    destruct IH as (Hk&Hp&Hw&_). split_and!.
    - by apply gate_record.
    - done.
    - unfold wire, record_compiled, record in *. simpl. by rewrite Hp.
    - intros c'. rewrite last_snoc. intros [= <-]. eexists. split.
      + unfold record_compiled, record. simpl. apply push_last. by apply Hk.
      + done. }
  destruct (Hrun cs) as ([_ _ _ Hgw]&Hp&Hw&Hlast). split_and!; [done..|].
  rewrite Hp in Hgw. destruct Hgw as [_ Hne].
  destruct (last (ring (record_all h1 cs))) as [r|] eqn:Hr; [|by apply last_None in Hr].
  exists r. split_and!; [done| | | |].
  - intros c Hc. destruct (Hlast c Hc) as (r'&[= <-]&?). done.
  - unfold unpin. by rewrite Hp, Hr.
  - unfold unpin. by rewrite Hp, Hr.
  - unfold unpin. rewrite Hp, Hr. unfold wire. simpl.
    by destruct (apply_effect (rec_keys r) (rec_table r) (plane (record_all h1 cs))) as [-> ->].
Qed.

(** The ring keeps the newest [capacity] generations, in order.  This also
    holds behind a pin: a pinned generation leaves the ring once [capacity]
    newer ones are recorded, although it stays on the wire. *)
Theorem ring_keeps_newest h (cs : list Compiled)
    (Hfull : (length (ring h) <= capacity h)%nat)
    (Hdistinct : NoDup (map rec_generation (ring h) ++ numbers cs)) :
  map rec_generation (ring (record_all h cs))
  = newest (capacity h) (map rec_generation (ring h) ++ numbers cs) /\
  (forall g, pinned h = Some g -> (capacity h <= length cs)%nat -> g ∉ numbers cs ->
     g ∉ map rec_generation (ring (record_all h cs)) /\ pinned (record_all h cs) = Some g /\
     wire (record_all h cs) = wire h).
Proof.
  assert (Hr : map rec_generation (ring (record_all h cs))
    = newest (capacity h) (map rec_generation (ring h) ++ numbers cs)).
  { apply record_all_generations; [|done]. apply newest_le. unfold generations. by rewrite List.length_map. }
  split; [done|]. intros g Hp Hlen Hg.
  assert (Hkeep : forall cs', pinned (record_all h cs') = Some g /\ wire (record_all h cs') = wire h).
  { intros cs'. induction cs' as [|c cs' [Hp' Hw]] using rev_ind; [done|].
    unfold record_all. rewrite foldl_app. fold (record_all h cs'). simpl. split; [done|].
    unfold wire, record_compiled, record in *. simpl. by rewrite Hp'. }
  split; [|apply Hkeep]. rewrite Hr. unfold newest. rewrite drop_app_ge by
    (rewrite length_app, List.length_map; unfold numbers; rewrite List.length_map; lia).
  by intros Hin%elem_of_drop.
Qed.

(** C40: When a publication is seamless for a name.  A handshake that has loaded
    the old table looks its certificate up in whatever the store then holds.
    So a name served before is served at every moment of [apply] exactly when
    the new keys still hold the key the old table names; and a handshake that
    loads the new table always finds the new keys beside it.  A rotation, whose
    content-addressed id replaces the old one, fails the first condition: in
    between the two stores the name cannot be served. *)
Theorem publication_seamless_iff keys table p name handle k
    (Hname : resolve (tls (published_table p)) name = Some handle)
    (Hkey : cert_get p (cert_id handle) = Some k) :
  let during := apply_steps keys table p in
  (Forall (fun q => resolve_name p q name = Some k) during <-> keys !! cert_id handle = Some k) /\
  (keys !! cert_id handle = None ->
     exists q, q ∈ during /\ resolve_name q q name = None /\ resolve_name p p name = Some k) /\
  Forall (fun q => published_table q = table -> published_table p <> table ->
    resolve_name q q name = (new ← resolve (tls table) name; keys !! cert_id new)) during.
Proof.
  simpl. unfold resolve_name, cert_get, apply_steps in *. cbv zeta.
  destruct (store_table_effect table (publish_certs keys p)) as [Hk2 Ht2].
  destruct (publish_certs_effect keys p) as [Hk1 Ht1]. rewrite Hname. simpl.
  split_and!.
  - rewrite !Forall_cons, Hk2, Hk1. naive_solver.
  - intros Hnone. exists (publish_certs keys p). split_and!; [set_solver| |done].
    rewrite Ht1, Hname. simpl. by rewrite Hk1.
  - constructor; [congruence|constructor; [|constructor]]. intros _ _. rewrite Ht2.
    destruct (resolve (tls table) name); simpl; [|done]. by rewrite Hk2, Hk1.
Qed.

(** The audit trail is complete: once a sender is registered, pins and
    resumes alternate in what it is told, whatever is refused in between, and
    the last of them tells the pin that is in force. *)
Theorem trail_tells_pin p n h trail
    (Hreach : rtc history_step (notify (history_new p n)) h) (Htrail : changes h = Some trail) :
  trail_state None trail = Some (pinned h).
Proof.
  assert (Hinv : gate_ok h /\ exists l, changes h = Some l /\ trail_state None l = Some (pinned h)).
  { refine (rtc_invariant history_step
      (fun h => gate_ok h /\ exists l, changes h = Some l /\ trail_state None l = Some (pinned h)) _ _ _ _ Hreach).
    - split; [|by exists []]. by destruct (gate_init (Json := Json) p n); split.
    - intros a b (Hok&l&Hl&Hs) Hstep. split; [by eapply gate_step|].
      destruct Hok as [_ _ _ Hw], Hstep as [h0|h0 g|h0|h0]; simpl.
      + by exists l.
      + unfold pin. destruct (pinned h0) eqn:Hp; [exists l; simpl; by rewrite Hp|].
        destruct (find_first _ _) as [r|]; [|exists l; simpl; by rewrite Hp]. simpl. rewrite Hl.
        eexists. split; [done|]. by rewrite trail_state_app, Hs.
      + unfold unpin. destruct (pinned h0) eqn:Hp; [|exists l; simpl; by rewrite Hp].
        destruct (last (ring h0)) as [r|] eqn:Hr; simpl; [|apply last_None in Hr; naive_solver].
        rewrite Hl. eexists. split; [done|]. by rewrite trail_state_app, Hs.
      + rewrite Hl. by exists l. }
  destruct Hinv as (_&l&Hl&Hs). rewrite Htrail in Hl. by injection Hl as ->.
Qed.
End history_properties.

(** ** Witnesses *)

Definition demo_plane : @Plane literal_engine (plain_cell _) Z (plain_cell _) :=
  @MkPlane literal_engine (plain_cell _) Z (plain_cell _)
    (demo_table (H := literal_engine) 0 : @Cell _ (plain_cell _)) (({[ 1 := 100 ]} : gmap Z Z) : @Cell _ (plain_cell _)).
Definition demo_history : @GenerationHistory literal_engine (plain_cell _) Z unit (plain_cell _) :=
  history_new demo_plane 2.
Definition demo_compiled (g : Z) : @Compiled literal_engine Z unit :=
  MkCompiled 0 tt (demo_table (H := literal_engine) g) {[ g := g ]} g.

Lemma demo_reach cs :
  rtc history_step demo_history (record_all demo_history cs).
Proof.
  induction cs as [|c cs IH] using rev_ind; [apply rtc_refl|].
  unfold record_all. rewrite foldl_app. eapply rtc_r; [exact IH|]. apply step_record.
Qed.

Definition two_recorded := record_all demo_history [demo_compiled 1; demo_compiled 2].

Lemma gate_invariant_witness :
  map rec_generation (ring two_recorded) = [1; 2] /\ NoDup (map rec_generation (ring two_recorded)).
Proof.
  split; [reflexivity|].
  apply (gate_invariant (LR := plain_cell_laws _) (LC := plain_cell_laws _) demo_plane 2 two_recorded).
  apply demo_reach.
Defined.

Lemma pin_holds_wire_witness :
  let h2 := record_all (pin 1 two_recorded).2 [demo_compiled 3] in
  pinned h2 = Some 1 /\ wire h2 = wire (pin 1 two_recorded).2.
Proof.
  destruct (pin_holds_wire (LR := plain_cell_laws _) (LC := plain_cell_laws _) demo_plane 2
    two_recorded 1 (pin 1 two_recorded).2 [demo_compiled 3] (demo_reach _) eq_refl) as (_&H1&H2&_).
  exact (conj H1 H2).
Defined.

Lemma ring_keeps_newest_witness :
  map rec_generation (ring (record_all (pin 1 two_recorded).2 [demo_compiled 3; demo_compiled 4])) = [3; 4].
Proof.
  assert (Hd : NoDup (map rec_generation (ring (pin 1 two_recorded).2)
    ++ numbers [demo_compiled 3; demo_compiled 4])).
  { apply (bool_decide_unpack _). vm_compute. exact I. }
  exact (proj1 (ring_keeps_newest
    (pin 1 two_recorded).2 [demo_compiled 3; demo_compiled 4] ltac:(vm_compute; lia) Hd)).
Defined.

(** The certificate of [demo_host] rotates from id 1 to id 2: the name is
    served before and after, and not in between. *)
Definition rotated_table : @RouteTable literal_engine :=
  MkRouteTable (hosts (demo_table (H := literal_engine) 1)) ∅ None None []
    (MkBackendStats [] ∅) (MkRouteStats [] ∅)
    (MkSniMap {[ demo_host := MkCertifiedKeyHandle 2 ]} ∅ None) 1.
Lemma publication_seamless_iff_witness :
  resolve_name demo_plane demo_plane demo_host = Some 100 /\
  (exists q, q ∈ apply_steps {[ 2 := 200 ]} rotated_table demo_plane /\ resolve_name q q demo_host = None) /\
  resolve_name (apply {[ 2 := 200 ]} rotated_table demo_plane)
    (apply {[ 2 := 200 ]} rotated_table demo_plane) demo_host = Some 200.
Proof.
  split; [reflexivity|]. split; [|reflexivity].
  destruct (publication_seamless_iff (LR := plain_cell_laws _) (LC := plain_cell_laws _)
    {[ 2 := 200 ]} rotated_table demo_plane demo_host (MkCertifiedKeyHandle 1) 100 eq_refl eq_refl)
    as (_&Hgap&_).
  destruct (Hgap eq_refl) as (q&Hq&Hn&_). exists q. exact (conj Hq Hn).
Defined.

Lemma trail_tells_pin_witness :
  trail_state None [Pinned 1 2; Resumed 2] = Some None.
Proof.
  assert (Hr : rtc history_step (notify demo_history)
    (unpin (pin 1 (record_all (notify demo_history) [demo_compiled 1; demo_compiled 2])).2).2).
  { eapply rtc_r; [|apply step_unpin]. eapply rtc_r; [|apply step_pin].
    eapply rtc_r; [|apply step_record]. apply rtc_once. apply step_record. }
  exact (trail_tells_pin (LR := plain_cell_laws _) (LC := plain_cell_laws _) demo_plane 2 _ _ Hr eq_refl).
Defined.
