(* ===== verification/Publisher.v ===== *)
(** Preparing a generation's certificates:
    [crates/ramjet-ingressd/src/certs.rs] and the [Publisher] of
    [kubernetes.rs].

    PEM decoding and key loading belong to [rustls_pemfile] and [rustls]; they
    are the interface [Rustls].  [prepare] keeps the parsed keys of the last
    generation as a cache, by content-addressed handle id. *)

From S2P Require Import Prelude RouterTypes Canary Paths Stats Backends Table Annotations Config.

(** What the crates offer: the certificates and the first private key of a PEM
    blob, and a signing key from both. *)
Class Rustls := {
  CertificateDer : Type;
  PrivateKeyDer : Type;
  CertifiedKey : Type;
  IoError : Type;
  RustlsError : Type;
  pemfile_certs : bytes -> result IoError (list CertificateDer);
  pemfile_private_key : bytes -> result IoError (option PrivateKeyDer);
  from_der : list CertificateDer -> PrivateKeyDer -> result RustlsError CertifiedKey;
}.

Section publisher.
Context {E : RegexEngine} {R : Rustls}.

Inductive CertError :=
| NoCertificates
| NoPrivateKey
| Pem (e : IoError)
| Rustls_ (e : RustlsError).

Definition chain (pem : bytes) : result CertError (list CertificateDer) :=
  chain ← map_err Pem (pemfile_certs pem);
  match chain with [] => Err NoCertificates | _ => Ok chain end.

Definition private_key (pem : bytes) : result CertError PrivateKeyDer :=
  found ← map_err Pem (pemfile_private_key pem);
  ok_or found NoPrivateKey.

Definition certified_key (cert_chain_pem key_pem : bytes) : result CertError CertifiedKey :=
  c ← chain cert_chain_pem;
  k ← private_key key_pem;
  map_err Rustls_ (from_der c k).

Record Applied := MkApplied {
  applied_generation : u64;
  reused : usize;
  parsed : usize;
  rejected : usize;
}.
Definition certificates (a : Applied) : usize := (reused a + parsed a)%nat.

(** The cache, [Publisher::parsed]. *)
Definition Publisher : Type := gmap Z CertifiedKey.
Definition Publisher_new : Publisher := ∅.

(** One material of the loop: the keys so far and the counts. *)
Definition prepare_one (cache : Publisher) (acc : gmap Z CertifiedKey * Applied) (m : CertMaterial)
    : gmap Z CertifiedKey * Applied :=
  let '(keys, a) := acc in
  match cache !! handle_id m with
  | Some key =>
      (<[handle_id m := key]> keys, MkApplied (applied_generation a) (S (reused a)) (parsed a) (rejected a))
  | None =>
      match certified_key (cert_chain_pem m) (key_pem m) with
      | Ok key =>
          (<[handle_id m := key]> keys, MkApplied (applied_generation a) (reused a) (S (parsed a)) (rejected a))
      | Err _ => (keys, MkApplied (applied_generation a) (reused a) (parsed a) (S (rejected a)))
      end
  end.

(** [prepare]: the summary, the keys, and the cache for the next generation. *)
Definition prepare (cache : Publisher) (config : CompiledConfig)
    : Applied * gmap Z CertifiedKey * Publisher :=
  let '(keys, a) :=
    foldl (prepare_one cache) (∅, MkApplied (generation (config_table config)) 0 0 0) (certs config) in
  (a, keys, keys).

(** The generations of one process, each prepared with the cache the one before
    left behind. *)
Fixpoint prepare_all (cache : Publisher) (configs : list CompiledConfig)
    : list (Applied * gmap Z CertifiedKey) :=
  match configs with
  | [] => []
  | config :: configs' =>
      let '(a, keys, cache') := prepare cache config in (a, keys) :: prepare_all cache' configs'
  end.

(** ** Lemmas *)

Definition parse_of (m : CertMaterial) : result CertError CertifiedKey :=
  certified_key (cert_chain_pem m) (key_pem m).

(** The cache holds keys of materials the world knows. *)
Definition cache_sound (world : list CertMaterial) (cache : Publisher) : Prop :=
  forall id key, cache !! id = Some key -> exists m, m ∈ world /\ handle_id m = id /\ parse_of m = Ok key.
(** An id names its bytes. *)
Definition addressed (world : list CertMaterial) : Prop :=
  forall m m', m ∈ world -> m' ∈ world -> handle_id m = handle_id m' -> m = m'.

Lemma cache_agrees world cache m key :
  addressed world -> cache_sound world cache -> m ∈ world ->
  cache !! handle_id m = Some key -> parse_of m = Ok key.
Proof.
  intros Ha Hs Hm Hc. destruct (Hs _ _ Hc) as (m'&Hm'&Hid&Hp). by rewrite (Ha m m').
Qed.

(** The loop invariant: the keys are those of the materials seen that parse. *)
Record loop_ok (cache : Publisher) (seen : list CertMaterial) (st : gmap Z CertifiedKey * Applied) : Prop := {
  loop_keys : forall id key, st.1 !! id = Some key <->
    exists m, m ∈ seen /\ handle_id m = id /\ parse_of m = Ok key;
  loop_count : (reused st.2 + parsed st.2 + rejected st.2)%nat = length seen;
  loop_parsed : parsed st.2 =
    length (List.filter (fun m => is_ok (parse_of m) && bool_decide (cache !! handle_id m = None)) seen);
}.

Lemma loop_step world cache seen st m :
  addressed world -> cache_sound world cache -> m ∈ world -> (forall x, x ∈ seen -> x ∈ world) ->
  loop_ok cache seen st -> loop_ok cache (seen ++ [m]) (prepare_one cache st m).
Proof.
  intros Ha Hc Hm Hsub [Hk Hn Hp]. destruct st as [keys a]. unfold prepare_one. simpl in *.
  assert (Hins : forall key, parse_of m = Ok key ->
    forall id k, <[handle_id m := key]> keys !! id = Some k <->
      exists m', m' ∈ seen ++ [m] /\ handle_id m' = id /\ parse_of m' = Ok k).
  { intros key Hkey id k. split.
    - intros [[<- <-]|[Hne Hl]]%lookup_insert_Some; [exists m; set_solver|].
      apply Hk in Hl as (m'&?&?&?). exists m'. set_solver.
    - intros (m'&Hin&<-&Hm'). destruct (decide (handle_id m' = handle_id m)) as [Heq|Hne].
      + assert (m' = m) as ->; [|rewrite lookup_insert_eq; congruence].
        apply Ha; [|done|done]. apply elem_of_app in Hin as [?| ->%list_elem_of_singleton]; auto.
      + rewrite lookup_insert_ne by done. apply Hk. exists m'. split; [|done].
        apply elem_of_app in Hin as [?| ->%list_elem_of_singleton]; done. }
  destruct (cache !! handle_id m) as [key|] eqn:Hcache.
  - pose proof (cache_agrees world cache m key Ha Hc Hm Hcache) as Hpm.
    split; simpl; [by apply Hins| |].
    + rewrite length_app. simpl. lia.
    + rewrite List.filter_app. simpl. rewrite Hcache, bool_decide_eq_false_2, andb_false_r by done.
      by rewrite app_nil_r.
  - fold (parse_of m). destruct (parse_of m) as [key|e] eqn:Hpm; split; simpl.
    + by apply Hins.
    + rewrite length_app. simpl. lia.
    + rewrite List.filter_app. simpl. rewrite Hpm, Hcache, bool_decide_eq_true_2 by done. simpl.
      rewrite length_app. simpl. lia.
    + intros id k. rewrite Hk. split; intros (m'&Hin&?&?); exists m'; [set_solver|].
      apply elem_of_app in Hin as [?| ->%list_elem_of_singleton]; [done|congruence].
    + rewrite length_app. simpl. lia.
    + rewrite List.filter_app. simpl. rewrite Hpm. simpl. by rewrite app_nil_r.
Qed.

Lemma prepare_loop world cache config :
  addressed world -> cache_sound world cache -> (forall x, x ∈ certs config -> x ∈ world) ->
  let '(a, keys, cache') := prepare cache config in
  loop_ok cache (certs config) (keys, a) /\ cache' = keys /\ cache_sound world keys.
Proof.
  intros Ha Hc Hsub. unfold prepare.
  assert (Hl : loop_ok cache (certs config)
    (foldl (prepare_one cache) (∅, MkApplied (generation (config_table config)) 0 0 0) (certs config))).
  { revert Hsub. induction (certs config) as [|m l IH] using rev_ind; intros Hsub.
    - split; simpl; [|done|done]. intros id key. rewrite lookup_empty.
      split; [done|]. intros (m&Hm&_). by apply elem_of_nil in Hm.
    - rewrite foldl_app. simpl. eapply loop_step; [done|done|set_solver|set_solver|]. apply IH. set_solver. }
  destruct (foldl _ _ _) as [keys a]. split_and!; [done|done|].
  intros id key Hk. apply (loop_keys _ _ _ Hl) in Hk as (m&?&?&?). eauto.
Qed.

(** The keys generation [i] found in the cache: those of the one before. *)
Definition cached_at (cache : Publisher) (configs : list CompiledConfig) (i : nat) : Publisher :=
  match i with
  | 0%nat => cache
  | S j => default ∅ (snd <$> prepare_all cache configs !! j)
  end.

Lemma prepare_all_loop world cache configs i config a keys :
  addressed world -> cache_sound world cache -> (forall x, x ∈ flat_map certs configs -> x ∈ world) ->
  configs !! i = Some config -> prepare_all cache configs !! i = Some (a, keys) ->
  loop_ok (cached_at cache configs i) (certs config) (keys, a) /\
  applied_generation a = generation (config_table config).
Proof.
  intros Ha. revert cache i. induction configs as [|c configs IH]; intros cache i Hc Hsub Hi Hp; [done|].
  simpl in Hp, Hsub. pose proof (prepare_loop world cache c Ha Hc ltac:(set_solver)) as Hl.
  destruct (prepare cache c) as [[a0 keys0] cache'] eqn:Hprep. destruct Hl as (Hl&->&Hs).
  destruct i as [|i]; simpl in *.
  - simplify_eq. split; [done|]. unfold prepare in Hprep.
    assert (Hg : forall l st, applied_generation (foldl (prepare_one cache) st l).2 = applied_generation st.2).
    { induction l as [|m l IHl]; intros [k s]; simpl; [done|]. rewrite IHl. simpl. repeat case_match; done. }
    specialize (Hg (certs config) (∅, MkApplied (generation (config_table config)) 0 0 0)).
    destruct (foldl _ _ _) as [k s]. by injection Hprep as <- _ _.
  - specialize (IH keys0 i Hs ltac:(set_solver) Hi Hp). destruct i as [|i]; simpl in *; [|by rewrite Hprep].
    by rewrite Hprep.
Qed.

(** * Properties *)

(** The cache is transparent.  Over any run of generations, as long as an
    id names its bytes: each generation is handed exactly the keys of its
    materials that parse, by id, whatever was cached; every material is counted
    once, as reused, parsed or rejected; and what is parsed anew is what parses
    and the generation before did not hold. *)
Theorem publisher_cache_transparent (configs : list CompiledConfig)
    (Haddr : addressed (flat_map certs configs)) i config a keys
    (Hconfig : configs !! i = Some config)
    (Hprep : prepare_all Publisher_new configs !! i = Some (a, keys)) :
  (forall id key, keys !! id = Some key <->
     exists m, m ∈ certs config /\ handle_id m = id /\
       certified_key (cert_chain_pem m) (key_pem m) = Ok key) /\
  (certificates a + rejected a)%nat = length (certs config) /\
  parsed a = length (List.filter (fun m =>
    is_ok (certified_key (cert_chain_pem m) (key_pem m)) &&
    bool_decide (cached_at Publisher_new configs i !! handle_id m = None)) (certs config)) /\
  applied_generation a = generation (config_table config).
Proof.
  assert (Hs : cache_sound (flat_map certs configs) Publisher_new).
  { intros id key Hx. assert (Hn : Publisher_new !! id = None) by apply lookup_empty.
    by rewrite Hn in Hx. }
  destruct (prepare_all_loop _ _ _ _ _ _ _ Haddr Hs (fun x Hx => Hx) Hconfig Hprep) as [[Hk Hn Hp] Hg].
  by split_and!.
Qed.
End publisher.

(** ** Witness *)

(** A toy PEM: a blob is its own certificate and key, empty blobs hold nothing,
    and a pair is refused when the two differ. *)
Definition toy_rustls : Rustls := {|
  CertificateDer := bytes; PrivateKeyDer := bytes; CertifiedKey := bytes; IoError := unit; RustlsError := unit;
  pemfile_certs pem := Ok (match pem with [] => [] | _ => [pem] end);
  pemfile_private_key pem := Ok (match pem with [] => None | _ => Some pem end);
  from_der certs key := if bool_decide (certs = [key]) then Ok key else Err tt;
|}.
Definition demo_materials : list CertMaterial :=
  [MkCertMaterial 1 [7] [7]; MkCertMaterial 2 [8] [9]; MkCertMaterial 3 [5] [5]].
Definition demo_config (g : Z) (ms : list CertMaterial) : @CompiledConfig literal_engine :=
  MkCompiledConfig (demo_table (H := literal_engine) g) ms [] 0.

Lemma publisher_cache_transparent_witness :
  exists a keys, prepare_all (R := toy_rustls) ∅ [demo_config 1 (take 2 demo_materials); demo_config 2 demo_materials] !! 1%nat
    = Some (a, keys) /\ reused a = 1%nat /\ parsed a = 1%nat /\ rejected a = 1%nat /\
  (keys !! 1 = Some [7] <-> exists m, m ∈ demo_materials /\ handle_id m = 1 /\
     certified_key (R := toy_rustls) (cert_chain_pem m) (key_pem m) = Ok [7]).
Proof.
  exists (MkApplied 2 1 1 1), ({[1 := [7]; 3 := [5]]} : gmap Z bytes). split; [vm_cast_no_check (eq_refl (Some (MkApplied 2 1 1 1, ({[1 := [7]; 3 := [5]]} : gmap Z bytes))))|].
  split; [reflexivity|]. split; [reflexivity|]. split; [reflexivity|].
  refine (proj1 (publisher_cache_transparent (R := toy_rustls)
    [demo_config 1 (take 2 demo_materials); demo_config 2 demo_materials] _ 1%nat
    (demo_config 2 demo_materials) (MkApplied 2 1 1 1) {[1 := [7]; 3 := [5]]} eq_refl
    ltac:(vm_cast_no_check (eq_refl (Some (MkApplied 2 1 1 1, ({[1 := [7]; 3 := [5]]} : gmap Z bytes)))))) 1 [7]).
  intros m m' Hm Hm'. simpl in Hm, Hm'. rewrite !elem_of_cons in Hm, Hm'.
  rewrite elem_of_nil in Hm, Hm'. naive_solver.
Defined.
