(* ===== verification/Admin.v ===== *)
(** The admin listener: [crates/ramjet-proxy/src/admin.rs], [to_json] of
    [ramjet-controller/src/diff.rs] and [upstream_latency_ms] of
    [ramjet-router/src/stats.rs].

    A request is what the handler reads of it; the [http] types, the length
    limit of the body reader, the constant-time comparison and the text of JSON
    are the classes [AdminHttp], [ConstantTimeEq] and [Json.SerdeJson].  A [Json.Value]
    is the tree the [json!] macro builds; its objects list their keys in the
    order the source writes them.  [state.routes] is the cell the history
    publishes to: the daemon gives both the same one. *)

From Stdlib Require Import SpecFloat.
From S2P Require Import Prelude Order NetText F64 RouterTypes Canary Paths Stats Backends Table Metrics Dates History Diff Rates Json.

(** [subtle::ConstantTimeEq::ct_eq] on slices. *)
Class ConstantTimeEq := {
  ct_eq : bytes -> bytes -> bool;
  ct_eq_spec : forall a b, ct_eq a b = true <-> a = b;
}.

Class AdminHttp := {
  HeaderMap : Type;
  Incoming : Type;
  (** [headers.get(AUTHORIZATION)] and [HeaderValue::to_str]. *)
  authorization : HeaderMap -> option bytes;
  value_to_str : bytes -> option str;
  (** Text only, and what is in the header. *)
  value_to_str_ascii : forall raw s, value_to_str raw = Some s -> s = raw /\ ascii s;
  (** [Limited::new(body, limit).collect()]. *)
  collect_limited : Z -> Incoming -> option bytes;
}.

(** [Exposition]: the engine whose counters the page shows. *)
Class Exposition (X : Type) := exposition : X -> u64 -> bool -> str.
#[export] Instance Metrics_exposition : Exposition Metrics := render_prometheus.
#[export] Instance EngineMetrics_exposition : Exposition EngineMetrics := engine_render_prometheus.

Definition PROMETHEUS_CONTENT_TYPE : str := bstr "text/plain; version=0.0.4; charset=utf-8".
Definition API_VERSION : u64 := 1.
Definition MAX_BODY : usize := (4 * 1024)%nat.
Definition BEARER : str := bstr "Bearer ".
Definition UNGATED : list str := [bstr "/metrics"; bstr "/healthz"; bstr "/readyz"].

(** [Method] is known by its name. *)
Definition GET : str := bstr "GET".
Definition HEAD : str := bstr "HEAD".
Definition POST : str := bstr "POST".
Definition DELETE : str := bstr "DELETE".

(** ** The token *)

Inductive TokenError {E : Type} := Unreadable (error : E) | TokenEmpty.
Arguments TokenError : clear implicits.

Record AdminAuth := MkAdminAuth { token : bytes }.

Definition is_ascii_whitespace (b : u8) : bool :=
  (b =? 32) || (b =? 9) || (b =? 10) || (b =? 12) || (b =? 13).
Definition rposition {A} (p : A -> bool) (l : list A) : option nat :=
  (fun i => (length l - 1 - i)%nat) <$> position p (rev l).

Definition trim_token (raw : bytes) : bytes :=
  match position (fun b => negb (is_ascii_whitespace b)) raw, rposition (fun b => negb (is_ascii_whitespace b)) raw with
  | Some start, Some end_ => take (S end_ - start) (drop start raw)
  | _, _ => []
  end.
(** [from_file], over what [std::fs::read] gave. *)
Definition from_file {E} (read : result E bytes) : result (TokenError E) AdminAuth :=
  match read with
  | Err e => Err (Unreadable e)
  | Ok raw =>
      let trimmed := trim_token raw in
      if bool_decide (trimmed = []) then Err TokenEmpty else Ok (MkAdminAuth trimmed)
  end.
Definition from_token {E} (t : str) : result (TokenError E) AdminAuth :=
  let trimmed := str_trim t in
  if bool_decide (trimmed = []) then Err TokenEmpty else Ok (MkAdminAuth trimmed).

(** ** Numbers of a route and of a generation *)

Definition upstream_latency_ms (t : RouteTotals) : f64 :=
  f64_div (f64_of_u64 (upstream_latency_micros t)) (f64_of_u64 1000).

(** [{:016x}]. *)
Definition hex_digit (d : Z) : u8 := if d <? 10 then 48 + d else 87 + d.
Fixpoint hex_digits (width : nat) (n : Z) : str :=
  match width with O => [] | S w => hex_digits w (n / 16) ++ [hex_digit (n mod 16)] end.
Definition hex16 (n : u64) : str := hex_digits 16 n.

Definition diff_to_json (d : ConfigDiff) : Value :=
  Object [(bstr "summary", Text (summary d));
    (bstr "routes_added", json_texts (routes_added d));
    (bstr "routes_removed", json_texts (routes_removed d));
    (bstr "backends_changed", json_texts (backends_changed d));
    (bstr "certs_rotated", json_texts (certs_rotated d));
    (bstr "hosts_added", json_texts (hosts_added d));
    (bstr "hosts_removed", json_texts (hosts_removed d));
    (bstr "mirrors_added", json_texts (mirrors_added d));
    (bstr "mirrors_removed", json_texts (mirrors_removed d))].

Section admin.
Context {E : RegexEngine} `{HashOrder} {SR : SwapCell RouteTable}.
Context {CertifiedKey : Type} {SC : SwapCell (gmap Z CertifiedKey)}.
Context `{SerdeJson, ConstantTimeEq, AdminHttp} {X : Type} `{Exposition X}.

Definition authorizes (a : AdminAuth) (headers : HeaderMap) : bool :=
  match authorization headers with
  | None => false
  | Some raw =>
      match value_to_str raw with
      | None => false
      | Some value =>
          match
            prefix ← str_get_range value 0 (length BEARER);
            if eq_ignore_ascii_case prefix BEARER then str_get_from value (length BEARER) else None
          with
          | Some offered => ct_eq offered (token a)
          | None => false
          end
      end
  end.

(** ** The state and the messages *)

(** [st_store] holds the route slots of every generation. *)
Record AdminState := MkAdminState {
  st_metrics : X;
  st_readiness : bool;
  st_history : GenerationHistory CertifiedKey Value;
  st_store : RouteStore;
  st_auth : option AdminAuth;
}.
Definition with_history (h : GenerationHistory CertifiedKey Value) (st : AdminState) : AdminState :=
  MkAdminState (st_metrics st) (st_readiness st) h (st_store st) (st_auth st).
Definition set_ready (ready : bool) (st : AdminState) : AdminState :=
  MkAdminState (st_metrics st) ready (st_history st) (st_store st) (st_auth st).

Record Request := MkRequest { rq_method : str; rq_path : str; rq_headers : HeaderMap; rq_body : Incoming }.
Record Response := MkResponse {
  rs_status : u16;
  rs_content_type : str;
  rs_authenticate : option str;
  rs_body : bytes;
}.

Definition text (status : u16) (body : str) : Response :=
  MkResponse status (bstr "text/plain; charset=utf-8") None body.
Definition json (status : u16) (value : Value) : Response :=
  MkResponse status (bstr "application/json") None (default (bstr "{}") (to_vec value)).
Definition unauthorized : Response :=
  MkResponse 401 (bstr "text/plain; charset=utf-8") (Some (bstr "Bearer"))
    (bstr "unauthorized: this endpoint requires Authorization: Bearer <token>" ++ [LF]).
Definition mutates (method : str) : bool :=
  negb (bool_decide (method = GET) || bool_decide (method = HEAD)).

(** ** What is reported *)

Definition generation_value (r : GenerationRecord CertifiedKey Value) : Value :=
  Object [(bstr "generation", PosInt (rec_generation r));
    (bstr "applied_at", Text (rfc3339 (applied_at r)));
    (bstr "published", Bool (published r));
    (bstr "digest", Text (hex16 (digest r)));
    (bstr "routes", PosInt (rec_routes r));
    (bstr "hosts", PosInt (rec_hosts r));
    (bstr "certs", PosInt (rec_certs r));
    (bstr "diff", diff r)].
Definition generations_json (st : AdminState) : Value :=
  let h := st_history st in
  Object [(bstr "version", PosInt API_VERSION);
    (bstr "pinned", json_option PosInt (pinned h));
    (bstr "serving", PosInt (serving h));
    (bstr "generations", Array (map generation_value (rev (ring h))))].

Definition name_of (t : RouteTable) (id : BackendId) : str := default [] (backend_name <$> table_backend t id).
Definition counters_json (t : RouteTotals) : list (str * Value) :=
  [(bstr "requests_total", PosInt (requests t));
   (bstr "errors_5xx_total", PosInt (errors_5xx t));
   (bstr "upstream_latency_ms_sum", json_f64 (upstream_latency_ms t));
   (bstr "upstream_latency_count", PosInt (upstream_latency_count t))].

Definition route_value (store : RouteStore) (t : RouteTable) (host : str) (rule : PathRule) : Value :=
  let slot := l ← route_slot (Table.routes t) (rule_stats_index rule); store !! l in
  let totals := default RouteCounters_default (Stats.totals <$> slot) in
  let backend := table_backend t (rule_backend rule) in
  let canary := (fun c => Object [
    (bstr "backend", Text (name_of t (canary_backend c)));
    (bstr "weight_percent", PosInt (weight_percent c))]) <$> rule_canary rule in
  let canary_stats := _ ← rule_canary rule; s ← slot; Some (Object (counters_json (canary_totals s))) in
  let mirror := (fun m => Object [
    (bstr "backend", Text (name_of t (mirror_backend m)));
    (bstr "percent", PosInt (mirror_percent m));
    (bstr "host", json_option Text (mirror_host m))]) <$> rule_mirror rule in
  Object ([(bstr "host", Text host);
    (bstr "path", Text (rule_path rule));
    (bstr "path_type", Text (RouterTypes.path_type_as_str (rule_path_type rule)));
    (bstr "backend", Text (default [] (backend_name <$> backend)));
    (bstr "endpoints", PosInt (default 0 ((fun b => Z.of_nat (length (endpoints b))) <$> backend)));
    (bstr "protocol", Text (default [] ((fun b => protocol_as_str (protocol b)) <$> backend)))]
    ++ counters_json totals ++
    [(bstr "canary", json_option id canary);
     (bstr "canary_stats", json_option id canary_stats);
     (bstr "mirror", json_option id mirror)]).

Definition routes_json (st : AdminState) : Value :=
  let t := shared_load_full (route_cell (plane (st_history st))) in
  let rows := map (fun '(host, rule) =>
    let host := route_host_display host in
    ((host, rule_path rule), route_value (st_store st) t host rule)) (table_routes t) in
  let rows := sort_by (fun a b => ord_le a.1 b.1) rows in
  Object [(bstr "version", PosInt API_VERSION);
    (bstr "generation", PosInt (generation t));
    (bstr "routes", Array (map snd rows))].

(** ** The two operations *)

Definition error_json (message : str) (rest : list (str * Value)) : Value := Object ((bstr "error", Text message) :: rest).

Definition rollback (st : AdminState) (rq : Request) : Response * AdminState :=
  match collect_limited (Z.of_nat MAX_BODY) (rq_body rq) with
  | None => (json 400 (error_json (bstr "could not read the request body") []), st)
  | Some body =>
      match v ← from_slice body; g ← value_get (bstr "generation") v; as_u64 g with
      | None => (json 400 (error_json (bstr "body must be an object with a numeric `generation`") []), st)
      | Some g =>
          match pin g (st_history st) with
          | (Ok tt, h) => (json 200 (Object [(bstr "pinned", PosInt g)]), with_history h st)
          | (Err (Unknown n as error), h) =>
              (json 404 (error_json (pin_error_display error) [(bstr "generation", PosInt g)]), with_history h st)
          | (Err (AlreadyPinned current as error), h) =>
              (json 409 (error_json (pin_error_display error) [(bstr "pinned", PosInt current)]), with_history h st)
          end
      end
  end.

Definition resume (st : AdminState) : Response * AdminState :=
  (json 200 (Object [(bstr "pinned", Null)]), with_history (unpin (st_history st)).2 st).

(** ** The handler *)

Definition gated (st : AdminState) (rq : Request) : bool :=
  mutates (rq_method rq) && negb (bool_decide (rq_path rq ∈ UNGATED)) &&
  match st_auth st with Some auth => negb (authorizes auth (rq_headers rq)) | None => false end.

Definition read_page (st : AdminState) (path : str) : Response :=
  if bool_decide (path = bstr "/metrics") then
    MkResponse 200 PROMETHEUS_CONTENT_TYPE None
      (exposition (st_metrics st) (serving (st_history st)) (bool_decide (is_Some (pinned (st_history st)))))
  else if bool_decide (path = bstr "/healthz") then text 200 (writeln (bstr "ok"))
  else if bool_decide (path = bstr "/readyz") then
    if st_readiness st then text 200 (writeln (bstr "ready")) else text 503 (writeln (bstr "not ready"))
  else if bool_decide (path = bstr "/admin/generations") then json 200 (generations_json st)
  else if bool_decide (path = bstr "/admin/routes") then json 200 (routes_json st)
  else text 404 (writeln (bstr "not found")).

Definition handle (st : AdminState) (rq : Request) : Response * AdminState :=
  if gated st rq then (unauthorized, st)
  else if bool_decide (rq_path rq = bstr "/admin/rollback") then
    if bool_decide (rq_method rq = POST) then rollback st rq
    else if bool_decide (rq_method rq = DELETE) then resume st
    else (text 405 (writeln (bstr "method not allowed: POST to pin a generation, DELETE to release it")), st)
  else if mutates (rq_method rq) then (text 405 (writeln (bstr "method not allowed")), st)
  else (read_page st (rq_path rq), st).
End admin.
Arguments AdminState {E SR} CertifiedKey {SC} X.

(** ** Who may write *)

Section admin_lemmas.
Context {E : RegexEngine} `{HashOrder} {SR : SwapCell RouteTable}.
Context {CertifiedKey : Type} {SC : SwapCell (gmap Z CertifiedKey)}.
Context `{SerdeJson, ConstantTimeEq, AdminHttp} {X : Type} `{Exposition X}.
Implicit Types (st : AdminState CertifiedKey X).

(** The header is the scheme, in any case, and exactly the token. *)
Definition carries_token (a : AdminAuth) (headers : HeaderMap) : Prop :=
  exists scheme, authorization headers = Some (scheme ++ token a) /\
    is_Some (value_to_str (scheme ++ token a)) /\ eq_ignore_ascii_case scheme BEARER = true.

Lemma bearer_split s prefix :
  ascii s -> str_get_range s 0 (length BEARER) = Some prefix ->
  s = prefix ++ drop 7 s /\ length prefix = 7%nat /\ str_get_from s (length BEARER) = Some (drop 7 s).
Proof.
  intros Ha. unfold str_get_from, str_get_range. change (length BEARER) with 7%nat.
  destruct (_ && _) eqn:E1; [|discriminate]. intros [= <-]. apply andb_true_iff in E1 as [E1 E2].
  assert (Hl : (7 <= length s)%nat).
  { destruct (decide (7 <= length s)%nat) as [|Hn]; [done|]. unfold is_char_boundary in E2. cbn in E2.
    rewrite lookup_ge_None_2 in E2 by lia. by repeat case_match. }
  rewrite drop_0, firstn_length_le by lia. rewrite take_drop. split_and!; [done|done|].
  rewrite !ascii_boundary by (try done; lia). replace (7 <=? length s)%nat with true by lia. cbn [andb].
  by rewrite take_ge by (rewrite length_drop; lia).
Qed.

Lemma authorizes_iff a headers : authorizes a headers = true <-> carries_token a headers.
Proof.
  unfold authorizes, carries_token. destruct (authorization headers) as [raw|]; [|split; [done|by intros (? & ? & _)]].
  split.
  - destruct (value_to_str raw) as [value|] eqn:Hv; [|done]. destruct (value_to_str_ascii _ _ Hv) as [-> Ha].
    destruct (str_get_range raw 0 (length BEARER)) as [prefix|] eqn:Hp; cbn [mbind option_bind]; [|done].
    destruct (eq_ignore_ascii_case prefix BEARER) eqn:Hc; [|done].
    destruct (bearer_split raw prefix Ha Hp) as (Hs & Hl & ->). rewrite ct_eq_spec. intros Ht.
    exists prefix. rewrite <- Ht, <- Hs. eauto.
  - intros (scheme & [= ->] & [s Hs] & Hc). rewrite Hs. destruct (value_to_str_ascii _ _ Hs) as [-> Ha].
    assert (Hl : length scheme = 7%nat).
    { apply bool_decide_eq_true in Hc. apply (f_equal length) in Hc. by rewrite !length_lower in Hc. }
    assert (Hp : str_get_range (scheme ++ token a) 0 (length BEARER) = Some scheme).
    { unfold str_get_range. change (length BEARER) with 7%nat. rewrite !ascii_boundary by (try done; rewrite ?length_app; lia).
      cbn [andb Nat.leb]. rewrite drop_0. f_equal. by rewrite <- Hl, Nat.sub_0_r, take_app_length. }
    destruct (bearer_split _ _ Ha Hp) as (_ & _ & Hd). rewrite Hp. cbn [mbind option_bind]. rewrite Hc, Hd.
    apply ct_eq_spec. by rewrite <- Hl, drop_app_length.
Qed.

Lemma gated_iff st rq :
  gated st rq = true <->
  mutates (rq_method rq) = true /\ rq_path rq ∉ UNGATED /\ exists a, st_auth st = Some a /\ ~ carries_token a (rq_headers rq).
Proof.
  unfold gated. rewrite !andb_true_iff, negb_true_iff, bool_decide_eq_false. destruct (st_auth st) as [a|].
  - rewrite negb_true_iff, <- not_true_iff_false, authorizes_iff. naive_solver.
  - naive_solver.
Qed.

Lemma rollback_is_gated : bstr "/admin/rollback" ∉ UNGATED.
Proof. unfold UNGATED. rewrite !elem_of_cons, elem_of_nil. by intros [?|[?|[?|?]]]. Qed.
Lemma with_same st : with_history (st_history st) st = st.
Proof. by destruct st. Qed.

(** What an operation of the rollback endpoint can do. *)
Lemma rollback_cases st rq resp st' :
  rollback st rq = (resp, st') ->
  st' = st \/ (rs_status resp = 200 /\ exists g, pin g (st_history st) = (Ok tt, st_history st') /\ st' = with_history (st_history st') st).
Proof.
  unfold rollback. destruct (collect_limited _ _) as [body|]; [|intros [= _ <-]; auto].
  destruct (_ ≫= _) as [g|]; [|intros [= _ <-]; auto].
  destruct (pin g (st_history st)) as [r h] eqn:Hp.
  assert (Hbad : forall e, r = Err e -> h = st_history st) by
    (intros e ->; revert Hp; unfold pin; repeat case_match; congruence).
  destruct r as [[]|[n|n]]; intros [= <- <-].
  - right. split; [done|]. exists g. by destruct st.
  - left. rewrite (Hbad _ eq_refl). apply with_same.
  - left. rewrite (Hbad _ eq_refl). apply with_same.
Qed.
End admin_lemmas.

(** ** The listing, as the dashboard reads it *)

(** What a reader finds that looks the fields of [RouteEntry] up by name. *)
Definition shows_counters (v : Value) (requests errors : u64) (sum : f64) (count : u64) : Prop :=
  value_get (bstr "requests_total") v = Some (PosInt requests) /\
  value_get (bstr "errors_5xx_total") v = Some (PosInt errors) /\
  value_get (bstr "upstream_latency_ms_sum") v = Some (Float sum) /\
  value_get (bstr "upstream_latency_count") v = Some (PosInt count).
Definition shows_option {A} (P : Value -> A -> Prop) (v : option Value) (o : option A) : Prop :=
  match o with Some x => exists v', v = Some v' /\ P v' x | None => v = Some Null end.
Record shows (v : Value) (e : RouteEntry) : Prop := {
  shows_host : value_get (bstr "host") v = Some (Text (re_host e));
  shows_path : value_get (bstr "path") v = Some (Text (re_path e));
  shows_path_type : exists raw, value_get (bstr "path_type") v = Some (Text raw) /\ path_type_deserialize raw = re_path_type e;
  shows_backend : value_get (bstr "backend") v = Some (Text (re_backend e));
  shows_endpoints : value_get (bstr "endpoints") v = Some (PosInt (re_endpoints e));
  shows_totals : shows_counters v (re_requests_total e) (re_errors_5xx_total e)
    (re_upstream_latency_ms_sum e) (re_upstream_latency_count e);
  shows_canary : shows_option (fun v c =>
    value_get (bstr "backend") v = Some (Text (cn_backend c)) /\
    value_get (bstr "weight_percent") v = Some (PosInt (cn_weight_percent c)))
    (value_get (bstr "canary") v) (re_canary e);
  shows_canary_stats : shows_option (fun v c =>
    shows_counters v (cs_requests_total c) (cs_errors_5xx_total c) (cs_upstream_latency_ms_sum c) (cs_upstream_latency_count c))
    (value_get (bstr "canary_stats") v) (re_canary_stats e);
}.

Section listing.
Context {E : RegexEngine} `{HashOrder}.

(** What there is to show of one rule. *)
Definition entry_of (store : RouteStore) (t : RouteTable) (x : RouteHost * PathRule) : RouteEntry :=
  let rule := x.2 in
  let slot := l ← route_slot (Table.routes t) (rule_stats_index rule); store !! l in
  let totals := default RouteCounters_default (Stats.totals <$> slot) in
  MkRouteEntry (route_host_display x.1) (rule_path rule)
    match rule_path_type rule with Exact => PT_Exact | Prefix => PT_Prefix | ImplementationSpecific => PT_ImplementationSpecific end
    (name_of t (rule_backend rule))
    (default 0 ((fun b => Z.of_nat (length (endpoints b))) <$> table_backend t (rule_backend rule)))
    (requests totals) (errors_5xx totals) (upstream_latency_ms totals) (upstream_latency_count totals)
    ((fun c => MkCanary (name_of t (canary_backend c)) (weight_percent c)) <$> rule_canary rule)
    (_ ← rule_canary rule; s ← slot; let c := canary_totals s in
     Some (MkCanaryStats (requests c) (errors_5xx c) (upstream_latency_ms c) (upstream_latency_count c))).

Lemma sum_shards_micros l : 0 <= upstream_latency_micros (sum_shards l) < 2 ^ 64.
Proof.
  unfold sum_shards. assert (Hd : 0 <= upstream_latency_micros RouteCounters_default < 2 ^ 64) by (simpl; lia).
  revert Hd. generalize RouteCounters_default. induction l as [|c l IH]; intros a Ha; [done|]. apply IH. cbn. apply Z.mod_pos_bound. lia.
Qed.
Lemma latency_finite t : 0 <= upstream_latency_micros t < 2 ^ 64 -> json_f64 (upstream_latency_ms t) = Float (upstream_latency_ms t).
Proof.
  intros Ht. unfold json_f64, upstream_latency_ms.
  change (f64_of_u64 1000) with (S754_finite false 8796093022208000 (-43)).
  by rewrite f64_div_finite by (done || lia).
Qed.

Lemma route_value_shows store t host rule :
  shows (route_value store t (route_host_display host) rule) (entry_of store t (host, rule)).
Proof.
  assert (Hf : forall s : RouteSlot, json_f64 (upstream_latency_ms (Stats.totals s)) = Float (upstream_latency_ms (Stats.totals s)) /\
    json_f64 (upstream_latency_ms (canary_totals s)) = Float (upstream_latency_ms (canary_totals s))).
  { intros s. split; apply latency_finite, sum_shards_micros. }
  unfold route_value, entry_of. cbv zeta. cbn [fst snd].
  set (slot := _ ≫= _). clearbody slot.
  assert (Ht : json_f64 (upstream_latency_ms (default RouteCounters_default (Stats.totals <$> slot)))
    = Float (upstream_latency_ms (default RouteCounters_default (Stats.totals <$> slot)))).
  { destruct slot as [s|]; [apply Hf|reflexivity]. }
  split; cbn [re_host re_path re_path_type re_backend re_endpoints re_requests_total
    re_errors_5xx_total re_upstream_latency_ms_sum re_upstream_latency_count re_canary re_canary_stats].
  all: try reflexivity.
  - eexists. split; [reflexivity|]. by destruct (rule_path_type rule).
  - split_and!; try reflexivity. by rewrite <- Ht.
  - destruct (rule_canary rule) as [c|]; [|done]. eexists. split; [reflexivity|done].
  - destruct (rule_canary rule) as [c|]; [|done]. destruct slot as [s|]; [|done]. eexists. split; [reflexivity|].
    split_and!; try reflexivity. destruct (Hf s) as [_ Hs].
    change (Some (json_f64 (upstream_latency_ms (canary_totals s))) = Some (Float (upstream_latency_ms (canary_totals s)))).
    by rewrite Hs.
Qed.
End listing.

(** ** The gate, as the endpoint sees it *)

Section gate_lemmas.
Context {E : RegexEngine} `{HashOrder} `{LR : SwapCellLaws RouteTable}.
Context {CertifiedKey Json : Type} `{LC : SwapCellLaws (gmap Z CertifiedKey)}.
Implicit Types (h : GenerationHistory CertifiedKey Json).

Lemma reachable_gate p n h : rtc history_step (history_new p n) h -> gate_ok h.
Proof. intros Hr. eapply rtc_invariant; [apply gate_init| |exact Hr]. intros. by eapply gate_step. Qed.

Lemma pin_outcome h g :
  gate_ok h -> pinned h = None ->
  if bool_decide (g ∈ map rec_generation (ring h)) then
    exists h', pin g h = (Ok tt, h') /\ pinned h' = Some g /\ serving h' = g
  else pin g h = (Err (Unknown g), h).
Proof.
  intros Hok Hp. pose proof (gate_wire _ (gate_pin h g Hok)) as Hw. unfold pin in *. rewrite Hp in *.
  destruct (find_first _ (ring h)) as [r|] eqn:Hf.
  - apply find_first_elem in Hf as [Hr Hg]. rewrite bool_decide_eq_true_2.
    + eexists. split_and!; [done|done|]. apply Hw.
    + apply list_elem_of_In, List.in_map_iff. exists r. split; [lia|by apply list_elem_of_In].
  - rewrite bool_decide_eq_false_2; [done|]. intros Hin. apply list_elem_of_In, List.in_map_iff in Hin as (r & Hg & Hr).
    rewrite find_first_None, Forall_forall in Hf. apply list_elem_of_In, Hf in Hr. simpl in Hr. lia.
Qed.

Lemma unpin_outcome h :
  gate_ok h -> pinned (unpin h).2 = None /\ forall r, last (ring h) = Some r -> serving (unpin h).2 = rec_generation r.
Proof.
  intros Hok. pose proof (gate_unpin h Hok) as [_ _ Hn Hw]. 
  assert (Hp : pinned (unpin h).2 = None) by (unfold unpin; repeat case_match; done).
  split; [done|]. intros r Hr. rewrite Hp in Hw.
  assert (Hl : exists r', last (ring (unpin h).2) = Some r' /\ rec_generation r' = rec_generation r).
  { unfold unpin. destruct (pinned h) as [c|]; [|by exists r]. rewrite Hr. cbn [snd announce ring].
    erewrite last_mark by done. eexists. split; [done|]. by case_match. }
  destruct Hl as (r' & Hr' & <-). destruct (Hw r' Hr') as [Hwire _].
  rewrite Forall_forall in Hn. rewrite <- (Hn r') by (by apply last_Some_elem_of). by injection Hwire as _ <-.
Qed.
End gate_lemmas.

Section admin_properties.
Context {E : RegexEngine} `{HashOrder} `{LR : SwapCellLaws RouteTable}.
Context {CertifiedKey : Type} `{LC : SwapCellLaws (gmap Z CertifiedKey)}.
Context `{SerdeJson, ConstantTimeEq, AdminHttp} {X : Type} `{Exposition X}.
Implicit Types (st : AdminState CertifiedKey X).

(** C22: Nothing changes what a replica serves without the token.  The state
    after a request differs from the state before it only for a POST or a
    DELETE to /admin/rollback, answered 200, and when a token is configured
    only if the request carried it - the scheme in any case followed by exactly
    the token; even then nothing but the history changes.  A request with
    another method than GET and HEAD that does not carry the configured token
    gets one and the same refusal on every path but the three exempted ones,
    and a read is never refused. *)
Theorem writes_need_the_token st rq resp st' :
  handle st rq = (resp, st') ->
  (st' <> st ->
    rq_path rq = bstr "/admin/rollback" /\ (rq_method rq = POST \/ rq_method rq = DELETE) /\ rs_status resp = 200 /\
    (forall a, st_auth st = Some a -> carries_token a (rq_headers rq)) /\ st' = with_history (st_history st') st) /\
  (forall a, st_auth st = Some a -> ~ carries_token a (rq_headers rq) ->
    rq_method rq <> GET -> rq_method rq <> HEAD -> rq_path rq ∉ UNGATED -> resp = unauthorized /\ st' = st) /\
  (rq_method rq = GET \/ rq_method rq = HEAD -> rs_status resp <> 401).
Proof.
  intros Hh. unfold handle in Hh. destruct (gated st rq) eqn:Hg.
  { injection Hh as <- <-. apply gated_iff in Hg as (Hm & _). split_and!; [done|done|].
    intros [E1|E1]; by rewrite E1 in Hm. }
  assert (Hm : forall m, rq_method rq = m -> mutates m = true -> rq_path rq ∉ UNGATED ->
    forall a, st_auth st = Some a -> carries_token a (rq_headers rq)).
  { intros m <- Hm Hp a Ha. rewrite <- not_true_iff_false, gated_iff in Hg.
    rewrite <- authorizes_iff. apply not_false_iff_true. rewrite <- not_true_iff_false, authorizes_iff. naive_solver. }
  assert (Hc : forall a, st_auth st = Some a -> ~ carries_token a (rq_headers rq) ->
    rq_method rq <> GET -> rq_method rq <> HEAD -> rq_path rq ∉ UNGATED -> resp = unauthorized /\ st' = st).
  { intros a Ha Hn Hget Hhead Hp. destruct Hn. eapply Hm; eauto. unfold mutates.
    by rewrite !bool_decide_eq_false_2. }
  case_bool_decide as Hp.
  2: { assert (st' = st) as -> by (destruct (mutates _); by injection Hh as _ <-).
    split_and!; [done|exact Hc|]. destruct (mutates _); injection Hh as <-; [done|]. intros _.
    unfold read_page. repeat case_match; done. }
  assert (Hu : rq_path rq ∉ UNGATED) by (rewrite Hp; apply rollback_is_gated).
  case_bool_decide as Hpost; [|case_bool_decide as Hdel].
  - destruct (rollback_cases _ _ _ _ Hh) as [->|(H200 & g & Hpin & Hst)].
    + split_and!; [done|exact Hc|]. intros [E1|E1]; by rewrite E1 in Hpost.
    + split_and!; [|exact Hc|by rewrite H200]. intros _. split_and!; auto. by eapply Hm.
  - injection Hh as <- <-. split_and!; [|exact Hc|done]. intros _. split_and!; auto. by eapply Hm.
  - injection Hh as <- <-. split_and!; [done|exact Hc|done].
Qed.

(** The number a rollback request asks for. *)
Definition requested (rq : Request) : option u64 :=
  body ← collect_limited (Z.of_nat MAX_BODY) (rq_body rq); v ← from_slice body; g ← value_get (bstr "generation") v; as_u64 g.

(** The rollback endpoint over a history that has been run in any way.  A
    POST that is let through and whose body names no generation is answered
    400; one that names a generation while another is pinned, 409; one that
    names a generation the ring does not hold, 404; none of them changes
    anything.  Otherwise the answer is 200, that generation is pinned and is
    what the data plane serves, and the listing says both.  A DELETE that is
    let through is answered 200, leaves nothing pinned, and the newest recorded
    generation is served. *)
Theorem rollback_exact p n st rq resp st' :
  rtc history_step (history_new p n) (st_history st) ->
  gated st rq = false -> rq_path rq = bstr "/admin/rollback" -> handle st rq = (resp, st') ->
  (rq_method rq = POST ->
    match requested rq with
    | None => rs_status resp = 400 /\ st' = st
    | Some g =>
        match pinned (st_history st) with
        | Some _ => rs_status resp = 409 /\ st' = st
        | None =>
            if bool_decide (g ∈ map rec_generation (ring (st_history st))) then
              rs_status resp = 200 /\ pinned (st_history st') = Some g /\ serving (st_history st') = g /\
              value_get (bstr "pinned") (generations_json st') = Some (PosInt g) /\
              value_get (bstr "serving") (generations_json st') = Some (PosInt g)
            else rs_status resp = 404 /\ st' = st
        end
    end) /\
  (rq_method rq = DELETE ->
    rs_status resp = 200 /\ pinned (st_history st') = None /\
    value_get (bstr "pinned") (generations_json st') = Some Null /\
    (forall r, last (ring (st_history st)) = Some r -> serving (st_history st') = rec_generation r)).
Proof.
  intros Hr Hg Hp Hh. unfold handle in Hh. rewrite Hg, Hp in Hh. rewrite bool_decide_eq_true_2 in Hh by done.
  pose proof (reachable_gate p n _ Hr) as Hok. split; intros Hm; rewrite Hm in Hh; cbn [bool_decide] in Hh.
  - rewrite bool_decide_eq_true_2 in Hh by done. unfold rollback in Hh. unfold requested.
    destruct (collect_limited _ _) as [body|]; cbn [mbind option_bind]; [|by injection Hh as <- <-].
    destruct (_ ≫= _) as [g|]; [|by injection Hh as <- <-].
    destruct (pinned (st_history st)) as [c|] eqn:Hc.
    + unfold pin in Hh. rewrite Hc in Hh. injection Hh as <- <-. split; [done|apply with_same].
    + pose proof (pin_outcome (st_history st) g Hok Hc) as Ho. case_bool_decide.
      * destruct Ho as (h' & Ho & Hpin & Hserve). rewrite Ho in Hh. injection Hh as <- <-.
        split_and!; [done|done|done|by cbn; rewrite Hpin|by cbn; rewrite Hserve].
      * rewrite Ho in Hh. injection Hh as <- <-. split; [done|apply with_same].
  - rewrite bool_decide_eq_false_2, bool_decide_eq_true_2 in Hh by done. injection Hh as <- <-.
    destruct (unpin_outcome (st_history st) Hok) as [Hpin Hserve]. split_and!; [done|done|by cbn; rewrite Hpin|done].
Qed.


(** The dashboard reads what the replica serves.  The listing of the routes
    carries the generation of the published table and, sorted by host and path,
    one object for every rule of it and for nothing else; looked up by the
    names the dashboard's record gives its fields, each object has the rule's
    host, path, path type, backend and endpoint count, the sums of its counters
    and, exactly when the rule has them, its canary split and its canary's
    counters.  Every latency is a number: none is lost to a null. *)
Theorem dashboard_reads_routes st :
  let t := published_table (plane (st_history st)) in
  value_get (bstr "generation") (routes_json st) = Some (PosInt (generation t)) /\
  exists vs es,
    value_get (bstr "routes") (routes_json st) = Some (Array vs) /\ Forall2 shows vs es /\
    es ≡ₚ map (entry_of (st_store st) t) (table_routes t) /\
    StronglySorted (fun a b => ord_le (re_host a, re_path a) (re_host b, re_path b) = true) es.
Proof.
  cbv zeta. split; [reflexivity|].
  change (value_get (bstr "routes") (routes_json st)) with
    (let t := published_table (plane (st_history st)) in
     Some (Array (map snd (sort_by (fun a b : (str * str) * Value => ord_le a.1 b.1)
       (map (fun '(host, rule) =>
          ((route_host_display host, rule_path rule), route_value (st_store st) t (route_host_display host) rule)) (table_routes t)))))).
  cbv zeta. set (t := published_table _). set (row := fun '(host, rule) => _). rewrite sort_by_map, map_map.
  set (l := sort_by _ (table_routes t)). exists (map (fun x => (row x).2) l), (map (entry_of (st_store st) t) l).
  split_and!; [done| | |].
  - apply Forall2_fmap, Forall_Forall2_diag, Forall_forall. intros [host rule] _. apply route_value_shows.
  - apply Permutation_map, sort_by_perm.
  - assert (Hs : StronglySorted (fun a b : RouteHost * PathRule =>
      ord_le (route_host_display a.1, rule_path a.2) (route_host_display b.1, rule_path b.2) = true) l).
    { eapply strongly_sorted_impl; [|apply sort_by_sorted; intros *; [apply ord_le_total|apply ord_le_trans]].
      by intros [h1 r1] [h2 r2]. }
    induction Hs as [|x l' _ IH Hx]; constructor; [done|]. by apply Forall_fmap.
Qed.
End admin_properties.

(** ** Witnesses *)

Definition demo_json : SerdeJson := {|
  to_vec _ := Some (bstr "{}");
  from_slice b := n ← parse_unsigned u64_max b; Some (Object [(bstr "generation", PosInt n)]);
|}.
Definition demo_eq : ConstantTimeEq := {|
  ct_eq a b := bool_decide (a = b);
  ct_eq_spec a b := bool_decide_eq_true (a = b);
|}.
Definition demo_to_str (raw : bytes) : option str :=
  if forallb (fun b => (0 <=? b) && (b <? 128)) raw then Some raw else None.
Lemma demo_to_str_ascii raw s : demo_to_str raw = Some s -> s = raw /\ ascii s.
Proof.
  unfold demo_to_str. destruct (forallb _ raw) eqn:Hf; [|discriminate]. intros [= <-]. split; [done|].
  apply Forall_forall. intros b Hb. rewrite List.forallb_forall in Hf. apply list_elem_of_In, Hf in Hb. lia.
Qed.
Definition demo_http : AdminHttp := {|
  HeaderMap := option bytes;
  Incoming := bytes;
  authorization h := h;
  value_to_str := demo_to_str;
  value_to_str_ascii := demo_to_str_ascii;
  collect_limited limit body := if Z.of_nat (length body) <=? limit then Some body else None;
|}.

Section demo.
#[local] Existing Instance demo_json.
#[local] Existing Instance demo_eq.
#[local] Existing Instance demo_http.
#[local] Existing Instance literal_engine.
#[local] Existing Instance listed_order.
#[local] Instance demo_cell A : SwapCell A := plain_cell A.

Definition demo_recorded : GenerationHistory Z Value :=
  (record 2 7 Null (demo_table 2) {[ 2 := 2 ]} 20
    (record 1 7 Null (demo_table 1) {[ 1 := 1 ]} 10 (history_new demo_plane 2)).2).2.
Definition demo_admin (h : GenerationHistory Z Value) : AdminState Z Metrics :=
  MkAdminState Metrics_new true h [] (Some (MkAdminAuth (bstr "s3cret"))).
Definition demo_post (credentials body : str) : Request :=
  MkRequest POST (bstr "/admin/rollback") (Some credentials) body.

Lemma demo_recorded_reach : rtc history_step (history_new demo_plane 2) demo_recorded.
Proof.
  eapply rtc_l; [apply (step_record _ 7 Null (demo_table 1) {[ 1 := 1 ]} 10)|].
  apply rtc_once, (step_record _ 7 Null (demo_table 2) {[ 2 := 2 ]} 20).
Qed.

Lemma writes_need_the_token_witness :
  let st' := (handle (demo_admin demo_recorded) (demo_post (bstr "bearer s3cret") (bstr "1"))).2 in
  st' <> demo_admin demo_recorded /\ carries_token (MkAdminAuth (bstr "s3cret")) (Some (bstr "bearer s3cret")) /\
  (handle (demo_admin demo_recorded) (demo_post (bstr "bearer S3CRET") (bstr "1"))).1 = unauthorized.
Proof.
  cbv zeta. set (rq := demo_post (bstr "bearer s3cret") (bstr "1")). set (st := demo_admin demo_recorded).
  assert (Hne : (handle st rq).2 <> st).
  { intros Heq. apply (f_equal (fun s => pinned (st_history s))) in Heq. vm_compute in Heq. discriminate. }
  split; [exact Hne|]. split.
  - destruct (writes_need_the_token st rq _ _ (surjective_pairing (handle st rq))) as [Hw _].
    destruct (Hw Hne) as (_ & _ & _ & Hc & _). by apply Hc.
  - set (rq' := demo_post (bstr "bearer S3CRET") (bstr "1")).
    destruct (writes_need_the_token st rq' _ _ (surjective_pairing (handle st rq'))) as (_ & Hr & _).
    apply (Hr (MkAdminAuth (bstr "s3cret"))); [done| |done|done|apply rollback_is_gated].
    rewrite <- authorizes_iff. by vm_compute.
Defined.

Lemma rollback_exact_witness :
  let st' := (handle (demo_admin demo_recorded) (demo_post (bstr "Bearer s3cret") (bstr "1"))).2 in
  serving (st_history (demo_admin demo_recorded)) = 2 /\ serving (st_history st') = 1 /\ pinned (st_history st') = Some 1.
Proof.
  cbv zeta. set (rq := demo_post (bstr "Bearer s3cret") (bstr "1")). set (st := demo_admin demo_recorded).
  assert (Hg : gated st rq = false) by (vm_compute; reflexivity).
  destruct (rollback_exact (LR := plain_cell_laws _) (LC := plain_cell_laws _) demo_plane 2 st rq _ _ demo_recorded_reach
    Hg eq_refl (surjective_pairing (handle st rq))) as [Hpost _].
  destruct (Hpost eq_refl) as (_ & H1 & H2 & _). split; [by vm_compute|]. split; [exact H2|exact H1].
Defined.
End demo.
