(* ===== verification/Flags.v ===== *)
(** Command line and environment of the daemon:
    [crates/ramjet-ingressd/src/args.rs].

    An [OsString] is a list of bytes and [into_string] is [from_utf8]; the
    environment is the function [std::env::var(name).ok()].  A [Duration] is a
    number of nanoseconds, a count a number of 64 bits.  The option names of
    the one [match] of the parser are the type [Flag]; [flag_of] is its
    patterns and [set_switch], [set_flag] are its arms.  [precedence] is what
    the module promises: a flag beats the environment, which beats the
    default, field by field. *)

From S2P Require Import Prelude NetText RouterTypes Annotations Config History.

Abbreviation OsString := bytes (only parsing).
Abbreviation PathBuf := bytes (only parsing).

Inductive ArgError :=
| Unknown (option : str)
| MissingValue (option : str)
| Unexpected (argument : str)
| NotUtf8 (argument : OsString)
| Conflict (why : str)
| BadValue (option value kind : str).

Inductive Engine := Hyper | Uring | UringStrict.
#[export] Instance Engine_eq_dec : EqDecision Engine.
Proof. solve_decision. Defined.

Definition engine_as_str (e : Engine) : str :=
  match e with
  | Hyper => bstr "hyper"
  | Uring => bstr "uring"
  | UringStrict => bstr "uring-strict"
  end.
Definition is_uring (e : Engine) : bool := match e with Uring | UringStrict => true | Hyper => false end.
Definition is_strict (e : Engine) : bool := bool_decide (e = UringStrict).

Record Args := MkArgs {
  arg_help : bool;
  arg_version : bool;
  arg_static_routes : option PathBuf;
  arg_ingress_class : str;
  arg_watch_namespace : option str;
  arg_publish_address : option str;
  arg_publish_service : option str;
  arg_default_backend : option ServiceRef;
  arg_default_tls_secret : option str;
  arg_update_status : bool;
  arg_history_size : u64;
  arg_audit_webhook : option str;
  arg_http : option SocketAddr;
  arg_https : option SocketAddr;
  arg_admin : option SocketAddr;
  arg_admin_token_file : option PathBuf;
  arg_https_explicit : bool;
  arg_connect_timeout : Z;
  arg_response_timeout : Z;
  arg_shutdown_grace : Z;
  arg_max_connect_attempts : u64;
  arg_upstream_pool_idle : u64;
  arg_max_buf_size : u64;
  arg_mirror_max_body : u64;
  arg_worker_threads : option u64;
  arg_engine : Engine;
  arg_proxy_protocol : bool;
  arg_proxy_protocol_timeout : Z;
  arg_http3 : bool;
  arg_h2_dispatch : bool;
}.

Definition Args_eta (r : Args) : Args :=
  MkArgs (arg_help r) (arg_version r) (arg_static_routes r) (arg_ingress_class r)
    (arg_watch_namespace r) (arg_publish_address r) (arg_publish_service r) (arg_default_backend r)
    (arg_default_tls_secret r) (arg_update_status r) (arg_history_size r) (arg_audit_webhook r) (arg_http r)
    (arg_https r) (arg_admin r) (arg_admin_token_file r) (arg_https_explicit r) (arg_connect_timeout r)
    (arg_response_timeout r) (arg_shutdown_grace r) (arg_max_connect_attempts r) (arg_upstream_pool_idle r)
    (arg_max_buf_size r) (arg_mirror_max_body r) (arg_worker_threads r) (arg_engine r) (arg_proxy_protocol r)
    (arg_proxy_protocol_timeout r) (arg_http3 r) (arg_h2_dispatch r).
#[export] Instance set_help : Setter arg_help := ltac:(derive_setter Args_eta).
#[export] Instance set_version : Setter arg_version := ltac:(derive_setter Args_eta).
#[export] Instance set_static_routes : Setter arg_static_routes := ltac:(derive_setter Args_eta).
#[export] Instance set_ingress_class : Setter arg_ingress_class := ltac:(derive_setter Args_eta).
#[export] Instance set_watch_namespace : Setter arg_watch_namespace := ltac:(derive_setter Args_eta).
#[export] Instance set_publish_address : Setter arg_publish_address := ltac:(derive_setter Args_eta).
#[export] Instance set_publish_service : Setter arg_publish_service := ltac:(derive_setter Args_eta).
#[export] Instance set_default_backend : Setter arg_default_backend := ltac:(derive_setter Args_eta).
#[export] Instance set_default_tls_secret : Setter arg_default_tls_secret := ltac:(derive_setter Args_eta).
#[export] Instance set_update_status : Setter arg_update_status := ltac:(derive_setter Args_eta).
#[export] Instance set_history_size : Setter arg_history_size := ltac:(derive_setter Args_eta).
#[export] Instance set_audit_webhook : Setter arg_audit_webhook := ltac:(derive_setter Args_eta).
#[export] Instance set_http : Setter arg_http := ltac:(derive_setter Args_eta).
#[export] Instance set_https : Setter arg_https := ltac:(derive_setter Args_eta).
#[export] Instance set_admin : Setter arg_admin := ltac:(derive_setter Args_eta).
#[export] Instance set_admin_token_file : Setter arg_admin_token_file := ltac:(derive_setter Args_eta).
#[export] Instance set_https_explicit : Setter arg_https_explicit := ltac:(derive_setter Args_eta).
#[export] Instance set_connect_timeout : Setter arg_connect_timeout := ltac:(derive_setter Args_eta).
#[export] Instance set_response_timeout : Setter arg_response_timeout := ltac:(derive_setter Args_eta).
#[export] Instance set_shutdown_grace : Setter arg_shutdown_grace := ltac:(derive_setter Args_eta).
#[export] Instance set_max_connect_attempts : Setter arg_max_connect_attempts := ltac:(derive_setter Args_eta).
#[export] Instance set_upstream_pool_idle : Setter arg_upstream_pool_idle := ltac:(derive_setter Args_eta).
#[export] Instance set_max_buf_size : Setter arg_max_buf_size := ltac:(derive_setter Args_eta).
#[export] Instance set_mirror_max_body : Setter arg_mirror_max_body := ltac:(derive_setter Args_eta).
#[export] Instance set_worker_threads : Setter arg_worker_threads := ltac:(derive_setter Args_eta).
#[export] Instance set_engine : Setter arg_engine := ltac:(derive_setter Args_eta).
#[export] Instance set_proxy_protocol : Setter arg_proxy_protocol := ltac:(derive_setter Args_eta).
#[export] Instance set_proxy_protocol_timeout : Setter arg_proxy_protocol_timeout := ltac:(derive_setter Args_eta).
#[export] Instance set_http3 : Setter arg_http3 := ltac:(derive_setter Args_eta).
#[export] Instance set_h2_dispatch : Setter arg_h2_dispatch := ltac:(derive_setter Args_eta).

(** Constants of [ramjet_proxy]. *)
Definition DEFAULT_HTTP_PORT : u16 := 8080.
Definition DEFAULT_HTTPS_PORT : u16 := 8443.
Definition DEFAULT_ADMIN_PORT : u16 := 10254.
Definition DEFAULT_MAX_BUF_SIZE : u64 := 64 * 1024.
Definition MIN_MAX_BUF_SIZE : u64 := 8 * 1024.
Definition DEFAULT_POOL_MAX_IDLE_PER_HOST : u64 := 128.
Definition DEFAULT_MIRROR_MAX_BODY : u64 := 256 * 1024.

Definition all_interfaces (port : u16) : SocketAddr := SocketV4 [0; 0; 0; 0] port.

Definition Args_default : Args := {|
  arg_help := false;
  arg_version := false;
  arg_static_routes := None;
  arg_ingress_class := bstr "ramjet";
  arg_watch_namespace := None;
  arg_publish_address := None;
  arg_publish_service := None;
  arg_default_backend := None;
  arg_default_tls_secret := None;
  arg_update_status := true;
  arg_history_size := Z.of_nat DEFAULT_HISTORY_SIZE;
  arg_audit_webhook := None;
  arg_http := Some (all_interfaces DEFAULT_HTTP_PORT);
  arg_https := Some (all_interfaces DEFAULT_HTTPS_PORT);
  arg_admin := Some (all_interfaces DEFAULT_ADMIN_PORT);
  arg_admin_token_file := None;
  arg_https_explicit := false;
  arg_connect_timeout := seconds 5;
  arg_response_timeout := seconds 60;
  arg_shutdown_grace := seconds 30;
  arg_max_connect_attempts := 3;
  arg_upstream_pool_idle := DEFAULT_POOL_MAX_IDLE_PER_HOST;
  arg_max_buf_size := DEFAULT_MAX_BUF_SIZE;
  arg_mirror_max_body := DEFAULT_MIRROR_MAX_BODY;
  arg_worker_threads := None;
  arg_engine := Hyper;
  arg_proxy_protocol := false;
  arg_proxy_protocol_timeout := seconds 5;
  arg_http3 := false;
  arg_h2_dispatch := true;
|}.

(** ** Values *)

(** [SocketAddr::from_str] of the standard library: [ip:port], or
    [[ip%scope]:port]. *)
Definition read_port (s : str) : option (u16 * str) :=
  s ← read_given_char (chr ":") s; read_number 10 u16_max (length s) true s.
Definition read_socket_v4 (s : str) : option (SocketAddr * str) :=
  '(ip, s) ← read_ipv4_addr s; '(port, s) ← read_port s; Some (SocketV4 ip port, s).
Definition read_scope_id (s : str) : option (u32 * str) :=
  s ← read_given_char (chr "%") s; read_number 10 u32_max (length s) true s.
Definition read_socket_v6 (s : str) : option (SocketAddr * str) :=
  s ← read_given_char (chr "[") s;
  '(ip, s) ← read_ipv6_addr s;
  let '(scope, s) := default (0, s) (read_scope_id s) in
  s ← read_given_char (chr "]") s;
  '(port, s) ← read_port s;
  Some (SocketV6 (groups_to_octets ip) port 0 scope, s).
Definition parse_socket (s : str) : option SocketAddr :=
  match (match read_socket_v4 s with Some r => Some r | None => read_socket_v6 s end) with
  | Some (a, []) => Some a
  | _ => None
  end.

Definition address (option value : str) : result ArgError SocketAddr :=
  let bad := BadValue option value (bstr "address") in
  match parse_unsigned u16_max value with
  | Some port => Ok (all_interfaces port)
  | None =>
      match strip_prefix (bstr ":") value with
      | Some port => port ← ok_or (parse_unsigned u16_max port) bad; Ok (all_interfaces port)
      | None => ok_or (parse_socket value) bad
      end
  end.

Definition service_ref (option value : str) : result ArgError ServiceRef :=
  map_err (fun _ => BadValue option value (bstr "service reference of the form namespace/name:port"))
    (service_ref_parse value).

Definition boolean (option value : str) : result ArgError bool :=
  let v := lower (str_trim value) in
  if bool_decide (v ∈ [bstr "true"; bstr "1"; bstr "yes"; bstr "on"]) then Ok true
  else if bool_decide (v ∈ [bstr "false"; bstr "0"; bstr "no"; bstr "off"]) then Ok false
  else Err (BadValue option value (bstr "boolean")).

Definition seconds_arg (option value : str) : result ArgError Z :=
  n ← ok_or (parse_unsigned u64_max value) (BadValue option value (bstr "number of seconds"));
  Ok (seconds n).

Definition engine (option value : str) : result ArgError Engine :=
  if bool_decide (value = bstr "hyper") then Ok Hyper
  else if bool_decide (value = bstr "uring") then Ok Uring
  else if bool_decide (value = bstr "uring-strict") then Ok UringStrict
  else Err (BadValue option value (bstr "engine (hyper, uring or uring-strict)")).

Definition number (option value : str) : result ArgError u64 :=
  ok_or (parse_unsigned u64_max value) (BadValue option value (bstr "count")).

(** ** The environment *)

Section environment.
Variable env : str -> option str.

(** [if let Some(value) = env(name) { ... }]. *)
Definition from_env (name : str) (set : str -> Args -> result ArgError Args) (a : Args) : result ArgError Args :=
  match env name with Some value => set value a | None => Ok a end.

Definition from_environment : result ArgError Args :=
  let a := Args_default in
  a ← from_env (bstr "RAMJET_STATIC_ROUTES") (fun v a => Ok a <| arg_static_routes := Some v |>) a;
  a ← from_env (bstr "RAMJET_INGRESS_CLASS") (fun v a => Ok a <| arg_ingress_class := v |>) a;
  a ← from_env (bstr "RAMJET_WATCH_NAMESPACE") (fun v a => Ok a <| arg_watch_namespace := Some v |>) a;
  a ← from_env (bstr "RAMJET_PUBLISH_ADDRESS") (fun v a => Ok a <| arg_publish_address := Some v |>) a;
  a ← from_env (bstr "RAMJET_PUBLISH_SERVICE") (fun v a => Ok a <| arg_publish_service := Some v |>) a;
  a ← from_env (bstr "RAMJET_DEFAULT_BACKEND") (fun v a =>
    r ← service_ref (bstr "RAMJET_DEFAULT_BACKEND") v; Ok a <| arg_default_backend := Some r |>) a;
  a ← from_env (bstr "RAMJET_DEFAULT_TLS_SECRET") (fun v a => Ok a <| arg_default_tls_secret := Some v |>) a;
  a ← from_env (bstr "RAMJET_UPDATE_STATUS") (fun v a =>
    b ← boolean (bstr "RAMJET_UPDATE_STATUS") v; Ok a <| arg_update_status := b |>) a;
  a ← from_env (bstr "RAMJET_HISTORY_SIZE") (fun v a =>
    n ← number (bstr "RAMJET_HISTORY_SIZE") v; Ok a <| arg_history_size := Z.max n 1 |>) a;
  a ← from_env (bstr "RAMJET_AUDIT_WEBHOOK") (fun v a => Ok a <| arg_audit_webhook := Some v |>) a;
  a ← from_env (bstr "RAMJET_HTTP") (fun v a =>
    x ← address (bstr "RAMJET_HTTP") v; Ok a <| arg_http := Some x |>) a;
  a ← from_env (bstr "RAMJET_HTTPS") (fun v a =>
    x ← address (bstr "RAMJET_HTTPS") v; Ok a <| arg_https := Some x |> <| arg_https_explicit := true |>) a;
  a ← from_env (bstr "RAMJET_ADMIN") (fun v a =>
    x ← address (bstr "RAMJET_ADMIN") v; Ok a <| arg_admin := Some x |>) a;
  a ← from_env (bstr "RAMJET_ADMIN_TOKEN_FILE") (fun v a => Ok a <| arg_admin_token_file := Some v |>) a;
  a ← from_env (bstr "RAMJET_CONNECT_TIMEOUT") (fun v a =>
    d ← seconds_arg (bstr "RAMJET_CONNECT_TIMEOUT") v; Ok a <| arg_connect_timeout := d |>) a;
  a ← from_env (bstr "RAMJET_RESPONSE_TIMEOUT") (fun v a =>
    d ← seconds_arg (bstr "RAMJET_RESPONSE_TIMEOUT") v; Ok a <| arg_response_timeout := d |>) a;
  a ← from_env (bstr "RAMJET_SHUTDOWN_GRACE") (fun v a =>
    d ← seconds_arg (bstr "RAMJET_SHUTDOWN_GRACE") v; Ok a <| arg_shutdown_grace := d |>) a;
  a ← from_env (bstr "RAMJET_MAX_CONNECT_ATTEMPTS") (fun v a =>
    n ← number (bstr "RAMJET_MAX_CONNECT_ATTEMPTS") v; Ok a <| arg_max_connect_attempts := Z.max n 1 |>) a;
  a ← from_env (bstr "RAMJET_UPSTREAM_POOL_IDLE") (fun v a =>
    n ← number (bstr "RAMJET_UPSTREAM_POOL_IDLE") v; Ok a <| arg_upstream_pool_idle := n |>) a;
  a ← from_env (bstr "RAMJET_MAX_BUF_SIZE") (fun v a =>
    n ← number (bstr "RAMJET_MAX_BUF_SIZE") v; Ok a <| arg_max_buf_size := Z.max n MIN_MAX_BUF_SIZE |>) a;
  a ← from_env (bstr "RAMJET_MIRROR_MAX_BODY") (fun v a =>
    n ← number (bstr "RAMJET_MIRROR_MAX_BODY") v; Ok a <| arg_mirror_max_body := n |>) a;
  a ← from_env (bstr "RAMJET_ENGINE") (fun v a =>
    e ← engine (bstr "RAMJET_ENGINE") v; Ok a <| arg_engine := e |>) a;
  a ← from_env (bstr "RAMJET_HTTP3") (fun v a =>
    b ← boolean (bstr "RAMJET_HTTP3") v; Ok a <| arg_http3 := b |>) a;
  a ← from_env (bstr "RAMJET_PROXY_PROTOCOL") (fun v a =>
    b ← boolean (bstr "RAMJET_PROXY_PROTOCOL") v; Ok a <| arg_proxy_protocol := b |>) a;
  a ← from_env (bstr "RAMJET_PROXY_PROTOCOL_TIMEOUT") (fun v a =>
    d ← seconds_arg (bstr "RAMJET_PROXY_PROTOCOL_TIMEOUT") v; Ok a <| arg_proxy_protocol_timeout := d |>) a;
  a ← from_env (bstr "RAMJET_WORKER_THREADS") (fun v a =>
    n ← number (bstr "RAMJET_WORKER_THREADS") v; Ok a <| arg_worker_threads := Some (Z.max n 1) |>) a;
  Ok a.

(** ** The command line *)

(** The options the parser knows: those that need a value and those that do
    not. *)
Inductive Flag :=
| F_help | F_version | F_no_status_update | F_no_h2_dispatch | F_no_http | F_no_https | F_no_admin
| F_http3 | F_proxy_protocol
| F_static_routes | F_ingress_class | F_watch_namespace | F_publish_address | F_publish_service
| F_default_backend | F_default_tls_secret | F_history_size | F_audit_webhook | F_http | F_https | F_admin
| F_admin_token_file | F_connect_timeout | F_response_timeout | F_shutdown_grace | F_max_connect_attempts
| F_upstream_pool_idle | F_max_buf_size | F_mirror_max_body | F_worker_threads | F_engine
| F_proxy_protocol_timeout.

Definition FLAGS : list (str * Flag) := [
  (bstr "-h", F_help); (bstr "--help", F_help); (bstr "-V", F_version); (bstr "--version", F_version);
  (bstr "--static-routes", F_static_routes); (bstr "--ingress-class", F_ingress_class);
  (bstr "--watch-namespace", F_watch_namespace); (bstr "--publish-address", F_publish_address);
  (bstr "--publish-service", F_publish_service); (bstr "--default-backend", F_default_backend);
  (bstr "--default-tls-secret", F_default_tls_secret); (bstr "--no-status-update", F_no_status_update);
  (bstr "--history-size", F_history_size); (bstr "--audit-webhook", F_audit_webhook);
  (bstr "--http", F_http); (bstr "--https", F_https); (bstr "--admin", F_admin);
  (bstr "--admin-token-file", F_admin_token_file); (bstr "--no-h2-dispatch", F_no_h2_dispatch);
  (bstr "--no-http", F_no_http); (bstr "--no-https", F_no_https); (bstr "--no-admin", F_no_admin);
  (bstr "--connect-timeout", F_connect_timeout); (bstr "--response-timeout", F_response_timeout);
  (bstr "--shutdown-grace", F_shutdown_grace); (bstr "--max-connect-attempts", F_max_connect_attempts);
  (bstr "--upstream-pool-idle", F_upstream_pool_idle); (bstr "--max-buf-size", F_max_buf_size);
  (bstr "--mirror-max-body", F_mirror_max_body); (bstr "--worker-threads", F_worker_threads);
  (bstr "--engine", F_engine); (bstr "--http3", F_http3); (bstr "--proxy-protocol", F_proxy_protocol);
  (bstr "--proxy-protocol-timeout", F_proxy_protocol_timeout)].

Definition flag_of (name : str) : option Flag :=
  snd <$> find_first (fun p => bool_decide (p.1 = name)) FLAGS.

(** The arms that take no value. *)
Definition set_switch (f : Flag) (a : Args) : option Args :=
  match f with
  | F_help => Some a <| arg_help := true |>
  | F_version => Some a <| arg_version := true |>
  | F_no_status_update => Some a <| arg_update_status := false |>
  | F_no_h2_dispatch => Some a <| arg_h2_dispatch := false |>
  | F_no_http => Some a <| arg_http := None |>
  | F_no_https => Some a <| arg_https := None |> <| arg_https_explicit := true |>
  | F_no_admin => Some a <| arg_admin := None |>
  | F_http3 => Some a <| arg_http3 := true |>
  | F_proxy_protocol => Some a <| arg_proxy_protocol := true |>
  | _ => None
  end.

(** The arms that call [value()?]; [name] is what the user typed. *)
Definition set_flag (f : Flag) (name value : str) (a : Args) : result ArgError Args :=
  match f with
  | F_static_routes => Ok a <| arg_static_routes := Some value |>
  | F_ingress_class => Ok a <| arg_ingress_class := value |>
  | F_watch_namespace => Ok a <| arg_watch_namespace := Some value |>
  | F_publish_address => Ok a <| arg_publish_address := Some value |>
  | F_publish_service => Ok a <| arg_publish_service := Some value |>
  | F_default_backend => r ← service_ref name value; Ok a <| arg_default_backend := Some r |>
  | F_default_tls_secret => Ok a <| arg_default_tls_secret := Some value |>
  | F_history_size => n ← number name value; Ok a <| arg_history_size := Z.max n 1 |>
  | F_audit_webhook => Ok a <| arg_audit_webhook := Some value |>
  | F_http => x ← address name value; Ok a <| arg_http := Some x |>
  | F_https => x ← address name value; Ok a <| arg_https := Some x |> <| arg_https_explicit := true |>
  | F_admin => x ← address name value; Ok a <| arg_admin := Some x |>
  | F_admin_token_file => Ok a <| arg_admin_token_file := Some value |>
  | F_connect_timeout => d ← seconds_arg name value; Ok a <| arg_connect_timeout := d |>
  | F_response_timeout => d ← seconds_arg name value; Ok a <| arg_response_timeout := d |>
  | F_shutdown_grace => d ← seconds_arg name value; Ok a <| arg_shutdown_grace := d |>
  | F_max_connect_attempts => n ← number name value; Ok a <| arg_max_connect_attempts := Z.max n 1 |>
  | F_upstream_pool_idle => n ← number name value; Ok a <| arg_upstream_pool_idle := n |>
  | F_max_buf_size => n ← number name value; Ok a <| arg_max_buf_size := Z.max n MIN_MAX_BUF_SIZE |>
  | F_mirror_max_body => n ← number name value; Ok a <| arg_mirror_max_body := n |>
  | F_worker_threads => n ← number name value; Ok a <| arg_worker_threads := Some (Z.max n 1) |>
  | F_engine => e ← engine name value; Ok a <| arg_engine := e |>
  | F_proxy_protocol_timeout => d ← seconds_arg name value; Ok a <| arg_proxy_protocol_timeout := d |>
  | _ => Ok a
  end.

(** [split_once('=')], or the whole argument. *)
Definition split_argument (argument : str) : str * option str :=
  match split_once (chr "=") argument with
  | Some (name, value) => (name, Some value)
  | None => (argument, None)
  end.

Fixpoint parse_loop (arguments : list OsString) (a : Args) : result ArgError Args :=
  match arguments with
  | [] => Ok a
  | raw :: input =>
      match from_utf8 raw with
      | None => Err (NotUtf8 raw)
      | Some argument =>
          let '(name, inline) := split_argument argument in
          match flag_of name with
          | None => Err (if starts_with (bstr "-") name then Unknown name else Unexpected name)
          | Some f =>
              match set_switch f a with
              | Some a => parse_loop input a
              | None =>
                  match inline, input with
                  | Some value, _ => a ← set_flag f name value a; parse_loop input a
                  | None, next :: input =>
                      match from_utf8 next with
                      | Some value => a ← set_flag f name value a; parse_loop input a
                      | None => Err (MissingValue name)
                      end
                  | None, [] => Err (MissingValue name)
                  end
              end
          end
      end
  end.

Definition check_conflicts (a : Args) : result ArgError unit :=
  if arg_http3 a && is_uring (arg_engine a) then
    Err (Conflict (bstr "--http3 is not implemented on --engine uring, which speaks no HTTP/2 and so no HTTP/3; use --engine hyper"))
  else if arg_http3 a && negb (bool_decide (is_Some (arg_https a))) then
    Err (Conflict (bstr "--http3 serves on the --https port in UDP, and --no-https leaves it none; give --https a port back or drop --http3"))
  else Ok tt.

Definition parse (arguments : list OsString) : result ArgError Args :=
  a ← from_environment;
  a ← parse_loop arguments a;
  _ ← (if negb (arg_help a) && negb (arg_version a) then check_conflicts a else Ok tt);
  Ok a.
End environment.

(** ** Examples *)

Definition no_environment : str -> option str := fun _ => None.
Definition environment_of (l : list (str * str)) : str -> option str :=
  fun name => snd <$> find_first (fun p => bool_decide (p.1 = name)) l.

Example forms : map (fun v => address (bstr "--http") v)
    [bstr "9000"; bstr ":9000"; bstr "+9000"; bstr "127.0.0.1:80"; bstr "[::1%3]:443"; bstr "localhost:80"; bstr ":x"]
  = [Ok (all_interfaces 9000); Ok (all_interfaces 9000); Ok (all_interfaces 9000); Ok (SocketV4 [127; 0; 0; 1] 80);
     Ok (SocketV6 [0; 0; 0; 0; 0; 0; 0; 0; 0; 0; 0; 0; 0; 0; 0; 1] 443 0 3);
     Err (BadValue (bstr "--http") (bstr "localhost:80") (bstr "address"));
     Err (BadValue (bstr "--http") (bstr ":x") (bstr "address"))].
Proof. vm_compute. reflexivity. Qed.

(** A switch does not look at what follows its equals sign. *)
Example switch_value_ignored :
  (a ← parse no_environment [bstr "--proxy-protocol=false"]; Ok (arg_proxy_protocol a)) = Ok true.
Proof. vm_compute. reflexivity. Qed.

Example mixed : (a ← parse (environment_of [(bstr "RAMJET_ENGINE", bstr "uring"); (bstr "RAMJET_HTTP", bstr ":81")])
    [bstr "--engine"; bstr "hyper"; bstr "--no-https"; bstr "--max-buf-size=1"];
    Ok (arg_engine a, arg_http a, arg_https a, arg_https_explicit a, arg_max_buf_size a))
  = Ok (Hyper, Some (all_interfaces 81), None, true, 8192).
Proof. vm_compute. reflexivity. Qed.

(** The environment is read first, so what is wrong in it is not forgiven by a
    flag that overrides it, nor by [--help]. *)
Example environment_error_first :
  parse (environment_of [(bstr "RAMJET_ENGINE", bstr "iouring")]) [bstr "--help"; bstr "--engine=hyper"]
  = Err (BadValue (bstr "RAMJET_ENGINE") (bstr "iouring") (bstr "engine (hyper, uring or uring-strict)")).
Proof. vm_compute. reflexivity. Qed.

(** ** Fields, and who writes them *)

Inductive Knob :=
| K_help | K_version | K_static_routes | K_ingress_class | K_watch_namespace | K_publish_address
| K_publish_service | K_default_backend | K_default_tls_secret | K_update_status | K_history_size
| K_audit_webhook | K_http | K_https | K_admin | K_admin_token_file | K_https_explicit | K_connect_timeout
| K_response_timeout | K_shutdown_grace | K_max_connect_attempts | K_upstream_pool_idle | K_max_buf_size
| K_mirror_max_body | K_worker_threads | K_engine | K_proxy_protocol | K_proxy_protocol_timeout | K_http3
| K_h2_dispatch.
#[export] Instance Knob_eq_dec : EqDecision Knob.
Proof. solve_decision. Defined.

Definition knob_type (k : Knob) : Type :=
  match k with
  | K_help | K_version | K_update_status | K_https_explicit | K_proxy_protocol | K_http3 | K_h2_dispatch => bool
  | K_static_routes | K_watch_namespace | K_publish_address | K_publish_service | K_default_tls_secret
  | K_audit_webhook | K_admin_token_file => option str
  | K_ingress_class => str
  | K_default_backend => option ServiceRef
  | K_http | K_https | K_admin => option SocketAddr
  | K_history_size | K_connect_timeout | K_response_timeout | K_shutdown_grace | K_max_connect_attempts
  | K_upstream_pool_idle | K_max_buf_size | K_mirror_max_body | K_proxy_protocol_timeout => Z
  | K_worker_threads => option Z
  | K_engine => Engine
  end.

Definition get (k : Knob) (a : Args) : knob_type k :=
  match k with
  | K_help => arg_help a
  | K_version => arg_version a
  | K_static_routes => arg_static_routes a
  | K_ingress_class => arg_ingress_class a
  | K_watch_namespace => arg_watch_namespace a
  | K_publish_address => arg_publish_address a
  | K_publish_service => arg_publish_service a
  | K_default_backend => arg_default_backend a
  | K_default_tls_secret => arg_default_tls_secret a
  | K_update_status => arg_update_status a
  | K_history_size => arg_history_size a
  | K_audit_webhook => arg_audit_webhook a
  | K_http => arg_http a
  | K_https => arg_https a
  | K_admin => arg_admin a
  | K_admin_token_file => arg_admin_token_file a
  | K_https_explicit => arg_https_explicit a
  | K_connect_timeout => arg_connect_timeout a
  | K_response_timeout => arg_response_timeout a
  | K_shutdown_grace => arg_shutdown_grace a
  | K_max_connect_attempts => arg_max_connect_attempts a
  | K_upstream_pool_idle => arg_upstream_pool_idle a
  | K_max_buf_size => arg_max_buf_size a
  | K_mirror_max_body => arg_mirror_max_body a
  | K_worker_threads => arg_worker_threads a
  | K_engine => arg_engine a
  | K_proxy_protocol => arg_proxy_protocol a
  | K_proxy_protocol_timeout => arg_proxy_protocol_timeout a
  | K_http3 => arg_http3 a
  | K_h2_dispatch => arg_h2_dispatch a
  end.

(** The environment variable a field is read from. *)
Definition variable (k : Knob) : option str :=
  match k with
  | K_static_routes => Some (bstr "RAMJET_STATIC_ROUTES")
  | K_ingress_class => Some (bstr "RAMJET_INGRESS_CLASS")
  | K_watch_namespace => Some (bstr "RAMJET_WATCH_NAMESPACE")
  | K_publish_address => Some (bstr "RAMJET_PUBLISH_ADDRESS")
  | K_publish_service => Some (bstr "RAMJET_PUBLISH_SERVICE")
  | K_default_backend => Some (bstr "RAMJET_DEFAULT_BACKEND")
  | K_default_tls_secret => Some (bstr "RAMJET_DEFAULT_TLS_SECRET")
  | K_update_status => Some (bstr "RAMJET_UPDATE_STATUS")
  | K_history_size => Some (bstr "RAMJET_HISTORY_SIZE")
  | K_audit_webhook => Some (bstr "RAMJET_AUDIT_WEBHOOK")
  | K_http => Some (bstr "RAMJET_HTTP")
  | K_https | K_https_explicit => Some (bstr "RAMJET_HTTPS")
  | K_admin => Some (bstr "RAMJET_ADMIN")
  | K_admin_token_file => Some (bstr "RAMJET_ADMIN_TOKEN_FILE")
  | K_connect_timeout => Some (bstr "RAMJET_CONNECT_TIMEOUT")
  | K_response_timeout => Some (bstr "RAMJET_RESPONSE_TIMEOUT")
  | K_shutdown_grace => Some (bstr "RAMJET_SHUTDOWN_GRACE")
  | K_max_connect_attempts => Some (bstr "RAMJET_MAX_CONNECT_ATTEMPTS")
  | K_upstream_pool_idle => Some (bstr "RAMJET_UPSTREAM_POOL_IDLE")
  | K_max_buf_size => Some (bstr "RAMJET_MAX_BUF_SIZE")
  | K_mirror_max_body => Some (bstr "RAMJET_MIRROR_MAX_BODY")
  | K_worker_threads => Some (bstr "RAMJET_WORKER_THREADS")
  | K_engine => Some (bstr "RAMJET_ENGINE")
  | K_proxy_protocol => Some (bstr "RAMJET_PROXY_PROTOCOL")
  | K_proxy_protocol_timeout => Some (bstr "RAMJET_PROXY_PROTOCOL_TIMEOUT")
  | K_http3 => Some (bstr "RAMJET_HTTP3")
  | K_help | K_version | K_h2_dispatch => None
  end.

(** The fields an option writes. *)
Definition knobs_of (f : Flag) : list Knob :=
  match f with
  | F_help => [K_help]
  | F_version => [K_version]
  | F_no_status_update => [K_update_status]
  | F_no_h2_dispatch => [K_h2_dispatch]
  | F_http | F_no_http => [K_http]
  | F_https | F_no_https => [K_https; K_https_explicit]
  | F_admin | F_no_admin => [K_admin]
  | F_http3 => [K_http3]
  | F_proxy_protocol => [K_proxy_protocol]
  | F_static_routes => [K_static_routes]
  | F_ingress_class => [K_ingress_class]
  | F_watch_namespace => [K_watch_namespace]
  | F_publish_address => [K_publish_address]
  | F_publish_service => [K_publish_service]
  | F_default_backend => [K_default_backend]
  | F_default_tls_secret => [K_default_tls_secret]
  | F_history_size => [K_history_size]
  | F_audit_webhook => [K_audit_webhook]
  | F_admin_token_file => [K_admin_token_file]
  | F_connect_timeout => [K_connect_timeout]
  | F_response_timeout => [K_response_timeout]
  | F_shutdown_grace => [K_shutdown_grace]
  | F_max_connect_attempts => [K_max_connect_attempts]
  | F_upstream_pool_idle => [K_upstream_pool_idle]
  | F_max_buf_size => [K_max_buf_size]
  | F_mirror_max_body => [K_mirror_max_body]
  | F_worker_threads => [K_worker_threads]
  | F_engine => [K_engine]
  | F_proxy_protocol_timeout => [K_proxy_protocol_timeout]
  end.

Definition is_switch (f : Flag) : bool :=
  match f with
  | F_help | F_version | F_no_status_update | F_no_h2_dispatch | F_no_http | F_no_https | F_no_admin
  | F_http3 | F_proxy_protocol => true
  | _ => false
  end.

(** The options a command line names, in order. *)
Fixpoint named (arguments : list OsString) : list Flag :=
  match arguments with
  | [] => []
  | raw :: input =>
      let '(name, inline) := split_argument raw in
      match flag_of name with
      | None => []
      | Some f =>
          f :: (if is_switch f || bool_decide (is_Some inline) then named input
                else match input with [] => [] | _ :: input => named input end)
      end
  end.
Definition mentions (k : Knob) (arguments : list OsString) : Prop := exists f, f ∈ named arguments /\ k ∈ knobs_of f.

(** ** What an arm writes *)

(** [set] writes the fields [ks], with values that depend on its text alone,
    and no other. *)
Definition sets (set : str -> Args -> result ArgError Args) (ks : list Knob) : Prop :=
  (forall v a b k, set v a = Ok b -> k ∉ ks -> get k b = get k a) /\
  (forall v a a' b b' k, set v a = Ok b -> set v a' = Ok b' -> k ∈ ks -> get k b = get k b').

(** Splits a successful chain of fallible steps into its steps. *)
Ltac bind_ok H :=
  cbv beta iota delta [mbind result_bind set_flag] in H;
  repeat match type of H with
  | match ?x with Ok _ => _ | Err _ => _ end = Ok _ => destruct x eqn:?; [|discriminate H]
  end.
Ltac knob_cases Hk :=
  repeat match type of Hk with
  | _ ∈ [] => by apply not_elem_of_nil in Hk
  | _ ∈ _ :: _ => apply elem_of_cons in Hk as [->|Hk]
  end.
Ltac solve_sets :=
  split;
  [ intros v x y q H Hk; bind_ok H; injection H as <-; destruct q; try reflexivity; exfalso; set_solver
  | intros v x x' y y' q H H' Hk; bind_ok H; bind_ok H'; injection H as <-; injection H' as <-;
    knob_cases Hk; cbn; congruence ].

Lemma set_flag_sets f name : sets (set_flag f name) (if is_switch f then [] else knobs_of f).
Proof. destruct f; cbn [set_flag is_switch knobs_of]; solve_sets. Qed.

Lemma set_switch_some f a : is_Some (set_switch f a) <-> is_switch f = true.
Proof. destruct f; simpl; split; intros H; try done; by destruct H. Qed.
Lemma set_switch_frame f a b k : set_switch f a = Some b -> k ∉ knobs_of f -> get k b = get k a.
Proof. destruct f; intros H Hk; try discriminate H; injection H as <-; destruct k; try reflexivity; exfalso; set_solver. Qed.
Lemma set_switch_sets f a a' b b' k :
  set_switch f a = Some b -> set_switch f a' = Some b' -> k ∈ knobs_of f -> get k b = get k b'.
Proof.
  destruct f; intros H H' Hk; try discriminate H; injection H as <-; injection H' as <-;
    cbn [knobs_of] in Hk; knob_cases Hk; reflexivity.
Qed.

(** ** Two runs side by side *)

Section two_runs.
Context (env1 env2 : str -> option str) (k : Knob).

Lemma from_env_frame env name set ks a b :
  sets set ks -> k ∉ ks -> from_env env name set a = Ok b -> get k b = get k a.
Proof. intros [Hf _] Hk. unfold from_env. destruct (env name); [eauto|congruence]. Qed.

(** One variable, read by both runs. *)
Lemma from_env_agree name set ks a1 a2 b1 b2 :
  sets set ks -> (k ∈ ks -> env1 name = env2 name) -> get k a1 = get k a2 ->
  from_env env1 name set a1 = Ok b1 -> from_env env2 name set a2 = Ok b2 -> get k b1 = get k b2.
Proof.
  intros Hs He Ha H1 H2. destruct (decide (k ∈ ks)) as [Hk|Hk].
  - specialize (He Hk). unfold from_env in H1, H2. rewrite He in H1. destruct (env2 name); [|congruence].
    destruct Hs as [_ Hs]. eauto.
  - rewrite (from_env_frame env1 name set ks a1 b1 Hs Hk H1). by rewrite (from_env_frame env2 name set ks a2 b2 Hs Hk H2).
Qed.

Lemma env_step name set ks a1 a2 b1 b2 (f1 f2 : Args -> result ArgError Args) :
  sets set ks -> (k ∈ ks -> env1 name = env2 name) -> get k a1 = get k a2 ->
  (from_env env1 name set a1 ≫= f1) = Ok b1 -> (from_env env2 name set a2 ≫= f2) = Ok b2 ->
  (forall c1 c2, get k c1 = get k c2 -> f1 c1 = Ok b1 -> f2 c2 = Ok b2 -> get k b1 = get k b2) ->
  get k b1 = get k b2.
Proof.
  intros Hs He Ha H1 H2 Hnext.
  destruct (from_env env1 name set a1) as [c1|] eqn:E1; [|discriminate].
  destruct (from_env env2 name set a2) as [c2|] eqn:E2; [|discriminate].
  eapply (Hnext c1 c2); [|exact H1|exact H2]. eapply from_env_agree; eauto.
Qed.

Ltac next Hv Ha H1 H2 ks :=
  refine (env_step _ _ ks _ _ _ _ _ _ _ _ Ha H1 H2 _);
  [solve_sets|intros Hk; apply Hv; knob_cases Hk; reflexivity|clear Ha H1 H2; intros ? ? Ha H1 H2].

(** A field depends on its own variable only. *)
Lemma environment_local e1 e2 :
  from_environment env1 = Ok e1 -> from_environment env2 = Ok e2 ->
  (forall v, variable k = Some v -> env1 v = env2 v) -> get k e1 = get k e2.
Proof.
  intros H1 H2 Hv. unfold from_environment in H1, H2. cbv zeta in H1, H2.
  assert (Ha : get k Args_default = get k Args_default) by reflexivity.
  next Hv Ha H1 H2 [K_static_routes]. next Hv Ha H1 H2 [K_ingress_class]. next Hv Ha H1 H2 [K_watch_namespace].
  next Hv Ha H1 H2 [K_publish_address]. next Hv Ha H1 H2 [K_publish_service]. next Hv Ha H1 H2 [K_default_backend].
  next Hv Ha H1 H2 [K_default_tls_secret]. next Hv Ha H1 H2 [K_update_status]. next Hv Ha H1 H2 [K_history_size].
  next Hv Ha H1 H2 [K_audit_webhook]. next Hv Ha H1 H2 [K_http]. next Hv Ha H1 H2 [K_https; K_https_explicit].
  next Hv Ha H1 H2 [K_admin]. next Hv Ha H1 H2 [K_admin_token_file]. next Hv Ha H1 H2 [K_connect_timeout].
  next Hv Ha H1 H2 [K_response_timeout]. next Hv Ha H1 H2 [K_shutdown_grace].
  next Hv Ha H1 H2 [K_max_connect_attempts]. next Hv Ha H1 H2 [K_upstream_pool_idle].
  next Hv Ha H1 H2 [K_max_buf_size]. next Hv Ha H1 H2 [K_mirror_max_body]. next Hv Ha H1 H2 [K_engine].
  next Hv Ha H1 H2 [K_http3]. next Hv Ha H1 H2 [K_proxy_protocol]. next Hv Ha H1 H2 [K_proxy_protocol_timeout].
  next Hv Ha H1 H2 [K_worker_threads].
  injection H1 as <-. injection H2 as <-. exact Ha.
Qed.
End two_runs.

Lemma environment_empty : from_environment no_environment = Ok Args_default.
Proof. reflexivity. Qed.

(** ** The command line, side by side *)

Lemma from_utf8_some s t : from_utf8 s = Some t -> t = s.
Proof. unfold from_utf8. destruct (utf8_valid s); congruence. Qed.

(** What the first argument asks for: the option, the text it takes, and the
    arguments left; and the arm that then runs. *)
Definition first_option (raw : OsString) (input : list OsString)
    : result ArgError (str * Flag * option str * list OsString) :=
  argument ← ok_or (from_utf8 raw) (NotUtf8 raw);
  let '(name, inline) := split_argument argument in
  f ← ok_or (flag_of name) (if starts_with (bstr "-") name then Unknown name else Unexpected name);
  if is_switch f then Ok (name, f, None, input)
  else
    match inline, input with
    | Some value, _ => Ok (name, f, Some value, input)
    | None, next :: input => value ← ok_or (from_utf8 next) (MissingValue name); Ok (name, f, Some value, input)
    | None, [] => Err (MissingValue name)
    end.

Definition arm (f : Flag) (name : str) (value : option str) (a : Args) : result ArgError Args :=
  match value with
  | None => Ok (default a (set_switch f a))
  | Some value => set_flag f name value a
  end.

Lemma parse_turn raw input a :
  parse_loop (raw :: input) a =
  '(name, f, value, input') ← first_option raw input; b ← arm f name value a; parse_loop input' b.
Proof.
  cbn [parse_loop]. unfold first_option. destruct (from_utf8 raw) as [argument|]; [|done].
  cbv beta iota delta [mbind result_bind ok_or]. destruct (split_argument argument) as [name inline].
  destruct (flag_of name) as [f|]; [|done]. destruct (is_switch f) eqn:Esw.
  - destruct (proj2 (set_switch_some f a) Esw) as [b Hb]. cbn [arm]. by rewrite Hb.
  - destruct (set_switch f a) eqn:E; [|].
    { assert (is_Some (set_switch f a)) as Hs%set_switch_some by (by eexists). congruence. }
    destruct inline; [done|]. destruct input as [|next input]; [done|]. by destruct (from_utf8 next).
Qed.

Lemma first_option_named raw input name f value input' :
  first_option raw input = Ok (name, f, value, input') ->
  (length input' <= length input)%nat /\ named (raw :: input) = f :: named input' /\
  (value = None <-> is_switch f = true).
Proof.
  unfold first_option. cbn [named]. intros H. destruct (from_utf8 raw) as [argument|] eqn:Eu; [|discriminate].
  apply from_utf8_some in Eu as ->. cbv beta iota delta [mbind result_bind ok_or] in H.
  destruct (split_argument raw) as [n inline]. destruct (flag_of n) as [g|]; [|discriminate].
  destruct (is_switch g) eqn:Esw; [by injection H as <- <- <- <-|].
  destruct inline as [v|]; [by injection H as <- <- <- <-; rewrite Esw|].
  destruct input as [|next input]; [discriminate|]. destruct (from_utf8 next); [|discriminate].
  injection H as <- <- <- <-. rewrite Esw. simpl. split; [lia|done].
Qed.

Lemma arm_sets name f value :
  (value = None <-> is_switch f = true) ->
  (forall k a b, arm f name value a = Ok b -> k ∉ knobs_of f -> get k b = get k a) /\
  (forall k a a' b b', arm f name value a = Ok b -> arm f name value a' = Ok b' -> k ∈ knobs_of f ->
    get k b = get k b').
Proof.
  intros Hv. destruct value as [v|]; cbn [arm].
  - assert (Esw : is_switch f = false) by (destruct (is_switch f); [by destruct Hv as [_ Hv]; discriminate Hv|done]).
    pose proof (set_flag_sets f name) as Hs. rewrite Esw in Hs. destruct Hs as [H1 H2]. split; eauto.
  - assert (Esw : is_switch f = true) by (by apply Hv). split.
    + intros k a b. destruct (proj2 (set_switch_some f a) Esw) as [c Hc]. rewrite Hc. intros [= <-].
      by apply set_switch_frame.
    + intros k a a' b b'. destruct (proj2 (set_switch_some f a) Esw) as [c Hc].
      destruct (proj2 (set_switch_some f a') Esw) as [c' Hc']. rewrite Hc, Hc'. intros [= <-] [= <-].
      by apply set_switch_sets with a a'.
Qed.

(** Runs of the parser, by the options it meets. *)
Lemma parse_turn_ok raw input a c :
  parse_loop (raw :: input) a = Ok c ->
  exists name f value input' b, first_option raw input = Ok (name, f, value, input') /\
    arm f name value a = Ok b /\ parse_loop input' b = Ok c.
Proof.
  rewrite parse_turn. destruct (first_option raw input) as [[[[name f] value] input']|]; [|discriminate].
  cbv beta iota delta [mbind result_bind]. destruct (arm f name value a) as [b|] eqn:E; [|discriminate].
  intros H. by exists name, f, value, input', b.
Qed.

Lemma loop_frame k arguments a b :
  parse_loop arguments a = Ok b -> ~ mentions k arguments -> get k b = get k a.
Proof.
  remember (length arguments) as n eqn:Hn. revert arguments a Hn.
  induction n as [n IH] using lt_wf_ind; intros [|raw input] a Hn H Hm; [by injection H as <-|].
  apply parse_turn_ok in H as (name & f & value & input' & c & Hf & Ha & H).
  apply first_option_named in Hf as (Hl & Hnamed & Hv). apply (arm_sets name) in Hv as [Hframe _].
  transitivity (get k c).
  - apply (IH (length input')) with input'; [simpl in Hn; lia|done|done|].
    intros (g & Hg & Hk). apply Hm. exists g. rewrite Hnamed. split; [by right|done].
  - apply Hframe; [done|]. intros Hk. apply Hm. exists f. rewrite Hnamed. split; [by left|done].
Qed.

Lemma loop_agree k arguments a1 a2 b1 b2 :
  parse_loop arguments a1 = Ok b1 -> parse_loop arguments a2 = Ok b2 ->
  mentions k arguments \/ get k a1 = get k a2 -> get k b1 = get k b2.
Proof.
  remember (length arguments) as n eqn:Hn. revert arguments a1 a2 Hn.
  induction n as [n IH] using lt_wf_ind; intros [|raw input] a1 a2 Hn H1 H2 Hm.
  { injection H1 as <-. injection H2 as <-. destruct Hm as [(f & Hf & _)|]; [by apply not_elem_of_nil in Hf|done]. }
  apply parse_turn_ok in H1 as (name & f & value & input' & c1 & Hf & Ha1 & H1).
  apply parse_turn_ok in H2 as (name' & f' & value' & input'' & c2 & Hf' & Ha2 & H2).
  rewrite Hf in Hf'. injection Hf' as <- <- <- <-.
  apply first_option_named in Hf as (Hl & Hnamed & Hv). apply (arm_sets name) in Hv as [Hframe Hset].
  apply (IH (length input') ltac:(simpl in Hn; lia) input' c1 c2 eq_refl H1 H2).
  destruct (decide (k ∈ knobs_of f)) as [Hk|Hk]; [right; by eapply Hset|].
  destruct Hm as [(g & Hg & Hkg)|Heq].
  - rewrite Hnamed in Hg. apply elem_of_cons in Hg as [->|Hg]; [done|]. left. by exists g.
  - right. by rewrite (Hframe k a1 c1), (Hframe k a2 c2).
Qed.

Lemma parse_ok env arguments a :
  parse env arguments = Ok a ->
  exists e, from_environment env = Ok e /\ parse_loop arguments e = Ok a /\
    (arg_help a || arg_version a = true \/ check_conflicts a = Ok tt).
Proof.
  unfold parse. intros H. destruct (from_environment env) as [e|]; [|discriminate].
  cbv beta iota delta [mbind result_bind] in H. destruct (parse_loop arguments e) as [b|] eqn:Hp; [|discriminate].
  exists e. destruct (arg_help b) eqn:Eh; [injection H as <-; rewrite Eh; auto|].
  destruct (arg_version b) eqn:Ev; [injection H as <-; rewrite Eh, Ev; auto|]. cbn [negb andb] in H.
  destruct (check_conflicts b) as [[]|] eqn:Ec; [|discriminate]. injection H as <-. auto.
Qed.

(** ** Precedence *)

(** C36: The order of precedence the module documents, field by field, for every
    command line and environment that is accepted.  A field that an option on
    the command line writes has one value whatever the environment says, and so
    does a field whose own variable has the same value in both environments: no
    other variable reaches it.  A field no option writes keeps what the
    environment made of it, and that is the default when its variable is not
    set. *)
Theorem precedence arguments env a k :
  parse env arguments = Ok a ->
  (forall env' a', parse env' arguments = Ok a' ->
    mentions k arguments \/ (forall v, variable k = Some v -> env v = env' v) -> get k a = get k a') /\
  (~ mentions k arguments -> exists e, from_environment env = Ok e /\ get k a = get k e /\
    ((forall v, variable k = Some v -> env v = None) -> get k a = get k Args_default)).
Proof.
  intros (e & He & Hp & _)%parse_ok. split.
  - intros env' a' (e' & He' & Hp' & _)%parse_ok [Hm|Hv]; apply (loop_agree k arguments e e'); auto.
    right. by apply (environment_local env env').
  - intros Hm. exists e. rewrite (loop_frame k arguments e a Hp Hm). split_and!; [done|done|].
    intros Hv. by apply (environment_local env no_environment).
Qed.

(** ** Bounds *)

(** What the clamps promise to the code that reads the fields. *)
Record sane (a : Args) : Prop := {
  sane_history : 1 <= arg_history_size a <= u64_max;
  sane_attempts : 1 <= arg_max_connect_attempts a <= u64_max;
  sane_buffer : MIN_MAX_BUF_SIZE <= arg_max_buf_size a <= u64_max;
  sane_threads : forall n, arg_worker_threads a = Some n -> 1 <= n <= u64_max;
  sane_idle : 0 <= arg_upstream_pool_idle a <= u64_max;
  sane_mirror : 0 <= arg_mirror_max_body a <= u64_max;
  sane_connect : 0 <= arg_connect_timeout a <= seconds u64_max;
  sane_response : 0 <= arg_response_timeout a <= seconds u64_max;
  sane_grace : 0 <= arg_shutdown_grace a <= seconds u64_max;
  sane_header : 0 <= arg_proxy_protocol_timeout a <= seconds u64_max;
}.

Lemma number_range option value n : number option value = Ok n -> 0 <= n <= u64_max.
Proof.
  unfold number. destruct (parse_unsigned _ _) eqn:E; [|discriminate]. intros [= <-].
  by apply parse_unsigned_range in E.
Qed.
Lemma seconds_range option value d : seconds_arg option value = Ok d -> 0 <= d <= seconds u64_max.
Proof.
  unfold seconds_arg. destruct (parse_unsigned _ _) eqn:E; [|discriminate]. intros [= <-].
  apply parse_unsigned_range in E. unfold seconds. lia.
Qed.

Ltac solve_sane :=
  repeat match goal with
  | H : number _ _ = Ok _ |- _ => apply number_range in H
  | H : seconds_arg _ _ = Ok _ |- _ => apply seconds_range in H
  end;
  match goal with H : sane _ |- _ => destruct H end; constructor; cbn in *; try assumption;
  repeat match goal with
  | |- forall n, Some _ = Some n -> _ => intros ? [= <-]
  end; unfold u64_max, MIN_MAX_BUF_SIZE in *; try lia.
Ltac keeps_sane := intros ? ? ? H Hs; bind_ok H; injection H as <-; solve_sane.

Lemma env_keeps (P : Args -> Prop) env name set a b (f : Args -> result ArgError Args) :
  (forall v a b, set v a = Ok b -> P a -> P b) -> P a -> (from_env env name set a ≫= f) = Ok b ->
  (forall c, P c -> f c = Ok b -> P b) -> P b.
Proof.
  intros Hs Ha H Hnext. unfold from_env in H. destruct (env name) as [v|]; [|eauto].
  destruct (set v a) as [c|] eqn:E; [|discriminate]. eapply (Hnext c); [eauto|exact H].
Qed.

Lemma environment_sane env e : from_environment env = Ok e -> sane e.
Proof.
  intros H. unfold from_environment in H. cbv zeta in H.
  assert (Hs : sane Args_default) by (constructor; cbn; unfold MIN_MAX_BUF_SIZE, u64_max; intros; try lia; done).
  do 26 (refine (env_keeps sane _ _ _ _ _ _ _ Hs H _); [clear; keeps_sane|clear Hs H; intros ? Hs H]).
  by injection H as <-.
Qed.

Lemma arm_sane f name value a b : arm f name value a = Ok b -> sane a -> sane b.
Proof.
  destruct value as [v|]; cbn [arm].
  - revert a b. generalize v. clear v. destruct f; cbn [set_flag]; keeps_sane.
  - intros [= <-] Hs. destruct f; cbn [set_switch default]; try done; solve_sane.
Qed.

Lemma loop_sane arguments a b : parse_loop arguments a = Ok b -> sane a -> sane b.
Proof.
  remember (length arguments) as n eqn:Hn. revert arguments a Hn.
  induction n as [n IH] using lt_wf_ind; intros [|raw input] a Hn H Hs; [by injection H as <-|].
  apply parse_turn_ok in H as (name & f & value & input' & c & Hf & Ha & H).
  apply first_option_named in Hf as (Hl & _). apply (IH (length input')) with input' c; [simpl in Hn; lia|done|done|].
  by apply arm_sane in Ha.
Qed.

(** Whatever the command line and the environment say, the settings that
    come out are within the bounds the rest of the program relies on: a
    generation to keep, an attempt to make, a buffer hyper accepts, a thread to
    run, every count a 64-bit number and every delay a [Duration]; and unless
    the run only prints, HTTP/3 is not asked of an engine that does not speak
    it nor of a listener that is off. *)
Theorem parsed_args_sane env arguments a :
  parse env arguments = Ok a ->
  sane a /\
  (arg_help a || arg_version a = true \/
   (arg_http3 a = true -> is_uring (arg_engine a) = false /\ is_Some (arg_https a))).
Proof.
  intros (e & He & Hp & Hc)%parse_ok. split; [by eapply loop_sane, environment_sane|].
  destruct Hc as [Hc|Hc]; [by left|right]. intros Hh. unfold check_conflicts in Hc. rewrite Hh in Hc. cbn [andb] in Hc.
  destruct (is_uring (arg_engine a)); [discriminate|]. split; [done|].
  destruct (decide (is_Some (arg_https a))) as [|Hn]; [done|]. by rewrite bool_decide_eq_false_2 in Hc.
Qed.

(** ** Witnesses *)

Definition demo_env : str -> option str :=
  environment_of [(bstr "RAMJET_ENGINE", bstr "uring"); (bstr "RAMJET_HTTP", bstr ":81"); (bstr "RAMJET_WORKER_THREADS", bstr "0")].
Definition demo_arguments : list OsString := [bstr "--engine"; bstr "hyper"; bstr "--no-https"].
Definition demo_parsed (env : str -> option str) : Args :=
  match parse env demo_arguments with Ok a => a | Err _ => Args_default end.

Lemma demo_parses env : env = demo_env \/ env = no_environment -> parse env demo_arguments = Ok (demo_parsed env).
Proof. intros [-> | ->]; vm_compute; reflexivity. Qed.
Lemma demo_mentions : mentions K_engine demo_arguments /\ ~ mentions K_http demo_arguments.
Proof.
  assert (Hn : named demo_arguments = [F_engine; F_no_https]) by (vm_compute; reflexivity).
  unfold mentions. rewrite Hn. split; [exists F_engine; split; set_solver|].
  intros (f & Hf & Hk). apply elem_of_cons in Hf as [->|Hf]; [set_solver|].
  apply elem_of_cons in Hf as [->|Hf]; set_solver.
Qed.

Lemma precedence_witness :
  get K_engine (demo_parsed demo_env) = get K_engine (demo_parsed no_environment) /\
  exists e, from_environment demo_env = Ok e /\ get K_http (demo_parsed demo_env) = get K_http e.
Proof.
  pose proof (demo_parses demo_env (or_introl eq_refl)) as H1.
  pose proof (demo_parses no_environment (or_intror eq_refl)) as H2. destruct demo_mentions as [Hm Hn]. split.
  - exact (proj1 (precedence demo_arguments demo_env _ K_engine H1) _ _ H2 (or_introl Hm)).
  - destruct (proj2 (precedence demo_arguments demo_env _ K_http H1) Hn) as (e & He & Hg & _). by exists e.
Defined.

Lemma parsed_args_sane_witness :
  sane (demo_parsed demo_env) /\ arg_worker_threads (demo_parsed demo_env) = Some 1.
Proof.
  split; [|vm_compute; reflexivity].
  exact (proj1 (parsed_args_sane demo_env demo_arguments _ (demo_parses demo_env (or_introl eq_refl)))).
Defined.
