(* ===== verification/Static.v ===== *)
(** The file of [--static-routes]: [crates/ramjet-ingressd/src/config.rs].

    The schema is the data type [Document]; reading YAML into it is generated
    by serde and enters with the file system as the class [StaticFiles].  The
    crates that decode certificates are the class [Rustls] of Publisher.v.  An
    error keeps what was wrong as a value; its text is not modelled. *)

From S2P Require Import Prelude Hosts RouterTypes Canary Paths Stats Backends Table Builder Publisher Flags.

(** ** The schema *)

Inductive EndpointSpec :=
| Address (address : str)
| Weighted (address : str) (weight : u32).
Definition default_weight : u32 := 1.
Definition endpoint_parts (e : EndpointSpec) : str * u32 :=
  match e with Address a => (a, 1) | Weighted a w => (a, w) end.

Inductive PolicySpec := Spec_RoundRobin | Spec_Random | Spec_LeastConn.
Definition policy_into (p : PolicySpec) : LbPolicy :=
  match p with Spec_RoundRobin => RoundRobin | Spec_Random => Random | Spec_LeastConn => LeastConn end.
Inductive ProtocolSpec := Spec_Http | Spec_H2c.
Definition protocol_into (p : ProtocolSpec) : BackendProtocol :=
  match p with Spec_Http => Http1 | Spec_H2c => H2c end.
Inductive PathTypeSpec := Spec_Exact | Spec_Prefix | Spec_ImplementationSpecific.
Definition path_type_into (p : PathTypeSpec) : PathType :=
  match p with
  | Spec_Exact => Exact
  | Spec_Prefix => Prefix
  | Spec_ImplementationSpecific => ImplementationSpecific
  end.
(** The values of absent fields. *)
Definition PolicySpec_default : PolicySpec := Spec_RoundRobin.
Definition ProtocolSpec_default : ProtocolSpec := Spec_Http.
Definition PathTypeSpec_default : PathTypeSpec := Spec_Prefix.
Definition default_percent : u32 := 100.

Record BackendSpec := MkBackendSpec {
  bs_name : str;
  bs_policy : PolicySpec;
  bs_protocol : ProtocolSpec;
  bs_endpoints : list EndpointSpec;
}.
Record StaticMirror := MkStaticMirror { sm_backend : str; sm_percent : u32; sm_host : option str }.
Record StaticCanary := MkStaticCanary {
  sc_backend : str;
  sc_weight : u32;
  sc_weight_total : u32;
  sc_header : option str;
  sc_header_value : option str;
  sc_header_pattern : option str;
  sc_cookie : option str;
}.
Record RouteSpec := MkRouteSpec {
  rs_host : option str;
  rs_path : str;
  rs_path_type : PathTypeSpec;
  rs_backend : str;
  rs_canary : option StaticCanary;
  rs_mirror : option StaticMirror;
}.
Record TlsSpec := MkTlsSpec { ts_host : option str; ts_cert : str; ts_key : str }.
Record Document := MkDocument {
  doc_default_backend : option str;
  doc_backends : list BackendSpec;
  doc_routes : list RouteSpec;
  doc_tls : list TlsSpec;
}.

(** What was loaded, in numbers. *)
Record Summary := MkSummary {
  sum_backends : usize;
  sum_endpoints : usize;
  sum_routes : usize;
  sum_certificates : usize;
  sum_mirrors : usize;
  sum_default_backend : bool;
}.
Definition Summary_default : Summary := MkSummary 0 0 0 0 0 false.

(** Files and paths, as the standard library and serde_yaml give them. *)
Class StaticFiles := {
  FileError : Type;
  YamlError : Type;
  is_absolute : str -> bool;
  path_join : str -> str -> str;
  path_parent : str -> option str;
  read_to_string : str -> result FileError str;
  (** [File::open] with what its reader yields. *)
  open_file : str -> result FileError bytes;
  yaml_from_str : str -> result YamlError Document;
}.

Section static.
Context {E : RegexEngine} `{HashOrder} {R : Rustls} {F : StaticFiles}.

(** Why a certificate could not be loaded. *)
Inductive Reason := NotOpened (e : FileError) | NotDecoded (e : CertError) | NotPaired (e : RustlsError).
Inductive ConfigError :=
| ReadError (path : str) (source : FileError)
| ParseError (path : str) (source : YamlError)
| BadEndpoint (backend address : str)
| TableError (e : BuildError)
| CertificateError (host path : str) (reason : Reason).

Record Loaded := MkLoaded {
  ld_table : RouteTable;
  ld_certs : gmap Z CertifiedKey;
  ld_summary : Summary;
  (** Where the counters of the new table live. *)
  ld_heap : Heap;
  ld_store : RouteStore;
}.

(** [certs::chain], [certs::private_key] behind a file. *)
Definition read_chain (path host : str) : result ConfigError (list CertificateDer) :=
  pem ← map_err (fun e => CertificateError host path (NotOpened e)) (open_file path);
  map_err (fun e => CertificateError host path (NotDecoded e)) (chain pem).
Definition read_key (path host : str) : result ConfigError PrivateKeyDer :=
  pem ← map_err (fun e => CertificateError host path (NotOpened e)) (open_file path);
  map_err (fun e => CertificateError host path (NotDecoded e)) (private_key pem).
Definition resolve_path (base path : str) : str := if is_absolute path then path else path_join base path.

(** ** The three loops *)

Fixpoint parse_endpoints (backend : str) (l : list EndpointSpec) : result ConfigError (list Endpoint) :=
  match l with
  | [] => Ok []
  | e :: l =>
      let '(address, weight) := endpoint_parts e in
      parsed ← ok_or (parse_socket address) (BadEndpoint backend address);
      rest ← parse_endpoints backend l;
      Ok (Endpoint_weighted parsed weight :: rest)
  end.

Fixpoint load_backends (l : list BackendSpec) (b : RouteTableBuilder) (s : Summary)
    : result ConfigError (RouteTableBuilder * Summary) :=
  match l with
  | [] => Ok (b, s)
  | spec :: l =>
      endpoints ← parse_endpoints (bs_name spec) (bs_endpoints spec);
      let s := MkSummary (S (sum_backends s)) (sum_endpoints s + length endpoints) (sum_routes s)
                 (sum_certificates s) (sum_mirrors s) (sum_default_backend s) in
      '(_, b) ← map_err TableError (backend_with b (bs_name spec) endpoints
        (MkBackendOptions (policy_into (bs_policy spec)) (protocol_into (bs_protocol spec))));
      load_backends l b s
  end.

Definition route_options (r : RouteSpec) : RouteOptions :=
  MkRouteOptions
    ((fun c => MkCanaryRules (sc_backend c) (sc_header c) (sc_header_value c) (sc_header_pattern c)
                 (sc_cookie c) (sc_weight c) (sc_weight_total c)) <$> rs_canary r)
    ((fun m => MkMirrorRules (sm_backend m) (sm_percent m) (sm_host m)) <$> rs_mirror r).
Fixpoint load_routes (l : list RouteSpec) (b : RouteTableBuilder) (s : Summary)
    : result ConfigError (RouteTableBuilder * Summary) :=
  match l with
  | [] => Ok (b, s)
  | r :: l =>
      b ← map_err TableError (route_with b (rs_host r) (rs_path r) (path_type_into (rs_path_type r))
            (rs_backend r) (route_options r));
      let mirrors := if bool_decide (is_Some (rs_mirror r)) then S (sum_mirrors s) else sum_mirrors s in
      load_routes l b (MkSummary (sum_backends s) (sum_endpoints s) (S (sum_routes s)) (sum_certificates s)
                         mirrors (sum_default_backend s))
  end.

Definition star : str := bstr "*".
(** One entry: its key, and the handle given to its name. *)
Definition entry_key (base : str) (entry : TlsSpec) : result ConfigError CertifiedKey :=
  let host := default star (ts_host entry) in
  c ← read_chain (resolve_path base (ts_cert entry)) host;
  k ← read_key (resolve_path base (ts_key entry)) host;
  map_err (fun e => CertificateError host (ts_cert entry) (NotPaired e)) (from_der c k).
Definition name_entry (id : u64) (entry : TlsSpec) (b : RouteTableBuilder) : result ConfigError RouteTableBuilder :=
  let host := default star (ts_host entry) in
  let handle := MkCertifiedKeyHandle id in
  if bool_decide (host = star) then Ok (default_certificate b handle)
  else map_err TableError (certificate b host handle).
Fixpoint load_tls (base : str) (index : u64) (l : list TlsSpec) (b : RouteTableBuilder) (certs : gmap Z CertifiedKey)
    (s : Summary) : result ConfigError (RouteTableBuilder * gmap Z CertifiedKey * Summary) :=
  match l with
  | [] => Ok (b, certs, s)
  | entry :: l =>
      let id := index + 1 in
      key ← entry_key base entry;
      b ← name_entry id entry b;
      load_tls base (index + 1) l b (<[id := key]> certs)
        (MkSummary (sum_backends s) (sum_endpoints s) (sum_routes s) (S (sum_certificates s)) (sum_mirrors s)
           (sum_default_backend s))
  end.

Definition build_static (document : Document) (base : str) (h : Heap) (store : RouteStore) : result ConfigError Loaded :=
  '(b, s) ← load_backends (doc_backends document) builder_new Summary_default;
  '(b, s) ← load_routes (doc_routes document) b s;
  '(b, certs, s) ← load_tls base 0 (doc_tls document) b ∅ s;
  let '(b, s) :=
    match doc_default_backend document with
    | Some name => (Builder.set_default_backend b name,
        MkSummary (sum_backends s) (sum_endpoints s) (sum_routes s) (sum_certificates s) (sum_mirrors s) true)
    | None => (b, s)
    end in
  '(t, h, store) ← map_err TableError (build b h store);
  Ok (MkLoaded t certs s h store).

Definition load (path : str) (h : Heap) (store : RouteStore) : result ConfigError Loaded :=
  text ← map_err (ReadError path) (read_to_string path);
  document ← map_err (ParseError path) (yaml_from_str text);
  build_static document (default (bstr ".") (path_parent path)) h store.
End static.

(** ** What a loaded file promises *)

Section static_lemmas.
Context {E : RegexEngine} `{HashOrder} {R : Rustls} {F : StaticFiles}.

(** The name an entry is for, and the handle a map has for a name. *)
Definition entry_slot (entry : TlsSpec) : option HostSlot :=
  let host := default star (ts_host entry) in
  if bool_decide (host = star) then Some Slot_CatchAll
  else match normalize_config_host host with Ok slot => Some slot | Err _ => None end.
Definition sni_at (m : SniMap) (slot : HostSlot) : option CertifiedKeyHandle :=
  match slot with
  | Slot_Exact h => sni_exact m !! h
  | Slot_Wildcard h => sni_wildcard m !! h
  | Slot_CatchAll => sni_default m
  end.
Definition builder_sni (b : RouteTableBuilder) : SniMap := MkSniMap (b_tls_exact b) (b_tls_wildcard b) (b_tls_default b).

(** What the loops before the certificates leave alone, and what they count. *)
Definition names (b : RouteTableBuilder) : list str := map bd_name (b_backends b).

Lemma parse_endpoints_length name l eps : parse_endpoints name l = Ok eps -> length eps = length l.
Proof.
  revert eps. induction l as [|e l IH]; cbn; intros eps; [by intros [= <-]|].
  destruct (endpoint_parts e) as [a w]. destruct (parse_socket a); cbn; [|done].
  destruct (parse_endpoints name l) as [rest|] eqn:Hr; cbn; [|done]. intros [= <-]. cbn. by rewrite (IH rest).
Qed.

Lemma load_backends_ok l b s b' s' :
  load_backends l b s = Ok (b', s') ->
  names b' = names b ++ map bs_name l /\ builder_sni b' = builder_sni b /\
  sum_backends s' = (sum_backends s + length l)%nat /\
  sum_endpoints s' = (sum_endpoints s + length (concat (map bs_endpoints l)))%nat /\
  sum_routes s' = sum_routes s /\ sum_certificates s' = sum_certificates s /\ sum_mirrors s' = sum_mirrors s /\
  sum_default_backend s' = sum_default_backend s.
Proof.
  revert b s. induction l as [|spec l IH]; cbn [load_backends]; intros b s.
  { intros [= <- <-]. cbn. rewrite app_nil_r. split_and!; (done || lia). }
  destruct (parse_endpoints _ _) as [eps|] eqn:He; cbn; [|done]. apply parse_endpoints_length in He.
  unfold backend_with. destruct (b_backend_ids b !! bs_name spec); cbn; [done|].
  intros (Hn & Ht & H1 & H2 & H3)%IH. cbn in *. rewrite Hn, Ht, H1, H2, length_app, He. unfold names. cbn.
  rewrite List.map_app, <- app_assoc. split_and!; (done || lia || apply H3).
Qed.

Lemma load_routes_ok l b s b' s' :
  load_routes l b s = Ok (b', s') ->
  names b' = names b /\ builder_sni b' = builder_sni b /\
  sum_routes s' = (sum_routes s + length l)%nat /\
  sum_mirrors s' = (sum_mirrors s + length (List.filter (fun r => bool_decide (is_Some (rs_mirror r))) l))%nat /\
  sum_backends s' = sum_backends s /\ sum_endpoints s' = sum_endpoints s /\ sum_certificates s' = sum_certificates s /\
  sum_default_backend s' = sum_default_backend s.
Proof.
  revert b s. induction l as [|r l IH]; cbn [load_routes]; intros b s.
  { intros [= <- <-]. cbn. split_and!; (done || lia). }
  destruct (route_with _ _ _ _ _ _) as [b1|] eqn:Hr; cbn [map_err mbind result_bind]; [|done].
  apply route_with_push in Hr as (d & -> & _). intros (Hn & Ht & H1 & H2 & H3)%IH. cbn in *.
  rewrite Hn, Ht, H1, H2. split_and!; try done; try lia; try apply H3. case_bool_decide; cbn; lia.
Qed.

Lemma name_entry_ok id entry b b' :
  name_entry id entry b = Ok b' ->
  names b' = names b /\ exists slot, entry_slot entry = Some slot /\
  forall slot', sni_at (builder_sni b') slot' =
    if bool_decide (slot' = slot) then Some (MkCertifiedKeyHandle id) else sni_at (builder_sni b) slot'.
Proof.
  unfold name_entry, entry_slot. cbv zeta. case_bool_decide.
  { intros [= <-]. split; [done|]. exists Slot_CatchAll. split; [done|]. intros [h|h|]; cbn; by case_bool_decide. }
  unfold certificate. destruct (normalize_config_host _) as [slot|]; cbn [map_err mbind result_bind]; [|done].
  intros [= <-]. split; [by destruct slot|]. exists slot. split; [done|].
  intros slot'. destruct slot as [h|h|], slot' as [h'|h'|]; cbn; case_bool_decide; simplify_eq; try done;
    first [by rewrite lookup_insert_eq|rewrite lookup_insert_ne by congruence; done].
Qed.

(** The loop over the certificates, [done] of them loaded. *)
Record tls_ok (base : str) (done : list TlsSpec) (m : SniMap) (certs : gmap Z CertifiedKey) : Prop := {
  tls_ids : forall id, is_Some (certs !! id) <-> 1 <= id <= Z.of_nat (length done);
  tls_keys : forall i entry, done !! i = Some entry ->
    exists key, certs !! (Z.of_nat i + 1) = Some key /\ entry_key base entry = Ok key;
  tls_named : forall slot h, sni_at m slot = Some h ->
    exists i entry, done !! i = Some entry /\ entry_slot entry = Some slot /\ h = MkCertifiedKeyHandle (Z.of_nat i + 1);
  tls_last : forall i entry slot, done !! i = Some entry -> entry_slot entry = Some slot ->
    (forall j e, (i < j)%nat -> done !! j = Some e -> entry_slot e <> Some slot) ->
    sni_at m slot = Some (MkCertifiedKeyHandle (Z.of_nat i + 1));
}.

Lemma tls_ok_nil base : tls_ok base [] (builder_sni builder_new) ∅.
Proof.
  split; cbn.
  - intros id. rewrite lookup_empty. split; [by intros []|lia].
  - done.
  - intros [n|n|] hd; cbn; [by rewrite lookup_empty..|done].
  - done.
Qed.

Lemma tls_step base l m certs entry key m' slot :
  tls_ok base l m certs -> entry_key base entry = Ok key -> entry_slot entry = Some slot ->
  (forall slot', sni_at m' slot' =
    if bool_decide (slot' = slot) then Some (MkCertifiedKeyHandle (Z.of_nat (length l) + 1)) else sni_at m slot') ->
  tls_ok base (l ++ [entry]) m' (<[Z.of_nat (length l) + 1 := key]> certs).
Proof.
  intros [Hi Hk Hn Hl] He Hs Hm. split.
  - intros id. rewrite length_app. cbn. rewrite lookup_insert_is_Some, Hi. split; [lia|].
    destruct (decide (Z.of_nat (length l) + 1 = id)); [by left|right]. split; [done|lia].
  - intros i e [[_ Hie]|[-> <-]]%lookup_snoc_Some.
    + destruct (Hk i e) as (k & Hc & Hek); [done|]. exists k. split; [|done]. rewrite lookup_insert_ne; [done|].
      apply lookup_lt_Some in Hie. lia.
    + exists key. rewrite lookup_insert_eq. by split.
  - intros slot' h. rewrite Hm. case_bool_decide as Hd.
    + intros [= <-]. subst slot'. exists (length l), entry. split; [by apply list_lookup_middle|done].
    + intros (i & e & Hie & ? & ?)%Hn. exists i, e. split; [|done]. by apply lookup_app_l_Some.
  - intros i e slot' Hie Hes Hlast. rewrite Hm. apply lookup_snoc_Some in Hie as [[_ Hie]|[-> <-]].
    + case_bool_decide as Hd; [subst slot'; exfalso; eapply (Hlast (length l)); [by eapply lookup_lt_Some|by apply list_lookup_middle|done]|].
      apply (Hl i e); [done|done|]. intros j e' Hj He'. apply (Hlast j); [done|]. by apply lookup_app_l_Some.
    + rewrite Hs in Hes. injection Hes as <-. by rewrite bool_decide_eq_true_2.
Qed.

Lemma load_tls_ok base l pre b certs s b' certs' s' :
  tls_ok base pre (builder_sni b) certs -> load_tls base (Z.of_nat (length pre)) l b certs s = Ok (b', certs', s') ->
  tls_ok base (pre ++ l) (builder_sni b') certs' /\ names b' = names b /\
  sum_certificates s' = (sum_certificates s + length l)%nat /\ sum_backends s' = sum_backends s /\
  sum_endpoints s' = sum_endpoints s /\ sum_routes s' = sum_routes s /\ sum_mirrors s' = sum_mirrors s /\
  sum_default_backend s' = sum_default_backend s.
Proof.
  revert pre b certs s. induction l as [|entry l IH]; cbn [load_tls]; intros pre b certs s Hok.
  { intros [= <- <- <-]. rewrite app_nil_r. split_and!; (done || cbn; lia). }
  destruct (entry_key base entry) as [key|] eqn:Hk; cbn [mbind result_bind]; [|done].
  destruct (name_entry _ entry b) as [b1|] eqn:Hn; cbn [mbind result_bind]; [|done].
  apply name_entry_ok in Hn as (Hnames & slot & Hs & Hm). pose proof (tls_step _ _ _ _ _ _ _ _ Hok Hk Hs Hm) as Hok'.
  replace (Z.of_nat (length pre) + 1) with (Z.of_nat (length (pre ++ [entry]))) at 1 by (rewrite length_app; cbn; lia).
  intros (H1 & H2 & H3 & H4)%IH; [|done]. rewrite <- app_assoc in H1. cbn in *.
  split_and!; [done|congruence|lia|apply H4..].
Qed.
End static_lemmas.

Section static_properties.
Context {E : RegexEngine} `{HashOrder} {R : Rustls} {F : StaticFiles}.

(** The names a slot is for. *)
Definition slot_covers (slot : HostSlot) (name : str) : Prop :=
  match slot with
  | Slot_Exact n => normalize name = Some n
  | Slot_Wildcard p => exists n, normalize name = Some n /\ parent_domain n = Some p
  | Slot_CatchAll => True
  end.

Lemma resolve_at m name h : resolve m name = Some h -> exists slot, sni_at m slot = Some h /\ slot_covers slot name.
Proof.
  assert (Hn : forall n, normalize name = Some n -> resolve_normalized m n = Some h ->
    exists slot, sni_at m slot = Some h /\ slot_covers slot name).
  { intros n Hn. unfold resolve_normalized. destruct (sni_exact m !! n) as [k|] eqn:He.
    - intros [= ->]. by exists (Slot_Exact n).
    - destruct (parent_domain n) as [p|] eqn:Hp; cbn; [|intros Hd; by exists Slot_CatchAll].
      destruct (sni_wildcard m !! p) as [k|] eqn:Hw; [|intros Hd; by exists Slot_CatchAll].
      intros [= ->]. exists (Slot_Wildcard p). split; [done|]. by exists n. }
  unfold resolve, normalize in *. destruct (scan name) as [n|n|].
  - apply Hn. done.
  - destruct (fold_lower n) as [f|]; cbn; [|done]. apply Hn. done.
  - intros Hd. by exists Slot_CatchAll.
Qed.

Lemma built_names drafts : map backend_name (built_backends drafts) = map bd_name drafts.
Proof.
  unfold built_backends. change (@map) with (fun A B => @fmap list _ A B). rewrite fmap_imap. apply (imap_const bd_name).
Qed.

(** C28: A static file that loads is served as it is written.  The table has the
    file's backends in the file's order and the banner counts what the file
    lists.  The certificates have the ids 1 to the number of entries; an entry
    that no later entry for the same name repeats is the one its name has; and
    whatever handle the table gives a client for a server name, it was set by
    an entry whose name covers that server name, and the key it stands for is
    in the store and was loaded from that entry's own two files: a handshake
    never meets a handle without a key, nor another entry's key. *)
Theorem static_file_served path h store l :
  load path h store = Ok l ->
  exists text document, read_to_string path = Ok text /\ yaml_from_str text = Ok document /\
  let base := default (bstr ".") (path_parent path) in
  map backend_name (backends (ld_table l)) = map bs_name (doc_backends document) /\
  ld_summary l = MkSummary (length (doc_backends document)) (length (concat (map bs_endpoints (doc_backends document))))
    (length (doc_routes document)) (length (doc_tls document))
    (length (List.filter (fun r => bool_decide (is_Some (rs_mirror r))) (doc_routes document)))
    (bool_decide (is_Some (doc_default_backend document))) /\
  (forall id, is_Some (ld_certs l !! id) <-> 1 <= id <= Z.of_nat (length (doc_tls document))) /\
  (forall i entry slot, doc_tls document !! i = Some entry -> entry_slot entry = Some slot ->
    (forall j e, (i < j)%nat -> doc_tls document !! j = Some e -> entry_slot e <> Some slot) ->
    sni_at (tls (ld_table l)) slot = Some (MkCertifiedKeyHandle (Z.of_nat i + 1))) /\
  (forall name handle, resolve (tls (ld_table l)) name = Some handle ->
    exists i entry slot key, doc_tls document !! i = Some entry /\ entry_slot entry = Some slot /\ slot_covers slot name /\
      handle = MkCertifiedKeyHandle (Z.of_nat i + 1) /\ ld_certs l !! cert_id handle = Some key /\
      entry_key base entry = Ok key).
Proof.
  unfold load. destruct (read_to_string path) as [text|]; cbn [map_err mbind result_bind]; [|done].
  destruct (yaml_from_str text) as [d|] eqn:Hy; cbn [map_err mbind result_bind]; [|done]. intros Hb. exists text, d.
  split; [done|]. split; [done|]. cbv zeta. set (base := default _ _) in *. unfold build_static in Hb.
  destruct (load_backends _ _ _) as [[b1 s1]|] eqn:H1; cbn [mbind result_bind] in Hb; [|done].
  apply load_backends_ok in H1 as (Hn1 & Ht1 & C1).
  destruct (load_routes _ _ _) as [[b2 s2]|] eqn:H2; cbn [mbind result_bind] in Hb; [|done].
  apply load_routes_ok in H2 as (Hn2 & Ht2 & C2).
  destruct (load_tls _ _ _ _ _ _) as [[[b3 certs] s3]|] eqn:H3; cbn [mbind result_bind] in Hb; [|done].
  apply (load_tls_ok _ _ []) in H3 as (Hok & Hn3 & C3); [|rewrite Ht2, Ht1; apply tls_ok_nil]. cbn [app] in Hok.
  set (p := match doc_default_backend d with Some _ => _ | None => _ end) in Hb.
  assert (Hp : names p.1 = names b3 /\ builder_sni p.1 = builder_sni b3 /\
    p.2 = MkSummary (sum_backends s3) (sum_endpoints s3) (sum_routes s3) (sum_certificates s3) (sum_mirrors s3)
      (bool_decide (is_Some (doc_default_backend d)))).
  { unfold p. destruct (doc_default_backend d); cbn; [done|]. split_and!; [done|done|].
    destruct C1 as (_ & _ & _ & _ & _ & D1), C2 as (_ & _ & _ & _ & _ & D2), C3 as (_ & _ & _ & _ & _ & D3).
    destruct s3. cbn in *. f_equal. congruence. }
  destruct p as [b4 s4]. cbn [fst snd] in Hp. destruct Hp as (Hn4 & Ht4 & ->).
  destruct (build b4 h store) as [[[t h'] store']|] eqn:Hbuild; cbn [map_err mbind result_bind] in Hb; [|done].
  injection Hb as <-. cbn [ld_table ld_summary ld_certs].
  apply build_phases in Hbuild as (buckets & _ & _ & _ & _ & Hbk & _ & _ & Htls).
  change (MkSniMap _ _ _) with (builder_sni b4) in Htls. rewrite Ht4 in Htls.
  split; [|split; [|split; [apply Hok|split]]].
  - rewrite Hbk, built_names. change (names b4 = map bs_name (doc_backends d)). by rewrite Hn4, Hn3, Hn2, Hn1.
  - f_equal; cbn in *; lia.
  - rewrite Htls. apply Hok.
  - intros name handle (slot & Hat & Hcov)%resolve_at. rewrite Htls in Hat.
    destruct (tls_named _ _ _ _ Hok _ _ Hat) as (i & entry & Hi & Hs & ->).
    destruct (tls_keys _ _ _ _ Hok i entry Hi) as (key & Hkey & He). by exists i, entry, slot, key.
Qed.
End static_properties.

(** ** Witness *)

Definition demo_document : Document :=
  MkDocument (Some (bstr "app"))
    [MkBackendSpec (bstr "app") Spec_RoundRobin Spec_Http [Address (bstr "127.0.0.1:9001"); Weighted (bstr "[::1]:9002") 3]]
    [MkRouteSpec (Some (bstr "shop.example.com")) (bstr "/") Spec_Prefix (bstr "app") None None]
    [MkTlsSpec None (bstr "/a.pem") (bstr "/a.pem"); MkTlsSpec (Some (bstr "Shop.Example.com")) (bstr "b.pem") (bstr "b.pem")].
(** Every file holds its own path. *)
Definition demo_files : StaticFiles := {|
  FileError := unit; YamlError := unit;
  is_absolute := starts_with (bstr "/");
  path_join base path := base ++ bstr "/" ++ path;
  path_parent _ := Some (bstr "/etc");
  read_to_string _ := Ok [];
  open_file path := Ok path;
  yaml_from_str _ := Ok demo_document;
|}.

Section demo.
#[local] Existing Instance literal_engine.
#[local] Existing Instance listed_order.
#[local] Existing Instance toy_rustls.
#[local] Existing Instance demo_files.

Definition demo_load : result ConfigError Loaded := load (bstr "/etc/routes.yaml") heap_empty [].

Lemma static_file_served_witness :
  exists l, demo_load = Ok l /\
    resolve (tls (ld_table l)) (bstr "SHOP.example.com") = Some (MkCertifiedKeyHandle 2) /\
    ld_certs l !! 2 = Some (bstr "/etc/b.pem") /\ sum_endpoints (ld_summary l) = 2%nat.
Proof.
  assert (Hok : match demo_load with Ok _ => true | Err _ => false end = true) by (vm_compute; reflexivity).
  destruct demo_load as [l|] eqn:Hl; [clear Hok|discriminate].
  exists l. split; [done|].
  destruct (static_file_served _ _ _ _ Hl) as (text & d & _ & Hd & _ & Hsum & _ & Hlast & Hres).
  injection Hd as <-. cbv zeta in Hres.
  assert (Hr : resolve (tls (ld_table l)) (bstr "SHOP.example.com") = Some (MkCertifiedKeyHandle 2)).
  { assert (Hat : sni_at (tls (ld_table l)) (Slot_Exact (bstr "shop.example.com")) = Some (MkCertifiedKeyHandle 2)).
    { apply (Hlast 1%nat (MkTlsSpec (Some (bstr "Shop.Example.com")) (bstr "b.pem") (bstr "b.pem"))); [done|by vm_compute|].
      intros [|[|j]] e Hj He; [lia|lia|done]. }
    cbn [sni_at] in Hat. unfold resolve. replace (scan (bstr "SHOP.example.com")) with (Fold (bstr "SHOP.example.com")) by (by vm_compute).
    replace (fold_lower (bstr "SHOP.example.com")) with (Some (bstr "shop.example.com")) by (by vm_compute).
    cbn [mbind option_bind]. unfold resolve_normalized. by rewrite Hat. }
  split; [done|]. destruct (Hres _ _ Hr) as (i & entry & slot & key & Hi & _ & _ & [= Hid] & Hk & He).
  assert (i = 1%nat) as -> by lia. injection Hi as <-. vm_compute in He. injection He as <-. split; [done|]. by rewrite Hsum.
Defined.
End demo.
