(* ===== verification/Console.v ===== *)
(** The session of the dashboard: [crates/ramjet-top/src/app.rs], the
    generation types of [contract.rs], [Snapshot] of [client.rs], and the
    filter of [model.rs].

    [on_key], [record_poll] and [record_failure] are the operations of [App];
    [app_step] is one of them.  An [Instant] and a [Duration] are numbers of
    nanoseconds.  The selection states of ratatui are the class [Selection];
    the case mapping of the filter, whose Unicode tables are the standard
    library's, is the class [CaseMap].  A character is its UTF-8 encoding. *)

From Stdlib Require Import SpecFloat.
From S2P Require Import Prelude Order NetText F64 Metrics Scrape Rates Json Admin.

(** ** The generations response *)

Definition DiffItem : Type := Value.
Record GenerationDiff := MkGenerationDiff {
  gd_summary : str;
  gd_routes_added : list DiffItem;
  gd_routes_removed : list DiffItem;
  gd_backends_changed : list DiffItem;
  gd_certs_rotated : list DiffItem;
  gd_hosts_added : list DiffItem;
  gd_hosts_removed : list DiffItem;
}.
Definition categories (d : GenerationDiff) : list (str * list DiffItem) :=
  [(bstr "routes added", gd_routes_added d); (bstr "routes removed", gd_routes_removed d);
   (bstr "backends changed", gd_backends_changed d); (bstr "certs rotated", gd_certs_rotated d);
   (bstr "hosts added", gd_hosts_added d); (bstr "hosts removed", gd_hosts_removed d)].
Definition generation_diff_is_empty (d : GenerationDiff) : bool :=
  forallb (fun '(_, items) => bool_decide (length items = 0%nat)) (categories d).

Record GenerationEntry := MkGenerationEntry {
  ge_generation : u64;
  ge_applied_at : str;
  ge_published : bool;
  ge_digest : str;
  ge_routes : u64;
  ge_hosts : u64;
  ge_certs : u64;
  ge_diff : GenerationDiff;
}.
(** Where the character with number [n] starts. *)
Fixpoint char_index (n : nat) (i : nat) (s : str) : option nat :=
  match s with
  | [] => None
  | b :: s =>
      if is_cont b then char_index n (S i) s
      else match n with O => Some i | S n => char_index n (S i) s end
  end.
Definition short_digest (e : GenerationEntry) : str :=
  let end_ := default (length (ge_digest e)) (char_index 12 0 (ge_digest e)) in
  default (ge_digest e) (str_get_to (ge_digest e) end_).

Record GenerationsResponse := MkGenerationsResponse {
  gr_version : u64;
  gr_pinned : option u64;
  gr_serving : u64;
  gr_generations : list GenerationEntry;
}.

(** ** A poll *)

Record Snapshot := MkSnapshot {
  sn_url : str;
  sn_generations : GenerationsResponse;
  sn_routes : RoutesResponse;
  sn_metrics : MetricsSnapshot;
}.
Definition snapshot_pinned (s : Snapshot) : option u64 :=
  match gr_pinned (sn_generations s) with Some g => Some g | None => ms_pinned (sn_metrics s) end.
Definition snapshot_serving (s : Snapshot) : u64 :=
  if negb (gr_serving (sn_generations s) =? 0) then gr_serving (sn_generations s)
  else if negb (rr_generation (sn_routes s) =? 0) then rr_generation (sn_routes s)
  else default 0 (ms_generation (sn_metrics s)).

(** ** The state *)

Definition HISTORY_LENGTH : nat := 60.
Inductive View := View_Routes | View_Generations.
#[export] Instance View_eq_dec : EqDecision View.
Proof. solve_decision. Defined.
Definition toggled (v : View) : View := match v with View_Routes => View_Generations | View_Generations => View_Routes end.
Definition title (v : View) : str := match v with View_Routes => bstr "routes" | View_Generations => bstr "generations" end.

Inductive Connection :=
| Connecting
| Live
| Lost (error : str) (failures : u32) (last_success : option Z).
Definition is_lost (c : Connection) : bool := match c with Lost _ _ _ => true | _ => false end.

Inductive Command := Quit_ | Refresh | PinTo (generation : u64) | Release.
Inductive Pending := Pending_Pin (generation : u64) | Pending_Unpin.
Definition prompt (p : Pending) : str :=
  match p with
  | Pending_Pin g => bstr "PIN traffic to generation " ++ to_string g ++
      bstr "? This freezes the data plane until released.  [y/N]"
  | Pending_Unpin => bstr "RELEASE the pin and resume the newest published generation?  [y/N]"
  end.
Definition command (p : Pending) : Command :=
  match p with Pending_Pin g => PinTo g | Pending_Unpin => Release end.

Record Notice := MkNotice { nt_text : str; nt_is_error : bool; nt_expires_at : Z }.

(** [ratatui]'s [TableState] and [ListState]. *)
Class Selection (S : Type) := {
  sel_default : S;
  selected_of : S -> option nat;
  select_in : option nat -> S -> S;
  selected_default : selected_of sel_default = None;
  selected_select : forall i s, selected_of (select_in i s) = i;
}.
(** [str::to_lowercase]. *)
Class CaseMap := to_lowercase : str -> str.

Definition Sort_default : Sort := By_rps.
Definition sort_eqb (a b : Sort) : bool := sort_key a =? sort_key b.

Section console.
Context {TableState ListState : Type} `{!Selection TableState, !Selection ListState, CaseMap}.

Record App := MkApp {
  app_url : str;
  app_read_only : bool;
  app_interval : Z;
  app_started_at : Z;
  app_sort : Sort;
  app_descending : bool;
  app_filter : list str;
  app_editing_filter : bool;
  app_view : View;
  app_expanded : bool;
  app_snapshot : option Snapshot;
  app_rows : list RouteRow;
  app_global : GlobalStats;
  app_rps_history : list u64;
  app_connection : Connection;
  app_routes_state : TableState;
  app_generations_state : ListState;
  app_pending : option Pending;
  app_notice : option Notice;
  app_should_quit : bool;
  app_baseline : option CounterBaseline;
  app_previous_metrics : option MetricsSnapshot;
  app_last_poll_at : option Z;
  app_last_success_at : option Z;
}.
Definition App_eta (a : App) : App :=
  MkApp (app_url a) (app_read_only a) (app_interval a) (app_started_at a) (app_sort a) (app_descending a)
    (app_filter a) (app_editing_filter a) (app_view a) (app_expanded a) (app_snapshot a) (app_rows a) (app_global a)
    (app_rps_history a) (app_connection a) (app_routes_state a) (app_generations_state a) (app_pending a)
    (app_notice a) (app_should_quit a) (app_baseline a) (app_previous_metrics a) (app_last_poll_at a) (app_last_success_at a).
#[export] Instance set_app_sort : Setter app_sort := ltac:(derive_setter App_eta).
#[export] Instance set_app_descending : Setter app_descending := ltac:(derive_setter App_eta).
#[export] Instance set_app_filter : Setter app_filter := ltac:(derive_setter App_eta).
#[export] Instance set_app_editing_filter : Setter app_editing_filter := ltac:(derive_setter App_eta).
#[export] Instance set_app_view : Setter app_view := ltac:(derive_setter App_eta).
#[export] Instance set_app_expanded : Setter app_expanded := ltac:(derive_setter App_eta).
#[export] Instance set_app_snapshot : Setter app_snapshot := ltac:(derive_setter App_eta).
#[export] Instance set_app_rows : Setter app_rows := ltac:(derive_setter App_eta).
#[export] Instance set_app_global : Setter app_global := ltac:(derive_setter App_eta).
#[export] Instance set_app_rps_history : Setter app_rps_history := ltac:(derive_setter App_eta).
#[export] Instance set_app_connection : Setter app_connection := ltac:(derive_setter App_eta).
#[export] Instance set_app_routes_state : Setter app_routes_state := ltac:(derive_setter App_eta).
#[export] Instance set_app_generations_state : Setter app_generations_state := ltac:(derive_setter App_eta).
#[export] Instance set_app_pending : Setter app_pending := ltac:(derive_setter App_eta).
#[export] Instance set_app_notice : Setter app_notice := ltac:(derive_setter App_eta).
#[export] Instance set_app_should_quit : Setter app_should_quit := ltac:(derive_setter App_eta).
#[export] Instance set_app_baseline : Setter app_baseline := ltac:(derive_setter App_eta).
#[export] Instance set_app_previous_metrics : Setter app_previous_metrics := ltac:(derive_setter App_eta).
#[export] Instance set_app_last_poll_at : Setter app_last_poll_at := ltac:(derive_setter App_eta).
#[export] Instance set_app_last_success_at : Setter app_last_success_at := ltac:(derive_setter App_eta).

Definition App_new (url : str) (interval : Z) (read_only : bool) (now : Z) : App := {|
  app_url := url; app_read_only := read_only; app_interval := interval; app_started_at := now;
  app_sort := Sort_default; app_descending := defaults_to_descending Sort_default;
  app_filter := []; app_editing_filter := false; app_view := View_Routes; app_expanded := false;
  app_snapshot := None; app_rows := []; app_global := MkGlobalStats None None None None; app_rps_history := [];
  app_connection := Connecting; app_routes_state := sel_default; app_generations_state := sel_default;
  app_pending := None; app_notice := None; app_should_quit := false;
  app_baseline := None; app_previous_metrics := None; app_last_poll_at := None; app_last_success_at := None;
|}.

(** [saturating_duration_since]. *)
Definition since (now then_ : Z) : Z := Z.max 0 (now - then_).
(** [x.round().max(0.0) as u64]. *)
Definition round_count (x : f64) : u64 :=
  match x with
  | S754_finite false m e =>
      Z.min u64_max (if 0 <=? e then Zpos m * 2 ^ e else (2 * Zpos m + 2 ^ (- e)) / 2 ^ (1 - e))
  | S754_infinity false => u64_max
  | _ => 0
  end.

(** ** The rows on the screen *)

Definition haystack (r : RouteRow) : str :=
  row_host r ++ [SP] ++ row_path r ++ [SP] ++ row_backend r ++ [SP] ++ path_type_as_str (row_path_type r).
Fixpoint contains (needle s : str) : bool :=
  starts_with needle s || match s with [] => false | _ :: s => contains needle s end.
Definition row_matches (r : RouteRow) (needle : str) : bool :=
  if bool_decide (needle = []) then true else contains (to_lowercase needle) (to_lowercase (haystack r)).
Definition visible_rows (a : App) : list RouteRow :=
  List.filter (fun r => row_matches r (concat (app_filter a))) (app_rows a).
Definition generation_count (a : App) : nat :=
  match app_snapshot a with Some s => length (gr_generations (sn_generations s)) | None => 0 end.
Definition selected_generation (a : App) : option GenerationEntry :=
  s ← app_snapshot a; i ← selected_of (app_generations_state a); gr_generations (sn_generations s) !! i.

Definition clamp_state {S : Type} `{Selection S} (len : nat) (s : S) : S :=
  match selected_of s with
  | Some i => if (len =? 0)%nat then select_in None s else if (len <=? i)%nat then select_in (Some (len - 1)%nat) s else s
  | None => s
  end.
Definition clamp_selection (a : App) : App :=
  let a := a <| app_routes_state := clamp_state (length (visible_rows a)) (app_routes_state a) |> in
  a <| app_generations_state := clamp_state (generation_count a) (app_generations_state a) |>.

Definition current_len (a : App) : nat :=
  match app_view a with View_Routes => length (visible_rows a) | View_Generations => generation_count a end.
Definition select (index : option nat) (a : App) : App :=
  match app_view a with
  | View_Routes => a <| app_routes_state := select_in index (app_routes_state a) |>
  | View_Generations => a <| app_generations_state := select_in index (app_generations_state a) |>
  end.
Definition selected (a : App) : option nat :=
  match app_view a with
  | View_Routes => selected_of (app_routes_state a)
  | View_Generations => selected_of (app_generations_state a)
  end.
Definition move_selection (delta : Z) (a : App) : App :=
  let len := current_len a in
  if (len =? 0)%nat then select None a
  else
    let last := Z.of_nat len - 1 in
    let next :=
      match selected a with
      | None => if 0 <=? delta then 0 else last
      | Some current => Z.max 0 (Z.min last (Z.of_nat current + delta))
      end in
    select (Some (Z.to_nat next)) a.
Definition select_first (a : App) : App := select (if (0 <? current_len a)%nat then Some 0%nat else None) a.
Definition select_last (a : App) : App :=
  select (if (0 <? current_len a)%nat then Some (current_len a - 1)%nat else None) a.
Definition apply_sort (sort : Sort) (a : App) : App :=
  let a :=
    if sort_eqb (app_sort a) sort then a <| app_descending := negb (app_descending a) |>
    else a <| app_sort := sort |> <| app_descending := defaults_to_descending sort |> in
  clamp_selection (a <| app_rows := sort_rows (app_rows a) (app_sort a) (app_descending a) |>).

(** ** Polls and time *)

Definition record_poll (s : Snapshot) (now : Z) (a : App) : App :=
  let elapsed := default 0 ((fun then_ => since now then_) <$> app_last_poll_at a) in
  let rows := sort_rows (compute_rows (sn_routes s) (app_baseline a) elapsed) (app_sort a) (app_descending a) in
  let global := compute_global (sn_metrics s) (app_previous_metrics a) elapsed in
  let history :=
    match gs_rps global with
    | Some rps =>
        let kept := if (length (app_rps_history a) =? HISTORY_LENGTH)%nat then tail (app_rps_history a) else app_rps_history a in
        kept ++ [round_count rps]
    | None => app_rps_history a
    end in
  clamp_selection
    (a <| app_rows := rows |> <| app_global := global |> <| app_rps_history := history |>
       <| app_baseline := Some (baseline_of (sn_routes s)) |> <| app_previous_metrics := Some (sn_metrics s) |>
       <| app_last_poll_at := Some now |> <| app_last_success_at := Some now |>
       <| app_snapshot := Some s |> <| app_connection := Live |>).

Definition record_failure (error : str) (a : App) : App :=
  let failures := match app_connection a with Lost _ n _ => sat_add u32_max n 1 | _ => 1 end in
  a <| app_connection := Lost error failures (app_last_success_at a) |>.
Definition stale_for (now : Z) (a : App) : option Z :=
  match app_connection a with
  | Lost _ _ last_success => Some (match last_success with Some t => since now t | None => 0 end)
  | _ => None
  end.
Definition uptime (now : Z) (a : App) : Z := since now (app_started_at a).

Definition notify (text : str) (is_error : bool) (now : Z) (a : App) : App :=
  a <| app_notice := Some (MkNotice text is_error (now + 5 * 1000000000)) |>.
Definition expire_notice (now : Z) (a : App) : App :=
  match app_notice a with
  | Some n => if nt_expires_at n <=? now then a <| app_notice := None |> else a
  | None => a
  end.
Definition current_notice (a : App) : option Notice := app_notice a.

(** ** Keys *)

Inductive Key :=
| Char (c : str) | Backspace | Enter | Escape | Tab | Up | Down | PageUp | PageDown | Home | End_ | CtrlC.

Definition is_char (c : u8) (k : Key) : bool := match k with Char s => bool_decide (s = [c]) | _ => false end.

Definition on_confirmation (k : Key) (p : Pending) (now : Z) (a : App) : App * option Command :=
  let a := a <| app_pending := None |> in
  if is_char (chr "y") k || is_char (chr "Y") k then (a, Some (command p))
  else (notify (bstr "cancelled") false now a, None).

Definition on_filter_key (k : Key) (a : App) : App :=
  clamp_selection
    match k with
    | Char c => a <| app_filter := app_filter a ++ [c] |>
    | Backspace => a <| app_filter := removelast (app_filter a) |>
    | Enter => a <| app_editing_filter := false |>
    | Escape => (a <| app_filter := [] |>) <| app_editing_filter := false |>
    | _ => a
    end.

Definition request_pin (now : Z) (a : App) : App :=
  if app_read_only a then notify (bstr "read-only: pin refused") true now a
  else if negb (bool_decide (app_view a = View_Generations)) then
    notify (bstr "pin: switch to the generations panel (Tab)") true now a
  else
    match selected_generation a with
    | Some entry => a <| app_pending := Some (Pending_Pin (ge_generation entry)) |>
    | None => notify (bstr "pin: select a generation first") true now a
    end.
Definition request_unpin (now : Z) (a : App) : App :=
  if app_read_only a then notify (bstr "read-only: unpin refused") true now a
  else
    match s ← app_snapshot a; snapshot_pinned s with
    | None => notify (bstr "nothing is pinned") true now a
    | Some _ => a <| app_pending := Some Pending_Unpin |>
    end.

(** The sort column a key stands for, while the routes are in front. *)
Definition sort_of_key (k : Key) (a : App) : option Sort :=
  match k, app_view a with Char [c], View_Routes => sort_from_key c | _, _ => None end.

Definition on_normal_key (k : Key) (now : Z) (a : App) : App * option Command :=
  match sort_of_key k a with
  | Some sort => (apply_sort sort a, None)
  | None =>
      match k with
      | Escape =>
          (if app_expanded a then a <| app_expanded := false |>
           else if negb (bool_decide (app_filter a = [])) then clamp_selection (a <| app_filter := [] |>)
           else select None a, None)
      | Tab => (a <| app_view := toggled (app_view a) |> <| app_expanded := false |>, None)
      | Up => (move_selection (-1) a, None)
      | Down => (move_selection 1 a, None)
      | PageUp => (move_selection (-10) a, None)
      | PageDown => (move_selection 10 a, None)
      | Home => (select_first a, None)
      | End_ => (select_last a, None)
      | Enter =>
          match app_view a with
          | View_Generations =>
              let a :=
                match selected_of (app_generations_state a) with None => select (Some 0%nat) a | Some _ => a end in
              (a <| app_expanded := negb (app_expanded a) |>, None)
          | View_Routes => (a, None)
          end
      | Char [c] =>
          if c =? chr "q" then (a <| app_should_quit := true |>, Some Quit_)
          else if c =? chr "/" then (a <| app_editing_filter := true |>, None)
          else if c =? chr "k" then (move_selection (-1) a, None)
          else if c =? chr "j" then (move_selection 1 a, None)
          else if c =? chr "g" then (a, Some Refresh)
          else if c =? chr "p" then (request_pin now a, None)
          else if c =? chr "u" then (request_unpin now a, None)
          else (a, None)
      | _ => (a, None)
      end
  end.

Definition on_key (k : Key) (now : Z) (a : App) : App * option Command :=
  match k with
  | CtrlC => (a <| app_should_quit := true |>, Some Quit_)
  | _ =>
      match app_pending a with
      | Some p => on_confirmation k p now a
      | None => if app_editing_filter a then (on_filter_key k a, None) else on_normal_key k now a
      end
  end.

(** What happens in a session: something that is not a key, or a key; the event
    loop ends with [should_quit]. *)
Inductive quiet_step : App -> App -> Prop :=
| quiet_poll s now a : quiet_step a (record_poll s now a)
| quiet_failure error a : quiet_step a (record_failure error a)
| quiet_notify text is_error now a : quiet_step a (notify text is_error now a)
| quiet_expire now a : quiet_step a (expire_notice now a).
Inductive app_step : App -> App -> Prop :=
| step_quiet a b : app_should_quit a = false -> quiet_step a b -> app_step a b
| step_key k now a : app_should_quit a = false -> app_step a (on_key k now a).1.
End console.


(** ** The emergency brake *)

Section console_lemmas.
Context {TableState ListState : Type} `{!Selection TableState, !Selection ListState, CaseMap}.
Implicit Types (a b s : @App TableState ListState).

(** The parts that only a request and its confirmation change. *)
Definition brake a : bool * option Pending := (app_read_only a, app_pending a).

Lemma brake_select i a : brake (select i a) = brake a.
Proof. unfold select. by destruct (app_view a). Qed.
Lemma brake_move d a : brake (move_selection d a) = brake a.
Proof. unfold move_selection. destruct (_ =? _)%nat; apply brake_select. Qed.
Lemma brake_sort c a : brake (apply_sort c a) = brake a.
Proof. unfold apply_sort. by destruct (sort_eqb _ _). Qed.
Lemma brake_quiet a b : quiet_step a b -> brake b = brake a.
Proof. intros []; try done. unfold expire_notice. destruct (app_notice _) as [n|]; [|done]. by destruct (_ <=? _). Qed.
Lemma brake_quiet_run a b : rtc quiet_step a b -> brake b = brake a.
Proof. induction 1 as [|x y z Hs _ IH]; [done|]. by rewrite IH, (brake_quiet x y). Qed.
Lemma brake_filter k a : brake (on_filter_key k a) = brake a.
Proof. by destruct k. Qed.

(** The state a request was made in. *)
Definition asked_at (p : Pending) (a : @App TableState ListState) : Prop :=
  app_read_only a = false /\ app_pending a = None /\ app_editing_filter a = false /\
  match p with
  | Pending_Pin g => app_view a = View_Generations /\ exists e, selected_generation a = Some e /\ ge_generation e = g
  | Pending_Unpin => exists sn g, app_snapshot a = Some sn /\ snapshot_pinned sn = Some g
  end.
Definition request_key (p : Pending) : Key :=
  match p with Pending_Pin _ => Char (bstr "p") | Pending_Unpin => Char (bstr "u") end.

Lemma request_pin_brake now a :
  brake (request_pin now a) = brake a \/
  exists e, request_pin now a = a <| app_pending := Some (Pending_Pin (ge_generation e)) |> /\ app_read_only a = false /\
    app_view a = View_Generations /\ selected_generation a = Some e.
Proof.
  unfold request_pin. destruct (app_read_only a); [by left|]. case_bool_decide; cbn [negb]; [|by left].
  destruct (selected_generation a) as [e|]; [right; by exists e|by left].
Qed.
Lemma request_unpin_brake now a :
  brake (request_unpin now a) = brake a \/
  exists sn g, request_unpin now a = a <| app_pending := Some Pending_Unpin |> /\ app_read_only a = false /\
    app_snapshot a = Some sn /\ snapshot_pinned sn = Some g.
Proof.
  unfold request_unpin. destruct (app_read_only a); [by left|]. destruct (app_snapshot a) as [sn|]; cbn; [|by left].
  destruct (snapshot_pinned sn) as [g|] eqn:Hg; [right; by exists sn, g|by left].
Qed.

(** What a key can do to the brake outside a confirmation and the filter. *)
Lemma normal_key_cases k now a b c :
  on_normal_key k now a = (b, c) ->
  (brake b = brake a /\ (c = None \/ c = Some Quit_ \/ c = Some Refresh)) \/
  (c = None /\ exists p, k = request_key p /\ b = a <| app_pending := Some p |> /\ app_read_only a = false /\
    match p with
    | Pending_Pin g => app_view a = View_Generations /\ exists e, selected_generation a = Some e /\ ge_generation e = g
    | Pending_Unpin => exists sn g, app_snapshot a = Some sn /\ snapshot_pinned sn = Some g
    end).
Proof.
  unfold on_normal_key. destruct (sort_of_key k a); [intros [= <- <-]; left; split; [apply brake_sort|auto]|].
  destruct k as [[|x [|y l]]| | | | | | | | | | |]; try (intros [= <- <-]; left; split; [done|auto]; fail);
    try (intros [= <- <-]; left; split; [apply brake_move || apply brake_select|by auto]; fail).
  - destruct (x =? chr "q"); [intros [= <- <-]; left; split; [done|auto]|].
    destruct (x =? chr "/"); [intros [= <- <-]; left; split; [done|auto]|].
    destruct (x =? chr "k"); [intros [= <- <-]; left; split; [apply brake_move|auto]|].
    destruct (x =? chr "j"); [intros [= <- <-]; left; split; [apply brake_move|auto]|].
    destruct (x =? chr "g"); [intros [= <- <-]; left; split; [done|auto]|].
    destruct (x =? chr "p") eqn:Ep; [|destruct (x =? chr "u") eqn:Eu; [|intros [= <- <-]; left; split; [done|auto]]];
      intros [= <- <-].
    + apply Z.eqb_eq in Ep as ->. destruct (request_pin_brake now a) as [Hb|(e & -> & Hr & Hv & Hs)]; [left; auto|].
      right. split; [done|]. exists (Pending_Pin (ge_generation e)). split_and!; [done|done|done|done|by exists e].
    + apply Z.eqb_eq in Eu as ->. destruct (request_unpin_brake now a) as [Hb|(sn & g & -> & Hr & Hs & Hg)]; [left; auto|].
      right. split; [done|]. exists Pending_Unpin. split_and!; [done|done|done|by exists sn, g].
  - destruct (app_view a) eqn:Hv; intros [= <- <-]; left; (split; [|by auto]); [done|].
    destruct (selected_of _); [done|apply (brake_select (Some 0%nat))].
  - intros [= <- <-]. left. split; [|by auto]. destruct (app_expanded a); [done|].
    destruct (negb _); [done|apply brake_select].
Qed.

(** A key, in any state. *)
Lemma key_cases k now a b c :
  on_key k now a = (b, c) ->
  (exists p, app_pending a = Some p /\ app_read_only b = app_read_only a /\ app_pending b = None /\
    c = (if is_char (chr "y") k || is_char (chr "Y") k then Some (command p) else None)) \/
  (brake b = brake a /\ (c = None \/ c = Some Quit_ \/ c = Some Refresh)) \/
  (c = None /\ exists p, k = request_key p /\ asked_at p a /\ b = a <| app_pending := Some p |>).
Proof.
  unfold on_key. destruct k as [ch| | | | | | | | | | |];
    try (destruct (app_pending a) as [p|] eqn:Hp;
      [left; exists p; unfold on_confirmation in *; destruct (_ || _); simplify_eq/=; done|];
      destruct (app_editing_filter a) eqn:He; [intros [= <- <-]; right; left; split; [apply brake_filter|auto]|];
      intros [Hb|(Hc & p & Hk & Hb & Hr & Hs)]%normal_key_cases; [by auto|]; right; right; split; [done|];
      exists p; split; [done|]; split; [by split_and!|done]).
  intros [= <- <-]. right. left. split; [done|auto].
Qed.
End console_lemmas.

Section console_properties.
Context {TableState ListState : Type} `{!Selection TableState, !Selection ListState, CaseMap}.
Implicit Types (a b s : @App TableState ListState).

(** A session from its start. *)
Definition session (read_only : bool) (s : @App TableState ListState) : Prop :=
  exists url interval t0, rtc app_step (App_new url interval read_only t0) s.

(** A request that still waits: made in a state of the session, and since then
    no key was pressed. *)
Definition awaits (read_only : bool) (p : Pending) (s : @App TableState ListState) : Prop :=
  exists a now, session read_only a /\ asked_at p a /\ rtc quiet_step (on_key (request_key p) now a).1 s.

Lemma session_step ro a b : session ro a -> app_step a b -> session ro b.
Proof. intros (u & i & t & Hr) Hs. exists u, i, t. by eapply rtc_r. Qed.

Lemma session_inv ro s :
  session ro s -> app_read_only s = ro /\ (app_should_quit s = false -> forall p, app_pending s = Some p -> awaits ro p s).
Proof.
  intros (u & i & t & Hr). revert s Hr. refine (rtc_ind_r _ _ _ _); [done|].
  intros a b Hr Hs [Hro Hp]. assert (Ha : session ro a) by (by exists u, i, t). destruct Hs as [a b Hq Hquiet|k now a Hq].
  - apply brake_quiet in Hquiet as Hb. injection Hb as H1 H2. split; [by rewrite H1|]. rewrite H2.
    intros _ p (a0 & now & Hs & Hk & Hrun)%Hp; [|done]. exists a0, now. split_and!; [done|done|by eapply rtc_r].
  - destruct (on_key k now a) as [b c] eqn:Hk. cbn [fst]. specialize (Hp Hq).
    apply key_cases in Hk as Hc. destruct Hc as [(p & _ & H1 & H2 & _)|[[Hb Hc]|(Hc & p & -> & Hask & ->)]].
    + rewrite H1, H2. by split.
    + injection Hb as H1 H2. rewrite H1, H2. split; [done|]. intros Hb p Hpend.
      destruct k; try (revert Hk; unfold on_key; rewrite Hpend; unfold on_confirmation;
        destruct (_ || _); intros [= <- <-]; cbn in H2; congruence).
      injection Hk as <- <-. done.
    + destruct Hask as (H1 & H2 & H3 & H4). split; [done|]. intros _ p' [= <-]. exists a, now. rewrite Hk.
      split_and!; [done|done|apply rtc_refl].
Qed.

(** C29: The emergency brake is pulled on purpose.  In every session, whatever is
    polled and typed, a key makes the dashboard pin or release only if it is a
    y, the session is not read-only, and a confirmation for exactly that action
    was on screen; the confirmation was put there by a p pressed in the
    generations panel with that generation selected, or by a u pressed while
    the replica reported a pin, and no other key was pressed since.  Any other
    key takes the confirmation away and does nothing, and in a read-only
    session nothing is ever waiting. *)
Theorem brake_is_deliberate ro s k now s' c :
  session ro s -> app_should_quit s = false -> on_key k now s = (s', c) ->
  (forall cmd, c = Some cmd -> cmd <> Quit_ -> cmd <> Refresh ->
    exists p, cmd = command p /\ app_pending s = Some p /\ awaits ro p s /\ ro = false /\
      (k = Char (bstr "y") \/ k = Char (bstr "Y")) /\ app_pending s' = None) /\
  (is_Some (app_pending s) -> k <> CtrlC -> app_pending s' = None /\
    (k <> Char (bstr "y") -> k <> Char (bstr "Y") -> c = None)) /\
  (ro = true -> app_pending s = None).
Proof.
  intros Hs Hq Hk. destruct (session_inv ro s Hs) as [Hro Hp]. specialize (Hp Hq).
  assert (Hw : forall p, awaits ro p s -> ro = false).
  { intros p (a & ? & Ha & (Hr & _) & _). destruct (session_inv ro a Ha) as [<- _]. done. }
  assert (Hy : is_char (chr "y") k || is_char (chr "Y") k = true <-> k = Char (bstr "y") \/ k = Char (bstr "Y")).
  { destruct k; cbn; try (split; [done|by intros []]). rewrite orb_true_iff, !bool_decide_eq_true. naive_solver. }
  split_and!.
  - intros cmd -> Hn1 Hn2. apply key_cases in Hk as [(p & Hpend & _ & H2 & Hc)|[[_ Hc]|[Hc _]]]; [|naive_solver|done].
    destruct (_ || _); [|done]. injection Hc as ->. exists p. split_and!; [done|done|by apply Hp|by eapply Hw, Hp|by apply Hy|done].
  - intros [p Hpend] Hn. assert (Ho : on_confirmation k p now s = (s', c)).
    { destruct k; try done; unfold on_key in Hk; by rewrite Hpend in Hk. }
    unfold on_confirmation in Ho. destruct (_ || _) eqn:E; injection Ho as <- <-; (split; [done|]); [|done].
    intros H1 H2. by destruct (proj1 Hy eq_refl).
  - intros ->. destruct (app_pending s) as [p|]; [|done]. by specialize (Hw p (Hp p eq_refl)).
Qed.
End console_properties.

(** ** Witness *)

Section demo.
#[local] Instance option_selection : Selection (option nat) := {|
  sel_default := None; selected_of s := s; select_in i _ := i;
  selected_default := eq_refl; selected_select _ _ := eq_refl;
|}.
#[local] Instance ascii_lower : CaseMap := lower.

Definition demo_entry (g : u64) : GenerationEntry :=
  MkGenerationEntry g [] true [] 0 0 0 (MkGenerationDiff [] [] [] [] [] [] []).
Definition demo_snapshot : Snapshot :=
  MkSnapshot [] (MkGenerationsResponse 1 None 3 [demo_entry 3; demo_entry 2; demo_entry 1]) (MkRoutesResponse 1 3 [])
    MetricsSnapshot_default.
Definition press (k : Key) (s : @App (option nat) (option nat)) : App := (on_key k 0 s).1.
Definition demo_asked : App :=
  press (Char (bstr "p")) (press Down (press Down (press Tab (record_poll demo_snapshot 0 (App_new [] 1 false 0))))).
Definition demo_waiting : App := record_poll demo_snapshot 7 demo_asked.

Lemma session_press ro k a : session ro a -> app_should_quit a = false -> session ro (press k a).
Proof. intros Ha Hq. eapply session_step; [exact Ha|]. by apply step_key. Qed.
Lemma session_poll ro sn now (a : @App (option nat) (option nat)) :
  session ro a -> app_should_quit a = false -> session ro (record_poll sn now a).
Proof. intros Ha Hq. eapply session_step; [exact Ha|]. apply step_quiet; [done|]. apply quiet_poll. Qed.
Lemma demo_session : session false demo_waiting.
Proof.
  apply session_poll; [|by vm_compute]. do 4 (apply session_press; [|by vm_compute]).
  apply session_poll; [|done]. exists [], 1, 0. apply rtc_refl.
Qed.

Lemma brake_is_deliberate_witness :
  exists s', on_key (Char (bstr "y")) 9 demo_waiting = (s', Some (PinTo 2)) /\ awaits false (Pending_Pin 2) demo_waiting.
Proof.
  eexists. split; [reflexivity|].
  destruct (brake_is_deliberate false demo_waiting (Char (bstr "y")) 9 _ _ demo_session eq_refl eq_refl) as [Hc _].
  destruct (Hc (PinTo 2) eq_refl ltac:(discriminate) ltac:(discriminate)) as (p & Hp & Hpend & Haw & _).
  injection Hpend as <-. exact Haw.
Defined.
End demo.

(** A generation that only changes a mirror has nothing to expand: the
    categories do not name the two lists of mirrors the replica sends. *)
Example mirror_changes_not_listed summary :
  generation_diff_is_empty (MkGenerationDiff summary [] [] [] [] [] []) = true.
Proof. reflexivity. Qed.
