(* ===== verification/TopFlags.v ===== *)
(** The dashboard's command line: [crates/ramjet-top/src/args.rs].

    A [Duration] is a number of nanoseconds; the help text is not modelled. *)

From Stdlib Require Import SpecFloat.
From S2P Require Import Prelude NetText F64.

Definition DEFAULT_ADMIN_URL : str := bstr "http://127.0.0.1:10254".
Definition millis : Z := 1000000.
Definition DEFAULT_INTERVAL : Z := 1000 * millis.
Definition DEFAULT_TIMEOUT : Z := 3000 * millis.
Definition MIN_INTERVAL : Z := 100 * millis.

Inductive ArgError :=
| Unknown (argument : str)
| MissingValue (option : str)
| Unexpected (argument : str)
| NotUtf8 (argument : bytes)
| BadValue (option value kind : str)
| OutOfRange (message : str).

Record Options := MkOptions {
  opt_url : str;
  opt_interval : Z;
  opt_timeout : Z;
  opt_once : bool;
  opt_json : bool;
  opt_read_only : bool;
  opt_token_file : option str;
}.
Definition Options_eta (o : Options) : Options :=
  MkOptions (opt_url o) (opt_interval o) (opt_timeout o) (opt_once o) (opt_json o) (opt_read_only o) (opt_token_file o).
#[export] Instance set_opt_url : Setter opt_url := ltac:(derive_setter Options_eta).
#[export] Instance set_opt_interval : Setter opt_interval := ltac:(derive_setter Options_eta).
#[export] Instance set_opt_timeout : Setter opt_timeout := ltac:(derive_setter Options_eta).
#[export] Instance set_opt_once : Setter opt_once := ltac:(derive_setter Options_eta).
#[export] Instance set_opt_json : Setter opt_json := ltac:(derive_setter Options_eta).
#[export] Instance set_opt_read_only : Setter opt_read_only := ltac:(derive_setter Options_eta).
#[export] Instance set_opt_token_file : Setter opt_token_file := ltac:(derive_setter Options_eta).
Definition Options_default : Options :=
  MkOptions DEFAULT_ADMIN_URL DEFAULT_INTERVAL DEFAULT_TIMEOUT false false false None.

Inductive Parsed := Run (options : Options) | Help | Version.

(** [str::strip_suffix]. *)
Definition strip_suffix (suffix s : str) : option str := @rev Z <$> strip_prefix (rev suffix) (rev s).

Definition parse_duration (option value : str) : result ArgError Z :=
  let bad := BadValue option value (bstr "duration") in
  let trimmed := str_trim value in
  let '(number, multiplier) :=
    match strip_suffix (bstr "ms") trimmed with
    | Some n => (n, 1)
    | None =>
        match strip_suffix (bstr "s") trimmed with
        | Some n => (n, 1000)
        | None => match strip_suffix (bstr "m") trimmed with Some n => (n, 60000) | None => (trimmed, 1000) end
        end
    end in
  parsed ← ok_or (parse_f64 (str_trim number)) bad;
  if negb (f64_is_finite parsed) || f64_gt (S754_zero false) parsed then Err bad
  else
    let ms := f64_mul parsed (f64_of_u64 multiplier) in
    if f64_gt ms (f64_of_u64 u64_max) then Err bad else Ok (f64_to_u64 ms * millis).

Definition apply_env (env : str -> option str) (o : Options) : Options :=
  match opt_token_file o, env (bstr "RAMJET_TOP_TOKEN_FILE") with
  | None, Some path => if bool_decide (str_trim path = []) then o else o <| opt_token_file := Some path |>
  | _, _ => o
  end.

(** The loop: [Ok (inr _)] is an early return. *)
Definition LoopState : Type := Options * option str * option str.
Definition set_value (f : str) (v : str) (st : LoopState) : result ArgError LoopState :=
  let '(o, positional, flag) := st in
  if bool_decide (f = bstr "--url") then Ok (o, positional, Some v)
  else if bool_decide (f = bstr "--interval") then
    d ← parse_duration (bstr "--interval") v; Ok (o <| opt_interval := d |>, positional, flag)
  else if bool_decide (f = bstr "--timeout") then
    d ← parse_duration (bstr "--timeout") v; Ok (o <| opt_timeout := d |>, positional, flag)
  else Ok (o <| opt_token_file := Some v |>, positional, flag).
Definition value_option (arg : str) : option str :=
  if bool_decide (arg = bstr "--url") then Some (bstr "--url")
  else if bool_decide (arg = bstr "-i") || bool_decide (arg = bstr "--interval") then Some (bstr "--interval")
  else if bool_decide (arg = bstr "--timeout") then Some (bstr "--timeout")
  else if bool_decide (arg = bstr "--token-file") then Some (bstr "--token-file")
  else None.

Fixpoint parse_loop (args : list bytes) (st : LoopState) : result ArgError (LoopState + Parsed) :=
  match args with
  | [] => Ok (inl st)
  | raw :: rest =>
      match from_utf8 raw with
      | None => Err (NotUtf8 raw)
      | Some arg =>
          let '(o, positional, flag) := st in
          if bool_decide (arg = bstr "-h") || bool_decide (arg = bstr "--help") then Ok (inr Help)
          else if bool_decide (arg = bstr "-V") || bool_decide (arg = bstr "--version") then Ok (inr Version)
          else if bool_decide (arg = bstr "--once") then parse_loop rest (o <| opt_once := true |>, positional, flag)
          else if bool_decide (arg = bstr "--json") then
            parse_loop rest (o <| opt_json := true |> <| opt_once := true |>, positional, flag)
          else if bool_decide (arg = bstr "--read-only") then
            parse_loop rest (o <| opt_read_only := true |>, positional, flag)
          else
            match value_option arg with
            | Some name =>
                match rest with
                | [] => Err (MissingValue name)
                | raw :: rest =>
                    match from_utf8 raw with
                    | None => Err (NotUtf8 raw)
                    | Some v => st ← set_value name v st; parse_loop rest st
                    end
                end
            | None =>
                if starts_with (bstr "-") arg && negb (bool_decide (arg = bstr "-")) then Err (Unknown arg)
                else
                  match positional with
                  | Some _ => Err (Unexpected arg)
                  | None => parse_loop rest (o, Some arg, flag)
                  end
            end
      end
  end.

Definition finish (st : LoopState) : result ArgError Parsed :=
  let '(o, positional, flag) := st in
  let o := match flag with Some url => o <| opt_url := url |>
           | None => match positional with Some url => o <| opt_url := url |> | None => o end end in
  if opt_interval o <? MIN_INTERVAL then
    Err (OutOfRange (bstr "--interval must be at least " ++ to_string (MIN_INTERVAL / millis) ++
      bstr "ms; polling faster is load on the admin port and unreadable on screen"))
  else if opt_timeout o =? 0 then Err (OutOfRange (bstr "--timeout must be greater than zero"))
  else Ok (Run o).

Definition parse (args : list bytes) : result ArgError Parsed :=
  st ← parse_loop args (Options_default, None, None);
  match st with inl st => finish st | inr parsed => Ok parsed end.

(** ** Examples and bounds *)

Example durations :
  (parse_duration [] (bstr "500ms"), parse_duration [] (bstr " 2s "), parse_duration [] (bstr "1m"), parse_duration [] (bstr "5"))
  = (Ok (500 * millis), Ok (2000 * millis), Ok (60000 * millis), Ok (5000 * millis)).
Proof. vm_compute. reflexivity. Qed.
Example flag_beats_positional :
  parse [bstr "--url"; bstr "a"; bstr "b"; bstr "--json"] =
  Ok (Run (MkOptions (bstr "a") DEFAULT_INTERVAL DEFAULT_TIMEOUT true true false None)).
Proof. vm_compute. reflexivity. Qed.

Lemma f64_to_u64_range x : 0 <= f64_to_u64 x <= u64_max.
Proof.
  destruct x as [s|[]| |[] m e]; cbn; unfold u64_max; try lia. unfold f64_trunc.
  destruct (0 <=? e) eqn:E; [assert (0 < 2 ^ e) by lia; nia|].
  pose proof (Z.div_pos (Zpos m) (2 ^ (- e)) ltac:(lia) ltac:(lia)). lia.
Qed.
Lemma duration_range option value d : parse_duration option value = Ok d -> 0 <= d <= u64_max * millis.
Proof.
  unfold parse_duration. destruct (match strip_suffix _ _ with Some n => _ | None => _ end) as [number multiplier].
  destruct (parse_f64 _) as [x|]; cbn; [|done]. destruct (_ || _); [done|]. destruct (f64_gt _ _); [done|].
  intros [= <-]. pose proof (f64_to_u64_range (f64_mul x (f64_of_u64 multiplier))). unfold millis. lia.
Qed.

(** The intervals an accepted command line can ask for, and what --json is. *)
Definition bounded (o : Options) : Prop :=
  0 <= opt_interval o <= u64_max * millis /\ 0 <= opt_timeout o <= u64_max * millis /\
  (opt_json o = true -> opt_once o = true).
Lemma set_value_bounded f v st st' : bounded st.1.1 -> set_value f v st = Ok st' -> bounded st'.1.1.
Proof.
  destruct st as [[o positional] flag]. unfold set_value, bounded. cbn [fst]. intros (H1 & H2 & H3).
  destruct (bool_decide _); [by intros [= <-]|]. do 2 (destruct (bool_decide _);
    [destruct (parse_duration _ v) as [d|] eqn:Hd; cbn [mbind result_bind]; [|done]; intros [= <-];
      apply duration_range in Hd; done|]).
  by intros [= <-].
Qed.
(** What the loop ends with: bounded options, or one of the early returns. *)
Definition loop_result (r : LoopState + Parsed) : Prop :=
  match r with inl st => bounded st.1.1 | inr p => p = Help \/ p = Version end.
Lemma loop_bounded args st r : bounded st.1.1 -> parse_loop args st = Ok r -> loop_result r.
Proof.
  enough (H : forall n args st, (length args <= n)%nat -> bounded st.1.1 -> parse_loop args st = Ok r -> loop_result r).
  { by apply (H (length args)). }
  clear args st. induction n as [|n IH]; intros [|raw rest] [[o positional] flag] Hn Hb; cbn [length] in Hn; try lia;
    try (by intros [= <-]).
  cbn [parse_loop]. destruct (from_utf8 raw) as [arg|]; [|done].
  do 2 (destruct (_ || _); [intros [= <-]; cbn; auto|]). destruct (bool_decide _).
  { apply IH; [lia|]. by destruct Hb as (? & ? & ?). }
  destruct (bool_decide _); [apply IH; [lia|by destruct Hb as (? & ? & _)]|].
  destruct (bool_decide _); [apply IH; [lia|done]|]. destruct (value_option arg) as [name|].
  - destruct rest as [|raw' rest]; [done|]. destruct (from_utf8 raw') as [v|]; [|done].
    destruct (set_value name v _) as [st|] eqn:Hs; cbn [mbind result_bind]; [|done].
    apply IH; [cbn [length] in Hn; lia|]. by eapply set_value_bounded.
  - destruct (_ && _); [done|]. destruct positional; [done|]. by apply IH; [lia|].
Qed.

(** An accepted command line polls at least a tenth of a second apart, never
    with a deadline of nothing, and prints JSON only with --once. *)
Theorem top_options_sane args o :
  parse args = Ok (Run o) ->
  MIN_INTERVAL <= opt_interval o <= u64_max * millis /\ 0 < opt_timeout o <= u64_max * millis /\
  (opt_json o = true -> opt_once o = true).
Proof.
  unfold parse. destruct (parse_loop args _) as [[st|p]|] eqn:Hl; cbn [mbind result_bind]; [| |done];
    (apply loop_bounded in Hl; [|done]).
  - destruct Hl as (H1 & H2 & H3). destruct st as [[o' positional] flag].
    unfold finish. set (o2 := match flag with Some _ => _ | None => _ end).
    assert (E : opt_interval o2 = opt_interval o' /\ opt_timeout o2 = opt_timeout o' /\ opt_json o2 = opt_json o' /\
      opt_once o2 = opt_once o') by (unfold o2; destruct flag, positional; done).
    clearbody o2. destruct E as (E1 & E2 & E3 & E4). cbn [fst] in *.
    destruct (_ <? _) eqn:Hi; [done|]. destruct (_ =? 0) eqn:Ht; [done|]. intros [= <-].
    rewrite E1, E2, E3, E4 in *. split_and!; lia || done.
  - intros [= ->]. by destruct Hl.
Qed.

Lemma top_options_sane_witness :
  exists o, parse [bstr "-i"; bstr "100ms"; bstr "--json"] = Ok (Run o) /\ MIN_INTERVAL <= opt_interval o /\ opt_once o = true.
Proof.
  eexists. split; [vm_compute; reflexivity|].
  match goal with |- MIN_INTERVAL <= opt_interval ?o /\ _ =>
    pose proof (top_options_sane [bstr "-i"; bstr "100ms"; bstr "--json"] o ltac:(vm_compute; reflexivity)) as H end.
  destruct H as (H1 & H2 & H3). split; [apply H1|by apply H3].
Defined.
